(* ===== verification/_CoqProject ===== *)
-Q . S2P
Prelude.v
Bytes.v
Vec128.v
VuOps.v
VuLane.v
VuArith.v
RspMem.v
VuMem.v
VuMemSpec.v
VuShared.v
VuRefine.v
VuExec.v
VuDiv.v
Rdram.v
RspCore.v
RspCoreSpec.v
Save.v
Pi.v
PiSpec.v
Files.v
FilesSpec.v
SavingThread.v
Floats.v
Json.v
Mips.v
MipsSpec.v
MipsRun.v
MathRoutines.v
Timer.v
SampleMips.v
SampleVu.v
GuestMem.v
Kernel.v
KernelSpec.v
Scheduler.v
MesgQueue.v
MesgQueueSpec.v
MesgSystem.v
SampleMesg.v
GbCart.v
GbCartSpec.v
Joybus.v
EventRing.v
AudioInput.v
SampleDevices.v
Overlays.v
OverlaysSpec.v
OverlaysLookup.v
OverlaysOps.v
Fragments.v
FragmentsSpec.v
SampleOverlays.v
ModManager.v
ModManagerSpec.v
ModOrder.v
Events.v
EventsSpec.v
SchedulerTick.v
EventsCosim.v
EventsCosimSpec.v
SampleEvents.v
Rom.v
RomSpec.v
AudioGuard.v
AudioGuardSpec.v
SampleRom.v
ModHooks.v
ModHooksSpec.v
ModSections.v
ModSectionsSpec.v
ModLink.v
ModLinkSpec.v
ModLinkSafe.v
SampleModCode.v
ModFiles.v
ModFilesSpec.v
SampleMods.v
Tiers.v
TiersSpec.v
SampleTiers.v
