(* ===== verification/Prelude.v ===== *)
(** N64ModernRuntime, the runtime of statically recompiled Nintendo 64 games:
    a verification library.

    * The program

    A recompiled game is native code that works on a byte array, the guest
    memory ([rdram]), and on a register context, and calls the functions of
    libultra, the console's system library, which this repository implements.
    ultramodern/ has the operating-system side: threads, message queues,
    timers, video and task events.  librecomp/ has the devices and what
    recompiled code needs: the RSP vector unit, DMA, cartridge bus and saves,
    controller accessories, overlays, the interpreter for code that was not
    recompiled, the library of ROMs, and mods, which add code to the game and
    patch the native functions of the program.  Exactly one game thread runs
    at a time; host threads (timer, saving, audio and video) reach the game
    through a queue of external messages that game threads drain.

    * Layout

    This file holds the machine integers, their casts, and the automation the
    other files share: [zlia] and [zcase], the hint database [mach].  Bytes.v
    has byte vectors.  A component is a file of definitions, named after what
    it models, and files of theorems (Spec, Lane, Refine, Exec); the
    Sample files apply the theorems at concrete inputs.

    RSP vector unit (librecomp/include/librecomp/rsp_vu.hpp and
    rsp_vu_impl.hpp).  Vec128: the register and the SSE4.1 intrinsics, lane by
    lane.  VuOps: every computational instruction, once as the portable loop
    ([_sisd]) and once as the SSE4.1 code ([_simd]).  VuShared: the
    instructions both builds share, the divide tables of rsp.cpp, CFC2 and
    CTC2.  VuMem: vector loads and stores over RspMem, the byte-swapped data
    memory of rsp.hpp.  VuLane, VuArith and VuRefine prove that the two forms
    of each instruction agree; VuExec lifts this to programs
    ([simd_refines_sisd]) and proves the register invariant; VuDiv bounds the
    error of the divides; VuMemSpec has the unaligned and packed round trips.

    RSP control (librecomp/src/rsp.cpp, rsp.hpp).  RspCore: SP_STATUS, the DMA
    engine and its macros, [run_task] with the microcode as a parameter.
    RspCoreSpec: the bits of SP_STATUS, the DMA round trip, the layout of a
    launched task.

    Guest memory.  Rdram: the interface of the macros of recomp.h ([RdramOps],
    [RdramLaws]) with a byte map as its instance.  GuestMem: the view of the
    C++ code, which reaches libultra's structures through [TO_PTR].

    Threads (ultramodern/src/threadqueue.cpp, scheduling.cpp, threads.cpp).
    Kernel: the intrusive queues as linked lists in guest memory, the scheduler
    and the thread calls.  KernelSpec and Scheduler: queue operations refine
    operations on priority-ordered lists, and the running thread is never
    outranked.

    Message queues (ultramodern/src/mesgqueue.cpp).  MesgQueue: send, jam,
    receive, blocking as suspended calls, the external queue behind the
    interface [ExtQueue].  MesgQueueSpec: they refine a bounded double-ended
    queue, and what draining host messages keeps and drops.
    MesgSystem: threads and the host interleaved as a step relation; messages
    arrive in order and no wake-up is lost in any reachable state.

    Timers (ultramodern/src/timer.cpp).  Timer: the clock and its conversions,
    the timer calls, the timer thread over its ordered set; timers fire in
    deadline order, not early, and clock arithmetic does not overflow.

    Scheduler tick (ultramodern/src/scheduler_tick.cpp, threads.cpp).
    SchedulerTick: the monitor's round, the tick that running code calls, the
    yield and its skip budget; a thread that never blocks gives way.

    Events (ultramodern/src/events.cpp, misc_ultra.cpp).  Events: the double
    buffered video state and its registers, the event slots, the queues of
    actions and tasks, a round of the video, graphics and task threads.
    EventsSpec: the two video states refine one pending and one shown state,
    retrace messages come every so many ticks; the three threads, the game, the
    drain and the waits as a step relation, in which every task is reported once,
    but for what a wait loses on a full queue, and the host threads come to rest.  EventsCosim and EventsCosimSpec:
    the co-simulation build, whose events are scheduled on a cycle clock and
    delivered by the game threads themselves.

    Cartridge bus and saves (librecomp/src/pi.cpp, eep.cpp, flash.cpp,
    files.cpp).  Save: the save buffer, EEPROM and FlashRAM calls.  Pi: ROM,
    SRAM and FlashRAM transfers, the chip's command register.  PiSpec: accesses
    stay inside, programming and erasing do what they say.  Files: files with a
    backup on a disk that may crash after any operation; FilesSpec: the old
    save survives an interrupted update.  SavingThread: the writers, the saving
    thread and the swap of the file as interleaved steps; signalled writes
    reach the file.

    Controller accessories (librecomp/src/gbcart.cpp, si_joybus.cpp).  GbCart:
    the Transfer Pak, with GbCartSpec; Joybus: the command block of a serial
    transfer over the interface [PakOps], which the Transfer Pak implements.

    Interpreter (librecomp/src/mips_interp.cpp).  Floats: IEEE 754 patterns
    over the specification floats of the Standard Library.  Mips: every opcode,
    delay slots, calls across the native boundary, the loop.  MipsSpec: the
    register invariant and independence of the fuel; MipsRun: arithmetic
    against a reference, straight-line functions, branches, calls and the depth
    limit.  MathRoutines (math_routines.cpp): 64-bit helpers on
    register pairs.

    Overlays (librecomp/src/overlays.cpp, sections.h).  Overlays: which native
    function runs at a guest address as the game moves its sections: transfers,
    loading by id, unloading, lookups, trampolines.  OverlaysSpec: every
    operation is a sequence of loads that fit and removals, so loaded sections
    stay apart and [section_addresses] follows them; OverlaysLookup: lookups
    find exactly what is loaded; OverlaysOps: which sections a transfer loads,
    what unloading removes and when it ends the program.
    Fragments: fragments the game unpacks itself, identified by header, hash and
    size, and the resolvers of their addresses, with FragmentsSpec.

    Missing functions (librecomp/src/overlays.cpp).  Tiers: what runs when a
    lookup finds no function: the recompiled function around the address, a
    compilation of the code in guest memory, compiled fragments keyed by content
    and compared with the interpreter, the interpreter; the manifest of fragments,
    the captures and the log, and the development build's comparison.  Recompiled
    code, the compiler and the interpreter's loop are parameters that reach the
    tables only through their callbacks ([guest_confined], [interp_confined]).
    TiersSpec: compiled code has no effect before it agreed with the interpreter
    often enough, when the program aborts, the manifest reads back.

    ROM library (librecomp/src/recomp.cpp, game.hpp).  Rom: version texts, the
    byte orders of a dump, choosing, storing, checking and loading a ROM, the
    game's status, the status register of recompiled code.  RomSpec: a ROM in
    any byte order is stored so that it loads, what each outcome of a choice
    means, version texts read back.

    Mods (librecomp/src/mods.cpp, mods.hpp).  ModManager: the opened mods, what
    is enabled by the user and what automatically, their order, the saved
    configuration, the load up to its dependency check.  ModManagerSpec: the
    automatically enabled mods are exactly what the enabled ones need, and the
    checks of a load, before any code is linked, pass exactly when every
    requirement is met; ModOrder: moving a mod and restoring the configuration.

    Mod files (librecomp/src/mod_manifest.cpp, mods.cpp, mod_config_api.cpp).
    Json: the values of a JSON library, whose texts are a class ([JsonText]).
    ModFiles: manifests field by field, archives and folders, the scan of the mod
    folder, the options of mods with their values and files, and the thread that
    saves, which writes through the backups of Files.  ModFilesSpec: an error says
    what is wrong with a manifest and an accepted one can be written down again,
    a scan accounts for every mod and opens none twice, values keep the types of
    their options, survive a crash while they are written and come back.

    Mod code (mods.cpp, overlays.cpp, mod_hooks.cpp, mod_events.cpp).
    ModSections: the first pass over the active mods, which places and
    relocates their sections in guest memory; ModSectionsSpec.  ModLink: the
    second and third pass, which make code handles, resolve imports, exports,
    callbacks, hooks and events, the regeneration of the game's functions that
    mods hook, and the patching of native functions in a memory of host code
    bytes.  ModLinkSpec: unloading restores the bytes, but for the regenerated
    functions, whose bytes the program does not keep, and a replacement that was
    asked for is in force, as a decoded jump; ModLinkSafe: after a first pass
    without errors the later passes look nothing up that is not there and report
    no internal error.  ModHooks: the tables of hooks and events and their
    dispatch, with ModHooksSpec.

    Audio guard (librecomp/src/audio_uaf_protect.cpp).  AudioGuard: the voices
    of the game's synthesizer in guest memory, silencing those that play from
    freed samples, the voice sampler and the decode ring.  AudioGuardSpec.

    Audio and controllers (ultramodern/src/audio.cpp, input.cpp, librecomp/src/ai.cpp,
    cont.cpp, pak.cpp, gbpak.cpp).  AudioInput: buffers that are kept until the next
    one is submitted (unless copies are instant), the ring of submissions, the length that a virtual converter
    drains; the controllers' queries and readings, rumble, and the accessory calls.
    Its theorems: each buffer is played once, one submission later or at once, and what a game
    finds in memory is what the host said of its controllers.

    Diagnostic rings (in mesgqueue.cpp, threadqueue.cpp, rsp.cpp, gbcart.cpp).
    EventRing: recording and reading back.

    * Conventions

    A w-bit integer is a [Z]; unsigned values lie in [0,2^w) and every cast of
    the source is written out ([u32], [s16], ...).  State is passed explicitly.
    A call that can fault, throw or be undefined returns an option or a sum
    type whose cases say which.  A blocked call is its caller's phase, and
    resuming it is a step of its own.  Host clocks and what lies outside the
    repository (recomp.h, the microcode, moodycamel's queue, the function table
    of the recompiler) are arguments or classes; laws are stated only where a
    theorem needs them, and an instance shows that they can hold.

    * Loops and fuel

    Loops over a range are structural.  [queue_guard] (0x40000) is the source's
    own bound on list walks.  [isqrt_fuel] (131073) is enough for the square
    root loop by [rspInverseSquareRoots_spec].  The drain of external messages
    takes the length of the queue plus one, by [drain_keeps_reliable] enough;
    the joybus loop takes 64, by [run_joybus_block] enough, since each round
    advances in a block of 64 bytes.  Eviction takes the number of loaded
    sections, since each round unloads one ([evict_clears]).  The walk over the
    mods that an enabled mod needs takes [walk_fuel], enough by
    [toggles_keep_required], since a mod is entered once.  The delivery of co-simulation events takes the pending
    events plus one, enough by [delivery_in_due_order].  Walks over the lists of
    voices take the source's own bound.  A decimal number of a version has at
    most ten digits.  [dispatch] takes the depth of nested calls, and its theorems
    hold for any.  The interpreter may run forever, as the code may: its
    theorems give the fuel that suffices, or hold for any.

    * Not modelled

    Host threads and their priorities, the renderer, the audio and input devices
    behind the callbacks: they are I/O, whose answers are arguments, and which reach
    the guest through the external messages and the rounds of the event threads.  The compilers and the finder
    of function bounds, the parser of mod symbols, native libraries, archives,
    hashing and the texts of JSON: code in libraries that are not in the
    repository, and parameters of the files that call them.  The handles of
    regenerated code, which only keep it alive.  The heap wraps o1heap, a submodule.  Tracing, dumps to
    files, console messages, and of the co-simulation build (N64_COSIM) all but
    the events.  Character tables and printing.  Assertions that vanish in a
    release build are hypotheses where they matter. *)

From Stdlib Require Import ZArith Lia Bool List.
Import ListNotations.
Open Scope Z_scope.

(** * Machine integers

    The runtime is C++ on a two's-complement machine.  An unsigned w-bit
    value is a [Z] in [0, 2^w); the conversions below are the casts. *)

Definition u8 (x : Z) : Z := x mod 256.
Definition u16 (x : Z) : Z := x mod 65536.
Definition u32 (x : Z) : Z := x mod 4294967296.
Definition u64 (x : Z) : Z := x mod 18446744073709551616.

Definition s8 (x : Z) : Z := let y := x mod 256 in if y <? 128 then y else y - 256.
Definition s16 (x : Z) : Z := let y := x mod 65536 in if y <? 32768 then y else y - 65536.
Definition s32 (x : Z) : Z :=
  let y := x mod 4294967296 in if y <? 2147483648 then y else y - 4294967296.
Definition s64 (x : Z) : Z :=
  let y := x mod 18446744073709551616 in
  if y <? 9223372036854775808 then y else y - 18446744073709551616.

Definition is_u8 (x : Z) : Prop := 0 <= x < 256.
Definition is_u16 (x : Z) : Prop := 0 <= x < 65536.
Definition is_u32 (x : Z) : Prop := 0 <= x < 4294967296.
Definition is_s16 (x : Z) : Prop := -32768 <= x < 32768.
Definition is_s32 (x : Z) : Prop := -2147483648 <= x < 2147483648.

(** A 16-bit lane used as a truth value by the vector unit. *)
Definition is_mask (x : Z) : Prop := x = 0 \/ x = 65535.

Definition b2z (b : bool) : Z := if b then 1 else 0.

(** [lia] with division and remainder by constants turned into equations. *)
Ltac zlia := Z.div_mod_to_equations; lia.

(** Case analysis on every boolean comparison of the goal, innermost first. *)
Ltac noif t := lazymatch t with context [if _ then _ else _] => fail | _ => idtac end.
Ltac zcase_step :=
  match goal with
  | |- context [?a >? ?b] => rewrite (Z.gtb_ltb a b)
  | |- context [?a >=? ?b] => rewrite (Z.geb_leb a b)
  | |- context [?a <? ?b] => noif a; noif b; destruct (Z.ltb_spec a b)
  | |- context [?a <=? ?b] => noif a; noif b; destruct (Z.leb_spec a b)
  | |- context [?a =? ?b] => noif a; noif b; destruct (Z.eqb_spec a b)
  end.
Ltac zcase := repeat (zcase_step; try lia).

Create HintDb mach.
Create Rewrite HintDb mach.

Lemma u8_range x : is_u8 (u8 x).
Proof. unfold is_u8, u8. apply Z.mod_pos_bound. lia. Qed.
Lemma u16_range x : is_u16 (u16 x).
Proof. unfold is_u16, u16. apply Z.mod_pos_bound. lia. Qed.
Lemma u32_range x : is_u32 (u32 x).
Proof. unfold is_u32, u32. apply Z.mod_pos_bound. lia. Qed.
Lemma s16_range x : is_s16 (s16 x).
Proof. unfold is_s16, s16. zcase; zlia. Qed.
Lemma s32_range x : is_s32 (s32 x).
Proof. unfold is_s32, s32. zcase; zlia. Qed.

Lemma u8_small x : is_u8 x -> u8 x = x.
Proof. unfold is_u8, u8. intros. apply Z.mod_small. lia. Qed.
Lemma u16_small x : is_u16 x -> u16 x = x.
Proof. unfold is_u16, u16. intros. apply Z.mod_small. lia. Qed.
Lemma u32_small x : is_u32 x -> u32 x = x.
Proof. unfold is_u32, u32. intros. apply Z.mod_small. lia. Qed.
Lemma s16_small x : is_s16 x -> s16 x = x.
Proof. unfold is_s16, s16. intros. zcase; zlia. Qed.
Lemma s32_small x : is_s32 x -> s32 x = x.
Proof. unfold is_s32, s32. intros. zcase; zlia. Qed.

Lemma u16_u16 x : u16 (u16 x) = u16 x.
Proof. apply u16_small, u16_range. Qed.
Lemma u16_s16 x : u16 (s16 x) = u16 x.
Proof. unfold u16, s16. zcase; zlia. Qed.
Lemma s16_u16 x : s16 (u16 x) = s16 x.
Proof. unfold u16, s16. zcase; zlia. Qed.

Lemma mask_u16 x : is_mask x -> is_u16 x.
Proof. unfold is_mask, is_u16. lia. Qed.
Lemma is_mask_if (b : bool) : is_mask (if b then 65535 else 0).
Proof. destruct b; unfold is_mask; lia. Qed.

#[export] Hint Resolve u8_range u16_range u32_range s16_range s32_range mask_u16
  is_mask_if : mach.
#[export] Hint Rewrite u16_u16 u16_s16 s16_u16 : mach.

(** * Bit operations on 16-bit values *)

Lemma land_ones16 x : Z.land x 65535 = u16 x.
Proof. change 65535 with (Z.ones 16). rewrite Z.land_ones by lia. reflexivity. Qed.

Lemma land_bound_r a b : 0 <= b -> 0 <= Z.land a b <= b.
Proof.
  intros Hb. split; [apply Z.land_nonneg; lia|].
  pose proof (Z.add_nocarry_lxor (Z.land a b) (Z.ldiff b a)) as H.
  rewrite <- (Z.land_comm b a) in *.
  rewrite <- (Z.lor_ldiff_and b a) at 2.
  rewrite Z.lor_comm.
  assert (E : Z.land (Z.land b a) (Z.ldiff b a) = 0).
  { apply Z.bits_inj'. intros n Hn. rewrite Z.bits_0, !Z.land_spec, Z.ldiff_spec.
    destruct (Z.testbit b n), (Z.testbit a n); reflexivity. }
  rewrite <- Z.lxor_lor by exact E. rewrite <- Z.add_nocarry_lxor by exact E.
  assert (0 <= Z.ldiff b a) by (apply Z.ldiff_nonneg; lia). lia.
Qed.

Lemma lor_bound k a b : 0 <= k -> 0 <= a < 2 ^ k -> 0 <= b < 2 ^ k -> 0 <= Z.lor a b < 2 ^ k.
Proof.
  intros Hk Ha Hb. split; [apply Z.lor_nonneg; lia|].
  destruct (Z.eq_dec (Z.lor a b) 0) as [->|N]; [apply Z.pow_pos_nonneg; lia|].
  assert (0 <= Z.lor a b) by (apply Z.lor_nonneg; lia).
  apply Z.log2_lt_pow2; [lia|]. rewrite Z.log2_lor by lia.
  apply Z.max_lub_lt.
  - destruct (Z.eq_dec a 0) as [->|]; [|apply Z.log2_lt_pow2; lia].
    destruct (Z.eq_dec b 0) as [->|]; [rewrite Z.lor_0_l in N; lia|].
    destruct (Z.eq_dec k 0) as [->|]; [change (2^0) with 1 in *; lia|simpl Z.log2; lia].
  - destruct (Z.eq_dec b 0) as [->|]; [|apply Z.log2_lt_pow2; lia].
    destruct (Z.eq_dec k 0) as [->|]; [change (2^0) with 1 in *|simpl Z.log2; lia].
    assert (a = 0) by lia. subst. rewrite Z.lor_0_l in N. lia.
Qed.

Lemma lxor_bound k a b : 0 <= k -> 0 <= a < 2 ^ k -> 0 <= b < 2 ^ k -> 0 <= Z.lxor a b < 2 ^ k.
Proof.
  intros Hk Ha Hb.
  assert (E : Z.lxor a b = Z.lxor a b mod 2 ^ k).
  { rewrite <- Z.land_ones by lia. apply Z.bits_inj'. intros n Hn.
    rewrite Z.land_spec, Z.lxor_spec.
    destruct (Z.ltb_spec n k).
    - rewrite Z.ones_spec_low by lia. rewrite andb_true_r. reflexivity.
    - rewrite Z.ones_spec_high by lia. rewrite andb_false_r.
      rewrite <- (Z.mod_small a (2 ^ k)), <- (Z.mod_small b (2 ^ k)) by lia.
      rewrite !Z.mod_pow2_bits_high by lia. reflexivity. }
  rewrite E. apply Z.mod_pos_bound. apply Z.pow_pos_nonneg; lia.
Qed.

Lemma lxor_inj x y : Z.lxor x 3 = Z.lxor y 3 -> x = y.
Proof.
  intros H. apply (f_equal (fun a => Z.lxor a 3)) in H. rewrite !Z.lxor_assoc, Z.lxor_nilpotent, !Z.lxor_0_r in H. exact H.
Qed.

Lemma lor_add k a b : 0 <= k -> 0 <= b < 2 ^ k -> Z.lor (a * 2 ^ k) b = a * 2 ^ k + b.
Proof.
  intros Hk Hb.
  assert (E : Z.land (a * 2 ^ k) b = 0).
  { apply Z.bits_inj'. intros n Hn. rewrite Z.bits_0, Z.land_spec.
    destruct (Z.ltb_spec n k).
    - rewrite Z.mul_pow2_bits_low by lia. reflexivity.
    - rewrite <- (Z.mod_small b (2 ^ k)) by lia.
      rewrite Z.mod_pow2_bits_high by lia. apply andb_false_r. }
  rewrite <- Z.lxor_lor by exact E. rewrite <- Z.add_nocarry_lxor by exact E. reflexivity.
Qed.

Lemma land16_range a b : is_u16 a -> is_u16 b -> is_u16 (Z.land a b).
Proof. unfold is_u16. intros. pose proof (land_bound_r a b). lia. Qed.
Lemma lor16_range a b : is_u16 a -> is_u16 b -> is_u16 (Z.lor a b).
Proof. unfold is_u16. intros. pose proof (lor_bound 16 a b). simpl Z.pow in *. lia. Qed.
Lemma lxor16_range a b : is_u16 a -> is_u16 b -> is_u16 (Z.lxor a b).
Proof. unfold is_u16. intros. pose proof (lxor_bound 16 a b). simpl Z.pow in *. lia. Qed.
#[export] Hint Resolve land16_range lor16_range lxor16_range : mach.

Lemma land_full_r x : is_u16 x -> Z.land x 65535 = x.
Proof. intros. rewrite land_ones16. apply u16_small. assumption. Qed.
Lemma land_full_l x : is_u16 x -> Z.land 65535 x = x.
Proof. intros. rewrite Z.land_comm. apply land_full_r. assumption. Qed.
Lemma lxor_full_r x : is_u16 x -> Z.lxor x 65535 = 65535 - x.
Proof.
  intros Hx. change 65535 with (Z.ones 16) at 1.
  assert (E : Z.lxor x (Z.ones 16) = Z.land (Z.lnot x) (Z.ones 16)).
  { apply Z.bits_inj'. intros n Hn. rewrite Z.lxor_spec, Z.land_spec, Z.lnot_spec by lia.
    destruct (Z.ltb_spec n 16).
    - rewrite Z.ones_spec_low by lia. destruct (Z.testbit x n); reflexivity.
    - rewrite Z.ones_spec_high by lia. unfold is_u16 in Hx.
      rewrite <- (Z.mod_small x (2 ^ 16)) by (simpl Z.pow; lia).
      rewrite Z.mod_pow2_bits_high by lia. reflexivity. }
  rewrite E, Z.land_ones by lia. unfold Z.lnot. unfold is_u16 in Hx.
  change (2 ^ 16) with 65536. zlia.
Qed.
Lemma lxor_full_l x : is_u16 x -> Z.lxor 65535 x = 65535 - x.
Proof. intros. rewrite Z.lxor_comm. apply lxor_full_r. assumption. Qed.
Lemma lor_full_r x : is_u16 x -> Z.lor x 65535 = 65535.
Proof.
  intros Hx. pose proof (lor16_range x 65535 Hx ltac:(unfold is_u16; lia)) as Hr.
  rewrite <- (land_full_r (Z.lor x 65535)) by assumption.
  apply Z.bits_inj'. intros n Hn. rewrite Z.land_spec, Z.lor_spec.
  destruct (Z.testbit x n), (Z.testbit 65535 n); reflexivity.
Qed.
Lemma lor_full_l x : is_u16 x -> Z.lor 65535 x = 65535.
Proof. intros. rewrite Z.lor_comm. apply lor_full_r. assumption. Qed.

(** * Single bits and aligned masks *)

Lemma land_pow2 x n : 0 <= n -> (Z.land x (2 ^ n) =? 0) = negb (Z.testbit x n).
Proof.
  intros Hn. destruct (Z.testbit x n) eqn:E; cbn [negb].
  - apply Z.eqb_neq. intros H. apply (f_equal (fun y => Z.testbit y n)) in H.
    rewrite Z.land_spec, E, Z.pow2_bits_true, Z.bits_0 in H by assumption. discriminate.
  - apply Z.eqb_eq. apply Z.bits_inj'. intros k Hk. rewrite Z.land_spec, Z.pow2_bits_eqb, Z.bits_0 by assumption.
    destruct (Z.eqb_spec n k) as [<-|]; [rewrite E; reflexivity|apply andb_false_r].
Qed.

Lemma shiftl_1 n : 0 <= n -> Z.shiftl 1 n = 2 ^ n.
Proof. intros. rewrite Z.shiftl_mul_pow2, Z.mul_1_l by assumption. reflexivity. Qed.

(** [x & (((1 << m) - 1) << k)] *)
Lemma land_shifted_ones x k m : 0 <= k -> 0 <= m ->
  Z.land x (Z.shiftl (Z.ones m) k) = (x / 2 ^ k mod 2 ^ m) * 2 ^ k.
Proof.
  intros Hk Hm. rewrite <- Z.shiftr_div_pow2, <- Z.land_ones, <- Z.shiftl_mul_pow2 by assumption.
  apply Z.bits_inj'. intros n Hn. rewrite Z.land_spec.
  destruct (Z.ltb_spec n k).
  - rewrite !Z.shiftl_spec_low by lia. apply andb_false_r.
  - rewrite !Z.shiftl_spec, Z.land_spec, Z.shiftr_spec by lia. replace (n - k + k) with n by lia. reflexivity.
Qed.
Lemma land_ones_mod x m : 0 <= m -> Z.land x (2 ^ m - 1) = x mod 2 ^ m.
Proof. intros. rewrite <- Z.land_ones by assumption. rewrite Z.ones_equiv. reflexivity. Qed.
