(* ===== verification/Bytes.v ===== *)
(** Byte vectors: lists of integers read and written by index, shared by the
    components that keep buffers ([std::vector], [std::array], files). *)

From S2P Require Import Prelude.
From Stdlib Require Import ZArith Lia Bool List.
From stdpp Require Import base list.
Open Scope Z_scope.

Definition vec_size (l : list Z) : Z := Z.of_nat (length l).
(** [l[i]], for an index in range. *)
Definition byte_at (l : list Z) (i : Z) : Z := default 0 (l !! Z.to_nat i).
Definition set_byte (l : list Z) (i v : Z) : list Z := <[Z.to_nat i := v]> l.

(** [std::copy] and [std::memcpy] into a buffer, at an offset in range. *)
Definition splice (off : Z) (bytes buf : list Z) : list Z :=
  take (Z.to_nat off) buf ++ bytes ++ drop (Z.to_nat (off + vec_size bytes)) buf.
(** [std::fill] of [n] elements. *)
Definition fill (n v : Z) : list Z := replicate (Z.to_nat n) v.
(** [n] elements from an offset. *)
Definition slice (off n : Z) (buf : list Z) : list Z := take (Z.to_nat n) (drop (Z.to_nat off) buf).

Lemma vec_size_nonneg l : 0 <= vec_size l.
Proof. unfold vec_size. lia. Qed.
Lemma byte_at_set l i j v : 0 <= i < vec_size l -> 0 <= j ->
  byte_at (set_byte l i v) j = if i =? j then v else byte_at l j.
Proof.
  unfold byte_at, set_byte, vec_size. intros Hi Hj. destruct (Z.eqb_spec i j) as [->|N].
  - rewrite list_lookup_insert_eq by lia. reflexivity.
  - rewrite list_lookup_insert_ne by lia. reflexivity.
Qed.
Lemma size_set l i v : vec_size (set_byte l i v) = vec_size l.
Proof. unfold vec_size, set_byte. rewrite length_insert. reflexivity. Qed.

Lemma seqZ_bytes l : (fun i => byte_at l i) <$> seqZ 0 (vec_size l) = l.
Proof.
  apply list_eq. intros i. rewrite list_lookup_fmap. unfold vec_size, byte_at.
  destruct (decide (i < length l)%nat) as [Hi|Hi].
  - rewrite lookup_seqZ_lt by lia. cbn [option_map fmap option_fmap]. rewrite Z.add_0_l, Nat2Z.id.
    destruct (lookup_lt_is_Some_2 l i Hi) as [x ->]. reflexivity.
  - rewrite lookup_seqZ_ge, lookup_ge_None_2 by lia. reflexivity.
Qed.
Lemma fmap_seqZ_shift (f g : Z -> Z) a n : (forall i, 0 <= i < n -> f (a + i) = g i) -> f <$> seqZ a n = g <$> seqZ 0 n.
Proof.
  intros H. apply list_eq. intros i. rewrite !list_lookup_fmap. destruct (decide (Z.of_nat i < n)) as [Hi|Hi].
  - rewrite !lookup_seqZ_lt by lia. cbn [fmap option_fmap option_map]. rewrite Z.add_0_l, H by lia. reflexivity.
  - rewrite !lookup_seqZ_ge by lia. reflexivity.
Qed.
Lemma byte_at_fmap_seqZ f n i : 0 <= i < n -> byte_at (f <$> seqZ 0 n) i = f i.
Proof.
  intros Hi. unfold byte_at. rewrite list_lookup_fmap, lookup_seqZ_lt by lia. cbn. f_equal. lia.
Qed.
Lemma size_fmap_seqZ (f : Z -> Z) n : 0 <= n -> vec_size (f <$> seqZ 0 n) = n.
Proof. intros Hn. unfold vec_size. rewrite length_fmap, length_seqZ. lia. Qed.
Lemma size_fill n v : 0 <= n -> vec_size (fill n v) = n.
Proof. intros Hn. unfold vec_size, fill. rewrite length_replicate. lia. Qed.
Lemma byte_at_fill n v i : 0 <= i < n -> byte_at (fill n v) i = v.
Proof. intros Hi. unfold byte_at, fill. rewrite lookup_replicate_2 by lia. reflexivity. Qed.

Lemma size_splice off bytes buf : 0 <= off -> off + vec_size bytes <= vec_size buf ->
  vec_size (splice off bytes buf) = vec_size buf.
Proof.
  unfold splice, vec_size. intros H0 H. rewrite !length_app, length_take, length_drop. lia.
Qed.
Lemma byte_at_splice off bytes buf i : 0 <= off -> off + vec_size bytes <= vec_size buf -> 0 <= i ->
  byte_at (splice off bytes buf) i =
  if (off <=? i) && (i <? off + vec_size bytes) then byte_at bytes (i - off) else byte_at buf i.
Proof.
  unfold splice, vec_size, byte_at. intros H0 H Hi.
  destruct (Z.leb_spec off i), (Z.ltb_spec i (off + Z.of_nat (length bytes))); cbn [andb]; try lia; do 1 f_equal.
  - rewrite lookup_app_r, length_take by (rewrite length_take; lia).
    rewrite lookup_app_l by lia. f_equal. lia.
  - rewrite lookup_app_r, length_take by (rewrite length_take; lia).
    rewrite lookup_app_r by lia. rewrite lookup_drop. f_equal. lia.
  - rewrite lookup_app_l by (rewrite length_take; lia). apply lookup_take_lt. lia.
Qed.
Lemma bytes_ext a b : vec_size a = vec_size b -> (forall i, 0 <= i < vec_size a -> byte_at a i = byte_at b i) -> a = b.
Proof.
  intros Hs H. rewrite <- (seqZ_bytes a), <- (seqZ_bytes b), <- Hs.
  apply list_eq. intros k. rewrite !list_lookup_fmap. destruct (decide (Z.of_nat k < vec_size a)) as [Hk|Hk].
  - rewrite lookup_seqZ_lt by lia. cbn. f_equal. apply H. lia.
  - rewrite lookup_seqZ_ge by lia. reflexivity.
Qed.
Lemma slice_all l : slice 0 (vec_size l) l = l.
Proof. unfold slice, vec_size. rewrite drop_0. apply take_ge. lia. Qed.
(** A copy that covers the buffer. *)
Lemma splice_over bytes buf : vec_size buf = vec_size bytes -> splice 0 bytes buf = bytes.
Proof.
  intros Hs. unfold splice. change (Z.to_nat 0) with 0%nat. rewrite take_0, drop_ge, app_nil_r; [reflexivity|].
  unfold vec_size in *. lia.
Qed.
(** A copy of the first bytes leaves the rest of a filled buffer. *)
Lemma splice_start n v l : (n <= length l)%nat ->
  splice 0 (slice 0 (vec_size l) (take n l)) (fill (vec_size l) v) = take n l ++ fill (vec_size l - Z.of_nat n) v.
Proof.
  intros Hn. assert (Hl : length (take n l) = n) by (rewrite length_take; lia). unfold splice, slice, vec_size, fill.
  change (Z.to_nat 0) with 0%nat. rewrite drop_0, Nat2Z.id, (take_ge (take n l)) by lia. rewrite take_0, Hl.
  cbn [app]. f_equal. replace (Z.to_nat (0 + Z.of_nat n)) with n by lia. rewrite drop_replicate. f_equal. lia.
Qed.
