(* ===== verification/Vec128.v ===== *)
(** The 128-bit vector register of the RSP vector unit ([RSP::r128] of
    librecomp/include/librecomp/rsp_vu.hpp) and the lane semantics of the
    SSE4.1 intrinsics the vector unit is compiled to on x86-64 and ARM64. *)

From S2P Require Import Prelude.
From Stdlib Require Import ZArith Lia Bool List.
Import ListNotations.
Open Scope Z_scope.

(** [r128]: element [n] of the C++ union is the [n]-th field here; element 0
    is the most significant 16-bit lane ([((uint16_t* )&u128)[7 - index]]). *)
Record r128 := R128 { ln0 : Z; ln1 : Z; ln2 : Z; ln3 : Z; ln4 : Z; ln5 : Z; ln6 : Z; ln7 : Z }.

Definition zero : r128 := R128 0 0 0 0 0 0 0 0.
Definition invert : r128 := R128 65535 65535 65535 65535 65535 65535 65535 65535.

(** [element(index)] / [u16(index)], reading and writing; an index above 7 is
    outside the C++ object, here it reads 0 and writes nothing. *)
Definition element (v : r128) (n : nat) : Z :=
  match n with
  | 0%nat => ln0 v | 1%nat => ln1 v | 2%nat => ln2 v | 3%nat => ln3 v
  | 4%nat => ln4 v | 5%nat => ln5 v | 6%nat => ln6 v | 7%nat => ln7 v
  | _ => 0
  end.

Definition set_raw (v : r128) (n : nat) (x : Z) : r128 :=
  let '(R128 a b c d e f g h) := v in
  match n with
  | 0%nat => R128 x b c d e f g h | 1%nat => R128 a x c d e f g h
  | 2%nat => R128 a b x d e f g h | 3%nat => R128 a b c x e f g h
  | 4%nat => R128 a b c d x f g h | 5%nat => R128 a b c d e x g h
  | 6%nat => R128 a b c d e f x h | 7%nat => R128 a b c d e f g x
  | _ => v
  end.
(** Assigning to a lane truncates to 16 bits. *)
Definition set_element (v : r128) (n : nat) (x : Z) : r128 := set_raw v n (u16 x).

(** [s16(index)] reads the same lane as a signed integer. *)
Definition es16 (v : r128) (n : nat) : Z := s16 (element v n).

(** [get(index)] and [set(index, value)] of the VCx flag registers. *)
Definition getf (v : r128) (n : nat) : bool := negb (element v n =? 0).
Definition setf (v : r128) (n : nat) (b : bool) : r128 := set_element v n (0 - b2z b).

(** [byte(index)]: big-endian byte [index] of the register, index in 0..15. *)
Definition byte (v : r128) (i : nat) : Z :=
  let x := element v (Nat.div i 2) in
  if Nat.even i then x / 256 else x mod 256.

Definition set_byte (v : r128) (i : nat) (b : Z) : r128 :=
  let n := Nat.div i 2 in
  let x := element v n in
  set_element v n (if Nat.even i then u8 b * 256 + x mod 256 else x / 256 * 256 + u8 b).

(** The loop [for (u32 n = 0; n < 8; n++)]. *)
Definition for8 {S : Type} (body : nat -> S -> S) (s : S) : S :=
  body 7%nat (body 6%nat (body 5%nat (body 4%nat
    (body 3%nat (body 2%nat (body 1%nat (body 0%nat s))))))).

Lemma for8_ext {S : Type} (f g : nat -> S -> S) s :
  (forall n s, f n s = g n s) -> for8 f s = for8 g s.
Proof. intros H. unfold for8. rewrite !H. reflexivity. Qed.

(** [v.u16(dst) = v.u16(src)] *)
Definition cp (dst src : nat) (v : r128) : r128 := set_element v dst (element v src).

(** The portable (SISD) version of [r128::operator()]. *)
Definition vte_sisd (v : r128) (index : nat) : r128 :=
  match index with
  | 0%nat => v
  | 1%nat => v
  | 2%nat => cp 7 6 (cp 5 4 (cp 3 2 (cp 1 0 v)))
  | 3%nat => cp 6 7 (cp 4 5 (cp 2 3 (cp 0 1 v)))
  | 4%nat => cp 5 4 (cp 6 4 (cp 7 4 (cp 1 0 (cp 2 0 (cp 3 0 v)))))
  | 5%nat => cp 4 5 (cp 6 5 (cp 7 5 (cp 0 1 (cp 2 1 (cp 3 1 v)))))
  | 6%nat => cp 4 6 (cp 5 6 (cp 7 6 (cp 0 2 (cp 1 2 (cp 3 2 v)))))
  | 7%nat => cp 4 7 (cp 5 7 (cp 6 7 (cp 0 3 (cp 1 3 (cp 2 3 v)))))
  | 8%nat => for8 (fun n v => cp n 0 v) v
  | 9%nat => for8 (fun n v => cp n 1 v) v
  | 10%nat => for8 (fun n v => cp n 2 v) v
  | 11%nat => for8 (fun n v => cp n 3 v) v
  | 12%nat => for8 (fun n v => cp n 4 v) v
  | 13%nat => for8 (fun n v => cp n 5 v) v
  | 14%nat => for8 (fun n v => cp n 6 v) v
  | 15%nat => for8 (fun n v => cp n 7 v) v
  | _ => v
  end.

(** * SSE4.1 intrinsics

    Each intrinsic is a function on the eight 16-bit lanes, following its
    documented per-lane semantics.  The lane order matters only to the
    unpack, pack, shuffle and movemask intrinsics, which see the register in
    memory order: lane 0 of the intrinsic is element 7. *)

Definition vmap (f : Z -> Z) (a : r128) : r128 :=
  R128 (f (ln0 a)) (f (ln1 a)) (f (ln2 a)) (f (ln3 a)) (f (ln4 a)) (f (ln5 a)) (f (ln6 a)) (f (ln7 a)).
Definition vmap2 (f : Z -> Z -> Z) (a b : r128) : r128 :=
  R128 (f (ln0 a) (ln0 b)) (f (ln1 a) (ln1 b)) (f (ln2 a) (ln2 b)) (f (ln3 a) (ln3 b))
       (f (ln4 a) (ln4 b)) (f (ln5 a) (ln5 b)) (f (ln6 a) (ln6 b)) (f (ln7 a) (ln7 b)).
Definition vmap3 (f : Z -> Z -> Z -> Z) (a b c : r128) : r128 :=
  R128 (f (ln0 a) (ln0 b) (ln0 c)) (f (ln1 a) (ln1 b) (ln1 c)) (f (ln2 a) (ln2 b) (ln2 c))
       (f (ln3 a) (ln3 b) (ln3 c)) (f (ln4 a) (ln4 b) (ln4 c)) (f (ln5 a) (ln5 b) (ln5 c))
       (f (ln6 a) (ln6 b) (ln6 c)) (f (ln7 a) (ln7 b) (ln7 c)).

Definition clamp16 (x : Z) : Z := Z.max (-32768) (Z.min 32767 x).

Definition add16 a b := u16 (a + b).
Definition sub16 a b := u16 (a - b).
Definition adds16 a b := u16 (clamp16 (s16 a + s16 b)).
Definition subs16 a b := u16 (clamp16 (s16 a - s16 b)).
Definition addus16 a b := Z.min 65535 (a + b).
Definition subus16 a b := Z.max 0 (a - b).
Definition min16 a b := if s16 a <? s16 b then a else b.
Definition max16 a b := if s16 b <? s16 a then a else b.
Definition cmpeq16 a b := if a =? b then 65535 else 0.
Definition cmpgt16 a b := if s16 b <? s16 a then 65535 else 0.
Definition cmplt16 a b := if s16 a <? s16 b then 65535 else 0.
Definition andnot16 a b := Z.land (65535 - a) b.
Definition mullo16 a b := u16 (s16 a * s16 b).
Definition mulhi16 a b := u16 (Z.shiftr (s16 a * s16 b) 16).
Definition mulhiu16 a b := Z.shiftr (a * b) 16.
Definition srai16 (k : Z) a := u16 (Z.shiftr (s16 a) k).
Definition srli16 (k : Z) a := Z.shiftr a k.
Definition slli16 (k : Z) a := u16 (Z.shiftl a k).
(** [_mm_blendv_epi8] selects per byte, on the top bit of the mask byte. *)
Definition blendv16 a b m :=
  (if Z.testbit m 15 then b / 256 else a / 256) * 256 +
  (if Z.testbit m 7 then b mod 256 else a mod 256).

Definition _mm_add_epi16 := vmap2 add16.
Definition _mm_sub_epi16 := vmap2 sub16.
Definition _mm_adds_epi16 := vmap2 adds16.
Definition _mm_subs_epi16 := vmap2 subs16.
Definition _mm_adds_epu16 := vmap2 addus16.
Definition _mm_subs_epu16 := vmap2 subus16.
Definition _mm_min_epi16 := vmap2 min16.
Definition _mm_max_epi16 := vmap2 max16.
Definition _mm_cmpeq_epi16 := vmap2 cmpeq16.
Definition _mm_cmpgt_epi16 := vmap2 cmpgt16.
Definition _mm_cmplt_epi16 := vmap2 cmplt16.
Definition _mm_and_si128 := vmap2 Z.land.
Definition _mm_or_si128 := vmap2 Z.lor.
Definition _mm_xor_si128 := vmap2 Z.lxor.
Definition _mm_andnot_si128 := vmap2 andnot16.
Definition _mm_mullo_epi16 := vmap2 mullo16.
Definition _mm_mulhi_epi16 := vmap2 mulhi16.
Definition _mm_mulhi_epu16 := vmap2 mulhiu16.
Definition _mm_srai_epi16 (a : r128) (k : Z) := vmap (srai16 k) a.
Definition _mm_srli_epi16 (a : r128) (k : Z) := vmap (srli16 k) a.
Definition _mm_slli_epi16 (a : r128) (k : Z) := vmap (slli16 k) a.
Definition _mm_blendv_epi8 := vmap3 blendv16.

(** Interleave the low (resp. high) four 16-bit lanes of two registers. *)
Definition _mm_unpacklo_epi16 (a b : r128) : r128 :=
  R128 (ln4 b) (ln4 a) (ln5 b) (ln5 a) (ln6 b) (ln6 a) (ln7 b) (ln7 a).
Definition _mm_unpackhi_epi16 (a b : r128) : r128 :=
  R128 (ln0 b) (ln0 a) (ln1 b) (ln1 a) (ln2 b) (ln2 a) (ln3 b) (ln3 a).

(** Pack 32-bit lanes to 16 bits with signed saturation; [a] gives the low
    four result lanes, [b] the high four. *)
Definition sat32 (hi lo : Z) : Z := u16 (clamp16 (s32 (hi * 65536 + lo))).
Definition _mm_packs_epi32 (a b : r128) : r128 :=
  R128 (sat32 (ln0 b) (ln1 b)) (sat32 (ln2 b) (ln3 b)) (sat32 (ln4 b) (ln5 b)) (sat32 (ln6 b) (ln7 b))
       (sat32 (ln0 a) (ln1 a)) (sat32 (ln2 a) (ln3 a)) (sat32 (ln4 a) (ln5 a)) (sat32 (ln6 a) (ln7 a)).

(** Byte-granular view, in memory order (byte 0 least significant). *)
Definition bytes_le (v : r128) : list Z :=
  flat_map (fun x => [x mod 256; x / 256])
    [ln7 v; ln6 v; ln5 v; ln4 v; ln3 v; ln2 v; ln1 v; ln0 v].
Definition of_bytes_le (b : list Z) : r128 :=
  let w k := nth (2 * k + 1) b 0 * 256 + nth (2 * k) b 0 in
  R128 (w 7%nat) (w 6%nat) (w 5%nat) (w 4%nat) (w 3%nat) (w 2%nat) (w 1%nat) (w 0%nat).

Definition _mm_set_epi8 (b15 b14 b13 b12 b11 b10 b9 b8 b7 b6 b5 b4 b3 b2 b1 b0 : Z) : list Z :=
  [b0; b1; b2; b3; b4; b5; b6; b7; b8; b9; b10; b11; b12; b13; b14; b15].

Definition _mm_shuffle_epi8_bytes (a idx : list Z) : list Z :=
  map (fun i => if Z.testbit i 7 then 0 else nth (Z.to_nat (Z.land i 15)) a 0) idx.
Definition _mm_shuffle_epi8 (a : r128) (idx : list Z) : r128 :=
  of_bytes_le (_mm_shuffle_epi8_bytes (bytes_le a) idx).

(** Pack 16-bit lanes to bytes with signed saturation, memory order. *)
Definition clamp8 (x : Z) : Z := Z.max (-128) (Z.min 127 x).
Definition lanes_le (v : r128) : list Z := [ln7 v; ln6 v; ln5 v; ln4 v; ln3 v; ln2 v; ln1 v; ln0 v].
Definition _mm_packs_epi16 (a b : r128) : list Z :=
  map (fun x => u8 (clamp8 (s16 x))) (lanes_le a ++ lanes_le b).
(** Bit [i] of the mask is the top bit of byte [i]. *)
Definition _mm_movemask_epi8 (b : list Z) : Z :=
  fold_right (fun x acc => b2z (Z.testbit x 7) + 2 * acc) 0 b.
Definition _mm_cmpeq_epi8 (a b : list Z) : list Z :=
  map (fun '(x, y) => if x =? y then 255 else 0) (combine a b).
Definition _mm_and_bytes (a b : list Z) : list Z := map (fun '(x, y) => Z.land x y) (combine a b).

(** The shuffle table of [r128::operator()]. *)
Definition shuffle_table : list (list Z) := [
  _mm_set_epi8 15 14 13 12 11 10 9 8 7 6 5 4 3 2 1 0;
  _mm_set_epi8 15 14 13 12 11 10 9 8 7 6 5 4 3 2 1 0;
  _mm_set_epi8 15 14 15 14 11 10 11 10 7 6 7 6 3 2 3 2;
  _mm_set_epi8 13 12 13 12 9 8 9 8 5 4 5 4 1 0 1 0;
  _mm_set_epi8 15 14 15 14 15 14 15 14 7 6 7 6 7 6 7 6;
  _mm_set_epi8 13 12 13 12 13 12 13 12 5 4 5 4 5 4 5 4;
  _mm_set_epi8 11 10 11 10 11 10 11 10 3 2 3 2 3 2 3 2;
  _mm_set_epi8 9 8 9 8 9 8 9 8 1 0 1 0 1 0 1 0;
  _mm_set_epi8 15 14 15 14 15 14 15 14 15 14 15 14 15 14 15 14;
  _mm_set_epi8 13 12 13 12 13 12 13 12 13 12 13 12 13 12 13 12;
  _mm_set_epi8 11 10 11 10 11 10 11 10 11 10 11 10 11 10 11 10;
  _mm_set_epi8 9 8 9 8 9 8 9 8 9 8 9 8 9 8 9 8;
  _mm_set_epi8 7 6 7 6 7 6 7 6 7 6 7 6 7 6 7 6;
  _mm_set_epi8 5 4 5 4 5 4 5 4 5 4 5 4 5 4 5 4;
  _mm_set_epi8 3 2 3 2 3 2 3 2 3 2 3 2 3 2 3 2;
  _mm_set_epi8 1 0 1 0 1 0 1 0 1 0 1 0 1 0 1 0 ].

(** The SIMD version of [r128::operator()]. *)
Definition vte_simd (v : r128) (index : nat) : r128 :=
  _mm_shuffle_epi8 v (nth index shuffle_table []).

(** * Well-formedness: every lane is a 16-bit value; a flag register holds
      only all-ones and all-zeros lanes. *)

Definition lanes_ok (P : Z -> Prop) (v : r128) : Prop :=
  P (ln0 v) /\ P (ln1 v) /\ P (ln2 v) /\ P (ln3 v) /\ P (ln4 v) /\ P (ln5 v) /\ P (ln6 v) /\ P (ln7 v).
Definition wf128 : r128 -> Prop := lanes_ok is_u16.
Definition flag128 : r128 -> Prop := lanes_ok is_mask.

Lemma flag128_wf v : flag128 v -> wf128 v.
Proof. unfold flag128, wf128, lanes_ok. intuition auto with mach. Qed.
#[export] Hint Resolve flag128_wf : mach.

Lemma set_raw_same v n : set_raw v n (element v n) = v.
Proof. destruct v. do 8 (destruct n as [|n]; [reflexivity|]). reflexivity. Qed.

Lemma lanes_ok_set P v n x : lanes_ok P v -> P (u16 x) -> lanes_ok P (set_element v n x).
Proof.
  destruct v; unfold lanes_ok; cbn -[u16]. intros Hv Hx.
  do 8 (destruct n as [|n]; [cbn; tauto|]). cbn. tauto.
Qed.

Lemma element_ok P v n : lanes_ok P v -> P 0 -> P (element v n).
Proof.
  destruct v; unfold lanes_ok; cbn. intros Hv H0.
  do 8 (destruct n as [|n]; [cbn; tauto|]). exact H0.
Qed.

Lemma element_set_same v n x : (n < 8)%nat -> element (set_element v n x) n = u16 x.
Proof.
  intros Hn. destruct v. do 8 (destruct n as [|n]; [reflexivity|]). lia.
Qed.
Lemma element_set_other v n m x : n <> m -> element (set_element v n x) m = element v m.
Proof.
  intros Hn. destruct v.
  do 8 (destruct n as [|n]; [do 8 (destruct m as [|m]; [try reflexivity; lia|]); reflexivity|]).
  reflexivity.
Qed.

Lemma r128_ext v w : (forall n, (n < 8)%nat -> element v n = element w n) -> v = w.
Proof.
  destruct v, w. intros H.
  pose proof (H 0%nat ltac:(lia)); pose proof (H 1%nat ltac:(lia)); pose proof (H 2%nat ltac:(lia));
  pose proof (H 3%nat ltac:(lia)); pose proof (H 4%nat ltac:(lia)); pose proof (H 5%nat ltac:(lia));
  pose proof (H 6%nat ltac:(lia)); pose proof (H 7%nat ltac:(lia)); cbn in *; congruence.
Qed.

(** The broadcast of one register selected by the element specifier: both
    implementations agree with one index function. *)
Definition vte_index (e n : nat) : nat :=
  match e with
  | 0%nat | 1%nat => n
  | 2%nat => Nat.land n 6
  | 3%nat => Nat.lor n 1
  | 4%nat | 5%nat | 6%nat | 7%nat => (Nat.land n 4 + (e - 4))%nat
  | _ => (e - 8)%nat
  end.

Lemma join_bytes x : x / 256 * 256 + x mod 256 = x.
Proof. zlia. Qed.

Lemma vte_sisd_spec v e n :
  wf128 v -> (e < 16)%nat -> (n < 8)%nat -> element (vte_sisd v e) n = element v (vte_index e n).
Proof.
  intros Hv He Hn. destruct v as [a b c d f g h i]; unfold wf128, lanes_ok in Hv; cbn in Hv.
  do 16 (destruct e as [|e];
    [cbn -[u16]; do 8 (destruct n as [|n]; [cbn -[u16]; rewrite ?u16_u16, ?u16_small by tauto; reflexivity|]); lia|]).
  lia.
Qed.

Lemma vte_simd_spec v e n :
  wf128 v -> (e < 16)%nat -> (n < 8)%nat -> element (vte_simd v e) n = element v (vte_index e n).
Proof.
  intros Hv He Hn. destruct v as [a b c d f g h i]; clear Hv.
  do 16 (destruct e as [|e];
    [cbn -[Z.modulo Z.div Z.mul Z.add]; do 8 (destruct n as [|n]; [apply join_bytes|]); lia|]).
  lia.
Qed.

Lemma vte_equiv v e : wf128 v -> (e < 16)%nat -> vte_simd v e = vte_sisd v e.
Proof.
  intros Hv He. apply r128_ext. intros n Hn.
  rewrite vte_simd_spec, vte_sisd_spec by assumption. reflexivity.
Qed.

Lemma vte_sisd_wf v e : wf128 v -> wf128 (vte_sisd v e).
Proof.
  intros Hv. do 16 (destruct e as [|e]; [cbn; unfold for8;
    repeat (apply lanes_ok_set; [|apply u16_range]); exact Hv|]). exact Hv.
Qed.
#[export] Hint Resolve vte_sisd_wf : mach.
