(* ===== verification/VuOps.v ===== *)
(** The computational instructions of the RSP vector unit
    (librecomp/include/librecomp/rsp_vu_impl.hpp), every one in the two forms
    the header compiles to: [_sisd] is the portable loop under
    [Accuracy::RSP::SISD], [_simd] the SSE4.1 code under
    [Accuracy::RSP::SIMD].  The destination register is returned beside the
    unit's state; it is assigned from values read earlier in the same lane, so
    passing the operands by value loses no aliasing. *)

From S2P Require Import Prelude Vec128.
From Stdlib Require Import ZArith Lia Bool List.
Import ListNotations.
Open Scope Z_scope.

(** [RSP::VU] without the register file, which only the transpose loads and
    stores touch (see VuMem). *)
Record VU := mkVU {
  acch : r128; accm : r128; accl : r128;
  vcoh : r128; vcol : r128; vcch : r128; vccl : r128; vce : r128;
  divin : Z; divout : Z; divdp : bool }.

Definition set_acch (s : VU) (v : r128) : VU :=
  mkVU v (accm s) (accl s) (vcoh s) (vcol s) (vcch s) (vccl s) (vce s) (divin s) (divout s) (divdp s).
Definition set_accm (s : VU) (v : r128) : VU :=
  mkVU (acch s) v (accl s) (vcoh s) (vcol s) (vcch s) (vccl s) (vce s) (divin s) (divout s) (divdp s).
Definition set_accl (s : VU) (v : r128) : VU :=
  mkVU (acch s) (accm s) v (vcoh s) (vcol s) (vcch s) (vccl s) (vce s) (divin s) (divout s) (divdp s).
Definition set_vcoh (s : VU) (v : r128) : VU :=
  mkVU (acch s) (accm s) (accl s) v (vcol s) (vcch s) (vccl s) (vce s) (divin s) (divout s) (divdp s).
Definition set_vcol (s : VU) (v : r128) : VU :=
  mkVU (acch s) (accm s) (accl s) (vcoh s) v (vcch s) (vccl s) (vce s) (divin s) (divout s) (divdp s).
Definition set_vcch (s : VU) (v : r128) : VU :=
  mkVU (acch s) (accm s) (accl s) (vcoh s) (vcol s) v (vccl s) (vce s) (divin s) (divout s) (divdp s).
Definition set_vccl (s : VU) (v : r128) : VU :=
  mkVU (acch s) (accm s) (accl s) (vcoh s) (vcol s) (vcch s) v (vce s) (divin s) (divout s) (divdp s).
Definition set_vce (s : VU) (v : r128) : VU :=
  mkVU (acch s) (accm s) (accl s) (vcoh s) (vcol s) (vcch s) (vccl s) v (divin s) (divout s) (divdp s).
Definition set_divin (s : VU) (v : Z) : VU :=
  mkVU (acch s) (accm s) (accl s) (vcoh s) (vcol s) (vcch s) (vccl s) (vce s) v (divout s) (divdp s).
Definition set_divout (s : VU) (v : Z) : VU :=
  mkVU (acch s) (accm s) (accl s) (vcoh s) (vcol s) (vcch s) (vccl s) (vce s) (divin s) v (divdp s).
Definition set_divdp (s : VU) (v : bool) : VU :=
  mkVU (acch s) (accm s) (accl s) (vcoh s) (vcol s) (vcch s) (vccl s) (vce s) (divin s) (divout s) v.

Declare Scope vu_scope.
Delimit Scope vu_scope with vu.
Notation "s <| 'ACCH' := v |>" := (set_acch s v) (at level 1, left associativity) : vu_scope.
Notation "s <| 'ACCM' := v |>" := (set_accm s v) (at level 1, left associativity) : vu_scope.
Notation "s <| 'ACCL' := v |>" := (set_accl s v) (at level 1, left associativity) : vu_scope.
Notation "s <| 'VCOH' := v |>" := (set_vcoh s v) (at level 1, left associativity) : vu_scope.
Notation "s <| 'VCOL' := v |>" := (set_vcol s v) (at level 1, left associativity) : vu_scope.
Notation "s <| 'VCCH' := v |>" := (set_vcch s v) (at level 1, left associativity) : vu_scope.
Notation "s <| 'VCCL' := v |>" := (set_vccl s v) (at level 1, left associativity) : vu_scope.
Notation "s <| 'VCE' := v |>" := (set_vce s v) (at level 1, left associativity) : vu_scope.
Notation "s <| 'DIVIN' := v |>" := (set_divin s v) (at level 1, left associativity) : vu_scope.
Notation "s <| 'DIVOUT' := v |>" := (set_divout s v) (at level 1, left associativity) : vu_scope.
Notation "s <| 'DIVDP' := v |>" := (set_divdp s v) (at level 1, left associativity) : vu_scope.
Open Scope vu_scope.

(** [sclamp<bits>] and [sclip<bits>] of rsp_vu.hpp. *)
Definition sclamp (bits : Z) (x : Z) : Z :=
  let b := 2 ^ (bits - 1) in let m := b - 1 in
  if x >? m then m else if x <? - b then - b else x.
Definition sclip (bits : Z) (x : Z) : Z :=
  let b := 2 ^ (bits - 1) in let m := b * 2 - 1 in
  s64 (Z.lxor (Z.land (u64 x) m) b - b).

(** * The accumulator: 48 bits per lane, split over ACCH:ACCM:ACCL. *)

Definition accumulatorGet (s : VU) (n : nat) : Z :=
  Z.lor (Z.lor (Z.shiftl (element (acch s) n) 32) (Z.shiftl (element (accm s) n) 16))
        (element (accl s) n).

Definition accumulatorSet (s : VU) (n : nat) (value : Z) : VU :=
  let s := s <| ACCH := set_element (acch s) n (Z.shiftr value 32) |> in
  let s := s <| ACCM := set_element (accm s) n (Z.shiftr value 16) |> in
  s <| ACCL := set_element (accl s) n value |>.

Definition accumulatorSaturate (s : VU) (index : nat) (slice : bool) (negative positive : Z) : Z :=
  let rest := if negb slice then element (accl s) index else element (accm s) index in
  if es16 (acch s) index <? 0 then
    if negb (element (acch s) index =? 65535) then negative
    else if es16 (accm s) index >=? 0 then negative
    else rest
  else
    if negb (element (acch s) index =? 0) then positive
    else if es16 (accm s) index <? 0 then positive
    else rest.

(** * Loop bodies threading the destination and the unit. *)

(** ** VABS *)
Definition VABS_sisd (e : nat) (vd vs vt : r128) (s : VU) : r128 * VU :=
  let vte := vte_sisd vt e in
  for8 (fun n '(vd, s) =>
    if es16 vs n <? 0 then
      if es16 vte n =? -32768 then
        (set_element vd n 32767, s <| ACCL := set_element (accl s) n (-32768) |>)
      else
        (set_element vd n (- es16 vte n), s <| ACCL := set_element (accl s) n (- es16 vte n) |>)
    else if es16 vs n >? 0 then
      (set_element vd n (es16 vte n), s <| ACCL := set_element (accl s) n (es16 vte n) |>)
    else
      (set_element vd n 0, s <| ACCL := set_element (accl s) n 0 |>)) (vd, s).

Definition VABS_simd (e : nat) (vs vt : r128) (s : VU) : r128 * VU :=
  let vs0 := _mm_cmpeq_epi16 vs zero in
  let slt := _mm_srai_epi16 vs 15 in
  let vd := _mm_andnot_si128 vs0 (vte_simd vt e) in
  let vd := _mm_xor_si128 vd slt in
  let s := s <| ACCL := _mm_sub_epi16 vd slt |> in
  let vd := _mm_subs_epi16 vd slt in
  (vd, s).

(** ** VADD *)
Definition VADD_sisd (e : nat) (vd vs vt : r128) (s : VU) : r128 * VU :=
  let vte := vte_sisd vt e in
  let '(vd, s) := for8 (fun n '(vd, s) =>
    let result := es16 vs n + es16 vte n + b2z (getf (vcol s) n) in
    (set_element vd n (sclamp 16 result), s <| ACCL := set_element (accl s) n result |>)) (vd, s) in
  (vd, s <| VCOL := zero |> <| VCOH := zero |>).

Definition VADD_simd (e : nat) (vs vt : r128) (s : VU) : r128 * VU :=
  let vte := vte_simd vt e in
  let sum := _mm_add_epi16 vs vte in
  let s := s <| ACCL := _mm_sub_epi16 sum (vcol s) |> in
  let min := _mm_min_epi16 vs vte in
  let max := _mm_max_epi16 vs vte in
  let min := _mm_subs_epi16 min (vcol s) in
  let vd := _mm_adds_epi16 min max in
  (vd, s <| VCOL := zero |> <| VCOH := zero |>).

(** ** VADDC *)
Definition VADDC_sisd (e : nat) (vs vt : r128) (s : VU) : r128 * VU :=
  let vte := vte_sisd vt e in
  let s := for8 (fun n s =>
    let result := u32 (element vs n + element vte n) in
    let s := s <| ACCL := set_element (accl s) n result |> in
    s <| VCOL := setf (vcol s) n (negb (Z.shiftr result 16 =? 0)) |>) s in
  let s := s <| VCOH := zero |> in
  (accl s, s).

Definition VADDC_simd (e : nat) (vs vt : r128) (s : VU) : r128 * VU :=
  let vte := vte_simd vt e in
  let sum := _mm_adds_epu16 vs vte in
  let s := s <| ACCL := _mm_add_epi16 vs vte |> in
  let s := s <| VCOL := _mm_cmpeq_epi16 sum (accl s) |> in
  let s := s <| VCOL := _mm_cmpeq_epi16 (vcol s) zero |> in
  let s := s <| VCOH := zero |> in
  (accl s, s).

(** ** VAND, VNAND, VOR, VNOR, VXOR, VNXOR *)
Definition VAND_sisd (e : nat) (vs vt : r128) (s : VU) : r128 * VU :=
  let vte := vte_sisd vt e in
  let s := for8 (fun n s =>
    s <| ACCL := set_element (accl s) n (Z.land (element vs n) (element vte n)) |>) s in
  (accl s, s).
Definition VAND_simd (e : nat) (vs vt : r128) (s : VU) : r128 * VU :=
  let s := s <| ACCL := _mm_and_si128 vs (vte_simd vt e) |> in
  (accl s, s).

Definition VNAND_sisd (e : nat) (vs vt : r128) (s : VU) : r128 * VU :=
  let vte := vte_sisd vt e in
  let s := for8 (fun n s =>
    s <| ACCL := set_element (accl s) n (Z.lnot (Z.land (element vs n) (element vte n))) |>) s in
  (accl s, s).
Definition VNAND_simd (e : nat) (vs vt : r128) (s : VU) : r128 * VU :=
  let s := s <| ACCL := _mm_and_si128 vs (vte_simd vt e) |> in
  let s := s <| ACCL := _mm_xor_si128 (accl s) invert |> in
  (accl s, s).

Definition VOR_sisd (e : nat) (vs vt : r128) (s : VU) : r128 * VU :=
  let vte := vte_sisd vt e in
  let s := for8 (fun n s =>
    s <| ACCL := set_element (accl s) n (Z.lor (element vs n) (element vte n)) |>) s in
  (accl s, s).
Definition VOR_simd (e : nat) (vs vt : r128) (s : VU) : r128 * VU :=
  let s := s <| ACCL := _mm_or_si128 vs (vte_simd vt e) |> in
  (accl s, s).

Definition VNOR_sisd (e : nat) (vs vt : r128) (s : VU) : r128 * VU :=
  let vte := vte_sisd vt e in
  let s := for8 (fun n s =>
    s <| ACCL := set_element (accl s) n (Z.lnot (Z.lor (element vs n) (element vte n))) |>) s in
  (accl s, s).
Definition VNOR_simd (e : nat) (vs vt : r128) (s : VU) : r128 * VU :=
  let s := s <| ACCL := _mm_or_si128 vs (vte_simd vt e) |> in
  let s := s <| ACCL := _mm_xor_si128 (accl s) invert |> in
  (accl s, s).

Definition VXOR_sisd (e : nat) (vs vt : r128) (s : VU) : r128 * VU :=
  let vte := vte_sisd vt e in
  let s := for8 (fun n s =>
    s <| ACCL := set_element (accl s) n (Z.lxor (element vs n) (element vte n)) |>) s in
  (accl s, s).
Definition VXOR_simd (e : nat) (vs vt : r128) (s : VU) : r128 * VU :=
  let s := s <| ACCL := _mm_xor_si128 vs (vte_simd vt e) |> in
  (accl s, s).

Definition VNXOR_sisd (e : nat) (vs vt : r128) (s : VU) : r128 * VU :=
  let vte := vte_sisd vt e in
  let s := for8 (fun n s =>
    s <| ACCL := set_element (accl s) n (Z.lnot (Z.lxor (element vs n) (element vte n))) |>) s in
  (accl s, s).
Definition VNXOR_simd (e : nat) (vs vt : r128) (s : VU) : r128 * VU :=
  let s := s <| ACCL := _mm_xor_si128 vs (vte_simd vt e) |> in
  let s := s <| ACCL := _mm_xor_si128 (accl s) invert |> in
  (accl s, s).

(** ** VCH *)
Definition VCH_sisd (e : nat) (vs vt : r128) (s : VU) : r128 * VU :=
  let vte := vte_sisd vt e in
  let s := for8 (fun n s =>
    if Z.lxor (es16 vs n) (es16 vte n) <? 0 then
      let result := s16 (es16 vs n + es16 vte n) in
      let s := s <| ACCL := set_element (accl s) n
                   (if result <=? 0 then - es16 vte n else es16 vs n) |> in
      let s := s <| VCCL := setf (vccl s) n (result <=? 0) |> in
      let s := s <| VCCH := setf (vcch s) n (es16 vte n <? 0) |> in
      let s := s <| VCOL := setf (vcol s) n true |> in
      let s := s <| VCOH := setf (vcoh s) n
                 (negb (result =? 0) && negb (element vs n =? Z.lxor (element vte n) 65535)) |> in
      s <| VCE := setf (vce s) n (result =? -1) |>
    else
      let result := s16 (es16 vs n - es16 vte n) in
      let s := s <| ACCL := set_element (accl s) n
                   (if result >=? 0 then es16 vte n else es16 vs n) |> in
      let s := s <| VCCL := setf (vccl s) n (es16 vte n <? 0) |> in
      let s := s <| VCCH := setf (vcch s) n (result >=? 0) |> in
      let s := s <| VCOL := setf (vcol s) n false |> in
      let s := s <| VCOH := setf (vcoh s) n
                 (negb (result =? 0) && negb (element vs n =? Z.lxor (element vte n) 65535)) |> in
      s <| VCE := setf (vce s) n false |>) s in
  (accl s, s).

Definition VCH_simd (e : nat) (vs vt : r128) (s : VU) : r128 * VU :=
  let vte := vte_simd vt e in
  let s := s <| VCOL := _mm_xor_si128 vs vte |> in
  let s := s <| VCOL := _mm_cmplt_epi16 (vcol s) zero |> in
  let nvt := _mm_xor_si128 vte (vcol s) in
  let nvt := _mm_sub_epi16 nvt (vcol s) in
  let diff := _mm_sub_epi16 vs nvt in
  let diff0 := _mm_cmpeq_epi16 diff zero in
  let vtn := _mm_cmplt_epi16 vte zero in
  let dlez := _mm_cmpgt_epi16 diff zero in
  let dgez := _mm_or_si128 dlez diff0 in
  let dlez := _mm_cmpeq_epi16 zero dlez in
  let s := s <| VCCH := _mm_blendv_epi8 dgez vtn (vcol s) |> in
  let s := s <| VCCL := _mm_blendv_epi8 vtn dlez (vcol s) |> in
  let s := s <| VCE := _mm_cmpeq_epi16 diff (vcol s) |> in
  let s := s <| VCE := _mm_and_si128 (vce s) (vcol s) |> in
  let s := s <| VCOH := _mm_or_si128 diff0 (vce s) |> in
  let s := s <| VCOH := _mm_cmpeq_epi16 (vcoh s) zero |> in
  let mask := _mm_blendv_epi8 (vcch s) (vccl s) (vcol s) in
  let s := s <| ACCL := _mm_blendv_epi8 vs nvt mask |> in
  (accl s, s).

(** ** VCL *)
Definition VCL_sisd (e : nat) (vs vt : r128) (s : VU) : r128 * VU :=
  let vte := vte_sisd vt e in
  let s := for8 (fun n s =>
    if getf (vcol s) n then
      if getf (vcoh s) n then
        s <| ACCL := set_element (accl s) n
               (if getf (vccl s) n then - element vte n else element vs n) |>
      else
        let sum := u16 (element vs n + element vte n) in
        let carry := negb (element vs n + element vte n =? sum) in
        if getf (vce s) n then
          let c := (sum =? 0) || negb carry in
          let s := s <| VCCL := setf (vccl s) n c |> in
          s <| ACCL := set_element (accl s) n (if c then - element vte n else element vs n) |>
        else
          let c := (sum =? 0) && negb carry in
          let s := s <| VCCL := setf (vccl s) n c |> in
          s <| ACCL := set_element (accl s) n (if c then - element vte n else element vs n) |>
    else
      if getf (vcoh s) n then
        s <| ACCL := set_element (accl s) n
               (if getf (vcch s) n then element vte n else element vs n) |>
      else
        let c := element vs n - element vte n >=? 0 in
        let s := s <| VCCH := setf (vcch s) n c |> in
        s <| ACCL := set_element (accl s) n (if c then element vte n else element vs n) |>) s in
  let s := s <| VCOL := zero |> <| VCOH := zero |> <| VCE := zero |> in
  (accl s, s).

Definition VCL_simd (e : nat) (vs vt : r128) (s : VU) : r128 * VU :=
  let vte := vte_simd vt e in
  let nvt := _mm_xor_si128 vte (vcol s) in
  let nvt := _mm_sub_epi16 nvt (vcol s) in
  let diff := _mm_sub_epi16 vs nvt in
  let ncarry := _mm_adds_epu16 vs vte in
  let ncarry := _mm_cmpeq_epi16 diff ncarry in
  let nvce := _mm_cmpeq_epi16 (vce s) zero in
  let diff0 := _mm_cmpeq_epi16 diff zero in
  let lec1 := _mm_and_si128 diff0 ncarry in
  let lec1 := _mm_and_si128 nvce lec1 in
  let lec2 := _mm_or_si128 diff0 ncarry in
  let lec2 := _mm_and_si128 (vce s) lec2 in
  let leeq := _mm_or_si128 lec1 lec2 in
  let geeq := _mm_subs_epu16 vte vs in
  let geeq := _mm_cmpeq_epi16 geeq zero in
  let le := _mm_andnot_si128 (vcoh s) (vcol s) in
  let le := _mm_blendv_epi8 (vccl s) leeq le in
  let ge := _mm_or_si128 (vcol s) (vcoh s) in
  let ge := _mm_blendv_epi8 geeq (vcch s) ge in
  let mask := _mm_blendv_epi8 ge le (vcol s) in
  let s := s <| ACCL := _mm_blendv_epi8 vs nvt mask |> in
  let s := s <| VCCH := ge |> in
  let s := s <| VCCL := le |> in
  let s := s <| VCOH := zero |> <| VCOL := zero |> <| VCE := zero |> in
  (accl s, s).

(** ** VCR *)
Definition VCR_sisd (e : nat) (vs vt : r128) (s : VU) : r128 * VU :=
  let vte := vte_sisd vt e in
  let s := for8 (fun n s =>
    if Z.lxor (es16 vs n) (es16 vte n) <? 0 then
      let s := s <| VCCH := setf (vcch s) n (es16 vte n <? 0) |> in
      let c := es16 vs n + es16 vte n + 1 <=? 0 in
      let s := s <| VCCL := setf (vccl s) n c |> in
      s <| ACCL := set_element (accl s) n (if c then Z.lnot (element vte n) else element vs n) |>
    else
      let s := s <| VCCL := setf (vccl s) n (es16 vte n <? 0) |> in
      let c := es16 vs n - es16 vte n >=? 0 in
      let s := s <| VCCH := setf (vcch s) n c |> in
      s <| ACCL := set_element (accl s) n (if c then element vte n else element vs n) |>) s in
  let s := s <| VCOL := zero |> <| VCOH := zero |> <| VCE := zero |> in
  (accl s, s).

Definition VCR_simd (e : nat) (vs vt : r128) (s : VU) : r128 * VU :=
  let vte := vte_simd vt e in
  let sign := _mm_xor_si128 vs vte in
  let sign := _mm_srai_epi16 sign 15 in
  let dlez := _mm_and_si128 vs sign in
  let dlez := _mm_add_epi16 dlez vte in
  let s := s <| VCCL := _mm_srai_epi16 dlez 15 |> in
  let dgez := _mm_or_si128 vs sign in
  let dgez := _mm_min_epi16 dgez vte in
  let s := s <| VCCH := _mm_cmpeq_epi16 dgez vte |> in
  let nvt := _mm_xor_si128 vte sign in
  let mask := _mm_blendv_epi8 (vcch s) (vccl s) sign in
  let s := s <| ACCL := _mm_blendv_epi8 vs nvt mask |> in
  let vd := accl s in
  (vd, s <| VCOL := zero |> <| VCOH := zero |> <| VCE := zero |>).

(** ** VEQ, VNE, VGE, VLT *)
Definition VEQ_sisd (e : nat) (vs vt : r128) (s : VU) : r128 * VU :=
  let vte := vte_sisd vt e in
  let s := for8 (fun n s =>
    let c := negb (getf (vcoh s) n) && (element vs n =? element vte n) in
    let s := s <| VCCL := setf (vccl s) n c |> in
    s <| ACCL := set_element (accl s) n (if c then element vs n else element vte n) |>) s in
  let s := s <| VCCH := zero |> <| VCOL := zero |> <| VCOH := zero |> in
  (accl s, s).
Definition VEQ_simd (e : nat) (vs vt : r128) (s : VU) : r128 * VU :=
  let vte := vte_simd vt e in
  let eq := _mm_cmpeq_epi16 vs vte in
  let s := s <| VCCL := _mm_andnot_si128 (vcoh s) eq |> in
  let s := s <| ACCL := _mm_blendv_epi8 vte vs (vccl s) |> in
  let s := s <| VCCH := zero |> <| VCOH := zero |> <| VCOL := zero |> in
  (accl s, s).

Definition VNE_sisd (e : nat) (vs vt : r128) (s : VU) : r128 * VU :=
  let vte := vte_sisd vt e in
  let s := for8 (fun n s =>
    let c := negb (element vs n =? element vte n) || getf (vcoh s) n in
    let s := s <| VCCL := setf (vccl s) n c |> in
    s <| ACCL := set_element (accl s) n (if c then element vs n else element vte n) |>) s in
  let s := s <| VCCH := zero |> <| VCOL := zero |> <| VCOH := zero |> in
  (accl s, s).
Definition VNE_simd (e : nat) (vs vt : r128) (s : VU) : r128 * VU :=
  let vte := vte_simd vt e in
  let eq := _mm_cmpeq_epi16 vs vte in
  let ne := _mm_cmpeq_epi16 eq zero in
  let s := s <| VCCL := _mm_and_si128 (vcoh s) eq |> in
  let s := s <| VCCL := _mm_or_si128 (vccl s) ne |> in
  let s := s <| ACCL := _mm_blendv_epi8 vte vs (vccl s) |> in
  let s := s <| VCCH := zero |> <| VCOH := zero |> <| VCOL := zero |> in
  (accl s, s).

Definition VGE_sisd (e : nat) (vs vt : r128) (s : VU) : r128 * VU :=
  let vte := vte_sisd vt e in
  let s := for8 (fun n s =>
    let c := (es16 vs n >? es16 vte n) ||
             ((es16 vs n =? es16 vte n) && (negb (getf (vcol s) n) || negb (getf (vcoh s) n))) in
    let s := s <| VCCL := setf (vccl s) n c |> in
    s <| ACCL := set_element (accl s) n (if c then element vs n else element vte n) |>) s in
  let s := s <| VCCH := zero |> <| VCOL := zero |> <| VCOH := zero |> in
  (accl s, s).
Definition VGE_simd (e : nat) (vs vt : r128) (s : VU) : r128 * VU :=
  let vte := vte_simd vt e in
  let eq := _mm_cmpeq_epi16 vs vte in
  let gt := _mm_cmpgt_epi16 vs vte in
  let es := _mm_and_si128 (vcoh s) (vcol s) in
  let eq := _mm_andnot_si128 es eq in
  let s := s <| VCCL := _mm_or_si128 gt eq |> in
  let s := s <| ACCL := _mm_blendv_epi8 vte vs (vccl s) |> in
  let s := s <| VCCH := zero |> <| VCOH := zero |> <| VCOL := zero |> in
  (accl s, s).

Definition VLT_sisd (e : nat) (vs vt : r128) (s : VU) : r128 * VU :=
  let vte := vte_sisd vt e in
  let s := for8 (fun n s =>
    let c := (es16 vs n <? es16 vte n) ||
             ((es16 vs n =? es16 vte n) && getf (vcol s) n && getf (vcoh s) n) in
    let s := s <| VCCL := setf (vccl s) n c |> in
    s <| ACCL := set_element (accl s) n (if c then element vs n else element vte n) |>) s in
  let s := s <| VCCH := zero |> <| VCOL := zero |> <| VCOH := zero |> in
  (accl s, s).
Definition VLT_simd (e : nat) (vs vt : r128) (s : VU) : r128 * VU :=
  let vte := vte_simd vt e in
  let eq := _mm_cmpeq_epi16 vs vte in
  let lt := _mm_cmplt_epi16 vs vte in
  let eq := _mm_and_si128 (vcoh s) eq in
  let eq := _mm_and_si128 (vcol s) eq in
  let s := s <| VCCL := _mm_or_si128 lt eq |> in
  let s := s <| ACCL := _mm_blendv_epi8 vte vs (vccl s) |> in
  let s := s <| VCCH := zero |> <| VCOH := zero |> <| VCOL := zero |> in
  (accl s, s).

(** ** VMACF / VMACU ([U] selects the unsigned clamp) *)
Definition VMACF_sisd (U : bool) (e : nat) (vd vs vt : r128) (s : VU) : r128 * VU :=
  let vte := vte_sisd vt e in
  for8 (fun n '(vd, s) =>
    let s := accumulatorSet s n (u64 (accumulatorGet s n + es16 vs n * es16 vte n * 2)) in
    (set_element vd n
       (if negb U then accumulatorSaturate s n true 32768 32767
        else if es16 (acch s) n <? 0 then 0
        else if negb (es16 (acch s) n =? 0) || (es16 (accm s) n <? 0) then 65535
        else element (accm s) n), s)) (vd, s).

Definition VMACF_simd (U : bool) (e : nat) (vs vt : r128) (s : VU) : r128 * VU :=
  let vte := vte_simd vt e in
  let lo := _mm_mullo_epi16 vs vte in
  let hi := _mm_mulhi_epi16 vs vte in
  let md := _mm_slli_epi16 hi 1 in
  let carry := _mm_srli_epi16 lo 15 in
  let hi := _mm_srai_epi16 hi 15 in
  let md := _mm_or_si128 md carry in
  let lo := _mm_slli_epi16 lo 1 in
  let omask := _mm_adds_epu16 (accl s) lo in
  let s := s <| ACCL := _mm_add_epi16 (accl s) lo |> in
  let omask := _mm_cmpeq_epi16 (accl s) omask in
  let omask := _mm_cmpeq_epi16 omask zero in
  let md := _mm_sub_epi16 md omask in
  let carry := _mm_cmpeq_epi16 md zero in
  let carry := _mm_and_si128 carry omask in
  let hi := _mm_sub_epi16 hi carry in
  let omask := _mm_adds_epu16 (accm s) md in
  let s := s <| ACCM := _mm_add_epi16 (accm s) md |> in
  let omask := _mm_cmpeq_epi16 (accm s) omask in
  let omask := _mm_cmpeq_epi16 omask zero in
  let s := s <| ACCH := _mm_add_epi16 (acch s) hi |> in
  let s := s <| ACCH := _mm_sub_epi16 (acch s) omask |> in
  if negb U then
    let lo := _mm_unpacklo_epi16 (accm s) (acch s) in
    let hi := _mm_unpackhi_epi16 (accm s) (acch s) in
    (_mm_packs_epi32 lo hi, s)
  else
    let mmask := _mm_srai_epi16 (accm s) 15 in
    let hmask := _mm_srai_epi16 (acch s) 15 in
    let md := _mm_or_si128 mmask (accm s) in
    let omask := _mm_cmpgt_epi16 (acch s) zero in
    let md := _mm_andnot_si128 hmask md in
    (_mm_or_si128 omask md, s).

(** ** VMADH, VMADL, VMADM, VMADN *)
Definition VMADH_sisd (e : nat) (vd vs vt : r128) (s : VU) : r128 * VU :=
  let vte := vte_sisd vt e in
  for8 (fun n '(vd, s) =>
    let result := s32 (u64 (Z.shiftr (accumulatorGet s n) 16 + es16 vs n * es16 vte n)) in
    let s := s <| ACCH := set_element (acch s) n (Z.shiftr result 16) |> in
    let s := s <| ACCM := set_element (accm s) n result |> in
    (set_element vd n (accumulatorSaturate s n true 32768 32767), s)) (vd, s).

Definition VMADH_simd (e : nat) (vs vt : r128) (s : VU) : r128 * VU :=
  let vte := vte_simd vt e in
  let lo := _mm_mullo_epi16 vs vte in
  let hi := _mm_mulhi_epi16 vs vte in
  let omask := _mm_adds_epu16 (accm s) lo in
  let s := s <| ACCM := _mm_add_epi16 (accm s) lo |> in
  let omask := _mm_cmpeq_epi16 (accm s) omask in
  let omask := _mm_cmpeq_epi16 omask zero in
  let hi := _mm_sub_epi16 hi omask in
  let s := s <| ACCH := _mm_add_epi16 (acch s) hi |> in
  let lo := _mm_unpacklo_epi16 (accm s) (acch s) in
  let hi := _mm_unpackhi_epi16 (accm s) (acch s) in
  (_mm_packs_epi32 lo hi, s).

(** The portable code multiplies two [u16] as [int] before converting to
    [u32]; the product is taken modulo 2^32 here. *)
Definition VMADL_sisd (e : nat) (vd vs vt : r128) (s : VU) : r128 * VU :=
  let vte := vte_sisd vt e in
  for8 (fun n '(vd, s) =>
    let s := accumulatorSet s n
      (u64 (accumulatorGet s n + Z.shiftr (u32 (element vs n * element vte n)) 16)) in
    (set_element vd n (accumulatorSaturate s n false 0 65535), s)) (vd, s).

Definition VMADL_simd (e : nat) (vs vt : r128) (s : VU) : r128 * VU :=
  let vte := vte_simd vt e in
  let hi := _mm_mulhi_epu16 vs vte in
  let omask := _mm_adds_epu16 (accl s) hi in
  let s := s <| ACCL := _mm_add_epi16 (accl s) hi |> in
  let omask := _mm_cmpeq_epi16 (accl s) omask in
  let omask := _mm_cmpeq_epi16 omask zero in
  let hi := _mm_sub_epi16 zero omask in
  let omask := _mm_adds_epu16 (accm s) hi in
  let s := s <| ACCM := _mm_add_epi16 (accm s) hi |> in
  let omask := _mm_cmpeq_epi16 (accm s) omask in
  let omask := _mm_cmpeq_epi16 omask zero in
  let s := s <| ACCH := _mm_sub_epi16 (acch s) omask |> in
  let nhi := _mm_srai_epi16 (acch s) 15 in
  let nmd := _mm_srai_epi16 (accm s) 15 in
  let shi := _mm_cmpeq_epi16 nhi (acch s) in
  let smd := _mm_cmpeq_epi16 nhi nmd in
  let cmask := _mm_and_si128 smd shi in
  let cval := _mm_cmpeq_epi16 nhi zero in
  (_mm_blendv_epi8 cval (accl s) cmask, s).

Definition VMADM_sisd (e : nat) (vd vs vt : r128) (s : VU) : r128 * VU :=
  let vte := vte_sisd vt e in
  for8 (fun n '(vd, s) =>
    let s := accumulatorSet s n (u64 (accumulatorGet s n + es16 vs n * element vte n)) in
    (set_element vd n (accumulatorSaturate s n true 32768 32767), s)) (vd, s).

Definition VMADM_simd (e : nat) (vs vt : r128) (s : VU) : r128 * VU :=
  let vte := vte_simd vt e in
  let lo := _mm_mullo_epi16 vs vte in
  let hi := _mm_mulhi_epu16 vs vte in
  let sign := _mm_srai_epi16 vs 15 in
  let vta := _mm_and_si128 vte sign in
  let hi := _mm_sub_epi16 hi vta in
  let omask := _mm_adds_epu16 (accl s) lo in
  let s := s <| ACCL := _mm_add_epi16 (accl s) lo |> in
  let omask := _mm_cmpeq_epi16 (accl s) omask in
  let omask := _mm_cmpeq_epi16 omask zero in
  let hi := _mm_sub_epi16 hi omask in
  let omask := _mm_adds_epu16 (accm s) hi in
  let s := s <| ACCM := _mm_add_epi16 (accm s) hi |> in
  let omask := _mm_cmpeq_epi16 (accm s) omask in
  let omask := _mm_cmpeq_epi16 omask zero in
  let hi := _mm_srai_epi16 hi 15 in
  let s := s <| ACCH := _mm_add_epi16 (acch s) hi |> in
  let s := s <| ACCH := _mm_sub_epi16 (acch s) omask |> in
  let lo := _mm_unpacklo_epi16 (accm s) (acch s) in
  let hi := _mm_unpackhi_epi16 (accm s) (acch s) in
  (_mm_packs_epi32 lo hi, s).

Definition VMADN_sisd (e : nat) (vd vs vt : r128) (s : VU) : r128 * VU :=
  let vte := vte_sisd vt e in
  for8 (fun n '(vd, s) =>
    let s := accumulatorSet s n (u64 (accumulatorGet s n + element vs n * es16 vte n)) in
    (set_element vd n (accumulatorSaturate s n false 0 65535), s)) (vd, s).

Definition VMADN_simd (e : nat) (vs vt : r128) (s : VU) : r128 * VU :=
  let vte := vte_simd vt e in
  let lo := _mm_mullo_epi16 vs vte in
  let hi := _mm_mulhi_epu16 vs vte in
  let sign := _mm_srai_epi16 vte 15 in
  let vsa := _mm_and_si128 vs sign in
  let hi := _mm_sub_epi16 hi vsa in
  let omask := _mm_adds_epu16 (accl s) lo in
  let s := s <| ACCL := _mm_add_epi16 (accl s) lo |> in
  let omask := _mm_cmpeq_epi16 (accl s) omask in
  let omask := _mm_cmpeq_epi16 omask zero in
  let hi := _mm_sub_epi16 hi omask in
  let omask := _mm_adds_epu16 (accm s) hi in
  let s := s <| ACCM := _mm_add_epi16 (accm s) hi |> in
  let omask := _mm_cmpeq_epi16 (accm s) omask in
  let omask := _mm_cmpeq_epi16 omask zero in
  let hi := _mm_srai_epi16 hi 15 in
  let s := s <| ACCH := _mm_add_epi16 (acch s) hi |> in
  let s := s <| ACCH := _mm_sub_epi16 (acch s) omask |> in
  let nhi := _mm_srai_epi16 (acch s) 15 in
  let nmd := _mm_srai_epi16 (accm s) 15 in
  let shi := _mm_cmpeq_epi16 nhi (acch s) in
  let smd := _mm_cmpeq_epi16 nhi nmd in
  let cmask := _mm_and_si128 smd shi in
  let cval := _mm_cmpeq_epi16 nhi zero in
  (_mm_blendv_epi8 cval (accl s) cmask, s).

(** ** VMRG *)
Definition VMRG_sisd (e : nat) (vs vt : r128) (s : VU) : r128 * VU :=
  let vte := vte_sisd vt e in
  let s := for8 (fun n s =>
    s <| ACCL := set_element (accl s) n
           (if getf (vccl s) n then element vs n else element vte n) |>) s in
  let s := s <| VCOH := zero |> <| VCOL := zero |> in
  (accl s, s).
Definition VMRG_simd (e : nat) (vs vt : r128) (s : VU) : r128 * VU :=
  let s := s <| ACCL := _mm_blendv_epi8 (vte_simd vt e) vs (vccl s) |> in
  let s := s <| VCOH := zero |> <| VCOL := zero |> in
  (accl s, s).

(** ** VMUDH, VMUDL, VMUDM, VMUDN *)
Definition VMUDH_sisd (e : nat) (vd vs vt : r128) (s : VU) : r128 * VU :=
  let vte := vte_sisd vt e in
  for8 (fun n '(vd, s) =>
    let s := accumulatorSet s n (u64 (Z.shiftl (es16 vs n * es16 vte n) 16)) in
    (set_element vd n (accumulatorSaturate s n true 32768 32767), s)) (vd, s).
Definition VMUDH_simd (e : nat) (vs vt : r128) (s : VU) : r128 * VU :=
  let vte := vte_simd vt e in
  let s := s <| ACCL := zero |> in
  let s := s <| ACCM := _mm_mullo_epi16 vs vte |> in
  let s := s <| ACCH := _mm_mulhi_epi16 vs vte |> in
  let lo := _mm_unpacklo_epi16 (accm s) (acch s) in
  let hi := _mm_unpackhi_epi16 (accm s) (acch s) in
  (_mm_packs_epi32 lo hi, s).

Definition VMUDL_sisd (e : nat) (vs vt : r128) (s : VU) : r128 * VU :=
  let vte := vte_sisd vt e in
  let s := for8 (fun n s =>
    accumulatorSet s n (u16 (Z.shiftr (s32 (element vs n * element vte n)) 16))) s in
  (accl s, s).
Definition VMUDL_simd (e : nat) (vs vt : r128) (s : VU) : r128 * VU :=
  let s := s <| ACCL := _mm_mulhi_epu16 vs (vte_simd vt e) |> in
  let s := s <| ACCM := zero |> <| ACCH := zero |> in
  (accl s, s).

Definition VMUDM_sisd (e : nat) (vs vt : r128) (s : VU) : r128 * VU :=
  let vte := vte_sisd vt e in
  let s := for8 (fun n s =>
    accumulatorSet s n (u64 (s32 (es16 vs n * element vte n)))) s in
  (accm s, s).
Definition VMUDM_simd (e : nat) (vs vt : r128) (s : VU) : r128 * VU :=
  let vte := vte_simd vt e in
  let s := s <| ACCL := _mm_mullo_epi16 vs vte |> in
  let s := s <| ACCM := _mm_mulhi_epu16 vs vte |> in
  let sign := _mm_srai_epi16 vs 15 in
  let vta := _mm_and_si128 vte sign in
  let s := s <| ACCM := _mm_sub_epi16 (accm s) vta |> in
  let s := s <| ACCH := _mm_srai_epi16 (accm s) 15 |> in
  (accm s, s).

Definition VMUDN_sisd (e : nat) (vs vt : r128) (s : VU) : r128 * VU :=
  let vte := vte_sisd vt e in
  let s := for8 (fun n s =>
    accumulatorSet s n (u64 (s32 (element vs n * es16 vte n)))) s in
  (accl s, s).
Definition VMUDN_simd (e : nat) (vs vt : r128) (s : VU) : r128 * VU :=
  let vte := vte_simd vt e in
  let s := s <| ACCL := _mm_mullo_epi16 vs vte |> in
  let s := s <| ACCM := _mm_mulhi_epu16 vs vte |> in
  let sign := _mm_srai_epi16 vte 15 in
  let vsa := _mm_and_si128 vs sign in
  let s := s <| ACCM := _mm_sub_epi16 (accm s) vsa |> in
  let s := s <| ACCH := _mm_srai_epi16 (accm s) 15 |> in
  (accl s, s).

(** ** VMULF / VMULU *)
Definition VMULF_sisd (U : bool) (e : nat) (vd vs vt : r128) (s : VU) : r128 * VU :=
  let vte := vte_sisd vt e in
  for8 (fun n '(vd, s) =>
    let s := accumulatorSet s n (u64 (es16 vs n * es16 vte n * 2 + 32768)) in
    (set_element vd n
       (if negb U then accumulatorSaturate s n true 32768 32767
        else if es16 (acch s) n <? 0 then 0
        else if Z.lxor (es16 (acch s) n) (es16 (accm s) n) <? 0 then 65535
        else element (accm s) n), s)) (vd, s).

Definition VMULF_simd (U : bool) (e : nat) (vs vt : r128) (s : VU) : r128 * VU :=
  let vte := vte_simd vt e in
  let lo := _mm_mullo_epi16 vs vte in
  let round := _mm_cmpeq_epi16 zero zero in
  let sign1 := _mm_srli_epi16 lo 15 in
  let lo := _mm_add_epi16 lo lo in
  let round := _mm_slli_epi16 round 15 in
  let hi := _mm_mulhi_epi16 vs vte in
  let sign2 := _mm_srli_epi16 lo 15 in
  let s := s <| ACCL := _mm_add_epi16 round lo |> in
  let sign1 := _mm_add_epi16 sign1 sign2 in
  let hi := _mm_slli_epi16 hi 1 in
  let neq := _mm_cmpeq_epi16 vs vte in
  let s := s <| ACCM := _mm_add_epi16 hi sign1 |> in
  let neg := _mm_srai_epi16 (accm s) 15 in
  if negb U then
    let eq := _mm_and_si128 neq neg in
    let s := s <| ACCH := _mm_andnot_si128 neq neg |> in
    (_mm_add_epi16 (accm s) eq, s)
  else
    let s := s <| ACCH := _mm_andnot_si128 neq neg |> in
    let hi := _mm_or_si128 (accm s) neg in
    (_mm_andnot_si128 (acch s) hi, s).

(** ** VSUB, VSUBC, VZERO *)
Definition VSUB_sisd (e : nat) (vd vs vt : r128) (s : VU) : r128 * VU :=
  let vte := vte_sisd vt e in
  let '(vd, s) := for8 (fun n '(vd, s) =>
    let result := es16 vs n - es16 vte n - b2z (getf (vcol s) n) in
    (set_element vd n (sclamp 16 result), s <| ACCL := set_element (accl s) n result |>)) (vd, s) in
  (vd, s <| VCOL := zero |> <| VCOH := zero |>).
Definition VSUB_simd (e : nat) (vs vt : r128) (s : VU) : r128 * VU :=
  let vte := vte_simd vt e in
  let udiff := _mm_sub_epi16 vte (vcol s) in
  let sdiff := _mm_subs_epi16 vte (vcol s) in
  let s := s <| ACCL := _mm_sub_epi16 vs udiff |> in
  let ov := _mm_cmpgt_epi16 sdiff udiff in
  let vd := _mm_subs_epi16 vs sdiff in
  let vd := _mm_adds_epi16 vd ov in
  (vd, s <| VCOL := zero |> <| VCOH := zero |>).

Definition VSUBC_sisd (e : nat) (vs vt : r128) (s : VU) : r128 * VU :=
  let vte := vte_sisd vt e in
  let s := for8 (fun n s =>
    let result := u32 (element vs n - element vte n) in
    let s := s <| ACCL := set_element (accl s) n result |> in
    let s := s <| VCOL := setf (vcol s) n (negb (Z.shiftr result 16 =? 0)) |> in
    s <| VCOH := setf (vcoh s) n (negb (result =? 0)) |>) s in
  (accl s, s).
Definition VSUBC_simd (e : nat) (vs vt : r128) (s : VU) : r128 * VU :=
  let vte := vte_simd vt e in
  let udiff := _mm_subs_epu16 vs vte in
  let equal := _mm_cmpeq_epi16 vs vte in
  let diff0 := _mm_cmpeq_epi16 udiff zero in
  let s := s <| VCOH := _mm_cmpeq_epi16 equal zero |> in
  let s := s <| VCOL := _mm_andnot_si128 equal diff0 |> in
  let s := s <| ACCL := _mm_sub_epi16 vs vte |> in
  (accl s, s).

Definition VZERO_sisd (e : nat) (vd vs vt : r128) (s : VU) : r128 * VU :=
  let vte := vte_sisd vt e in
  for8 (fun n '(vd, s) =>
    let result := es16 vs n + es16 vte n in
    (set_element vd n 0, s <| ACCL := set_element (accl s) n result |>)) (vd, s).
Definition VZERO_simd (e : nat) (vd vs vt : r128) (s : VU) : r128 * VU :=
  let vte := vte_simd vt e in
  (_mm_xor_si128 vd vd, s <| ACCL := _mm_add_epi16 vs vte |>).
