(* ===== verification/VuLane.v ===== *)
(** Lane algebra: facts about one 16-bit lane that turn the SSE4.1 code of
    the vector unit into arithmetic on signed and unsigned integers. *)

From S2P Require Import Prelude Vec128 VuOps.
From Stdlib Require Import ZArith Lia Bool List.
Import ListNotations.
Open Scope Z_scope.

Create Rewrite HintDb lane.

Lemma s16_def a : is_u16 a -> s16 a = if a <? 32768 then a else a - 65536.
Proof. unfold is_u16, s16. intros. rewrite Z.mod_small by lia. reflexivity. Qed.

Lemma u16_of_s16 a : is_u16 a -> a = u16 (s16 a).
Proof. intros. rewrite u16_s16, u16_small by assumption. reflexivity. Qed.

(** The unsigned reading in terms of the signed one. *)
Lemma lane_repr a : is_u16 a ->
  is_s16 (s16 a) /\ a = if s16 a <? 0 then s16 a + 65536 else s16 a.
Proof.
  intros Ha. split; [apply s16_range|]. rewrite s16_def by assumption.
  unfold is_u16 in Ha. zcase; lia.
Qed.

Lemma clamp16_range x : is_s16 (clamp16 x).
Proof. unfold is_s16, clamp16. lia. Qed.

Lemma sclamp16 x : sclamp 16 x = clamp16 x.
Proof. unfold sclamp, clamp16. change (2 ^ (16 - 1)) with 32768. zcase; lia. Qed.

Lemma s16_clamp16 x : s16 (clamp16 x) = clamp16 x.
Proof. apply s16_small, clamp16_range. Qed.

Lemma s16_adds16 a b : s16 (adds16 a b) = clamp16 (s16 a + s16 b).
Proof. unfold adds16. rewrite s16_u16. apply s16_clamp16. Qed.
Lemma s16_subs16 a b : s16 (subs16 a b) = clamp16 (s16 a - s16 b).
Proof. unfold subs16. rewrite s16_u16. apply s16_clamp16. Qed.
Lemma s16_min16 a b : s16 (min16 a b) = Z.min (s16 a) (s16 b).
Proof. unfold min16. zcase; lia. Qed.
Lemma s16_max16 a b : s16 (max16 a b) = Z.max (s16 a) (s16 b).
Proof. unfold max16. zcase; lia. Qed.
#[export] Hint Rewrite s16_adds16 s16_subs16 s16_min16 s16_max16 sclamp16 s16_clamp16
  u16_u16 u16_s16 s16_u16 : lane.

Lemma s16_0 : s16 0 = 0. Proof. reflexivity. Qed.
Lemma s16_full : s16 65535 = -1. Proof. reflexivity. Qed.
Lemma u16_0 : u16 0 = 0. Proof. reflexivity. Qed.
#[export] Hint Rewrite s16_0 s16_full u16_0 : lane.

Lemma u16_inj_s16 a b : is_s16 a -> is_s16 b -> u16 a = u16 b -> a = b.
Proof. intros Ha Hb H. rewrite <- (s16_small a Ha), <- (s16_small b Hb), <- s16_u16, H. apply s16_u16. Qed.

Lemma u16_congr a b : u16 a = u16 b <-> exists k, a = b + k * 65536.
Proof.
  unfold u16. split.
  - intros H. exists (a / 65536 - b / 65536). zlia.
  - intros [k ->]. apply Z.mod_add. lia.
Qed.

Lemma srai16_15 a : is_u16 a -> srai16 15 a = if s16 a <? 0 then 65535 else 0.
Proof.
  intros Ha. unfold srai16. rewrite Z.shiftr_div_pow2 by lia. change (2 ^ 15) with 32768.
  pose proof (s16_range a) as Hs. unfold is_s16 in Hs. unfold u16. zcase; zlia.
Qed.

Lemma blendv16_full a b : is_u16 b -> blendv16 a b 65535 = b.
Proof. intros. unfold blendv16. cbn [Z.testbit Pos.testbit Pos.pred_N Pos.pred_double N.succ]. apply join_bytes. Qed.
Lemma blendv16_none a b : is_u16 a -> blendv16 a b 0 = a.
Proof. intros. unfold blendv16. rewrite !Z.testbit_0_l. apply join_bytes. Qed.

Lemma blendv16_mask a b (c : bool) : blendv16 a b (if c then 65535 else 0) = if c then b else a.
Proof. destruct c; unfold blendv16; [cbn [Z.testbit Pos.testbit Pos.pred_N Pos.pred_double N.succ]|rewrite !Z.testbit_0_l]; apply join_bytes. Qed.

(** The opposite sign test of the portable code. *)
Lemma lxor_sign a b : (Z.lxor a b <? 0) = xorb (a <? 0) (b <? 0).
Proof.
  pose proof (Z.lxor_nonneg a b) as H. zcase; cbn; try reflexivity; lia.
Qed.

Lemma setf_mask b : u16 (0 - b2z b) = if b then 65535 else 0.
Proof. destruct b; reflexivity. Qed.

(** Comparison intrinsics as booleans. *)
Lemma cmpeq16_bool a b : cmpeq16 a b = if a =? b then 65535 else 0.
Proof. reflexivity. Qed.

Lemma mask_eqb0 c : is_mask c -> c = if negb (c =? 0) then 65535 else 0.
Proof. intros [->| ->]; reflexivity. Qed.

(** Congruence modulo 2^16: [u16] and [s16] are the identity up to a multiple
    of 65536, so an equation between lane results is linear arithmetic. *)
Lemma u16_cong x : exists k, u16 x = x + k * 65536.
Proof. exists (- (x / 65536)). unfold u16. zlia. Qed.
Lemma s16_cong x : exists k, s16 x = x + k * 65536.
Proof.
  unfold s16. destruct (Z.ltb_spec (x mod 65536) 32768).
  - exists (- (x / 65536)). zlia.
  - exists (- (x / 65536) - 1). zlia.
Qed.

Ltac noconv t :=
  lazymatch t with context [s16 _] => fail | context [u16 _] => fail | _ => idtac end.
Ltac cong_step :=
  match goal with
  | |- context [s16 ?t] => noconv t; let k := fresh "k" in let E := fresh in
      destruct (s16_cong t) as [k E]; rewrite E; clear E
  | |- u16 ?x = u16 ?y =>
      match goal with
      | |- context [u16 ?t] =>
          noconv t; lazymatch x with t => fail | _ => idtac end;
          lazymatch y with t => fail | _ => idtac end;
          let k := fresh "k" in let E := fresh in destruct (u16_cong t) as [k E]; rewrite E; clear E
      end
  end.
Ltac u16_ring := repeat cong_step; unfold u16; zlia.

(** * Lane tactics *)

Ltac lane_side := solve [ assumption | auto with mach | unfold is_u16 in *; lia ].
Ltac lane_bits :=
  repeat first
    [ rewrite Z.land_0_l | rewrite Z.land_0_r | rewrite Z.lor_0_l | rewrite Z.lor_0_r
    | rewrite Z.lxor_0_l | rewrite Z.lxor_0_r
    | rewrite land_full_l by lane_side | rewrite land_full_r by lane_side
    | rewrite lor_full_l by lane_side | rewrite lor_full_r by lane_side
    | rewrite lxor_full_l by lane_side | rewrite lxor_full_r by lane_side
    | rewrite blendv16_full by lane_side | rewrite blendv16_none by lane_side ].
Ltac lane_consts :=
  change (65535 - 65535) with 0; change (65535 - 0) with 65535;
  change (65535 =? 0) with false; change (0 =? 0) with true; change (0 =? 65535) with false;
  change (65535 =? 65535) with true; change (u16 0) with 0; change (u16 (0 - 1)) with 65535;
  change (u16 (0 - 0)) with 0; change (s16 0) with 0; change (s16 65535) with (-1);
  cbn [negb andb orb xorb b2z].
Ltac lane_step := first [ progress lane_bits | progress lane_consts | zcase_step ].
Ltac mask_cases :=
  repeat match goal with H : is_mask ?c |- _ => destruct H as [-> | ->] end.

(** Signed readings as integers: [a] is [x] or [x + 65536]. *)
Ltac signed a :=
  match goal with
  | H : is_u16 a |- _ =>
      let R := fresh "R" in let E := fresh "E" in
      destruct (lane_repr a H) as [R E]; unfold is_s16 in R
  end.

Lemma lane_lnot x : is_u16 x -> u16 (Z.lnot x) = 65535 - x.
Proof. unfold is_u16, u16, Z.lnot. intros. zlia. Qed.

Lemma mulhi_div a b : mulhi16 a b = u16 ((s16 a * s16 b) / 65536).
Proof. unfold mulhi16. rewrite Z.shiftr_div_pow2 by lia. reflexivity. Qed.
Lemma mulhiu_div a b : mulhiu16 a b = (a * b) / 65536.
Proof. unfold mulhiu16. rewrite Z.shiftr_div_pow2 by lia. reflexivity. Qed.

Lemma mulhiu_range a b : is_u16 a -> is_u16 b -> is_u16 (mulhiu16 a b).
Proof.
  unfold is_u16. intros. rewrite mulhiu_div.
  split; [apply Z.div_pos; nia|]. apply Z.div_lt_upper_bound; nia.
Qed.

(** Carry out of an unsigned 16-bit addition, the way the SIMD code finds it:
    the wrapped and the saturated sum differ. *)
Lemma carry_simd a b : is_u16 a -> is_u16 b ->
  cmpeq16 (cmpeq16 (add16 a b) (addus16 a b)) 0 = if a + b <? 65536 then 0 else 65535.
Proof.
  unfold is_u16, cmpeq16, add16, addus16, u16. intros. zcase; try reflexivity; zlia.
Qed.

(** The 48-bit accumulator value of one lane. *)
Definition acc48 (h m l : Z) : Z := h * 4294967296 + m * 65536 + l.

Lemma accumulator_join h m l : is_u16 h -> is_u16 m -> is_u16 l ->
  Z.lor (Z.lor (Z.shiftl h 32) (Z.shiftl m 16)) l = acc48 h m l.
Proof.
  unfold is_u16. intros. rewrite !Z.shiftl_mul_pow2 by lia.
  rewrite (lor_add 32 h) by (change (2 ^ 32) with (65536 * 65536); lia).
  replace (h * 2 ^ 32 + m * 2 ^ 16) with ((h * 65536 + m) * 2 ^ 16) by lia.
  rewrite lor_add by lia. unfold acc48. lia.
Qed.

(** Splitting a 64-bit value into the three stored slices. *)
Lemma slice_h v : u16 (Z.shiftr (u64 v) 32) = u16 (v / 4294967296).
Proof. unfold u16, u64. rewrite Z.shiftr_div_pow2 by lia. change (2 ^ 32) with 4294967296. zlia. Qed.
Lemma slice_m v : u16 (Z.shiftr (u64 v) 16) = u16 (v / 65536).
Proof. unfold u16, u64. rewrite Z.shiftr_div_pow2 by lia. change (2 ^ 16) with 65536. zlia. Qed.
Lemma slice_l v : u16 (u64 v) = u16 v.
Proof. unfold u16, u64. zlia. Qed.

(** [accumulatorSaturate] on the three lanes of one element. *)
Definition sat_lane (h m l : Z) (slice : bool) (negative positive : Z) : Z :=
  let rest := if negb slice then l else m in
  if s16 h <? 0 then
    if negb (h =? 65535) then negative else if s16 m >=? 0 then negative else rest
  else
    if negb (h =? 0) then positive else if s16 m <? 0 then positive else rest.

(** With the middle slice it is the signed saturation of ACCH:ACCM, which is
    what packing computes. *)
Lemma sat32_sat_lane h m l : is_u16 h -> is_u16 m ->
  sat32 h m = u16 (sat_lane h m l true 32768 32767).
Proof.
  intros Hh Hm. unfold sat32, sat_lane, clamp16, s32. cbn [negb].
  rewrite !s16_def by assumption. unfold is_u16 in *.
  rewrite Z.mod_small by lia. zcase; cbn [negb]; unfold u16; zlia.
Qed.

(** With the low slice it is an unsigned clamp; the SIMD code compares sign
    masks. *)
Lemma simd_clamp_low h m l : is_u16 h -> is_u16 m -> is_u16 l ->
  blendv16 (cmpeq16 (srai16 15 h) 0) l
    (Z.land (cmpeq16 (srai16 15 h) (srai16 15 m)) (cmpeq16 (srai16 15 h) h))
  = u16 (sat_lane h m l false 0 65535).
Proof.
  intros Hh Hm Hl. rewrite !srai16_15 by assumption.
  unfold sat_lane, cmpeq16. cbn [negb]. signed h. signed m.
  repeat lane_step; try reflexivity; try (rewrite u16_small by assumption; reflexivity); lia.
Qed.
