(* ===== verification/VuArith.v ===== *)
(** Lane equations of the arithmetic of the vector unit: on one lane, the SSE4.1
    expression equals the portable one.  First the additions, the logic, the
    selections and the clip instructions; then the multiplications, where the
    SSE4.1 code adds a product to the 48-bit accumulator slice by slice and
    recovers every carry from a saturating addition. *)

From S2P Require Import Prelude Vec128 VuOps VuLane.
From Stdlib Require Import ZArith Lia Bool List.
Import ListNotations.
Open Scope Z_scope.

(** * Lane equations: additions and subtractions *)

Lemma VADD_lane a b c : is_u16 a -> is_u16 b -> is_mask c ->
  adds16 (subs16 (min16 a b) c) (max16 a b) = u16 (sclamp 16 (s16 a + s16 b + b2z (negb (c =? 0)))).
Proof.
  intros Ha Hb Hc. unfold adds16. autorewrite with lane. f_equal.
  pose proof (s16_range a); pose proof (s16_range b). unfold is_s16, clamp16 in *.
  mask_cases; lane_consts; lia.
Qed.

Lemma VADD_lane_acc a b c : is_mask c ->
  sub16 (add16 a b) c = u16 (s16 a + s16 b + b2z (negb (c =? 0))).
Proof. intros Hc. unfold sub16, add16. mask_cases; lane_consts; u16_ring. Qed.

Lemma VADDC_lane_acc a b : add16 a b = u16 (u32 (a + b)).
Proof. unfold add16, u16, u32. zlia. Qed.

Lemma VADDC_lane_carry a b : is_u16 a -> is_u16 b ->
  cmpeq16 (cmpeq16 (addus16 a b) (add16 a b)) 0
  = u16 (0 - b2z (negb (Z.shiftr (u32 (a + b)) 16 =? 0))).
Proof.
  intros Ha Hb. rewrite setf_mask, Z.shiftr_div_pow2 by lia. change (2 ^ 16) with 65536.
  unfold is_u16, cmpeq16, add16, addus16, u16, u32 in *.
  rewrite (Z.mod_small (a + b) 4294967296) by lia. zcase; cbn [negb]; try reflexivity; zlia.
Qed.

Lemma VSUB_lane a b c : is_u16 a -> is_u16 b -> is_mask c ->
  adds16 (subs16 a (subs16 b c)) (cmpgt16 (subs16 b c) (sub16 b c))
  = u16 (sclamp 16 (s16 a - s16 b - b2z (negb (c =? 0)))).
Proof.
  intros Ha Hb Hc. unfold adds16, cmpgt16, sub16. autorewrite with lane.
  pose proof (s16_range a). signed b. unfold is_s16, clamp16 in *.
  assert (E1 : s16 (b - 65535) = if s16 b =? 32767 then -32768 else s16 b + 1).
  { zcase.
    - rewrite <- s16_u16. replace (u16 (b - 65535)) with 32768; [reflexivity|].
      unfold u16. revert E. zcase; intros; zlia.
    - rewrite <- (s16_small (s16 b + 1)) by (unfold is_s16; lia). rewrite <- s16_u16.
      rewrite <- (s16_u16 (s16 b + 1)). f_equal. u16_ring. }
  mask_cases; lane_consts; f_equal.
  - rewrite !Z.sub_0_r. zcase; lane_consts; lia.
  - rewrite E1. zcase; lane_consts; lia.
Qed.

Lemma VSUB_lane_acc a b c : is_mask c ->
  sub16 a (sub16 b c) = u16 (s16 a - s16 b - b2z (negb (c =? 0))).
Proof. intros Hc. unfold sub16. mask_cases; lane_consts; u16_ring. Qed.

Lemma VSUBC_lane_acc a b : sub16 a b = u16 (u32 (a - b)).
Proof. unfold sub16, u16, u32. zlia. Qed.

Lemma VSUBC_lane_borrow a b : is_u16 a -> is_u16 b ->
  andnot16 (cmpeq16 a b) (cmpeq16 (subus16 a b) 0)
  = u16 (0 - b2z (negb (Z.shiftr (u32 (a - b)) 16 =? 0))).
Proof.
  intros Ha Hb. rewrite setf_mask, Z.shiftr_div_pow2 by lia. change (2 ^ 16) with 65536.
  unfold is_u16, andnot16, cmpeq16, subus16, u32 in *.
  repeat lane_step; try reflexivity; zlia.
Qed.

Lemma VSUBC_lane_ne a b : is_u16 a -> is_u16 b ->
  cmpeq16 (cmpeq16 a b) 0 = u16 (0 - b2z (negb (u32 (a - b) =? 0))).
Proof.
  intros Ha Hb. rewrite setf_mask. unfold is_u16, cmpeq16, u32 in *.
  repeat lane_step; try reflexivity; zlia.
Qed.

Lemma VZERO_lane_acc a b : add16 a b = u16 (s16 a + s16 b).
Proof. unfold add16. u16_ring. Qed.

(** * Lane equations: logic and selection *)

Lemma lane_not x : is_u16 x -> Z.lxor x 65535 = u16 (Z.lnot x).
Proof. intros. rewrite lxor_full_r, lane_lnot by assumption. reflexivity. Qed.

Lemma lane_keep x : is_u16 x -> x = u16 x.
Proof. intros. rewrite u16_small by assumption. reflexivity. Qed.

Lemma lane_select a b c : is_u16 a -> is_u16 b -> is_mask c ->
  blendv16 b a c = u16 (if negb (c =? 0) then a else b).
Proof.
  intros. mask_cases; lane_consts; lane_bits; apply lane_keep; assumption.
Qed.

(** Selecting through a mask that holds a condition. *)
Lemma lane_choose a b m (c : bool) : is_u16 a -> is_u16 b -> m = u16 (0 - b2z c) ->
  blendv16 b a m = u16 (if c then a else b).
Proof.
  intros Ha Hb ->. rewrite setf_mask, blendv16_mask. destruct c; apply lane_keep; assumption.
Qed.

Lemma VEQ_lane a b h : is_u16 a -> is_u16 b -> is_mask h ->
  andnot16 h (cmpeq16 a b) = u16 (0 - b2z (negb (negb (h =? 0)) && (a =? b))).
Proof.
  intros. rewrite setf_mask. unfold andnot16, cmpeq16. mask_cases; repeat lane_step; reflexivity.
Qed.
Lemma VNE_lane a b h : is_u16 a -> is_u16 b -> is_mask h ->
  Z.lor (Z.land h (cmpeq16 a b)) (cmpeq16 (cmpeq16 a b) 0)
  = u16 (0 - b2z (negb (a =? b) || negb (h =? 0))).
Proof.
  intros. rewrite setf_mask. unfold cmpeq16. mask_cases; repeat lane_step; reflexivity.
Qed.
Lemma VGE_lane a b h l : is_u16 a -> is_u16 b -> is_mask h -> is_mask l ->
  Z.lor (cmpgt16 a b) (andnot16 (Z.land h l) (cmpeq16 a b))
  = u16 (0 - b2z ((s16 a >? s16 b) ||
      ((s16 a =? s16 b) && (negb (negb (l =? 0)) || negb (negb (h =? 0)))))).
Proof.
  intros Ha Hb Hh Hl. rewrite setf_mask. unfold cmpgt16, andnot16, cmpeq16.
  signed a. signed b. mask_cases; repeat lane_step; try reflexivity; revert E E0; zcase; lia.
Qed.
Lemma VLT_lane a b h l : is_u16 a -> is_u16 b -> is_mask h -> is_mask l ->
  Z.lor (cmplt16 a b) (Z.land l (Z.land h (cmpeq16 a b)))
  = u16 (0 - b2z ((s16 a <? s16 b) ||
      ((s16 a =? s16 b) && negb (l =? 0) && negb (h =? 0)))).
Proof.
  intros Ha Hb Hh Hl. rewrite setf_mask. unfold cmplt16, cmpeq16.
  signed a. signed b. mask_cases; repeat lane_step; try reflexivity; revert E E0; zcase; lia.
Qed.

(** * Lane equations: VABS and the clipping instructions *)

Lemma lane_sign_testbit x : is_u16 x -> (s16 x <? 0) = Z.testbit x 15.
Proof.
  intros Hx. rewrite s16_def by assumption. unfold is_u16 in Hx.
  rewrite Z.testbit_odd, Z.shiftr_div_pow2 by lia. change (2 ^ 15) with 32768.
  zcase; [replace (x / 32768) with 0 by zlia|replace (x / 32768) with 1 by zlia]; reflexivity.
Qed.

Lemma lane_xor_sign a b : is_u16 a -> is_u16 b ->
  (s16 (Z.lxor a b) <? 0) = xorb (s16 a <? 0) (s16 b <? 0).
Proof.
  intros. rewrite !lane_sign_testbit by auto with mach. apply Z.lxor_spec.
Qed.

Lemma s16_not b : is_u16 b -> s16 (65535 - b) = -1 - s16 b.
Proof. intros Hb. rewrite !s16_def by (unfold is_u16 in *; lia). zcase; lia. Qed.

Lemma VABS_lane a b : is_u16 a -> is_u16 b ->
  subs16 (Z.lxor (andnot16 (cmpeq16 a 0) b) (srai16 15 a)) (srai16 15 a) =
  u16 (if s16 a <? 0 then if s16 b =? -32768 then 32767 else - s16 b
       else if s16 a >? 0 then s16 b else 0).
Proof.
  intros Ha Hb. rewrite srai16_15 by assumption. unfold andnot16, cmpeq16, subs16, clamp16.
  signed a. signed b. repeat lane_step; try reflexivity; try (exfalso; lia).
  all: rewrite ?s16_not by assumption; f_equal; lia.
Qed.

Lemma VABS_lane_acc a b : is_u16 a -> is_u16 b ->
  sub16 (Z.lxor (andnot16 (cmpeq16 a 0) b) (srai16 15 a)) (srai16 15 a) =
  u16 (if s16 a <? 0 then if s16 b =? -32768 then -32768 else - s16 b
       else if s16 a >? 0 then s16 b else 0).
Proof.
  intros Ha Hb. rewrite srai16_15 by assumption. unfold andnot16, cmpeq16, sub16.
  signed a. signed b. repeat lane_step; try reflexivity; try (exfalso; lia).
  all: try (rewrite (u16_of_s16 b Hb), e; reflexivity); u16_ring.
Qed.

(** The quantities the clipping code computes on one lane. *)
Lemma clip_sign a b : is_u16 a -> is_u16 b ->
  cmplt16 (Z.lxor a b) 0 = if xorb (s16 a <? 0) (s16 b <? 0) then 65535 else 0.
Proof. intros. unfold cmplt16. rewrite s16_0, lane_xor_sign by assumption. reflexivity. Qed.

Lemma clip_nvt b (c : bool) : is_u16 b ->
  sub16 (Z.lxor b (if c then 65535 else 0)) (if c then 65535 else 0) = u16 (if c then - s16 b else s16 b).
Proof.
  intros. unfold sub16. destruct c; [rewrite lxor_full_r by assumption|rewrite Z.lxor_0_r]; u16_ring.
Qed.

Lemma clip_diff a b (c : bool) : is_u16 a -> is_u16 b -> xorb (s16 a <? 0) (s16 b <? 0) = c ->
  s16 (sub16 a (u16 (if c then - s16 b else s16 b))) = if c then s16 a + s16 b else s16 a - s16 b.
Proof.
  intros Ha Hb <-. unfold sub16. rewrite s16_u16.
  pose proof (s16_range a); pose proof (s16_range b). unfold is_s16 in *.
  match goal with |- _ = ?r => rewrite <- (s16_small r) end.
  - rewrite <- s16_u16. match goal with |- _ = s16 ?r => rewrite <- (s16_u16 r) end. f_equal.
    destruct (xorb _ _); u16_ring.
  - unfold is_s16. zcase; cbn [xorb]; lia.
Qed.

Lemma lane_eq_s16 a x : is_u16 a -> is_s16 x -> (a =? u16 x) = (s16 a =? x).
Proof.
  intros Ha Hx. destruct (Z.eqb_spec a (u16 x)) as [->|N].
  - rewrite s16_u16, s16_small by assumption. symmetry. apply Z.eqb_refl.
  - symmetry. apply Z.eqb_neq. intros <-. apply N. apply u16_of_s16. assumption.
Qed.

Section Clip.
Context (a b : Z) (Ha : is_u16 a) (Hb : is_u16 b).
Let m := cmplt16 (Z.lxor a b) 0.
Let nvt := sub16 (Z.lxor b m) m.
Let diff := sub16 a nvt.
Let diff0 := cmpeq16 diff 0.
Let vtn := cmplt16 b 0.
Let gt := cmpgt16 diff 0.
Let dgez := Z.lor gt diff0.
Let dlez := cmpeq16 0 gt.
Let ch := blendv16 dgez vtn m.
Let cl := blendv16 vtn dlez m.
Let ce := Z.land (cmpeq16 diff m) m.
Let sum := s16 (s16 a + s16 b).
Let dif := s16 (s16 a - s16 b).
Let sgn := Z.lxor (s16 a) (s16 b) <? 0.

(** Signs differ ([m] all ones) or agree, with the value of the difference. *)
Lemma clip_cases :
  (sgn = true /\ m = 65535 /\ nvt = u16 (- s16 b) /\ sum = s16 a + s16 b /\ s16 diff = sum) \/
  (sgn = false /\ m = 0 /\ nvt = b /\ dif = s16 a - s16 b /\ s16 diff = dif).
Proof.
  pose proof (clip_sign a b Ha Hb) as Hm. pose proof (lxor_sign (s16 a) (s16 b)) as Hs.
  pose proof (clip_nvt b (xorb (s16 a <? 0) (s16 b <? 0)) Hb) as Hn.
  pose proof (clip_diff a b _ Ha Hb eq_refl) as Hd.
  pose proof (s16_range a) as Ra; pose proof (s16_range b) as Rb. unfold is_s16 in *.
  fold m in Hm. rewrite <- Hm in Hn. fold nvt in Hn. rewrite <- Hn in Hd. fold diff in Hd.
  fold sgn in Hs. destruct (xorb (s16 a <? 0) (s16 b <? 0)) eqn:X.
  - left. assert (sum = s16 a + s16 b) by
      (apply s16_small; unfold is_s16; revert X; zcase; cbn; intros; try discriminate; lia).
    repeat split; congruence.
  - right. assert (dif = s16 a - s16 b) by
      (apply s16_small; unfold is_s16; revert X; zcase; cbn; intros; try discriminate; lia).
    rewrite u16_s16, u16_small in Hn by assumption. repeat split; congruence.
Qed.

Lemma diff_u16 : is_u16 diff. Proof. apply u16_range. Qed.
Lemma diff_eq0 : (diff =? 0) = (s16 diff =? 0).
Proof. apply (lane_eq_s16 diff 0 diff_u16). unfold is_s16; lia. Qed.
Lemma diff_eqm1 : (diff =? 65535) = (s16 diff =? -1).
Proof. apply (lane_eq_s16 diff (-1) diff_u16). unfold is_s16; lia. Qed.

Ltac clip :=
  unfold ch, cl, ce, dgez, dlez, gt, diff0, vtn, cmpeq16, cmpgt16, cmplt16;
  pose proof (s16_range a) as Ra; pose proof (s16_range b) as Rb; unfold is_s16 in Ra, Rb;
  destruct clip_cases as [(Hs & Hm & Hn & Hd & He)|(Hs & Hm & Hn & Hd & He)];
  rewrite ?Hs, ?Hm, ?Hn, ?diff_eq0, ?diff_eqm1, ?He, ?setf_mask; clear He;
  rewrite ?s16_0, ?Hd; lane_consts; lane_bits.

Lemma VCH_lane_col : m = u16 (0 - b2z sgn).
Proof. clip; reflexivity. Qed.
Lemma VCH_lane_cch : ch = if sgn then u16 (0 - b2z (s16 b <? 0)) else u16 (0 - b2z (dif >=? 0)).
Proof. clip; repeat lane_step; try reflexivity; lia. Qed.
Lemma VCH_lane_ccl : cl = if sgn then u16 (0 - b2z (sum <=? 0)) else u16 (0 - b2z (s16 b <? 0)).
Proof. clip; repeat lane_step; try reflexivity; lia. Qed.
Lemma VCH_lane_ce : ce = if sgn then u16 (0 - b2z (sum =? -1)) else 0.
Proof. clip; repeat lane_step; try reflexivity; lia. Qed.
Lemma lane_eq_not : (a =? Z.lxor b 65535) = (s16 a + s16 b =? -1).
Proof.
  rewrite lxor_full_r by assumption.
  replace (65535 - b) with (u16 (s16 (65535 - b))) by
    (rewrite u16_s16; apply u16_small; unfold is_u16 in *; lia).
  rewrite lane_eq_s16, s16_not by (auto with mach). zcase; reflexivity || lia.
Qed.
Lemma VCH_lane_coh :
  cmpeq16 (Z.lor diff0 ce) 0 =
  u16 (0 - b2z (negb ((if sgn then sum else dif) =? 0) && negb (a =? Z.lxor b 65535))).
Proof.
  rewrite lane_eq_not. pose proof (lxor_sign (s16 a) (s16 b)) as X. fold sgn in X.
  clip; rewrite Hs in X; revert X; repeat lane_step; intros; try reflexivity; try discriminate; lia.
Qed.
Lemma VCH_lane_acc :
  blendv16 a nvt (blendv16 ch cl m) =
  u16 (if sgn then if sum <=? 0 then - s16 b else s16 a else if dif >=? 0 then s16 b else s16 a).
Proof.
  rewrite VCH_lane_cch, VCH_lane_ccl, !setf_mask.
  clip; rewrite ?blendv16_mask; repeat lane_step; try lia; rewrite ?u16_s16, ?u16_small by lane_side; reflexivity.
Qed.
End Clip.

(** One lane of VCL: the two forms, as functions of the operands and flags. *)
Definition vcl_le (a b ce : Z) : bool :=
  let sum := u16 (a + b) in
  let carry := negb (a + b =? sum) in
  if negb (ce =? 0) then (sum =? 0) || negb carry else (sum =? 0) && negb carry.

Section ClipLow.
Context (a b col coh ccl cch ce : Z) (Ha : is_u16 a) (Hb : is_u16 b)
  (Hcol : is_mask col) (Hcoh : is_mask coh) (Hccl : is_mask ccl) (Hcch : is_mask cch) (Hce : is_mask ce).
Let nvt := sub16 (Z.lxor b col) col.
Let diff := sub16 a nvt.
Let ncarry := cmpeq16 diff (addus16 a b).
Let diff0 := cmpeq16 diff 0.
Let lec1 := Z.land (cmpeq16 ce 0) (Z.land diff0 ncarry).
Let lec2 := Z.land ce (Z.lor diff0 ncarry).
Let leeq := Z.lor lec1 lec2.
Let geeq := cmpeq16 (subus16 b a) 0.
Let le := blendv16 ccl leeq (andnot16 coh col).
Let ge := blendv16 geeq cch (Z.lor col coh).

Lemma clip_low_leeq : col = 65535 -> leeq = if vcl_le a b ce then 65535 else 0.
Proof.
  intros ->. unfold leeq, lec1, lec2, diff0, ncarry, diff, nvt, vcl_le, cmpeq16.
  replace (sub16 a _) with (u16 (a + b)) by (unfold sub16; lane_bits; u16_ring).
  assert (E : u16 (a + b) = if a + b <? 65536 then a + b else a + b - 65536)
    by (unfold is_u16, u16 in *; zcase; zlia).
  rewrite E. unfold addus16, is_u16 in *. mask_cases; lane_consts; repeat lane_step; lia || reflexivity.
Qed.
Lemma clip_low_geeq : geeq = if a - b >=? 0 then 65535 else 0.
Proof. unfold geeq, cmpeq16, subus16, is_u16 in *. zcase; lia || reflexivity. Qed.

Lemma clip_low_masks :
  le = (if negb (col =? 0) then if negb (coh =? 0) then ccl else u16 (0 - b2z (vcl_le a b ce)) else ccl) /\
  ge = (if negb (col =? 0) then cch else if negb (coh =? 0) then cch else u16 (0 - b2z (a - b >=? 0))) /\
  is_mask le /\ is_mask ge.
Proof.
  pose proof clip_low_leeq as Hl. rewrite !setf_mask. unfold le, ge. rewrite clip_low_geeq.
  unfold andnot16. destruct Hcol as [E1| E1], Hcoh as [E2|E2]; rewrite E1, E2 in *; lane_consts; lane_bits;
    try rewrite Hl by reflexivity;
    lane_bits; repeat split; try assumption; apply is_mask_if.
Qed.
Lemma VCL_lane_ccl : le =
  if negb (col =? 0) then if negb (coh =? 0) then ccl else u16 (0 - b2z (vcl_le a b ce)) else ccl.
Proof. apply clip_low_masks. Qed.
Lemma VCL_lane_cch : ge =
  if negb (col =? 0) then cch else if negb (coh =? 0) then cch else u16 (0 - b2z (a - b >=? 0)).
Proof. apply clip_low_masks. Qed.

Lemma VCL_lane_acc : blendv16 a nvt (blendv16 ge le col) =
  u16 (if negb (col =? 0)
       then if negb (coh =? 0) then if negb (ccl =? 0) then - b else a
            else if vcl_le a b ce then - b else a
       else if negb (coh =? 0) then if negb (cch =? 0) then b else a
            else if a - b >=? 0 then b else a).
Proof.
  rewrite VCL_lane_ccl, VCL_lane_cch, !setf_mask. unfold nvt, sub16.
  mask_cases; lane_consts; lane_bits; rewrite ?blendv16_mask; lane_bits; try reflexivity;
    repeat match goal with |- context [if ?c then _ else _] => destruct c end;
    lane_bits; rewrite ?u16_u16; try (symmetry; apply u16_small; assumption); try u16_ring;
    apply lane_keep; assumption.
Qed.
End ClipLow.

(** One lane of VCR, a one's complement clip. *)
Section ClipOnes.
Context (a b : Z) (Ha : is_u16 a) (Hb : is_u16 b).
Let sign := srai16 15 (Z.lxor a b).
Let sgn := Z.lxor (s16 a) (s16 b) <? 0.
Let le := srai16 15 (add16 (Z.land a sign) b).
Let ge := cmpeq16 (min16 (Z.lor a sign) b) b.
Let nvt := Z.lxor b sign.

Lemma clip_ones_sign : sign = (if sgn then 65535 else 0) /\ sgn = xorb (s16 a <? 0) (s16 b <? 0).
Proof.
  unfold sign, sgn. rewrite lxor_sign, srai16_15, lane_xor_sign by lane_side. split; reflexivity.
Qed.
Lemma VCR_lane_ccl : le = u16 (0 - b2z (if sgn then s16 a + s16 b + 1 <=? 0 else s16 b <? 0)).
Proof.
  destruct clip_ones_sign as [-> Hs]. unfold le, add16. rewrite setf_mask.
  pose proof (s16_range a) as Ra; pose proof (s16_range b) as Rb; unfold is_s16 in *.
  destruct sgn; lane_bits; rewrite srai16_15 by lane_side; rewrite s16_u16.
  - replace (s16 (a + b)) with (s16 a + s16 b); [revert Hs; zcase; cbn; intros; try discriminate; lia|].
    symmetry. rewrite <- (s16_small (s16 a + s16 b)) by
      (unfold is_s16; revert Hs; zcase; cbn; intros; try discriminate; lia).
    rewrite <- s16_u16. rewrite <- (s16_u16 (s16 a + s16 b)). f_equal. u16_ring.
  - rewrite Z.add_0_l. reflexivity.
Qed.
Lemma VCR_lane_cch : ge = u16 (0 - b2z (if sgn then s16 b <? 0 else s16 a - s16 b >=? 0)).
Proof.
  destruct clip_ones_sign as [-> Hs]. unfold ge, cmpeq16, min16. rewrite setf_mask.
  signed a. signed b.
  destruct sgn; lane_bits; lane_consts; revert Hs; zcase; cbn; intros; try discriminate; lia.
Qed.
Lemma VCR_lane_acc : blendv16 a nvt (blendv16 ge le sign) =
  u16 (if sgn then if s16 a + s16 b + 1 <=? 0 then Z.lnot b else a
       else if s16 a - s16 b >=? 0 then b else a).
Proof.
  rewrite VCR_lane_ccl, VCR_lane_cch, !setf_mask. unfold nvt.
  destruct clip_ones_sign as [-> Hs].
  destruct sgn; lane_bits; rewrite ?blendv16_mask, ?Z.lxor_0_r;
    match goal with |- context [if ?c then _ else _] => destruct c end;
    rewrite ?lane_lnot, ?u16_small by assumption; reflexivity.
Qed.
End ClipOnes.

(** * Slices of a product *)

Lemma div_div_65536 v : v / 65536 / 65536 = v / 4294967296.
Proof. rewrite Z.div_div by lia. reflexivity. Qed.

Lemma mul_s16_bounds a b : -1073709056 <= s16 a * s16 b <= 1073741824.
Proof. pose proof (s16_range a); pose proof (s16_range b). unfold is_s16 in *. nia. Qed.
Lemma mul_su16_bounds a b : is_u16 b -> -2147450880 <= s16 a * b <= 2147385345.
Proof. pose proof (s16_range a). unfold is_s16, is_u16 in *. nia. Qed.
Lemma mul_u16_bounds a b : is_u16 a -> is_u16 b -> 0 <= a * b <= 4294836225.
Proof. unfold is_u16 in *. nia. Qed.

(** The signed-unsigned product from the unsigned one. *)
Lemma mulhsu a b : is_u16 a -> is_u16 b ->
  sub16 (mulhiu16 a b) (Z.land b (srai16 15 a)) = u16 (s16 a * b / 65536) /\
  mullo16 a b = u16 (s16 a * b).
Proof.
  intros Ha Hb. rewrite mulhiu_div, srai16_15 by assumption. unfold sub16, mullo16. split.
  - signed a. destruct (s16 a <? 0) eqn:E'; lane_bits.
    + rewrite E at 1. rewrite Z.mul_add_distr_r, (Z.mul_comm 65536), Z.div_add by lia.
      f_equal. lia.
    + rewrite Z.sub_0_r. f_equal. rewrite <- E. reflexivity.
  - destruct (s16_cong b) as [k ->]. unfold u16.
    replace (s16 a * (b + k * 65536)) with (s16 a * b + s16 a * k * 65536) by ring.
    apply Z.mod_add. lia.
Qed.

(** * Adding to the accumulator slice by slice *)

Section AccAdd.
Context (h m l v : Z) (Hh : is_u16 h) (Hm : is_u16 m) (Hl : is_u16 l).
Let t := acc48 h m l + v.
(** Carries out of the low and the middle slice. *)
Let c1 := b2z (65536 <=? l + u16 v).
Let w := v / 65536 + c1.
Let c2 := b2z (65536 <=? m + u16 w).

Lemma acc_add_low : add16 l (u16 v) = u16 t.
Proof. unfold t, acc48, add16, u16. zlia. Qed.
Lemma acc_add_mid_div : t / 65536 = h * 65536 + m + w.
Proof.
  unfold t, w, c1, acc48, u16, is_u16 in *. destruct (Z.leb_spec 65536 (l + v mod 65536)); cbn [b2z]; zlia.
Qed.
Lemma acc_add_mid : add16 m (u16 w) = u16 (t / 65536).
Proof. rewrite acc_add_mid_div. unfold add16, u16. zlia. Qed.
Lemma acc_add_high : u16 (h + w / 65536 + c2) = u16 (t / 4294967296).
Proof.
  rewrite <- div_div_65536, acc_add_mid_div. unfold c2, u16, is_u16 in *.
  destruct (Z.leb_spec 65536 (m + w mod 65536)); cbn [b2z]; f_equal; zlia.
Qed.
End AccAdd.

(** The carry mask of the SIMD code. *)
Lemma carry_mask a b : is_u16 a -> is_u16 b ->
  cmpeq16 (cmpeq16 (add16 a b) (addus16 a b)) 0 = if 65536 <=? a + b then 65535 else 0.
Proof. intros. rewrite carry_simd by assumption. zcase; reflexivity || lia. Qed.

Lemma sub16_mask a (c : bool) : sub16 a (if c then 65535 else 0) = u16 (a + b2z c).
Proof. unfold sub16. destruct c; cbn [b2z]; u16_ring. Qed.

(** The three slices of an accumulated lane, and the value read back. *)
Definition acc_h (t : Z) := u16 (t / 4294967296).
Definition acc_m (t : Z) := u16 (t / 65536).
Definition acc_l (t : Z) := u16 t.

(** The accumulator of the portable code, as one number. *)
Abbreviation acc64 h m l := (Z.lor (Z.lor (Z.shiftl h 32) (Z.shiftl m 16)) l).

Section AccSimd.
Context (h m l v lo md hi : Z) (Hh : is_u16 h) (Hm : is_u16 m) (Hl : is_u16 l).
Let om1 := cmpeq16 (cmpeq16 (add16 l lo) (addus16 l lo)) 0.
Let om2 := cmpeq16 (cmpeq16 (add16 m md) (addus16 m md)) 0.
Let w := v / 65536 + b2z (65536 <=? l + u16 v).
Context (Elo : lo = u16 v) (Emd : md = u16 w) (Ehi : hi = u16 (w / 65536)).

Lemma acc_simd_low : add16 l lo = u16 (u64 (acc64 h m l + v)).
Proof.
  rewrite slice_l, accumulator_join, Elo by assumption. apply acc_add_low; assumption.
Qed.
Lemma acc_simd_mid : add16 m md = u16 (Z.shiftr (u64 (acc64 h m l + v)) 16).
Proof.
  rewrite slice_m, accumulator_join, Emd by assumption. apply acc_add_mid; assumption.
Qed.
Lemma acc_simd_high : sub16 (add16 h hi) om2 = u16 (Z.shiftr (u64 (acc64 h m l + v)) 32).
Proof.
  rewrite slice_h, accumulator_join, <- (acc_add_high h m l v) by assumption. unfold om2.
  rewrite carry_mask by (rewrite ?Emd; auto with mach). rewrite sub16_mask, Emd, Ehi.
  fold w. unfold add16. u16_ring.
Qed.
End AccSimd.

(** The carry mask out of the low slice, folded into the middle one. *)
Lemma carry_into_mid l v lo x : is_u16 l -> lo = u16 v -> x = u16 (v / 65536) ->
  sub16 x (cmpeq16 (cmpeq16 (add16 l lo) (addus16 l lo)) 0)
  = u16 (v / 65536 + b2z (65536 <=? l + u16 v)).
Proof.
  intros Hl -> ->. rewrite carry_mask by auto with mach. rewrite sub16_mask. u16_ring.
Qed.

(** ** VMACF, VMACU *)
Section Macf.
Context (a b h m l : Z) (Ha : is_u16 a) (Hb : is_u16 b) (Hh : is_u16 h) (Hm : is_u16 m) (Hl : is_u16 l).
Let v := s16 a * s16 b * 2.
Let lo0 := mullo16 a b.
Let hi0 := mulhi16 a b.
Let md0 := Z.lor (slli16 1 hi0) (srli16 15 lo0).
Let lo := slli16 1 lo0.
Let L := add16 l lo.
Let om1 := cmpeq16 (cmpeq16 L (addus16 l lo)) 0.
Let md := sub16 md0 om1.
Let hi := sub16 (srai16 15 hi0) (Z.land (cmpeq16 md 0) om1).
Let M := add16 m md.
Let om2 := cmpeq16 (cmpeq16 M (addus16 m md)) 0.
Let H := sub16 (add16 h hi) om2.

Lemma macf_lo : lo = u16 v.
Proof.
  unfold lo, lo0, slli16, mullo16, v. rewrite Z.shiftl_mul_pow2 by lia. change (2 ^ 1) with 2. u16_ring.
Qed.
Lemma macf_md0 : md0 = u16 (v / 65536).
Proof.
  unfold md0, hi0, lo0, slli16, srli16, v. rewrite mulhi_div. unfold mullo16.
  generalize (s16 a * s16 b). intros p.
  rewrite Z.shiftl_mul_pow2, Z.shiftr_div_pow2 by lia. change (2 ^ 1) with 2. change (2 ^ 15) with 32768.
  assert (E : u16 (u16 (p / 65536) * 2) = (u16 (p / 65536) mod 32768) * 2 ^ 1)
    by (unfold u16; change (2 ^ 1) with 2; zlia).
  rewrite E, lor_add by (unfold u16; change (2 ^ 1) with 2; zlia).
  change (2 ^ 1) with 2. unfold u16. zlia.
Qed.
Lemma macf_hi0 : srai16 15 hi0 = u16 (v / 4294967296).
Proof.
  unfold hi0, v. rewrite mulhi_div, srai16_15 by auto with mach. rewrite s16_u16.
  pose proof (mul_s16_bounds a b) as Hp. rewrite s16_small by (unfold is_s16; zlia).
  zcase; [replace (_ / 4294967296) with (-1) by zlia|replace (_ / 4294967296) with 0 by zlia]; reflexivity.
Qed.
Lemma macf_md : md = u16 (v / 65536 + b2z (65536 <=? l + u16 v)).
Proof. apply carry_into_mid; [assumption|apply macf_lo|apply macf_md0]. Qed.
Lemma macf_hi : hi = u16 ((v / 65536 + b2z (65536 <=? l + u16 v)) / 65536).
Proof.
  unfold hi, om1, L. rewrite macf_hi0, carry_mask, macf_lo by (rewrite ?macf_lo; auto with mach).
  rewrite macf_md. destruct (65536 <=? l + u16 v); cbn [b2z]; lane_bits.
  - rewrite land_full_r by (unfold cmpeq16; auto with mach).
    unfold cmpeq16. rewrite sub16_mask. rewrite <- div_div_65536. unfold u16. zcase; cbn [b2z]; zlia.
  - unfold sub16. rewrite Z.sub_0_r, Z.add_0_r, div_div_65536, u16_u16. reflexivity.
Qed.

Let X := acc64 h m l + v.
Lemma VMACF_lane_l : L = u16 (u64 X).
Proof. apply acc_simd_low; [assumption..|apply macf_lo]. Qed.
Lemma VMACF_lane_m : M = u16 (Z.shiftr (u64 X) 16).
Proof. apply acc_simd_mid; [assumption..|apply macf_md]. Qed.
Lemma VMACF_lane_h : H = u16 (Z.shiftr (u64 X) 32).
Proof. apply acc_simd_high; [assumption..|apply macf_md|apply macf_hi]. Qed.
Lemma VMACF_lane_vd :
  sat32 H M = u16 (sat_lane (u16 (Z.shiftr (u64 X) 32)) (u16 (Z.shiftr (u64 X) 16)) (u16 (u64 X)) true 32768 32767).
Proof. rewrite VMACF_lane_h, VMACF_lane_m. apply sat32_sat_lane; auto with mach. Qed.
Lemma VMACU_lane_vd :
  Z.lor (cmpgt16 H 0) (andnot16 (srai16 15 H) (Z.lor (srai16 15 M) M)) =
  u16 (if s16 (u16 (Z.shiftr (u64 X) 32)) <? 0 then 0
       else if negb (s16 (u16 (Z.shiftr (u64 X) 32)) =? 0) || (s16 (u16 (Z.shiftr (u64 X) 16)) <? 0)
       then 65535 else u16 (Z.shiftr (u64 X) 16)).
Proof.
  rewrite VMACF_lane_h, VMACF_lane_m.
  generalize (u16_range (Z.shiftr (u64 X) 32)), (u16_range (Z.shiftr (u64 X) 16)).
  generalize (u16 (Z.shiftr (u64 X) 32)) as x, (u16 (Z.shiftr (u64 X) 16)) as y. intros x y Hx Hy.
  rewrite !srai16_15 by assumption. unfold cmpgt16, andnot16.
  repeat lane_step; try lia; rewrite ?u16_small by assumption; reflexivity.
Qed.
End Macf.

Lemma mullo_su a b : is_u16 b -> mullo16 a b = u16 (s16 a * b).
Proof.
  intros Hb. unfold mullo16. destruct (s16_cong b) as [k ->]. unfold u16.
  replace (s16 a * (b + k * 65536)) with (s16 a * b + s16 a * k * 65536) by ring. apply Z.mod_add. lia.
Qed.

(** ** VMADM, VMADN: a signed-unsigned product *)
Section Madm.
Context (x y h m l : Z) (Hx : is_u16 x) (Hy : is_u16 y) (Hh : is_u16 h) (Hm : is_u16 m) (Hl : is_u16 l).
(** [x] is the signed operand, [y] the unsigned one. *)
Let v := s16 x * y.
Let lo := mullo16 x y.
Let L := add16 l lo.
Let om1 := cmpeq16 (cmpeq16 L (addus16 l lo)) 0.
Let md := sub16 (sub16 (mulhiu16 x y) (Z.land y (srai16 15 x))) om1.
Let M := add16 m md.
Let om2 := cmpeq16 (cmpeq16 M (addus16 m md)) 0.
Let H := sub16 (add16 h (srai16 15 md)) om2.
Let X := acc64 h m l + v.

Lemma madm_md : md = u16 (v / 65536 + b2z (65536 <=? l + u16 v)).
Proof.
  apply carry_into_mid; [assumption|apply mullo_su; assumption|apply mulhsu; assumption].
Qed.
Lemma madm_hi : srai16 15 md = u16 ((v / 65536 + b2z (65536 <=? l + u16 v)) / 65536).
Proof.
  rewrite madm_md, srai16_15, s16_u16 by auto with mach.
  pose proof (mul_su16_bounds x y Hy) as Hv. fold v in Hv.
  assert (Hw : -32768 <= v / 65536 + b2z (65536 <=? l + u16 v) < 32768)
    by (destruct (65536 <=? l + u16 v); cbn [b2z]; zlia).
  rewrite s16_small by assumption. revert Hw. generalize (v / 65536 + b2z (65536 <=? l + u16 v)). intros w Hw.
  zcase; [replace (w / 65536) with (-1) by zlia|replace (w / 65536) with 0 by zlia]; reflexivity.
Qed.
Lemma madm_lane_l : L = u16 (u64 X).
Proof. apply acc_simd_low; [assumption..|apply mullo_su; assumption]. Qed.
Lemma madm_lane_m : M = u16 (Z.shiftr (u64 X) 16).
Proof. apply acc_simd_mid; [assumption..|apply madm_md]. Qed.
Lemma madm_lane_h : H = u16 (Z.shiftr (u64 X) 32).
Proof. apply acc_simd_high; [assumption..|apply madm_md|apply madm_hi]. Qed.
Lemma madm_lane_mid :
  sat32 H M = u16 (sat_lane (u16 (Z.shiftr (u64 X) 32)) (u16 (Z.shiftr (u64 X) 16)) (u16 (u64 X)) true 32768 32767).
Proof. rewrite madm_lane_h, madm_lane_m. apply sat32_sat_lane; auto with mach. Qed.
Lemma madm_lane_low :
  blendv16 (cmpeq16 (srai16 15 H) 0) L
    (Z.land (cmpeq16 (srai16 15 H) (srai16 15 M)) (cmpeq16 (srai16 15 H) H))
  = u16 (sat_lane (u16 (Z.shiftr (u64 X) 32)) (u16 (Z.shiftr (u64 X) 16)) (u16 (u64 X)) false 0 65535).
Proof. rewrite madm_lane_h, madm_lane_m, madm_lane_l. apply simd_clamp_low; auto with mach. Qed.
End Madm.

Lemma mullo_comm a b : mullo16 a b = mullo16 b a.
Proof. unfold mullo16. f_equal. ring. Qed.
Lemma mulhiu_comm a b : mulhiu16 a b = mulhiu16 b a.
Proof. unfold mulhiu16. f_equal. ring. Qed.

(** ** VMADL: an unsigned product's upper half *)
Section Madl.
Context (a b h m l : Z) (Ha : is_u16 a) (Hb : is_u16 b) (Hh : is_u16 h) (Hm : is_u16 m) (Hl : is_u16 l).
Let v := Z.shiftr (u32 (a * b)) 16.
Let lo := mulhiu16 a b.
Let L := add16 l lo.
Let om1 := cmpeq16 (cmpeq16 L (addus16 l lo)) 0.
Let md := sub16 0 om1.
Let M := add16 m md.
Let om2 := cmpeq16 (cmpeq16 M (addus16 m md)) 0.
Let H := sub16 h om2.
Let X := acc64 h m l + v.

Lemma madl_lo : lo = v /\ 0 <= v < 65535.
Proof.
  pose proof (mul_u16_bounds a b Ha Hb). unfold lo, v. rewrite mulhiu_div, Z.shiftr_div_pow2 by lia.
  rewrite u32_small by (unfold is_u32; lia). change (2 ^ 16) with 65536. split; [reflexivity|zlia].
Qed.
Lemma madl_md : md = u16 (v / 65536 + b2z (65536 <=? l + u16 v)).
Proof.
  destruct madl_lo as [E Hv]. apply carry_into_mid; [assumption| |].
  - rewrite E, u16_small by (unfold is_u16; lia). reflexivity.
  - rewrite Z.div_small by lia. reflexivity.
Qed.
Lemma madl_high : H = sub16 (add16 h 0) om2.
Proof. unfold H, add16. rewrite Z.add_0_r, (u16_small h) by assumption. reflexivity. Qed.
Lemma madl_hi : 0 = u16 ((v / 65536 + b2z (65536 <=? l + u16 v)) / 65536).
Proof.
  destruct madl_lo as [E Hv]. rewrite (Z.div_small v) by lia.
  destruct (65536 <=? l + u16 v); reflexivity.
Qed.
Lemma VMADL_lane_l : L = u16 (u64 X).
Proof.
  destruct madl_lo as [E Hv]. apply acc_simd_low; [assumption..|].
  rewrite E, u16_small by (unfold is_u16; lia). reflexivity.
Qed.
Lemma VMADL_lane_m : M = u16 (Z.shiftr (u64 X) 16).
Proof. apply acc_simd_mid; [assumption..|apply madl_md]. Qed.
Lemma VMADL_lane_h : H = u16 (Z.shiftr (u64 X) 32).
Proof. rewrite madl_high. apply acc_simd_high; [assumption..|apply madl_md|apply madl_hi]. Qed.
Lemma VMADL_lane_vd :
  blendv16 (cmpeq16 (srai16 15 H) 0) L
    (Z.land (cmpeq16 (srai16 15 H) (srai16 15 M)) (cmpeq16 (srai16 15 H) H))
  = u16 (sat_lane (u16 (Z.shiftr (u64 X) 32)) (u16 (Z.shiftr (u64 X) 16)) (u16 (u64 X)) false 0 65535).
Proof. rewrite VMADL_lane_h, VMADL_lane_m, VMADL_lane_l. apply simd_clamp_low; auto with mach. Qed.
End Madl.

(** ** VMADH: a signed product added to ACCH:ACCM *)
Section Madh.
Context (a b h m l : Z) (Ha : is_u16 a) (Hb : is_u16 b) (Hh : is_u16 h) (Hm : is_u16 m) (Hl : is_u16 l).
Let p := s16 a * s16 b.
Let lo := mullo16 a b.
Let M := add16 m lo.
Let om := cmpeq16 (cmpeq16 M (addus16 m lo)) 0.
Let H := add16 h (sub16 (mulhi16 a b) om).
Let R := s32 (u64 (Z.shiftr (acc64 h m l) 16 + p)).

Lemma madh_result : exists k, R = h * 65536 + m + p + k * 4294967296.
Proof.
  unfold R. rewrite accumulator_join, Z.shiftr_div_pow2 by (assumption || lia). change (2 ^ 16) with 65536.
  replace (acc48 h m l / 65536) with (h * 65536 + m) by (unfold acc48, is_u16 in *; zlia).
  generalize (h * 65536 + m + p). intros x. unfold s32, u64.
  destruct (Z.ltb_spec (x mod 18446744073709551616 mod 4294967296) 2147483648).
  - exists (- (x / 4294967296)). zlia.
  - exists (- (x / 4294967296) - 1). zlia.
Qed.
Lemma VMADH_lane_m : M = u16 R.
Proof.
  destruct madh_result as [k ->]. unfold M, lo, add16, mullo16. fold p. unfold u16. zlia.
Qed.
Lemma VMADH_lane_h : H = u16 (Z.shiftr R 16).
Proof.
  destruct madh_result as [k ->]. unfold H, om, M, lo. rewrite carry_mask by (unfold mullo16; auto with mach).
  rewrite sub16_mask, mulhi_div, Z.shiftr_div_pow2 by lia. change (2 ^ 16) with 65536.
  unfold mullo16, add16. fold p.
  assert (E : (h * 65536 + m + p + k * 4294967296) / 65536
              = h + (p / 65536 + b2z (65536 <=? m + u16 p)) + k * 65536).
  { unfold u16, is_u16 in *. destruct (Z.leb_spec 65536 (m + p mod 65536)); cbn [b2z]; zlia. }
  rewrite E. generalize (b2z (65536 <=? m + u16 p)), (p / 65536). intros c q. u16_ring.
Qed.
Lemma VMADH_lane_vd :
  sat32 H M = u16 (sat_lane (u16 (Z.shiftr R 16)) (u16 R) l true 32768 32767).
Proof. rewrite VMADH_lane_h, VMADH_lane_m. apply sat32_sat_lane; auto with mach. Qed.
End Madh.

(** ** The multiplications that set the accumulator *)
Section Mud.
Context (a b : Z) (Ha : is_u16 a) (Hb : is_u16 b).

(** VMUDH: the signed product in ACCH:ACCM *)
Let ph := u64 (Z.shiftl (s16 a * s16 b) 16).
Lemma VMUDH_lane_l : 0 = u16 ph.
Proof. unfold ph. rewrite slice_l, Z.shiftl_mul_pow2 by lia. unfold u16. change (2 ^ 16) with 65536. zlia. Qed.
Lemma VMUDH_lane_m : mullo16 a b = u16 (Z.shiftr ph 16).
Proof. unfold ph, mullo16. rewrite slice_m, Z.shiftl_mul_pow2 by lia. f_equal. change (2 ^ 16) with 65536. zlia. Qed.
Lemma VMUDH_lane_h : mulhi16 a b = u16 (Z.shiftr ph 32).
Proof.
  unfold ph. rewrite mulhi_div, slice_h, Z.shiftl_mul_pow2 by lia. f_equal. change (2 ^ 16) with 65536. zlia.
Qed.
Lemma VMUDH_lane_vd : sat32 (mulhi16 a b) (mullo16 a b) =
  u16 (sat_lane (u16 (Z.shiftr ph 32)) (u16 (Z.shiftr ph 16)) (u16 ph) true 32768 32767).
Proof. rewrite VMUDH_lane_h, VMUDH_lane_m. apply sat32_sat_lane; auto with mach. Qed.

(** VMUDL: the unsigned product's upper half *)
Let pl := u16 (Z.shiftr (s32 (a * b)) 16).
Lemma mudl_eq : pl = mulhiu16 a b.
Proof.
  pose proof (mul_u16_bounds a b Ha Hb). unfold pl. rewrite mulhiu_div, Z.shiftr_div_pow2 by lia.
  change (2 ^ 16) with 65536. unfold u16, s32. zcase; zlia.
Qed.
Lemma VMUDL_lane_l : mulhiu16 a b = u16 pl.
Proof. rewrite mudl_eq, u16_small by (apply mulhiu_range; assumption). reflexivity. Qed.
Lemma VMUDL_lane_m : 0 = u16 (Z.shiftr pl 16).
Proof.
  rewrite Z.shiftr_div_pow2 by lia. change (2 ^ 16) with 65536. unfold pl.
  match goal with |- _ = u16 (u16 ?x / _) => pose proof (u16_range x) as Hr end.
  unfold is_u16 in Hr. rewrite Z.div_small by lia. reflexivity.
Qed.
Lemma VMUDL_lane_h : 0 = u16 (Z.shiftr pl 32).
Proof.
  rewrite Z.shiftr_div_pow2 by lia. change (2 ^ 32) with 4294967296. unfold pl.
  match goal with |- _ = u16 (u16 ?x / _) => pose proof (u16_range x) as Hr end.
  unfold is_u16 in Hr. rewrite Z.div_small by lia. reflexivity.
Qed.

(** VMUDM, VMUDN: [a] signed, [b] unsigned *)
Let pm := u64 (s32 (s16 a * b)).
Lemma mudm_small : s32 (s16 a * b) = s16 a * b.
Proof. pose proof (mul_su16_bounds a b Hb). apply s32_small. unfold is_s32. lia. Qed.
Lemma mudm_lane_l : mullo16 a b = u16 pm.
Proof. unfold pm. rewrite slice_l, mudm_small. apply mullo_su. assumption. Qed.
Lemma mudm_lane_m : sub16 (mulhiu16 a b) (Z.land b (srai16 15 a)) = u16 (Z.shiftr pm 16).
Proof. unfold pm. rewrite slice_m, mudm_small. apply mulhsu; assumption. Qed.
Lemma mudm_lane_h :
  srai16 15 (sub16 (mulhiu16 a b) (Z.land b (srai16 15 a))) = u16 (Z.shiftr pm 32).
Proof.
  rewrite mudm_lane_m. unfold pm. rewrite slice_h, slice_m, mudm_small, srai16_15, s16_u16 by auto with mach.
  pose proof (mul_su16_bounds a b Hb) as Hv. revert Hv. generalize (s16 a * b). intros v Hv.
  rewrite s16_small by (unfold is_s16; zlia).
  zcase; [replace (v / 4294967296) with (-1) by zlia|replace (v / 4294967296) with 0 by zlia]; reflexivity.
Qed.
End Mud.

(** ** VMULF, VMULU: the rounded fractional product *)
Section Mulf.
Context (a b : Z) (Ha : is_u16 a) (Hb : is_u16 b).
Let t := s16 a * s16 b * 2 + 32768.
Let lo0 := mullo16 a b.
Let lo := add16 lo0 lo0.
Let L := add16 (slli16 15 (cmpeq16 0 0)) lo.
Let sign := add16 (srli16 15 lo0) (srli16 15 lo).
Let M := add16 (slli16 1 (mulhi16 a b)) sign.
Let neg := srai16 15 M.
Let neq := cmpeq16 a b.
Let H := andnot16 neq neg.

Lemma VMULF_lane_l : L = u16 (u64 t).
Proof.
  rewrite slice_l. unfold L, lo, lo0, t, mullo16, add16. change (slli16 15 (cmpeq16 0 0)) with 32768. u16_ring.
Qed.
Lemma mulf_m : M = u16 (t / 65536).
Proof.
  unfold M, sign, lo, lo0, t, slli16, srli16, add16, mullo16. rewrite mulhi_div, !Z.shiftr_div_pow2, Z.shiftl_mul_pow2 by lia.
  change (2 ^ 15) with 32768. change (2 ^ 1) with 2. generalize (s16 a * s16 b). intros p. unfold u16. zlia.
Qed.
Lemma VMULF_lane_m : M = u16 (Z.shiftr (u64 t) 16).
Proof. rewrite slice_m. apply mulf_m. Qed.
(** Equal operands give a product that only overflows upwards. *)
Lemma mulf_cases :
  (neq = 65535 /\ 0 <= t / 65536 <= 32768) \/ (neq = 0 /\ -32768 <= t / 65536 < 32768).
Proof.
  unfold neq, cmpeq16, t. pose proof (s16_range a) as Ra; pose proof (s16_range b) as Rb. unfold is_s16 in *.
  destruct (Z.eqb_spec a b) as [->|N]; [left|right]; split; try reflexivity.
  - assert (0 <= s16 b * s16 b <= 1073741824) by nia. zlia.
  - assert (s16 a <> s16 b) by (intros E; apply N; rewrite (u16_of_s16 a), (u16_of_s16 b), E by assumption; reflexivity).
    assert (-1073709056 <= s16 a * s16 b <= 1073709056); [|zlia].
    destruct (Z.eq_dec (s16 a) (-32768)), (Z.eq_dec (s16 b) (-32768)); nia.
Qed.
Lemma mulf_lanes :
  (H = 65535 /\ M = u16 (t / 65536) /\ neg = 65535 /\ -32768 <= t / 65536 < 0 /\ neq = 0) \/
  (H = 0 /\ M = t / 65536 /\ neg = 0 /\ 0 <= t / 65536 < 32768) \/
  (H = 0 /\ M = 32768 /\ neg = 65535 /\ t / 65536 = 32768 /\ neq = 65535).
Proof.
  unfold H, neg. rewrite mulf_m, srai16_15, s16_u16 by auto with mach. unfold andnot16.
  destruct mulf_cases as [[-> Ht]|[-> Ht]]; revert Ht; generalize (t / 65536); intros x Hx.
  - destruct (Z.eq_dec x 32768) as [->|].
    + right; right. repeat split; reflexivity.
    + right; left. rewrite s16_small by (unfold is_s16; lia). rewrite u16_small by (unfold is_u16; lia).
      zcase. repeat split; try reflexivity; lia.
  - rewrite s16_small by (unfold is_s16; lia). zcase.
    + left. repeat split; try reflexivity; lia.
    + right; left. rewrite u16_small by (unfold is_u16; lia). repeat split; try reflexivity; lia.
Qed.
Lemma VMULF_lane_h : H = u16 (Z.shiftr (u64 t) 32).
Proof.
  rewrite slice_h, <- div_div_65536.
  destruct mulf_lanes as [(-> & _ & _ & Ht & _)|[(-> & _ & _ & Ht)|(-> & _ & _ & Ht & _)]].
  - replace (t / 65536 / 65536) with (-1) by zlia. reflexivity.
  - rewrite (Z.div_small (t / 65536)) by lia. reflexivity.
  - rewrite Ht. reflexivity.
Qed.
Lemma VMULF_lane_vd : add16 M (Z.land neq neg) =
  u16 (sat_lane (u16 (Z.shiftr (u64 t) 32)) (u16 (Z.shiftr (u64 t) 16)) (u16 (u64 t)) true 32768 32767).
Proof.
  rewrite <- VMULF_lane_h, <- VMULF_lane_m. unfold sat_lane, add16. cbn [negb].
  destruct mulf_lanes as [(-> & -> & -> & Ht & ->)|[(-> & -> & -> & Ht)|(-> & -> & -> & Ht & ->)]]; lane_bits.
  - rewrite s16_u16, (s16_small (t / 65536)) by (unfold is_s16; lia). lane_consts. zcase.
    rewrite Z.add_0_r. reflexivity.
  - rewrite (s16_small (t / 65536)) by (unfold is_s16; lia). lane_consts. zcase.
    rewrite Z.add_0_r. reflexivity.
  - reflexivity.
Qed.
Lemma VMULU_lane_vd : andnot16 H (Z.lor M neg) =
  u16 (if s16 (u16 (Z.shiftr (u64 t) 32)) <? 0 then 0
       else if Z.lxor (s16 (u16 (Z.shiftr (u64 t) 32))) (s16 (u16 (Z.shiftr (u64 t) 16))) <? 0 then 65535
       else u16 (Z.shiftr (u64 t) 16)).
Proof.
  rewrite <- VMULF_lane_h, <- VMULF_lane_m, lxor_sign. unfold andnot16.
  destruct mulf_lanes as [(-> & -> & -> & Ht & ->)|[(-> & -> & -> & Ht)|(-> & -> & -> & Ht & ->)]]; lane_bits.
  - lane_consts. lane_bits. reflexivity.
  - rewrite (s16_small (t / 65536)) by (unfold is_s16; lia). lane_consts. lane_bits. zcase.
    cbn [xorb]. rewrite ?Z.sub_0_r, ?land_full_l, u16_small by (unfold is_u16; lia). reflexivity.
  - reflexivity.
Qed.
End Mulf.
