(* ===== verification/RspMem.v ===== *)
(** RSP data memory: the [dmem] array of librecomp/src/rsp.cpp and the
    [RSP_MEM_*] accessors of librecomp/include/librecomp/rsp.hpp, which store
    every 32-bit word in host (little-endian) order by flipping the low two
    address bits. *)

From S2P Require Import Prelude.
From Stdlib Require Import ZArith Lia Bool List.
From stdpp Require Import base gmap.
Open Scope Z_scope.

(** The 4096 host bytes; an index never written reads the initial 0. *)
Abbreviation dmem_t := (gmap Z Z).
Definition dmem_get (d : dmem_t) (i : Z) : Z := default 0 (d !! i).

(** [0xFFF & (((offset) + (addr)) ^ 3)] *)
Definition slot (a : Z) : Z := Z.land 0xFFF (Z.lxor a 3).

Definition RSP_MEM_BU (offset addr : Z) (d : dmem_t) : Z := dmem_get d (slot (offset + addr)).
Definition RSP_MEM_B (offset addr : Z) (d : dmem_t) : Z := s8 (RSP_MEM_BU offset addr d).
(** Assignment through either macro stores the low eight bits. *)
Definition RSP_MEM_set (offset addr v : Z) (d : dmem_t) : dmem_t :=
  <[slot (offset + addr) := u8 v]> d.

(** [for (u32 i = start; i < end; i++)] with [n] iterations left. *)
Fixpoint for_n {S : Type} (n : nat) (i : Z) (body : Z -> S -> S) (s : S) : S :=
  match n with
  | O => s
  | Datatypes.S n => for_n n (i + 1) body (body i s)
  end.
Definition for_u32 {S : Type} (start stop : Z) (body : Z -> S -> S) (s : S) : S :=
  for_n (Z.to_nat (stop - start)) start body s.

(** A host word as its four bytes, byte 0 least significant. *)
Definition byte_of (v k : Z) : Z := Z.land (Z.shiftr v (8 * k)) 255.
Definition put_byte (v k b : Z) : Z :=
  Z.lor (Z.land v (Z.lnot (Z.shiftl 255 (8 * k)))) (Z.shiftl b (8 * k)).

Definition RSP_MEM_W_LOAD (offset addr : Z) (d : dmem_t) : Z :=
  for_u32 0 4 (fun i value => put_byte value (Z.lxor i 3) (RSP_MEM_BU (offset + i) addr d)) 0.
Definition RSP_MEM_W_STORE (offset addr val : Z) (d : dmem_t) : dmem_t :=
  for_u32 0 4 (fun i d => RSP_MEM_set (offset + i) addr (byte_of val (Z.lxor i 3)) d) d.
Definition RSP_MEM_HU_LOAD (offset addr : Z) (d : dmem_t) : Z :=
  for_u32 0 2 (fun i value => put_byte value (Z.lxor (i + 2) 3) (RSP_MEM_BU (offset + i) addr d)) 0.
Definition RSP_MEM_H_LOAD (offset addr : Z) (d : dmem_t) : Z :=
  u32 (s16 (for_u32 0 2 (fun i value => put_byte value (Z.lxor (i + 2) 3) (RSP_MEM_BU (offset + i) addr d)) 0)).
Definition RSP_MEM_H_STORE (offset addr val : Z) (d : dmem_t) : dmem_t :=
  for_u32 0 2 (fun i d => RSP_MEM_set (offset + i) addr (byte_of val (Z.lxor (i + 2) 3)) d) d.

(** Every host byte is a byte. *)
Definition dmem_ok (d : dmem_t) : Prop := forall i, is_u8 (dmem_get d i).

(** * Addresses *)

Lemma slot_mod a : slot a = Z.lxor (a mod 4096) 3.
Proof.
  unfold slot. rewrite Z.land_comm. change 0xFFF with (Z.ones 12).
  apply Z.bits_inj'. intros n Hn. rewrite Z.land_spec, !Z.lxor_spec.
  change 4096 with (2 ^ 12).
  destruct (Z.ltb_spec n 12).
  - rewrite Z.ones_spec_low, Z.mod_pow2_bits_low by lia. apply andb_true_r.
  - rewrite Z.ones_spec_high, Z.mod_pow2_bits_high by lia. rewrite andb_false_r.
    change 3 with (3 mod 2 ^ 12). rewrite Z.mod_pow2_bits_high by lia. reflexivity.
Qed.
Lemma slot_range a : 0 <= slot a < 4096.
Proof.
  rewrite slot_mod. apply (lxor_bound 12); [lia| |lia].
  change (2 ^ 12) with 4096. apply Z.mod_pos_bound. lia.
Qed.
Lemma slot_inj a b : slot a = slot b <-> a mod 4096 = b mod 4096.
Proof.
  rewrite !slot_mod. split; [|congruence]. intros E.
  apply (f_equal (fun x => Z.lxor x 3)) in E.
  rewrite !Z.lxor_assoc, Z.lxor_nilpotent, !Z.lxor_0_r in E. exact E.
Qed.

(** * Reading after writing *)

Lemma u8_u8 x : u8 (u8 x) = u8 x.
Proof. apply u8_small, u8_range. Qed.
Lemma u8_s8 x : u8 (s8 x) = u8 x.
Proof. unfold u8, s8. zcase; zlia. Qed.
#[export] Hint Rewrite u8_u8 u8_s8 : mach.

Lemma mem_set_get o a v d o' a' :
  RSP_MEM_BU o' a' (RSP_MEM_set o a v d) =
  if decide ((o + a) mod 4096 = (o' + a') mod 4096) then u8 v else RSP_MEM_BU o' a' d.
Proof.
  unfold RSP_MEM_BU, RSP_MEM_set, dmem_get. destruct (decide _) as [E|E].
  - apply slot_inj in E. rewrite E, lookup_insert_eq. reflexivity.
  - rewrite lookup_insert_ne; [reflexivity|]. intros E'. apply E, slot_inj. exact E'.
Qed.

Lemma dmem_ok_set d o a v : dmem_ok d -> dmem_ok (RSP_MEM_set o a v d).
Proof.
  intros Hd i. unfold RSP_MEM_set, dmem_get. destruct (decide (i = slot (o + a))) as [->|E].
  - rewrite lookup_insert_eq. apply u8_range.
  - rewrite lookup_insert_ne by congruence. apply Hd.
Qed.
Lemma mem_bu_u8 d o a : dmem_ok d -> is_u8 (RSP_MEM_BU o a d).
Proof. intros Hd. apply Hd. Qed.
#[export] Hint Resolve dmem_ok_set mem_bu_u8 : mach.

(** * Loops *)

Lemma for_n_inv {S : Type} (P : S -> Prop) n i body (s : S) :
  (forall i s, P s -> P (body i s)) -> P s -> P (for_n n i body s).
Proof. intros H. revert i s. induction n; cbn; auto. Qed.

Lemma for_n_ext {S : Type} n i (f g : Z -> S -> S) s :
  (forall i s, f i s = g i s) -> for_n n i f s = for_n n i g s.
Proof. intros H. revert i s. induction n as [|n IH]; intros i s; cbn; [reflexivity|]. rewrite H. apply IH. Qed.

(** * Words and halfwords *)

Lemma byte_of_u8 v k : is_u8 (byte_of v k).
Proof. unfold byte_of, is_u8. pose proof (land_bound_r (Z.shiftr v (8 * k)) 255). lia. Qed.
Lemma byte_of_div v k : 0 <= k -> byte_of v k = v / 2 ^ (8 * k) mod 256.
Proof.
  intros Hk. unfold byte_of. rewrite Z.shiftr_div_pow2 by lia.
  change 255 with (Z.ones 8). rewrite Z.land_ones by lia. reflexivity.
Qed.

(** The word held by four bytes, most significant first. *)
Definition be32 (b0 b1 b2 b3 : Z) : Z := b0 * 16777216 + b1 * 65536 + b2 * 256 + b3.

Lemma put_byte_fresh x k b : 0 <= k -> is_u8 b ->
  put_byte (x * 2 ^ (8 * k + 8)) k b = x * 2 ^ (8 * k + 8) + b * 2 ^ (8 * k).
Proof.
  intros Hk Hb. unfold put_byte.
  assert (E : Z.land (x * 2 ^ (8 * k + 8)) (Z.lnot (Z.shiftl 255 (8 * k))) = x * 2 ^ (8 * k + 8)).
  { apply Z.bits_inj'. intros n Hn. rewrite Z.land_spec.
    destruct (Z.ltb_spec n (8 * k + 8)).
    - rewrite Z.mul_pow2_bits_low by lia. reflexivity.
    - rewrite Z.lnot_spec, Z.shiftl_spec by lia. change 255 with (Z.ones 8).
      rewrite (Z.ones_spec_high 8) by lia. apply andb_true_r. }
  rewrite E, Z.shiftl_mul_pow2 by lia. apply lor_add; [lia|].
  unfold is_u8 in Hb. rewrite Z.pow_add_r by lia. change (2 ^ 8) with 256.
  pose proof (Z.pow_pos_nonneg 2 (8 * k) ltac:(lia) ltac:(lia)). nia.
Qed.

Lemma put_bytes4 b0 b1 b2 b3 : is_u8 b0 -> is_u8 b1 -> is_u8 b2 -> is_u8 b3 ->
  put_byte (put_byte (put_byte (put_byte 0 3 b0) 2 b1) 1 b2) 0 b3 = be32 b0 b1 b2 b3.
Proof.
  intros. unfold be32.
  rewrite <- (Z.mul_0_l (2 ^ (8 * 3 + 8))), (put_byte_fresh 0 3) by (lia || assumption).
  replace (0 * 2 ^ (8 * 3 + 8) + b0 * 2 ^ (8 * 3)) with (b0 * 2 ^ (8 * 2 + 8)) by lia.
  rewrite (put_byte_fresh b0 2) by (lia || assumption).
  replace (b0 * 2 ^ (8 * 2 + 8) + b1 * 2 ^ (8 * 2)) with ((b0 * 256 + b1) * 2 ^ (8 * 1 + 8)) by lia.
  rewrite (put_byte_fresh _ 1) by (lia || assumption).
  replace ((b0 * 256 + b1) * 2 ^ (8 * 1 + 8) + b2 * 2 ^ (8 * 1))
    with ((b0 * 65536 + b1 * 256 + b2) * 2 ^ (8 * 0 + 8)) by lia.
  rewrite (put_byte_fresh _ 0) by (lia || assumption). lia.
Qed.
Lemma put_bytes2 b0 b1 : is_u8 b0 -> is_u8 b1 -> put_byte (put_byte 0 1 b0) 0 b1 = b0 * 256 + b1.
Proof.
  intros. rewrite <- (Z.mul_0_l (2 ^ (8 * 1 + 8))), (put_byte_fresh 0 1) by (lia || assumption).
  replace (0 * 2 ^ (8 * 1 + 8) + b0 * 2 ^ (8 * 1)) with (b0 * 2 ^ (8 * 0 + 8)) by lia.
  rewrite (put_byte_fresh _ 0) by (lia || assumption). lia.
Qed.

(** Words and halfwords are read big-endian from consecutive addresses, at
    any alignment. *)
Lemma w_load_be offset addr d : dmem_ok d ->
  RSP_MEM_W_LOAD offset addr d =
  be32 (RSP_MEM_BU offset addr d) (RSP_MEM_BU (offset + 1) addr d)
       (RSP_MEM_BU (offset + 2) addr d) (RSP_MEM_BU (offset + 3) addr d).
Proof.
  intros Hd. unfold RSP_MEM_W_LOAD, for_u32.
  change (for_n (Z.to_nat (4 - 0)) 0 ?f ?s) with (f 3 (f 2 (f 1 (f 0 s)))). cbv beta.
  change (Z.lxor 0 3) with 3. change (Z.lxor 1 3) with 2. change (Z.lxor 2 3) with 1.
  change (Z.lxor 3 3) with 0. rewrite Z.add_0_r. apply put_bytes4; auto with mach.
Qed.
Lemma hu_load_be offset addr d : dmem_ok d ->
  RSP_MEM_HU_LOAD offset addr d = RSP_MEM_BU offset addr d * 256 + RSP_MEM_BU (offset + 1) addr d.
Proof.
  intros Hd. unfold RSP_MEM_HU_LOAD. change (for_u32 0 2 ?f ?s) with (f 1 (f 0 s)). cbv beta.
  change (Z.lxor (0 + 2) 3) with 1. change (Z.lxor (1 + 2) 3) with 0. rewrite Z.add_0_r.
  apply put_bytes2; auto with mach.
Qed.

Lemma be32_bytes v : is_u32 v ->
  be32 (byte_of v 3) (byte_of v 2) (byte_of v 1) (byte_of v 0) = v.
Proof.
  intros Hv. rewrite !byte_of_div by lia. unfold be32, is_u32 in *.
  change (2 ^ (8 * 3)) with 16777216. change (2 ^ (8 * 2)) with 65536.
  change (2 ^ (8 * 1)) with 256. change (2 ^ (8 * 0)) with 1. zlia.
Qed.

Lemma w_store_ok offset addr v d : dmem_ok d -> dmem_ok (RSP_MEM_W_STORE offset addr v d).
Proof. intros Hd. unfold RSP_MEM_W_STORE, for_u32. apply for_n_inv; auto with mach. Qed.

(** What a word store leaves at every address. *)
Lemma w_store_get offset addr v d i : 0 <= i < 4 ->
  RSP_MEM_BU (offset + i) addr (RSP_MEM_W_STORE offset addr v d) = byte_of v (3 - i).
Proof.
  intros Hi. unfold RSP_MEM_W_STORE. change (for_u32 0 4 ?f ?s) with (f 3 (f 2 (f 1 (f 0 s)))). cbv beta.
  rewrite !mem_set_get.
  assert (i = 0 \/ i = 1 \/ i = 2 \/ i = 3) as [->|[->|[->| ->]]] by lia;
    repeat (destruct (decide _); try (exfalso; zlia));
    rewrite u8_small by apply byte_of_u8; reflexivity.
Qed.
Lemma w_store_other offset addr v d o a :
  4 <= (o + a - (offset + addr)) mod 4096 ->
  RSP_MEM_BU o a (RSP_MEM_W_STORE offset addr v d) = RSP_MEM_BU o a d.
Proof.
  intros Hi. unfold RSP_MEM_W_STORE. change (for_u32 0 4 ?f ?s) with (f 3 (f 2 (f 1 (f 0 s)))). cbv beta.
  rewrite !mem_set_get.
  repeat (destruct (decide _); [exfalso; zlia|]). reflexivity.
Qed.
