(* ===== verification/VuMem.v ===== *)
(** The vector loads and stores and the moves between scalar and vector
    registers (librecomp/include/librecomp/rsp_vu_impl.hpp, LBV to SWV, MFC2,
    MTC2).  Addresses are [u32]; only their low twelve bits reach the memory,
    so the wrap-around at 2^32 is the one of [Z] modulo 4096. *)

From S2P Require Import Prelude Vec128 RspMem.
From Stdlib Require Import ZArith Lia Bool List.
From stdpp Require Import base gmap.
Open Scope Z_scope.

(** [vt.byte(i)] with a 32-bit index and the assignment to it. *)
Definition vbyte (v : r128) (i : Z) : Z := byte v (Z.to_nat i).
Definition set_vbyte (v : r128) (i b : Z) : r128 := set_byte v (Z.to_nat i) b.
Definition velement (v : r128) (i : Z) : Z := element v (Z.to_nat i).
Definition set_velement (v : r128) (i x : Z) : r128 := set_element v (Z.to_nat i) x.

Notation "x &&& y" := (Z.land x y) (at level 40, left associativity) : Z_scope.
Notation "x <<< y" := (Z.shiftl x y) (at level 35, right associativity) : Z_scope.
Notation "x >>> y" := (Z.shiftr x y) (at level 35, right associativity) : Z_scope.

(** [address & ~7], [address & ~15] *)
Definition align8 (a : Z) : Z := a - a mod 8.
Definition align16 (a : Z) : Z := a - a mod 16.

Section Access.
Context (e : Z) (rs imm : Z).

(** The loop [for (offset = start; offset < end; offset++) vt.byte(offset & 15) = mem[address++]] *)
Definition load_bytes (start stop address : Z) (d : dmem_t) (vt : r128) : r128 :=
  fst (for_u32 start stop (fun offset '(vt, address) =>
    (set_vbyte vt (offset &&& 15) (RSP_MEM_B 0 address d), u32 (address + 1))) (vt, address)).
(** The loop [for (...) mem[address++] = vt.byte(f(offset) & 15)] *)
Definition store_bytes (start stop address : Z) (f : Z -> Z) (d : dmem_t) : dmem_t :=
  fst (for_u32 start stop (fun offset '(d, address) =>
    (RSP_MEM_set 0 address (f offset) d, u32 (address + 1))) (d, address)).

Definition LBV (d : dmem_t) (vt : r128) : r128 :=
  let address := u32 (rs + imm) in
  set_vbyte vt e (RSP_MEM_B 0 address d).

Definition LDV (d : dmem_t) (vt : r128) : r128 :=
  let address := u32 (rs + imm * 8) in
  load_bytes e (Z.min (e + 8) 16) address d vt.

Definition LFV (d : dmem_t) (vt : r128) : r128 :=
  let address := u32 (rs + imm * 16) in
  let index := u32 ((address &&& 7) - e) in
  let address := align8 address in
  let start := e in
  let stop := Z.min (start + 8) 16 in
  let tmp := for_u32 0 4 (fun offset tmp =>
    let tmp := set_velement tmp (offset + 0)
      (RSP_MEM_B 0 (address + ((index + offset * 4 + 0) &&& 15)) d <<< 7) in
    set_velement tmp (offset + 4)
      (RSP_MEM_B 0 (address + ((index + offset * 4 + 8) &&& 15)) d <<< 7)) zero in
  for_u32 start stop (fun offset vt => set_vbyte vt offset (vbyte tmp offset)) vt.

Definition LHV (d : dmem_t) (vt : r128) : r128 :=
  let address := u32 (rs + imm * 16) in
  let index := u32 ((address &&& 7) - e) in
  let address := align8 address in
  for_u32 0 8 (fun offset vt =>
    set_velement vt offset (RSP_MEM_B 0 (address + ((index + offset * 2) &&& 15)) d <<< 7)) vt.

Definition LLV (d : dmem_t) (vt : r128) : r128 :=
  let address := u32 (rs + imm * 4) in
  load_bytes e (Z.min (e + 4) 16) address d vt.

Definition LPV (d : dmem_t) (vt : r128) : r128 :=
  let address := u32 (rs + imm * 8) in
  let index := u32 ((address &&& 7) - e) in
  let address := align8 address in
  for_u32 0 8 (fun offset vt =>
    set_velement vt offset (RSP_MEM_B 0 (address + ((index + offset) &&& 15)) d <<< 8)) vt.

Definition LQV (d : dmem_t) (vt : r128) : r128 :=
  let address := u32 (rs + imm * 16) in
  let stop := Z.min (u32 (16 + e - (address &&& 15))) 16 in
  load_bytes e stop address d vt.

Definition LRV (d : dmem_t) (vt : r128) : r128 :=
  let address := u32 (rs + imm * 16) in
  let index := e in
  let start := u32 (16 - u32 ((address &&& 15) - index)) in
  let address := align16 address in
  load_bytes start 16 address d vt.

Definition LSV (d : dmem_t) (vt : r128) : r128 :=
  let address := u32 (rs + imm * 2) in
  load_bytes e (Z.min (e + 2) 16) address d vt.

Definition LUV (d : dmem_t) (vt : r128) : r128 :=
  let address := u32 (rs + imm * 8) in
  let index := u32 ((address &&& 7) - e) in
  let address := align8 address in
  for_u32 0 8 (fun offset vt =>
    set_velement vt offset (RSP_MEM_B 0 (address + ((index + offset) &&& 15)) d <<< 7)) vt.

Definition LWV (d : dmem_t) (vt : r128) : r128 :=
  let address := u32 (rs + imm * 16) in
  let start := 16 - e in
  let stop := e + 16 in
  fst (for_u32 start stop (fun offset '(vt, address) =>
    (set_vbyte vt (offset &&& 15) (RSP_MEM_B 0 address d), u32 (address + 4))) (vt, address)).

Definition MFC2 (vs : r128) : Z :=
  let hi := vbyte vs ((e + 0) &&& 15) in
  let lo := vbyte vs ((e + 1) &&& 15) in
  u32 (s16 (Z.lor (hi <<< 8) lo)).

Definition MTC2 (rt : Z) (vs : r128) : r128 :=
  let vs := set_vbyte vs (e + 0) (rt >>> 8) in
  if negb (e =? 15) then set_vbyte vs (e + 1) rt else vs.

Definition SBV (vt : r128) (d : dmem_t) : dmem_t :=
  let address := u32 (rs + imm) in
  RSP_MEM_set 0 address (vbyte vt e) d.

Definition SDV (vt : r128) (d : dmem_t) : dmem_t :=
  let address := u32 (rs + imm * 8) in
  store_bytes e (e + 8) address (fun offset => vbyte vt (offset &&& 15)) d.

Definition SFV_elements : option (Z * Z * Z * Z) :=
  match e with
  | 0 | 15 => Some (0, 1, 2, 3)
  | 1 => Some (6, 7, 4, 5)
  | 4 => Some (1, 2, 3, 0)
  | 5 => Some (7, 4, 5, 6)
  | 8 => Some (4, 5, 6, 7)
  | 11 => Some (3, 0, 1, 2)
  | 12 => Some (5, 6, 7, 4)
  | _ => None
  end.
Definition SFV (vt : r128) (d : dmem_t) : dmem_t :=
  let address := u32 (rs + imm * 16) in
  let base := address &&& 7 in
  let address := align8 address in
  let '(x0, x1, x2, x3) :=
    match SFV_elements with
    | Some (a, b, c, f) => (velement vt a >>> 7, velement vt b >>> 7, velement vt c >>> 7, velement vt f >>> 7)
    | None => (0, 0, 0, 0)
    end in
  let d := RSP_MEM_set 0 (address + ((base + 0) &&& 15)) x0 d in
  let d := RSP_MEM_set 0 (address + ((base + 4) &&& 15)) x1 d in
  let d := RSP_MEM_set 0 (address + ((base + 8) &&& 15)) x2 d in
  RSP_MEM_set 0 (address + ((base + 12) &&& 15)) x3 d.

Definition SHV (vt : r128) (d : dmem_t) : dmem_t :=
  let address := u32 (rs + imm * 16) in
  let index := address &&& 7 in
  let address := align8 address in
  for_u32 0 8 (fun offset d =>
    let byte := e + offset * 2 in
    let value := Z.lor (vbyte vt ((byte + 0) &&& 15) <<< 1) (vbyte vt ((byte + 1) &&& 15) >>> 7) in
    RSP_MEM_set 0 (address + ((index + offset * 2) &&& 15)) value d) d.

Definition SLV (vt : r128) (d : dmem_t) : dmem_t :=
  let address := u32 (rs + imm * 4) in
  store_bytes e (e + 4) address (fun offset => vbyte vt (offset &&& 15)) d.

Definition SPV (vt : r128) (d : dmem_t) : dmem_t :=
  let address := u32 (rs + imm * 8) in
  store_bytes e (e + 8) address (fun offset =>
    if (offset &&& 15) <? 8 then vbyte vt ((offset &&& 7) <<< 1)
    else velement vt (offset &&& 7) >>> 7) d.

Definition SQV (vt : r128) (d : dmem_t) : dmem_t :=
  let address := u32 (rs + imm * 16) in
  store_bytes e (e + (16 - (address &&& 15))) address (fun offset => vbyte vt (offset &&& 15)) d.

Definition SRV (vt : r128) (d : dmem_t) : dmem_t :=
  let address := u32 (rs + imm * 16) in
  let stop := e + (address &&& 15) in
  let base := 16 - (address &&& 15) in
  let address := align16 address in
  store_bytes e stop address (fun offset => vbyte vt ((offset + base) &&& 15)) d.

Definition SSV (vt : r128) (d : dmem_t) : dmem_t :=
  let address := u32 (rs + imm * 2) in
  store_bytes e (e + 2) address (fun offset => vbyte vt (offset &&& 15)) d.

Definition SUV (vt : r128) (d : dmem_t) : dmem_t :=
  let address := u32 (rs + imm * 8) in
  store_bytes e (e + 8) address (fun offset =>
    if (offset &&& 15) <? 8 then velement vt (offset &&& 7) >>> 7
    else vbyte vt ((offset &&& 7) <<< 1)) d.

Definition SWV (vt : r128) (d : dmem_t) : dmem_t :=
  let address := u32 (rs + imm * 16) in
  let base := address &&& 7 in
  let address := align8 address in
  fst (for_u32 e (e + 16) (fun offset '(d, base) =>
    (RSP_MEM_set 0 (address + (base &&& 15)) (vbyte vt (offset &&& 15)) d, base + 1)) (d, base)).
End Access.

(** * The transposes, which see the register file [vpu.r] *)

Abbreviation regfile := (gmap Z r128).
Definition vreg (r : regfile) (i : Z) : r128 := default zero (r !! i).
Definition set_vreg_byte (r : regfile) (i b v : Z) : regfile := <[i := set_vbyte (vreg r i) b v]> r.

Definition LTV (e vt rs imm : Z) (d : dmem_t) (r : regfile) : regfile :=
  let address := u32 (rs + imm * 16) in
  let begin := align8 address in
  let address := u32 (begin + ((e + (address &&& 8)) &&& 15)) in
  let vtbase := align8 vt in
  let vtoff := e >>> 1 in
  let '(r, _, _) := for_u32 0 8 (fun i '(r, address, vtoff) =>
    let r := set_vreg_byte r (vtbase + vtoff) (i * 2 + 0) (RSP_MEM_B 0 address d) in
    let address := u32 (address + 1) in
    let address := if address =? u32 (begin + 16) then begin else address in
    let r := set_vreg_byte r (vtbase + vtoff) (i * 2 + 1) (RSP_MEM_B 0 address d) in
    let address := u32 (address + 1) in
    let address := if address =? u32 (begin + 16) then begin else address in
    (r, address, (vtoff + 1) &&& 7)) (r, address, vtoff) in
  r.

Definition STV (e vt rs imm : Z) (r : regfile) (d : dmem_t) : dmem_t :=
  let address := u32 (rs + imm * 16) in
  let start := align8 vt in
  let stop := start + 8 in
  let element := 16 - (e &&& 14) in
  let base := u32 ((address &&& 7) - (e &&& 14)) in
  let address := align8 address in
  let '(d, _, _) := for_u32 start stop (fun offset '(d, element, base) =>
    let d := RSP_MEM_set 0 (address + (base &&& 15)) (vbyte (vreg r offset) (element &&& 15)) d in
    let d := RSP_MEM_set 0 (address + (u32 (base + 1) &&& 15)) (vbyte (vreg r offset) ((element + 1) &&& 15)) d in
    (d, element + 2, u32 (base + 2))) (d, element, base) in
  d.
