(* ===== verification/VuMemSpec.v ===== *)
(** What the vector loads and stores do to the bytes of registers and memory:
    the paired quad loads and stores implement unaligned 128-bit accesses. *)

From S2P Require Import Prelude Vec128 RspMem VuMem.
From Stdlib Require Import ZArith Lia Bool List.
From stdpp Require Import base gmap.
Open Scope Z_scope.

(** * Bytes of a register *)

Lemma element_u16 v n : wf128 v -> is_u16 (element v n).
Proof. intros Hv. apply element_ok; [assumption|]. unfold is_u16. lia. Qed.

Lemma set_byte_wf v i b : wf128 v -> wf128 (set_byte v i b).
Proof. intros. apply lanes_ok_set; [assumption|]. apply u16_range. Qed.

Lemma nat_half_parity i : i = (2 * Nat.div i 2 + (if Nat.even i then 0 else 1))%nat.
Proof.
  destruct (Nat.even i) eqn:E.
  - apply Nat.even_spec in E as [k ->]. rewrite Nat.mul_comm, Nat.div_mul by lia. lia.
  - assert (Nat.odd i = true) as O by (unfold Nat.odd; rewrite E; reflexivity).
    apply Nat.odd_spec in O as [k ->].
    replace ((2 * k + 1) / 2)%nat with k; [lia|]. rewrite Nat.add_comm, Nat.mul_comm, Nat.div_add by lia. reflexivity.
Qed.

Lemma byte_set v i j b : wf128 v -> (i < 16)%nat -> (j < 16)%nat ->
  byte (set_byte v i b) j = if decide (i = j) then u8 b else byte v j.
Proof.
  intros Hv Hi Hj. unfold byte, set_byte.
  pose proof (nat_half_parity i) as Pi. pose proof (nat_half_parity j) as Pj.
  pose proof (element_u16 v (i / 2) Hv) as He. pose proof (u8_range b) as Hb. unfold is_u16, is_u8 in *.
  destruct (decide (i / 2 = j / 2)%nat) as [E|E].
  - rewrite <- E, element_set_same by lia. unfold u16.
    destruct (decide (i = j)) as [->|N].
    + destruct (Nat.even j); zlia.
    + rewrite <- E in Pj. destruct (Nat.even i), (Nat.even j); try lia; zlia.
  - rewrite element_set_other by assumption.
    destruct (decide (i = j)) as [->|N]; [congruence|reflexivity].
Qed.

Lemma vbyte_set v i j b : wf128 v -> 0 <= i < 16 -> 0 <= j < 16 ->
  vbyte (set_vbyte v i b) j = if decide (i = j) then u8 b else vbyte v j.
Proof.
  intros Hv Hi Hj. unfold vbyte, set_vbyte. rewrite byte_set by (assumption || lia).
  destruct (decide (i = j)) as [->|N]; [rewrite decide_True by reflexivity; reflexivity|].
  rewrite decide_False by lia. reflexivity.
Qed.
Lemma vbyte_u8 v i : wf128 v -> is_u8 (vbyte v i).
Proof.
  intros Hv. unfold vbyte, byte. pose proof (element_u16 v (Z.to_nat i / 2) Hv) as He.
  unfold is_u16, is_u8 in *. destruct (Nat.even _); zlia.
Qed.

(** A register is its sixteen bytes. *)
Lemma vbyte_ext v w : wf128 v -> wf128 w ->
  (forall i, 0 <= i < 16 -> vbyte v i = vbyte w i) -> v = w.
Proof.
  intros Hv Hw H. apply r128_ext. intros n Hn.
  pose proof (H (Z.of_nat (2 * n)) ltac:(lia)) as E0. pose proof (H (Z.of_nat (2 * n + 1)) ltac:(lia)) as E1.
  unfold vbyte, byte in *. rewrite !Nat2Z.id in *.
  replace (2 * n / 2)%nat with n in E0 by (rewrite Nat.mul_comm, Nat.div_mul; lia).
  replace ((2 * n + 1) / 2)%nat with n in E1
    by (rewrite Nat.add_comm, Nat.mul_comm, Nat.div_add; [reflexivity|lia]).
  assert (Nat.even (2 * n) = true) as A by (apply Nat.even_spec; exists n; reflexivity).
  assert (Nat.even (2 * n + 1) = false) as B by (rewrite Nat.even_add, A; reflexivity).
  rewrite A in E0. rewrite B in E1. zlia.
Qed.

(** * Bit masks as remainders *)
Lemma land15 x : Z.land x 15 = x mod 16.
Proof. change 15 with (Z.ones 4). rewrite Z.land_ones by lia. reflexivity. Qed.
Lemma land7 x : Z.land x 7 = x mod 8.
Proof. change 7 with (Z.ones 3). rewrite Z.land_ones by lia. reflexivity. Qed.

(** Reading depends on the address modulo 4096. *)
Lemma mem_bu_mod o a o' a' d : (o + a) mod 4096 = (o' + a') mod 4096 ->
  RSP_MEM_BU o a d = RSP_MEM_BU o' a' d.
Proof. intros E. unfold RSP_MEM_BU. apply slot_inj in E. rewrite E. reflexivity. Qed.

(** * Runs of bytes *)

Lemma load_bytes_get start stop a d v j :
  dmem_ok d -> wf128 v -> 0 <= start -> stop <= 16 -> 0 <= j < 16 ->
  vbyte (load_bytes start stop a d v) j =
  if decide (start <= j < stop) then RSP_MEM_BU 0 (a + (j - start)) d else vbyte v j.
Proof.
  intros Hd Hv Hs He Hj. unfold load_bytes, for_u32.
  remember (Z.to_nat (stop - start)) as n eqn:En. assert (Hn : start + Z.of_nat n <= 16 \/ n = 0%nat) by lia.
  assert (Hd' : (start <= j < stop) <-> (start <= j < start + Z.of_nat n)) by lia.
  rewrite (decide_ext _ _ _ _ Hd'). clear Hd' En He stop.
  revert start a v Hv Hs Hn. induction n as [|n IH]; intros start a v Hv Hs Hn; cbn [for_n].
  - rewrite decide_False by lia. reflexivity.
  - rewrite IH by (try apply set_byte_wf; assumption || lia).
    rewrite vbyte_set by (try assumption; rewrite ?land15; lia || zlia).
    rewrite land15, Z.mod_small by lia.
    destruct (decide (start + 1 <= j < _)), (decide (start <= j < _)); try lia.
    + apply mem_bu_mod. unfold u32. zlia.
    + rewrite decide_True by lia. unfold RSP_MEM_B. autorewrite with mach.
      rewrite u8_small by (apply mem_bu_u8; assumption). apply mem_bu_mod. f_equal. lia.
    + rewrite decide_False by lia. reflexivity.
Qed.

Lemma load_bytes_wf start stop a d v : wf128 v -> wf128 (load_bytes start stop a d v).
Proof.
  intros Hv. unfold load_bytes, for_u32.
  apply (for_n_inv (fun p : r128 * Z => wf128 (fst p))); [|assumption].
  intros i [v' a'] H. apply set_byte_wf. assumption.
Qed.

Lemma store_bytes_get start stop a f d o a' :
  stop - start <= 4096 ->
  RSP_MEM_BU o a' (store_bytes start stop a f d) =
  let i := (o + a' - a) mod 4096 in
  if decide (i < stop - start) then u8 (f (start + i)) else RSP_MEM_BU o a' d.
Proof.
  intros Hn. unfold store_bytes, for_u32. cbv zeta.
  remember (Z.to_nat (stop - start)) as n eqn:En.
  assert (Hd : ((o + a' - a) mod 4096 < stop - start) <-> ((o + a' - a) mod 4096 < Z.of_nat n)) by zlia.
  rewrite (decide_ext _ _ _ _ Hd). assert (Hn' : Z.of_nat n <= 4096) by lia. clear Hd En Hn stop.
  revert start a d Hn'. induction n as [|n IH]; intros start a d Hn; cbn [for_n].
  - rewrite decide_False by zlia. reflexivity.
  - rewrite IH, mem_set_get by lia.
    destruct (decide ((o + a' - u32 (a + 1)) mod 4096 < _)) as [H1|H1],
      (decide ((o + a' - a) mod 4096 < _)) as [H2|H2].
    + f_equal. f_equal. unfold u32 in *. zlia.
    + exfalso. unfold u32 in *. zlia.
    + rewrite decide_True by (unfold u32 in *; zlia). f_equal. f_equal. unfold u32 in *. zlia.
    + rewrite decide_False by (unfold u32 in *; zlia). reflexivity.
Qed.
Lemma store_bytes_ok start stop a f d : dmem_ok d -> dmem_ok (store_bytes start stop a f d).
Proof.
  intros Hd. unfold store_bytes, for_u32.
  apply (for_n_inv (fun p : dmem_t * Z => dmem_ok (fst p))); [|assumption].
  intros i [d' x] H. apply dmem_ok_set. assumption.
Qed.

(** * The quad accesses *)

Section Quad.
Context (a : Z) (d : dmem_t) (Hd : dmem_ok d) (Ha : is_u32 a).

Lemma quad_addr : u32 (a + 0 * 16) = a /\ u32 (a + 1 * 16) mod 4096 = (a + 16) mod 4096 /\
  u32 (a + 1 * 16) mod 16 = a mod 16.
Proof. unfold u32, is_u32 in *. repeat split; zlia. Qed.

Lemma LQV_get vt j : wf128 vt -> 0 <= j < 16 ->
  vbyte (LQV 0 a 0 d vt) j =
  if decide (j < 16 - a mod 16) then RSP_MEM_BU 0 (a + j) d else vbyte vt j.
Proof.
  intros Hv Hj. destruct quad_addr as (E & _). unfold LQV. rewrite E. cbv zeta.
  rewrite land15, load_bytes_get by (try assumption; unfold u32; zlia).
  unfold u32. rewrite Z.sub_0_r.
  destruct (decide (j < 16 - a mod 16)); [rewrite decide_True by zlia|rewrite decide_False by zlia]; reflexivity.
Qed.
Lemma LRV_get vt j : wf128 vt -> 0 <= j < 16 ->
  vbyte (LRV 0 a 1 d vt) j =
  if decide (16 - a mod 16 <= j) then RSP_MEM_BU 0 (a + j) d else vbyte vt j.
Proof.
  intros Hv Hj. destruct quad_addr as (_ & E1 & E2). unfold LRV. cbv zeta. rewrite land15, E2.
  rewrite load_bytes_get by (try assumption; unfold u32; zlia).
  assert (Es : u32 (16 - u32 (a mod 16 - 0)) = 16 - a mod 16) by (unfold u32; zlia).
  rewrite Es. destruct (decide (16 - a mod 16 <= j)).
  - rewrite decide_True by lia. apply mem_bu_mod. unfold align16. rewrite E2.
    revert E1. generalize (u32 (a + 1 * 16)). intros x E1. zlia.
  - rewrite decide_False by lia. reflexivity.
Qed.
Lemma SQV_get vt o : 
  RSP_MEM_BU 0 o (SQV 0 a 0 vt d) =
  if decide ((o - a) mod 4096 < 16 - a mod 16) then u8 (vbyte vt ((o - a) mod 4096))
  else RSP_MEM_BU 0 o d.
Proof.
  destruct quad_addr as (E & _). unfold SQV. rewrite E. cbv zeta.
  rewrite land15, store_bytes_get by zlia. cbv zeta.
  rewrite !Z.add_0_l, Z.sub_0_r. destruct (decide _); [|reflexivity].
  rewrite land15. f_equal. f_equal. zlia.
Qed.
Lemma SRV_get vt o :
  RSP_MEM_BU 0 o (SRV 0 a 1 vt d) =
  if decide ((o - (a + 16 - a mod 16)) mod 4096 < a mod 16)
  then u8 (vbyte vt ((o - (a + 16 - a mod 16)) mod 4096 + (16 - a mod 16)))
  else RSP_MEM_BU 0 o d.
Proof.
  destruct quad_addr as (_ & E1 & E2). unfold SRV. cbv zeta. rewrite land15, E2.
  rewrite store_bytes_get by zlia. cbv zeta. unfold align16. rewrite E2.
  assert (Em : (0 + o - (u32 (a + 1 * 16) - a mod 16)) mod 4096 = (o - (a + 16 - a mod 16)) mod 4096)
    by (revert E1; generalize (u32 (a + 1 * 16)); intros; zlia).
  rewrite Em, Z.sub_0_r, !Z.add_0_l. destruct (decide _); [|reflexivity].
  rewrite land15. f_equal. f_equal. zlia.
Qed.
End Quad.

Lemma quad_store_get a d vt o :
  is_u32 a -> wf128 vt ->
  RSP_MEM_BU 0 o (SRV 0 a 1 vt (SQV 0 a 0 vt d)) =
  if decide ((o - a) mod 4096 < 16) then vbyte vt ((o - a) mod 4096) else RSP_MEM_BU 0 o d.
Proof.
  intros Ha Hv. rewrite SRV_get, SQV_get by assumption.
  repeat destruct (decide _); try (exfalso; zlia); try reflexivity;
    rewrite u8_small by (apply vbyte_u8; assumption); f_equal; zlia.
Qed.
Lemma quad_store_ok a d vt : dmem_ok d -> dmem_ok (SRV 0 a 1 vt (SQV 0 a 0 vt d)).
Proof. intros. apply store_bytes_ok, store_bytes_ok. assumption. Qed.
Lemma LQV_wf e a imm d vt : wf128 vt -> wf128 (LQV e a imm d vt).
Proof. apply load_bytes_wf. Qed.
Lemma LRV_wf e a imm d vt : wf128 vt -> wf128 (LRV e a imm d vt).
Proof. apply load_bytes_wf. Qed.

(** LQV and LRV load sixteen bytes from any address. *)
Theorem unaligned_load a d vt i :
  is_u32 a -> dmem_ok d -> wf128 vt -> 0 <= i < 16 ->
  vbyte (LRV 0 a 1 d (LQV 0 a 0 d vt)) i = RSP_MEM_BU 0 (a + i) d.
Proof.
  intros Ha Hd Hv Hi. rewrite LRV_get by (try assumption; apply LQV_wf; assumption).
  destruct (decide _); [reflexivity|]. rewrite LQV_get by assumption. rewrite decide_True by lia. reflexivity.
Qed.

(** SQV and SRV store a vector at any address so that LQV and LRV load it back, and touch no byte outside its sixteen. *)
Theorem unaligned_roundtrip a d vt vt0 :
  is_u32 a -> dmem_ok d -> wf128 vt -> wf128 vt0 ->
  let d' := SRV 0 a 1 vt (SQV 0 a 0 vt d) in
  LRV 0 a 1 d' (LQV 0 a 0 d' vt0) = vt /\
  (forall o, 16 <= (o - a) mod 4096 -> RSP_MEM_BU 0 o d' = RSP_MEM_BU 0 o d).
Proof.
  intros Ha Hd Hv Hv0. cbv zeta. pose proof (quad_store_ok a d vt Hd) as Hd'.
  split; [apply vbyte_ext; [auto using LRV_wf, LQV_wf|assumption|]; intros i Hi|intros o Ho].
  - rewrite LRV_get, LQV_get by (try assumption; apply LQV_wf; assumption).
    rewrite !quad_store_get by assumption.
    replace ((a + i - a) mod 4096) with i by zlia. rewrite (decide_True (P := i < 16)) by lia.
    repeat destruct (decide _); reflexivity || lia.
  - rewrite quad_store_get, decide_False by (assumption || lia). reflexivity.
Qed.

(** * The packed loads *)

Lemma element_set v i j x : (j < 8)%nat ->
  element (set_element v i x) j = if decide (i = j) then u16 x else element v j.
Proof.
  intros Hj. destruct (decide (i = j)) as [->|N]; [apply element_set_same; assumption|].
  apply element_set_other. assumption.
Qed.

(** A loop that assigns every element from a function of its index. *)
Lemma elements_loop (f : Z -> Z) vt k : 0 <= k < 8 ->
  velement (for_u32 0 8 (fun offset vt => set_velement vt offset (f offset)) vt) k = u16 (f k).
Proof.
  intros Hk. change (for_u32 0 8 ?g ?s) with (g 7 (g 6 (g 5 (g 4 (g 3 (g 2 (g 1 (g 0 s)))))))).
  unfold velement, set_velement. rewrite !element_set by lia.
  repeat destruct (decide _); try (f_equal; f_equal; lia); lia.
Qed.

Section Packed.
Context (a : Z) (d : dmem_t) (Hd : dmem_ok d) (Ha : is_u32 a) (Ha8 : a mod 8 = 0).

Lemma packed_addr k : 0 <= k < 8 ->
  (0 + (align8 (u32 (a + 0 * 8)) + Z.land (u32 (Z.land (u32 (a + 0 * 8)) 7 - 0) + k) 15)) mod 4096
  = (0 + (a + k)) mod 4096.
Proof.
  intros Hk. assert (E : u32 (a + 0 * 8) = a) by (unfold u32, is_u32 in *; zlia).
  rewrite E, land7, land15, Ha8. unfold align8. rewrite Ha8. change (u32 (0 - 0)) with 0. f_equal. zlia.
Qed.
Lemma LUV_get vt k : 0 <= k < 8 ->
  velement (LUV 0 a 0 d vt) k = u16 (s8 (RSP_MEM_BU 0 (a + k) d) * 128).
Proof.
  intros Hk. unfold LUV. cbv zeta.
  rewrite (elements_loop (fun offset => Z.shiftl (RSP_MEM_B 0 (align8 (u32 (a + 0 * 8)) +
    Z.land (u32 (Z.land (u32 (a + 0 * 8)) 7 - 0) + offset) 15) d) 7)) by assumption.
  rewrite Z.shiftl_mul_pow2 by lia. change (2 ^ 7) with 128. unfold RSP_MEM_B.
  rewrite (mem_bu_mod 0 _ 0 (a + k)) by (apply packed_addr; assumption). reflexivity.
Qed.
Lemma LPV_get vt k : 0 <= k < 8 ->
  velement (LPV 0 a 0 d vt) k = RSP_MEM_BU 0 (a + k) d * 256.
Proof.
  intros Hk. unfold LPV. cbv zeta.
  rewrite (elements_loop (fun offset => Z.shiftl (RSP_MEM_B 0 (align8 (u32 (a + 0 * 8)) +
    Z.land (u32 (Z.land (u32 (a + 0 * 8)) 7 - 0) + offset) 15) d) 8)) by assumption.
  rewrite Z.shiftl_mul_pow2 by lia. change (2 ^ 8) with 256. unfold RSP_MEM_B.
  rewrite (mem_bu_mod 0 _ 0 (a + k)) by (apply packed_addr; assumption).
  pose proof (mem_bu_u8 d 0 (a + k) Hd) as H. unfold is_u8, u16, s8 in *. zcase; zlia.
Qed.
Lemma SUV_get vt o : wf128 vt ->
  RSP_MEM_BU 0 o (SUV 0 a 0 vt d) =
  if decide ((o - a) mod 4096 < 8) then u8 (velement vt ((o - a) mod 4096) / 128) else RSP_MEM_BU 0 o d.
Proof.
  intros Hv. unfold SUV. assert (E : u32 (a + 0 * 8) = a) by (unfold u32, is_u32 in *; zlia).
  rewrite E. cbv zeta. rewrite store_bytes_get by lia. cbv zeta. rewrite !Z.add_0_l, Z.sub_0_r.
  destruct (decide _); [|reflexivity]. rewrite land15, land7.
  destruct (Z.ltb_spec ((o - a) mod 4096 mod 16) 8); [|zlia].
  rewrite Z.shiftr_div_pow2 by lia. change (2 ^ 7) with 128. f_equal. f_equal. f_equal. zlia.
Qed.
Lemma SPV_get vt o : wf128 vt ->
  RSP_MEM_BU 0 o (SPV 0 a 0 vt d) =
  if decide ((o - a) mod 4096 < 8) then u8 (velement vt ((o - a) mod 4096) / 256) else RSP_MEM_BU 0 o d.
Proof.
  intros Hv. unfold SPV. assert (E : u32 (a + 0 * 8) = a) by (unfold u32, is_u32 in *; zlia).
  rewrite E. cbv zeta. rewrite store_bytes_get by lia. cbv zeta. rewrite !Z.add_0_l, Z.sub_0_r.
  destruct (decide _) as [H|]; [|reflexivity]. rewrite land15, land7.
  destruct (Z.ltb_spec ((o - a) mod 4096 mod 16) 8); [|zlia].
  assert (Hk : 0 <= (o - a) mod 4096 < 8) by zlia. revert Hk. generalize ((o - a) mod 4096). intros k Hk.
  rewrite Z.mod_small, Z.shiftl_mul_pow2 by lia. unfold vbyte, velement, byte. f_equal.
  replace (Z.to_nat (k * 2 ^ 1)) with (2 * Z.to_nat k)%nat by lia.
  assert (A : Nat.even (2 * Z.to_nat k) = true) by (apply Nat.even_spec; exists (Z.to_nat k); reflexivity).
  rewrite A, Nat.mul_comm, Nat.div_mul by lia. reflexivity.
Qed.
End Packed.

(** LUV loads a byte of 128 or more as if it were negative: its lane has the top bit set besides the byte shifted left by seven. *)
Theorem LUV_sign_extends a d vt k :
  is_u32 a -> a mod 8 = 0 -> dmem_ok d -> 0 <= k < 8 ->
  let b := RSP_MEM_BU 0 (a + k) d in
  velement (LUV 0 a 0 d vt) k = if b <? 128 then b * 128 else b * 128 + 32768.
Proof.
  intros Ha Ha8 Hd Hk. cbv zeta. rewrite LUV_get by assumption.
  pose proof (mem_bu_u8 d 0 (a + k) Hd) as H. unfold is_u8, u16, s8 in *. zcase; zlia.
Qed.

(** SUV after LUV and SPV after LPV at an aligned address store the bytes that were loaded. *)
Theorem packed_roundtrip a d vt o :
  is_u32 a -> a mod 8 = 0 -> dmem_ok d -> wf128 vt ->
  RSP_MEM_BU 0 o (SUV 0 a 0 (LUV 0 a 0 d vt) d) = RSP_MEM_BU 0 o d /\
  RSP_MEM_BU 0 o (SPV 0 a 0 (LPV 0 a 0 d vt) d) = RSP_MEM_BU 0 o d.
Proof.
  intros Ha Ha8 Hd Hv.
  assert (W : forall f, wf128 (for_u32 0 8 (fun offset vt => set_velement vt offset (f offset)) vt)).
  { intros f. unfold for_u32. apply for_n_inv; [|assumption]. intros i s Hs. apply lanes_ok_set; [assumption|apply u16_range]. }
  rewrite SUV_get, SPV_get by (try assumption; apply W).
  destruct (decide _) as [H|]; [|split; reflexivity].
  rewrite LUV_get, LPV_get by (try assumption; zlia).
  rewrite (mem_bu_mod 0 (a + (o - a) mod 4096) 0 o) by zlia.
  pose proof (mem_bu_u8 d 0 o Hd) as Hb. revert Hb. generalize (RSP_MEM_BU 0 o d). intros b Hb.
  unfold is_u8, u8, u16, s8 in *. split; zcase; zlia.
Qed.
