(* ===== verification/VuShared.v ===== *)
(** The vector instructions that both builds share (the divides, the rounding
    and MPEG instructions, VMOV, VSAR), the lookup tables of the divides
    ([recomp::rsp::constants_init], librecomp/src/rsp.cpp) and the moves
    between the scalar unit and the vector flags (CFC2, CTC2). *)

From S2P Require Import Prelude Vec128 VuOps.
From Stdlib Require Import ZArith Lia Bool List.
Import ListNotations.
Open Scope Z_scope.

(** * [constants_init]: the reciprocal tables *)

Definition rspReciprocals (index : Z) : Z :=
  if index =? 0 then u16 (Z.lnot 0)
  else let a := index + 512 in
       let b := 2 ^ 34 / a in
       u16 (Z.shiftr (b + 1) 8).

(** [while (a * (b + 1) * (b + 1) < (u64(1) << 44)) b++] *)
Fixpoint isqrt_loop (fuel : nat) (a b : Z) : option Z :=
  match fuel with
  | O => None
  | S fuel => if a * (b + 1) * (b + 1) <? 2 ^ 44 then isqrt_loop fuel a (b + 1) else Some b
  end.
Definition isqrt_fuel : nat := Z.to_nat 131073.
Definition rspInverseSquareRoots (index : Z) : Z :=
  let a := Z.shiftr (index + 512) (if index mod 2 =? 1 then 1 else 0) in
  let b := 2 ^ 17 in
  match isqrt_loop isqrt_fuel a b with
  | Some b => u16 (Z.shiftr b 1)
  | None => 0
  end.

(** [__builtin_clz] of a positive [s32]. *)
Definition clz32 (x : Z) : Z := 31 - Z.log2 x.

(** * The instructions; [vte] is [r128::operator()] of the build. *)
Section Shared.
Context (vte : r128 -> nat -> r128).

Definition VMACQ (vd : r128) (s : VU) : r128 * VU :=
  for8 (fun n '(vd, s) =>
    let product := s32 (Z.lor (Z.shiftl (element (acch s) n) 16) (element (accm s) n)) in
    let product :=
      if (product <? 0) && (Z.land product 32 =? 0) then product + 32
      else if (product >=? 32) && (Z.land product 32 =? 0) then product - 32
      else product in
    let s := s <| ACCH := set_element (acch s) n (Z.shiftr product 16) |> in
    let s := s <| ACCM := set_element (accm s) n product |> in
    (set_element vd n (Z.land (sclamp 16 (Z.shiftr product 1)) (Z.lnot 15)), s)) (vd, s).

Definition VMULQ (e : nat) (vd vs vt : r128) (s : VU) : r128 * VU :=
  let vte := vte vt e in
  for8 (fun n '(vd, s) =>
    let product := es16 vs n * es16 vte n in
    let product := if product <? 0 then product + 31 else product in
    let s := s <| ACCH := set_element (acch s) n (Z.shiftr product 16) |> in
    let s := s <| ACCM := set_element (accm s) n product |> in
    let s := s <| ACCL := set_element (accl s) n 0 |> in
    (set_element vd n (Z.land (sclamp 16 (Z.shiftr product 1)) (Z.lnot 15)), s)) (vd, s).

Definition VMOV (e : nat) (vd : r128) (de : nat) (vt : r128) (s : VU) : r128 * VU :=
  let vte := vte vt e in
  (set_element vd de (element vte de), s <| ACCL := vte |>).

Definition VNOP (vd : r128) (s : VU) : r128 * VU := (vd, s).

(** The operand of a divide: one lane, or DIVIN and a lane. *)
Definition div_input (L : bool) (e : nat) (vt : r128) (s : VU) : Z :=
  if L && divdp s then s32 (Z.lor (Z.shiftl (divin s) 16) (element vt (Nat.land e 7)))
  else s16 (element vt (Nat.land e 7)).

(** The absolute value the tables are indexed with. *)
Definition div_data (input : Z) : Z :=
  let mask := Z.shiftr input 31 in
  let data := Z.lxor input mask in
  if input >? -32768 then data - mask else data.
Definition div_index (data : Z) : Z :=
  Z.shiftr (Z.land (Z.shiftl data (clz32 data)) 0x7fc00000) 22.

Definition rcp_result (input : Z) : Z :=
  let mask := Z.shiftr input 31 in
  let data := div_data input in
  if data =? 0 then 0x7fffffff
  else if input =? -32768 then s32 0xffff0000
  else
    let shift := clz32 data in
    let result := rspReciprocals (div_index data) in
    let result := Z.shiftl (Z.lor 0x10000 result) 14 in
    Z.lxor (Z.shiftr result (31 - shift)) mask.

Definition VRCP (L : bool) (e : nat) (vd : r128) (de : nat) (vt : r128) (s : VU) : r128 * VU :=
  let result := rcp_result (div_input L e vt s) in
  let s := s <| DIVDP := false |> <| DIVOUT := s16 (Z.shiftr result 16) |> in
  (set_element vd de result, s <| ACCL := vte vt e |>).

Definition VRCPH (e : nat) (vd : r128) (de : nat) (vt : r128) (s : VU) : r128 * VU :=
  let s := s <| ACCL := vte vt e |> <| DIVDP := true |> in
  let s := s <| DIVIN := s16 (element vt (Nat.land e 7)) |> in
  (set_element vd de (divout s), s).

Definition VRND (D : bool) (e : nat) (vd : r128) (vs : Z) (vt : r128) (s : VU) : r128 * VU :=
  let vte := vte vt e in
  for8 (fun n '(vd, s) =>
    let product := es16 vte n in
    let product := if Z.odd vs then s32 (Z.shiftl product 16) else product in
    let acc := s64 (Z.shiftl (Z.lor (Z.shiftl (Z.lor (Z.shiftl (element (acch s) n) 16)
                 (element (accm s) n)) 16) (element (accl s) n)) 16) in
    let acc := Z.shiftr acc 16 in
    let acc := if negb D && (acc <? 0) then sclip 48 (acc + product) else acc in
    let acc := if D && (acc >=? 0) then sclip 48 (acc + product) else acc in
    let s := s <| ACCH := set_element (acch s) n (Z.shiftr acc 32) |> in
    let s := s <| ACCM := set_element (accm s) n (Z.shiftr acc 16) |> in
    let s := s <| ACCL := set_element (accl s) n acc |> in
    (set_element vd n (sclamp 16 (Z.shiftr acc 16)), s)) (vd, s).

Definition rsq_result (input : Z) : Z :=
  let mask := Z.shiftr input 31 in
  let data := div_data input in
  if data =? 0 then 0x7fffffff
  else if input =? -32768 then s32 0xffff0000
  else
    let shift := clz32 data in
    let index := Z.lor (Z.land (div_index data) 0x1fe) (Z.land shift 1) in
    let result := rspInverseSquareRoots index in
    let result := Z.shiftl (Z.lor 0x10000 result) 14 in
    Z.lxor (Z.shiftr result (Z.shiftr (31 - shift) 1)) mask.

Definition VRSQ (L : bool) (e : nat) (vd : r128) (de : nat) (vt : r128) (s : VU) : r128 * VU :=
  let result := rsq_result (div_input L e vt s) in
  let s := s <| DIVDP := false |> <| DIVOUT := s16 (Z.shiftr result 16) |> in
  (set_element vd de result, s <| ACCL := vte vt e |>).

Definition VRSQH (e : nat) (vd : r128) (de : nat) (vt : r128) (s : VU) : r128 * VU :=
  let s := s <| ACCL := vte vt e |> <| DIVDP := true |> in
  let s := s <| DIVIN := s16 (element vt (Nat.land e 7)) |> in
  (set_element vd de (divout s), s).

Definition VSAR (e : nat) (vd vs : r128) (s : VU) : r128 * VU :=
  (match e with
   | 8%nat => acch s
   | 9%nat => accm s
   | 10%nat => accl s
   | _ => zero
   end, s).
End Shared.

(** * CFC2, CTC2: the flag registers as 16-bit words *)

(** The pair [hi], [lo] selected by [rd & 3]. *)
Definition flag_pair (rd : Z) (s : VU) : r128 * r128 :=
  match Z.land rd 3 with
  | 0 => (vcoh s, vcol s)
  | 1 => (vcch s, vccl s)
  | _ => (zero, vce s)
  end.

Definition CFC2_sisd (rd : Z) (s : VU) : Z :=
  let '(hi, lo) := flag_pair rd s in
  let rt := for8 (fun n rt =>
    let rt := Z.lor rt (Z.shiftl (b2z (getf lo n)) (Z.of_nat n)) in
    Z.lor rt (Z.shiftl (b2z (getf hi n)) (8 + Z.of_nat n))) 0 in
  u32 (s16 rt).

Definition reverse : list Z := _mm_set_epi8 0 1 2 3 4 5 6 7 8 9 10 11 12 13 14 15.
Definition CFC2_simd (rd : Z) (s : VU) : Z :=
  let '(hi, lo) := flag_pair rd s in
  u32 (s16 (_mm_movemask_epi8 (_mm_shuffle_epi8_bytes (_mm_packs_epi16 hi lo) reverse))).

(** Writing the selected pair; for 2 and 3 the high half is a local. *)
Definition set_flag_pair (rd : Z) (hi lo : r128) (s : VU) : VU :=
  match Z.land rd 3 with
  | 0 => s <| VCOH := hi |> <| VCOL := lo |>
  | 1 => s <| VCCH := hi |> <| VCCL := lo |>
  | _ => s <| VCE := lo |>
  end.

Definition CTC2_sisd (rt rd : Z) (s : VU) : VU :=
  let '(hi, lo) := flag_pair rd s in
  let '(hi, lo) := for8 (fun n '(hi, lo) =>
    let lo := setf lo n (negb (Z.land rt (Z.shiftl 1 (Z.of_nat n)) =? 0)) in
    (setf hi n (negb (Z.land rt (Z.shiftl 1 (8 + Z.of_nat n)) =? 0)), lo)) (hi, lo) in
  set_flag_pair rd hi lo s.

(** [_mm_set_epi16], first argument the top lane, which is element 0. *)
Definition ctc2_mask : r128 := R128 0x0101 0x0202 0x0404 0x0808 0x1010 0x2020 0x4040 0x8080.
(** Broadcast of the low byte: a shuffle by the zero register. *)
Definition ctc2_half (x : Z) : r128 :=
  let r := of_bytes_le ([u8 x; u8 (x / 256); u8 (x / 65536); u8 (x / 16777216)] ++ repeat 0 12) in
  let b := _mm_shuffle_epi8_bytes (bytes_le r) (bytes_le zero) in
  of_bytes_le (_mm_cmpeq_epi8 (_mm_and_bytes b (bytes_le ctc2_mask)) (bytes_le zero)).
Definition CTC2_simd (rt rd : Z) (s : VU) : VU :=
  let nrt := u32 (Z.lnot rt) in
  set_flag_pair rd (ctc2_half (Z.shiftr nrt 8)) (ctc2_half nrt) s.
