(* ===== verification/VuExec.v ===== *)
(** The vector unit as a machine: an instruction set covering every
    computational instruction and the flag moves, its portable and its SSE4.1
    interpretation, preservation of the register invariant, and equality of
    the two interpretations on whole programs. *)

From S2P Require Import Prelude Vec128 VuOps VuLane RspMem VuMem VuMemSpec VuShared VuRefine.
From Stdlib Require Import ZArith Lia Bool List.
From stdpp Require Import base gmap.
Open Scope Z_scope.

(** * Preservation of the register invariant *)

Create HintDb vu discriminated.
#[export] Hint Constants Opaque : vu.
#[export] Hint Variables Opaque : vu.

Lemma wf_set_element v n x : wf128 v -> wf128 (set_element v n x).
Proof. intros. apply lanes_ok_set; auto with mach. Qed.
Lemma flag_setf v n b : flag128 v -> flag128 (setf v n b).
Proof. intros. apply lanes_ok_set; [assumption|]. rewrite VuLane.setf_mask. auto with mach. Qed.
Lemma wf_zero : wf128 zero. Proof. unfold wf128, lanes_ok, is_u16, zero; cbn; lia. Qed.
Lemma flag_zero : flag128 zero. Proof. unfold flag128, lanes_ok, is_mask, zero; cbn; lia. Qed.

Section Setters.
Context (s : VU) (Hs : vu_ok s).
Ltac setter := unfold vu_ok, vu_flags_ok in *; destruct s; cbn in *; tauto.
Lemma ok_acch v : wf128 v -> vu_ok (s <| ACCH := v |>). Proof. intros; setter. Qed.
Lemma ok_accm v : wf128 v -> vu_ok (s <| ACCM := v |>). Proof. intros; setter. Qed.
Lemma ok_accl v : wf128 v -> vu_ok (s <| ACCL := v |>). Proof. intros; setter. Qed.
Lemma ok_vcoh v : flag128 v -> vu_ok (s <| VCOH := v |>). Proof. intros; setter. Qed.
Lemma ok_vcol v : flag128 v -> vu_ok (s <| VCOL := v |>). Proof. intros; setter. Qed.
Lemma ok_vcch v : flag128 v -> vu_ok (s <| VCCH := v |>). Proof. intros; setter. Qed.
Lemma ok_vccl v : flag128 v -> vu_ok (s <| VCCL := v |>). Proof. intros; setter. Qed.
Lemma ok_vce v : flag128 v -> vu_ok (s <| VCE := v |>). Proof. intros; setter. Qed.
Lemma ok_divin v : vu_ok (s <| DIVIN := v |>). Proof. setter. Qed.
Lemma ok_divout v : vu_ok (s <| DIVOUT := v |>). Proof. setter. Qed.
Lemma ok_divdp v : vu_ok (s <| DIVDP := v |>). Proof. setter. Qed.
Lemma get_acch : wf128 (acch s). Proof. apply Hs. Qed.
Lemma get_accm : wf128 (accm s). Proof. apply Hs. Qed.
Lemma get_accl : wf128 (accl s). Proof. apply Hs. Qed.
Lemma get_vcoh : flag128 (vcoh s). Proof. apply Hs. Qed.
Lemma get_vcol : flag128 (vcol s). Proof. apply Hs. Qed.
Lemma get_vcch : flag128 (vcch s). Proof. apply Hs. Qed.
Lemma get_vccl : flag128 (vccl s). Proof. apply Hs. Qed.
Lemma get_vce : flag128 (vce s). Proof. apply Hs. Qed.
End Setters.
#[export] Hint Resolve wf_set_element flag_setf wf_zero flag_zero ok_acch ok_accm ok_accl ok_vcoh
  ok_vcol ok_vcch ok_vccl ok_vce ok_divin ok_divout ok_divdp get_acch get_accm get_accl get_vcoh
  get_vcol get_vcch get_vccl get_vce vte_sisd_wf : vu.

Lemma ok_accumulatorSet s n x : vu_ok s -> vu_ok (accumulatorSet s n x).
Proof. intros. unfold accumulatorSet. auto 10 with vu. Qed.
#[export] Hint Resolve ok_accumulatorSet : vu.

(** A property of the loop state survives the eight iterations. *)
Lemma for8_inv {S : Type} (P : S -> Prop) body (s : S) :
  (forall n s, P s -> P (body n s)) -> P s -> P (for8 body s).
Proof. intros H Hs. unfold for8. auto 10. Qed.

(** A destination register and a unit, both well formed. *)
Definition result_ok (r : r128 * VU) : Prop := wf128 (fst r) /\ vu_ok (snd r).

Lemma result_pair vd s : wf128 vd -> vu_ok s -> result_ok (vd, s).
Proof. split; assumption. Qed.
Lemma result_accl s : vu_ok s -> result_ok (accl s, s).
Proof. split; cbn; auto with vu. Qed.
Lemma result_accm s : vu_ok s -> result_ok (accm s, s).
Proof. split; cbn; auto with vu. Qed.
#[export] Hint Resolve result_pair result_accl : vu.

(** Loop bodies over the pair and over the unit alone. *)
Lemma for8_result body vd s :
  (forall n vd s, wf128 vd -> vu_ok s -> result_ok (body n (vd, s))) ->
  wf128 vd -> vu_ok s -> result_ok (for8 body (vd, s)).
Proof.
  intros H Hd Hs. apply (for8_inv result_ok); [|auto with vu].
  intros n [vd' s'] [H1 H2]. apply H; assumption.
Qed.
Lemma for8_unit body s :
  (forall n s, vu_ok s -> vu_ok (body n s)) -> vu_ok s -> vu_ok (for8 body s).
Proof. apply for8_inv. Qed.

Ltac split_ifs :=
  repeat match goal with |- context [if ?c then _ else _] => destruct c end.
(** Preservation by an instruction whose loop carries the pair or the unit. *)
Ltac keeps :=
  cbv zeta;
  first
    [ apply for8_result; [|assumption|assumption]; intros; cbv zeta; split_ifs; solve [auto 12 with vu]
    | match goal with
      | |- result_ok (accm ?s', ?s') => apply result_accm
      | |- result_ok (accl ?s', ?s') => apply result_accl;
          repeat lazymatch goal with
            | |- vu_ok (set_vcoh _ _) => apply ok_vcoh; [|solve [auto with vu]]
            | |- vu_ok (set_vcol _ _) => apply ok_vcol; [|solve [auto with vu]]
            | |- vu_ok (set_vcch _ _) => apply ok_vcch; [|solve [auto with vu]]
            | |- vu_ok (set_vce _ _) => apply ok_vce; [|solve [auto with vu]]
            end
      end; apply for8_unit; [intros; cbv zeta; split_ifs; solve [auto 40 with vu] | assumption] ].

(** The flag registers cleared after the loop (VADD, VSUB). *)
Lemma result_clear (r : r128 * VU) :
  result_ok r -> result_ok (let '(vd, s) := r in (vd, s <| VCOL := zero |> <| VCOH := zero |>)).
Proof. destruct r. intros [H1 H2]. split; cbn in *; auto with vu. Qed.

Section Preserve.
Context (e : nat) (vd vs vt : r128) (s : VU).
Context (Hd : wf128 vd) (Hs : wf128 vs) (Ht : wf128 vt) (Hv : vu_ok s).

Lemma VABS_ok : result_ok (VABS_sisd e vd vs vt s).
Proof. unfold VABS_sisd. keeps. Qed.
Lemma VADD_ok : result_ok (VADD_sisd e vd vs vt s).
Proof. apply result_clear. keeps. Qed.
Lemma VMADH_ok : result_ok (VMADH_sisd e vd vs vt s).
Proof. unfold VMADH_sisd. keeps. Qed.
Lemma VMADL_ok : result_ok (VMADL_sisd e vd vs vt s).
Proof. unfold VMADL_sisd. keeps. Qed.
Lemma VMADM_ok : result_ok (VMADM_sisd e vd vs vt s).
Proof. unfold VMADM_sisd. keeps. Qed.
Lemma VMADN_ok : result_ok (VMADN_sisd e vd vs vt s).
Proof. unfold VMADN_sisd. keeps. Qed.
Lemma VMUDH_ok : result_ok (VMUDH_sisd e vd vs vt s).
Proof. unfold VMUDH_sisd. keeps. Qed.
Lemma VSUB_ok : result_ok (VSUB_sisd e vd vs vt s).
Proof. apply result_clear. keeps. Qed.
Lemma VZERO_ok : result_ok (VZERO_sisd e vd vs vt s).
Proof. unfold VZERO_sisd. keeps. Qed.
Lemma VADDC_ok : result_ok (VADDC_sisd e vs vt s).
Proof. unfold VADDC_sisd. keeps. Qed.
Lemma VAND_ok : result_ok (VAND_sisd e vs vt s).
Proof. unfold VAND_sisd. keeps. Qed.
Lemma VNAND_ok : result_ok (VNAND_sisd e vs vt s).
Proof. unfold VNAND_sisd. keeps. Qed.
Lemma VOR_ok : result_ok (VOR_sisd e vs vt s).
Proof. unfold VOR_sisd. keeps. Qed.
Lemma VNOR_ok : result_ok (VNOR_sisd e vs vt s).
Proof. unfold VNOR_sisd. keeps. Qed.
Lemma VXOR_ok : result_ok (VXOR_sisd e vs vt s).
Proof. unfold VXOR_sisd. keeps. Qed.
Lemma VNXOR_ok : result_ok (VNXOR_sisd e vs vt s).
Proof. unfold VNXOR_sisd. keeps. Qed.
Lemma VCH_ok : result_ok (VCH_sisd e vs vt s).
Proof. unfold VCH_sisd. keeps. Qed.
Lemma VCL_ok : result_ok (VCL_sisd e vs vt s).
Proof. unfold VCL_sisd. keeps. Qed.
Lemma VCR_ok : result_ok (VCR_sisd e vs vt s).
Proof. unfold VCR_sisd. keeps. Qed.
Lemma VEQ_ok : result_ok (VEQ_sisd e vs vt s).
Proof. unfold VEQ_sisd. keeps. Qed.
Lemma VNE_ok : result_ok (VNE_sisd e vs vt s).
Proof. unfold VNE_sisd. keeps. Qed.
Lemma VGE_ok : result_ok (VGE_sisd e vs vt s).
Proof. unfold VGE_sisd. keeps. Qed.
Lemma VLT_ok : result_ok (VLT_sisd e vs vt s).
Proof. unfold VLT_sisd. keeps. Qed.
Lemma VMRG_ok : result_ok (VMRG_sisd e vs vt s).
Proof. unfold VMRG_sisd. keeps. Qed.
Lemma VMUDL_ok : result_ok (VMUDL_sisd e vs vt s).
Proof. unfold VMUDL_sisd. keeps. Qed.
Lemma VMUDM_ok : result_ok (VMUDM_sisd e vs vt s).
Proof. unfold VMUDM_sisd. keeps. Qed.
Lemma VMUDN_ok : result_ok (VMUDN_sisd e vs vt s).
Proof. unfold VMUDN_sisd. keeps. Qed.
Lemma VSUBC_ok : result_ok (VSUBC_sisd e vs vt s).
Proof. unfold VSUBC_sisd. keeps. Qed.
Lemma VMACF_ok U : result_ok (VMACF_sisd U e vd vs vt s).
Proof. unfold VMACF_sisd. keeps. Qed.
Lemma VMULF_ok U : result_ok (VMULF_sisd U e vd vs vt s).
Proof. unfold VMULF_sisd. keeps. Qed.
End Preserve.

Section PreserveShared.
Context (vte : r128 -> nat -> r128) (Hvte : forall v e, wf128 v -> wf128 (vte v e)).
Context (e de : nat) (vd vs vt : r128) (s : VU).
Context (Hd : wf128 vd) (Hs : wf128 vs) (Ht : wf128 vt) (Hv : vu_ok s).
Hint Resolve Hvte : vu.

Lemma VMACQ_ok : result_ok (VMACQ vd s).
Proof.
  apply for8_result; [|assumption..]. intros n vd' s' Hd' Hs'. cbv beta iota.
  lazymatch goal with |- result_ok (let p := ?a in let q := @?b p in _) => generalize (b a) end.
  intros p. cbv zeta. auto 12 with vu.
Qed.
Lemma VMULQ_ok : result_ok (VMULQ vte e vd vs vt s).
Proof.
  apply for8_result; [|assumption..]. intros n vd' s' Hd' Hs'. cbv beta iota.
  lazymatch goal with |- result_ok (let p := ?a in let q := @?b p in _) => generalize (b a) end.
  intros p. cbv zeta. auto 12 with vu.
Qed.
Lemma VRND_ok D k : result_ok (VRND vte D e vd k vt s).
Proof.
  apply for8_result; [|assumption..]. intros n vd' s' Hd' Hs'. cbv zeta beta iota.
  match goal with |- result_ok (_, set_accl _ (set_element _ _ ?a)) => generalize a end.
  intros p. auto 12 with vu.
Qed.
Lemma VMOV_ok : result_ok (VMOV vte e vd de vt s).
Proof. unfold VMOV. auto 12 with vu. Qed.
Lemma VRCP_ok L : result_ok (VRCP vte L e vd de vt s).
Proof. unfold VRCP. auto 12 with vu. Qed.
Lemma VRSQ_ok L : result_ok (VRSQ vte L e vd de vt s).
Proof. unfold VRSQ. auto 12 with vu. Qed.
Lemma VRCPH_ok : result_ok (VRCPH vte e vd de vt s).
Proof. unfold VRCPH. auto 12 with vu. Qed.
Lemma VRSQH_ok : result_ok (VRSQH vte e vd de vt s).
Proof. unfold VRSQH. auto 12 with vu. Qed.
Lemma VSAR_ok : result_ok (VSAR e vd vs s).
Proof.
  unfold VSAR. apply result_pair; [|assumption].
  repeat match goal with |- context [match ?x with O => _ | S _ => _ end] => destruct x end; auto with vu.
Qed.
End PreserveShared.

(** * The instruction set *)

Inductive vu_op : Type :=
| OpVABS | OpVADD | OpVADDC | OpVAND | OpVCH | OpVCL | OpVCR | OpVEQ | OpVGE | OpVLT
| OpVMACF | OpVMACU | OpVMACQ | OpVMADH | OpVMADL | OpVMADM | OpVMADN | OpVMRG
| OpVMUDH | OpVMUDL | OpVMUDM | OpVMUDN | OpVMULF | OpVMULU | OpVMULQ
| OpVNAND | OpVNE | OpVNOP | OpVNOR | OpVNXOR | OpVOR | OpVSAR | OpVSUB | OpVSUBC | OpVXOR | OpVZERO
(** with the element [de] of the destination *)
| OpVMOV (de : nat) | OpVRCP (L : bool) (de : nat) | OpVRCPH (de : nat)
| OpVRSQ (L : bool) (de : nat) | OpVRSQH (de : nat)
(** with the register number whose parity selects the shift *)
| OpVRND (D : bool) (vsn : Z).

Definition exec_sisd (o : vu_op) (e : nat) (vd vs vt : r128) (s : VU) : r128 * VU :=
  match o with
  | OpVABS => VABS_sisd e vd vs vt s | OpVADD => VADD_sisd e vd vs vt s
  | OpVADDC => VADDC_sisd e vs vt s | OpVAND => VAND_sisd e vs vt s
  | OpVCH => VCH_sisd e vs vt s | OpVCL => VCL_sisd e vs vt s | OpVCR => VCR_sisd e vs vt s
  | OpVEQ => VEQ_sisd e vs vt s | OpVGE => VGE_sisd e vs vt s | OpVLT => VLT_sisd e vs vt s
  | OpVMACF => VMACF_sisd false e vd vs vt s | OpVMACU => VMACF_sisd true e vd vs vt s
  | OpVMACQ => VMACQ vd s
  | OpVMADH => VMADH_sisd e vd vs vt s | OpVMADL => VMADL_sisd e vd vs vt s
  | OpVMADM => VMADM_sisd e vd vs vt s | OpVMADN => VMADN_sisd e vd vs vt s
  | OpVMRG => VMRG_sisd e vs vt s
  | OpVMUDH => VMUDH_sisd e vd vs vt s | OpVMUDL => VMUDL_sisd e vs vt s
  | OpVMUDM => VMUDM_sisd e vs vt s | OpVMUDN => VMUDN_sisd e vs vt s
  | OpVMULF => VMULF_sisd false e vd vs vt s | OpVMULU => VMULF_sisd true e vd vs vt s
  | OpVMULQ => VMULQ vte_sisd e vd vs vt s
  | OpVNAND => VNAND_sisd e vs vt s | OpVNE => VNE_sisd e vs vt s | OpVNOP => VNOP vd s
  | OpVNOR => VNOR_sisd e vs vt s | OpVNXOR => VNXOR_sisd e vs vt s | OpVOR => VOR_sisd e vs vt s
  | OpVSAR => VSAR e vd vs s
  | OpVSUB => VSUB_sisd e vd vs vt s | OpVSUBC => VSUBC_sisd e vs vt s
  | OpVXOR => VXOR_sisd e vs vt s | OpVZERO => VZERO_sisd e vd vs vt s
  | OpVMOV de => VMOV vte_sisd e vd de vt s
  | OpVRCP L de => VRCP vte_sisd L e vd de vt s | OpVRCPH de => VRCPH vte_sisd e vd de vt s
  | OpVRSQ L de => VRSQ vte_sisd L e vd de vt s | OpVRSQH de => VRSQH vte_sisd e vd de vt s
  | OpVRND D k => VRND vte_sisd D e vd k vt s
  end.

Definition exec_simd (o : vu_op) (e : nat) (vd vs vt : r128) (s : VU) : r128 * VU :=
  match o with
  | OpVABS => VABS_simd e vs vt s | OpVADD => VADD_simd e vs vt s
  | OpVADDC => VADDC_simd e vs vt s | OpVAND => VAND_simd e vs vt s
  | OpVCH => VCH_simd e vs vt s | OpVCL => VCL_simd e vs vt s | OpVCR => VCR_simd e vs vt s
  | OpVEQ => VEQ_simd e vs vt s | OpVGE => VGE_simd e vs vt s | OpVLT => VLT_simd e vs vt s
  | OpVMACF => VMACF_simd false e vs vt s | OpVMACU => VMACF_simd true e vs vt s
  | OpVMACQ => VMACQ vd s
  | OpVMADH => VMADH_simd e vs vt s | OpVMADL => VMADL_simd e vs vt s
  | OpVMADM => VMADM_simd e vs vt s | OpVMADN => VMADN_simd e vs vt s
  | OpVMRG => VMRG_simd e vs vt s
  | OpVMUDH => VMUDH_simd e vs vt s | OpVMUDL => VMUDL_simd e vs vt s
  | OpVMUDM => VMUDM_simd e vs vt s | OpVMUDN => VMUDN_simd e vs vt s
  | OpVMULF => VMULF_simd false e vs vt s | OpVMULU => VMULF_simd true e vs vt s
  | OpVMULQ => VMULQ vte_simd e vd vs vt s
  | OpVNAND => VNAND_simd e vs vt s | OpVNE => VNE_simd e vs vt s | OpVNOP => VNOP vd s
  | OpVNOR => VNOR_simd e vs vt s | OpVNXOR => VNXOR_simd e vs vt s | OpVOR => VOR_simd e vs vt s
  | OpVSAR => VSAR e vd vs s
  | OpVSUB => VSUB_simd e vs vt s | OpVSUBC => VSUBC_simd e vs vt s
  | OpVXOR => VXOR_simd e vs vt s | OpVZERO => VZERO_simd e vd vs vt s
  | OpVMOV de => VMOV vte_simd e vd de vt s
  | OpVRCP L de => VRCP vte_simd L e vd de vt s | OpVRCPH de => VRCPH vte_simd e vd de vt s
  | OpVRSQ L de => VRSQ vte_simd L e vd de vt s | OpVRSQH de => VRSQH vte_simd e vd de vt s
  | OpVRND D k => VRND vte_simd D e vd k vt s
  end.

Create HintDb vu_ops discriminated.
#[export] Hint Resolve VABS_ok VADD_ok VADDC_ok VAND_ok VCH_ok VCL_ok VCR_ok VEQ_ok VGE_ok VLT_ok
  VMACF_ok VMACQ_ok VMADH_ok VMADL_ok VMADM_ok VMADN_ok VMRG_ok VMUDH_ok VMUDL_ok VMUDM_ok VMUDN_ok
  VMULF_ok VMULQ_ok VNAND_ok VNE_ok VNOR_ok VNXOR_ok VOR_ok VSAR_ok VSUB_ok VSUBC_ok VXOR_ok VZERO_ok
  VMOV_ok VRCP_ok VRCPH_ok VRSQ_ok VRSQH_ok VRND_ok vte_sisd_wf result_pair : vu_ops.
Lemma exec_ok o e vd vs vt s :
  wf128 vd -> wf128 vs -> wf128 vt -> vu_ok s -> result_ok (exec_sisd o e vd vs vt s).
Proof. intros. destruct o; cbn [exec_sisd]; auto with vu_ops. Qed.

(** The instruction of the SSE4.1 build equals the portable one. *)
Lemma exec_equiv o e vd vs vt s :
  (e < 16)%nat -> wf128 vd -> wf128 vs -> wf128 vt -> vu_ok s ->
  exec_simd o e vd vs vt s = exec_sisd o e vd vs vt s.
Proof.
  intros He Hd Hs Ht Hv. destruct o; cbn [exec_simd exec_sisd];
    lazymatch goal with
    | |- ?x = ?x => reflexivity
    | |- context [vte_simd] =>
        unfold VMULQ, VMOV, VRCP, VRCPH, VRSQ, VRSQH, VRND; rewrite vte_equiv by assumption; reflexivity
    | _ => idtac
    end.
  all: first [ simple eapply VABS_equiv
       | simple eapply VADD_equiv
       | simple eapply VADDC_equiv
       | simple eapply VAND_equiv
       | simple eapply VCH_equiv
       | simple eapply VCL_equiv
       | simple eapply VCR_equiv
       | simple eapply VEQ_equiv
       | simple eapply VGE_equiv
       | simple eapply VLT_equiv
       | simple eapply VMACF_equiv
       | simple eapply VMACU_equiv
       | simple eapply VMADH_equiv
       | simple eapply VMADL_equiv
       | simple eapply VMADM_equiv
       | simple eapply VMADN_equiv
       | simple eapply VMRG_equiv
       | simple eapply VMUDH_equiv
       | simple eapply VMUDL_equiv
       | simple eapply VMUDM_equiv
       | simple eapply VMUDN_equiv
       | simple eapply VMULF_equiv
       | simple eapply VMULU_equiv
       | simple eapply VNAND_equiv
       | simple eapply VNE_equiv
       | simple eapply VNOR_equiv
       | simple eapply VNXOR_equiv
       | simple eapply VOR_equiv
       | simple eapply VSUB_equiv
       | simple eapply VSUBC_equiv
       | simple eapply VXOR_equiv
       | simple eapply VZERO_equiv ]; eassumption.
Qed.

(** * Programs

    The state a vector program sees: the unit, its register file, the data
    memory and the scalar registers. *)
Record machine := Machine { vpu : VU; vr : regfile; dm : dmem_t; gpr : gmap Z Z }.

Definition rget (m : machine) (r : Z) : Z := default 0 (gpr m !! r).
Definition set_unit (m : machine) (s : VU) : machine := Machine s (vr m) (dm m) (gpr m).
Definition set_vr (m : machine) (i : Z) (v : r128) : machine :=
  Machine (vpu m) (<[i := v]> (vr m)) (dm m) (gpr m).
Definition set_file (m : machine) (r : regfile) : machine := Machine (vpu m) r (dm m) (gpr m).
Definition set_dm (m : machine) (d : dmem_t) : machine := Machine (vpu m) (vr m) d (gpr m).
Definition set_gpr (m : machine) (r v : Z) : machine :=
  Machine (vpu m) (vr m) (dm m) (<[r := v]> (gpr m)).

Inductive vload := LdB | LdD | LdF | LdH | LdL | LdP | LdQ | LdR | LdS | LdU | LdW.
Inductive vstore := StB | StD | StF | StH | StL | StP | StQ | StR | StS | StU | StW.
Definition exec_load (l : vload) : Z -> Z -> Z -> dmem_t -> r128 -> r128 :=
  match l with
  | LdB => LBV | LdD => LDV | LdF => LFV | LdH => LHV | LdL => LLV | LdP => LPV | LdQ => LQV
  | LdR => LRV | LdS => LSV | LdU => LUV | LdW => LWV
  end.
Definition exec_store (l : vstore) : Z -> Z -> Z -> r128 -> dmem_t -> dmem_t :=
  match l with
  | StB => SBV | StD => SDV | StF => SFV | StH => SHV | StL => SLV | StP => SPV | StQ => SQV
  | StR => SRV | StS => SSV | StU => SUV | StW => SWV
  end.

Inductive vinstr :=
| IOp (o : vu_op) (e : nat) (vd vs vt : Z)
| ILoad (l : vload) (e vt base imm : Z)
| IStore (l : vstore) (e vt base imm : Z)
| ILTV (e vt base imm : Z)
| ISTV (e vt base imm : Z)
| IMFC2 (e rt vs : Z)
| IMTC2 (e rt vs : Z)
| ICFC2 (rt rd : Z)
| ICTC2 (rt rd : Z).

(** One instruction, given the build's computational instructions and flag moves. *)
Definition step (exec : vu_op -> nat -> r128 -> r128 -> r128 -> VU -> r128 * VU)
    (cfc2 : Z -> VU -> Z) (ctc2 : Z -> Z -> VU -> VU) (i : vinstr) (m : machine) : machine :=
  match i with
  | IOp o e vd vs vt =>
      let '(v, s) := exec o e (vreg (vr m) vd) (vreg (vr m) vs) (vreg (vr m) vt) (vpu m) in
      set_vr (set_unit m s) vd v
  | ILoad l e vt base imm => set_vr m vt (exec_load l e (rget m base) imm (dm m) (vreg (vr m) vt))
  | IStore l e vt base imm => set_dm m (exec_store l e (rget m base) imm (vreg (vr m) vt) (dm m))
  | ILTV e vt base imm => set_file m (LTV e vt (rget m base) imm (dm m) (vr m))
  | ISTV e vt base imm => set_dm m (STV e vt (rget m base) imm (vr m) (dm m))
  | IMFC2 e rt vs => set_gpr m rt (MFC2 e (vreg (vr m) vs))
  | IMTC2 e rt vs => set_vr m vs (MTC2 e (rget m rt) (vreg (vr m) vs))
  | ICFC2 rt rd => set_gpr m rt (cfc2 rd (vpu m))
  | ICTC2 rt rd => set_unit m (ctc2 (rget m rt) rd (vpu m))
  end.
Definition step_sisd := step exec_sisd CFC2_sisd CTC2_sisd.
Definition step_simd := step exec_simd CFC2_simd CTC2_simd.
Definition run (st : vinstr -> machine -> machine) (p : list vinstr) (m : machine) : machine :=
  fold_left (fun m i => st i m) p m.

(** The element specifier is the four-bit template argument [e]. *)
Definition instr_ok (i : vinstr) : Prop :=
  match i with IOp _ e _ _ _ => (e < 16)%nat | _ => True end.
Definition machine_ok (m : machine) : Prop :=
  vu_ok (vpu m) /\ forall i, wf128 (vreg (vr m) i).

Lemma vreg_insert r i v j : vreg (<[i := v]> r) j = if decide (i = j) then v else vreg r j.
Proof.
  unfold vreg. destruct (decide (i = j)) as [->|N].
  - rewrite lookup_insert_eq. reflexivity.
  - rewrite lookup_insert_ne by assumption. reflexivity.
Qed.
Lemma set_vr_ok m i v : machine_ok m -> wf128 v -> machine_ok (set_vr m i v).
Proof.
  intros [H1 H2] Hv. split; [exact H1|]. intros j. cbn [vr set_vr]. rewrite vreg_insert.
  destruct (decide _); [assumption|apply H2].
Qed.

Lemma set_velement_wf v i x : wf128 v -> wf128 (set_velement v i x).
Proof. intros. apply wf_set_element. assumption. Qed.
Lemma set_vbyte_wf v i x : wf128 v -> wf128 (set_vbyte v i x).
Proof. intros. apply set_byte_wf. assumption. Qed.
#[export] Hint Resolve set_velement_wf set_vbyte_wf load_bytes_wf : vu.

Lemma load_ok l e rs imm d v : wf128 v -> wf128 (exec_load l e rs imm d v).
Proof.
  intros Hv. destruct l; cbn [exec_load]; unfold LBV, LDV, LFV, LHV, LLV, LPV, LQV, LRV, LSV, LUV, LWV;
    cbv zeta; auto with vu; unfold for_u32; try (apply for_n_inv; auto with vu; fail).
  apply (for_n_inv (fun p : r128 * Z => wf128 (fst p))); [|assumption].
  intros i [v' a] H. cbn. auto with vu.
Qed.
Lemma LTV_ok e vt rs imm d r : (forall i, wf128 (vreg r i)) -> forall i, wf128 (vreg (LTV e vt rs imm d r) i).
Proof.
  intros Hr. unfold LTV. cbv zeta. unfold for_u32.
  match goal with |- context [for_n ?n ?i ?b ?s] =>
    pose proof (for_n_inv (fun p : regfile * Z * Z => forall k, wf128 (vreg (fst (fst p)) k)) n i b s) as H end.
  destruct (for_n _ _ _ _) as [[r' a'] o']. cbn [fst] in H. apply H; [|exact Hr].
  intros i [[r1 a1] o1] H1 j. cbn [fst] in *. unfold set_vreg_byte. rewrite !vreg_insert.
  repeat destruct (decide _); auto with vu.
Qed.

Lemma step_ok i m : machine_ok m -> machine_ok (step_sisd i m).
Proof.
  intros Hm. pose proof Hm as [Hu Hr]. destruct i; cbn [step_sisd step]; unfold step_sisd, step.
  - pose proof (exec_ok o e (vreg (vr m) vd) (vreg (vr m) vs) (vreg (vr m) vt) (vpu m)
      (Hr _) (Hr _) (Hr _) Hu) as H.
    destruct (exec_sisd _ _ _ _ _ _) as [v s]. destruct H as [H1 H2]. cbn in H1, H2.
    apply set_vr_ok; [split; assumption|assumption].
  - apply set_vr_ok; [assumption|]. apply load_ok. apply Hr.
  - split; assumption.
  - split; [assumption|]. apply LTV_ok. assumption.
  - split; assumption.
  - split; assumption.
  - apply set_vr_ok; [assumption|]. unfold MTC2. destruct (negb _); auto with vu.
  - split; assumption.
  - split; [apply CTC2_ok; assumption|assumption].
Qed.

Lemma step_equiv i m : instr_ok i -> machine_ok m -> step_simd i m = step_sisd i m.
Proof.
  intros Hi [Hu Hr]. destruct i; unfold step_simd, step_sisd, step;
    [|reflexivity|reflexivity|reflexivity|reflexivity|reflexivity|reflexivity| |].
  - rewrite exec_equiv by (assumption || apply Hr). reflexivity.
  - rewrite CFC2_equiv by assumption. reflexivity.
  - rewrite CTC2_equiv. reflexivity.
Qed.

Lemma run_ok p m : machine_ok m -> machine_ok (run step_sisd p m).
Proof.
  unfold run. revert m. induction p as [|i p IH]; intros m Hm; cbn; [assumption|]. auto using step_ok.
Qed.

(** C1: Any program of vector instructions, run from a well-formed state, leaves the same
    registers, accumulators, flags and memory in the SSE4.1 build as in the portable one. *)
Theorem simd_refines_sisd p m :
  machine_ok m -> Forall instr_ok p -> run step_simd p m = run step_sisd p m.
Proof.
  intros Hm Hp. revert m Hm. unfold run.
  induction Hp as [|i p Hi Hp IH]; intros m Hm; cbn [fold_left]; [reflexivity|].
  rewrite step_equiv by assumption. apply IH. apply step_ok. assumption.
Qed.

(** Vector programs keep the state well formed: sixteen-bit lanes everywhere and flag registers whose lanes are all ones or all zeroes. *)
Theorem run_preserves_flags p m :
  machine_ok m -> Forall instr_ok p ->
  machine_ok (run step_simd p m) /\ machine_ok (run step_sisd p m).
Proof.
  intros Hm Hp. split; [|apply run_ok; assumption].
  revert m Hm. unfold run. induction Hp as [|i p Hi Hp IH]; intros m Hm; cbn [fold_left]; [assumption|].
  apply IH. rewrite step_equiv by assumption. apply step_ok. assumption.
Qed.
