(* ===== verification/VuDiv.v ===== *)
(** The divide instructions: the tables stay within their bounds, the loop
    that builds the inverse square roots terminates with the largest root,
    and the results of VRCP and VRSQ approximate 2^31/x and 2^31/sqrt(x). *)

From S2P Require Import Prelude Vec128 VuOps VuShared.
From Stdlib Require Import ZArith Lia Bool List.
Import ListNotations.
Open Scope Z_scope.

(** * Index of the tables *)

Lemma div_index_range data : 0 <= div_index data < 512.
Proof.
  unfold div_index. pose proof (land_bound_r (Z.shiftl data (clz32 data)) 0x7fc00000 ltac:(lia)) as H.
  rewrite Z.shiftr_div_pow2 by lia. change (2 ^ 22) with 4194304. zlia.
Qed.

Section Norm.
Context (data : Z) (Hd : 0 < data < 2147483648).
Let shift := clz32 data.
Let N := data * 2 ^ shift.

Lemma clz_range : 1 <= shift <= 31.
Proof.
  unfold shift, clz32. assert (0 <= Z.log2 data <= 30); [|lia].
  split; [apply Z.log2_nonneg|].
  assert (Z.log2 data < 31); [|lia]. apply Z.log2_lt_pow2; [lia|]. change (2 ^ 31) with 2147483648. lia.
Qed.
Lemma norm_range : 2147483648 <= N < 4294967296.
Proof.
  pose proof clz_range. unfold N, shift, clz32 in *.
  destruct (Z.log2_spec data) as [H1 H2]; [lia|].
  change 2147483648 with (2 ^ 31). change 4294967296 with (2 ^ 32).
  assert (E1 : 2 ^ 31 = 2 ^ Z.log2 data * 2 ^ (31 - Z.log2 data))
    by (rewrite <- Z.pow_add_r by (try apply Z.log2_nonneg; lia); f_equal; lia).
  assert (E2 : 2 ^ 32 = 2 ^ Z.succ (Z.log2 data) * 2 ^ (31 - Z.log2 data))
    by (rewrite <- Z.pow_add_r by (pose proof (Z.log2_nonneg data); lia); f_equal; lia).
  pose proof (Z.pow_pos_nonneg 2 (31 - Z.log2 data) ltac:(lia) ltac:(lia)).
  rewrite E1, E2. nia.
Qed.
(** The index is the nine bits below the leading one. *)
Lemma div_index_norm : div_index data = N / 4194304 - 512.
Proof.
  pose proof norm_range as HN. unfold div_index. fold shift.
  rewrite Z.shiftl_mul_pow2 by (pose proof clz_range; lia). fold N.
  rewrite Z.shiftr_land. change (Z.shiftr 0x7fc00000 22) with (Z.ones 9).
  rewrite Z.land_ones, Z.shiftr_div_pow2 by lia. change (2 ^ 22) with 4194304. change (2 ^ 9) with 512. zlia.
Qed.
End Norm.

(** * The reciprocal *)

(** The 17-bit mantissa [0x10000 | rspReciprocals[i]]. *)
Definition rcp_mantissa (i : Z) : Z := 65536 + rspReciprocals i.

Lemma lor_implicit_one x : is_u16 x -> Z.lor 0x10000 x = 65536 + x.
Proof. intros Hx. change 0x10000 with (1 * 2 ^ 16). rewrite lor_add by (unfold is_u16 in Hx; lia). reflexivity. Qed.

Lemma rspReciprocals_u16 i : is_u16 (rspReciprocals i).
Proof. unfold rspReciprocals. destruct (i =? 0); apply u16_range. Qed.

(** Checked on the 512 entries. *)
Definition rcp_entry_ok (i : Z) : bool :=
  let p := rcp_mantissa i * (i + 512) in
  (67107870 <=? p) && (p <=? 67108866).
Lemma rcp_table_ok i : 0 <= i < 512 -> 67107870 <= rcp_mantissa i * (i + 512) <= 67108866.
Proof.
  intros Hi. assert (H : forallb (fun n => rcp_entry_ok (Z.of_nat n)) (seq 0 512) = true) by (vm_compute; reflexivity).
  rewrite forallb_forall in H. specialize (H (Z.to_nat i)). rewrite in_seq in H.
  specialize (H ltac:(lia)). rewrite Z2Nat.id in H by lia. unfold rcp_entry_ok in H. lia.
Qed.

Lemma rcp_result_pos x : 0 < x < 2147483648 ->
  rcp_result x = rcp_mantissa (div_index x) * 2 ^ 14 / 2 ^ (31 - clz32 x).
Proof.
  intros Hx. unfold rcp_result, div_data.
  replace (Z.shiftr x 31) with 0 by (rewrite Z.shiftr_div_pow2 by lia; change (2 ^ 31) with 2147483648; zlia).
  rewrite Z.lxor_0_r. zcase. rewrite Z.sub_0_r. zcase. rewrite Z.lxor_0_r.
  rewrite lor_implicit_one by apply rspReciprocals_u16.
  pose proof (clz_range x Hx). rewrite Z.shiftr_div_pow2, Z.shiftl_mul_pow2 by lia. reflexivity.
Qed.

Lemma floor_bounds a b : 0 < b -> a / b * b <= a < (a / b + 1) * b.
Proof. intros. pose proof (Z.div_mod a b ltac:(lia)). pose proof (Z.mod_pos_bound a b ltac:(lia)). nia. Qed.

(** For every positive operand, the reciprocal r of VRCP is within the table's error of 2^31/x: r*x exceeds 2^31 by at most about 2^22 and (r+1)*x is above 2^31 - 2^15. *)
Theorem VRCP_accuracy x : 0 < x < 2147483648 ->
  rcp_result x * x <= 2147483648 + 4194304 + 128 /\
  2147483648 - 32768 < (rcp_result x + 1) * x.
Proof.
  intros Hx. rewrite rcp_result_pos by assumption.
  pose proof (clz_range x Hx) as Hs. pose proof (norm_range x Hx) as HN.
  pose proof (div_index_range x) as Hi. pose proof (rcp_table_ok _ Hi) as HR.
  pose proof (div_index_norm x Hx) as EI.
  assert (Hm : 65536 <= rcp_mantissa (div_index x) <= 131071)
    by (unfold rcp_mantissa; pose proof (rspReciprocals_u16 (div_index x)) as H; unfold is_u16 in H; lia).
  set (i := div_index x) in *. set (R := rcp_mantissa i) in *. set (s := clz32 x) in *.
  set (N := x * 2 ^ s) in *.
  assert (HNi : (i + 512) * 4194304 <= N < (i + 513) * 4194304) by zlia.
  pose proof (floor_bounds (R * 2 ^ 14) (2 ^ (31 - s)) ltac:(apply Z.pow_pos_nonneg; lia)) as [F1 F2].
  set (r := R * 2 ^ 14 / 2 ^ (31 - s)) in *. change (2 ^ 14) with 16384 in *.
  assert (Hp : 2 ^ (31 - s) * 2 ^ s = 2147483648)
    by (rewrite <- Z.pow_add_r by lia; replace (31 - s + s) with 31 by lia; reflexivity).
  assert (P1 : 0 < 2 ^ s) by (apply Z.pow_pos_nonneg; lia).
  (* multiply the floor inequalities by N and divide by 2^31 *)
  assert (E : forall q, q * 2 ^ (31 - s) * N = q * x * 2147483648) by (intros q; unfold N; rewrite <- Hp; ring).
  assert (G1 : r * x * 2147483648 <= R * 16384 * N) by (rewrite <- E; nia).
  assert (G2 : R * 16384 * N < (r + 1) * x * 2147483648) by (rewrite <- E; nia).
  split; nia.
Qed.

(** Negative operands: one's complement of the result. *)
Lemma rcp_neg x : 0 < x < 32768 -> rcp_result (- x) = Z.lnot (rcp_result x).
Proof.
  intros Hx. unfold rcp_result, div_data.
  replace (Z.shiftr x 31) with 0 by (rewrite Z.shiftr_div_pow2 by lia; change (2 ^ 31) with 2147483648; zlia).
  replace (Z.shiftr (- x) 31) with (-1) by (rewrite Z.shiftr_div_pow2 by lia; change (2 ^ 31) with 2147483648; zlia).
  rewrite Z.lxor_0_r, Z.lxor_m1_r. unfold Z.lnot. zcase; try lia.
  rewrite Z.lxor_0_r, Z.lxor_m1_r. unfold Z.lnot.
  replace (Z.pred (- - x) - -1) with x by lia. replace (x - 0) with x by lia. reflexivity.
Qed.

(** * The inverse square root *)

(** With enough fuel the loop stops, at the largest [b] whose square times
    [a] stays below 2^44 (or at its start). *)
Lemma isqrt_loop_spec fuel a b : 256 <= a -> 0 <= b <= 262144 -> a * b * b < 2 ^ 44 ->
  262144 - b < Z.of_nat fuel ->
  exists r, isqrt_loop fuel a b = Some r /\ b <= r < 262144 /\ a * r * r < 2 ^ 44 /\ 2 ^ 44 <= a * (r + 1) * (r + 1).
Proof.
  change (2 ^ 44) with 17592186044416. intros Ha. revert b. induction fuel as [|fuel IH]; intros b Hb Hs Hf; [lia|].
  cbn [isqrt_loop]. change (2 ^ 44) with 17592186044416.
  destruct (Z.ltb_spec (a * (b + 1) * (b + 1)) 17592186044416) as [H|H].
  - assert (b + 1 <= 262144) by nia.
    destruct (IH (b + 1)) as (r & E & Hr & H1 & H2); [lia|assumption|lia|].
    exists r. repeat split; try assumption; lia.
  - exists b. repeat split; try assumption; try lia.
Qed.

(** The radicand of entry [index]. *)
Definition rsq_radicand (index : Z) : Z := Z.shiftr (index + 512) (if index mod 2 =? 1 then 1 else 0).
Lemma rsq_radicand_range i : 0 <= i < 512 -> 256 <= rsq_radicand i <= 1022.
Proof.
  intros Hi. unfold rsq_radicand. destruct (Z.eqb_spec (i mod 2) 1);
    rewrite Z.shiftr_div_pow2 by lia; [change (2 ^ 1) with 2|change (2 ^ 0) with 1]; zlia.
Qed.

(** The loop that builds each entry of the inverse square root table ends, within its fuel, at the largest root below the bound, and the entry keeps its low sixteen bits. *)
Theorem rspInverseSquareRoots_spec i : 0 <= i < 512 ->
  exists b, isqrt_loop isqrt_fuel (rsq_radicand i) (2 ^ 17) = Some b /\
    rspInverseSquareRoots i = b / 2 - 65536 /\ 2 ^ 17 <= b < 2 ^ 18 /\
    rsq_radicand i * b * b < 2 ^ 44 <= rsq_radicand i * (b + 1) * (b + 1).
Proof.
  intros Hi. pose proof (rsq_radicand_range i Hi) as Ha.
  destruct (isqrt_loop_spec isqrt_fuel (rsq_radicand i) (2 ^ 17)) as (b & E & Hb & H1 & H2).
  - lia.
  - lia.
  - change (2 ^ 17) with 131072. change (2 ^ 44) with 17592186044416. nia.
  - unfold isqrt_fuel. rewrite Z2Nat.id by lia. lia.
  - exists b. change (2 ^ 18) with 262144. repeat split; try assumption; try lia.
    unfold rspInverseSquareRoots. fold (rsq_radicand i). rewrite E.
    rewrite Z.shiftr_div_pow2 by lia. change (2 ^ 1) with 2. unfold u16.
    change (2 ^ 17) with 131072 in *. zlia.
Qed.

(** The 17-bit mantissa [0x10000 | rspInverseSquareRoots[i]]. *)
Definition rsq_mantissa (i : Z) : Z := 65536 + rspInverseSquareRoots i.

Lemma rsq_entry i : 0 <= i < 512 ->
  65536 <= rsq_mantissa i < 131072 /\ is_u16 (rspInverseSquareRoots i) /\
  rsq_radicand i * (rsq_mantissa i * rsq_mantissa i) < 2 ^ 42 /\
  2 ^ 42 - 268435456 <= rsq_radicand i * (rsq_mantissa i * rsq_mantissa i).
Proof.
  intros Hi. pose proof (rsq_radicand_range i Hi) as Ha.
  destruct (isqrt_loop_spec isqrt_fuel (rsq_radicand i) (2 ^ 17)) as (b & E & Hb & H1 & H2).
  - lia.
  - lia.
  - change (2 ^ 17) with 131072. change (2 ^ 44) with 17592186044416. nia.
  - unfold isqrt_fuel. rewrite Z2Nat.id by lia. lia.
  - assert (EM : rsq_mantissa i = b / 2).
    { unfold rsq_mantissa, rspInverseSquareRoots. fold (rsq_radicand i). rewrite E, Z.shiftr_div_pow2 by lia.
      change (2 ^ 1) with 2. change (2 ^ 17) with 131072 in *. unfold u16. zlia. }
    assert (Hm : 65536 <= b / 2 < 131072) by (change (2 ^ 17) with 131072 in *; zlia).
    rewrite EM. split; [assumption|]. split; [unfold rsq_mantissa in EM; unfold is_u16; lia|].
    change (2 ^ 42) with 4398046511104. change (2 ^ 44) with 17592186044416 in *.
    assert (Hd : 2 * (b / 2) <= b <= 2 * (b / 2) + 1) by zlia.
    revert Hd Hm. generalize (b / 2). intros m Hd Hm. split; nia.
Qed.

Lemma rsq_index i s : 0 <= i < 512 -> 0 <= s ->
  Z.lor (Z.land i 0x1fe) (Z.land s 1) = i - i mod 2 + s mod 2.
Proof.
  intros Hi Hs. change 1 with (Z.ones 1). rewrite Z.land_ones by lia. change (2 ^ 1) with 2.
  assert (E : Z.land i 0x1fe = (i / 2 ^ 1) * 2 ^ 1).
  { change 0x1fe with (Z.shiftl (Z.ones 8) 1). rewrite <- Z.shiftr_div_pow2, <- Z.shiftl_mul_pow2 by lia.
    apply Z.bits_inj'. intros n Hn. rewrite Z.land_spec.
    destruct (Z.ltb_spec n 1).
    - rewrite !Z.shiftl_spec_low by lia. apply andb_false_r.
    - rewrite !Z.shiftl_spec, Z.shiftr_spec by lia. replace (n - 1 + 1) with n by lia.
      destruct (Z.ltb_spec (n - 1) 8).
      + rewrite Z.ones_spec_low by lia. apply andb_true_r.
      + rewrite Z.ones_spec_high, andb_false_r by lia. rewrite <- (Z.mod_small i (2 ^ 9)) by lia.
        rewrite Z.mod_pow2_bits_high by lia. reflexivity. }
  rewrite E, lor_add by (change (2 ^ 1) with 2; zlia). change (2 ^ 1) with 2. zlia.
Qed.

Lemma rsq_result_pos x : 0 < x < 2147483648 ->
  rsq_result x = rsq_mantissa (div_index x - div_index x mod 2 + clz32 x mod 2) * 2 ^ 14 / 2 ^ ((31 - clz32 x) / 2).
Proof.
  intros Hx. unfold rsq_result, div_data. pose proof (clz_range x Hx). pose proof (div_index_range x).
  replace (Z.shiftr x 31) with 0 by (rewrite Z.shiftr_div_pow2 by lia; change (2 ^ 31) with 2147483648; zlia).
  rewrite Z.lxor_0_r. zcase. rewrite Z.sub_0_r. zcase. rewrite Z.lxor_0_r, rsq_index by lia.
  rewrite lor_implicit_one by (apply rsq_entry; zlia).
  rewrite (Z.shiftr_div_pow2 (31 - _)), Z.shiftr_div_pow2, Z.shiftl_mul_pow2 by (change (2 ^ 1) with 2; zlia).
  reflexivity.
Qed.

(** For every positive operand, the result r of VRSQ is within the table's error of 2^31/sqrt(x), stated on r^2 * x and (r+1)^2 * x. *)
Theorem VRSQ_accuracy x : 0 < x < 2147483648 ->
  let r := rsq_result x in
  r * r * x < 2 ^ 62 + 2 ^ 55 /\ 2 ^ 62 - 2 ^ 48 < (r + 1) * (r + 1) * x.
Proof.
  intros Hx. cbv zeta. rewrite rsq_result_pos by assumption.
  pose proof (clz_range x Hx) as Hs. pose proof (norm_range x Hx) as HN.
  pose proof (div_index_range x) as Hi. pose proof (div_index_norm x Hx) as EI.
  set (i := div_index x) in *. set (s := clz32 x) in *. set (N := x * 2 ^ s) in *.
  set (idx := i - i mod 2 + s mod 2).
  assert (Hidx : 0 <= idx < 512) by (unfold idx; zlia).
  destruct (rsq_entry idx Hidx) as (Hm & _ & HR1 & HR2).
  pose proof (rsq_radicand_range idx Hidx) as Ha.
  set (R := rsq_mantissa idx) in *. set (a := rsq_radicand idx) in *.
  set (k := (31 - s) / 2). assert (Hk : 0 <= k) by (unfold k; zlia).
  (* the normalised operand against the radicand, and the exponent *)
  assert (Hc : exists c, (c = 1 \/ c = 2) /\ c * a * 4194304 <= N < (c * a + 2) * 4194304 /\
                 2 ^ k * 2 ^ k * 2 ^ s * 2 = c * 2147483648 ).
  { unfold a, rsq_radicand. destruct (Z.eqb_spec (idx mod 2) 1) as [O|O].
    - exists 2. rewrite Z.shiftr_div_pow2 by lia. change (2 ^ 1) with 2. split; [lia|].
      assert (Os : s mod 2 = 1) by (unfold idx in O; zlia).
      split; [unfold idx; zlia|]. rewrite <- !Z.pow_add_r by lia.
      replace (k + k + s) with 31 by (unfold k; zlia). reflexivity.
    - exists 1. rewrite Z.shiftr_0_r. split; [lia|].
      assert (Os : s mod 2 = 0) by (unfold idx in O; zlia).
      split; [unfold idx; zlia|]. rewrite <- !Z.pow_add_r by lia.
      replace (k + k + s) with 30 by (unfold k; zlia). reflexivity. }
  destruct Hc as (c & Hc & HNa & Hp).
  pose proof (floor_bounds (R * 2 ^ 14) (2 ^ k) ltac:(apply Z.pow_pos_nonneg; lia)) as [F1 F2].
  set (r := R * 2 ^ 14 / 2 ^ k) in *. change (2 ^ 14) with 16384 in *.
  assert (P1 : 0 < 2 ^ s) by (apply Z.pow_pos_nonneg; lia).
  assert (P2 : 0 < 2 ^ k) by (apply Z.pow_pos_nonneg; lia).
  assert (Hr : 0 <= r) by (apply Z.div_pos; lia).
  assert (E : forall q, (q * 2 ^ k) * (q * 2 ^ k) * N * 2 = q * q * x * (c * 2147483648))
    by (intros q; rewrite <- Hp; unfold N; ring).
  assert (S1 : (r * 2 ^ k) * (r * 2 ^ k) <= (R * 16384) * (R * 16384)) by (apply Z.mul_le_mono_nonneg; nia).
  assert (S2 : (R * 16384) * (R * 16384) < ((r + 1) * 2 ^ k) * ((r + 1) * 2 ^ k)) by (apply Z.mul_lt_mono_nonneg; nia).
  assert (G1 : r * r * x * (c * 2147483648) <= (R * 16384) * (R * 16384) * N * 2) by (rewrite <- E; nia).
  assert (G2 : (R * 16384) * (R * 16384) * N * 2 < (r + 1) * (r + 1) * x * (c * 2147483648)) by (rewrite <- E; nia).
  clear S1 S2 E F1 F2. revert HR1 HR2 G1 G2.
  generalize (r * r * x), ((r + 1) * (r + 1) * x). intros lo hi HR1 HR2 G1 G2.
  change (2 ^ 62) with 4611686018427387904. change (2 ^ 55) with 36028797018963968.
  change (2 ^ 48) with 281474976710656. change (2 ^ 42) with 4398046511104 in *.
  assert (HRR : 0 <= R * R < 17179869184) by nia.
  replace (R * 16384 * (R * 16384) * N * 2) with (R * R * N * 536870912) in * by ring.
  revert HRR HR1 HR2 G1 G2. generalize (R * R). intros RR HRR HR1 HR2 G1 G2.
  assert (U : RR * N <= RR * ((c * a + 2) * 4194304)) by nia.
  assert (L : RR * (c * a * 4194304) <= RR * N) by nia.
  split; destruct Hc as [-> | ->]; nia.
Qed.
