(* ===== verification/Rdram.v ===== *)
(** The interface to guest memory that the recompiler's header provides
    ([MEM_B], [MEM_W] of recomp.h, a submodule): operations on an abstract
    memory and the laws the runtime relies on, with a byte map that satisfies
    them. *)

From S2P Require Import Prelude.
From Stdlib Require Import ZArith Lia Bool List.
From stdpp Require Import base gmap.
Open Scope Z_scope.

(** Addresses are the sign-extended 64-bit values ([gpr]) the macros take. *)
Class RdramOps (M : Type) := {
  MEM_B : Z -> M -> Z;
  MEM_B_put : Z -> Z -> M -> M;
  MEM_W : Z -> M -> Z;
  MEM_W_put : Z -> Z -> M -> M }.

Class RdramLaws (M : Type) `{RdramOps M} := {
  (** A byte store is seen at its address only. *)
  mem_b_put : forall a a' v m, MEM_B a' (MEM_B_put a v m) = if decide (a = a') then s8 v else MEM_B a' m;
  (** A word store is read back. *)
  mem_w_put : forall a v m, MEM_W a (MEM_W_put a v m) = s32 v;
  (** A word holds its four bytes, most significant first. *)
  mem_w_bytes : forall a m, a mod 4 = 0 ->
    u32 (MEM_W a m) = u8 (MEM_B a m) * 16777216 + u8 (MEM_B (a + 1) m) * 65536
                      + u8 (MEM_B (a + 2) m) * 256 + u8 (MEM_B (a + 3) m);
  mem_w_signed : forall a m, MEM_W a m = s32 (u32 (MEM_W a m));
  (** A word store is not seen outside its word. *)
  mem_w_put_other : forall a a' v m, a mod 4 = 0 -> ~ (a <= a' < a + 4) ->
    MEM_B a' (MEM_W_put a v m) = MEM_B a' m }.

(** ** An instance: bytes in guest order. *)
Definition bytemap := gmap Z Z.
Definition bm_get (m : bytemap) (a : Z) : Z := default 0 (m !! a).
Definition bm_put (a v : Z) (m : bytemap) : bytemap := <[a := u8 v]> m.
(** The word an address belongs to, where the hardware would fault on others. *)
Definition bm_word (m : bytemap) (a : Z) : Z :=
  u8 (bm_get m a) * 16777216 + u8 (bm_get m (a + 1)) * 65536 + u8 (bm_get m (a + 2)) * 256 + u8 (bm_get m (a + 3)).
#[export] Instance bytemap_ops : RdramOps bytemap := {
  MEM_B a m := s8 (bm_get m a);
  MEM_B_put := bm_put;
  MEM_W a m := s32 (bm_word m a);
  MEM_W_put a v m := bm_put (a + 3) v (bm_put (a + 2) (v / 256) (bm_put (a + 1) (v / 65536) (bm_put a (v / 16777216) m))) }.

Lemma bm_get_put m a v a' : bm_get (bm_put a v m) a' = if decide (a = a') then u8 v else bm_get m a'.
Proof.
  unfold bm_get, bm_put, bytemap in *. destruct (decide (a = a')) as [->|N].
  - rewrite lookup_insert_eq. reflexivity.
  - rewrite lookup_insert_ne by assumption. reflexivity.
Qed.
Lemma s8_u8 x : s8 (u8 x) = s8 x.
Proof. unfold s8, u8. rewrite Z.mod_mod by lia. reflexivity. Qed.
Lemma s8_of_s8 x : s8 (s8 x) = s8 x.
Proof. unfold s8. zcase; zlia. Qed.
Lemma u8_of_s8 x : u8 (s8 x) = u8 x.
Proof. unfold s8, u8. zcase; zlia. Qed.
Lemma u8_of_u8 x : u8 (u8 x) = u8 x.
Proof. apply u8_small, u8_range. Qed.
Lemma u32_s32 x : u32 (s32 x) = u32 x.
Proof. unfold u32, s32. zcase; zlia. Qed.
Lemma s32_u32 x : s32 (u32 x) = s32 x.
Proof. unfold u32, s32. rewrite Z.mod_mod by lia. reflexivity. Qed.

#[export] Instance bytemap_laws : RdramLaws bytemap.
Proof.
  constructor; cbn [MEM_B MEM_B_put MEM_W MEM_W_put bytemap_ops].
  - intros. rewrite bm_get_put. destruct (decide _); [apply s8_u8|reflexivity].
  - intros. unfold bm_word. rewrite !bm_get_put.
    repeat (destruct (decide _); try (exfalso; lia)).
    rewrite !u8_of_u8. rewrite <- s32_u32. rewrite <- (s32_u32 v). f_equal. unfold u8, u32. zlia.
  - intros. rewrite u32_s32. unfold bm_word. rewrite !u8_of_s8.
    pose proof (u8_range (bm_get m a)); pose proof (u8_range (bm_get m (a + 1)));
    pose proof (u8_range (bm_get m (a + 2))); pose proof (u8_range (bm_get m (a + 3))).
    apply u32_small. unfold is_u8, is_u32 in *. lia.
  - intros. rewrite u32_s32, s32_u32. reflexivity.
  - intros. rewrite !bm_get_put. repeat (destruct (decide _); try (exfalso; lia)). reflexivity.
Qed.
