(* ===== verification/RspCore.v ===== *)
(** The RSP outside its vector unit: SP_STATUS writes, the preemption budget,
    the DMA engine of librecomp/include/librecomp/rsp.hpp and the task launch
    of librecomp/src/rsp.cpp. *)

From S2P Require Import Prelude RspMem Rdram.
From Stdlib Require Import ZArith Lia Bool List.
From stdpp Require Import base gmap.
Open Scope Z_scope.

(** * SP_STATUS *)

(** The lambda [apply_pair] of [apply_sp_status_write]. *)
Definition apply_pair (value clear_bit set_bit read_bit status : Z) : Z :=
  let clear := negb (Z.land value clear_bit =? 0) in
  let set := negb (Z.land value set_bit =? 0) in
  if eqb clear set then status
  else if set then Z.lor status read_bit
  else Z.land status (Z.lnot read_bit).

Definition apply_sp_status_write (status value : Z) : Z :=
  let status := apply_pair value (Z.shiftl 1 0) (Z.shiftl 1 1) (Z.shiftl 1 0) status in
  let status := if negb (Z.land value (Z.shiftl 1 2) =? 0)
                then Z.land status (Z.lnot (Z.shiftl 1 1)) else status in
  let status := apply_pair value (Z.shiftl 1 5) (Z.shiftl 1 6) (Z.shiftl 1 5) status in
  let status := apply_pair value (Z.shiftl 1 7) (Z.shiftl 1 8) (Z.shiftl 1 6) status in
  for_u32 0 8 (fun i status =>
    apply_pair value (Z.shiftl 1 (9 + i * 2)) (Z.shiftl 1 (10 + i * 2)) (Z.shiftl 1 (7 + i)) status) status.

Definition kSpStatusAddr : Z := 0xFFFFFFFFA4040010 - 2 ^ 64.
Definition kSpStatusSignal3 : Z := Z.shiftl 1 10.
Definition M_GFXTASK : Z := 1.

Section Core.
Context {M : Type} `{RdramOps M}.

(** [g_sp_status], [g_sp_status_preempt_skip_budget] and guest memory;
    [rdram] is [None] for a null pointer. *)
Record sp_state := SpState { g_sp_status : Z; preempt_skip_budget : Z; sp_rdram : option M }.

Definition publish_sp_status (s : sp_state) : sp_state :=
  match sp_rdram s with
  | None => s
  | Some rdram =>
      SpState (g_sp_status s) (preempt_skip_budget s)
        (Some (MEM_W_put kSpStatusAddr (s32 (g_sp_status s)) rdram))
  end.

Definition write_sp_status (value : Z) (s : sp_state) : sp_state :=
  publish_sp_status (SpState (apply_sp_status_write (g_sp_status s) value) (preempt_skip_budget s) (sp_rdram s)).

Definition mark_sp_task_complete (task_type : Z) (s : sp_state) : sp_state :=
  publish_sp_status
    (if task_type =? M_GFXTASK
     then SpState (Z.lor (g_sp_status s) kSpStatusSignal3) 2 (sp_rdram s) else s).

Definition consume_preempt_skip_budget (s : sp_state) : Z * sp_state :=
  if negb (preempt_skip_budget s =? 0)
  then (1, SpState (g_sp_status s) (u32 (preempt_skip_budget s - 1)) (sp_rdram s))
  else (0, s).
End Core.
Arguments sp_state : clear implicits.

(** * DMA length registers *)

Definition rsp_dma_block_len (len_reg : Z) : Z := u32 (Z.land len_reg 0xFF8 + 8).
Definition rsp_dma_count (len_reg : Z) : Z := Z.land (Z.shiftr len_reg 12) 0xFF.
Definition rsp_dma_skip (len_reg : Z) : Z := Z.land (Z.shiftr len_reg 20) 0xFF8.
Definition rsp_dma_pbus_increment (len_reg : Z) : Z :=
  u32 ((rsp_dma_count len_reg + 1) * rsp_dma_block_len len_reg).
Definition rsp_dma_dram_increment (len_reg : Z) : Z :=
  u32 (rsp_dma_pbus_increment len_reg + rsp_dma_count len_reg * rsp_dma_skip len_reg).

(** [(int64_t)(int32_t)(cur_dram + i + 0x80000000)] *)
Definition dram_ptr (a : Z) : Z := s32 (u32 (a + 0x80000000)).

Section Dma.
Context {M : Type} `{RdramOps M}.

(** The two inner loops. *)
Definition block_read (rdram : M) (block_len cur_dmem cur_dram : Z) (d : dmem_t) : dmem_t :=
  for_u32 0 block_len (fun i d =>
    RSP_MEM_set i cur_dmem (MEM_B (dram_ptr (cur_dram + i)) rdram) d) d.
Definition block_write (d : dmem_t) (block_len cur_dmem cur_dram : Z) (rdram : M) : M :=
  for_u32 0 block_len (fun i rdram =>
    MEM_B_put (dram_ptr (cur_dram + i)) (RSP_MEM_B i cur_dmem d) rdram) rdram.

(** The outer loop, over memories of type [S], with the two addresses. *)
Definition dma_loop {S : Type} (copy : Z -> Z -> Z -> S -> S) (dmem_addr dram_addr len : Z) (s : S) : S * Z * Z :=
  let block_len := rsp_dma_block_len len in
  let count := rsp_dma_count len in
  let skip := rsp_dma_skip len in
  let cur_dmem := Z.land dmem_addr 0x0FF8 in
  let cur_dram := Z.land dram_addr 0xFFFFF8 in
  for_u32 0 (count + 1) (fun block '(s, cur_dmem, cur_dram) =>
    let s := copy block_len cur_dmem cur_dram s in
    let cur_dmem := Z.land (cur_dmem + block_len) 0x0FFF in
    let cur_dram := Z.land (cur_dram + block_len) 0xFFFFF8 in
    let cur_dram := if negb (block =? count) then Z.land (cur_dram + skip) 0xFFFFF8 else cur_dram in
    (s, cur_dmem, cur_dram)) (s, cur_dmem, cur_dram).

Definition dma_rdram_to_dmem (rdram : M) (dmem_addr dram_addr rd_len : Z) (d : dmem_t) : dmem_t :=
  fst (fst (dma_loop (block_read rdram) dmem_addr dram_addr rd_len d)).
Definition dma_dmem_to_rdram (d : dmem_t) (dmem_addr dram_addr wr_len : Z) (rdram : M) : M :=
  fst (fst (dma_loop (block_write d) dmem_addr dram_addr wr_len rdram)).

(** The DMA registers of [RspContext] and the macros that advance them. *)
Record dma_regs := DmaRegs { dma_mem_address : Z; dma_dram_address : Z }.
Definition advance (len : Z) (r : dma_regs) : dma_regs :=
  DmaRegs (u32 (dma_mem_address r + rsp_dma_pbus_increment len))
          (u32 (dma_dram_address r + rsp_dma_dram_increment len)).
Definition DO_DMA_READ (rdram : M) (rd_len : Z) (r : dma_regs) (d : dmem_t) : dma_regs * dmem_t :=
  (advance rd_len r, dma_rdram_to_dmem rdram (dma_mem_address r) (dma_dram_address r) rd_len d).
Definition DO_DMA_WRITE (d : dmem_t) (wr_len : Z) (r : dma_regs) (rdram : M) : dma_regs * M :=
  (advance wr_len r, dma_dmem_to_rdram d (dma_mem_address r) (dma_dram_address r) wr_len rdram).
End Dma.

(** * [run_task] *)

Inductive RspExitReason :=
| Invalid | Broke | ImemOverrun | UnhandledJumpTarget | Unsupported | SwapOverlay
| UnhandledResumeTarget | Watchdog.

(** The fields of [OSTask] the launch reads, and its 64 bytes in host order. *)
Record OSTask := MkOSTask {
  task_type : Z; task_ucode : Z; task_ucode_data : Z; task_ucode_data_size : Z; task_bytes : list Z }.

Definition kTaskDmemOffset : Z := 0xFC0.

Section Task.
Context {M : Type} `{RdramOps M}.
(** The recompiled microcode: guest and data memory to an exit reason and
    the memories it leaves. *)
Definition RspUcodeFunc := M -> dmem_t -> Z -> RspExitReason * M * dmem_t.
(** The callback that finds it; [None] is a null pointer. *)
Context (get_rsp_microcode : M -> OSTask -> option RspUcodeFunc).

Definition ucode_load_size (t : OSTask) : Z :=
  let size := task_ucode_data_size t in
  let size := if size =? 0 then 0xF80 else size in
  if size >? kTaskDmemOffset then kTaskDmemOffset else size.

(** [memcpy(&dmem[kTaskDmemOffset], task, sizeof(OSTask))]: host order, so
    no address flipping. *)
Definition copy_task (t : OSTask) (d : dmem_t) : dmem_t :=
  fst (fold_left (fun '(d, i) b => (<[i := u8 b]> d, i + 1)) (task_bytes t) (d, kTaskDmemOffset)).

Definition load_task (rdram : M) (t : OSTask) (d : dmem_t) : dmem_t :=
  let size := ucode_load_size t in
  let d := if negb (size =? 0)
           then dma_rdram_to_dmem rdram 0 (task_ucode_data t) (u32 (size - 1)) d else d in
  copy_task t d.

(** Only a BREAK is a normal end. *)
Definition task_succeeded (exit_reason : RspExitReason) : bool :=
  match exit_reason with Broke => true | _ => false end.

Definition run_task (rdram : M) (t : OSTask) (d : dmem_t) : bool * M * dmem_t :=
  match get_rsp_microcode rdram t with
  | None => (false, rdram, d)
  | Some ucode_func =>
      let d := load_task rdram t d in
      let '(exit_reason, rdram, d) := ucode_func rdram d (task_ucode t) in
      (task_succeeded exit_reason, rdram, d)
  end.
End Task.
