(* ===== verification/RspCoreSpec.v ===== *)
(** Properties of the RSP's status register, DMA engine and task launch. *)

From S2P Require Import Prelude RspMem Rdram RspCore.
From Stdlib Require Import ZArith Lia Bool List.
From stdpp Require Import base gmap.
Open Scope Z_scope.

(** * SP_STATUS *)

Lemma apply_pair_bit value c s r status n : 0 <= c -> 0 <= s -> 0 <= r -> 0 <= n ->
  Z.testbit (apply_pair value (Z.shiftl 1 c) (Z.shiftl 1 s) (Z.shiftl 1 r) status) n =
  if (n =? r) && negb (eqb (Z.testbit value c) (Z.testbit value s)) then Z.testbit value s
  else Z.testbit status n.
Proof.
  intros Hc Hs Hr Hn. unfold apply_pair. rewrite !shiftl_1, !land_pow2, !negb_involutive by assumption.
  destruct (Z.testbit value c), (Z.testbit value s); cbn [eqb negb];
    rewrite ?andb_false_r, ?andb_true_r; try reflexivity.
  - rewrite Z.land_spec, Z.lnot_spec, Z.pow2_bits_eqb, (Z.eqb_sym r n) by assumption.
    destruct (n =? r); [apply andb_false_r|apply andb_true_r].
  - rewrite Z.lor_spec, Z.pow2_bits_eqb, (Z.eqb_sym r n) by assumption.
    destruct (n =? r); [apply orb_true_r|apply orb_false_r].
Qed.

(** The documented register: what bit [n] becomes. *)
Definition sp_status_bit (status value n : Z) : bool :=
  let pair c s := if eqb (Z.testbit value c) (Z.testbit value s) then Z.testbit status n
                  else Z.testbit value s in
  if n =? 0 then pair 0 1
  else if n =? 1 then Z.testbit status 1 && negb (Z.testbit value 2)
  else if n =? 5 then pair 5 6
  else if n =? 6 then pair 7 8
  else if (7 <=? n) && (n <=? 14) then pair (2 * n - 5) (2 * n - 4)
  else Z.testbit status n.

(** Each bit of SP_STATUS after a write: set or cleared by its own pair of command bits, unchanged when both or neither are set, BROKE only ever cleared, other bits untouched. *)
Theorem apply_sp_status_write_spec status value n : 0 <= n ->
  Z.testbit (apply_sp_status_write status value) n = sp_status_bit status value n.
Proof.
  intros Hn. unfold apply_sp_status_write, sp_status_bit.
  change (for_u32 0 8 ?f ?s) with (f 7 (f 6 (f 5 (f 4 (f 3 (f 2 (f 1 (f 0 s)))))))). cbv beta.
  cbn [Z.add Z.mul Pos.add Pos.mul Pos.succ Pos.add_carry].
  do 8 (rewrite apply_pair_bit by lia). 
  rewrite !apply_pair_bit by lia.
  assert (E : forall st, Z.testbit (if negb (Z.land value (Z.shiftl 1 2) =? 0)
                then Z.land st (Z.lnot (Z.shiftl 1 1)) else st) n =
              if n =? 1 then Z.testbit st n && negb (Z.testbit value 2) else Z.testbit st n).
  { intros st. rewrite !shiftl_1, land_pow2, negb_involutive by lia.
    destruct (Z.testbit value 2).
    - rewrite Z.land_spec, Z.lnot_spec, Z.pow2_bits_eqb, (Z.eqb_sym 1 n) by lia.
      destruct (n =? 1); [rewrite andb_false_r; reflexivity|apply andb_true_r].
    - rewrite andb_true_r. destruct (n =? 1); reflexivity. }
  rewrite E, apply_pair_bit by lia. clear E.
  assert (Hc : n = 0 \/ n = 1 \/ n = 5 \/ n = 6 \/ n = 7 \/ n = 8 \/ n = 9 \/ n = 10 \/ n = 11 \/ n = 12 \/
    n = 13 \/ n = 14 \/ (n <> 0 /\ n <> 1 /\ n <> 5 /\ n <> 6 /\ ~ (7 <= n <= 14))) by lia.
  repeat (destruct Hc as [-> | Hc]; [lazy -[Z.testbit];
    repeat match goal with |- context [Z.testbit ?a ?b] => destruct (Z.testbit a b) end; reflexivity|]).
  repeat match goal with |- context [n =? ?k] => rewrite (proj2 (Z.eqb_neq n k)) by lia end. cbn [andb].
  destruct (Z.leb_spec 7 n), (Z.leb_spec n 14); cbn [andb]; try lia; reflexivity.
Qed.

Section Budget.
Context {M : Type} `{RdramOps M}.
(** A finished graphics task sets signal 3 and lets exactly the next two status reads skip preemption. *)
Theorem preempt_budget_two (s : sp_state M) :
  let s0 := mark_sp_task_complete M_GFXTASK s in
  let '(r1, s1) := consume_preempt_skip_budget s0 in
  let '(r2, s2) := consume_preempt_skip_budget s1 in
  let '(r3, s3) := consume_preempt_skip_budget s2 in
  (r1, r2, r3) = (1, 1, 0) /\ s3 = s2 /\
  Z.testbit (g_sp_status s3) 10 = true /\ sp_rdram s3 = sp_rdram s0.
Proof.
  unfold mark_sp_task_complete. cbn [Z.eqb Pos.eqb M_GFXTASK]. destruct s as [st b [m|]];
    lazy -[Z.testbit Z.lor s32]; repeat split; rewrite Z.lor_spec; apply orb_true_r.
Qed.
End Budget.

(** * The DMA engine *)

Lemma block_len_range len : 8 <= rsp_dma_block_len len <= 4096 /\ rsp_dma_block_len len mod 8 = 0.
Proof.
  unfold rsp_dma_block_len. change 0xFF8 with (Z.shiftl (Z.ones 9) 3).
  rewrite land_shifted_ones by lia. change (2 ^ 3) with 8. change (2 ^ 9) with 512. unfold u32. zlia.
Qed.
Lemma count_range len : 0 <= rsp_dma_count len <= 255.
Proof. unfold rsp_dma_count. pose proof (land_bound_r (Z.shiftr len 12) 0xFF ltac:(lia)). lia. Qed.
Lemma skip_range len : 0 <= rsp_dma_skip len < 4096 /\ rsp_dma_skip len mod 8 = 0.
Proof.
  unfold rsp_dma_skip. change 0xFF8 with (Z.shiftl (Z.ones 9) 3).
  rewrite land_shifted_ones by lia. change (2 ^ 3) with 8. change (2 ^ 9) with 512. zlia.
Qed.

Lemma land_dmem x : Z.land x 0xFFF = x mod 4096.
Proof. exact (land_ones_mod x 12 ltac:(lia)). Qed.
Lemma land_dram x : x mod 8 = 0 -> Z.land x 0xFFFFF8 = x mod 16777216.
Proof.
  intros Hx. change 0xFFFFF8 with (Z.shiftl (Z.ones 21) 3). rewrite land_shifted_ones by lia.
  change (2 ^ 3) with 8. change (2 ^ 21) with 2097152. zlia.
Qed.

(** Where block [b] starts. *)
Definition dmem_start (dmem_addr : Z) : Z := Z.land dmem_addr 0x0FF8.
Definition dram_start (dram_addr : Z) : Z := Z.land dram_addr 0xFFFFF8.
Definition dmem_at (dmem_addr len b : Z) : Z := (dmem_start dmem_addr + b * rsp_dma_block_len len) mod 4096.
Definition dram_at (dram_addr len b : Z) : Z :=
  (dram_start dram_addr + b * (rsp_dma_block_len len + rsp_dma_skip len)) mod 16777216.

Lemma dmem_start_range a : 0 <= dmem_start a < 4096 /\ dmem_start a mod 8 = 0.
Proof.
  unfold dmem_start. change 0x0FF8 with (Z.shiftl (Z.ones 9) 3). rewrite land_shifted_ones by lia.
  change (2 ^ 3) with 8. change (2 ^ 9) with 512. zlia.
Qed.
Lemma dram_start_range a : 0 <= dram_start a < 16777216 /\ dram_start a mod 8 = 0.
Proof.
  unfold dram_start. change 0xFFFFF8 with (Z.shiftl (Z.ones 21) 3). rewrite land_shifted_ones by lia.
  change (2 ^ 3) with 8. change (2 ^ 21) with 2097152. zlia.
Qed.

(** The loop with its running addresses is the loop over closed forms. *)
Lemma dma_loop_blocks {S : Type} (copy : Z -> Z -> Z -> S -> S) dmem_addr dram_addr len s :
  dma_loop copy dmem_addr dram_addr len s =
  (for_u32 0 (rsp_dma_count len + 1)
     (fun b => copy (rsp_dma_block_len len) (dmem_at dmem_addr len b) (dram_at dram_addr len b)) s,
   (dmem_start dmem_addr + (rsp_dma_count len + 1) * rsp_dma_block_len len) mod 4096,
   (dram_start dram_addr + (rsp_dma_count len + 1) * rsp_dma_block_len len
      + rsp_dma_count len * rsp_dma_skip len) mod 16777216).
Proof.
  unfold dma_loop. fold (dmem_start dmem_addr). fold (dram_start dram_addr).
  pose proof (block_len_range len) as [HL HL8]. pose proof (count_range len) as Hc.
  pose proof (skip_range len) as [Hk Hk8].
  destruct (dmem_start_range dmem_addr) as [Hd Hd8]. destruct (dram_start_range dram_addr) as [Hr Hr8].
  unfold dmem_at, dram_at. cbv zeta.
  revert HL HL8 Hc Hk Hk8 Hd Hd8 Hr Hr8.
  generalize (rsp_dma_block_len len), (rsp_dma_count len), (rsp_dma_skip len), (dmem_start dmem_addr),
    (dram_start dram_addr). intros L c k d0 r0 HL HL8 Hc Hk Hk8 Hd Hd8 Hr Hr8.
  unfold for_u32. replace (Z.to_nat (c + 1 - 0)) with (Datatypes.S (Z.to_nat c)) by lia.
  assert (M8 : forall b, (r0 + b * (L + k)) mod 16777216 mod 8 = 0).
  { intros b. assert (E : (b * (L + k)) mod 8 = 0).
    { rewrite Z.mul_mod, (Z.add_mod L k), HL8, Hk8 by lia. rewrite Z.mul_0_r. reflexivity. }
    revert E. generalize (b * (L + k)). intros y E. zlia. }
  (* generalise to a loop started at block b *)
  assert (G : forall n b s cd cr, 0 <= b -> b + Z.of_nat n = c ->
    cd = (d0 + b * L) mod 4096 -> cr = (r0 + b * (L + k)) mod 16777216 ->
    for_n (Datatypes.S n) b (fun block '(s, cur_dmem, cur_dram) =>
      (copy L cur_dmem cur_dram s, Z.land (cur_dmem + L) 0xFFF,
       if negb (block =? c) then Z.land (Z.land (cur_dram + L) 0xFFFFF8 + k) 0xFFFFF8
       else Z.land (cur_dram + L) 0xFFFFF8)) (s, cd, cr)
    = (for_n (Datatypes.S n) b (fun b => copy L ((d0 + b * L) mod 4096) ((r0 + b * (L + k)) mod 16777216)) s,
       (d0 + (c + 1) * L) mod 4096, (r0 + (c + 1) * L + c * k) mod 16777216)).
  { induction n as [|n IH]; intros b st cd cr Hb0 Hb -> ->.
    - cbn [for_n]. replace b with c in * by lia. rewrite Z.eqb_refl. cbn [negb].
      pose proof (M8 c). rewrite land_dmem, land_dram by zlia. f_equal; [f_equal|].
      + rewrite Zplus_mod_idemp_l. f_equal. lia.
      + rewrite Zplus_mod_idemp_l. f_equal. lia.
    - change (for_n (Datatypes.S (Datatypes.S n)) b ?f ?s) with (for_n (Datatypes.S n) (b + 1) f (f b s)).
      cbv beta iota. destruct (Z.eqb_spec b c); [lia|]. cbn [negb].
      apply IH; try lia.
      + rewrite land_dmem, Zplus_mod_idemp_l. f_equal. lia.
      + pose proof (M8 b). rewrite !land_dram by (rewrite ?land_dram by zlia; zlia).
        rewrite Zplus_mod_idemp_l, <- Z.add_assoc, Zplus_mod_idemp_l. f_equal. lia. }
  apply (G (Z.to_nat c) 0); rewrite ?Z.mul_0_l, ?Z.add_0_r, ?Z.mod_small by lia; lia.
Qed.

(** One block. *)
Section Blocks.
Context {M : Type} `{RdramLaws M}.

Lemma block_read_get rdram L cm cr d o : 0 <= L <= 4096 ->
  RSP_MEM_BU 0 o (block_read rdram L cm cr d) =
  let i := (o - cm) mod 4096 in
  if decide (i < L) then u8 (MEM_B (dram_ptr (cr + i)) rdram) else RSP_MEM_BU 0 o d.
Proof.
  intros HL. unfold block_read, for_u32. cbv zeta. rewrite Z.sub_0_r.
  assert (G : forall n b d, 0 <= b -> b + Z.of_nat n <= 4096 ->
    RSP_MEM_BU 0 o (for_n n b (fun i d => RSP_MEM_set i cm (MEM_B (dram_ptr (cr + i)) rdram) d) d) =
    if decide (b <= (o - cm) mod 4096 < b + Z.of_nat n)
    then u8 (MEM_B (dram_ptr (cr + (o - cm) mod 4096)) rdram) else RSP_MEM_BU 0 o d).
  { induction n as [|n IH]; intros b d' Hb Hn; cbn [for_n].
    - rewrite decide_False by lia. reflexivity.
    - rewrite IH, mem_set_get by lia.
      destruct (decide (b + 1 <= _ < _)), (decide (b <= _ < _)); try reflexivity; try (exfalso; lia).
      + rewrite decide_True by zlia. f_equal. f_equal. f_equal. zlia.
      + rewrite decide_False by zlia. reflexivity. }
  rewrite G by lia. destruct (decide _), (decide _); try reflexivity; exfalso; zlia.
Qed.

Lemma dram_ptr_inj x y : 0 <= x < 2147483648 -> 0 <= y < 2147483648 -> dram_ptr x = dram_ptr y -> x = y.
Proof. unfold dram_ptr, s32, u32. zcase; zlia. Qed.

Lemma block_write_get d L cm cr rdram x : 0 <= L <= 4096 -> 0 <= cr < 16777216 -> 0 <= x < 2147483648 ->
  MEM_B (dram_ptr x) (block_write d L cm cr rdram) =
  if decide (cr <= x < cr + L) then s8 (RSP_MEM_BU 0 (cm + (x - cr)) d) else MEM_B (dram_ptr x) rdram.
Proof.
  intros HL Hcr Hx. unfold block_write, for_u32. rewrite Z.sub_0_r.
  assert (G : forall n b m, 0 <= b -> b + Z.of_nat n <= 4096 ->
    MEM_B (dram_ptr x) (for_n n b (fun i m => MEM_B_put (dram_ptr (cr + i)) (RSP_MEM_B i cm d) m) m) =
    if decide (cr + b <= x < cr + b + Z.of_nat n)
    then s8 (RSP_MEM_BU 0 (cm + (x - cr)) d) else MEM_B (dram_ptr x) m).
  { induction n as [|n IH]; intros b m Hb Hn; cbn [for_n].
    - rewrite decide_False by lia. reflexivity.
    - rewrite IH, mem_b_put by lia.
      destruct (decide (cr + (b + 1) <= x < _)), (decide (cr + b <= x < _)); try reflexivity; try (exfalso; lia).
      + replace x with (cr + b) by lia. rewrite decide_True by reflexivity.
        unfold RSP_MEM_B. rewrite <- (s8_u8 (s8 _)), u8_of_s8, s8_u8. f_equal.
        unfold RSP_MEM_BU. do 2 f_equal. lia.
      + rewrite decide_False; [reflexivity|]. intros E. apply dram_ptr_inj in E; lia. }
  rewrite G by lia. destruct (decide _), (decide _); try reflexivity; exfalso; lia.
Qed.
End Blocks.

Section Transfers.
Context {M : Type} `{RdramLaws M}.

(** Bytes moved, and where byte [i] of the transfer lives in DRAM. *)
Definition dma_total (len : Z) : Z := (rsp_dma_count len + 1) * rsp_dma_block_len len.
Definition dram_byte (dram_addr len i : Z) : Z :=
  dram_at dram_addr len (i / rsp_dma_block_len len) + i mod rsp_dma_block_len len.

Lemma dma_read_get rdram dmem_addr dram_addr len d o :
  dma_total len <= 4096 ->
  RSP_MEM_BU 0 o (dma_rdram_to_dmem rdram dmem_addr dram_addr len d) =
  let i := (o - dmem_start dmem_addr) mod 4096 in
  if decide (i < dma_total len) then u8 (MEM_B (dram_ptr (dram_byte dram_addr len i)) rdram)
  else RSP_MEM_BU 0 o d.
Proof.
  intros HT. unfold dma_rdram_to_dmem. rewrite dma_loop_blocks. cbn [fst]. cbv zeta.
  pose proof (block_len_range len) as [HL HL8]. pose proof (count_range len) as Hc.
  unfold dma_total, dram_byte in *. unfold for_u32. rewrite Z.sub_0_r.
  set (L := rsp_dma_block_len len) in *. set (c := rsp_dma_count len) in *.
  set (i := (o - dmem_start dmem_addr) mod 4096).
  assert (G : forall n b d, 0 <= b -> b + Z.of_nat n <= c + 1 ->
    RSP_MEM_BU 0 o (for_n n b (fun b => block_read rdram L (dmem_at dmem_addr len b) (dram_at dram_addr len b)) d) =
    if decide (b * L <= i < (b + Z.of_nat n) * L)
    then u8 (MEM_B (dram_ptr (dram_at dram_addr len (i / L) + i mod L)) rdram) else RSP_MEM_BU 0 o d).
  { induction n as [|n IH]; intros b d' Hb Hn; cbn [for_n].
    - rewrite decide_False by lia. reflexivity.
    - rewrite IH, block_read_get by lia. cbv zeta.
      assert (Ei : (o - dmem_at dmem_addr len b) mod 4096 = (i - b * L) mod 4096).
      { unfold i, dmem_at. fold L. generalize (dmem_start dmem_addr), (b * L). intros; zlia. }
      rewrite Ei. assert (Hi : 0 <= i < 4096) by (unfold i; zlia).
      assert (HbL : 0 <= b * L /\ (b + 1) * L <= 4096) by nia.
      replace ((b + 1) * L) with (b * L + L) in * by ring.
      replace ((b + Z.of_nat (Datatypes.S n)) * L) with (b * L + Z.of_nat n * L + L) by nia.
      replace ((b + 1 + Z.of_nat n) * L) with (b * L + Z.of_nat n * L + L) by nia.
      assert (0 <= Z.of_nat n * L) by nia.
      destruct (decide (b * L + L <= i < _)), (decide (b * L <= i < _)); try reflexivity; try (exfalso; lia).
      + rewrite decide_True by zlia.
        assert (Eq : i / L = b) by (symmetry; apply (Z.div_unique_pos i L b (i - b * L)); lia).
        assert (Er : i mod L = i - b * L) by (rewrite Z.mod_eq by lia; rewrite Eq; lia).
        rewrite Eq, Er. rewrite Z.mod_small by lia. reflexivity.
      + rewrite decide_False by zlia. reflexivity. }
  rewrite G by lia. assert (0 <= i) by (unfold i; zlia).
  destruct (decide _), (decide _); try reflexivity; exfalso; lia.
Qed.

(** The transfer stays below the 24-bit limit of the address register. *)
Definition dram_fits (dram_addr len : Z) : Prop :=
  dram_start dram_addr + dma_total len + rsp_dma_count len * rsp_dma_skip len <= 16777216.

Lemma dram_at_fits dram_addr len b : dram_fits dram_addr len -> 0 <= b <= rsp_dma_count len ->
  dram_at dram_addr len b = dram_start dram_addr + b * (rsp_dma_block_len len + rsp_dma_skip len) /\
  0 <= dram_at dram_addr len b /\ dram_at dram_addr len b + rsp_dma_block_len len <= 16777216.
Proof.
  unfold dram_fits, dma_total, dram_at. intros HF Hb.
  pose proof (block_len_range len) as [HL HL8]. pose proof (skip_range len) as [Hk _].
  pose proof (dram_start_range dram_addr) as [Hr _].
  set (L := rsp_dma_block_len len) in *. set (k := rsp_dma_skip len) in *.
  set (c := rsp_dma_count len) in *.
  assert (B : 0 <= b * (L + k) <= c * (L + k)) by (split; [apply Z.mul_nonneg_nonneg|apply Z.mul_le_mono_nonneg_r]; lia).
  rewrite Z.mod_small by lia. lia.
Qed.
(** Blocks do not overlap. *)
Lemma dram_at_apart len b b' : b < b' ->
  b * (rsp_dma_block_len len + rsp_dma_skip len) + rsp_dma_block_len len
  <= b' * (rsp_dma_block_len len + rsp_dma_skip len).
Proof.
  intros Hb. pose proof (block_len_range len) as [HL _]. pose proof (skip_range len) as [Hk _].
  pose proof (Z.mul_le_mono_nonneg_r (b + 1) b' (rsp_dma_block_len len + rsp_dma_skip len)). lia.
Qed.

Lemma dma_write_get d dmem_addr dram_addr len rdram i :
  dram_fits dram_addr len -> 0 <= i < dma_total len ->
  MEM_B (dram_ptr (dram_byte dram_addr len i)) (dma_dmem_to_rdram d dmem_addr dram_addr len rdram) =
  s8 (RSP_MEM_BU 0 (dmem_start dmem_addr + i) d).
Proof.
  intros HF Hi. unfold dma_dmem_to_rdram. rewrite dma_loop_blocks. cbn [fst].
  pose proof (block_len_range len) as [HL HL8]. pose proof (count_range len) as Hc.
  unfold dram_byte, for_u32. rewrite Z.sub_0_r. unfold dma_total in Hi.
  assert (Eb : 0 <= i / rsp_dma_block_len len <= rsp_dma_count len).
  { split; [apply Z.div_pos; lia|]. apply Z.lt_succ_r. apply Z.div_lt_upper_bound; lia. }
  pose proof (Z.mod_pos_bound i (rsp_dma_block_len len) ltac:(lia)) as Em.
  pose proof (Z.div_mod i (rsp_dma_block_len len) ltac:(lia)) as Ed. rewrite Z.mul_comm in Ed.
  set (q := i / rsp_dma_block_len len) in *. set (r := i mod rsp_dma_block_len len) in *.
  destruct (dram_at_fits _ _ _ HF Eb) as (Eq & B1 & B2).
  set (x := dram_at dram_addr len q + r).
  assert (G : forall n b m, 0 <= b -> b + Z.of_nat n <= rsp_dma_count len + 1 ->
    MEM_B (dram_ptr x) (for_n n b (fun b => block_write d (rsp_dma_block_len len) (dmem_at dmem_addr len b) (dram_at dram_addr len b)) m) =
    if decide (b <= q < b + Z.of_nat n)
    then s8 (RSP_MEM_BU 0 (dmem_start dmem_addr + i) d) else MEM_B (dram_ptr x) m).
  { induction n as [|n IH]; intros b m Hb Hn; cbn [for_n].
    - rewrite decide_False by lia. reflexivity.
    - rewrite IH by lia. destruct (dram_at_fits _ _ b HF ltac:(lia)) as (Eb' & C1 & C2).
      rewrite block_write_get by (unfold x; lia).
      destruct (decide (b + 1 <= q < _)), (decide (b <= q < _)); try reflexivity; try (exfalso; lia).
      + assert (q = b) by lia. subst b. rewrite decide_True by (unfold x; lia). f_equal.
        unfold RSP_MEM_BU. f_equal. apply slot_inj. unfold dmem_at, x.
        rewrite Ed. generalize (q * rsp_dma_block_len len). intros. zlia.
      + rewrite decide_False; [reflexivity|]. unfold x. rewrite Eq, Eb'.
        destruct (Z.lt_total b q) as [Hlt|[Heq|Hlt]]; [| lia|].
        * pose proof (dram_at_apart len b q Hlt). lia.
        * pose proof (dram_at_apart len q b Hlt). lia. }
  rewrite G, decide_True by lia. reflexivity.
Qed.

(** After a DMA into data memory each byte is the DRAM byte its block and offset select, or the byte that was there. *)
Theorem dma_read_contents rdram dmem_addr dram_addr len d o :
  dma_total len <= 4096 ->
  RSP_MEM_BU 0 o (dma_rdram_to_dmem rdram dmem_addr dram_addr len d) =
  let i := (o - dmem_start dmem_addr) mod 4096 in
  if decide (i < dma_total len) then u8 (MEM_B (dram_ptr (dram_byte dram_addr len i)) rdram)
  else RSP_MEM_BU 0 o d.
Proof. apply dma_read_get. Qed.

(** A DMA to DRAM followed by the same DMA back restores the transferred bytes of data memory, whatever the block count and skip, and leaves the others as they were. *)
Theorem dma_roundtrip rdram dmem_addr dram_addr len d d2 o :
  dma_total len <= 4096 -> dram_fits dram_addr len -> dmem_ok d ->
  RSP_MEM_BU 0 o
    (dma_rdram_to_dmem (dma_dmem_to_rdram d dmem_addr dram_addr len rdram) dmem_addr dram_addr len d2) =
  if decide ((o - dmem_start dmem_addr) mod 4096 < dma_total len)
  then RSP_MEM_BU 0 o d else RSP_MEM_BU 0 o d2.
Proof.
  intros HT HF Hd. rewrite dma_read_get by assumption. cbv zeta.
  destruct (decide _) as [Hi|]; [|reflexivity].
  rewrite dma_write_get by (try assumption; zlia).
  rewrite u8_of_s8, u8_small by (apply mem_bu_u8; assumption).
  unfold RSP_MEM_BU. f_equal. apply slot_inj. zlia.
Qed.
End Transfers.

(** The increments DO_DMA_READ and DO_DMA_WRITE apply to the address registers leave them where the transfer loop ended. *)
Theorem dma_registers_follow_loop {S : Type} (copy : Z -> Z -> Z -> S -> S) r len s :
  let '(_, cur_dmem, cur_dram) := dma_loop copy (dma_mem_address r) (dma_dram_address r) len s in
  Z.land (dma_mem_address (advance len r)) 0xFF8 = cur_dmem /\
  Z.land (dma_dram_address (advance len r)) 0xFFFFF8 = cur_dram.
Proof.
  rewrite dma_loop_blocks. cbn [advance dma_mem_address dma_dram_address].
  pose proof (block_len_range len) as [HL HL8]. pose proof (count_range len) as Hc.
  pose proof (skip_range len) as [Hk Hk8].
  unfold dmem_start, dram_start, rsp_dma_dram_increment, rsp_dma_pbus_increment.
  change 0xFF8 with (Z.shiftl (Z.ones 9) 3). change 0xFFFFF8 with (Z.shiftl (Z.ones 21) 3).
  rewrite !land_shifted_ones by lia. change (2 ^ 3) with 8. change (2 ^ 9) with 512. change (2 ^ 21) with 2097152.
  assert (E1 : exists p, (rsp_dma_count len + 1) * rsp_dma_block_len len = 8 * p).
  { exists ((rsp_dma_count len + 1) * (rsp_dma_block_len len / 8)).
    replace (rsp_dma_block_len len) with (8 * (rsp_dma_block_len len / 8)) at 1 by zlia. ring. }
  assert (E2 : exists p, rsp_dma_count len * rsp_dma_skip len = 8 * p).
  { exists (rsp_dma_count len * (rsp_dma_skip len / 8)).
    replace (rsp_dma_skip len) with (8 * (rsp_dma_skip len / 8)) at 1 by zlia. ring. }
  destruct E1 as [p ->], E2 as [p' ->]. unfold u32. split; zlia.
Qed.

(** * Task launch *)

Section Launch.
Context {M : Type} `{RdramLaws M}.

Lemma copy_task_get bytes d i k : 
  dmem_get (fst (fold_left (fun '(d, i) b => (<[i := u8 b]> d, i + 1)) bytes (d, i))) k =
  if decide (i <= k < i + Z.of_nat (length bytes)) then u8 (nth (Z.to_nat (k - i)) bytes 0) else dmem_get d k.
Proof.
  revert d i. induction bytes as [|b bytes IH]; intros d i; cbn [fold_left length].
  - rewrite decide_False by lia. reflexivity.
  - rewrite IH. destruct (decide (i + 1 <= k < _)), (decide (i <= k < _)); try (exfalso; lia).
    + replace (Z.to_nat (k - i)) with (Datatypes.S (Z.to_nat (k - (i + 1)))) by lia. reflexivity.
    + replace k with i by lia. unfold dmem_get. rewrite lookup_insert_eq, Z.sub_diag. reflexivity.
    + unfold dmem_get. rewrite lookup_insert_ne by lia. reflexivity.
Qed.

(** The size handed to the DMA covers the advertised data and stops at the task block. *)
Lemma load_size_range t : 0 <= task_ucode_data_size t -> 0 < ucode_load_size t <= kTaskDmemOffset.
Proof. intros. unfold ucode_load_size, kTaskDmemOffset. zcase; lia. Qed.

Lemma load_len t : is_u32 (task_ucode_data_size t) ->
  let len := u32 (ucode_load_size t - 1) in
  rsp_dma_count len = 0 /\ dma_total len = (ucode_load_size t + 7) / 8 * 8.
Proof.
  intros Ht. unfold is_u32 in Ht. pose proof (load_size_range t ltac:(lia)) as Hs. unfold kTaskDmemOffset in Hs.
  cbv zeta. rewrite u32_small by (unfold is_u32; lia).
  assert (Hc : rsp_dma_count (ucode_load_size t - 1) = 0).
  { unfold rsp_dma_count. rewrite Z.shiftr_div_pow2, Z.div_small by (try change (2 ^ 12) with 4096; lia). reflexivity. }
  split; [assumption|]. unfold dma_total. rewrite Hc. unfold rsp_dma_block_len.
  change 0xFF8 with (Z.shiftl (Z.ones 9) 3). rewrite land_shifted_ones by lia.
  change (2 ^ 3) with 8. change (2 ^ 9) with 512. unfold u32. zlia.
Qed.

(** Launching a task puts its 64 bytes at 0xFC0, never overwritten by the microcode data, and the data below them. *)
Theorem load_task_layout rdram t d k :
  is_u32 (task_ucode_data_size t) -> length (task_bytes t) = 64%nat -> Forall is_u8 (task_bytes t) ->
  let d' := load_task rdram t d in
  (0 <= k < 64 -> dmem_get d' (0xFC0 + k) = nth (Z.to_nat k) (task_bytes t) 0) /\
  (0 <= k < ucode_load_size t ->
     RSP_MEM_BU 0 k d' = u8 (MEM_B (dram_ptr (dram_start (task_ucode_data t) + k)) rdram)).
Proof.
  intros Ht HL HB. cbv zeta. unfold load_task. unfold is_u32 in Ht.
  pose proof (load_size_range t ltac:(lia)) as Hs. destruct (load_len t Ht) as [Hc HT].
  unfold kTaskDmemOffset in Hs. destruct (Z.eqb_spec (ucode_load_size t) 0) as [E|_]; [lia|]. cbn [negb].
  unfold copy_task. split; intros Hk.
  - rewrite copy_task_get, HL, decide_True by (unfold kTaskDmemOffset; lia).
    unfold kTaskDmemOffset. replace (0xFC0 + k - 0xFC0) with k by lia. apply u8_small.
    rewrite List.Forall_forall in HB. apply HB, nth_In. lia.
  - unfold RSP_MEM_BU at 1. rewrite copy_task_get, decide_False.
    + fold (RSP_MEM_BU 0 k (dma_rdram_to_dmem rdram 0 (task_ucode_data t) (u32 (ucode_load_size t - 1)) d)).
      rewrite dma_read_get by (rewrite HT; zlia). cbv zeta.
      change (dmem_start 0) with 0. rewrite Z.sub_0_r, (Z.mod_small k) by lia.
      rewrite decide_True by (rewrite HT; zlia). do 2 f_equal. f_equal.
      unfold dram_byte. revert HT. unfold dma_total. rewrite Hc. intros HT.
      rewrite (Z.div_small k), (Z.mod_small k) by zlia. unfold dram_at. rewrite Z.mul_0_l, Z.add_0_r.
      rewrite Z.mod_small by apply dram_start_range. reflexivity.
    + unfold kTaskDmemOffset. rewrite Z.add_0_l, slot_mod, Z.mod_small by lia.
      assert (Hx : Z.lxor k 3 / 4 = k / 4).
      { rewrite <- !(Z.shiftr_div_pow2 _ 2), Z.shiftr_lxor by lia. apply Z.lxor_0_r. }
      zlia.
Qed.

(** run_task succeeds exactly when a microcode is found and ends with BREAK, run from the loaded data memory. *)
Theorem run_task_result get_rsp_microcode rdram t d :
  fst (fst (run_task get_rsp_microcode rdram t d)) = true <->
  exists f m' d', get_rsp_microcode rdram t = Some f /\
    f rdram (load_task rdram t d) (task_ucode t) = (Broke, m', d').
Proof.
  unfold run_task. destruct (get_rsp_microcode rdram t) as [f|].
  - destruct (f _ _ _) as [[r m'] d'] eqn:E. split.
    + intros Hr. exists f, m', d'. split; [reflexivity|]. rewrite E. destruct r; try discriminate; reflexivity.
    + intros (f' & m2 & d2 & Ef & E2). injection Ef as <-. rewrite E in E2. injection E2 as -> -> ->. reflexivity.
  - split; [discriminate|]. intros (f & m' & d' & Ef & _). discriminate.
Qed.
End Launch.
