(* ===== verification/Save.v ===== *)
(** The save data of the game: the buffer of librecomp/src/pi.cpp that every
    save device shares, the EEPROM calls of librecomp/src/eep.cpp and the
    FlashRAM library calls of librecomp/src/flash.cpp.

    The buffer holds bytes; a read or write that leaves it is [None] or
    [SaveFault] (an assertion in a debug build, undefined otherwise).  The
    message boxes that end the program are [WrongType].  Completion messages
    are returned as the list of queues they are posted to. *)

From S2P Require Import Prelude Bytes RspMem Rdram.
From Stdlib Require Import ZArith Lia Bool List.
From stdpp Require Import base list.
Open Scope Z_scope.

(** [recomp::SaveType]; [SaveNone] is its [None]. *)
Inductive SaveType := SaveNone | Eep4k | Eep16k | Sram | Flashram | AllowAll.
#[export] Instance save_type_eq_dec : EqDecision SaveType.
Proof. solve_decision. Defined.

Definition get_save_size (t : SaveType) : Z :=
  match t with
  | AllowAll | Flashram => 0x20000
  | Sram => 0x8000
  | Eep16k => 0x800
  | Eep4k => 0x200
  | SaveNone => 0
  end.
Definition eeprom_allowed (t : SaveType) : bool :=
  match t with Eep4k | Eep16k | AllowAll => true | _ => false end.
Definition sram_allowed (t : SaveType) : bool :=
  match t with Sram | AllowAll => true | _ => false end.
Definition flashram_allowed (t : SaveType) : bool :=
  match t with Flashram | AllowAll => true | _ => false end.

(** * The buffer *)

(** [save_buffer] and the count of the semaphore that wakes the saving thread. *)
Record save_context := SaveContext { save_buffer : list Z; write_sempahore : Z }.

Definition save_size : Z := 0x20000.

Section Buffer.
Context {M : Type} `{RdramOps M}.

(** Bytes of guest memory as the buffer's. *)
Definition guest_bytes (rdram_address count : Z) (rdram : M) : list Z :=
  (fun pos => u8 (MEM_B (rdram_address + pos) rdram)) <$> seqZ 0 count.

Definition put_bytes (offset : Z) (bytes : list Z) (c : save_context) : option save_context :=
  if offset + vec_size bytes >? vec_size (save_buffer c) then None
  else Some (SaveContext (splice offset bytes (save_buffer c)) (write_sempahore c + 1)).

Definition save_write_ptr (bytes : list Z) (offset count : Z) (c : save_context) : option save_context :=
  put_bytes offset (slice 0 count bytes) c.
Definition save_write (rdram_address offset count : Z) (rdram : M) (c : save_context) : option save_context :=
  put_bytes offset (guest_bytes rdram_address count rdram) c.
Definition save_read (rdram_address offset count : Z) (c : save_context) (rdram : M) : option M :=
  if offset + count >? vec_size (save_buffer c) then None
  else Some (for_u32 0 count (fun pos rdram =>
    MEM_B_put (rdram_address + pos) (s8 (byte_at (save_buffer c) (offset + pos))) rdram) rdram).
Definition save_clear (start size value : Z) (c : save_context) : option save_context :=
  put_bytes start (fill size value) c.

(** * EEPROM *)

Inductive save_result (A : Type) := SaveOk (r2 : Z) (a : A) | WrongType | SaveFault.
Arguments SaveOk {A}.
Arguments WrongType {A}.
Arguments SaveFault {A}.

Definition checked {A} (r2 : Z) (r : option A) : save_result A :=
  match r with Some a => SaveOk r2 a | None => SaveFault end.

Definition eeprom_block_size : Z := 8.
Definition require_eeprom_save {A} (t : SaveType) (r : save_result A) : save_result A :=
  if eeprom_allowed t then r else WrongType.
Definition eeprom_byte_offset (block_index : Z) : Z := u32 (u8 block_index * eeprom_block_size).

Definition osEepromProbe (t : SaveType) : Z :=
  match t with AllowAll | Eep16k => 0x02 | Eep4k => 0x01 | _ => 0x00 end.
Definition osEepromWrite (t : SaveType) (r5 r6 : Z) (rdram : M) (c : save_context) : save_result save_context :=
  require_eeprom_save t (checked 0 (save_write r6 (eeprom_byte_offset r5) eeprom_block_size rdram c)).
Definition osEepromLongWrite (t : SaveType) (r5 r6 r7 : Z) (rdram : M) (c : save_context) : save_result save_context :=
  require_eeprom_save t (checked 0 (save_write r6 (eeprom_byte_offset r5) (u32 r7) rdram c)).
Definition osEepromRead (t : SaveType) (r5 r6 : Z) (c : save_context) (rdram : M) : save_result M :=
  require_eeprom_save t (checked 0 (save_read r6 (eeprom_byte_offset r5) eeprom_block_size c rdram)).
Definition osEepromLongRead (t : SaveType) (r5 r6 r7 : Z) (c : save_context) (rdram : M) : save_result M :=
  require_eeprom_save t (checked 0 (save_read r6 (eeprom_byte_offset r5) (u32 r7) c rdram)).

(** * The FlashRAM library *)

Definition page_size : Z := 128.
Definition page_count : Z := (1024 * 1024 / 8) / page_size.

(** The staging page and the save data. *)
Record flash_state := FlashState { write_buffer : list Z; flash_saves : save_context }.

Definition require_flashram_save {A} (t : SaveType) (r : save_result A) : save_result A :=
  if flashram_allowed t then r else WrongType.
Definition with_saves (f : flash_state) (r : option save_context) : option flash_state :=
  match r with Some c => Some (FlashState (write_buffer f) c) | None => None end.

(** These two leave r2 alone. *)
Definition osFlashReadStatus (t : SaveType) (r2 r4 : Z) (rdram : M) : save_result M :=
  require_flashram_save t (SaveOk r2 (MEM_B_put r4 0 rdram)).
Definition osFlashReadId (t : SaveType) (r2 r4 r5 : Z) (rdram : M) : save_result M :=
  require_flashram_save t (SaveOk r2 (MEM_W_put r5 0x00C2001D (MEM_W_put r4 0x11118001 rdram))).
Definition osFlashAllErase (t : SaveType) (f : flash_state) : save_result flash_state :=
  require_flashram_save t (checked 0 (with_saves f (save_clear 0 save_size 0xFF (flash_saves f)))).
Definition osFlashAllEraseThrough := osFlashAllErase.

Definition flash_erase_page (r4 : Z) (f : flash_state) : save_result flash_state :=
  let page_num := u32 r4 in
  if page_num >=? page_count then SaveOk (-1) f
  else checked 0 (with_saves f (save_clear (u32 (page_num * page_size)) page_size 0xFF (flash_saves f))).
Definition osFlashSectorErase (t : SaveType) (r4 : Z) (f : flash_state) : save_result flash_state :=
  require_flashram_save t (flash_erase_page r4 f).
Definition osFlashSectorEraseThrough := osFlashSectorErase.

(** With the queue the completion is posted to. *)
Definition osFlashWriteBuffer (t : SaveType) (r6 r7 : Z) (rdram : M) (f : flash_state) : save_result (flash_state * list Z) :=
  require_flashram_save t (SaveOk 0 (FlashState (guest_bytes r6 page_size rdram) (flash_saves f), [r7])).
Definition osFlashWriteArray (t : SaveType) (r4 : Z) (f : flash_state) : save_result flash_state :=
  require_flashram_save t
    (checked 0 (with_saves f (save_write_ptr (write_buffer f) (u32 (u32 r4 * page_size)) page_size (flash_saves f)))).
(** The last two arguments are on the stack. *)
Definition osFlashReadArray (t : SaveType) (r6 r7 r29 : Z) (f : flash_state) (rdram : M) : save_result (M * list Z) :=
  require_flashram_save t
    (let n_pages := u32 (MEM_W (r29 + 0x10) rdram) in
     let mq := MEM_W (r29 + 0x14) rdram in
     match save_read r7 (u32 (u32 r6 * page_size)) (u32 (n_pages * page_size)) (flash_saves f) rdram with
     | Some rdram => SaveOk 0 (rdram, [mq])
     | None => SaveFault
     end).
End Buffer.
Arguments save_result : clear implicits.
