(* ===== verification/Pi.v ===== *)
(** The parallel interface: librecomp/src/pi.cpp.

    Transfers between guest memory and the devices of the cartridge bus: the
    ROM, SRAM, the FlashRAM chip driven by its command register, and the
    address ranges of absent devices.  What the transfers trigger elsewhere is
    a log of events: completion messages, overlay loading, the fill ring.
    [PiThrow] is the exception of a ROM write and [PiFault] an access outside
    the ROM image or the save buffer.  The alignment assertions of the ROM
    reads and the messages to the console are left out. *)

From S2P Require Import Prelude Bytes RspMem Rdram Save.
From Stdlib Require Import ZArith Lia Bool List.
From stdpp Require Import base list.
Open Scope Z_scope.

(** * Addresses *)

Definition cart_handle : Z := 0x80800000 - 2 ^ 32.
Definition drive_handle : Z := cart_handle + 92.
Definition flash_handle : Z := drive_handle + 92.
Definition sram_base : Z := 0x08000000.
Definition rom_base : Z := 0x10000000.
Definition drive_base : Z := 0x06000000.
Definition k1_to_phys (addr : Z) : Z := Z.land addr 0x1FFFFFFF.
Definition phys_to_k1 (addr : Z) : Z := Z.lor addr 0xA0000000.
Definition kKseg1RomOffset : Z := 0x30000000.

(** * The state *)

Inductive FlashMode := ReadArray | Status | Id | PageProgram | SectorErase | ChipErase.
#[export] Instance flash_mode_eq_dec : EqDecision FlashMode.
Proof. solve_decision. Defined.
Definition is_mode (a b : FlashMode) : bool := bool_decide (a = b).

Definition flash_size : Z := 0x20000.
Definition flash_page_size : Z := 128.
Definition flash_pages_per_sector : Z := 128.
Definition flash_sector_size : Z := flash_page_size * flash_pages_per_sector.
Definition flash_cmd_reg : Z := 0x10000.
Definition flash_cmd_chip_erase : Z := 0x3C000000.
Definition flash_cmd_sector_erase : Z := 0x4B000000.
Definition flash_cmd_execute_erase : Z := 0x78000000.
Definition flash_cmd_program_page : Z := 0xA5000000.
Definition flash_cmd_page_program : Z := 0xB4000000.
Definition flash_cmd_status : Z := 0xD2000000.
Definition flash_cmd_id : Z := 0xE1000000.
Definition flash_cmd_read_array : Z := 0xF0000000.
Definition flash_id_type : Z := 0x11118001.
Definition flash_id_maker : Z := 0x00C2001D.

Inductive pi_event :=
| PiFill (dram rom size : Z)
| OverlaysLoaded (rom_offset ram size : Z)
| FragmentsScanned (rom_offset ram size : Z)
| DmaDone (mq physical_addr size : Z).

Record pi_state (M : Type) := MkPi {
  pi_rdram : M; pi_saves : save_context; flash_mode : FlashMode; flash_status : Z; flash_pending_erase_page : Z;
  flash_write_buffer : list Z; pi_events : list pi_event }.
Arguments MkPi {M}.
Arguments pi_rdram {M}.
Arguments pi_saves {M}.
Arguments flash_mode {M}.
Arguments flash_status {M}.
Arguments flash_pending_erase_page {M}.
Arguments flash_write_buffer {M}.
Arguments pi_events {M}.

Section Pi.
Context {M : Type} `{RdramOps M}.
(** The ROM image and the configured save type. *)
Context (rom : list Z) (save_type : SaveType).

Definition set_rdram (s : pi_state M) (m : M) : pi_state M :=
  MkPi m (pi_saves s) (flash_mode s) (flash_status s) (flash_pending_erase_page s) (flash_write_buffer s) (pi_events s).
Definition set_saves (s : pi_state M) (c : save_context) : pi_state M :=
  MkPi (pi_rdram s) c (flash_mode s) (flash_status s) (flash_pending_erase_page s) (flash_write_buffer s) (pi_events s).
Definition set_mode (s : pi_state M) (m : FlashMode) : pi_state M :=
  MkPi (pi_rdram s) (pi_saves s) m (flash_status s) (flash_pending_erase_page s) (flash_write_buffer s) (pi_events s).
Definition set_status (s : pi_state M) (v : Z) : pi_state M :=
  MkPi (pi_rdram s) (pi_saves s) (flash_mode s) v (flash_pending_erase_page s) (flash_write_buffer s) (pi_events s).
Definition set_pending (s : pi_state M) (v : Z) : pi_state M :=
  MkPi (pi_rdram s) (pi_saves s) (flash_mode s) (flash_status s) v (flash_write_buffer s) (pi_events s).
Definition set_write_buffer (s : pi_state M) (b : list Z) : pi_state M :=
  MkPi (pi_rdram s) (pi_saves s) (flash_mode s) (flash_status s) (flash_pending_erase_page s) b (pi_events s).
Definition record (e : pi_event) (s : pi_state M) : pi_state M :=
  MkPi (pi_rdram s) (pi_saves s) (flash_mode s) (flash_status s) (flash_pending_erase_page s) (flash_write_buffer s)
    (pi_events s ++ [e]).

Inductive pi_result := PiOk (s : pi_state M) | PiThrow | PiFault.
Definition with_result (s : pi_state M) (r : option save_context) (f : pi_state M -> pi_state M) : pi_result :=
  match r with Some c => PiOk (f (set_saves s c)) | None => PiFault end.

(** * The ROM *)

(** [num] bytes stored from [address] on. *)
Definition store_from (f : Z -> Z) (address num : Z) (rdram : M) : M :=
  for_u32 0 num (fun i rdram => MEM_B_put (address + i) (f i) rdram) rdram.

Definition mirror_rom_to_kseg1 (rdram : M) : M :=
  store_from (fun i => s8 (byte_at rom i)) (0x80000000 - 2 ^ 32 + kKseg1RomOffset) (vec_size rom) rdram.

Definition do_rom_read (ram_address physical_addr num_bytes : Z) (rdram : M) : M :=
  let rom_off := u32 (physical_addr - rom_base) in
  if (rom_off >=? vec_size rom) || (rom_off + num_bytes >? vec_size rom)
  then store_from (fun _ => 0) ram_address num_bytes rdram
  else store_from (fun copied => s8 (byte_at rom (rom_off + copied))) ram_address num_bytes rdram.

Definition do_rom_pio (ram_address physical_addr : Z) (rdram : M) : option M :=
  let src := u32 (physical_addr - rom_base) in
  if src + 4 >? vec_size rom then None
  else Some (store_from (fun i => s8 (byte_at rom (src + i))) ram_address 4 rdram).

(** * The FlashRAM chip *)

Definition flash_region_contains (physical_addr size : Z) : bool :=
  if negb (flashram_allowed save_type) then false
  else if physical_addr <? sram_base then false
  else
    let offset := physical_addr - sram_base in
    (offset <=? flash_size) && (size <=? flash_size - offset).

Definition flash_page_offset (page_num : Z) : Z := u32 (page_num * flash_page_size).

Definition flash_program_page (page_num : Z) (s : pi_state M) : pi_result :=
  let offset := flash_page_offset page_num in
  if u32 (offset + flash_page_size) <=? flash_size
  then with_result s (save_write_ptr (flash_write_buffer s) offset flash_page_size (pi_saves s))
         (fun s => set_mode (set_status s 0x04) Status)
  else PiOk (set_mode (set_status s 0) Status).

Definition flash_erase_sector (page_num : Z) (s : pi_state M) : pi_result :=
  let sector_page := page_num / flash_pages_per_sector * flash_pages_per_sector in
  let offset := flash_page_offset sector_page in
  if u32 (offset + flash_sector_size) <=? flash_size
  then with_result s (save_clear offset flash_sector_size 0xFF (pi_saves s))
         (fun s => set_mode (set_status s 0x08) Status)
  else PiOk (set_mode (set_status s 0) Status).

Definition flash_erase_chip (s : pi_state M) : pi_result :=
  with_result s (save_clear 0 flash_size 0xFF (pi_saves s)) (fun s => set_mode (set_status s 0x08) Status).

(** * Transfers *)

Definition dma_complete (mq physical_addr size : Z) (s : pi_state M) : pi_state M :=
  record (DmaDone mq physical_addr size) s.

(** The answer of the chip in its identification mode. *)
Definition flash_id_read (rdram_address size : Z) (rdram : M) : M :=
  let rdram := if size >=? 4 then MEM_W_put rdram_address flash_id_type rdram else rdram in
  let rdram := if size >=? 8 then MEM_W_put (rdram_address + 4) flash_id_maker rdram else rdram in
  for_u32 8 size (fun i rdram => MEM_B_put (rdram_address + i) 0 rdram) rdram.

Definition save_read_result (s : pi_state M) (rdram_address offset size mq physical_addr : Z) : pi_result :=
  match save_read rdram_address offset size (pi_saves s) (pi_rdram s) with
  | Some m => PiOk (dma_complete mq physical_addr size (set_rdram s m))
  | None => PiFault
  end.

(** The page buffer after a transfer of [size] bytes to the chip. *)
Definition program_buffer (rdram_address size : Z) (rdram : M) : list Z :=
  let copy_size := Z.min size flash_page_size in
  guest_bytes rdram_address copy_size rdram ++ fill (flash_page_size - copy_size) 0xFF.

Definition dma_read (mq rdram_address physical_addr size : Z) (s : pi_state M) : pi_result :=
  if physical_addr >=? rom_base then
    let s := set_rdram s (do_rom_read rdram_address physical_addr size (pi_rdram s)) in
    let s := record (PiFill (Z.land (u32 rdram_address) 0x1FFFFFFF) physical_addr size) s in
    let rom_offset := u32 (physical_addr - rom_base) in
    let s := record (OverlaysLoaded rom_offset (s32 rdram_address) size) s in
    let s := record (FragmentsScanned rom_offset (s32 rdram_address) size) s in
    PiOk (dma_complete mq physical_addr size s)
  else if flash_region_contains physical_addr size then
    if is_mode (flash_mode s) Id
    then PiOk (dma_complete mq physical_addr size (set_rdram s (flash_id_read rdram_address size (pi_rdram s))))
    else save_read_result s rdram_address (physical_addr - sram_base) size mq physical_addr
  else if physical_addr >=? sram_base then
    if negb (sram_allowed save_type)
    then PiOk (dma_complete mq physical_addr size
                 (set_rdram s (store_from (fun _ => -1) rdram_address size (pi_rdram s))))
    else save_read_result s rdram_address (physical_addr - sram_base) size mq physical_addr
  else if physical_addr >=? drive_base then PiOk (dma_complete mq physical_addr size s)
  else PiOk s.

Definition dma_write (mq rdram_address physical_addr size : Z) (s : pi_state M) : pi_result :=
  if physical_addr >=? rom_base then PiThrow
  else if flash_region_contains physical_addr size then
    PiOk (dma_complete mq physical_addr size
      (if is_mode (flash_mode s) PageProgram
       then set_write_buffer s (program_buffer rdram_address size (pi_rdram s)) else s))
  else if physical_addr >=? sram_base then
    if negb (sram_allowed save_type) then PiOk (dma_complete mq physical_addr size s)
    else with_result s (save_write rdram_address (physical_addr - sram_base) size (pi_rdram s) (pi_saves s))
           (dma_complete mq physical_addr size)
  else if physical_addr >=? drive_base then PiOk (dma_complete mq physical_addr size s)
  else PiOk s.

Definition do_dma (mq rdram_address physical_addr size direction : Z) (s : pi_state M) : pi_result :=
  if direction =? 0 then dma_read mq rdram_address physical_addr size s
  else dma_write mq rdram_address physical_addr size s.

(** * The calls of the guest

    Registers are arguments; handles and request blocks are read from guest
    memory at the offsets of [OSPiHandle] and [OSIoMesg]. *)

Definition handle_base (handle : Z) (s : pi_state M) : Z := u32 (MEM_W (handle + 12) (pi_rdram s)).

Definition init_handle (handle kind base : Z) (s : pi_state M) : pi_state M :=
  set_rdram s (MEM_B_put (handle + 9) 0 (MEM_W_put (handle + 12) (s32 (phys_to_k1 base))
    (MEM_B_put (handle + 4) kind (pi_rdram s)))).
Definition osCartRomInit (s : pi_state M) : Z * pi_state M := (cart_handle, init_handle cart_handle 0 rom_base s).
Definition osDriveRomInit (s : pi_state M) : Z * pi_state M := (drive_handle, init_handle drive_handle 1 drive_base s).

Definition osPiStartDma (r6 r7 r29 : Z) (s : pi_state M) : pi_result :=
  let direction := u32 r6 in
  let devAddr := Z.lor (u32 r7) rom_base in
  let dramAddr := MEM_W (r29 + 0x10) (pi_rdram s) in
  let size := u32 (MEM_W (r29 + 0x14) (pi_rdram s)) in
  let mq := MEM_W (r29 + 0x18) (pi_rdram s) in
  do_dma mq dramAddr (k1_to_phys devAddr) size direction s.

Definition osEPiStartDma (r4 r5 r6 : Z) (s : pi_state M) : pi_result :=
  let direction := u32 r6 in
  let devAddr := Z.lor (handle_base r4 s) (u32 (MEM_W (r5 + 12) (pi_rdram s))) in
  let dramAddr := MEM_W (r5 + 8) (pi_rdram s) in
  let size := u32 (MEM_W (r5 + 16) (pi_rdram s)) in
  let mq := MEM_W (r5 + 4) (pi_rdram s) in
  do_dma mq dramAddr (k1_to_phys devAddr) size direction s.

Definition osEPiReadIo (r4 r5 r6 : Z) (s : pi_state M) : pi_result :=
  let devAddr := Z.lor (handle_base r4 s) (u32 r5) in
  let physical_addr := k1_to_phys devAddr in
  if physical_addr >=? rom_base then
    match do_rom_pio r6 physical_addr (pi_rdram s) with Some m => PiOk (set_rdram s m) | None => PiFault end
  else if flash_region_contains physical_addr 4 then
    let value := if is_mode (flash_mode s) Status then flash_status s
                 else if is_mode (flash_mode s) Id then flash_id_type else 0 in
    PiOk (set_rdram s (MEM_W_put r6 (s32 value) (pi_rdram s)))
  else if (physical_addr >=? 0x05000000) && (physical_addr <? 0x06000000) then
    PiOk (set_rdram s (MEM_W_put r6 0x00800000 (pi_rdram s)))
  else PiOk (set_rdram s (MEM_W_put r6 0 (pi_rdram s))).

Definition flash_command (data : Z) (s : pi_state M) : pi_result :=
  let cmd := Z.land data 0xFF000000 in
  if cmd =? flash_cmd_chip_erase then PiOk (set_mode s ChipErase)
  else if cmd =? flash_cmd_sector_erase then PiOk (set_mode (set_pending s (Z.land data 0xFFFF)) SectorErase)
  else if cmd =? flash_cmd_execute_erase then
    if is_mode (flash_mode s) ChipErase then flash_erase_chip s
    else if is_mode (flash_mode s) SectorErase then flash_erase_sector (flash_pending_erase_page s) s
    else PiOk s
  else if cmd =? flash_cmd_program_page then flash_program_page (Z.land data 0xFFFF) s
  else if cmd =? flash_cmd_page_program then PiOk (set_mode s PageProgram)
  else if cmd =? flash_cmd_status then PiOk (set_mode s Status)
  else if cmd =? flash_cmd_id then PiOk (set_mode s Id)
  else if cmd =? flash_cmd_read_array then PiOk (set_mode s ReadArray)
  else PiOk s.

Definition osEPiWriteIo (r4 r5 r6 : Z) (s : pi_state M) : pi_result :=
  let devAddr := Z.lor (handle_base r4 s) (u32 r5) in
  let physical_addr := k1_to_phys devAddr in
  let data := u32 r6 in
  if flashram_allowed save_type && (physical_addr =? sram_base + flash_cmd_reg) then flash_command data s
  else if flashram_allowed save_type && (physical_addr =? sram_base) && (data =? 0)
  then PiOk (set_mode (set_status s 0) ReadArray)
  else PiOk s.
End Pi.
Arguments pi_result : clear implicits.
Arguments PiOk {M}.
Arguments PiThrow {M}.
Arguments PiFault {M}.
