(* ===== verification/PiSpec.v ===== *)
(** What the parallel interface and the save devices promise: accesses stay in
    the buffers, writes are read back, and erasing blanks exactly its sector. *)

From S2P Require Import Prelude Bytes RspMem Rdram Save Pi.
From Stdlib Require Import ZArith Lia Bool List.
From stdpp Require Import base list gmap.
Open Scope Z_scope.

(** * Memory and the buffer *)

Section Memory.
Context {M : Type} `{RL : RdramLaws M}.

Lemma for_store_get (f : Z -> Z) address n i (rdram : M) a :
  MEM_B a (for_n n i (fun i rdram => MEM_B_put (address + i) (f i) rdram) rdram) =
  if (address + i <=? a) && (a <? address + i + Z.of_nat n) then s8 (f (a - address)) else MEM_B a rdram.
Proof.
  revert i rdram. induction n as [|n IH]; intros i rdram; cbn [for_n].
  - destruct (Z.leb_spec (address + i) a), (Z.ltb_spec a (address + i + Z.of_nat 0)); (lia || reflexivity).
  - rewrite IH, mem_b_put.
    destruct (Z.leb_spec (address + (i + 1)) a), (Z.leb_spec (address + i) a),
      (Z.ltb_spec a (address + (i + 1) + Z.of_nat n)), (Z.ltb_spec a (address + i + Z.of_nat (Datatypes.S n)));
      cbn [andb]; try lia; destruct (decide (address + i = a)); try lia; try reflexivity.
    subst a. f_equal. f_equal. lia.
Qed.
Lemma store_from_get f address num (rdram : M) a : 0 <= num ->
  MEM_B a (store_from f address num rdram) =
  if (address <=? a) && (a <? address + num) then s8 (f (a - address)) else MEM_B a rdram.
Proof.
  intros Hn. unfold store_from, for_u32. rewrite for_store_get. rewrite Z.sub_0_r, Z2Nat.id, Z.add_0_r by lia. reflexivity.
Qed.

Lemma guest_bytes_get address count (rdram : M) i : 0 <= i < count ->
  byte_at (guest_bytes address count rdram) i = u8 (MEM_B (address + i) rdram).
Proof. intros Hi. unfold guest_bytes. apply (byte_at_fmap_seqZ (fun pos => u8 (MEM_B (address + pos) rdram))). lia. Qed.
Lemma guest_bytes_size address count (rdram : M) : 0 <= count -> vec_size (guest_bytes address count rdram) = count.
Proof. apply size_fmap_seqZ. Qed.

Lemma put_bytes_spec offset bytes c : 0 <= offset -> offset + vec_size bytes <= vec_size (save_buffer c) ->
  exists c', put_bytes offset bytes c = Some c' /\ vec_size (save_buffer c') = vec_size (save_buffer c) /\
    (forall i, 0 <= i -> byte_at (save_buffer c') i =
       if (offset <=? i) && (i <? offset + vec_size bytes) then byte_at bytes (i - offset) else byte_at (save_buffer c) i).
Proof.
  intros Ho Hs. unfold put_bytes. destruct (Z.gtb_spec (offset + vec_size bytes) (vec_size (save_buffer c))); [lia|].
  eexists. split; [reflexivity|]. cbn [save_buffer]. split; [apply size_splice; assumption|].
  intros i Hi. apply byte_at_splice; assumption.
Qed.
Lemma put_bytes_size offset bytes c c' : 0 <= offset -> put_bytes offset bytes c = Some c' ->
  vec_size (save_buffer c') = vec_size (save_buffer c).
Proof.
  intros Ho. unfold put_bytes. destruct (Z.gtb_spec (offset + vec_size bytes) (vec_size (save_buffer c))); [discriminate|].
  intros [= <-]. apply size_splice; [assumption|lia].
Qed.

Lemma save_read_spec address offset count c (rdram : M) : 0 <= offset -> 0 <= count ->
  offset + count <= vec_size (save_buffer c) ->
  exists rdram', save_read address offset count c rdram = Some rdram' /\
    forall a, MEM_B a rdram' = if (address <=? a) && (a <? address + count)
                               then s8 (byte_at (save_buffer c) (offset + (a - address))) else MEM_B a rdram.
Proof.
  intros Ho Hc Hs. unfold save_read. destruct (Z.gtb_spec (offset + count) (vec_size (save_buffer c))); [lia|].
  eexists. split; [reflexivity|]. intros a.
  change (for_u32 0 count _ rdram)
    with (store_from (fun pos => s8 (byte_at (save_buffer c) (offset + pos))) address count rdram).
  rewrite store_from_get by assumption. rewrite s8_of_s8. reflexivity.
Qed.

(** A read of the ROM: its bytes, or zeroes when any of them is outside. *)
Theorem do_rom_read_contents rom ram_address physical_addr num (rdram : M) a :
  0 <= num -> rom_base <= physical_addr < 2 ^ 32 ->
  MEM_B a (do_rom_read rom ram_address physical_addr num rdram) =
  let off := physical_addr - rom_base in
  if (ram_address <=? a) && (a <? ram_address + num)
  then if off + num <=? vec_size rom then s8 (byte_at rom (off + (a - ram_address))) else 0
  else MEM_B a rdram.
Proof.
  intros Hn Hp. unfold do_rom_read. cbv zeta. rewrite u32_small by (unfold is_u32, rom_base in *; lia).
  set (off := physical_addr - rom_base). assert (0 <= off) by (unfold off; lia).
  destruct (Z.geb_spec off (vec_size rom)), (Z.gtb_spec (off + num) (vec_size rom)), (Z.leb_spec (off + num) (vec_size rom));
    cbn [orb]; try lia; rewrite store_from_get by assumption; rewrite ?s8_of_s8; try reflexivity.
  destruct (Z.leb_spec ram_address a), (Z.ltb_spec a (ram_address + num)); (reflexivity || lia).
Qed.
End Memory.

(** * The FlashRAM chip *)

Section Flash.
Context {M : Type} `{RL : RdramLaws M}.
Context (rom : list Z).

(** The buffer has the chip's size, the page buffer a page. *)
Record flash_ok (s : pi_state M) : Prop := {
  fo_size : vec_size (save_buffer (pi_saves s)) = flash_size;
  fo_page : vec_size (flash_write_buffer s) = flash_page_size;
  fo_pending : 0 <= flash_pending_erase_page s < 65536 }.

Lemma land_ffff data : 0 <= Z.land data 0xFFFF < 65536.
Proof. change 0xFFFF with (2 ^ 16 - 1). rewrite land_ones_mod by lia. apply Z.mod_pos_bound. lia. Qed.
Lemma page_offset page : 0 <= page < 65536 -> flash_page_offset page = page * 128.
Proof. intros Hp. unfold flash_page_offset, flash_page_size. apply u32_small. unfold is_u32. lia. Qed.

(** The outcome of a command that stores [bytes] at [offset], with its status bit. *)
Definition chip_done (offset : Z) (bytes : list Z) (bit : Z) (s : pi_state M) (r : pi_result M) : Prop :=
  exists s', r = PiOk s' /\ flash_ok s' /\ flash_status s' = bit /\ flash_mode s' = Status /\
    pi_rdram s' = pi_rdram s /\ flash_write_buffer s' = flash_write_buffer s /\
    forall i, 0 <= i -> byte_at (save_buffer (pi_saves s')) i =
      if (offset <=? i) && (i <? offset + vec_size bytes) then byte_at bytes (i - offset)
      else byte_at (save_buffer (pi_saves s)) i.

Lemma chip_store offset bytes bit s : flash_ok s -> 0 <= offset -> offset + vec_size bytes <= flash_size ->
  chip_done offset bytes bit s
    (with_result s (put_bytes offset bytes (pi_saves s)) (fun s => set_mode (set_status s bit) Status)).
Proof.
  intros [F1 F2 F3] Ho Hs. destruct (put_bytes_spec offset bytes (pi_saves s) Ho ltac:(lia)) as (c & E & Hc & Hb).
  unfold with_result. rewrite E. eexists. split; [reflexivity|].
  cbn. split; [constructor; cbn; lia|]. auto 10.
Qed.
Lemma chip_nothing s : flash_ok s -> chip_done 0 [] 0 s (PiOk (set_mode (set_status s 0) Status)).
Proof.
  intros [F1 F2 F3]. eexists. split; [reflexivity|]. cbn. split; [constructor; cbn; lia|]. repeat (split; [reflexivity|]).
  intros i Hi. change (vec_size []) with 0. destruct (Z.leb_spec 0 i), (Z.ltb_spec i (0 + 0)); (reflexivity || lia).
Qed.

Lemma program_page_done page s : flash_ok s -> 0 <= page < 65536 ->
  chip_done (if page <? 1024 then page * 128 else 0) (if page <? 1024 then flash_write_buffer s else [])
    (if page <? 1024 then 4 else 0) s (flash_program_page page s).
Proof.
  intros HF Hp. unfold flash_program_page. rewrite page_offset by assumption.
  rewrite u32_small by (unfold is_u32, flash_page_size; lia). pose proof (fo_page s HF) as Hw.
  unfold flash_page_size, flash_size in *.
  destruct (Z.leb_spec (page * 128 + 128) 0x20000), (Z.ltb_spec page 1024); try lia; [|apply chip_nothing; assumption].
  unfold save_write_ptr. rewrite <- Hw, slice_all. apply chip_store; [assumption|lia|rewrite Hw; unfold flash_size; lia].
Qed.
Lemma erase_sector_done page s : flash_ok s -> 0 <= page < 65536 ->
  chip_done (if page <? 1024 then page / 128 * 16384 else 0) (if page <? 1024 then fill 16384 0xFF else [])
    (if page <? 1024 then 8 else 0) s (flash_erase_sector page s).
Proof.
  intros HF Hp. unfold flash_erase_sector. rewrite page_offset by (unfold flash_pages_per_sector; zlia).
  unfold flash_pages_per_sector, flash_sector_size, flash_page_size, flash_size.
  rewrite u32_small by (unfold is_u32, flash_pages_per_sector; zlia).
  replace (page / 128 * 128 * 128) with (page / 128 * 16384) by lia.
  change (128 * flash_pages_per_sector) with 16384.
  destruct (Z.leb_spec (page / 128 * 16384 + 16384) 0x20000), (Z.ltb_spec page 1024); try zlia;
    [|apply chip_nothing; assumption].
  apply chip_store; [assumption|zlia|rewrite size_fill by lia; unfold flash_size; lia].
Qed.
Lemma erase_chip_done s : flash_ok s -> chip_done 0 (fill flash_size 0xFF) 8 s (flash_erase_chip s).
Proof.
  intros HF. apply chip_store; [assumption|lia|]. rewrite size_fill by (unfold flash_size; lia). lia.
Qed.

Lemma flash_command_ok data s : flash_ok s -> exists s', flash_command data s = PiOk s' /\ flash_ok s'.
Proof.
  intros HF. pose proof HF as [F1 F2 F3]. unfold flash_command.
  repeat (lazymatch goal with |- context [if Z.land data 0xFF000000 =? _ then _ else _] => destruct (_ =? _) end;
    [|]); try (eexists; split; [reflexivity|constructor; cbn; auto using land_ffff]).
  - destruct (is_mode _ ChipErase).
    + destruct (erase_chip_done s HF) as (s' & E & HF' & _). eauto.
    + destruct (is_mode _ SectorErase); [|eauto].
      destruct (erase_sector_done (flash_pending_erase_page s) s HF F3) as (s' & E & HF' & _). eauto.
  - destruct (program_page_done (Z.land data 0xFFFF) s HF (land_ffff data)) as (s' & E & HF' & _). eauto.
Qed.

(** ** The calls of the guest *)

Inductive pi_call :=
| PiStartDma (r6 r7 r29 : Z) | EPiStartDma (r4 r5 r6 : Z) | EPiReadIo (r4 r5 r6 : Z) | EPiWriteIo (r4 r5 r6 : Z).
Definition exec_call (t : SaveType) (c : pi_call) (s : pi_state M) : pi_result M :=
  match c with
  | PiStartDma r6 r7 r29 => osPiStartDma rom t r6 r7 r29 s
  | EPiStartDma r4 r5 r6 => osEPiStartDma rom t r4 r5 r6 s
  | EPiReadIo r4 r5 r6 => osEPiReadIo rom t r4 r5 r6 s
  | EPiWriteIo r4 r5 r6 => osEPiWriteIo t r4 r5 r6 s
  end.
Fixpoint run_calls (t : SaveType) (cs : list pi_call) (s : pi_state M) : pi_result M :=
  match cs with
  | [] => PiOk s
  | c :: cs => match exec_call t c s with PiOk s => run_calls t cs s | r => r end
  end.

(** A read of a ROM word that is not in the image. *)
Definition rom_word_outside (c : pi_call) (s : pi_state M) : Prop :=
  match c with
  | EPiReadIo r4 r5 _ =>
      let phys := k1_to_phys (Z.lor (handle_base r4 s) (u32 r5)) in
      rom_base <= phys /\ vec_size rom < phys - rom_base + 4
  | _ => False
  end.

Lemma phys_range a : 0 <= k1_to_phys a < 2 ^ 29.
Proof.
  unfold k1_to_phys. change 0x1FFFFFFF with (2 ^ 29 - 1). rewrite land_ones_mod by lia.
  apply Z.mod_pos_bound. lia.
Qed.

Lemma flash_save_read s address offset size mq phys : flash_ok s -> 0 <= offset -> 0 <= size -> offset + size <= flash_size ->
  exists m, save_read_result s address offset size mq phys = PiOk (dma_complete mq phys size (set_rdram s m)) /\
    forall a, MEM_B a m = if (address <=? a) && (a <? address + size)
      then s8 (byte_at (save_buffer (pi_saves s)) (offset + (a - address))) else MEM_B a (pi_rdram s).
Proof.
  intros HF Ho Hn Hs. unfold save_read_result.
  destruct (save_read_spec address offset size (pi_saves s) (pi_rdram s) Ho Hn) as (m & E & Hm);
    [rewrite (fo_size s HF); assumption|].
  rewrite E. exists m. auto.
Qed.

Lemma region_inside t phys size : flash_region_contains t phys size = true ->
  0 <= phys - sram_base /\ phys - sram_base + size <= flash_size.
Proof.
  unfold flash_region_contains. destruct (negb _); [discriminate|]. destruct (Z.ltb_spec phys sram_base); [discriminate|].
  intros Hb. apply andb_true_iff in Hb as [_ Hb]. apply Z.leb_le in Hb. lia.
Qed.

Lemma flash_ok_same s s' : flash_ok s -> pi_saves s' = pi_saves s -> flash_write_buffer s' = flash_write_buffer s ->
  flash_pending_erase_page s' = flash_pending_erase_page s -> flash_ok s'.
Proof. intros [F1 F2 F3] E1 E2 E3. constructor; congruence. Qed.

Lemma program_buffer_size address size (m : M) : 0 <= size -> vec_size (program_buffer address size m) = flash_page_size.
Proof.
  intros Hs. unfold program_buffer, flash_page_size. unfold vec_size. rewrite length_app.
  pose proof (guest_bytes_size address (Z.min size 128) m ltac:(lia)) as E1.
  pose proof (size_fill (128 - Z.min size 128) 255 ltac:(lia)) as E2. unfold vec_size in E1, E2. lia.
Qed.

Lemma do_dma_ok mq address phys size direction s : flash_ok s -> 0 <= size ->
  match do_dma rom Flashram mq address phys size direction s with
  | PiOk s' => flash_ok s' | PiThrow => direction <> 0 | PiFault => False end.
Proof.
  intros HF Hn. unfold do_dma. destruct (Z.eqb_spec direction 0) as [_|Nd].
  - unfold dma_read. destruct (_ >=? rom_base); [apply (flash_ok_same s); auto|].
    destruct (flash_region_contains _ _ _) eqn:ER.
    + destruct (is_mode _ Id); [apply (flash_ok_same s); auto|]. apply region_inside in ER as [R1 R2].
      destruct (flash_save_read s address (phys - sram_base) size mq phys HF R1 Hn R2) as (m & -> & _).
      apply (flash_ok_same s); auto.
    + destruct (_ >=? sram_base); [apply (flash_ok_same s); auto|].
      destruct (_ >=? drive_base); apply (flash_ok_same s); auto.
  - unfold dma_write. destruct (_ >=? rom_base); [assumption|].
    destruct (flash_region_contains _ _ _).
    + destruct (is_mode _ PageProgram); [|apply (flash_ok_same s); auto].
      destruct HF as [F1 F2 F3]. constructor; cbn; auto using program_buffer_size.
    + destruct (_ >=? sram_base); [apply (flash_ok_same s); auto|].
      destruct (_ >=? drive_base); apply (flash_ok_same s); auto.
Qed.

Lemma exec_call_ok c s : flash_ok s ->
  match exec_call Flashram c s with
  | PiOk s' => flash_ok s' | PiThrow => True | PiFault => rom_word_outside c s end.
Proof.
  intros HF. destruct c as [r6 r7 r29|r4 r5 r6|r4 r5 r6|r4 r5 r6]; cbn [exec_call rom_word_outside].
  - unfold osPiStartDma. cbv zeta. pose proof (u32_range (MEM_W (r29 + 20) (pi_rdram s))) as Hs. unfold is_u32 in Hs.
    match goal with |- context [do_dma rom Flashram ?mq ?a ?p ?n ?d s] =>
      pose proof (do_dma_ok mq a p n d s HF ltac:(lia)) as Hd; destruct (do_dma rom Flashram mq a p n d s); auto; contradiction end.
  - unfold osEPiStartDma. cbv zeta. pose proof (u32_range (MEM_W (r5 + 16) (pi_rdram s))) as Hs. unfold is_u32 in Hs.
    match goal with |- context [do_dma rom Flashram ?mq ?a ?p ?n ?d s] =>
      pose proof (do_dma_ok mq a p n d s HF ltac:(lia)) as Hd; destruct (do_dma rom Flashram mq a p n d s); auto; contradiction end.
  - unfold osEPiReadIo. cbv zeta. set (phys := k1_to_phys _).
    pose proof (phys_range (Z.lor (handle_base r4 s) (u32 r5))) as Hp. fold phys in Hp.
    destruct (Z.geb_spec phys rom_base) as [Hr|Hr].
    + unfold do_rom_pio. rewrite u32_small by (unfold is_u32, rom_base in *; lia).
      destruct (Z.gtb_spec (phys - rom_base + 4) (vec_size rom)); [cbn; lia|apply (flash_ok_same s); auto].
    + destruct (flash_region_contains _ _ _); [apply (flash_ok_same s); auto|].
      destruct (_ && _); apply (flash_ok_same s); auto.
  - unfold osEPiWriteIo. cbv zeta. destruct (_ && (_ =? _ + _)).
    + destruct (flash_command_ok (u32 r6) s HF) as (s' & -> & HF'). assumption.
    + destruct (_ && (_ =? 0)); apply (flash_ok_same s); auto.
Qed.

(** C39: With FlashRAM configured, no sequence of PI calls touches the save buffer or the
    page buffer out of range: only reading a ROM word past the image does. *)
Theorem flash_calls_stay_inside cs s : flash_ok s ->
  match run_calls Flashram cs s with
  | PiOk s' => flash_ok s'
  | PiThrow => True
  | PiFault => exists done c rest s', cs = done ++ c :: rest /\ run_calls Flashram done s = PiOk s' /\ rom_word_outside c s'
  end.
Proof.
  revert s. induction cs as [|c cs IH]; intros s HF; cbn [run_calls]; [assumption|].
  pose proof (exec_call_ok c s HF) as Hc. destruct (exec_call Flashram c s) as [s1| |] eqn:E; [|exact I|].
  - specialize (IH s1 Hc). destruct (run_calls Flashram cs s1); auto.
    destruct IH as (done & c' & rest & s' & -> & E2 & Hr). exists (c :: done), c', rest, s'.
    split; [reflexivity|]. split; [cbn [run_calls]; rewrite E; exact E2|exact Hr].
  - exists [], c, cs, s. auto.
Qed.
(** ** Programming and erasing *)

Definition pi_bind (r : pi_result M) (k : pi_state M -> pi_result M) : pi_result M :=
  match r with PiOk s => k s | r => r end.

(** A write of [data] to the command register through the handle [h]. *)
Definition send_command (h data : Z) (s : pi_state M) : pi_result M := osEPiWriteIo Flashram h flash_cmd_reg data s.
Definition program_calls (h mq src page : Z) (s : pi_state M) : pi_result M :=
  pi_bind (send_command h flash_cmd_page_program s) (fun s =>
  pi_bind (do_dma rom Flashram mq src sram_base flash_page_size 1 s) (fun s =>
  pi_bind (send_command h (flash_cmd_program_page + page) s) (send_command h flash_cmd_read_array))).
Definition erase_calls (h page : Z) (s : pi_state M) : pi_result M :=
  pi_bind (send_command h (flash_cmd_sector_erase + page) s) (send_command h flash_cmd_execute_erase).

Lemma send_command_is h data s : handle_base h s = phys_to_k1 sram_base -> 0 <= data < 2 ^ 32 ->
  send_command h data s = flash_command data s.
Proof.
  intros Hh Hd. unfold send_command, osEPiWriteIo. rewrite Hh, (u32_small data) by (unfold is_u32; lia). reflexivity.
Qed.
Lemma command_split c page : 0 <= page < 65536 -> Z.land c 0xFFFFFF = 0 ->
  Z.land (c + page) 0xFF000000 = Z.land c 0xFF000000 /\ Z.land (c + page) 0xFFFF = page.
Proof.
  intros Hp Hc.
  assert (Hb : forall i, 0 <= i < 24 -> Z.testbit c i = false).
  { intros i Hi. apply (f_equal (fun z => Z.testbit z i)) in Hc. rewrite Z.land_spec, Z.bits_0 in Hc.
    change 0xFFFFFF with (Z.ones 24) in Hc. rewrite Z.ones_spec_low in Hc by lia. rewrite andb_true_r in Hc. exact Hc. }
  assert (Hh : forall i, 16 <= i -> Z.testbit page i = false).
  { intros i Hi. apply (Z.bits_above_log2 page i); [lia|].
    destruct (Z.eq_dec page 0) as [->|N]; [cbn; lia|]. apply Z.log2_lt_pow2; [lia|].
    apply Z.lt_le_trans with (2 ^ 16); [lia|]. apply Z.pow_le_mono_r; lia. }
  assert (E : c + page = Z.lor c page).
  { rewrite <- Z.lxor_lor, Z.add_nocarry_lxor; [reflexivity| |];
    apply Z.bits_inj'; intros i Hi; rewrite Z.land_spec, Z.bits_0;
    destruct (Z.lt_ge_cases i 24); rewrite ?(Hb i), ?(Hh i), ?andb_false_r by lia; reflexivity. }
  rewrite E, !Z.land_lor_distr_l. split.
  - rewrite (Z.bits_inj' (Z.land page 0xFF000000) 0); [apply Z.lor_0_r|]. intros i Hi. rewrite Z.land_spec, Z.bits_0.
    destruct (Z.lt_ge_cases i 16); [|rewrite Hh by lia; reflexivity].
    change 0xFF000000 with (Z.shiftl 0xFF 24). rewrite Z.shiftl_spec_low, andb_false_r by lia. reflexivity.
  - rewrite (Z.bits_inj' (Z.land c 0xFFFF) 0).
    + rewrite Z.lor_0_l. change 0xFFFF with (2 ^ 16 - 1). rewrite land_ones_mod by lia. apply Z.mod_small. lia.
    + intros i Hi. rewrite Z.land_spec, Z.bits_0. destruct (Z.lt_ge_cases i 24); [rewrite Hb by lia; reflexivity|].
      change 0xFFFF with (Z.ones 16). rewrite Z.ones_spec_high, andb_false_r by lia. reflexivity.
Qed.

(** Programming a page through the command register and a DMA, then reading any part of the chip by DMA, gives the programmed bytes on that page and the old ones elsewhere. *)
Theorem flash_program_roundtrip h mq src page s :
  flash_ok s -> handle_base h s = phys_to_k1 sram_base -> 0 <= page < 1024 ->
  exists s', program_calls h mq src page s = PiOk s' /\ flash_ok s' /\ pi_rdram s' = pi_rdram s /\
    (forall i, 0 <= i -> byte_at (save_buffer (pi_saves s')) i =
       if (page * 128 <=? i) && (i <? page * 128 + 128)
       then u8 (MEM_B (src + (i - page * 128)) (pi_rdram s)) else byte_at (save_buffer (pi_saves s)) i) /\
    (forall dst off n, 0 <= off -> 0 <= n -> off + n <= flash_size ->
       exists s'', do_dma rom Flashram mq dst (sram_base + off) n 0 s' = PiOk s'' /\
         forall a, MEM_B a (pi_rdram s'') = if (dst <=? a) && (a <? dst + n)
           then s8 (byte_at (save_buffer (pi_saves s')) (off + (a - dst))) else MEM_B a (pi_rdram s)).
Proof.
  intros HF Hh Hp. unfold program_calls.
  rewrite send_command_is by (unfold flash_cmd_page_program; (assumption || lia)). cbn [pi_bind].
  change (flash_command flash_cmd_page_program s) with (PiOk (set_mode s PageProgram)). cbn [pi_bind].
  unfold do_dma at 1. change (1 =? 0) with false. cbv iota. unfold dma_write.
  change (sram_base >=? rom_base) with false. change (flash_region_contains Flashram sram_base flash_page_size) with true.
  cbv iota. cbn [flash_mode set_mode]. change (is_mode PageProgram PageProgram) with true. cbv iota. cbn [pi_bind].
  set (s1 := dma_complete _ _ _ _). cbn [pi_rdram set_mode] in s1.
  assert (HF1 : flash_ok s1).
  { destruct HF as [F1 F2 F3]. constructor; [exact F1|apply program_buffer_size; unfold flash_page_size; lia|exact F3]. }
  rewrite send_command_is by (unfold flash_cmd_program_page; (exact Hh || lia)).
  destruct (command_split flash_cmd_program_page page ltac:(lia) eq_refl) as [C1 C2].
  assert (E : flash_command (flash_cmd_program_page + page) s1 = flash_program_page page s1).
  { unfold flash_command. rewrite C1, C2. reflexivity. }
  rewrite E. clear E.
  destruct (program_page_done page s1 HF1 ltac:(lia)) as (s2 & -> & HF2 & Hs2 & _ & Hm2 & _ & Hb).
  destruct (Z.ltb_spec page 1024) as [_|]; [|lia]. cbn [pi_bind].
  rewrite send_command_is by (unfold handle_base, flash_cmd_read_array; rewrite ?Hm2; (exact Hh || lia)).
  change (flash_command flash_cmd_read_array s2) with (PiOk (set_mode s2 ReadArray)).
  eexists. split; [reflexivity|]. split; [apply (flash_ok_same s2); auto|]. split; [exact Hm2|]. split.
  - intros i Hi. cbn [pi_saves set_mode]. rewrite (Hb i Hi). cbn.
    rewrite program_buffer_size by (unfold flash_page_size; lia). change flash_page_size with 128.
    destruct (Z.leb_spec (page * 128) i), (Z.ltb_spec i (page * 128 + 128)); cbn [andb]; try reflexivity.
    unfold program_buffer. change (flash_page_size - Z.min 128 flash_page_size) with 0.
    change (Z.min 128 flash_page_size) with 128. change (fill 0 255) with (@nil Z). rewrite app_nil_r.
    apply guest_bytes_get. lia.
  - intros dst off n Ho Hn Hs. set (s3 := set_mode s2 ReadArray).
    assert (HF3 : flash_ok s3) by (apply (flash_ok_same s2); auto).
    unfold do_dma, dma_read. change (0 =? 0) with true. cbv iota.
    unfold flash_size, sram_base, rom_base in *. destruct (Z.geb_spec (0x08000000 + off) 0x10000000); [lia|].
    unfold flash_region_contains, sram_base, flash_size. cbn [negb flashram_allowed].
    destruct (Z.ltb_spec (0x08000000 + off) 0x08000000); [lia|].
    replace (0x08000000 + off - 0x08000000) with off by lia.
    destruct (Z.leb_spec off 0x20000); [|lia]. destruct (Z.leb_spec n (0x20000 - off)); [|lia]. cbn [andb].
    change (is_mode (flash_mode s3) Id) with false. cbv iota.
    destruct (flash_save_read s3 dst off n mq (0x08000000 + off) HF3 Ho Hn Hs) as (m & -> & Hm).
    eexists. split; [reflexivity|]. intros a. cbn. rewrite Hm. cbn. rewrite Hm2. reflexivity.
Qed.

Theorem flash_sector_erase_blanks h page s :
  flash_ok s -> handle_base h s = phys_to_k1 sram_base -> 0 <= page < 65536 ->
  exists s', erase_calls h page s = PiOk s' /\ flash_ok s' /\ pi_rdram s' = pi_rdram s /\
    flash_status s' = (if page <? 1024 then 0x08 else 0) /\
    forall i, 0 <= i -> byte_at (save_buffer (pi_saves s')) i =
      if (page <? 1024) && (i / 16384 =? page / 128) then 0xFF else byte_at (save_buffer (pi_saves s)) i.
Proof.
  intros HF Hh Hp. unfold erase_calls.
  rewrite send_command_is by (unfold flash_cmd_sector_erase; (exact Hh || lia)).
  destruct (command_split flash_cmd_sector_erase page Hp eq_refl) as [C1 C2].
  assert (E : flash_command (flash_cmd_sector_erase + page) s = PiOk (set_mode (set_pending s page) SectorErase)).
  { unfold flash_command. rewrite C1, C2. reflexivity. }
  rewrite E. clear E. cbn [pi_bind]. set (s1 := set_mode _ _).
  assert (HF1 : flash_ok s1) by (destruct HF as [F1 F2 F3]; constructor; (assumption || exact Hp)).
  rewrite send_command_is by (unfold flash_cmd_execute_erase; (exact Hh || lia)).
  change (flash_command flash_cmd_execute_erase s1) with (flash_erase_sector page s1).
  destruct (erase_sector_done page s1 HF1 Hp) as (s2 & -> & HF2 & Hs2 & _ & Hm2 & _ & Hb).
  exists s2. split; [reflexivity|]. split; [exact HF2|]. split; [exact Hm2|]. split; [exact Hs2|].
  intros i Hi. rewrite (Hb i Hi). cbn [pi_saves set_mode set_pending s1]. destruct (page <? 1024); cbn [andb].
  - rewrite size_fill by lia. destruct (Z.leb_spec (page / 128 * 16384) i), (Z.ltb_spec i (page / 128 * 16384 + 16384)),
      (Z.eqb_spec (i / 16384) (page / 128)); cbn [andb]; try reflexivity; try zlia. apply byte_at_fill. lia.
  - change (vec_size []) with 0. destruct (Z.leb_spec 0 i), (Z.ltb_spec i (0 + 0)); (reflexivity || lia).
Qed.
End Flash.

(** * The EEPROM *)

Section Eeprom.
Context {M : Type} `{RL : RdramLaws M}.

Lemma block_offset block : eeprom_byte_offset block = u8 block * 8 /\ 0 <= u8 block < 256.
Proof.
  pose proof (u8_range block) as Hb. unfold is_u8 in Hb. split; [|lia].
  unfold eeprom_byte_offset, eeprom_block_size. apply u32_small. unfold is_u32. lia.
Qed.

Theorem eeprom_block_roundtrip t block src dst (rdram rdram' : M) c :
  eeprom_allowed t = true -> vec_size (save_buffer c) = get_save_size t -> u8 block * 8 + 8 <= get_save_size t ->
  exists c' rdram'', osEepromWrite t block src rdram c = SaveOk _ 0 c' /\
    osEepromRead t block dst c' rdram' = SaveOk _ 0 rdram'' /\
    vec_size (save_buffer c') = get_save_size t /\
    (forall i, 0 <= i -> ~ u8 block * 8 <= i < u8 block * 8 + 8 ->
       byte_at (save_buffer c') i = byte_at (save_buffer c) i) /\
    (forall a, MEM_B a rdram'' = if (dst <=? a) && (a <? dst + 8) then s8 (MEM_B (src + (a - dst)) rdram) else MEM_B a rdram').
Proof.
  intros Ht Hc Hb. destruct (block_offset block) as [Eo Hr].
  unfold osEepromWrite, osEepromRead, require_eeprom_save. rewrite Ht, Eo.
  unfold save_write, eeprom_block_size.
  pose proof (guest_bytes_size src 8 rdram ltac:(lia)) as Hg.
  destruct (put_bytes_spec (u8 block * 8) (guest_bytes src 8 rdram) c ltac:(lia)) as (c' & E & Hs & Hget);
    [rewrite Hg, Hc; exact Hb|].
  rewrite E. destruct (save_read_spec dst (u8 block * 8) 8 c' rdram' ltac:(lia) ltac:(lia)) as (m & Em & Hm);
    [rewrite Hs, Hc; exact Hb|].
  exists c', m. cbn [checked]. rewrite Em. cbn [checked]. repeat (split; [reflexivity||lia|]). split.
  - intros i Hi Ho. rewrite (Hget i Hi), Hg.
    destruct (Z.leb_spec (u8 block * 8) i), (Z.ltb_spec i (u8 block * 8 + 8)); (reflexivity || lia).
  - intros a. rewrite Hm. destruct (Z.leb_spec dst a), (Z.ltb_spec a (dst + 8)); cbn [andb]; try reflexivity.
    rewrite Hget, Hg by lia.
    destruct (Z.leb_spec (u8 block * 8) (u8 block * 8 + (a - dst))),
      (Z.ltb_spec (u8 block * 8 + (a - dst)) (u8 block * 8 + 8)); try lia. cbn [andb].
    rewrite guest_bytes_get by lia. rewrite s8_u8. replace (u8 block * 8 + (a - dst) - u8 block * 8) with (a - dst) by lia.
    reflexivity.
Qed.

(** Which block numbers a call may name, by the chip the game is configured with. *)
Theorem eeprom_block_bounds t block src (rdram : M) c :
  vec_size (save_buffer c) = get_save_size t ->
  osEepromWrite t block src rdram c =
  match t with
  | Eep4k => if u8 block <? 64 then checked 0 (save_write src (u8 block * 8) 8 rdram c) else SaveFault _
  | Eep16k | AllowAll => checked 0 (save_write src (u8 block * 8) 8 rdram c)
  | _ => WrongType _
  end /\
  (osEepromWrite t block src rdram c = SaveFault _ <-> t = Eep4k /\ 64 <= u8 block).
Proof.
  intros Hc. destruct (block_offset block) as [Eo Hr]. unfold osEepromWrite, require_eeprom_save. rewrite Eo.
  unfold save_write, eeprom_block_size, put_bytes. rewrite guest_bytes_size, Hc by lia.
  destruct t; cbn [eeprom_allowed get_save_size];
    try (split; [reflexivity|split; [discriminate|intros [? _]; discriminate]]).
  - destruct (Z.gtb_spec (u8 block * 8 + 8) 512), (Z.ltb_spec (u8 block) 64); try lia; cbn [checked];
      (split; [reflexivity|]); (split; [|]); try discriminate; intros; try lia; auto.
  - destruct (Z.gtb_spec (u8 block * 8 + 8) 2048); [lia|]. split; [reflexivity|].
    split; [discriminate|intros [? _]; discriminate].
  - destruct (Z.gtb_spec (u8 block * 8 + 8) 0x20000); [lia|]. split; [reflexivity|].
    split; [discriminate|intros [? _]; discriminate].
Qed.
End Eeprom.
