(* ===== verification/Files.v ===== *)
(** Files with a backup: librecomp/src/files.cpp, and the save file of
    librecomp/src/pi.cpp that is read and written through it.

    The disk maps paths to contents.  A call to the file system is the list of
    the single operations it performs, so that the state after a crash is the
    state after a prefix of them: a file is emptied when it is opened for
    writing and grows one byte at a time.  Failing calls are explicit: each may
    stop after some of its operations. *)

From S2P Require Import Prelude Bytes RspMem Rdram Save.
From Stdlib Require Import ZArith Lia Bool List.
From stdpp Require Import base list gmap strings.
Open Scope Z_scope.

Abbreviation disk := (gmap string (list Z)).
Definition with_backup (filepath : string) : string := (filepath +:+ ".bak").
Definition with_temp (filepath : string) : string := (filepath +:+ ".temp").

Inductive disk_op := Truncate (p : string) | Append (p : string) (b : Z) | Remove (p : string).

Definition contents (d : disk) (p : string) : list Z := default [] (d !! p).
Definition apply_op (d : disk) (o : disk_op) : disk :=
  match o with
  | Truncate p => <[p := []]> d
  | Append p b => <[p := contents d p ++ [b]]> d
  | Remove p => delete p d
  end.
Definition run_ops (ops : list disk_op) (d : disk) : disk := foldl apply_op d ops.

(** A program on the disk: its result and the operations it performs. *)
Definition io (A : Type) : Type := disk -> A * list disk_op.
Definition ret {A} (a : A) : io A := fun _ => (a, []).
Definition bind {A B} (m : io A) (k : A -> io B) : io B :=
  fun d => let '(a, o) := m d in let '(b, o') := k a (run_ops o d) in (b, o ++ o').
Definition tell (ops : list disk_op) : io unit := fun _ => (tt, ops).
Definition final {A} (m : io A) (d : disk) : disk := run_ops (snd (m d)) d.
Declare Scope io_scope.
Delimit Scope io_scope with io.
Notation "'let*' x := m 'in' k" := (bind m (fun x => k))
  (at level 10, x name, m at level 100, k at level 200, only parsing) : io_scope.
Open Scope io_scope.

Definition exists_file (p : string) : io bool := fun d => (bool_decide (is_Some (d !! p)), []).

(** Writing [bytes] to a file opened for output, up to a failure. *)
Definition write_ops (p : string) (bytes : list Z) : list disk_op := Truncate p :: (Append p <$> bytes).
Definition upto (limit : option nat) {A} (l : list A) : list A := match limit with Some n => take n l | None => l end.
(** [copy_file] with [overwrite_existing]; [false] when it reports an error. *)
Definition copy_file (limit : option nat) (src dst : string) : io bool := fun d =>
  match d !! src with
  | None => (false, [])
  | Some bytes => (bool_decide (limit = None), upto limit (write_ops dst bytes))
  end.

(** Where the calls of an update fail. *)
Record io_faults := IoFaults { open_fails : bool; write_stops : option nat; backup_stops : option nat; copy_stops : option nat }.
Definition no_faults : io_faults := IoFaults false None None None.

(** * files.cpp *)

Definition open_input_backup_file (filepath : string) (d : disk) : option (list Z) := d !! with_backup filepath.
Definition open_input_file_with_backup (filepath : string) (d : disk) : option (list Z) :=
  match d !! filepath with
  | Some bytes => Some bytes
  | None => open_input_backup_file filepath d
  end.
(** [false]: the stream is not good. *)
Definition open_output_file_with_backup (faults : io_faults) (filepath : string) : io bool :=
  if open_fails faults then ret false
  else let* _ := tell [Truncate (with_temp filepath)] in ret true.

Definition finalize_output_file_with_backup (faults : io_faults) (filepath : string) : io bool :=
  let* present := exists_file filepath in
  let* backed := (if (present : bool) then copy_file (backup_stops faults) filepath (with_backup filepath) else ret true) in
  if negb backed then ret false
  else
    let* copied := copy_file (copy_stops faults) (with_temp filepath) filepath in
    if negb copied then ret false
    else let* _ := tell [Remove (with_temp filepath)] in ret true.

(** * The save file *)

(** [false] is the message box.  What the stream's [write] reports is not looked at. *)
Definition update_save_file (faults : io_faults) (save_file_path : string) (buffer : list Z) : io bool :=
  let* good := open_output_file_with_backup faults save_file_path in
  if negb good then ret false
  else
    let* _ := tell (Append (with_temp save_file_path) <$> upto (write_stops faults) buffer) in
    finalize_output_file_with_backup faults save_file_path.

Definition blank_value (t : SaveType) : Z := if bool_decide (t = Flashram) then 0xFF else 0.
(** The buffer after [read_save_file], of the given size. *)
Definition read_save_file (t : SaveType) (size : Z) (save_file_path : string) (d : disk) : list Z :=
  let buffer := fill size (blank_value t) in
  match open_input_file_with_backup save_file_path d with
  | Some bytes => splice 0 (slice 0 size bytes) buffer
  | None => buffer
  end.

(** * Lemmas *)

Lemma bind_fst {A B} (m : io A) (k : A -> io B) d : fst (bind m k d) = fst (k (fst (m d)) (final m d)).
Proof. unfold bind, final. destruct (m d) as [a o]. cbn [fst snd]. destruct (k a (run_ops o d)). reflexivity. Qed.
Lemma bind_snd {A B} (m : io A) (k : A -> io B) d : snd (bind m k d) = snd (m d) ++ snd (k (fst (m d)) (final m d)).
Proof. unfold bind, final. destruct (m d) as [a o]. cbn [fst snd]. destruct (k a (run_ops o d)). reflexivity. Qed.

Lemma length_append p s : String.length (p +:+ s) = (String.length p + String.length s)%nat.
Proof.
  induction p as [|c p IH]; [reflexivity|].
  change (S (String.length (p +:+ s)) = S (String.length p + String.length s))%nat. rewrite IH. reflexivity.
Qed.
Lemma append_ne p s : s <> EmptyString -> (p +:+ s) <> p.
Proof.
  intros Hs E. apply (f_equal String.length) in E. rewrite length_append in E. destruct s; [contradiction|].
  cbn [String.length] in E. lia.
Qed.
Lemma backup_ne_path p : with_backup p <> p.
Proof. apply append_ne. discriminate. Qed.
Lemma temp_ne_path p : with_temp p <> p.
Proof. apply append_ne. discriminate. Qed.
Lemma temp_ne_backup p : with_temp p <> with_backup p.
Proof.
  intros E. apply (f_equal String.length) in E. unfold with_temp, with_backup in E. rewrite !length_append in E.
  cbn in E. lia.
Qed.
Create HintDb disk.
#[export] Hint Resolve backup_ne_path temp_ne_path temp_ne_backup not_eq_sym : disk.

Lemma run_ops_app o o' d : run_ops (o ++ o') d = run_ops o' (run_ops o d).
Proof. apply foldl_app. Qed.

(** The file an operation touches. *)
Definition target (o : disk_op) : string := match o with Truncate p | Append p _ | Remove p => p end.
Lemma run_ops_other ops d q : (forall o, o ∈ ops -> target o <> q) -> run_ops ops d !! q = d !! q.
Proof.
  revert d. induction ops as [|o ops IH]; intros d Ho; [reflexivity|]. cbn [run_ops foldl].
  change (run_ops ops (apply_op d o) !! q = d !! q).
  rewrite IH by (intros o' Ho'; apply Ho; right; exact Ho').
  pose proof (Ho o ltac:(left)) as Hq. destruct o; cbn in *; (rewrite lookup_insert_ne || rewrite lookup_delete_ne); auto.
Qed.
Lemma target_appends p (bytes : list Z) o : o ∈ (Append p <$> bytes) -> target o = p.
Proof. rewrite list_elem_of_fmap. intros (b & -> & _). reflexivity. Qed.
Lemma target_writes p (bytes : list Z) o : o ∈ write_ops p bytes -> target o = p.
Proof. unfold write_ops. rewrite elem_of_cons. intros [->|Ho]; [reflexivity|exact (target_appends _ _ _ Ho)]. Qed.

Lemma run_appends p bytes d : is_Some (d !! p) ->
  run_ops (Append p <$> bytes) d !! p = Some (contents d p ++ bytes).
Proof.
  revert d. induction bytes as [|b bytes IH]; intros d [l Hl].
  - cbn. unfold contents. rewrite Hl, app_nil_r. reflexivity.
  - cbn [fmap list_fmap run_ops foldl]. change (foldl apply_op ?x ?l) with (run_ops l x).
    rewrite IH by (cbn; rewrite lookup_insert_eq; eauto). unfold contents at 1. cbn.
    rewrite lookup_insert_eq. cbn. rewrite <- app_assoc. reflexivity.
Qed.
Lemma run_writes p bytes d : run_ops (write_ops p bytes) d !! p = Some bytes.
Proof.
  unfold write_ops. cbn [run_ops foldl]. change (foldl apply_op ?x ?l) with (run_ops l x).
  rewrite run_appends by (cbn; rewrite lookup_insert_eq; eauto). unfold contents. cbn. rewrite lookup_insert_eq. reflexivity.
Qed.

(** [P] holds at every crash point of [ops]. *)
Definition always (P : disk -> Prop) (ops : list disk_op) (d : disk) : Prop := forall n, P (run_ops (take n ops) d).
Lemma always_app (P : disk -> Prop) a b d : always P a d -> always P b (run_ops a d) -> always P (a ++ b) d.
Proof.
  intros Ha Hb n. rewrite take_app. destruct (decide (n <= length a)%nat) as [Hn|Hn].
  - replace (n - length a)%nat with 0%nat by lia. rewrite take_0, app_nil_r. apply Ha.
  - rewrite take_ge by lia. rewrite run_ops_app. apply Hb.
Qed.
Lemma always_nil (P : disk -> Prop) d : P d -> always P [] d.
Proof. intros HP n. rewrite take_nil. exact HP. Qed.
Lemma always_other (P : disk -> Prop) ops d q : (forall o, o ∈ ops -> target o = q) ->
  (forall d', (forall p, p <> q -> d' !! p = d !! p) -> P d') -> always P ops d.
Proof.
  intros Ho HP n. apply HP. intros p Hp. apply run_ops_other. intros o Hin. rewrite (Ho o); [auto|].
  rewrite <- (take_drop n ops). apply elem_of_app. left. exact Hin.
Qed.
Lemma upto_elem {A} limit (l : list A) x : x ∈ upto limit l -> x ∈ l.
Proof. destruct limit as [n|]; cbn; [|auto]. intros Hx. rewrite <- (take_drop n l). apply elem_of_app. left. exact Hx. Qed.
(** Growing a file passes through its prefixes. *)
Lemma take_writes p bytes n d : n = 0%nat \/ run_ops (take n (write_ops p bytes)) d !! p = Some (take (pred n) bytes).
Proof.
  destruct n as [|n]; [left; reflexivity|right]. cbn [take write_ops pred]. rewrite <- fmap_take.
  change (run_ops (write_ops p (take n bytes)) d !! p = Some (take n bytes)). apply run_writes.
Qed.
Lemma take_upto {A} n limit (l : list A) : exists k, take n (upto limit l) = take k l.
Proof. destruct limit as [m|]; cbn; [exists (n `min` m)%nat; apply take_take|eauto]. Qed.
Lemma always_bind {A B} (P : disk -> Prop) (m : io A) (k : A -> io B) d : always P (snd (m d)) d ->
  always P (snd (k (fst (m d)) (final m d))) (final m d) -> always P (snd (bind m k d)) d.
Proof. rewrite bind_snd. apply always_app. Qed.
(** The result of a program and the disk after it. *)
Definition run_io {A} (m : io A) (d : disk) : A * disk := (fst (m d), final m d).
Lemma run_bind {A B} (m : io A) (k : A -> io B) d : run_io (bind m k) d = run_io (k (fst (run_io m d))) (snd (run_io m d)).
Proof.
  unfold run_io. cbn [fst snd]. rewrite bind_fst. unfold final at 2. rewrite bind_snd, run_ops_app. reflexivity.
Qed.
Lemma copy_file_is limit src dst (bytes : list Z) (d : disk) : d !! src = Some bytes ->
  copy_file limit src dst d = (bool_decide (limit = None), upto limit (write_ops dst bytes)).
Proof. intros Hs. unfold copy_file. rewrite Hs. reflexivity. Qed.
Lemma run_copy src dst (bytes : list Z) (d : disk) : d !! src = Some bytes ->
  run_io (copy_file None src dst) d = (true, run_ops (write_ops dst bytes) d).
Proof. intros Hs. unfold run_io, final. rewrite (copy_file_is _ _ _ bytes d Hs). reflexivity. Qed.
