(* ===== verification/FilesSpec.v ===== *)
(** What saving with a backup promises: an update that is not disturbed
    replaces the file and keeps the old one as the backup; one that crashes or
    fails leaves the old contents in the file or in its backup. *)

From S2P Require Import Prelude Bytes RspMem Rdram Save Files.
From Stdlib Require Import ZArith Lia Bool List.
From stdpp Require Import base list gmap strings.
Open Scope Z_scope.

(** The old contents are in the file, or in its backup while the file holds a
    prefix of the new ones. *)
Definition old_or_backed_up (p : string) (old new : list Z) (d : disk) : Prop :=
  d !! p = Some old \/ (d !! with_backup p = Some old /\ exists n, d !! p = Some (take n new)).

(** The file and the one it is copied to, along the operations of a copy. *)
Lemma backup_always p old new limit d : d !! p = Some old ->
  always (old_or_backed_up p old new) (upto limit (write_ops (with_backup p) old)) d.
Proof.
  intros Hp. apply always_other with (with_backup p).
  - intros o Ho. apply (target_writes _ old). eauto using upto_elem.
  - intros d' E. left. rewrite E; auto with disk.
Qed.
Lemma copy_always p old new limit d : d !! p = Some old -> d !! with_backup p = Some old ->
  always (old_or_backed_up p old new) (upto limit (write_ops p new)) d.
Proof.
  intros Hp Hb n. destruct (take_upto n limit (write_ops p new)) as [k ->].
  destruct (take_writes p new k d) as [->|E]; [left; exact Hp|]. right. split; [|eauto].
  rewrite run_ops_other; [exact Hb|]. intros o Ho. rewrite (target_writes p new o); [auto with disk|].
  rewrite <- (take_drop k (write_ops p new)). apply elem_of_app. auto.
Qed.
Lemma remove_always p old new d : old_or_backed_up p old new d ->
  always (old_or_backed_up p old new) [Remove (with_temp p)] d.
Proof.
  intros Hd. apply always_other with (with_temp p); [intros o Ho; apply list_elem_of_singleton in Ho as ->; reflexivity|].
  intros d' E. unfold old_or_backed_up in *. rewrite !E by auto with disk. exact Hd.
Qed.
Lemma always_end (P : disk -> Prop) ops d : always P ops d -> P (run_ops ops d).
Proof. intros H. specialize (H (length ops)). rewrite take_ge in H by lia. exact H. Qed.

Lemma run_backup_other p old d q : q <> with_backup p -> run_ops (write_ops (with_backup p) old) d !! q = d !! q.
Proof. intros Hq. apply run_ops_other. intros o Ho. rewrite (target_writes _ _ _ Ho). auto. Qed.
Lemma run_copy_other p new d q : q <> p -> run_ops (write_ops p new) d !! q = d !! q.
Proof. intros Hq. apply run_ops_other. intros o Ho. rewrite (target_writes _ _ _ Ho). auto. Qed.

(** The state in which the backup is complete. *)
Lemma backup_made p old (new : list Z) d : d !! with_temp p = Some new -> d !! p = Some old ->
  let d1 := run_ops (write_ops (with_backup p) old) d in
  d1 !! p = Some old /\ d1 !! with_temp p = Some new /\ d1 !! with_backup p = Some old.
Proof.
  intros Ht Hp d1. unfold d1. rewrite !run_backup_other by auto with disk. auto using run_writes.
Qed.

Lemma finalize_always faults p old new d : d !! p = Some old -> d !! with_temp p = Some new ->
  always (old_or_backed_up p old new) (snd (finalize_output_file_with_backup faults p d)) d.
Proof.
  intros Hp Ht. assert (H0 : old_or_backed_up p old new d) by (left; exact Hp).
  unfold finalize_output_file_with_backup. apply always_bind; [apply always_nil; exact H0|].
  unfold final. cbn [exists_file fst snd run_ops foldl]. rewrite Hp, bool_decide_eq_true_2 by eauto.
  apply always_bind; unfold final; rewrite (copy_file_is _ _ _ old d Hp); cbn [fst snd].
  { apply backup_always. exact Hp. }
  destruct (bool_decide_reflect (backup_stops faults = None)) as [->|N]; cbn [negb upto];
    [|apply always_nil, always_end, backup_always; exact Hp].
  destruct (backup_made p old new d Ht Hp) as (Hp1 & Ht1 & Hb1). set (d1 := run_ops _ d) in *.
  apply always_bind; unfold final; rewrite (copy_file_is _ _ _ new d1 Ht1); cbn [fst snd].
  { apply copy_always; assumption. }
  pose proof (always_end _ _ _ (copy_always p old new (copy_stops faults) d1 Hp1 Hb1)) as H2.
  destruct (bool_decide _); cbn [negb]; [|apply always_nil; exact H2].
  apply always_bind; [apply remove_always; exact H2|]. apply always_nil, (always_end _ _ _ (remove_always p old new _ H2)).
Qed.

(** What reaches the temporary file. *)
Definition written (faults : io_faults) (buffer : list Z) : list Z := upto (write_stops faults) buffer.
Lemma run_temp p bytes d : let d1 := run_ops (Append (with_temp p) <$> bytes) (run_ops [Truncate (with_temp p)] d) in
  d1 !! with_temp p = Some bytes /\ forall q, q <> with_temp p -> d1 !! q = d !! q.
Proof.
  intros d1. unfold d1. rewrite <- run_ops_app. change ([_] ++ _) with (write_ops (with_temp p) bytes).
  split; [apply run_writes|]. intros q Hq. apply run_copy_other. exact Hq.
Qed.
Lemma update_is faults p buffer d : open_fails faults = false ->
  let d1 := run_ops (write_ops (with_temp p) (written faults buffer)) d in
  fst (update_save_file faults p buffer d) = fst (finalize_output_file_with_backup faults p d1) /\
  snd (update_save_file faults p buffer d) =
    write_ops (with_temp p) (written faults buffer) ++ snd (finalize_output_file_with_backup faults p d1).
Proof.
  intros Ho d1. unfold update_save_file, bind, open_output_file_with_backup, bind, tell, ret. rewrite Ho. cbn [negb].
  unfold d1, write_ops, written. change (run_ops (Truncate ?t :: ?l) d) with (run_ops l (run_ops [Truncate t] d)).
  change ([Truncate (with_temp p)] ++ []) with [Truncate (with_temp p)].
  destruct (finalize_output_file_with_backup _ _ _) as [r o]. split; reflexivity.
Qed.

Lemma update_always faults p buffer old d : d !! p = Some old ->
  always (old_or_backed_up p old (written faults buffer)) (snd (update_save_file faults p buffer d)) d.
Proof.
  intros Hp. destruct (open_fails faults) eqn:Ho.
  - unfold update_save_file, open_output_file_with_backup. rewrite Ho. apply always_nil. left. exact Hp.
  - destruct (update_is faults p buffer d Ho) as [_ ->]. apply always_app.
    + apply always_other with (with_temp p); [intros o; apply target_writes|].
      intros d' E. left. rewrite E; auto with disk.
    + apply finalize_always; [rewrite run_copy_other; auto with disk|apply run_writes].
Qed.

(** C18: Wherever an update of the save file crashes or fails, the old contents are still in
    the file, or in its backup while the file holds a prefix of the new ones. *)
Theorem interrupted_save_keeps_old faults p buffer old d n : d !! p = Some old ->
  old_or_backed_up p old (written faults buffer) (run_ops (take n (snd (update_save_file faults p buffer d))) d).
Proof. intros Hp. exact (update_always faults p buffer old d Hp n). Qed.

(** The last operations of an update: the new file, and the temporary one removed. *)
Lemma last_ops p new (d : disk) : let d' := run_ops [Remove (with_temp p)] (run_ops (write_ops p new) d) in
  d' !! p = Some new /\ d' !! with_temp p = None /\ (forall q, q <> p -> q <> with_temp p -> d' !! q = d !! q).
Proof.
  intros d'. unfold d'. cbn [run_ops foldl apply_op]. change (foldl apply_op ?x ?l) with (run_ops l x).
  split; [rewrite lookup_delete_ne by auto with disk; apply run_writes|]. split; [apply lookup_delete_eq|].
  intros q Hq Hq'. rewrite lookup_delete_ne by auto. apply run_copy_other. exact Hq.
Qed.

Lemma finalize_ops p old new d : d !! p = Some old -> d !! with_temp p = Some new ->
  exists rest, snd (finalize_output_file_with_backup no_faults p d) = write_ops (with_backup p) old ++ write_ops p new ++ rest.
Proof.
  intros Hp Ht. unfold finalize_output_file_with_backup. rewrite bind_snd. unfold final.
  cbn [exists_file fst snd app run_ops foldl]. rewrite Hp, bool_decide_eq_true_2 by eauto.
  rewrite bind_snd. unfold final. rewrite (copy_file_is _ _ _ old d Hp). cbn [fst snd backup_stops no_faults upto].
  rewrite bool_decide_eq_true_2 by reflexivity. cbn [negb].
  destruct (backup_made p old new d Ht Hp) as (_ & Ht1 & _). set (d1 := run_ops _ d) in *.
  rewrite bind_snd, (copy_file_is _ _ _ new d1 Ht1). eauto.
Qed.

(** An update whose copies succeed, whatever is on the disk. *)
Lemma finalize_done faults p new d : backup_stops faults = None -> copy_stops faults = None -> d !! with_temp p = Some new ->
  run_io (finalize_output_file_with_backup faults p) d =
    (true, run_ops [Remove (with_temp p)] (run_ops (write_ops p new)
      (match d !! p with Some old => run_ops (write_ops (with_backup p) old) d | None => d end))).
Proof.
  intros Eb Ec Ht. unfold finalize_output_file_with_backup. rewrite Eb, Ec, run_bind.
  change (run_io (exists_file p) d) with (bool_decide (is_Some (d !! p)), d). cbn [fst snd]. rewrite run_bind.
  destruct (d !! p) as [old|] eqn:Hp.
  - rewrite bool_decide_eq_true_2 by eauto. rewrite (run_copy _ _ old d Hp). cbn [fst snd negb].
    destruct (backup_made p old new d Ht Hp) as (_ & Ht1 & _).
    rewrite run_bind, (run_copy _ _ new _ Ht1). cbn [fst snd negb]. rewrite run_bind. reflexivity.
  - rewrite bool_decide_eq_false_2 by (intros [x Hx]; discriminate).
    change (run_io (ret true) d) with (true, d). cbn [fst snd negb].
    rewrite run_bind, (run_copy _ _ new _ Ht). cbn [fst snd negb]. rewrite run_bind. reflexivity.
Qed.

(** What an update leaves when no call reports a failure: the file has what
    reached the temporary file, the backup the old contents. *)
Lemma update_done faults p buffer d :
  open_fails faults = false -> backup_stops faults = None -> copy_stops faults = None ->
  let '(saved, d') := run_io (update_save_file faults p buffer) d in
  saved = true /\ d' !! p = Some (written faults buffer) /\ d' !! with_temp p = None /\
  d' !! with_backup p = (match d !! p with Some old => Some old | None => d !! with_backup p end) /\
  (forall q, q <> p -> q <> with_backup p -> q <> with_temp p -> d' !! q = d !! q).
Proof.
  intros Eo Eb Ec. destruct (update_is faults p buffer d Eo) as [E1 E2].
  unfold run_io, final. rewrite E1, E2, run_ops_app. set (d1 := run_ops _ d).
  assert (Ht : d1 !! with_temp p = Some (written faults buffer)) by apply run_writes.
  assert (Hq : forall q, q <> with_temp p -> d1 !! q = d !! q) by (intros q Hq; apply run_copy_other; exact Hq).
  pose proof (finalize_done faults p _ d1 Eb Ec Ht) as E. unfold run_io, final in E.
  injection E as -> ->. split; [reflexivity|].
  destruct (last_ops p (written faults buffer) (match d1 !! p with Some old => run_ops (write_ops (with_backup p) old) d1 | None => d1 end))
    as (L1 & L2 & L3).
  split; [exact L1|]. split; [exact L2|]. rewrite Hq in * by auto with disk. split.
  - rewrite L3 by auto with disk. destruct (d !! p); [apply run_writes|apply Hq; auto with disk].
  - intros q N1 N2 N3. rewrite L3 by auto. destruct (d !! p); [rewrite run_backup_other by auto|]; apply Hq; auto.
Qed.

Lemma read_of_file t (p : string) buffer (d : disk) : d !! p = Some buffer -> read_save_file t (vec_size buffer) p d = buffer.
Proof.
  intros E. unfold read_save_file, open_input_file_with_backup. rewrite E, slice_all.
  apply splice_over, size_fill, vec_size_nonneg.
Qed.

(** A save that meets no failure is what the next start reads. *)
Theorem saved_game_is_read_back t p buffer d :
  let '(saved, d') := run_io (update_save_file no_faults p buffer) d in
  saved = true /\ read_save_file t (vec_size buffer) p d' = buffer /\
  d' !! with_backup p = (match d !! p with Some old => Some old | None => d !! with_backup p end) /\
  (forall q, q <> p -> q <> with_backup p -> q <> with_temp p -> d' !! q = d !! q).
Proof.
  pose proof (update_done no_faults p buffer d eq_refl eq_refl eq_refl) as U.
  destruct (run_io _ d) as [saved d']. destruct U as (U1 & U2 & _ & U4 & U5). split; [exact U1|]. split; [|auto].
  apply read_of_file. exact U2.
Qed.

(** A short write to the temporary file is not noticed: the update reports
    success and the file is left with the truncated contents. *)
Theorem short_write_reports_success p buffer d n :
  let '(saved, d') := run_io (update_save_file (IoFaults false (Some n) None None) p buffer) d in
  saved = true /\ d' !! p = Some (take n buffer).
Proof.
  pose proof (update_done (IoFaults false (Some n) None None) p buffer d eq_refl eq_refl eq_refl) as U.
  destruct (run_io _ d) as [saved d']. destruct U as (U1 & U2 & _). auto.
Qed.

(** A crash while the new file is copied over the old one: the next start reads
    the part that was copied, the rest blank, although the backup is complete. *)
Theorem torn_save_is_read t p buffer old d n : d !! p = Some old -> (n <= length buffer)%nat ->
  exists k, let d' := run_ops (take k (snd (update_save_file no_faults p buffer d))) d in
    d' !! with_backup p = Some old /\
    read_save_file t (vec_size buffer) p d' = take n buffer ++ fill (vec_size buffer - Z.of_nat n) (blank_value t).
Proof.
  intros Hp Hn.
  destruct (update_is no_faults p buffer d eq_refl) as [_ E]. cbn [written upto write_stops no_faults] in E.
  set (d1 := run_ops (write_ops (with_temp p) buffer) d) in *.
  assert (Hp1 : d1 !! p = Some old) by (unfold d1; rewrite run_copy_other; auto with disk).
  destruct (finalize_ops p old buffer d1 Hp1 (run_writes _ _ _)) as [rest Er].
  exists (length (write_ops (with_temp p) buffer ++ write_ops (with_backup p) old) + S n)%nat.
  rewrite E, Er, app_assoc, take_app_add, run_ops_app. rewrite run_ops_app. fold d1.
  destruct (backup_made p old buffer d1 (run_writes _ _ _) Hp1) as (_ & _ & Hb). set (d2 := run_ops _ d1) in *.
  cbn [take write_ops app]. rewrite take_app_le, <- fmap_take by (rewrite length_fmap; exact Hn).
  change (Truncate p :: ?l) with (write_ops p (take n buffer)). cbv zeta.
  split; [rewrite run_copy_other; auto with disk|].
  unfold read_save_file, open_input_file_with_backup. rewrite run_writes. apply splice_start. exact Hn.
Qed.
