(* ===== verification/SavingThread.v ===== *)
(** The saving thread of librecomp/src/pi.cpp: the game writes the save buffer
    and signals, the thread drains the signals, folds them into one update of
    the file, and hands the file over when the game swaps it.

    [action] is one step of a thread: the game's steps carry what they write,
    and [Thread] is the saving thread's next step, which the state determines.
    The calls to the file system succeed here; FilesSpec treats their failures. *)

From S2P Require Import Prelude Bytes RspMem Rdram Save Files FilesSpec.
From Stdlib Require Import ZArith Lia Bool List.
From stdpp Require Import base list gmap strings.
Open Scope Z_scope.

(** Where the saving thread is: draining signals; in [update_save_file] before
    the file is opened, after, and after the write, with the path it opened; at
    the swap check; at the loop condition; after the loop. *)
Inductive saver_phase :=
| Collecting (dirty : bool) (folded : nat)
| Opening | Opened (opened : string) | Written (opened : string)
| CheckSwap | LoopHead | Stopped.

(** [unsignalled] counts the writes whose signal has not happened yet, and
    [swapping] is the file that [change_save_file] waits to swap to. *)
Record saver := Saver {
  sv_buffer : list Z; writes : nat; unsignalled : nat; sv_phase : saver_phase; sv_disk : disk; sv_path : string;
  swap_file_pending : nat; swap_file_ready : nat; swapping : option string; exited : bool }.

Inductive action := Write (offset : Z) (bytes : list Z) | Signal | Thread | RequestSwap (p : string) | Swap | Exit.

Definition set_phase (s : saver) (p : saver_phase) : saver :=
  Saver (sv_buffer s) (writes s) (unsignalled s) p (sv_disk s) (sv_path s) (swap_file_pending s) (swap_file_ready s)
    (swapping s) (exited s).
Definition set_writes (s : saver) (w u : nat) : saver :=
  Saver (sv_buffer s) w u (sv_phase s) (sv_disk s) (sv_path s) (swap_file_pending s) (swap_file_ready s)
    (swapping s) (exited s).
Definition set_buffer (s : saver) (b : list Z) : saver :=
  Saver b (writes s) (unsignalled s) (sv_phase s) (sv_disk s) (sv_path s) (swap_file_pending s) (swap_file_ready s)
    (swapping s) (exited s).
Definition set_disk (s : saver) (d : disk) : saver :=
  Saver (sv_buffer s) (writes s) (unsignalled s) (sv_phase s) d (sv_path s) (swap_file_pending s) (swap_file_ready s)
    (swapping s) (exited s).
Definition set_swap (s : saver) (p : string) (pending ready : nat) (w : option string) : saver :=
  Saver (sv_buffer s) (writes s) (unsignalled s) (sv_phase s) (sv_disk s) p pending ready w (exited s).

Definition max_coalesced : nat := 128.

(** The steps of [update_save_file] that the thread's phases separate. *)
Definition write_temp (opened : string) (buffer : list Z) : io unit := tell (Append (with_temp opened) <$> buffer).

(** The thread's next step; [None] once it has ended. *)
Definition thread_step (s : saver) : option saver :=
  match sv_phase s with
  | Collecting dirty folded =>
      match writes s with
      | O => Some (set_phase s (if dirty then Opening else CheckSwap))
      | S w =>
          let s := set_writes s w (unsignalled s) in
          Some (set_phase s (if (folded <? max_coalesced)%nat then Collecting true (S folded)
                             else if dirty then Opening else CheckSwap))
      end
  | Opening =>
      let d := final (open_output_file_with_backup no_faults (sv_path s)) (sv_disk s) in
      Some (set_phase (set_disk s d) (Opened (sv_path s)))
  | Opened opened => Some (set_phase (set_disk s (final (write_temp opened (sv_buffer s)) (sv_disk s))) (Written opened))
  | Written _ =>
      let d := final (finalize_output_file_with_backup no_faults (sv_path s)) (sv_disk s) in
      Some (set_phase (set_disk s d) CheckSwap)
  | CheckSwap =>
      Some (set_phase (match swap_file_pending s with
                       | O => s
                       | S n => set_swap s (sv_path s) n (S (swap_file_ready s)) (swapping s)
                       end) LoopHead)
  | LoopHead => Some (set_phase s (if exited s then Stopped else Collecting false 0))
  | Stopped => None
  end.

(** A step of any thread, [None] when it cannot happen. *)
Definition saver_step (t : SaveType) (size : Z) (a : action) (s : saver) : option saver :=
  match a with
  | Write offset bytes =>
      if (0 <=? offset) && (offset + vec_size bytes <=? vec_size (sv_buffer s))
      then Some (set_writes (set_buffer s (splice offset bytes (sv_buffer s))) (writes s) (S (unsignalled s)))
      else None
  | Signal => match unsignalled s with O => None | S u => Some (set_writes s (S (writes s)) u) end
  | Thread => thread_step s
  | RequestSwap p =>
      match swapping s with
      | Some _ => None
      | None => Some (set_swap s (sv_path s) (S (swap_file_pending s)) (swap_file_ready s) (Some p))
      end
  | Swap =>
      match swapping s, swap_file_ready s with
      | Some p, S n =>
          let s := set_swap s p (swap_file_pending s) n None in
          Some (set_buffer s (read_save_file t size p (sv_disk s)))
      | _, _ => None
      end
  | Exit => Some (Saver (sv_buffer s) (writes s) (unsignalled s) (sv_phase s) (sv_disk s) (sv_path s)
                    (swap_file_pending s) (swap_file_ready s) (swapping s) true)
  end.
Fixpoint saver_run (t : SaveType) (size : Z) (acts : list action) (s : saver) : option saver :=
  match acts with
  | [] => Some s
  | a :: acts => match saver_step t size a s with Some s => saver_run t size acts s | None => None end
  end.

(** [init_saving]. *)
Definition init_saving (t : SaveType) (p : string) (d : disk) : saver :=
  Saver (read_save_file t (get_save_size t) p d) 0 0 LoopHead d p 0 0 None false.

(** * The steps of an update are [update_save_file] *)

Lemma update_steps (p : string) buffer (d : disk) :
  final (update_save_file no_faults p buffer) d =
  final (finalize_output_file_with_backup no_faults p)
    (final (write_temp p buffer) (final (open_output_file_with_backup no_faults p) d)).
Proof.
  unfold update_save_file. change (final ?m d) with (snd (run_io m d)). rewrite run_bind.
  change (fst (run_io (open_output_file_with_backup no_faults p) d)) with true. cbn [negb].
  rewrite run_bind. reflexivity.
Qed.

(** * What the thread promises *)

Section Spec.
Context (t : SaveType).

(** The file reads back as the buffer. *)
Definition synced (s : saver) : Prop := read_save_file t (vec_size (sv_buffer s)) (sv_path s) (sv_disk s) = sv_buffer s.
(** A write the thread has not drained. *)
Definition undrained (s : saver) : Prop := (0 < writes s + unsignalled s)%nat.

Definition saver_inv (s : saver) : Prop :=
  match sv_phase s with
  | Collecting true _ | Opening => True
  | Collecting false folded => folded = O /\ (synced s \/ undrained s)
  | Opened opened => opened = sv_path s /\ sv_disk s !! with_temp opened = Some []
  | Written opened => opened = sv_path s /\ exists snap, sv_disk s !! with_temp opened = Some snap /\
      length snap = length (sv_buffer s) /\ (snap = sv_buffer s \/ undrained s)
  | CheckSwap | LoopHead | Stopped => synced s \/ undrained s
  end.

(** The invariant after a step that leaves the phase, the path and the disk. *)
Lemma inv_pending s s' : saver_inv s -> sv_phase s' = sv_phase s -> sv_path s' = sv_path s -> sv_disk s' = sv_disk s ->
  length (sv_buffer s') = length (sv_buffer s) -> undrained s' -> saver_inv s'.
Proof.
  unfold saver_inv. intros Hi -> -> -> Hl Hu. destruct (sv_phase s) as [[|] f| |o|o| | |]; auto.
  - split; [apply Hi|auto].
  - destruct Hi as [H1 (snap & H2 & H3 & _)]. split; [exact H1|]. exists snap. rewrite Hl. auto.
Qed.
Lemma synced_same s s' : sv_buffer s' = sv_buffer s -> sv_path s' = sv_path s -> sv_disk s' = sv_disk s ->
  synced s -> synced s'.
Proof. unfold synced. intros -> -> ->. auto. Qed.

Lemma written_synced s snap : sv_disk s !! with_temp (sv_path s) = Some snap -> snap = sv_buffer s ->
  synced (set_disk s (final (finalize_output_file_with_backup no_faults (sv_path s)) (sv_disk s))).
Proof.
  intros Ht ->. unfold synced. cbn [sv_buffer sv_path sv_disk set_disk]. apply read_of_file.
  pose proof (finalize_done no_faults _ _ _ eq_refl eq_refl Ht) as E. unfold run_io in E. injection E as _ ->.
  apply last_ops.
Qed.
Lemma opened_temp (s : saver) : sv_disk s !! with_temp (sv_path s) = Some [] ->
  final (write_temp (sv_path s) (sv_buffer s)) (sv_disk s) !! with_temp (sv_path s) = Some (sv_buffer s).
Proof.
  intros E. unfold final, write_temp, tell. cbn [snd]. rewrite run_appends by eauto. unfold contents. rewrite E. reflexivity.
Qed.

Lemma thread_inv s s' : saver_inv s -> thread_step s = Some s' -> saver_inv s' /\ sv_buffer s' = sv_buffer s /\ sv_path s' = sv_path s.
Proof.
  unfold thread_step. unfold saver_inv at 1. destruct (sv_phase s) as [dirty f| |o|o| | |]; intros Hi.
  - destruct (writes s) as [|w] eqn:Ew; intros [= <-].
    + split; [|auto]. destruct dirty; [exact I|]. cbn. destruct Hi as [_ [Hi|Hi]]; [left; exact Hi|right; exact Hi].
    + split; [|auto]. destruct (Nat.ltb_spec f max_coalesced); [exact I|]. destruct dirty; [exact I|].
      destruct Hi as [-> _]. unfold max_coalesced in *. lia.
  - intros [= <-]. split; [|auto]. cbn. split; [reflexivity|]. unfold final. cbn. apply lookup_insert_eq.
  - destruct Hi as [-> Hi]. intros [= <-]. split; [|auto]. cbn. split; [reflexivity|]. exists (sv_buffer s).
    split; [apply opened_temp; exact Hi|auto].
  - destruct Hi as [-> (snap & H1 & _ & H2)]. intros [= <-]. split; [|auto]. cbn. destruct H2 as [H2|H2]; [|right; exact H2].
    left. exact (written_synced s snap H1 H2).
  - intros [= <-]. destruct (swap_file_pending s); (split; [|auto]); cbn; destruct Hi as [Hi|Hi];
      [left|right|left|right]; exact Hi.
  - intros [= <-]. split; [|auto]. destruct (exited s); cbn; destruct Hi; auto.
  - discriminate.
Qed.

(** A step that does not swap the file. *)
Definition keeps_file (a : action) : Prop := match a with Swap => False | _ => True end.
Lemma saver_step_inv size a s s' : keeps_file a -> saver_inv s -> saver_step t size a s = Some s' ->
  saver_inv s' /\ vec_size (sv_buffer s') = vec_size (sv_buffer s).
Proof.
  intros Ha Hi. destruct a as [off bytes| | |p| |]; cbn [saver_step].
  - destruct (_ && _) eqn:Hb; [|discriminate]. apply andb_true_iff in Hb as [H1 H2]. apply Z.leb_le in H1, H2. intros [= <-].
    pose proof (size_splice off bytes (sv_buffer s) H1 H2) as Hs. split; [|exact Hs].
    apply (inv_pending s); auto; [unfold vec_size in Hs; cbn; lia|unfold undrained; cbn; lia].
  - destruct (unsignalled s) as [|u] eqn:Eu; [discriminate|]. intros [= <-]. split; [|reflexivity].
    apply (inv_pending s); auto. unfold undrained; cbn; lia.
  - intros E. destruct (thread_inv s s' Hi E) as (H1 & H2 & _). rewrite H2. auto.
  - destruct (swapping s); [discriminate|]. intros [= <-]. split; [exact Hi|reflexivity].
  - contradiction.
  - intros [= <-]. split; [exact Hi|reflexivity].
Qed.

Lemma init_size p d : vec_size (read_save_file t (get_save_size t) p d) = get_save_size t.
Proof.
  assert (0 <= get_save_size t) by (destruct t; cbn; lia).
  unfold read_save_file. destruct (open_input_file_with_backup p d) as [bytes|]; [|apply size_fill; assumption].
  rewrite size_splice; [apply size_fill; assumption|lia|]. rewrite size_fill by assumption.
  unfold slice, vec_size. rewrite length_take. lia.
Qed.
Lemma run_inv acts s s' size : Forall keeps_file acts -> saver_inv s -> saver_run t size acts s = Some s' ->
  saver_inv s' /\ vec_size (sv_buffer s') = vec_size (sv_buffer s).
Proof.
  intros Ha. revert s. induction Ha as [|a acts Ha _ IH]; intros s Hi; cbn [saver_run].
  - intros [= <-]. auto.
  - destruct (saver_step t size a s) as [s1|] eqn:E; [|discriminate]. intros Hr.
    destruct (saver_step_inv size a s s1 Ha Hi E) as [Hi1 Hl]. rewrite <- Hl. apply (IH s1 Hi1 Hr).
Qed.
Lemma init_inv p d : saver_inv (init_saving t p d).
Proof. left. unfold synced, init_saving. cbn. rewrite init_size. reflexivity. Qed.

(** C19: However the writers interleave with the saving thread, whenever it is between
    updates and every write is signalled and drained, the save file reads back as the save
    buffer. *)
Theorem drained_writes_are_saved p d acts s :
  Forall keeps_file acts -> saver_run t (get_save_size t) acts (init_saving t p d) = Some s ->
  (match sv_phase s with CheckSwap | LoopHead | Stopped | Collecting false _ => True | _ => False end) ->
  writes s = O -> unsignalled s = O ->
  read_save_file t (get_save_size t) (sv_path s) (sv_disk s) = sv_buffer s.
Proof.
  intros Ha Hr Hp Hw Hu. destruct (run_inv acts _ s _ Ha (init_inv p d) Hr) as [Hi Hl].
  cbn in Hl. rewrite init_size in Hl. rewrite <- Hl. change (synced s).
  assert (Hd : ~ undrained s) by (unfold undrained; lia).
  unfold saver_inv in Hi. destruct (sv_phase s) as [[|] f| |o|o| | |]; try contradiction; intuition.
Qed.

(** ** Progress *)

Fixpoint thread_run (n : nat) (s : saver) : option saver :=
  match n with O => Some s | S n => match thread_step s with Some s => thread_run n s | None => None end end.
(** Left alone, the thread saves the buffer in at most [k] steps. *)
Definition saves_in (k : nat) (s : saver) : Prop :=
  exists n s', (n <= k)%nat /\ thread_run n s = Some s' /\ sv_buffer s' = sv_buffer s /\ synced s'.

Lemma saves_now k s : synced s -> saves_in k s.
Proof. intros Hs. exists O, s. split; [lia|]. auto. Qed.
Lemma saves_step k s s1 : saver_inv s -> thread_step s = Some s1 -> (saver_inv s1 -> saves_in k s1) -> saves_in (S k) s.
Proof.
  intros Hi E Hk. destruct (thread_inv s s1 Hi E) as (Hi1 & Eb & _). destruct (Hk Hi1) as (n & s' & Hn & Hr & Hb & Hs).
  exists (S n), s'. cbn [thread_run]. rewrite E. split; [lia|]. rewrite <- Eb. auto.
Qed.
Lemma saves_more k k' s : (k <= k')%nat -> saves_in k s -> saves_in k' s.
Proof. intros Hk (n & s' & Hn & H). exists n, s'. split; [lia|exact H]. Qed.

Lemma opened_saves s : saver_inv s -> sv_phase s = Opened (sv_path s) -> saves_in 2 s.
Proof.
  intros Hi Hp. unfold saver_inv in Hi. rewrite Hp in Hi. destruct Hi as [_ Ht].
  exists 2%nat. unfold thread_run, thread_step. rewrite Hp. cbn [sv_phase set_phase].
  eexists. split; [lia|]. split; [reflexivity|]. split; [reflexivity|].
  exact (written_synced (set_disk s (final (write_temp (sv_path s) (sv_buffer s)) (sv_disk s))) _
           (opened_temp s Ht) eq_refl).
Qed.
Lemma opening_saves s : saver_inv s -> sv_phase s = Opening -> saves_in 3 s.
Proof.
  intros Hi Hp. eapply saves_step; [exact Hi|unfold thread_step; rewrite Hp; reflexivity|].
  intros Hi1. apply opened_saves; [exact Hi1|reflexivity].
Qed.
Lemma collecting_saves w : forall s dirty folded, saver_inv s -> sv_phase s = Collecting dirty folded ->
  unsignalled s = O -> writes s = w -> saves_in (w + 4) s.
Proof.
  induction w as [|w IH]; intros s dirty folded Hi Hp Hu Hw.
  - destruct dirty.
    + eapply saves_step; [exact Hi|unfold thread_step; rewrite Hp, Hw; reflexivity|]. intros Hi1.
      apply opening_saves; [exact Hi1|reflexivity].
    + apply saves_now. unfold saver_inv, undrained in Hi. rewrite Hp in Hi. destruct Hi as [_ [Hi|Hi]]; [exact Hi|lia].
  - change (S w + 4)%nat with (S (w + 4)).
    eapply saves_step; [exact Hi|unfold thread_step; rewrite Hp, Hw; reflexivity|]. intros Hi1.
    destruct (Nat.ltb_spec folded max_coalesced).
    + apply (IH _ true (S folded) Hi1); auto.
    + destruct dirty; [|unfold saver_inv in Hi; rewrite Hp in Hi; destruct Hi as [-> _]; unfold max_coalesced in *; lia].
      apply saves_more with 3%nat; [lia|]. apply opening_saves; [exact Hi1|reflexivity].
Qed.
Lemma loop_saves s : saver_inv s -> sv_phase s = LoopHead -> exited s = false -> unsignalled s = O -> saves_in (writes s + 5) s.
Proof.
  intros Hi Hp He Hu. replace (writes s + 5)%nat with (S (writes s + 4)) by lia.
  eapply saves_step; [exact Hi|unfold thread_step; rewrite Hp, He; reflexivity|]. intros Hi1.
  apply (collecting_saves (writes s) _ false O Hi1); auto.
Qed.
Lemma check_saves s : saver_inv s -> sv_phase s = CheckSwap -> exited s = false -> unsignalled s = O -> saves_in (writes s + 6) s.
Proof.
  intros Hi Hp He Hu. replace (writes s + 6)%nat with (S (writes s + 5)) by lia.
  eapply saves_step; [exact Hi|unfold thread_step; rewrite Hp; reflexivity|]. intros Hi1.
  apply saves_more with (writes s + 5)%nat; [lia|].
  destruct (swap_file_pending s); apply (loop_saves _ Hi1); auto.
Qed.

(** C20: Once the writers are quiet the saving thread, whatever it is doing, has the save
    buffer in the file within a number of its steps bounded by the pending writes. *)
Theorem quiet_writes_reach_the_file p d acts s :
  Forall keeps_file acts -> saver_run t (get_save_size t) acts (init_saving t p d) = Some s ->
  unsignalled s = O -> exited s = false -> sv_phase s <> Stopped ->
  exists n s', (n <= writes s + 7)%nat /\ thread_run n s = Some s' /\ sv_buffer s' = sv_buffer s /\
    read_save_file t (get_save_size t) (sv_path s') (sv_disk s') = sv_buffer s.
Proof.
  intros Ha Hr Hu He Hs. destruct (run_inv acts _ s _ Ha (init_inv p d) Hr) as [Hi Hl].
  cbn in Hl. rewrite init_size in Hl.
  assert (S1 : saves_in (writes s + 7) s).
  { destruct (sv_phase s) as [dirty f| |o|o| | |] eqn:Hp; [| | | | | |contradiction].
    - apply saves_more with (writes s + 4)%nat; [lia|]. eauto using collecting_saves.
    - apply saves_more with 3%nat; [lia|]. eauto using opening_saves.
    - apply saves_more with 2%nat; [lia|]. apply opened_saves; [exact Hi|].
      unfold saver_inv in Hi. rewrite Hp in Hi. destruct Hi as [<- _]. exact Hp.
    - replace (writes s + 7)%nat with (S (writes s + 6)) by lia.
      eapply saves_step; [exact Hi|unfold thread_step; rewrite Hp; reflexivity|]. intros Hi1.
      apply (check_saves _ Hi1); auto.
    - apply saves_more with (writes s + 6)%nat; [lia|]. eauto using check_saves.
    - apply saves_more with (writes s + 5)%nat; [lia|]. eauto using loop_saves. }
  destruct S1 as (n & s' & Hn & Hrun & Hb & Hsync). exists n, s'. repeat (split; [assumption|]).
  unfold synced in Hsync. rewrite Hb, Hl in Hsync. exact Hsync.
Qed.

(** ** Swapping the file *)

(** A write that lands after the saving thread has drained a round and before it answers a swap reaches no file: the state after the swap does not depend on it. *)
Theorem swap_can_drop_a_write p q d off bytes bytes' :
  let late b := [Thread; Thread; Write off b; Signal; RequestSwap q; Thread; Swap] in
  vec_size bytes = vec_size bytes' -> 0 <= off -> off + vec_size bytes <= get_save_size t ->
  exists s, saver_run t (get_save_size t) (late bytes) (init_saving t p d) = Some s /\
    saver_run t (get_save_size t) (late bytes') (init_saving t p d) = Some s /\
    sv_path s = q /\ sv_disk s = d.
Proof.
  intros late Hl Ho Hb. eexists. unfold late, init_saving.
  assert (E : forall b, vec_size b = vec_size bytes -> (0 <=? off) && (off + vec_size b <=? vec_size (read_save_file t (get_save_size t) p d)) = true).
  { intros b ->. rewrite init_size. apply andb_true_iff. split; apply Z.leb_le; lia. }
  split; [|split].
  - cbn. rewrite E by reflexivity. cbn. reflexivity.
  - cbn. rewrite E by (symmetry; exact Hl). cbn. reflexivity.
  - split; reflexivity.
Qed.
End Spec.
