(* ===== verification/Floats.v ===== *)
(** The floating-point types of C++ as the library uses them: IEEE 754
    binary32 and binary64 values as their bit patterns, decoded into the
    Standard Library's specification floats to compute.

    A result that is not a number has a pattern the standard leaves to the host
    ([nan_of]); sign changes and copies act on the pattern.  Conversions to
    integers are [None] where the value does not fit. *)

From S2P Require Import Prelude.
From Stdlib Require Import ZArith Lia Bool SpecFloat.
Open Scope Z_scope.

(** A format: the number of stored mantissa bits and of exponent bits. *)
Record float_format := Format { mant_bits : Z; exp_bits : Z }.
Definition binary32 : float_format := Format 23 8.
Definition binary64 : float_format := Format 52 11.

Section Format.
Context (F : float_format).

Definition prec : Z := mant_bits F + 1.
Definition emax : Z := 2 ^ (exp_bits F - 1).
Definition least_exp : Z := 3 - emax - prec.
Definition width : Z := mant_bits F + exp_bits F + 1.
Definition sign_bit (bits : Z) : bool := Z.testbit bits (width - 1).
Definition exp_field (bits : Z) : Z := bits / 2 ^ mant_bits F mod 2 ^ exp_bits F.
Definition mant_field (bits : Z) : Z := bits mod 2 ^ mant_bits F.

Definition decode (bits : Z) : spec_float :=
  let s := sign_bit bits in
  let e := exp_field bits in
  let m := mant_field bits in
  if e =? 0 then match m with Zpos p => S754_finite s p least_exp | _ => S754_zero s end
  else if e =? 2 ^ exp_bits F - 1 then if m =? 0 then S754_infinity s else S754_nan
  else match m + 2 ^ mant_bits F with Zpos p => S754_finite s p (e - 1 + least_exp) | _ => S754_nan end.

Definition pack (s : bool) (e m : Z) : Z := b2z s * 2 ^ (width - 1) + e * 2 ^ mant_bits F + m.
Definition encode (nan : Z) (x : spec_float) : Z :=
  match x with
  | S754_zero s => pack s 0 0
  | S754_infinity s => pack s (2 ^ exp_bits F - 1) 0
  | S754_nan => nan
  | S754_finite s p e =>
      if Zpos p <? 2 ^ mant_bits F then pack s 0 (Zpos p)
      else pack s (e - least_exp + 1) (Zpos p - 2 ^ mant_bits F)
  end.

(** The pattern of a result that is not a number, from the operands'. *)
Context (nan_of : list Z -> Z).

Definition arith2 (op : Z -> Z -> spec_float -> spec_float -> spec_float) (a b : Z) : Z :=
  encode (nan_of (a :: b :: nil)) (op prec emax (decode a) (decode b)).
Definition float_add : Z -> Z -> Z := arith2 SFadd.
Definition float_sub : Z -> Z -> Z := arith2 SFsub.
Definition float_mul : Z -> Z -> Z := arith2 SFmul.
Definition float_div : Z -> Z -> Z := arith2 SFdiv.
Definition float_sqrt (a : Z) : Z := encode (nan_of (a :: nil)) (SFsqrt prec emax (decode a)).
Definition float_abs (a : Z) : Z := if sign_bit a then a - 2 ^ (width - 1) else a.
Definition float_neg (a : Z) : Z := if sign_bit a then a - 2 ^ (width - 1) else a + 2 ^ (width - 1).
Definition float_ltb (a b : Z) : bool := SFltb (decode a) (decode b).
Definition float_eqb (a b : Z) : bool := SFeqb (decode a) (decode b).

(** An integer rounded to the nearest value of the format. *)
Definition float_of_Z (z : Z) : Z := encode (nan_of nil) (binary_normalize prec emax z 0 false).
(** A value of another format. *)
Definition float_of_float (from : spec_float) (operand : Z) : Z :=
  encode (nan_of (operand :: nil))
    (match from with
     | S754_finite s p e => binary_normalize prec emax (if s then Zneg p else Zpos p) e s
     | x => x
     end).
End Format.

(** How a value becomes an integer; halves away from zero for [std::round]. *)
Inductive rounding := Truncate | RoundHalfAway | Ceil | Floor.

Definition quotient_by (r : rounding) (n d : Z) : Z :=
  match r with
  | Truncate => Z.quot n d
  | RoundHalfAway => Z.sgn n * ((2 * Z.abs n + d) / (2 * d))
  | Ceil => - (- n / d)
  | Floor => n / d
  end.
Definition Z_of_float (r : rounding) (x : spec_float) : option Z :=
  match x with
  | S754_zero _ => Some 0
  | S754_finite s p e =>
      let n := if s then Zneg p else Zpos p in
      Some (if 0 <=? e then n * 2 ^ e else quotient_by r n (2 ^ (- e)))
  | _ => None
  end.
Definition in_range (lo hi : Z) (z : option Z) : option Z :=
  match z with Some z => if (lo <=? z) && (z <=? hi) then Some z else None | None => None end.
Definition int32_of_float (r : rounding) (x : spec_float) : option Z := in_range (-2147483648) 2147483647 (Z_of_float r x).
Definition int64_of_float (r : rounding) (x : spec_float) : option Z :=
  in_range (-9223372036854775808) 9223372036854775807 (Z_of_float r x).

(** * Formats *)

Record format_ok (F : float_format) : Prop := { fo_mant : 1 <= mant_bits F; fo_exp : 2 <= exp_bits F }.
Lemma binary32_ok : format_ok binary32.
Proof. split; cbn; lia. Qed.
Lemma binary64_ok : format_ok binary64.
Proof. split; cbn; lia. Qed.

Section Decode.
Context (F : float_format) (HF : format_ok F).
Let mb := mant_bits F.
Let eb := exp_bits F.

Lemma pack_fields bits : 0 <= bits < 2 ^ width F ->
  bits = pack F (sign_bit F bits) (exp_field F bits) (mant_field F bits) /\
  0 <= exp_field F bits < 2 ^ eb /\ 0 <= mant_field F bits < 2 ^ mb.
Proof.
  destruct HF as [Hm He]. fold mb in Hm. fold eb in He. intros Hb.
  assert (Pm : 0 < 2 ^ mb) by (apply Z.pow_pos_nonneg; lia). assert (Pe : 0 < 2 ^ eb) by (apply Z.pow_pos_nonneg; lia).
  assert (Ew : 2 ^ width F = 2 ^ mb * 2 ^ eb * 2).
  { unfold width. fold mb eb. rewrite !Z.pow_add_r by lia. change (2 ^ 1) with 2. lia. }
  assert (E1 : 2 ^ (width F - 1) = 2 ^ mb * 2 ^ eb).
  { unfold width. fold mb eb. replace (mb + eb + 1 - 1) with (mb + eb) by lia. apply Z.pow_add_r; lia. }
  unfold pack, exp_field, mant_field, sign_bit. fold mb eb.
  assert (Es : b2z (Z.testbit bits (width F - 1)) = bits / (2 ^ mb * 2 ^ eb)).
  { rewrite Z.testbit_eqb, E1 by (unfold width; fold mb eb; lia).
    assert (0 <= bits / (2 ^ mb * 2 ^ eb) < 2).
    { split; [apply Z.div_pos; nia|]. apply Z.div_lt_upper_bound; nia. }
    rewrite Z.mod_small by lia. destruct (Z.eqb_spec (bits / (2 ^ mb * 2 ^ eb)) 1); cbn [b2z]; lia. }
  split; [|split; apply Z.mod_pos_bound; lia].
  rewrite Es, E1. pose proof (Z.div_mod bits (2 ^ mb) ltac:(lia)).
  pose proof (Z.div_mod (bits / 2 ^ mb) (2 ^ eb) ltac:(lia)) as D. rewrite Z.div_div in D by lia. nia.
Qed.

(** A pattern that is a number survives decoding and encoding. *)
Theorem encode_decode nan bits : 0 <= bits < 2 ^ width F -> decode F bits <> S754_nan -> encode F nan (decode F bits) = bits.
Proof.
  intros Hb. destruct (pack_fields bits Hb) as (E & He & Hm). unfold decode.
  assert (Pm : 0 < 2 ^ mb) by (apply Z.pow_pos_nonneg; destruct HF; lia).
  assert (T : forall x, x = pack F (sign_bit F bits) (exp_field F bits) (mant_field F bits) -> x = bits) by congruence.
  clear E. fold mb eb.
  destruct (Z.eqb_spec (exp_field F bits) 0) as [E0|N0].
  - intros _. apply T. rewrite E0. destruct (mant_field F bits) as [|p|p] eqn:Em; cbn [encode]; try lia.
    fold mb. destruct (Z.ltb_spec (Zpos p) (2 ^ mb)); [reflexivity|lia].
  - destruct (Z.eqb_spec (exp_field F bits) (2 ^ eb - 1)) as [E1|N1].
    + destruct (Z.eqb_spec (mant_field F bits) 0) as [E2|N2]; [|contradiction]. intros _.
      apply T. cbn [encode]. rewrite E1, E2. reflexivity.
    + destruct (mant_field F bits + 2 ^ mb) as [|p|p] eqn:Em; try lia. intros _. cbn [encode].
      fold mb. destruct (Z.ltb_spec (Zpos p) (2 ^ mb)); [lia|]. apply T. f_equal; lia.
Qed.
End Decode.
