(* ===== verification/Json.v ===== *)
(** JSON values as nlohmann::json gives them to the code that reads and writes
    them.  The texts are the library's: reading and printing are a class, and what
    a theorem needs of them is stated of the values it writes.  Strings are UTF-8;
    of others the printer throws, which is left out. *)

From S2P Require Import Prelude Floats.
From Stdlib Require Import ZArith Lia Bool List String.
From stdpp Require Import base list strings.
Open Scope Z_scope.

(** Numbers as the parser classifies them: without a sign, with one, and with a
    fraction or an exponent, which are binary64 patterns.  Objects list their
    members in the library's order. *)
#[warnings="-register-all"]
Inductive json := JObject (l : list (string * json)) | JArray (l : list json) | JString (s : string) | JUnsigned (n : Z) | JInteger (n : Z)
  | JFloat (bits : Z) | JBool (b : bool) | JNull.

(** [find], which finds nothing in a value that is not an object. *)
Definition json_find (key : string) (j : json) : option json :=
  match j with JObject l => snd <$> find (fun kv => bool_decide (fst kv = key)) l | _ => None end.

(** [get_ptr], by the type asked for. *)
Definition get_string (j : json) : option string := match j with JString s => Some s | _ => None end.
Definition get_bool (j : json) : option bool := match j with JBool b => Some b | _ => None end.
Definition get_array (j : json) : option (list json) := match j with JArray l => Some l | _ => None end.
Definition get_object (j : json) : option (list (string * json)) := match j with JObject l => Some l | _ => None end.
(** A number without a sign is an integer too, its 64 bits read with one. *)
Definition get_int64 (j : json) : option Z := match j with JUnsigned n => Some (s64 n) | JInteger n => Some n | _ => None end.

Section Number.
Context (nan_of : list Z -> Z).
(** [is_number] and [get<double>]. *)
Definition get_double (j : json) : option Z :=
  match j with JUnsigned n | JInteger n => Some (float_of_Z binary64 nan_of n) | JFloat b => Some b | _ => None end.
End Number.

(** What a printed value reads back as: no text stands for an infinity or for what
    is not a number. *)
Definition finite (bits : Z) : bool := negb (exp_field binary64 bits =? 2047).
Fixpoint as_written (j : json) : json :=
  match j with
  | JObject l => JObject (map (fun kv => (fst kv, as_written (snd kv))) l)
  | JArray l => JArray (map as_written l)
  | JFloat b => if finite b then JFloat b else JNull
  | _ => j
  end.

(** [json::parse] of a whole text and [>>] from a stream, which may go on after the
    value, without a result where they throw or discard; the printer. *)
Class JsonText := { json_parse : list Z -> option json; json_read : list Z -> option json; json_dump : json -> list Z }.
(** The text of an object or an array: it reads back, and no text that stops
    earlier is JSON. *)
Definition well_printed `{JsonText} (j : json) : Prop :=
  json_read (json_dump j) = Some (as_written j) /\ forall n, (n < length (json_dump j))%nat -> json_read (take n (json_dump j)) = None.

Lemma find_as_written key j : json_find key (as_written j) = as_written <$> json_find key j.
Proof.
  destruct j as [l|l|s|n|n|b|b|]; try done; [|cbn; by destruct (finite b)]. cbn [as_written json_find]. induction l as [|[k v] l IH]; [done|]. cbn.
  destruct (bool_decide (k = key)); [done|exact IH].
Qed.
Lemma find_member key v l : NoDup l.*1 -> (key, v) ∈ l -> json_find key (JObject l) = Some v.
Proof.
  cbn [json_find]. induction l as [|[k w] l IH]; intros Hd Hin; [by apply elem_of_nil in Hin|]. cbn [fmap list_fmap fst] in Hd.
  apply list.NoDup_cons in Hd as [Hn Hd]. cbn [find fst]. apply elem_of_cons in Hin as [[= -> ->]|Hin]; [by rewrite bool_decide_true|].
  rewrite bool_decide_false; [by apply IH|]. intros ->. apply Hn, list_elem_of_fmap. by exists (key, v).
Qed.
Lemma find_no_member key l : key ∉ l.*1 -> json_find key (JObject l) = None.
Proof.
  cbn [json_find]. induction l as [|[k w] l IH]; [done|]. cbn [fmap list_fmap fst find]. intros Hn. apply not_elem_of_cons in Hn as [Hne Hn].
  rewrite bool_decide_false by congruence. by apply IH.
Qed.
