(* ===== verification/Mips.v ===== *)
(** The interpreter of librecomp/src/mips_interp.cpp, which executes guest
    functions that were not recompiled.

    Guest memory, the unaligned accesses and the floating-point registers come
    from the recompiler's header, and the table of recompiled functions from
    overlays.cpp: they are the parameters below.  The loop of [interpret] takes
    fuel, [None] when it runs out; [OutOfRange] is a conversion or a division
    that C++ leaves undefined. *)

From S2P Require Import Prelude Bytes RspMem Rdram Floats.
From Stdlib Require Import ZArith Lia Bool List SpecFloat.
From stdpp Require Import base list.
Open Scope Z_scope.

(** The other memory macros and helpers of recomp.h that the interpreter uses,
    at an effective address, and the unaligned ones at an offset and a base. *)
Class MemOps (M : Type) `{RdramOps M} := {
  MEM_BU : Z -> M -> Z;
  MEM_H : Z -> M -> Z;
  MEM_HU : Z -> M -> Z;
  MEM_WU : Z -> M -> Z;
  MEM_H_put : Z -> Z -> M -> M;
  load_doubleword : Z -> M -> Z;
  SD : Z -> Z -> M -> M;
  do_lwl : M -> Z -> Z -> Z -> Z;
  do_lwr : M -> Z -> Z -> Z -> Z;
  do_ldl : M -> Z -> Z -> Z -> Z;
  do_ldr : M -> Z -> Z -> Z -> Z;
  do_swl : Z -> Z -> Z -> M -> M;
  do_swr : Z -> Z -> Z -> M -> M;
  do_sdl : Z -> Z -> Z -> M -> M;
  do_sdr : Z -> Z -> Z -> M -> M }.

(** The views of [fpr]: [fl] has the pattern of [u32l], and [d] that of [u64]. *)
Class FprOps (F : Type) := {
  blank_fpr : F;
  u32l : F -> Z;
  set_u32l : Z -> F -> F;
  u64v : F -> Z;
  set_u64v : Z -> F -> F }.

(** The parts of [recomp_context] and memory that an instruction can change;
    [captured] lists the targets given to [recomp_capture_interp_target]. *)
Record machine (M F : Type) := Machine {
  regs : list Z; ctx_hi : Z; ctx_lo : Z; fprs : list F; cop0_regs : list Z; mem : M; captured : list Z }.
Arguments Machine {M F}.
Arguments regs {M F}.
Arguments ctx_hi {M F}.
Arguments ctx_lo {M F}.
Arguments fprs {M F}.
Arguments cop0_regs {M F}.
Arguments mem {M F}.
Arguments captured {M F}.

(** * Instruction fields *)

Definition field (insn lo n : Z) : Z := Z.land (Z.shiftr insn lo) (Z.ones n).
Definition f_op (insn : Z) : Z := Z.shiftr insn 26.
Definition f_rs (insn : Z) : Z := field insn 21 5.
Definition f_rt (insn : Z) : Z := field insn 16 5.
Definition f_rd (insn : Z) : Z := field insn 11 5.
Definition f_sa (insn : Z) : Z := field insn 6 5.
Definition f_fn (insn : Z) : Z := field insn 0 6.
Definition f_simm (insn : Z) : Z := s16 (field insn 0 16).
Definition f_uimm (insn : Z) : Z := field insn 0 16.

(** [(gpr)(int32_t)v]. *)
Definition sx32 (v : Z) : Z := u64 (s32 v).

Section Interp.
Context {M F : Type} `{MO : MemOps M} `{FO : FprOps F}.
(** The pattern of a result that is not a number, per format. *)
Context (nan_of : float_format -> list Z -> Z).
(** [recomp_lookup_function_or_null], with what the function does. *)
Context (lookup_function : Z -> option (machine M F -> machine M F)).

Abbreviation machine := (machine M F).

Definition R (m : machine) (i : Z) : Z := byte_at (regs m) i.
Definition put_reg (i v : Z) (m : machine) : machine :=
  Machine (set_byte (regs m) i v) (ctx_hi m) (ctx_lo m) (fprs m) (cop0_regs m) (mem m) (captured m).
Definition setR (i v : Z) (m : machine) : machine := if negb (i =? 0) then put_reg i v m else m.
Definition set_hi (v : Z) (m : machine) : machine :=
  Machine (regs m) v (ctx_lo m) (fprs m) (cop0_regs m) (mem m) (captured m).
Definition set_lo (v : Z) (m : machine) : machine :=
  Machine (regs m) (ctx_hi m) v (fprs m) (cop0_regs m) (mem m) (captured m).
Definition set_mem (v : M) (m : machine) : machine :=
  Machine (regs m) (ctx_hi m) (ctx_lo m) (fprs m) (cop0_regs m) v (captured m).
Definition set_cop0 (i v : Z) (m : machine) : machine :=
  Machine (regs m) (ctx_hi m) (ctx_lo m) (fprs m) (set_byte (cop0_regs m) i v) (mem m) (captured m).
Definition capture (target : Z) (m : machine) : machine :=
  Machine (regs m) (ctx_hi m) (ctx_lo m) (fprs m) (cop0_regs m) (mem m) (captured m ++ [target]).

Definition Fr (m : machine) (i : Z) : F := default blank_fpr (fprs m !! Z.to_nat i).
Definition put_fpr (i : Z) (f : F) (m : machine) : machine :=
  Machine (regs m) (ctx_hi m) (ctx_lo m) (<[Z.to_nat i := f]> (fprs m)) (cop0_regs m) (mem m) (captured m).
Definition put_u32l (i v : Z) (m : machine) : machine := put_fpr i (set_u32l v (Fr m i)) m.
Definition put_u64 (i v : Z) (m : machine) : machine := put_fpr i (set_u64v v (Fr m i)) m.

Inductive exec_result := Ran (m : machine) | Unimplemented | OutOfRange.

(** * SPECIAL *)

(** Products and quotients go to [hi] and [lo]. *)
Definition set_hilo (h l : Z) (m : machine) : machine := set_hi h (set_lo l m).
Definition mult_hilo (a b : Z) (m : machine) : machine :=
  let p := a * b in set_hilo (sx32 (u32 (Z.shiftr p 32))) (sx32 (u32 p)) m.
Definition div_signed (a b : Z) (m : machine) : exec_result :=
  if b =? 0 then Ran m
  else if (a =? -2147483648) && (b =? -1) then OutOfRange
  else Ran (set_hilo (sx32 (u32 (Z.rem a b))) (sx32 (u32 (Z.quot a b))) m).
Definition div_unsigned (a b : Z) (m : machine) : machine :=
  if b =? 0 then m else set_hilo (sx32 (a mod b)) (sx32 (a / b)) m.

Definition exec_special (insn : Z) (m : machine) : exec_result :=
  let rs := f_rs insn in
  let rt := f_rt insn in
  let rd := f_rd insn in
  let sa := f_sa insn in
  let a := R m rs in
  let b := R m rt in
  let ok v := Ran (setR rd v m) in
  match f_fn insn with
  | 0x00 => ok (sx32 (u32 (Z.shiftl (u32 b) sa)))
  | 0x02 => ok (sx32 (Z.shiftr (u32 b) sa))
  | 0x03 => ok (sx32 (u32 (Z.shiftr (s32 b) sa)))
  | 0x04 => ok (sx32 (u32 (Z.shiftl (u32 b) (Z.land a 0x1F))))
  | 0x06 => ok (sx32 (Z.shiftr (u32 b) (Z.land a 0x1F)))
  | 0x07 => ok (sx32 (u32 (Z.shiftr (s32 b) (Z.land a 0x1F))))
  | 0x10 => ok (ctx_hi m)
  | 0x11 => Ran (set_hi a m)
  | 0x12 => ok (ctx_lo m)
  | 0x13 => Ran (set_lo a m)
  | 0x18 => Ran (mult_hilo (s32 a) (s32 b) m)
  | 0x19 => Ran (mult_hilo (u32 a) (u32 b) m)
  | 0x1A => div_signed (s32 a) (s32 b) m
  | 0x1B => Ran (div_unsigned (u32 a) (u32 b) m)
  | 0x20 | 0x21 => ok (sx32 (u32 (u32 a + u32 b)))
  | 0x22 | 0x23 => ok (sx32 (u32 (u32 a - u32 b)))
  | 0x24 => ok (Z.land a b)
  | 0x25 => ok (Z.lor a b)
  | 0x26 => ok (Z.lxor a b)
  | 0x27 => ok (u64 (Z.lnot (Z.lor a b)))
  | 0x2A => ok (b2z (s64 a <? s64 b))
  | 0x2B => ok (b2z (a <? b))
  | 0x2C | 0x2D => ok (u64 (a + b))
  | 0x2E | 0x2F => ok (u64 (a - b))
  | 0x38 => ok (u64 (Z.shiftl b sa))
  | 0x3A => ok (Z.shiftr b sa)
  | 0x3B => ok (u64 (Z.shiftr (s64 b) sa))
  | 0x3C => ok (u64 (Z.shiftl b (sa + 32)))
  | 0x3E => ok (Z.shiftr b (sa + 32))
  | 0x3F => ok (u64 (Z.shiftr (s64 b) (sa + 32)))
  | 0x14 => ok (u64 (Z.shiftl b (Z.land a 0x3F)))
  | 0x16 => ok (Z.shiftr b (Z.land a 0x3F))
  | 0x17 => ok (u64 (Z.shiftr (s64 b) (Z.land a 0x3F)))
  | 0x0B => if negb (b =? 0) then ok a else Ran m
  | 0x0A => if b =? 0 then ok a else Ran m
  | 0x0F => Ran m
  | 0x30 | 0x31 | 0x32 | 0x33 | 0x34 | 0x36 => Ran m
  | _ => Unimplemented
  end.

(** * Immediates, loads and stores *)

Definition exec_immediate (insn : Z) (m : machine) : exec_result :=
  let rs := f_rs insn in
  let rt := f_rt insn in
  let simm := f_simm insn in
  let uimm := f_uimm insn in
  let a := R m rs in
  let ea := s64 (a + simm) in
  let ok v := Ran (setR rt v m) in
  let store f := Ran (set_mem (f (mem m)) m) in
  match f_op insn with
  | 0x08 | 0x09 => ok (sx32 (u32 (u32 a + u32 simm)))
  | 0x0A => ok (b2z (s64 a <? simm))
  | 0x0B => ok (b2z (a <? u64 simm))
  | 0x0C => ok (Z.land a uimm)
  | 0x0D => ok (Z.lor a uimm)
  | 0x0E => ok (Z.lxor a uimm)
  | 0x0F => ok (sx32 (u32 (Z.shiftl uimm 16)))
  | 0x18 | 0x19 => ok (u64 (a + u64 simm))
  | 0x20 => ok (u64 (MEM_B ea (mem m)))
  | 0x21 => ok (u64 (MEM_H ea (mem m)))
  | 0x23 => ok (sx32 (u32 (MEM_W ea (mem m))))
  | 0x24 => ok (u64 (MEM_BU ea (mem m)))
  | 0x25 => ok (u64 (MEM_HU ea (mem m)))
  | 0x27 => ok (u32 (MEM_WU ea (mem m)))
  | 0x37 => ok (u64 (load_doubleword ea (mem m)))
  | 0x28 => store (MEM_B_put ea (s8 (R m rt)))
  | 0x29 => store (MEM_H_put ea (s16 (R m rt)))
  | 0x2B => store (MEM_W_put ea (s32 (R m rt)))
  | 0x3F => store (SD ea (R m rt))
  | 0x22 => ok (u64 (do_lwl (mem m) (R m rt) (u64 simm) a))
  | 0x26 => ok (u64 (do_lwr (mem m) (R m rt) (u64 simm) a))
  | 0x2A => store (do_swl (u64 simm) a (R m rt))
  | 0x2E => store (do_swr (u64 simm) a (R m rt))
  | 0x1A => ok (u64 (do_ldl (mem m) (R m rt) (u64 simm) a))
  | 0x1B => ok (u64 (do_ldr (mem m) (R m rt) (u64 simm) a))
  | 0x2C => store (do_sdl (u64 simm) a (R m rt))
  | 0x2D => store (do_sdr (u64 simm) a (R m rt))
  | 0x30 => ok (sx32 (u32 (MEM_W ea (mem m))))
  | 0x38 => Ran (setR rt 1 (set_mem (MEM_W_put ea (s32 (R m rt)) (mem m)) m))
  | 0x2F => Ran m
  | 0x31 => Ran (put_u32l rt (u32 (MEM_WU ea (mem m))) m)
  | 0x35 => Ran (put_u64 rt (u64 (load_doubleword ea (mem m))) m)
  | 0x39 => store (MEM_W_put ea (s32 (u32l (Fr m rt))))
  | 0x3D => store (SD ea (u64v (Fr m rt)))
  | 0x10 => Ran m
  | _ => Unimplemented
  end.

(** * The floating-point unit *)

Definition is_dbl (fmt : Z) : bool := fmt =? 0x11.
Definition fmt_of (fmt : Z) : float_format := if is_dbl fmt then binary64 else binary32.
(** The pattern in a register, in the format of the instruction. *)
Definition fbits (fmt i : Z) (m : machine) : Z := if is_dbl fmt then u64v (Fr m i) else u32l (Fr m i).
Definition fvalue (fmt i : Z) (m : machine) : spec_float := decode (fmt_of fmt) (fbits fmt i m).
Definition put_fbits (fmt i v : Z) (m : machine) : machine := if is_dbl fmt then put_u64 i v m else put_u32l i v m.

Definition farith (op : float_format -> (list Z -> Z) -> Z -> Z -> Z) (fmt fd fs ft : Z) (m : machine) : exec_result :=
  Ran (put_fbits fmt fd (op (fmt_of fmt) (nan_of (fmt_of fmt)) (fbits fmt fs m) (fbits fmt ft m)) m).
Definition funary (op : float_format -> Z -> Z) (fmt fd fs : Z) (m : machine) : exec_result :=
  Ran (put_fbits fmt fd (op (fmt_of fmt) (fbits fmt fs m)) m).
(** Conversion to format [to] of a word or of a value. *)
Definition fconvert (to : float_format) (fmt fs : Z) (m : machine) : Z :=
  if fmt =? 0x14 then float_of_Z to (nan_of to) (s32 (u32l (Fr m fs)))
  else float_of_float to (nan_of to) (fvalue fmt fs m) (fbits fmt fs m).
Definition fto_word (r : rounding) (fmt fd fs : Z) (m : machine) : exec_result :=
  match int32_of_float r (fvalue fmt fs m) with Some z => Ran (put_u32l fd (u32 z) m) | None => OutOfRange end.

Definition condition_bit : Z := 23.
Definition compare_condition (c : Z) (lt eq : bool) : bool :=
  match c with
  | 0x2 => eq
  | 0xC => lt
  | 0xE => lt || eq
  | 0x1 => false
  | 0x4 => lt
  | 0x6 => lt || eq
  | _ => eq
  end.
Definition set_condition (cond : bool) (m : machine) : machine :=
  let r := byte_at (cop0_regs m) 1 in
  set_cop0 1 (if cond then Z.lor r (Z.shiftl 1 condition_bit) else Z.ldiff r (Z.shiftl 1 condition_bit)) m.
Definition fcompare (fmt fs ft fn : Z) (m : machine) : exec_result :=
  let a := fvalue fmt fs m in
  let b := fvalue fmt ft m in
  Ran (set_condition (compare_condition (Z.land fn 0xF) (SFltb a b) (SFeqb a b)) m).

Definition exec_fcompute (insn : Z) (m : machine) : exec_result :=
  let fmt := f_rs insn in
  let ft := f_rt insn in
  let fs := f_rd insn in
  let fd := f_sa insn in
  match f_fn insn with
  | 0x00 => farith float_add fmt fd fs ft m
  | 0x01 => farith float_sub fmt fd fs ft m
  | 0x02 => farith float_mul fmt fd fs ft m
  | 0x03 => farith float_div fmt fd fs ft m
  | 0x04 => funary (fun F => float_sqrt F (nan_of F)) fmt fd fs m
  | 0x05 => funary float_abs fmt fd fs m
  | 0x06 => funary (fun _ bits => bits) fmt fd fs m
  | 0x07 => funary float_neg fmt fd fs m
  | 0x20 => Ran (put_u32l fd (fconvert binary32 fmt fs m) m)
  | 0x21 => Ran (put_u64 fd (fconvert binary64 fmt fs m) m)
  | 0x24 => fto_word Truncate fmt fd fs m
  | 0x0D => fto_word Truncate fmt fd fs m
  | 0x0C => fto_word RoundHalfAway fmt fd fs m
  | 0x0E => fto_word Ceil fmt fd fs m
  | 0x0F => fto_word Floor fmt fd fs m
  | fn => if fn >=? 0x30 then fcompare fmt fs ft fn m else Unimplemented
  end.

Definition exec_cop1 (insn : Z) (m : machine) : exec_result :=
  let rt := f_rt insn in
  let fs := f_rd insn in
  match f_rs insn with
  | 0x00 => Ran (setR rt (sx32 (u32l (Fr m fs))) m)
  | 0x01 => Ran (setR rt (u64 (u64v (Fr m fs))) m)
  | 0x02 => Ran (setR rt (sx32 (byte_at (cop0_regs m) 0)) m)
  | 0x04 => Ran (put_u32l fs (u32 (R m rt)) m)
  | 0x05 => Ran (put_u64 fs (R m rt) m)
  | 0x06 => Ran m
  | 0x10 | 0x11 | 0x14 | 0x15 => exec_fcompute insn m
  | _ => Unimplemented
  end.

(** ** [exec_noncontrol] *)
Definition exec_noncontrol (insn : Z) (m : machine) : exec_result :=
  match f_op insn with
  | 0x00 => exec_special insn m
  | 0x11 => exec_cop1 insn m
  | _ => exec_immediate insn m
  end.

(** * Control flow *)

Definition ifetch (m : machine) (pc : Z) : Z := u32 (MEM_WU (s32 pc) (mem m)).
Definition kMaxInterpDepth : Z := 256.

(** What one iteration of the loop does: go on at a program counter, return to
    the caller, interpret a callee and go on, or stop. *)
Inductive step_result :=
| Goto (m : machine) (pc : Z) | Return (m : machine) | Callee (m : machine) (target resume : Z)
| Bail (m : machine) | Undef.

(** The instruction of the delay slot, then [k]. *)
Definition after_slot (pc : Z) (m : machine) (k : machine -> step_result) : step_result :=
  match exec_noncontrol (ifetch m (u32 (pc + 4))) m with
  | Ran m => k m
  | Unimplemented => Bail m
  | OutOfRange => Undef
  end.

(** A jump to [target]: natively if it is recompiled, else captured; [resume]
    is where a call continues. *)
Definition jump (target : Z) (resume : option Z) (m : machine) : step_result :=
  match lookup_function (s32 target) with
  | Some nf => match resume with Some pc => Goto (nf m) pc | None => Return (nf m) end
  | None =>
      let m := capture target m in
      match resume with Some pc => Callee m target pc | None => Goto m target end
  end.

(** Whether a branch is taken, nullifies its slot when it is not, and links. *)
Definition branch_of (insn : Z) (m : machine) : option (bool * bool * bool) :=
  let a := R m (f_rs insn) in
  let b := R m (f_rt insn) in
  match f_op insn with
  | 0x01 =>
      match f_rt insn with
      | 0x00 => Some (s64 a <? 0, false, false)
      | 0x01 => Some (0 <=? s64 a, false, false)
      | 0x02 => Some (s64 a <? 0, true, false)
      | 0x03 => Some (0 <=? s64 a, true, false)
      | 0x10 => Some (s64 a <? 0, false, true)
      | 0x11 => Some (0 <=? s64 a, false, true)
      | _ => None
      end
  | 0x04 => Some (a =? b, false, false)
  | 0x05 => Some (negb (a =? b), false, false)
  | 0x06 => Some (s64 a <=? 0, false, false)
  | 0x07 => Some (0 <? s64 a, false, false)
  | 0x14 => Some (a =? b, true, false)
  | 0x15 => Some (negb (a =? b), true, false)
  | 0x16 => Some (s64 a <=? 0, true, false)
  | 0x17 => Some (0 <? s64 a, true, false)
  | _ => None
  end.
Definition is_branch (op : Z) : bool :=
  (op =? 0x01) || ((0x04 <=? op) && (op <=? 0x07)) || ((0x14 <=? op) && (op <=? 0x17)).

Definition branch_target (pc insn : Z) : Z := u32 (pc + 4 + Z.shiftl (f_simm insn) 2).
Definition take_branch (take likely : bool) (pc insn : Z) (m : machine) : step_result :=
  if likely && negb take then Goto m (u32 (pc + 8))
  else after_slot pc m (fun m => Goto m (if take then branch_target pc insn else u32 (pc + 8))).

Definition step_jump (pc insn : Z) (m : machine) : step_result :=
  let target := Z.lor (Z.land (u32 (pc + 4)) 0xF0000000) (Z.shiftl (Z.land insn 0x03FFFFFF) 2) in
  let link := u32 (pc + 8) in
  let is_call := f_op insn =? 0x03 in
  let m := if is_call then put_reg 31 (sx32 link) m else m in
  after_slot pc m (jump target (if is_call then Some link else None)).

Definition step_jump_register (return_target pc insn : Z) (m : machine) : step_result :=
  let rd := f_rd insn in
  let link := f_fn insn =? 0x09 in
  let target := u32 (R m (f_rs insn)) in
  let ret := u32 (pc + 8) in
  let m := if link && negb (rd =? 0) then put_reg rd (sx32 ret) m else m in
  after_slot pc m (fun m =>
    if negb link && (target =? return_target) then Return m
    else jump target (if link then Some ret else None) m).

Definition step_cop1_branch (pc insn : Z) (m : machine) : step_result :=
  let tf := Z.testbit insn 16 in
  let cond := Z.testbit (byte_at (cop0_regs m) 1) condition_bit in
  take_branch (if tf then cond else negb cond) (Z.testbit insn 17) pc insn m.

(** One iteration of the loop of [interpret]. *)
Definition interp_step (return_target pc : Z) (m : machine) : step_result :=
  if negb (Z.land pc 3 =? 0) then Bail m
  else
    let insn := ifetch m pc in
    let op := f_op insn in
    if (op =? 0x02) || (op =? 0x03) then step_jump pc insn m
    else if (op =? 0x00) && ((f_fn insn =? 0x08) || (f_fn insn =? 0x09)) then step_jump_register return_target pc insn m
    else if is_branch op then
      match branch_of insn m with
      | None => Bail m
      | Some (take, likely, link) =>
          take_branch take likely pc insn (if link then put_reg 31 (sx32 (u32 (pc + 8))) m else m)
      end
    else if (op =? 0x11) && (f_rs insn =? 0x08) then step_cop1_branch pc insn m
    else match exec_noncontrol insn m with
         | Ran m => Goto m (u32 (pc + 4))
         | Unimplemented => Bail m
         | OutOfRange => Undef
         end.

(** ** [interpret]

    The entry check, then the loop; both at a depth.  [Stopped] is the [false]
    that the caller turns into an abort. *)
Inductive interp_result := Returned (m : machine) | Stopped (m : machine) | Undefined_behaviour.

Definition enter (depth : Z) (m : machine) (loop : Z -> option interp_result) : option interp_result :=
  if depth >? kMaxInterpDepth then Some (Stopped m) else loop (u32 (R m 31)).

Fixpoint interp_loop (fuel : nat) (depth return_target pc : Z) (m : machine) : option interp_result :=
  match fuel with
  | O => None
  | S fuel =>
      match interp_step return_target pc m with
      | Goto m pc => interp_loop fuel depth return_target pc m
      | Return m => Some (Returned m)
      | Bail m => Some (Stopped m)
      | Undef => Some Undefined_behaviour
      | Callee m target resume =>
          match enter (depth + 1) m (fun ra => interp_loop fuel (depth + 1) ra target m) with
          | Some (Returned m) => interp_loop fuel depth return_target resume m
          | r => r
          end
      end
  end.
Definition interpret (fuel : nat) (start_pc depth : Z) (m : machine) : option interp_result :=
  enter depth m (fun ra => interp_loop fuel depth ra start_pc m).
Definition recomp_interpret_function (fuel : nat) (start_pc : Z) (m : machine) : option interp_result :=
  interpret fuel start_pc 0 m.
End Interp.
Arguments exec_result : clear implicits.
Arguments step_result : clear implicits.
Arguments interp_result : clear implicits.
