(* ===== verification/MipsSpec.v ===== *)
(** What the interpreter keeps: its registers stay machine words with [r0] zero
    whatever it runs, and its results do not depend on the fuel. *)

From S2P Require Import Prelude Bytes RspMem Rdram Floats Mips.
From Stdlib Require Import ZArith Lia Bool List SpecFloat.
From stdpp Require Import base list.
Open Scope Z_scope.

(** * 64-bit words *)

Definition is_u64 (x : Z) : Prop := 0 <= x < 2 ^ 64.
Create HintDb word.
Lemma u64_range x : is_u64 (u64 x).
Proof. unfold is_u64, u64. apply Z.mod_pos_bound. lia. Qed.
Lemma sx32_range x : is_u64 (sx32 x).
Proof. apply u64_range. Qed.
Lemma land_u64 a b : is_u64 a -> is_u64 (Z.land a b).
Proof.
  unfold is_u64. intros Ha. pose proof (land_bound_r b a ltac:(lia)) as Hl. rewrite Z.land_comm in Hl. lia.
Qed.
Lemma lor_u64 a b : is_u64 a -> is_u64 b -> is_u64 (Z.lor a b).
Proof. apply lor_bound. lia. Qed.
Lemma lxor_u64 a b : is_u64 a -> is_u64 b -> is_u64 (Z.lxor a b).
Proof. apply lxor_bound. lia. Qed.
Lemma shiftr_u64 a n : 0 <= n -> is_u64 a -> is_u64 (Z.shiftr a n).
Proof.
  unfold is_u64. intros Hn Ha. rewrite Z.shiftr_div_pow2 by assumption.
  assert (0 < 2 ^ n) by (apply Z.pow_pos_nonneg; lia). split; [apply Z.div_pos; lia|].
  apply Z.div_lt_upper_bound; [lia|]. nia.
Qed.
Lemma b2z_u64 b : is_u64 (b2z b).
Proof. destruct b; unfold is_u64; cbn; lia. Qed.
Lemma u32_u64 x : is_u64 (u32 x).
Proof. pose proof (u32_range x) as Hr. unfold is_u32, is_u64 in *. lia. Qed.
Lemma one_u64 : is_u64 1.
Proof. unfold is_u64. lia. Qed.

Lemma field_range insn lo n : 0 <= n -> 0 <= field insn lo n < 2 ^ n.
Proof. intros Hn. unfold field. rewrite Z.land_ones by assumption. apply Z.mod_pos_bound, Z.pow_pos_nonneg; lia. Qed.
Lemma uimm_u64 insn : is_u64 (f_uimm insn).
Proof. pose proof (field_range insn 0 16 ltac:(lia)) as Hf. unfold f_uimm, is_u64. lia. Qed.
Lemma sa_nonneg insn : 0 <= f_sa insn.
Proof. apply (field_range insn 6 5). lia. Qed.
Lemma sa32_nonneg insn : 0 <= f_sa insn + 32.
Proof. pose proof (sa_nonneg insn). lia. Qed.
Lemma land_nonneg_63 a : 0 <= Z.land a 63.
Proof. apply Z.land_nonneg. right. lia. Qed.
#[export] Hint Resolve u64_range sx32_range land_u64 lor_u64 lxor_u64 shiftr_u64 b2z_u64 u32_u64 one_u64 uimm_u64
  sa_nonneg sa32_nonneg land_nonneg_63 : word.

(** * Well-formed machines *)

Section Spec.
Context {M F : Type} `{MO : MemOps M} `{FO : FprOps F}.
Context (nan_of : float_format -> list Z -> Z).
Abbreviation machine := (machine M F).

Record machine_ok (m : machine) : Prop := {
  mo_length : vec_size (regs m) = 32;
  mo_words : forall i, is_u64 (R m i);
  mo_zero : R m 0 = 0;
  mo_hi : is_u64 (ctx_hi m);
  mo_lo : is_u64 (ctx_lo m) }.

(** Parts of the machine the invariant does not look at. *)
Lemma machine_ok_same m m' : machine_ok m -> regs m' = regs m -> ctx_hi m' = ctx_hi m -> ctx_lo m' = ctx_lo m -> machine_ok m'.
Proof. intros [H1 H2 H3 H4 H5] E1 E2 E3. constructor; unfold R in *; rewrite ?E1, ?E2, ?E3; assumption. Qed.
Lemma R_out m i : machine_ok m -> 32 <= i -> R m i = 0.
Proof.
  intros Hm Hi. pose proof (mo_length m Hm) as Hl. unfold R, byte_at, vec_size in *. rewrite lookup_ge_None_2 by lia. reflexivity.
Qed.
Lemma R_put m i v j : machine_ok m -> 0 <= i < 32 -> 0 <= j -> R (put_reg i v m) j = if i =? j then v else R m j.
Proof. intros Hm Hi Hj. unfold R, put_reg. cbn [regs]. apply byte_at_set; [rewrite (mo_length m Hm); lia|assumption]. Qed.
Lemma put_reg_ok i v m : 0 < i < 32 -> is_u64 v -> machine_ok m -> machine_ok (put_reg i v m).
Proof.
  intros Hi Hv Hm. pose proof Hm as [H1 H2 H3 H4 H5].
  constructor; cbn [regs put_reg ctx_hi ctx_lo]; try assumption.
  - rewrite size_set. exact H1.
  - intros j. destruct (Z.le_gt_cases 0 j) as [Hj|Hj].
    + rewrite R_put by (assumption || lia). destruct (i =? j); auto.
    + replace (R (put_reg i v m) j) with (R (put_reg i v m) 0) by (unfold R, byte_at; f_equal; f_equal; lia).
      rewrite R_put by (assumption || lia). destruct (i =? 0); auto.
  - rewrite R_put by (assumption || lia). destruct (Z.eqb_spec i 0); [lia|assumption].
Qed.
Lemma setR_ok i v m : 0 <= i < 32 -> is_u64 v -> machine_ok m -> machine_ok (setR i v m).
Proof.
  intros Hi Hv Hm. unfold setR. destruct (Z.eqb_spec i 0); [exact Hm|]. cbn [negb]. apply put_reg_ok; auto. lia.
Qed.
Lemma set_hilo_ok h l m : is_u64 h -> is_u64 l -> machine_ok m -> machine_ok (set_hilo h l m).
Proof. intros Hh Hl [H1 H2 H3 H4 H5]. constructor; assumption. Qed.
Lemma set_hi_ok v m : is_u64 v -> machine_ok m -> machine_ok (set_hi v m).
Proof. intros Hv [H1 H2 H3 H4 H5]. constructor; assumption. Qed.
Lemma set_lo_ok v m : is_u64 v -> machine_ok m -> machine_ok (set_lo v m).
Proof. intros Hv [H1 H2 H3 H4 H5]. constructor; assumption. Qed.
Lemma set_mem_ok v m : machine_ok m -> machine_ok (set_mem v m).
Proof. intros Hm. apply (machine_ok_same m); auto. Qed.
Lemma set_cop0_ok i v m : machine_ok m -> machine_ok (set_cop0 i v m).
Proof. intros Hm. apply (machine_ok_same m); auto. Qed.
Lemma put_fpr_ok i f m : machine_ok m -> machine_ok (put_fpr i f m).
Proof. intros Hm. apply (machine_ok_same m); auto. Qed.
Lemma capture_ok v m : machine_ok m -> machine_ok (capture v m).
Proof. intros Hm. apply (machine_ok_same m); auto. Qed.
Lemma rd_range insn : 0 <= f_rd insn < 32.
Proof. apply (field_range insn 11 5). lia. Qed.
Lemma rt_range insn : 0 <= f_rt insn < 32.
Proof. apply (field_range insn 16 5). lia. Qed.
Lemma R_word m i : machine_ok m -> is_u64 (R m i).
Proof. intros Hm. apply (mo_words m Hm). Qed.
Lemma hi_word m : machine_ok m -> is_u64 (ctx_hi m).
Proof. apply mo_hi. Qed.
Lemma lo_word m : machine_ok m -> is_u64 (ctx_lo m).
Proof. apply mo_lo. Qed.
#[local] Hint Resolve setR_ok set_hilo_ok set_hi_ok set_lo_ok set_mem_ok set_cop0_ok put_fpr_ok rd_range rt_range R_word hi_word lo_word : word.

(** The outcome of an instruction keeps the invariant. *)
Definition ran_ok (r : exec_result M F) : Prop := match r with Ran m => machine_ok m | _ => True end.
Lemma ran_setR i v m : 0 <= i < 32 -> is_u64 v -> machine_ok m -> ran_ok (Ran (setR i v m)).
Proof. apply setR_ok. Qed.

Lemma exec_special_ok insn m : machine_ok m -> ran_ok (exec_special insn m).
Proof.
  intros Hm. unfold exec_special, mult_hilo, div_signed, div_unsigned. cbv zeta.
  repeat case_match; try exact I; unfold ran_ok; auto 6 with word.
Qed.
Lemma exec_immediate_ok insn m : machine_ok m -> ran_ok (exec_immediate insn m).
Proof.
  intros Hm. unfold exec_immediate, put_u32l, put_u64. cbv zeta.
  repeat case_match; try exact I; unfold ran_ok; auto 6 with word.
Qed.
Lemma exec_fcompute_ok insn m : machine_ok m -> ran_ok (exec_fcompute nan_of insn m).
Proof.
  intros Hm. unfold exec_fcompute, farith, funary, fto_word, fcompare, set_condition, put_fbits, put_u32l, put_u64. cbv zeta.
  repeat case_match; try exact I; unfold ran_ok; auto 6 with word.
Qed.
Lemma exec_cop1_ok insn m : machine_ok m -> ran_ok (exec_cop1 nan_of insn m).
Proof.
  intros Hm. pose proof (exec_fcompute_ok insn m Hm). unfold exec_cop1, put_u32l, put_u64. cbv zeta.
  repeat case_match; try exact I; try assumption; unfold ran_ok; auto 6 with word.
Qed.
Lemma exec_noncontrol_ok insn m : machine_ok m -> ran_ok (exec_noncontrol nan_of insn m).
Proof.
  intros Hm. pose proof (exec_special_ok insn m Hm). pose proof (exec_cop1_ok insn m Hm).
  pose proof (exec_immediate_ok insn m Hm). unfold exec_noncontrol. repeat case_match; assumption.
Qed.

(** ** The whole interpreter *)

Context (lookup_function : Z -> option (machine -> machine)).
(** Recompiled functions keep the invariant. *)
Definition natives_ok : Prop := forall t nf m, lookup_function t = Some nf -> machine_ok m -> machine_ok (nf m).
Context (Hnatives : natives_ok).

Definition step_ok (r : step_result M F) : Prop :=
  match r with Goto m _ | Return m | Callee m _ _ | Bail m => machine_ok m | Undef => True end.

Lemma after_slot_ok pc m k : machine_ok m -> (forall m', machine_ok m' -> step_ok (k m')) -> step_ok (after_slot nan_of pc m k).
Proof.
  intros Hm Hk. unfold after_slot. pose proof (exec_noncontrol_ok (ifetch m (u32 (pc + 4))) m Hm) as He.
  destruct (exec_noncontrol _ _ m); cbn in *; auto.
Qed.
Lemma jump_ok target resume m : machine_ok m -> step_ok (jump lookup_function target resume m).
Proof.
  intros Hm. unfold jump. destruct (lookup_function (s32 target)) as [nf|] eqn:El.
  - destruct resume; cbn; eauto.
  - destruct resume; cbn; apply capture_ok; assumption.
Qed.
Lemma take_branch_ok take likely pc insn m : machine_ok m -> step_ok (take_branch nan_of take likely pc insn m).
Proof. intros Hm. unfold take_branch. destruct (likely && negb take); [exact Hm|]. apply after_slot_ok; auto. Qed.
Lemma link_ok (b : bool) m v : machine_ok m -> machine_ok (if b then put_reg 31 (sx32 v) m else m).
Proof. intros Hm. destruct b; [|exact Hm]. apply put_reg_ok; auto with word. lia. Qed.
Lemma interp_step_ok ret pc m : machine_ok m -> step_ok (interp_step nan_of lookup_function ret pc m).
Proof.
  intros Hm. unfold interp_step. destruct (negb _); [exact Hm|]. cbv zeta.
  destruct (_ || _); [|destruct (_ && _); [|destruct (is_branch _); [|destruct (_ && _)]]].
  - apply after_slot_ok; [apply link_ok; exact Hm|]. intros m' Hm'. apply jump_ok. exact Hm'.
  - unfold step_jump_register. apply after_slot_ok.
    + destruct (_ && _) eqn:E; [|exact Hm]. apply andb_true_iff in E as [_ E]. apply negb_true_iff, Z.eqb_neq in E.
      pose proof (rd_range (ifetch m pc)). apply put_reg_ok; auto with word. lia.
    + intros m' Hm'. destruct (_ && _); [exact Hm'|apply jump_ok; exact Hm'].
  - destruct (branch_of _ m) as [[[take likely] link]|]; [|exact Hm]. apply take_branch_ok, link_ok, Hm.
  - apply take_branch_ok. exact Hm.
  - pose proof (exec_noncontrol_ok (ifetch m pc) m Hm) as He. destruct (exec_noncontrol _ _ m); cbn in *; auto.
Qed.

Definition result_ok (r : interp_result M F) : Prop :=
  match r with Returned m | Stopped m => machine_ok m | Undefined_behaviour => True end.
Lemma interp_loop_ok fuel : forall depth ret pc m r, machine_ok m ->
  interp_loop nan_of lookup_function fuel depth ret pc m = Some r -> result_ok r.
Proof.
  induction fuel as [|fuel IH]; intros depth ret pc m r Hm; [discriminate|]. cbn [interp_loop].
  pose proof (interp_step_ok ret pc m Hm) as Hs. destruct (interp_step _ _ ret pc m) as [m1 pc1|m1|m1 t resume|m1|]; cbn in Hs.
  - apply IH. exact Hs.
  - intros [= <-]. exact Hs.
  - unfold enter. destruct (_ >? _); [intros [= <-]; exact Hs|].
    destruct (interp_loop _ _ fuel (depth + 1) _ t m1) as [[m2|m2|]|] eqn:E; try (intros [= <-]; try exact I);
      apply IH in E; auto. intros Hr. apply IH in Hr; auto.
  - intros [= <-]. exact Hs.
  - intros [= <-]. exact I.
Qed.

(** C22: From a well-formed machine, and if recompiled functions keep it so, the interpreter
    leaves r0 zero and every register, hi and lo a 64-bit word, however it ends. *)
Theorem interpreter_keeps_words fuel pc m r : machine_ok m ->
  recomp_interpret_function nan_of lookup_function fuel pc m = Some r -> result_ok r.
Proof.
  intros Hm. unfold recomp_interpret_function, interpret, enter.
  destruct (_ >? _); [intros [= <-]; exact Hm|]. apply interp_loop_ok. exact Hm.
Qed.

(** ** Fuel *)

Lemma interp_loop_more fuel : forall fuel' depth ret pc m r, (fuel <= fuel')%nat ->
  interp_loop nan_of lookup_function fuel depth ret pc m = Some r ->
  interp_loop nan_of lookup_function fuel' depth ret pc m = Some r.
Proof.
  induction fuel as [|fuel IH]; intros fuel' depth ret pc m r Hf; [discriminate|].
  destruct fuel' as [|fuel']; [lia|]. cbn [interp_loop].
  destruct (interp_step _ _ ret pc m) as [m1 pc1|m1|m1 t resume|m1|]; auto.
  - apply IH. lia.
  - unfold enter. destruct (_ >? _); auto.
    destruct (interp_loop _ _ fuel (depth + 1) _ t m1) as [q|] eqn:E; [|discriminate].
    rewrite (IH fuel' _ _ _ _ q ltac:(lia) E). destruct q as [m2|m2|]; auto. apply IH. lia.
Qed.
Theorem interpreter_fuel_irrelevant fuel fuel' pc m r r' :
  recomp_interpret_function nan_of lookup_function fuel pc m = Some r ->
  recomp_interpret_function nan_of lookup_function fuel' pc m = Some r' -> r = r'.
Proof.
  unfold recomp_interpret_function, interpret, enter. destruct (_ >? _); [congruence|]. intros H1 H2.
  apply (interp_loop_more fuel (Nat.max fuel fuel')) in H1; [|lia].
  apply (interp_loop_more fuel' (Nat.max fuel fuel')) in H2; [|lia]. congruence.
Qed.
End Spec.
