(* ===== verification/MipsRun.v ===== *)
(** The interpreter's arithmetic against a reference, and its runs: straight-line
    functions, branches, calls and the depth limit. *)

From S2P Require Import Prelude Bytes RspMem Rdram Floats Mips MipsSpec.
From Stdlib Require Import ZArith Lia Bool List SpecFloat.
From stdpp Require Import base list.
Open Scope Z_scope.

(** * Casts *)

Lemma mod_eq_add x k n : 0 < n -> (x + k * n) mod n = x mod n.
Proof. intros Hn. apply Z.mod_add. lia. Qed.
Lemma u32_of_u64 x : u32 (u64 x) = u32 x.
Proof.
  unfold u32, u64. change 18446744073709551616 with (4294967296 * 4294967296).
  rewrite Z.rem_mul_r by lia. rewrite (Z.mul_comm 4294967296), mod_eq_add by lia. apply Z.mod_mod. lia.
Qed.
Lemma s32_of_u32 x y : u32 x = u32 y -> s32 x = s32 y.
Proof. unfold s32, u32. cbv zeta. intros ->. reflexivity. Qed.
Lemma s32_u64 x : s32 (u64 x) = s32 x.
Proof. apply s32_of_u32, u32_of_u64. Qed.
Lemma s64_small x : is_s32 x -> s64 (u64 x) = x.
Proof. unfold is_s32, s64, u64. intros Hx. cbv zeta. rewrite Z.mod_mod by lia. zcase; zlia. Qed.
Lemma s64_sx32 v : s64 (sx32 v) = s32 v.
Proof. apply s64_small, s32_range. Qed.
Lemma u64_s64 x : is_u64 x -> u64 (s64 x) = x.
Proof. unfold is_u64, s64, u64. cbv zeta. intros Hx. zcase; zlia. Qed.
Lemma s64_b2z b : s64 (b2z b) = b2z b.
Proof. destruct b; reflexivity. Qed.
Lemma b2z_s32 b : is_s32 (b2z b).
Proof. destruct b; unfold is_s32; cbn; lia. Qed.
Lemma u32_add_u32 a b : u32 (u32 a + u32 b) = u32 (a + b).
Proof. unfold u32. symmetry. apply Zplus_mod. Qed.
Lemma u32_sub_u32 a b : u32 (u32 a - u32 b) = u32 (a - b).
Proof. unfold u32. symmetry. apply Zminus_mod. Qed.
Lemma u32_mul_u32 a b : u32 (u32 a * b) = u32 (a * b).
Proof. unfold u32. apply Zmult_mod_idemp_l. Qed.
Lemma u64_ones x : u64 x = Z.land x (Z.ones 64).
Proof. rewrite Z.land_ones by lia. reflexivity. Qed.
Lemma land_of_u64 a b : Z.land (u64 a) (u64 b) = u64 (Z.land a b).
Proof. rewrite !u64_ones. apply Z.bits_inj'. intros i Hi. rewrite !Z.land_spec. destruct (Z.testbit a i), (Z.testbit b i), (Z.testbit _ i); reflexivity. Qed.
Lemma lor_of_u64 a b : Z.lor (u64 a) (u64 b) = u64 (Z.lor a b).
Proof.
  rewrite !u64_ones. apply Z.bits_inj'. intros i Hi. rewrite !Z.lor_spec, !Z.land_spec, !Z.lor_spec.
  destruct (Z.testbit a i), (Z.testbit b i), (Z.testbit _ i); reflexivity.
Qed.
Lemma lxor_of_u64 a b : Z.lxor (u64 a) (u64 b) = u64 (Z.lxor a b).
Proof.
  rewrite !u64_ones. apply Z.bits_inj'. intros i Hi. rewrite !Z.lxor_spec, !Z.land_spec, !Z.lxor_spec.
  destruct (Z.testbit a i), (Z.testbit b i), (Z.testbit _ i); reflexivity.
Qed.
Lemma lnot_of_u64 a : u64 (Z.lnot (u64 a)) = u64 (Z.lnot a).
Proof.
  rewrite !u64_ones. apply Z.bits_inj'. intros i Hi. rewrite !Z.land_spec, !Z.lnot_spec, Z.land_spec by assumption.
  destruct (Z.testbit a i), (Z.testbit _ i); reflexivity.
Qed.
(** Signed 32-bit numbers are closed under the bitwise operations. *)
Lemma s32_bits x : is_s32 x <-> forall i, 31 <= i -> Z.testbit x i = Z.testbit x 31.
Proof.
  assert (E : is_s32 x <-> -1 <= x / 2 ^ 31 <= 0).
  { unfold is_s32. split; intros; zlia. }
  rewrite E. split.
  - intros Hx i Hi. replace i with (i - 31 + 31) by lia.
    rewrite <- Z.shiftr_spec, (Z.shiftr_div_pow2 x 31) by lia.
    replace (Z.testbit x 31) with (Z.testbit (x / 2 ^ 31) 0) by (rewrite <- Z.shiftr_div_pow2, Z.shiftr_spec by lia; reflexivity).
    assert (D : x / 2 ^ 31 = -1 \/ x / 2 ^ 31 = 0) by lia. destruct D as [-> | ->]; rewrite ?Z.bits_m1, ?Z.bits_0 by lia; reflexivity.
  - intros Hb. assert (D : x / 2 ^ 31 = if Z.testbit x 31 then -1 else 0).
    { rewrite <- Z.shiftr_div_pow2 by lia. apply Z.bits_inj'. intros i Hi. rewrite Z.shiftr_spec, Hb by lia.
      destruct (Z.testbit x 31); rewrite ?Z.bits_m1, ?Z.bits_0 by lia; reflexivity. }
    rewrite D. destruct (Z.testbit x 31); lia.
Qed.
Lemma land_s32 a b : is_s32 a -> is_s32 b -> is_s32 (Z.land a b).
Proof. rewrite !s32_bits. intros Ha Hb i Hi. rewrite !Z.land_spec, Ha, Hb by assumption. reflexivity. Qed.
Lemma lor_s32 a b : is_s32 a -> is_s32 b -> is_s32 (Z.lor a b).
Proof. rewrite !s32_bits. intros Ha Hb i Hi. rewrite !Z.lor_spec, Ha, Hb by assumption. reflexivity. Qed.
Lemma lxor_s32 a b : is_s32 a -> is_s32 b -> is_s32 (Z.lxor a b).
Proof. rewrite !s32_bits. intros Ha Hb i Hi. rewrite !Z.lxor_spec, Ha, Hb by assumption. reflexivity. Qed.
Lemma lnot_s32 a : is_s32 a -> is_s32 (Z.lnot a).
Proof. unfold is_s32, Z.lnot. lia. Qed.
Lemma div_s32 a n : 0 <= n -> is_s32 a -> is_s32 (a / 2 ^ n).
Proof.
  unfold is_s32. intros Hn Ha. assert (P : 0 < 2 ^ n) by (apply Z.pow_pos_nonneg; lia).
  split; [apply Z.div_le_lower_bound|apply Z.div_lt_upper_bound]; nia.
Qed.
Create HintDb s32.
#[export] Hint Resolve land_s32 lor_s32 lxor_s32 lnot_s32 b2z_s32 s32_range : s32.

(** * The reference *)

(** The result of a 32-bit SPECIAL instruction on signed operands. *)
Definition word_result (fn sa a b : Z) : option Z :=
  match fn with
  | 0x00 => Some (s32 (b * 2 ^ sa))
  | 0x02 => Some (s32 (u32 b / 2 ^ sa))
  | 0x03 => Some (b / 2 ^ sa)
  | 0x04 => Some (s32 (b * 2 ^ (a mod 32)))
  | 0x06 => Some (s32 (u32 b / 2 ^ (a mod 32)))
  | 0x07 => Some (b / 2 ^ (a mod 32))
  | 0x20 | 0x21 => Some (s32 (a + b))
  | 0x22 | 0x23 => Some (s32 (a - b))
  | 0x24 => Some (Z.land a b)
  | 0x25 => Some (Z.lor a b)
  | 0x26 => Some (Z.lxor a b)
  | 0x27 => Some (Z.lnot (Z.lor a b))
  | 0x2A => Some (b2z (a <? b))
  | 0x2B => Some (b2z (u32 a <? u32 b))
  | _ => None
  end.

Section Alu.
Context {M F : Type} `{MO : MemOps M} `{FO : FprOps F}.
Context (nan_of : float_format -> list Z -> Z).
Abbreviation machine := (machine M F).

(** A register that holds a sign-extended word. *)
Definition holds (m : machine) (i a : Z) : Prop := is_s32 a /\ R m i = u64 a.

Lemma holds_s64 m i a : holds m i a -> s64 (R m i) = a.
Proof. intros [Ha ->]. apply s64_small. exact Ha. Qed.
Lemma holds_put m rd v x : machine_ok m -> 0 < rd < 32 -> is_s32 v -> x = u64 v ->
  let m' := setR rd x m in holds m' rd v /\ (forall i, 0 <= i -> i <> rd -> R m' i = R m i).
Proof.
  intros Hm Hrd Hv ->. unfold setR. destruct (Z.eqb_spec rd 0); [lia|]. cbn [negb]. cbv zeta. split.
  - split; [exact Hv|]. rewrite R_put by (assumption || lia). rewrite Z.eqb_refl. reflexivity.
  - intros i Hi Hn. rewrite R_put by (assumption || lia). destruct (Z.eqb_spec rd i); [congruence|reflexivity].
Qed.
Lemma land_31 a : Z.land (u64 a) 31 = a mod 32.
Proof.
  change 31 with (2 ^ 5 - 1). rewrite land_ones_mod by lia. unfold u64. change (2 ^ 5) with 32.
  apply Z.mod_mod_divide. exists 576460752303423488. reflexivity.
Qed.
Lemma u32_lt a b : is_s32 a -> is_s32 b -> (u64 a <? u64 b) = (u32 a <? u32 b).
Proof. unfold is_s32, u64, u32. intros Ha Hb. zcase; zlia. Qed.
Lemma shl_word b n : 0 <= n -> sx32 (u32 (Z.shiftl (u32 (u64 b)) n)) = u64 (s32 (b * 2 ^ n)).
Proof.
  intros Hn. unfold sx32. f_equal. rewrite s32_u32, Z.shiftl_mul_pow2, u32_of_u64 by assumption. apply s32_of_u32, u32_mul_u32.
Qed.
Lemma shr_word b n : 0 <= n -> sx32 (Z.shiftr (u32 (u64 b)) n) = u64 (s32 (u32 b / 2 ^ n)).
Proof. intros Hn. rewrite u32_of_u64, Z.shiftr_div_pow2 by assumption. reflexivity. Qed.
Lemma sar_word b n : 0 <= n -> is_s32 b -> sx32 (u32 (Z.shiftr (s32 (u64 b)) n)) = u64 (b / 2 ^ n).
Proof.
  intros Hn Hb. unfold sx32. f_equal. rewrite s32_u32, s32_u64, (s32_small b Hb), Z.shiftr_div_pow2 by assumption.
  apply s32_small, div_s32; assumption.
Qed.
Lemma add_word a b : sx32 (u32 (u32 (u64 a) + u32 (u64 b))) = u64 (s32 (a + b)).
Proof. unfold sx32. f_equal. rewrite s32_u32, !u32_of_u64. apply s32_of_u32, u32_add_u32. Qed.
Lemma sub_word a b : sx32 (u32 (u32 (u64 a) - u32 (u64 b))) = u64 (s32 (a - b)).
Proof. unfold sx32. f_equal. rewrite s32_u32, !u32_of_u64. apply s32_of_u32, u32_sub_u32. Qed.
Lemma b2z_word b : b2z b = u64 (b2z b).
Proof. destruct b; reflexivity. Qed.

(** C17: On sign-extended operands every 32-bit register instruction of the interpreter
    computes the signed reference result, leaves it sign-extended and touches no other
    register. *)
Theorem word_alu_is_reference insn m a b v :
  machine_ok m -> f_op insn = 0 -> f_rd insn <> 0 -> holds m (f_rs insn) a -> holds m (f_rt insn) b ->
  word_result (f_fn insn) (f_sa insn) a b = Some v ->
  exists m', exec_noncontrol nan_of insn m = Ran m' /\ holds m' (f_rd insn) v /\
    (forall i, 0 <= i -> i <> f_rd insn -> R m' i = R m i) /\ mem m' = mem m.
Proof.
  intros Hm Hop Hrd [Ha Ea] [Hb Eb]. unfold exec_noncontrol. rewrite Hop. unfold exec_special. cbv zeta. rewrite Ea, Eb.
  pose proof (rd_range insn) as Hr. pose proof (sa_nonneg insn) as Hs.
  assert (H31 : 0 <= a mod 32) by (apply Z.mod_pos_bound; lia).
  assert (G : forall x, is_s32 v -> x = u64 v -> exists m', Ran (setR (f_rd insn) x m) = Ran m' /\ holds m' (f_rd insn) v /\
    (forall i, 0 <= i -> i <> f_rd insn -> R m' i = R m i) /\ mem m' = mem m).
  { intros x Hv ->. eexists. split; [reflexivity|]. destruct (holds_put m (f_rd insn) v _ Hm ltac:(lia) Hv eq_refl) as [P1 P2].
    split; [exact P1|]. split; [exact P2|]. unfold setR. destruct (negb _); reflexivity. }
  unfold word_result. rewrite ?land_31.
  repeat case_match; try discriminate; intros [= E]; rewrite <- E in *; apply G;
    rewrite ?land_31, ?shl_word, ?shr_word, ?sar_word, ?add_word, ?sub_word, ?land_of_u64, ?lor_of_u64, ?lxor_of_u64,
      ?lnot_of_u64, ?s64_small, ?u32_lt by assumption; auto using div_s32, b2z_word with s32.
Qed.

(** * Products, quotients *)

(** The number in [hi] and [lo]. *)
Definition hi_lo (m : machine) : Z := s32 (ctx_hi m) * 2 ^ 32 + u32 (ctx_lo m).

Lemma u32_sx32 v : u32 (sx32 v) = u32 v.
Proof. unfold sx32. rewrite u32_of_u64. apply u32_s32. Qed.
Lemma s32_sx32 v : s32 (sx32 v) = s32 v.
Proof. unfold sx32. rewrite s32_u64. apply s32_small, s32_range. Qed.
Lemma split_product p : - 2 ^ 63 <= p < 2 ^ 63 -> s32 (u32 (Z.shiftr p 32)) * 2 ^ 32 + u32 p = p.
Proof.
  intros Hp. rewrite s32_u32, Z.shiftr_div_pow2 by lia. change (2 ^ 32) with 4294967296.
  rewrite s32_small by (unfold is_s32; zlia). unfold u32. pose proof (Z.div_mod p 4294967296 ltac:(lia)). lia.
Qed.

Lemma split_product_mod p : 0 <= p < 2 ^ 64 -> (s32 (u32 (Z.shiftr p 32)) * 2 ^ 32 + u32 (u32 p)) mod 2 ^ 64 = p.
Proof.
  intros Hp. rewrite s32_u32, Z.shiftr_div_pow2 by lia. change (2 ^ 32) with 4294967296 in *. change (2 ^ 64) with 18446744073709551616 in *.
  pose proof (Z.div_mod p 4294967296 ltac:(lia)) as D. rewrite (u32_small (u32 p)) by apply u32_range. unfold u32.
  set (q := p / 4294967296) in *. assert (0 <= q < 4294967296) by (unfold q; zlia).
  unfold s32. cbv zeta. rewrite (Z.mod_small q) by lia. destruct (Z.ltb_spec q 2147483648).
  - symmetry. apply Z.mod_unique with 0; lia.
  - symmetry. apply Z.mod_unique with (-1); lia.
Qed.
Lemma signed_division a b : is_s32 a -> is_s32 b -> b <> 0 -> ~ (a = -2147483648 /\ b = -1) ->
  a = s32 (Z.quot a b) * b + s32 (Z.rem a b) /\ Z.abs (s32 (Z.rem a b)) < Z.abs b /\ 0 <= s32 (Z.rem a b) * a.
Proof.
  unfold is_s32. intros Ha Hb Hb0 Hov. pose proof (Z.quot_rem a b Hb0) as E. pose proof (Z.rem_bound_abs a b Hb0) as Hr.
  pose proof (Z.rem_sign_mul a b Hb0) as Hs.
  assert (Hq : is_s32 (Z.quot a b)) by (unfold is_s32; nia).
  rewrite (s32_small (Z.quot a b) Hq), (s32_small (Z.rem a b)) by (unfold is_s32; lia). lia.
Qed.
Lemma unsigned_division a b : is_u32 a -> 0 < b -> is_u32 b ->
  a = u32 (a / b) * b + u32 (a mod b) /\ 0 <= u32 (a mod b) < b.
Proof.
  unfold is_u32. intros Ha Hb Hb2. pose proof (Z.div_mod a b ltac:(lia)). pose proof (Z.mod_pos_bound a b Hb).
  assert (0 <= a / b < 4294967296) by (split; [apply Z.div_pos; lia|apply Z.div_lt_upper_bound; nia]).
  rewrite !u32_small by (unfold is_u32; lia). lia.
Qed.

(** After mult and multu the number in hi and lo is the product; div and divu leave the truncated quotient and its remainder, do nothing on a zero divisor, and the least number by minus one is undefined. *)
Theorem hi_lo_arithmetic insn m : f_op insn = 0 ->
  let a := R m (f_rs insn) in
  let b := R m (f_rt insn) in
  let done r := exists m', exec_noncontrol nan_of insn m = Ran m' /\ regs m' = regs m /\ mem m' = mem m /\ r m' in
  (f_fn insn = 0x18 -> done (fun m' => hi_lo m' = s32 a * s32 b)) /\
  (f_fn insn = 0x19 -> done (fun m' => hi_lo m' mod 2 ^ 64 = u32 a * u32 b)) /\
  (f_fn insn = 0x1A -> s32 b <> 0 -> ~ (s32 a = - 2 ^ 31 /\ s32 b = -1) ->
     done (fun m' => s32 a = s32 (ctx_lo m') * s32 b + s32 (ctx_hi m') /\
       Z.abs (s32 (ctx_hi m')) < Z.abs (s32 b) /\ 0 <= s32 (ctx_hi m') * s32 a)) /\
  (f_fn insn = 0x1A -> s32 a = - 2 ^ 31 -> s32 b = -1 -> exec_noncontrol nan_of insn m = OutOfRange) /\
  (f_fn insn = 0x1B -> u32 b <> 0 ->
     done (fun m' => u32 a = u32 (ctx_lo m') * u32 b + u32 (ctx_hi m') /\ 0 <= u32 (ctx_hi m') < u32 b)) /\
  ((f_fn insn = 0x1A /\ s32 b = 0) \/ (f_fn insn = 0x1B /\ u32 b = 0) -> exec_noncontrol nan_of insn m = Ran m).
Proof.
  intros Hop a b done. unfold done, exec_noncontrol. rewrite Hop. unfold exec_special. cbv zeta. fold a b.
  pose proof (s32_range a) as Ra. pose proof (s32_range b) as Rb. pose proof (u32_range a) as Ua.
  pose proof (u32_range b) as Ub. unfold is_s32, is_u32 in *.
  split; [|split; [|split; [|split; [|split]]]].
  - intros ->. eexists. do 3 (split; [reflexivity|]). unfold hi_lo, mult_hilo. cbn [ctx_hi ctx_lo set_hilo set_hi set_lo].
    rewrite s32_sx32, u32_sx32, (u32_small _ (u32_range _)). apply split_product. nia.
  - intros ->. eexists. do 3 (split; [reflexivity|]). unfold hi_lo, mult_hilo. cbn [ctx_hi ctx_lo set_hilo set_hi set_lo].
    rewrite s32_sx32, u32_sx32. apply split_product_mod. nia.
  - intros -> Hb0 Hov. unfold div_signed. destruct (Z.eqb_spec (s32 b) 0); [contradiction|].
    destruct (Z.eqb_spec (s32 a) (-2147483648)), (Z.eqb_spec (s32 b) (-1)); try (exfalso; apply Hov; lia); cbn [andb];
      (eexists; do 3 (split; [reflexivity|]); cbn [ctx_hi ctx_lo set_hilo set_hi set_lo];
       rewrite !s32_sx32, !s32_u32; apply signed_division; unfold is_s32; lia).
  - intros -> Ha Hb. unfold div_signed. rewrite Ha, Hb. reflexivity.
  - intros -> Hb0. unfold div_unsigned. destruct (Z.eqb_spec (u32 b) 0); [contradiction|]. eexists.
    do 3 (split; [reflexivity|]). cbn [ctx_hi ctx_lo set_hilo set_hi set_lo]. rewrite !u32_sx32. apply unsigned_division; unfold is_u32; lia.
  - intros [[-> E]|[-> E]]; unfold div_signed, div_unsigned; rewrite E; reflexivity.
Qed.

(** * Deviations from the processor *)

(** [c.ult], [c.ule], [c.nge] and [c.ngt] test equality only, and [c.f] does
    not clear the condition. *)
Theorem unordered_compares_test_equality insn m :
  f_op insn = 0x11 -> In (f_rs insn) [0x10; 0x11; 0x14; 0x15] -> In (f_fn insn) [0x30; 0x35; 0x37; 0x3D; 0x3F] ->
  exec_noncontrol nan_of insn m =
    Ran (set_condition (SFeqb (fvalue (f_rs insn) (f_rd insn) m) (fvalue (f_rs insn) (f_rt insn) m)) m).
Proof.
  intros Hop Hfmt Hfn. unfold exec_noncontrol. rewrite Hop. unfold exec_cop1. cbv zeta.
  assert (E : exec_fcompute nan_of insn m = Ran (set_condition (SFeqb (fvalue (f_rs insn) (f_rd insn) m) (fvalue (f_rs insn) (f_rt insn) m)) m)).
  { unfold exec_fcompute. cbv zeta. cbn [In] in Hfn.
    destruct Hfn as [<-|[<-|[<-|[<-|[<-|[]]]]]]; reflexivity. }
  rewrite <- E. clear E. cbn [In] in Hfmt. destruct Hfmt as [<-|[<-|[<-|[<-|[]]]]]; reflexivity.
Qed.

(** Reading the control register does not see the condition a comparison set. *)
Theorem cfc1_misses_the_condition insn cmp m m' cond :
  f_op insn = 0x11 -> f_rs insn = 0x02 -> cmp = set_condition cond m ->
  exec_noncontrol nan_of insn m = Ran m' -> exists v, m' = setR (f_rt insn) v m /\
    exec_noncontrol nan_of insn cmp = Ran (setR (f_rt insn) v cmp).
Proof.
  intros Hop Hrs ->. unfold exec_noncontrol. rewrite Hop. unfold exec_cop1. cbv zeta. rewrite Hrs. intros [= <-].
  eexists. split; [reflexivity|].
  assert (E : byte_at (cop0_regs (set_condition cond m)) 0 = byte_at (cop0_regs m) 0).
  { unfold set_condition, set_cop0, byte_at, set_byte. cbn [cop0_regs]. rewrite list_lookup_insert_ne by discriminate. reflexivity. }
  rewrite E. reflexivity.
Qed.
End Alu.

Section Run.
Context {M F : Type} `{MO : MemOps M} `{FO : FprOps F}.
Context (nan_of : float_format -> list Z -> Z).
Context (lookup_function : Z -> option (machine M F -> machine M F)).
Abbreviation machine := (machine M F).
Abbreviation loop := (interp_loop nan_of lookup_function).
Abbreviation step := (interp_step nan_of lookup_function).

(** An instruction that the loop hands to [exec_noncontrol]. *)
Definition is_noncontrol (insn : Z) : bool :=
  let op := f_op insn in
  negb ((op =? 0x02) || (op =? 0x03)) &&
  negb ((op =? 0x00) && ((f_fn insn =? 0x08) || (f_fn insn =? 0x09))) &&
  negb (is_branch op) && negb ((op =? 0x11) && (f_rs insn =? 0x08)).

(** The effect of the [n] instructions from [pc] on, when none of them jumps. *)
Fixpoint exec_block (n : nat) (pc : Z) (m : machine) : option machine :=
  match n with
  | O => Some m
  | S n =>
      if is_noncontrol (ifetch m pc) then
        match exec_noncontrol nan_of (ifetch m pc) m with
        | Ran m => exec_block n (u32 (pc + 4)) m
        | _ => None
        end
      else None
  end.

Definition aligned (pc : Z) : Prop := Z.land pc 3 = 0.
Lemma aligned_mod pc : Z.land pc 3 = pc mod 4.
Proof. change 3 with (2 ^ 2 - 1). rewrite land_ones_mod by lia. reflexivity. Qed.
Lemma aligned_next pc : aligned pc -> aligned (u32 (pc + 4)).
Proof. unfold aligned. rewrite !aligned_mod. unfold u32. intros Hp. zlia. Qed.

Lemma step_noncontrol ret pc m : aligned pc -> is_noncontrol (ifetch m pc) = true ->
  step ret pc m = match exec_noncontrol nan_of (ifetch m pc) m with
                  | Ran m => Goto m (u32 (pc + 4)) | Unimplemented => Bail m | OutOfRange => Undef end.
Proof.
  intros Hp Hn. unfold interp_step. rewrite Hp. cbn [negb Z.eqb]. cbv zeta. unfold is_noncontrol in Hn.
  rewrite !andb_true_iff, !negb_true_iff in Hn. destruct Hn as [[[-> ->] ->] ->]. reflexivity.
Qed.

(** The program counter after [n] instructions. *)
Fixpoint pc_after (n : nat) (pc : Z) : Z := match n with O => pc | S n => pc_after n (u32 (pc + 4)) end.
Lemma aligned_advance n : forall pc, aligned pc -> aligned (pc_after n pc).
Proof. induction n as [|n IH]; intros pc Hp; [exact Hp|]. apply IH, aligned_next, Hp. Qed.

Lemma block_runs n : forall fuel depth ret pc m m', aligned pc -> exec_block n pc m = Some m' ->
  loop (n + fuel) depth ret pc m = loop fuel depth ret (pc_after n pc) m'.
Proof.
  induction n as [|n IH]; intros fuel depth ret pc m m' Hp; cbn [exec_block pc_after Nat.add].
  - intros [= <-]. reflexivity.
  - destruct (is_noncontrol (ifetch m pc)) eqn:Hn; [|discriminate].
    cbn [interp_loop]. rewrite (step_noncontrol ret pc m Hp Hn).
    destruct (exec_noncontrol nan_of (ifetch m pc) m) as [m1| |] eqn:E; try discriminate.
    intros Hb. apply IH; [apply aligned_next; exact Hp|exact Hb].
Qed.

(** [jr $ra] with its delay slot. *)
Definition jr_ra : Z := 0x03E00008.
Lemma step_return ret pc m m' : aligned pc -> ifetch m pc = jr_ra -> u32 (R m 31) = ret ->
  exec_noncontrol nan_of (ifetch m (u32 (pc + 4))) m = Ran m' -> step ret pc m = Return m'.
Proof.
  intros Hp Hi Hr Hs. unfold interp_step. rewrite Hp, Hi. cbn [negb Z.eqb]. cbv zeta.
  change (f_op jr_ra) with 0. change (f_fn jr_ra) with 8. cbn [Z.eqb orb andb].
  unfold step_jump_register. change (f_fn jr_ra) with 8. change (f_rs jr_ra) with 31. cbn [Z.eqb Pos.eqb negb andb].
  unfold after_slot. rewrite Hs, Hr, Z.eqb_refl. reflexivity.
Qed.

(** C21: The interpreter runs the body of a function without calls or branches and the delay
    slot of its return, and hands back the machine they leave, with fuel for one more
    instruction than the body has. *)
Theorem leaf_function_returns n pc m m1 m2 : aligned pc -> exec_block n pc m = Some m1 ->
  ifetch m1 (pc_after n pc) = jr_ra -> u32 (R m1 31) = u32 (R m 31) ->
  exec_noncontrol nan_of (ifetch m1 (u32 (pc_after n pc + 4))) m1 = Ran m2 ->
  forall fuel, (n < fuel)%nat -> recomp_interpret_function nan_of lookup_function fuel pc m = Some (Returned m2).
Proof.
  intros Hp Hb Hj Hra Hs fuel Hf. unfold recomp_interpret_function, interpret, enter. change (0 >? kMaxInterpDepth) with false.
  replace fuel with (n + S (fuel - n - 1))%nat by lia. cbv iota. rewrite (block_runs n _ _ _ pc m m1 Hp Hb). cbn [interp_loop].
  rewrite (step_return (u32 (R m 31)) (pc_after n pc) m1 m2 (aligned_advance n pc Hp) Hj Hra Hs). reflexivity.
Qed.

(** ** Branches *)

(** What a taken, a not taken and a nullified branch do, with the condition
    evaluated before the delay slot runs. *)
Theorem branch_semantics ret pc m insn take likely link :
  aligned pc -> ifetch m pc = insn -> is_branch (f_op insn) = true -> branch_of insn m = Some (take, likely, link) ->
  let linked := if link then put_reg 31 (sx32 (u32 (pc + 8))) m else m in
  step ret pc m =
    (if likely && negb take then Goto linked (u32 (pc + 8))
     else match exec_noncontrol nan_of (ifetch linked (u32 (pc + 4))) linked with
          | Ran m' => Goto m' (if take then u32 (pc + 4 + 4 * f_simm insn) else u32 (pc + 8))
          | Unimplemented => Bail linked
          | OutOfRange => Undef
          end).
Proof.
  intros Hp Hi Hb Ho linked. unfold interp_step. rewrite Hp, Hi. cbn [negb Z.eqb]. cbv zeta. rewrite Hb, Ho.
  assert (N : (f_op insn =? 0x02) || (f_op insn =? 0x03) = false /\ (f_op insn =? 0x00) = false).
  { unfold is_branch in Hb. rewrite !orb_true_iff, !andb_true_iff, !Z.eqb_eq, !Z.leb_le in Hb.
    rewrite orb_false_iff, !Z.eqb_neq. lia. }
  destruct N as [-> ->]. cbn [andb]. unfold take_branch, after_slot, branch_target. fold linked.
  rewrite Z.shiftl_mul_pow2 by lia. rewrite (Z.mul_comm (f_simm insn)). reflexivity.
Qed.

(** ** Calls *)

(** [jal] to recompiled code: the return address is set before the delay slot
    and the function runs after it; execution resumes behind the slot. *)
Theorem native_call ret pc m m1 nf insn : aligned pc -> ifetch m pc = insn -> f_op insn = 0x03 ->
  lookup_function (s32 (Z.lor (Z.land (u32 (pc + 4)) 0xF0000000) (Z.shiftl (Z.land insn 0x03FFFFFF) 2))) = Some nf ->
  let linked := put_reg 31 (sx32 (u32 (pc + 8))) m in
  exec_noncontrol nan_of (ifetch linked (u32 (pc + 4))) linked = Ran m1 ->
  step ret pc m = Goto (nf m1) (u32 (pc + 8)).
Proof.
  intros Hp Hi Hop Hl linked Hs. unfold interp_step. rewrite Hp, Hi. cbn [negb Z.eqb]. cbv zeta. rewrite Hop.
  cbn [Z.eqb Pos.eqb orb]. unfold step_jump. cbv zeta. rewrite Hop. cbn [Z.eqb Pos.eqb]. unfold after_slot. fold linked.
  rewrite Hs. unfold jump. rewrite Hl. reflexivity.
Qed.

(** The target of a [j] or [jal]. *)
Definition jump_target (pc insn : Z) : Z := Z.lor (Z.land (u32 (pc + 4)) 0xF0000000) (Z.shiftl (Z.land insn 0x03FFFFFF) 2).

(** A call of code that is not recompiled, with a [nop] in its slot. *)
Lemma step_call ret pc m insn : aligned pc -> ifetch m pc = insn -> f_op insn = 0x03 -> ifetch m (u32 (pc + 4)) = 0 ->
  lookup_function (s32 (jump_target pc insn)) = None ->
  exists m', step ret pc m = Callee m' (jump_target pc insn) (u32 (pc + 8)) /\ mem m' = mem m.
Proof.
  intros Hp Hi Hop Hn Hl. unfold interp_step. rewrite Hp, Hi. cbn [negb Z.eqb]. cbv zeta. rewrite Hop.
  cbn [Z.eqb Pos.eqb orb]. unfold step_jump. cbv zeta. rewrite Hop. cbn [Z.eqb Pos.eqb]. unfold after_slot.
  set (m1 := put_reg 31 _ m). change (ifetch m1 (u32 (pc + 4))) with (ifetch m (u32 (pc + 4))). rewrite Hn.
  change (exec_noncontrol nan_of 0 m1) with (Ran m1). unfold jump. fold (jump_target pc insn). rewrite Hl. eauto.
Qed.

(** A function that calls itself and is not recompiled is stopped with a failure at the depth limit of the interpreter, with fuel for one step per level. *)
Theorem endless_recursion_stops pc m fuel : aligned pc ->
  f_op (ifetch m pc) = 0x03 -> jump_target pc (ifetch m pc) = pc -> ifetch m (u32 (pc + 4)) = 0 -> lookup_function (s32 pc) = None ->
  (256 < fuel)%nat -> exists m', recomp_interpret_function nan_of lookup_function fuel pc m = Some (Stopped m').
Proof.
  intros Hp Hop Ht Hn Hl Hf.
  assert (Hs : forall m0 ret, mem m0 = mem m -> exists m', step ret pc m0 = Callee m' pc (u32 (pc + 8)) /\ mem m' = mem m).
  { intros m0 ret E. assert (Ei : forall a, ifetch m0 a = ifetch m a) by (intros a; unfold ifetch; rewrite E; reflexivity).
    rewrite <- E. destruct (step_call ret pc m0 (ifetch m pc)) as (m' & Es & Em); rewrite ?Ei, ?Ht; auto.
    exists m'. rewrite Ht in Es. auto. }
  assert (G : forall k fuel depth ret m0, mem m0 = mem m -> depth = 256 - Z.of_nat k -> (k < fuel)%nat ->
    exists m', loop fuel depth ret pc m0 = Some (Stopped m')).
  { induction k as [|k IH]; intros fuel' depth ret m0 Hm0 Hd Hf'; (destruct fuel' as [|fuel']; [lia|]); cbn [interp_loop];
      destruct (Hs m0 ret Hm0) as (m' & -> & Hm'); unfold enter, kMaxInterpDepth.
    - destruct (Z.gtb_spec (depth + 1) 256); [|lia]. eauto.
    - destruct (Z.gtb_spec (depth + 1) 256); [lia|].
      destruct (IH fuel' (depth + 1) (u32 (R m' 31)) m' Hm' ltac:(lia) ltac:(lia)) as (m'' & E). rewrite E. eauto. }
  unfold recomp_interpret_function, interpret, enter. change (0 >? kMaxInterpDepth) with false.
  apply (G 256%nat); [reflexivity|lia|exact Hf].
Qed.
End Run.
