(* ===== verification/MathRoutines.v ===== *)
(** The 64-bit arithmetic of librecomp/src/math_routines.cpp that recompiled
    code calls in place of the compiler's helpers: arguments and results are
    pairs of 32-bit registers.  [None] is what C++ leaves undefined: a division
    by zero or out of range, a shift by more than 63, a float that does not fit. *)

From S2P Require Import Prelude Bytes RspMem Rdram Floats Mips MipsSpec MipsRun.
From Stdlib Require Import ZArith Lia Bool.
Open Scope Z_scope.

Definition join64 (hi lo : Z) : Z := Z.lor (u64 (Z.shiftl hi 32)) (Z.land lo 0xFFFFFFFF).
(** The values of r2 and r3. *)
Definition return64 (value : Z) : Z * Z := (sx32 (Z.shiftr value 32), sx32 value).

Definition unsigned_op (f : Z -> Z -> option Z) (r4 r5 r6 r7 : Z) : option (Z * Z) :=
  match f (join64 r4 r5) (join64 r6 r7) with Some v => Some (return64 v) | None => None end.
Definition signed_op (f : Z -> Z -> option Z) (r4 r5 r6 r7 : Z) : option (Z * Z) :=
  match f (s64 (join64 r4 r5)) (s64 (join64 r6 r7)) with Some v => Some (return64 (u64 v)) | None => None end.

Definition udiv64 (a b : Z) : option Z := if b =? 0 then None else Some (a / b).
Definition umod64 (a b : Z) : option Z := if b =? 0 then None else Some (a mod b).
Definition sdiv64 (a b : Z) : option Z :=
  if (b =? 0) || ((a =? -9223372036854775808) && (b =? -1)) then None else Some (Z.quot a b).
Definition shift64 (f : Z -> Z -> Z) (a n : Z) : option Z := if n <? 64 then Some (u64 (f a n)) else None.

Definition __udivdi3 := unsigned_op udiv64.
Definition __divdi3 := signed_op sdiv64.
Definition __umoddi3 := unsigned_op umod64.
Definition __ull_div := unsigned_op udiv64.
Definition __ll_div := signed_op sdiv64.
Definition __ll_mul := unsigned_op (fun a b => Some (u64 (a * b))).
Definition __ull_rem := unsigned_op umod64.
Definition __ull_rshift := unsigned_op (shift64 Z.shiftr).
Definition __ll_lshift := unsigned_op (shift64 Z.shiftl).

(** The patterns put in f0; integers are numbers, so no [nan] is involved. *)
Definition __ull_to_d (r4 r5 : Z) : Z := float_of_Z binary64 (fun _ => 0) (join64 r4 r5).
Definition __ull_to_f (r4 r5 : Z) : Z := float_of_Z binary32 (fun _ => 0) (join64 r4 r5).
Definition __ll_to_f (r4 r5 : Z) : Z := float_of_Z binary32 (fun _ => 0) (s64 (join64 r4 r5)).
(** The pattern is f12's. *)
Definition __f_to_ll (f12 : Z) : option (Z * Z) :=
  match int64_of_float Truncate (decode binary32 f12) with Some v => Some (return64 (u64 v)) | None => None end.

(** * The pairs *)

Definition join_pair (p : Z * Z) : Z := join64 (fst p) (snd p).

Lemma join_sum hi lo : is_u64 hi -> join64 hi lo = u32 hi * 2 ^ 32 + u32 lo.
Proof.
  unfold is_u64, join64. intros Hh. change 0xFFFFFFFF with (2 ^ 32 - 1). rewrite land_ones_mod, Z.shiftl_mul_pow2 by lia.
  change (lo mod 2 ^ 32) with (u32 lo).
  assert (E : u64 (hi * 2 ^ 32) = u32 hi * 2 ^ 32).
  { unfold u64, u32. change 18446744073709551616 with (4294967296 * 2 ^ 32). rewrite Z.mul_mod_distr_r by lia. reflexivity. }
  rewrite E. apply lor_add; [lia|]. pose proof (u32_range lo) as Hl. unfold is_u32 in Hl. change (2 ^ 32) with 4294967296. lia.
Qed.
(** Splitting a number over two registers and joining them. *)
Lemma join_return v : is_u64 v -> join_pair (return64 v) = v.
Proof.
  intros Hv. unfold join_pair, return64. cbn [fst snd]. rewrite join_sum by apply sx32_range. rewrite !u32_sx32.
  rewrite Z.shiftr_div_pow2 by lia. unfold is_u64 in Hv. change (2 ^ 32) with 4294967296. change (2 ^ 64) with 18446744073709551616 in Hv.
  rewrite (u32_small (v / _)) by (unfold is_u32; zlia). unfold u32. zlia.
Qed.
Lemma join_range hi lo : is_u64 hi -> is_u64 (join64 hi lo).
Proof.
  intros Hh. rewrite join_sum by assumption. pose proof (u32_range hi) as H1. pose proof (u32_range lo) as H2.
  unfold is_u32, is_u64 in *. change (2 ^ 32) with 4294967296. change (2 ^ 64) with 18446744073709551616. lia.
Qed.
Lemma s64_u64 x : - 2 ^ 63 <= x < 2 ^ 63 -> s64 (u64 x) = x.
Proof. intros Hx. unfold s64, u64. cbv zeta. rewrite Z.mod_mod by lia. zcase; zlia. Qed.
Lemma s64_bounds x : - 2 ^ 63 <= s64 x < 2 ^ 63.
Proof. unfold s64. cbv zeta. zcase; zlia. Qed.

(** What a routine computes on the numbers its register pairs hold. *)
Definition computes (op : Z -> Z -> Z -> Z -> option (Z * Z)) (view : Z -> Z) (spec : Z -> Z -> option Z) : Prop :=
  forall r4 r5 r6 r7, is_u64 r4 -> is_u64 r6 ->
    match spec (view (join64 r4 r5)) (view (join64 r6 r7)) with
    | Some v => exists p, op r4 r5 r6 r7 = Some p /\ view (join_pair p) = v
    | None => op r4 r5 r6 r7 = None
    end.

Lemma unsigned_computes f : (forall a b v, is_u64 a -> is_u64 b -> f a b = Some v -> is_u64 v) -> computes (unsigned_op f) (fun x => x) f.
Proof.
  intros Hf r4 r5 r6 r7 H4 H6. unfold unsigned_op.
  destruct (f (join64 r4 r5) (join64 r6 r7)) as [v|] eqn:E; [|reflexivity]. exists (return64 v). split; [reflexivity|].
  apply join_return. eapply Hf; [| |exact E]; apply join_range; assumption.
Qed.
Lemma signed_computes f : (forall a b v, - 2 ^ 63 <= a < 2 ^ 63 -> - 2 ^ 63 <= b < 2 ^ 63 -> f a b = Some v -> - 2 ^ 63 <= v < 2 ^ 63) ->
  computes (signed_op f) s64 f.
Proof.
  intros Hf r4 r5 r6 r7 H4 H6. unfold signed_op.
  destruct (f (s64 (join64 r4 r5)) (s64 (join64 r6 r7))) as [v|] eqn:E; [|reflexivity].
  exists (return64 (u64 v)). split; [reflexivity|]. rewrite join_return by apply u64_range. apply s64_u64.
  eapply Hf; [| |exact E]; apply s64_bounds.
Qed.

(** The 64-bit helpers compute on register pairs the quotient, remainder, product or shift of the numbers the pairs hold, and are undefined exactly for a zero divisor, the least number by minus one, or a shift above 63. *)
Theorem pair_arithmetic :
  computes __udivdi3 (fun x => x) (fun a b => if b =? 0 then None else Some (a / b)) /\
  computes __umoddi3 (fun x => x) (fun a b => if b =? 0 then None else Some (a mod b)) /\
  computes __ll_mul (fun x => x) (fun a b => Some ((a * b) mod 2 ^ 64)) /\
  computes __ull_rshift (fun x => x) (fun a n => if n <? 64 then Some (a / 2 ^ n) else None) /\
  computes __ll_lshift (fun x => x) (fun a n => if n <? 64 then Some ((a * 2 ^ n) mod 2 ^ 64) else None) /\
  computes __divdi3 s64 (fun a b => if (b =? 0) || ((a =? - 2 ^ 63) && (b =? -1)) then None else Some (Z.quot a b)).
Proof.
  split; [|split; [|split; [|split; [|split]]]].
  - apply (unsigned_computes udiv64). unfold udiv64, is_u64. intros a b v Ha Hb. destruct (Z.eqb_spec b 0); [discriminate|].
    intros [= <-]. split; [apply Z.div_pos; lia|]. apply Z.div_lt_upper_bound; nia.
  - apply (unsigned_computes umod64). unfold umod64, is_u64. intros a b v Ha Hb. destruct (Z.eqb_spec b 0); [discriminate|].
    intros [= <-]. pose proof (Z.mod_pos_bound a b). lia.
  - apply (unsigned_computes (fun a b => Some (u64 (a * b)))). intros a b v _ _ [= <-]. apply u64_range.
  - intros r4 r5 r6 r7 H4 H6.
    pose proof (unsigned_computes (shift64 Z.shiftr)) as U.
    specialize (U ltac:(intros a b v _ _; unfold shift64; destruct (b <? 64); [intros [= <-]; apply u64_range|discriminate]) r4 r5 r6 r7 H4 H6).
    pose proof (join_range r4 r5 H4) as Ra. pose proof (join_range r6 r7 H6) as Rb. unfold shift64 in U.
    destruct (_ <? 64); [|exact U]. destruct U as (p & E & Hp). exists p. split; [exact E|]. rewrite Hp.
    rewrite Z.shiftr_div_pow2 by (unfold is_u64 in Rb; lia). apply Z.mod_small.
    assert (is_u64 (Z.shiftr (join64 r4 r5) (join64 r6 r7))) as Hs by (apply shiftr_u64; [unfold is_u64 in Rb; lia|exact Ra]).
    rewrite Z.shiftr_div_pow2 in Hs by (unfold is_u64 in Rb; lia). exact Hs.
  - intros r4 r5 r6 r7 H4 H6.
    pose proof (unsigned_computes (shift64 Z.shiftl)) as U.
    specialize (U ltac:(intros a b v _ _; unfold shift64; destruct (b <? 64); [intros [= <-]; apply u64_range|discriminate]) r4 r5 r6 r7 H4 H6).
    pose proof (join_range r6 r7 H6) as Rb. unfold shift64 in U.
    destruct (_ <? 64); [|exact U]. destruct U as (p & E & Hp). exists p. split; [exact E|]. rewrite Hp.
    rewrite Z.shiftl_mul_pow2 by (unfold is_u64 in Rb; lia). reflexivity.
  - apply (signed_computes sdiv64). unfold sdiv64. intros a b v Ha Hb.
    destruct (Z.eqb_spec b 0); [discriminate|]. destruct (Z.eqb_spec a (-9223372036854775808)), (Z.eqb_spec b (-1)); cbn [orb andb];
      try discriminate; intros [= <-]; pose proof (Z.quot_rem a b ltac:(assumption)); pose proof (Z.rem_bound_abs a b ltac:(assumption));
      pose proof (Z.rem_sign_mul a b ltac:(assumption)); nia.
Qed.
