(* ===== verification/Timer.v ===== *)
(** Time and timers: ultramodern/src/timer.cpp.

    The host clock is an argument, in nanoseconds since the library was loaded.
    The timer thread keeps the active timers in a set ordered by a deadline
    that is stored in guest memory; the set is the list of its elements in
    order, searched with the comparison.  The deterministic co-simulation clock
    is a build option that is not modelled. *)

From S2P Require Import Prelude.
From Stdlib Require Import ZArith Lia Bool List Sorting.Sorted.
From stdpp Require Import base list gmap.
Open Scope Z_scope.

(** * The clock *)

Definition speed_multiplier : Z := 1.
Definition counter_per_ms : Z := 46875 * speed_multiplier.
Definition duration_to_ticks (ns : Z) : Z := u64 (Z.quot ns 1000 * counter_per_ms) / 1000.
(** In microseconds. *)
Definition ticks_to_duration (ticks : Z) : Z := u64 (ticks * 1000) / counter_per_ms.
(** In nanoseconds since the start. *)
Definition ticks_to_timepoint (ticks : Z) : Z := ticks_to_duration ticks * 1000.
Definition time_now (ns : Z) : Z := duration_to_ticks ns.
Definition osGetCount (ns : Z) : Z := u32 (time_now ns).
(** With [ostime_offset] as an argument and as the result. *)
Definition osGetTime (ns ostime_offset : Z) : Z := u64 (time_now ns - ostime_offset).
Definition osSetTime (ns t : Z) : Z := s64 (time_now ns - t).

(** * Timers *)

Record OSTimer := MkTimer { interval : Z; timestamp : Z; mq : Z; msg : Z }.
Definition no_timer : OSTimer := MkTimer 0 0 0 0.

Inductive TimerCommand := TimerInsert (timer : Z) | TimerCancel (timer : Z).

(** The thread handles commands, or waits for the timer it took out of the set. *)
Inductive timer_phase := Handling | Waiting (next : Z).
Record timer_state := TimerState {
  timers : gmap Z OSTimer; command_queue : list TimerCommand; pending : list Z; phase : timer_phase;
  sent : list (Z * Z * Z) }.

Definition timer_at (ts : gmap Z OSTimer) (a : Z) : OSTimer := default no_timer (ts !! a).
Definition by_deadline (ts : gmap Z OSTimer) (lhs rhs : Z) : bool :=
  let l := timestamp (timer_at ts lhs) in
  let r := timestamp (timer_at ts rhs) in
  if negb (l =? r) then l <? r else lhs <? rhs.

(** [std::set::insert] and [erase] by key. *)
Fixpoint set_insert (lt : Z -> Z -> bool) (x : Z) (l : list Z) : list Z :=
  match l with
  | [] => [x]
  | y :: l' => if lt x y then x :: l else if lt y x then y :: set_insert lt x l' else l
  end.
Fixpoint set_erase (lt : Z -> Z -> bool) (x : Z) (l : list Z) : list Z :=
  match l with
  | [] => []
  | y :: l' => if lt x y then l else if lt y x then y :: set_erase lt x l' else l'
  end.

Definition apply_command (ts : gmap Z OSTimer) (c : TimerCommand) (l : list Z) : list Z :=
  match c with
  | TimerInsert t => set_insert (by_deadline ts) t l
  | TimerCancel t => set_erase (by_deadline ts) t l
  end.

Definition osSetTimer (ns t countdown intv q m : Z) (s : timer_state) : timer_state :=
  let stamp := u64 ((if countdown =? 0 then intv else countdown) + time_now ns) in
  TimerState (<[t := MkTimer intv stamp q m]> (timers s)) (command_queue s ++ [TimerInsert t]) (pending s) (phase s) (sent s).
Definition osStopTimer (t : Z) (s : timer_state) : timer_state :=
  TimerState (timers s) (command_queue s ++ [TimerCancel t]) (pending s) (phase s) (sent s).

(** The delivery of a timer whose deadline has passed; [sent] records it with
    the time. *)
Definition fire (ns next : Z) (s : timer_state) : timer_state :=
  let t := timer_at (timers s) next in
  let sent := sent s ++ [(ns, mq t, msg t)] in
  if negb (interval t =? 0) then
    let ts := <[next := MkTimer (interval t) (u64 (interval t + time_now ns)) (mq t) (msg t)]> (timers s) in
    TimerState ts (command_queue s) (set_insert (by_deadline ts) next (pending s)) Handling sent
  else TimerState (timers s) (command_queue s) (pending s) Handling sent.

(** One step of the timer thread at a time, [None] while it blocks.  A wait
    with no time left does not look at the queue. *)
Definition timer_thread_step (ns : Z) (s : timer_state) : option timer_state :=
  match phase s with
  | Handling =>
      match command_queue s, pending s with
      | c :: cs, _ => Some (TimerState (timers s) cs (apply_command (timers s) c (pending s)) Handling (sent s))
      | [], [] => None
      | [], next :: rest => Some (TimerState (timers s) [] rest (Waiting next) (sent s))
      end
  | Waiting next =>
      let remaining := ticks_to_timepoint (timestamp (timer_at (timers s) next)) - ns in
      match command_queue s with
      | c :: cs =>
          if 0 <=? remaining then
            Some (TimerState (timers s) cs (apply_command (timers s) c (set_insert (by_deadline (timers s)) next (pending s)))
                    Handling (sent s))
          else Some (fire ns next s)
      | [] => if remaining <=? 0 then Some (fire ns next s) else None
      end
  end.

(** * The clock *)

(** The comment's claim: no overflow in over twelve years of uptime. *)
Theorem ticks_do_not_overflow ns : 0 <= ns < 12 * 365 * 86400 * 10 ^ 9 ->
  time_now ns = ns / 1000 * 46875 / 1000 /\
  ticks_to_timepoint (time_now ns) <= ns < ticks_to_timepoint (time_now ns) + 3000.
Proof.
  intros Hn. unfold time_now, duration_to_ticks, ticks_to_timepoint, ticks_to_duration, counter_per_ms, speed_multiplier.
  rewrite Z.quot_div_nonneg by lia. assert (E : u64 (ns / 1000 * (46875 * 1)) = ns / 1000 * 46875).
  { unfold u64. rewrite Z.mod_small by zlia. lia. }
  rewrite E. split; [reflexivity|]. unfold u64. rewrite Z.mod_small by zlia. zlia.
Qed.

(** Setting the time moves the clock by the same amount at every later reading. *)
Theorem set_time_then_get ns ns' t : osGetTime ns' (osSetTime ns t) = u64 (t + (time_now ns' - time_now ns)).
Proof.
  unfold osGetTime, osSetTime.
  assert (E : forall x y, u64 (x - s64 y) = u64 (x - y)).
  { intros x y. unfold u64, s64. cbv zeta. zcase.
    - rewrite Zminus_mod_idemp_r. reflexivity.
    - replace (x - (y mod 18446744073709551616 - 18446744073709551616)) with (x - y mod 18446744073709551616 + 1 * 18446744073709551616) by lia.
      rewrite Z.mod_add by lia. apply Zminus_mod_idemp_r. }
  rewrite E. f_equal. lia.
Qed.

(** * The order of the set *)

Section Order.
Context (ts : gmap Z OSTimer).
Abbreviation lt := (by_deadline ts).

Definition deadline (a : Z) : Z := timestamp (timer_at ts a).
Lemma lt_spec a b : lt a b = true <-> deadline a < deadline b \/ (deadline a = deadline b /\ a < b).
Proof.
  unfold by_deadline. fold (deadline a) (deadline b). cbv zeta.
  destruct (Z.eqb_spec (deadline a) (deadline b)); cbn [negb]; rewrite Z.ltb_lt; lia.
Qed.
Lemma lt_trans a b c : lt a b = true -> lt b c = true -> lt a c = true.
Proof. rewrite !lt_spec. lia. Qed.
Lemma lt_total a b : lt a b = false -> lt b a = false -> a = b.
Proof. rewrite <- !not_true_iff_false, !lt_spec. lia. Qed.

Definition ordered (l : list Z) : Prop := StronglySorted (fun a b => lt a b = true) l.

Lemma insert_elem x y l : ordered l -> y ∈ set_insert lt x l <-> y = x \/ y ∈ l.
Proof.
  intros Hl. induction l as [|z l IH]; cbn [set_insert].
  - rewrite elem_of_cons. reflexivity.
  - apply StronglySorted_inv in Hl as [Hl _]. destruct (lt x z) eqn:E1; [rewrite !elem_of_cons; tauto|].
    destruct (lt z x) eqn:E2.
    + rewrite !elem_of_cons, (IH Hl). tauto.
    + pose proof (lt_total x z E1 E2) as ->. rewrite !elem_of_cons. tauto.
Qed.
Lemma insert_ordered x l : ordered l -> ordered (set_insert lt x l).
Proof.
  intros Hl. induction l as [|z l IH]; cbn [set_insert]; [repeat constructor|].
  pose proof Hl as Hz. apply StronglySorted_inv in Hl as [Hl Hf]. destruct (lt x z) eqn:E1.
  - constructor; [exact Hz|]. constructor; [exact E1|]. eapply Forall_impl; [exact Hf|]. intros y. apply lt_trans. exact E1.
  - destruct (lt z x) eqn:E2; [|exact Hz]. constructor; [apply IH; exact Hl|].
    apply Forall_forall. intros y Hy. apply insert_elem in Hy as [->|Hy]; [exact E2| |exact Hl].
    rewrite Forall_forall in Hf. auto.
Qed.
Lemma erase_elem x y l : ordered l -> y ∈ set_erase lt x l <-> y ∈ l /\ y <> x.
Proof.
  intros Hl. induction l as [|z l IH]; cbn [set_erase].
  - split; [intros Hy; inversion Hy|intros [Hy _]; inversion Hy].
  - pose proof Hl as Hz. apply StronglySorted_inv in Hl as [Hl Hf]. rewrite Forall_forall in Hf. destruct (lt x z) eqn:E1.
    + split; [|tauto]. intros Hy. split; [exact Hy|]. intros ->. apply elem_of_cons in Hy as [->|Hy].
      * rewrite lt_spec in E1. lia.
      * pose proof (Hf x Hy) as H1. rewrite lt_spec in E1, H1. lia.
    + destruct (lt z x) eqn:E2.
      * rewrite !elem_of_cons, (IH Hl). split; [|tauto]. intros [->|[Hy N]]; [|tauto]. split; [auto|].
        intros ->. rewrite lt_spec in E2. lia.
      * pose proof (lt_total x z E1 E2) as ->. rewrite elem_of_cons. split; [|tauto].
        intros Hy. split; [auto|]. intros ->. pose proof (Hf z Hy) as H1. rewrite lt_spec in H1. lia.
Qed.
Lemma erase_ordered x l : ordered l -> ordered (set_erase lt x l).
Proof.
  intros Hl. induction l as [|z l IH]; cbn [set_erase]; [constructor|].
  pose proof Hl as Hz. apply StronglySorted_inv in Hl as [Hl Hf]. destruct (lt x z); [exact Hz|].
  destruct (lt z x); [|exact Hl]. constructor; [apply IH; exact Hl|].
  apply Forall_forall. intros y Hy. apply erase_elem in Hy as [Hy _]; [|exact Hl]. rewrite Forall_forall in Hf. auto.
Qed.
End Order.

(** Deadlines that agree on the set give the same order. *)
Lemma ordered_by_deadlines ts ts' l : (forall a, a ∈ l -> timestamp (timer_at ts' a) = timestamp (timer_at ts a)) ->
  ordered ts l -> ordered ts' l.
Proof.
  intros Ht Hl. induction Hl as [|a l Hl IH Hf]; constructor.
  - apply IH. intros b Hb. apply Ht. right. exact Hb.
  - apply Forall_forall. intros b Hb. rewrite Forall_forall in Hf. specialize (Hf b Hb).
    rewrite lt_spec in Hf |- *. unfold deadline in *. rewrite !Ht by (left || (right; exact Hb)). exact Hf.
Qed.

(** * Runs *)

Inductive timer_action :=
| SetTimer (ns t countdown intv q m : Z) | StopTimer (t : Z) | TimerThread (ns : Z).
Definition timer_step (a : timer_action) (s : timer_state) : option timer_state :=
  match a with
  | SetTimer ns t countdown intv q m => Some (osSetTimer ns t countdown intv q m s)
  | StopTimer t => Some (osStopTimer t s)
  | TimerThread ns => timer_thread_step ns s
  end.
(** A timer the thread has in its set, or waits for. *)
Definition active (t : Z) (s : timer_state) : bool := bool_decide (t ∈ pending s) || (match phase s with Waiting next => next =? t | Handling => false end).
(** A run in which [osSetTimer] is not called on an active timer. *)
Fixpoint timer_run (acts : list timer_action) (s : timer_state) : option timer_state :=
  match acts with
  | [] => Some s
  | a :: acts =>
      let allowed := match a with SetTimer _ t _ _ _ _ => negb (active t s) | _ => true end in
      if allowed then match timer_step a s with Some s => timer_run acts s | None => None end else None
  end.
Definition init_timers : timer_state := TimerState ∅ [] [] Handling [].

Record timer_inv (s : timer_state) : Prop := {
  ti_ordered : ordered (timers s) (pending s);
  ti_waiting : forall next, phase s = Waiting next -> next ∉ pending s /\ Forall (fun p => by_deadline (timers s) next p = true) (pending s) }.

Lemma apply_ordered ts c l : ordered ts l -> ordered ts (apply_command ts c l).
Proof. intros Hl. destruct c; cbn; [apply insert_ordered|apply erase_ordered]; exact Hl. Qed.
Lemma handling_inv ts cs l sent : ordered ts l -> timer_inv (TimerState ts cs l Handling sent).
Proof. intros Hl. constructor; cbn; [exact Hl|discriminate]. Qed.
Lemma timer_at_other ts t r a : a <> t -> timer_at (<[t := r]> ts) a = timer_at ts a.
Proof. intros N. unfold timer_at. rewrite lookup_insert_ne by congruence. reflexivity. Qed.
Lemma inv_after_set s t r cs : timer_inv s -> active t s = false ->
  timer_inv (TimerState (<[t := r]> (timers s)) cs (pending s) (phase s) (sent s)).
Proof.
  intros [H1 H2] Ha. apply orb_false_iff in Ha as [Ha Hw]. apply bool_decide_eq_false in Ha.
  assert (Hw' : phase s <> Waiting t) by (intros E; rewrite E, Z.eqb_refl in Hw; discriminate).
  assert (E : forall a, a ∈ pending s -> timer_at (<[t := r]> (timers s)) a = timer_at (timers s) a).
  { intros a Hin. apply timer_at_other. intros ->. contradiction. }
  constructor; cbn [timers pending phase].
  - apply (ordered_by_deadlines (timers s)); [intros a Hin; rewrite E by exact Hin; reflexivity|exact H1].
  - intros next Hn. destruct (H2 next Hn) as [N1 N2]. split; [exact N1|]. rewrite Forall_forall in N2 |- *. intros p Hp.
    assert (Nt : next <> t) by congruence.
    unfold by_deadline. rewrite (E p Hp), (timer_at_other _ _ _ next Nt). apply N2. exact Hp.
Qed.
Lemma fire_inv ns next s : timer_inv s -> phase s = Waiting next -> timer_inv (fire ns next s).
Proof.
  intros [H1 H2] Hn. destruct (H2 next Hn) as [N1 _]. unfold fire. destruct (negb _); apply handling_inv; [|exact H1].
  apply insert_ordered, (ordered_by_deadlines (timers s)); [|exact H1]. intros a Ha. rewrite timer_at_other by (intros ->; contradiction). reflexivity.
Qed.
Lemma thread_step_inv ns s s' : timer_inv s -> timer_thread_step ns s = Some s' -> timer_inv s'.
Proof.
  intros Hi. pose proof Hi as [H1 H2]. unfold timer_thread_step. destruct (phase s) as [|next] eqn:Hp.
  - destruct (command_queue s); [destruct (pending s) as [|next rest] eqn:El; [discriminate|]|]; intros [= <-].
    + unfold ordered in H1. apply StronglySorted_inv in H1 as [S1 S2]. constructor; cbn; [exact S1|]. intros n [= <-].
      split; [|exact S2]. intros Hin. rewrite Forall_forall in S2. specialize (S2 _ Hin). rewrite lt_spec in S2. lia.
    + apply handling_inv, apply_ordered, H1.
  - cbv zeta. destruct (command_queue s).
    + destruct (_ <=? 0); [|discriminate]. intros [= <-]. apply fire_inv; assumption.
    + destruct (0 <=? _); intros [= <-]; [|apply fire_inv; assumption]. apply handling_inv, apply_ordered, insert_ordered, H1.
Qed.
Lemma timer_run_inv acts s s' : timer_inv s -> timer_run acts s = Some s' -> timer_inv s'.
Proof.
  revert s. induction acts as [|a acts IH]; intros s Hi; cbn [timer_run]; [intros [= <-]; exact Hi|].
  destruct a as [ns t countdown intv q m|t|ns]; cbn [timer_step].
  - destruct (active t s) eqn:Ha; [discriminate|]. cbn [negb]. apply IH. apply inv_after_set; assumption.
  - apply IH. destruct Hi as [H1 H2]. constructor; assumption.
  - destruct (timer_thread_step ns s) as [s1|] eqn:E; [|discriminate]. apply IH. exact (thread_step_inv ns s s1 Hi E).
Qed.
Lemma init_timers_inv : timer_inv init_timers.
Proof. apply handling_inv. constructor. Qed.

Lemma fire_sent ns next s : sent (fire ns next s) = sent s ++ [(ns, mq (timer_at (timers s) next), msg (timer_at (timers s) next))].
Proof. unfold fire. destruct (negb _); reflexivity. Qed.
Lemma list_grows {A} (l : list A) x : l <> l ++ [x].
Proof. intros E. apply (f_equal length) in E. rewrite length_app in E. cbn in E. lia. Qed.

(** C23: If no active timer is set again, a timer fires only when its deadline has passed
    and no active one is due earlier, and the set holds no timer twice. *)
Theorem timers_fire_in_deadline_order acts s ns s' : timer_run acts init_timers = Some s -> timer_thread_step ns s = Some s' ->
  NoDup (pending s) /\
  (sent s' <> sent s ->
   exists next, phase s = Waiting next /\
     sent s' = sent s ++ [(ns, mq (timer_at (timers s) next), msg (timer_at (timers s) next))] /\
     ticks_to_timepoint (deadline (timers s) next) <= ns /\
     (forall p, p ∈ pending s -> p <> next /\ deadline (timers s) next <= deadline (timers s) p)).
Proof.
  intros Hr Hs. pose proof (timer_run_inv acts _ s init_timers_inv Hr) as [H1 H2]. split.
  - clear - H1. induction H1 as [|a l Hl IH Hf]; constructor; [|exact IH]. intros Hin. rewrite Forall_forall in Hf.
    specialize (Hf a Hin). rewrite lt_spec in Hf. lia.
  - intros Hn.
    assert (F : exists next, phase s = Waiting next /\ s' = fire ns next s /\ ticks_to_timepoint (deadline (timers s) next) <= ns).
    { unfold timer_thread_step in Hs. destruct (phase s) as [|next] eqn:Hp.
      - destruct (command_queue s); [destruct (pending s); [discriminate|]|]; injection Hs as <-; contradiction.
      - exists next. cbv zeta in Hs. fold (deadline (timers s) next) in Hs.
        destruct (command_queue s).
        + destruct (Z.leb_spec (ticks_to_timepoint (deadline (timers s) next) - ns) 0); [|discriminate].
          injection Hs as <-. split; [reflexivity|]. split; [reflexivity|lia].
        + destruct (Z.leb_spec 0 (ticks_to_timepoint (deadline (timers s) next) - ns)); injection Hs as <-; [contradiction|].
          split; [reflexivity|]. split; [reflexivity|lia]. }
    destruct F as (next & Hp & -> & Hd). exists next. destruct (H2 next Hp) as [N1 N2]. rewrite Forall_forall in N2.
    split; [exact Hp|]. split; [apply fire_sent|]. split; [exact Hd|]. intros p Hin.
    split; [intros ->; contradiction|]. specialize (N2 p Hin). rewrite lt_spec in N2. lia.
Qed.

(** Stopping a timer and setting it again to an earlier deadline before the timer thread handles the stop leaves the timer in the active set twice. *)
Theorem stop_then_set_duplicates_the_timer :
  let ms n := n * 1000000 in
  let two := [SetTimer 0 1 (20 * 46875) 0 7 0; SetTimer 0 2 (40 * 46875) 0 8 0; TimerThread 0; TimerThread 0] in
  exists s s', timer_run two init_timers = Some s /\ pending s = [1; 2] /\
    timer_thread_step (ms 1) (osSetTimer (ms 1) 2 (10 * 46875) 0 8 0 (osStopTimer 2 s)) = Some s' /\
    exists s'', timer_thread_step (ms 1) s' = Some s'' /\ pending s'' = [2; 1; 2] /\ command_queue s'' = [].
Proof.
  cbv zeta. eexists. eexists. split; [vm_compute; reflexivity|]. split; [reflexivity|].
  split; [vm_compute; reflexivity|]. eexists. split; [vm_compute; reflexivity|]. split; reflexivity.
Qed.
