(* ===== verification/SampleMips.v ===== *)
(** Concrete inputs for the interpreter and the timers: guest code in a byte
    map, registers with 64-bit patterns, and short timer histories. *)

From S2P Require Import Prelude Bytes RspMem Rdram Floats Mips MipsSpec MipsRun Timer.
From Stdlib Require Import ZArith Lia Bool List SpecFloat.
From stdpp Require Import base list gmap.
Open Scope Z_scope.

(** * Parameters *)

(** The accesses of the header on a byte map; the unaligned ones merge with
    the word or doubleword around the address. *)
Definition bm_half (m : bytemap) (a : Z) : Z := u8 (bm_get m a) * 256 + u8 (bm_get m (a + 1)).
Definition bm_double (m : bytemap) (a : Z) : Z := bm_word m a * 4294967296 + bm_word m (a + 4).
Definition put_double (a v : Z) (m : bytemap) : bytemap :=
  MEM_W_put (a + 4) (s32 v) (MEM_W_put a (s32 (Z.shiftr v 32)) m).
(** The bytes of a [width]-byte unit from the address up, into the high end of
    a register, and those up to the address into the low end. *)
Definition load_left (width old unit k : Z) : Z := Z.lor (u64 (Z.shiftl unit (8 * k))) (Z.land old (Z.ones (8 * k))).
Definition load_right (width old unit k : Z) : Z :=
  let n := 8 * (width - 1 - k) in Z.lor (Z.shiftr unit n) (Z.ldiff old (Z.ones (8 * width - n))).
Definition store_left (width old v k : Z) : Z :=
  Z.lor (Z.shiftr (v mod 2 ^ (8 * width)) (8 * k)) (Z.ldiff old (Z.ones (8 * width - 8 * k))).
Definition store_right (width old v k : Z) : Z :=
  let n := 8 * (width - 1 - k) in Z.lor (Z.shiftl v n mod 2 ^ (8 * width)) (Z.land old (Z.ones n)).
Definition word_at (a : Z) : Z := a - a mod 4.
Definition double_at (a : Z) : Z := a - a mod 8.

#[export] Instance bytemap_mem : MemOps bytemap := {
  MEM_BU a m := u8 (bm_get m a);
  MEM_H a m := s16 (bm_half m a);
  MEM_HU a m := bm_half m a;
  MEM_WU a m := bm_word m a;
  MEM_H_put a v m := bm_put (a + 1) v (bm_put a (v / 256) m);
  load_doubleword a m := bm_double m a;
  SD := put_double;
  do_lwl m old off reg := let a := s64 (reg + off) in sx32 (load_left 4 old (bm_word m (word_at a)) (a mod 4));
  do_lwr m old off reg := let a := s64 (reg + off) in sx32 (load_right 4 (u32 old) (bm_word m (word_at a)) (a mod 4));
  do_ldl m old off reg := let a := s64 (reg + off) in load_left 8 old (bm_double m (double_at a)) (a mod 8);
  do_ldr m old off reg := let a := s64 (reg + off) in load_right 8 old (bm_double m (double_at a)) (a mod 8);
  do_swl off reg v m :=
    let a := s64 (reg + off) in MEM_W_put (word_at a) (s32 (store_left 4 (bm_word m (word_at a)) v (a mod 4))) m;
  do_swr off reg v m :=
    let a := s64 (reg + off) in MEM_W_put (word_at a) (s32 (store_right 4 (bm_word m (word_at a)) v (a mod 4))) m;
  do_sdl off reg v m := let a := s64 (reg + off) in put_double (double_at a) (store_left 8 (bm_double m (double_at a)) v (a mod 8)) m;
  do_sdr off reg v m := let a := s64 (reg + off) in put_double (double_at a) (store_right 8 (bm_double m (double_at a)) v (a mod 8)) m }.

(** A register of the unit as its 64-bit pattern, the single in its low half. *)
#[export] Instance pattern_fpr : FprOps Z := {
  blank_fpr := 0;
  u32l f := u32 f;
  set_u32l v f := f - u32 f + u32 v;
  u64v f := f;
  set_u64v v _ := u64 v }.

(** The default pattern of the processor. *)
Definition host_nan (F : float_format) (_ : list Z) : Z := if mant_bits F =? 23 then 0x7FC00000 else 0x7FF8000000000000.

(** * Machines *)

Definition code_at (pc : Z) (words : list Z) : bytemap :=
  foldr (fun '(i, w) m => MEM_W_put (s32 pc + 4 * Z.of_nat i) w m) (∅ : bytemap) (imap (fun i w => (i, w)) words).
(** [r4] and [r5] are the arguments and [r31] the return address. *)
Definition sample_machine (a0 a1 : Z) (code : bytemap) : machine bytemap Z :=
  Machine ([0; 0; 0; 0; u64 a0; u64 a1] ++ fill 25 0 ++ [sx32 0x80000400]) 0 0 (fill 32 0) (fill 32 0) code [].
Definition no_natives (_ : Z) : option (machine bytemap Z -> machine bytemap Z) := None.

Lemma bounded_words (m : machine bytemap Z) : (forallb (fun x => (0 <=? x) && (x <? 2 ^ 64)) (regs m) = true) -> forall i, is_u64 (R m i).
Proof.
  intros Hb i. unfold R, byte_at, is_u64. destruct (regs m !! Z.to_nat i) as [x|] eqn:E; cbn; [|lia].
  rewrite forallb_forall in Hb. apply list_elem_of_lookup_2, list_elem_of_In in E. specialize (Hb x E).
  apply andb_true_iff in Hb as [H1 H2]. apply Z.leb_le in H1. apply Z.ltb_lt in H2. lia.
Qed.
Lemma sample_ok a0 a1 code : machine_ok (sample_machine a0 a1 code).
Proof.
  constructor; [reflexivity| |reflexivity|unfold is_u64; cbn; lia|unfold is_u64; cbn; lia].
  apply bounded_words. cbn [regs sample_machine]. rewrite forallb_app. apply andb_true_iff. split; [|vm_compute; reflexivity].
  pose proof (u64_range a0) as R0. pose proof (u64_range a1) as R1. unfold is_u64 in *. cbn [forallb].
  rewrite !andb_true_iff, !Z.leb_le, !Z.ltb_lt. lia.
Qed.

(** [addu $2, $4, $5] ; [subu $3, $4, $5] ; [jr $ra] ; [sra $2, $2, 1]. *)
Definition leaf_code : bytemap := code_at 0x80000000 [0x00851021; 0x00851823; 0x03E00008; 0x00021043].
Definition leaf_machine : machine bytemap Z := sample_machine (-7) 3 leaf_code.

Lemma interpreter_keeps_words_witness :
  match recomp_interpret_function host_nan no_natives 5 0x80000000 leaf_machine with
  | Some (Returned m) => machine_ok m
  | _ => False
  end.
Proof.
  pose proof (fun r => interpreter_keeps_words host_nan no_natives ltac:(intros t nf m E; discriminate E) 5 0x80000000 leaf_machine r (sample_ok _ _ _)) as P.
  assert (B : match recomp_interpret_function host_nan no_natives 5 0x80000000 leaf_machine with Some (Returned _) => true | _ => false end = true)
    by (vm_compute; reflexivity).
  revert B P. destruct (recomp_interpret_function _ _ _ _ _) as [[m|m|]|]; intros B P; try discriminate B. exact (P _ eq_refl).
Defined.

Lemma word_alu_is_reference_witness :
  exists m', exec_noncontrol host_nan 0x00851023 (sample_machine (-7) 3 leaf_code) = Ran m' /\ holds m' 2 (-10).
Proof.
  destruct (word_alu_is_reference host_nan 0x00851023 (sample_machine (-7) 3 leaf_code) (-7) 3 (-10) (sample_ok _ _ _)) as (m' & E & H & _);
    [reflexivity|discriminate|split; [unfold is_s32; lia|vm_compute; reflexivity]|split; [unfold is_s32; lia|vm_compute; reflexivity]|reflexivity|].
  exists m'. auto.
Defined.

Lemma hi_lo_arithmetic_witness :
  exists m', exec_noncontrol host_nan 0x0085001A leaf_machine = Ran m' /\
    s32 (R leaf_machine 4) = s32 (ctx_lo m') * s32 (R leaf_machine 5) + s32 (ctx_hi m').
Proof.
  destruct (hi_lo_arithmetic host_nan 0x0085001A leaf_machine eq_refl) as (_ & _ & D & _).
  destruct D as (m' & E & _ & _ & Hq & _); [reflexivity|vm_compute; discriminate|vm_compute; intros [? _]; discriminate|].
  exists m'. split; [exact E|exact Hq].
Defined.

(** The hypotheses of [leaf_function_returns] and the results, evaluated once. *)
Definition leaf_check : bool :=
  match exec_block host_nan 2 0x80000000 leaf_machine with
  | Some m1 =>
      (ifetch m1 (pc_after 2 0x80000000) =? jr_ra) && (u32 (R m1 31) =? u32 (R leaf_machine 31)) &&
      match exec_noncontrol host_nan (ifetch m1 (u32 (pc_after 2 0x80000000 + 4))) m1 with
      | Ran m2 => (R m2 2 =? u64 (-2)) && (R m2 3 =? u64 (-10))
      | _ => false
      end
  | None => false
  end.
Lemma leaf_function_returns_witness :
  exists m', recomp_interpret_function host_nan no_natives 3 0x80000000 leaf_machine = Some (Returned m') /\ R m' 2 = u64 (-2) /\ R m' 3 = u64 (-10).
Proof.
  assert (C : leaf_check = true) by (vm_compute; reflexivity). unfold leaf_check in C.
  destruct (exec_block host_nan 2 0x80000000 leaf_machine) as [m1|] eqn:E1; [|discriminate C].
  apply andb_prop in C as [[H1%Z.eqb_eq H2%Z.eqb_eq]%andb_prop C].
  destruct (exec_noncontrol host_nan (ifetch m1 (u32 (pc_after 2 0x80000000 + 4))) m1) as [m2| |] eqn:E2; [|discriminate C..].
  apply andb_prop in C as [R2%Z.eqb_eq R3%Z.eqb_eq]. exists m2. split; [|split; [exact R2|exact R3]].
  refine (leaf_function_returns host_nan no_natives 2 0x80000000 leaf_machine m1 m2 _ E1 H1 H2 E2 3 _); [reflexivity|lia].
Defined.

(** [jal 0x80000000] at 0x80000000, with a [nop]. *)
Definition self_call : bytemap := code_at 0x80000000 [0x0C000000; 0].
Lemma endless_recursion_stops_witness :
  exists m', recomp_interpret_function host_nan no_natives 257 0x80000000 (sample_machine 0 0 self_call) = Some (Stopped m').
Proof.
  apply (endless_recursion_stops host_nan no_natives 0x80000000 (sample_machine 0 0 self_call) 257);
    [reflexivity|vm_compute; reflexivity|vm_compute; reflexivity|vm_compute; reflexivity|reflexivity|lia].
Defined.

(** * Timers *)

Definition sample_timers : list timer_action :=
  [SetTimer 0 1 (20 * 46875) 0 7 0; SetTimer 0 2 (10 * 46875) 0 8 5; TimerThread 0; TimerThread 0; TimerThread 0].
Lemma timers_fire_in_deadline_order_witness :
  exists s, timer_run sample_timers init_timers = Some s /\ phase s = Waiting 2 /\
    ticks_to_timepoint (deadline (timers s) 2) <= 10000000 /\ deadline (timers s) 2 <= deadline (timers s) 1.
Proof.
  destruct (timer_run sample_timers init_timers) as [s|] eqn:E; [|vm_compute in E; discriminate E].
  assert (S1 : exists s', timer_thread_step 10000000 s = Some s' /\ sent s' <> sent s /\ phase s = Waiting 2 /\ 1 ∈ pending s).
  { vm_compute in E. injection E as <-. eexists. split; [vm_compute; reflexivity|].
    split; [discriminate|]. split; [reflexivity|]. left. }
  destruct S1 as (s' & E1 & Hn & Hp & Hin).
  destruct (timers_fire_in_deadline_order sample_timers s 10000000 s' E E1) as [_ T].
  destruct (T Hn) as (next & Hw & _ & Hd & Hmin). rewrite Hp in Hw. injection Hw as <-.
  exists s. split; [reflexivity|]. split; [exact Hp|]. split; [exact Hd|]. apply Hmin. exact Hin.
Defined.
