(* ===== verification/SampleVu.v ===== *)
(** The theorems about the vector unit, the data memory and the task launch at
    concrete inputs: a short vector program, a small data memory, and a byte
    map for guest memory. *)

From S2P Require Import Prelude Vec128 VuOps RspMem VuMem VuMemSpec VuShared VuRefine VuExec VuDiv Rdram RspCore RspCoreSpec.
From Stdlib Require Import ZArith Lia Bool List.
From stdpp Require Import base list gmap.
Import ListNotations.
Open Scope Z_scope.

(** * The vector unit *)

Definition sample_vu : VU := mkVU zero zero zero zero zero zero zero zero 0 0 false.
(** Register 1 holds lanes of both signs. *)
Definition sample_reg : r128 := R128 1 0xFFFF 0x8000 0x7FFF 2 3 0x4000 0xC000.
Definition sample_machine : machine := Machine sample_vu {[1 := sample_reg]} ∅ ∅.
Definition sample_program : list vinstr :=
  [IOp OpVMULF 0 2 1 1; IOp OpVMACF 9 3 1 2; IOp OpVCH 0 4 1 3; IStore StQ 0 4 0 1; ICFC2 5 1].

Lemma sample_reg_wf : wf128 sample_reg.
Proof. unfold wf128, lanes_ok, is_u16. cbn. lia. Qed.
Lemma sample_vu_ok : vu_ok sample_vu.
Proof. unfold vu_ok, vu_flags_ok, flag128, wf128, lanes_ok, is_u16, is_mask. cbn. lia. Qed.
Lemma sample_machine_ok : machine_ok sample_machine.
Proof.
  split; [exact sample_vu_ok|]. intros i. unfold vreg, sample_machine, vr. destruct (decide (1 = i)) as [<-|N].
  - rewrite lookup_singleton_eq. exact sample_reg_wf.
  - rewrite lookup_singleton_ne by assumption. cbn. unfold zero, wf128, lanes_ok, is_u16. cbn. lia.
Qed.
Lemma sample_program_ok : Forall instr_ok sample_program.
Proof. unfold sample_program. repeat apply Forall_cons_2; try apply Forall_nil_2; cbn; lia. Qed.

Lemma simd_refines_sisd_witness :
  run step_simd sample_program sample_machine = run step_sisd sample_program sample_machine.
Proof. exact (simd_refines_sisd sample_program sample_machine sample_machine_ok sample_program_ok). Defined.
Lemma run_preserves_flags_witness : machine_ok (run step_simd sample_program sample_machine).
Proof. exact (proj1 (run_preserves_flags sample_program sample_machine sample_machine_ok sample_program_ok)). Defined.
Lemma CTC2_CFC2_roundtrip_witness : CFC2_simd 1 (CTC2_simd 0x1234 1 sample_vu) = 0x1234.
Proof. refine (CTC2_CFC2_roundtrip 0x1234 1 sample_vu _ sample_vu_ok). unfold is_u32. lia. Defined.

(** * Loads and stores *)

Definition sample_dmem : dmem_t := RSP_MEM_set 0 21 200 (RSP_MEM_set 0 20 100 ∅).
Lemma sample_dmem_ok : dmem_ok sample_dmem.
Proof.
  intros i. unfold dmem_get, sample_dmem, RSP_MEM_set.
  repeat (rewrite lookup_insert; destruct (decide _); [apply u8_range|]).
  rewrite lookup_empty. change (is_u8 0). unfold is_u8. lia.
Qed.

Lemma unaligned_load_witness : vbyte (LRV 0 19 1 sample_dmem (LQV 0 19 0 sample_dmem sample_reg)) 2 = 200.
Proof.
  refine (unaligned_load 19 sample_dmem sample_reg 2 _ sample_dmem_ok sample_reg_wf _); [unfold is_u32|]; lia.
Defined.
Lemma unaligned_roundtrip_witness :
  let d' := SRV 0 19 1 sample_reg (SQV 0 19 0 sample_reg sample_dmem) in
  LRV 0 19 1 d' (LQV 0 19 0 d' zero) = sample_reg.
Proof.
  refine (proj1 (unaligned_roundtrip 19 sample_dmem sample_reg zero _ sample_dmem_ok sample_reg_wf _));
    [unfold is_u32; lia|unfold wf128, lanes_ok, is_u16; cbn; lia].
Defined.
Lemma LUV_sign_extends_witness : velement (LUV 0 16 0 sample_dmem sample_reg) 5 = 200 * 128 + 32768.
Proof.
  refine (LUV_sign_extends 16 sample_dmem sample_reg 5 _ eq_refl sample_dmem_ok _); [unfold is_u32|]; lia.
Defined.
Lemma packed_roundtrip_witness :
  RSP_MEM_BU 0 21 (SUV 0 16 0 (LUV 0 16 0 sample_dmem sample_reg) sample_dmem) = 200.
Proof.
  refine (proj1 (packed_roundtrip 16 sample_dmem sample_reg 21 _ eq_refl sample_dmem_ok sample_reg_wf)).
  unfold is_u32. lia.
Defined.

(** * The divides *)

Lemma VRCP_accuracy_witness : rcp_result 3 * 3 <= 2147483648 + 4194304 + 128.
Proof. refine (proj1 (VRCP_accuracy 3 _)). lia. Defined.
Lemma rspInverseSquareRoots_spec_witness :
  exists b, isqrt_loop isqrt_fuel (rsq_radicand 7) (2 ^ 17) = Some b.
Proof. destruct (rspInverseSquareRoots_spec 7 ltac:(lia)) as [b [H _]]. exists b. exact H. Defined.
Lemma VRSQ_accuracy_witness : 2 ^ 62 - 2 ^ 48 < (rsq_result 2 + 1) * (rsq_result 2 + 1) * 2.
Proof. refine (proj2 (VRSQ_accuracy 2 _)). lia. Defined.

(** * DMA and tasks *)

Lemma apply_sp_status_write_spec_witness : Z.testbit (apply_sp_status_write 0x40 0x404) 7 = true.
Proof. refine (apply_sp_status_write_spec 0x40 0x404 7 _). lia. Defined.

Definition sample_rdram : bytemap := {[ dram_ptr 0x100 := 0x12; dram_ptr 0x101 := 0xF0 ]}.
Lemma dma_read_contents_witness :
  RSP_MEM_BU 0 1 (dma_rdram_to_dmem sample_rdram 0 0x100 7 ∅) = 0xF0.
Proof. refine (dma_read_contents sample_rdram 0 0x100 7 ∅ 1 _). vm_compute. discriminate. Defined.
(** Two blocks of eight bytes with eight bytes skipped between them. *)
Lemma dma_roundtrip_witness :
  RSP_MEM_BU 0 21 (dma_rdram_to_dmem (dma_dmem_to_rdram sample_dmem 16 0x200 0x801007 sample_rdram) 16 0x200 0x801007 ∅)
  = 200.
Proof.
  refine (dma_roundtrip sample_rdram 16 0x200 0x801007 sample_dmem ∅ 21 _ _ sample_dmem_ok).
  - vm_compute. discriminate.
  - unfold dram_fits. vm_compute. tauto || discriminate.
Defined.

Definition sample_task : OSTask := MkOSTask 1 0x80000000 0x100 8 (replicate 64 7).
Lemma load_task_layout_witness : RSP_MEM_BU 0 1 (load_task sample_rdram sample_task ∅) = 0xF0.
Proof.
  refine (proj2 (load_task_layout sample_rdram sample_task ∅ 1 _ eq_refl _) _).
  - unfold is_u32. cbn. lia.
  - cbn [task_bytes sample_task]. apply Forall_replicate. unfold is_u8. lia.
  - vm_compute. split; [discriminate|reflexivity].
Defined.
Lemma run_task_result_witness :
  fst (fst (run_task (fun _ _ => Some (fun m d _ => (Broke, m, d))) sample_rdram sample_task ∅)) = true.
Proof.
  refine (proj2 (run_task_result (fun _ _ => Some (fun m d _ => (Broke, m, d))) sample_rdram sample_task ∅) _).
  do 3 eexists. split; reflexivity.
Defined.
