(* ===== verification/GuestMem.v ===== *)
(** Guest memory as the runtime's C++ sees it: [rdram] is a host byte array,
    [TO_PTR] (ultramodern/include/ultramodern/ultra64.h) turns a sign-extended
    guest pointer into an offset of it, and the fields of the libultra
    structures are host-order integers at fixed offsets. *)

From S2P Require Import Prelude.
From Stdlib Require Import ZArith Lia Bool List.
From stdpp Require Import base gmap.
Open Scope Z_scope.

Abbreviation hostmem := (gmap Z Z).

Definition hbyte (m : hostmem) (a : Z) : Z := default 0 (m !! a).

(** Little-endian integers of [n] bytes. *)
Fixpoint load (n : nat) (a : Z) (m : hostmem) : Z :=
  match n with
  | O => 0
  | S n => u8 (hbyte m a) + 256 * load n (a + 1) m
  end.
Fixpoint store (n : nat) (a v : Z) (m : hostmem) : hostmem :=
  match n with
  | O => m
  | S n => store n (a + 1) (v / 256) (<[a := u8 v]> m)
  end.

Definition load_s32 (a : Z) (m : hostmem) : Z := s32 (load 4 a m).
Definition load_u16 (a : Z) (m : hostmem) : Z := load 2 a m.
Definition store_32 (a v : Z) (m : hostmem) : hostmem := store 4 a v m.
Definition store_16 (a v : Z) (m : hostmem) : hostmem := store 2 a v m.

(** [&rdram[(uint64_t)var - 0xFFFFFFFF80000000]] for an [int32_t] pointer. *)
Definition to_off (p : Z) : Z := p + 2147483648.

(** The 4 GB reserved for [rdram] are accessible up to [mem_size]
    (librecomp/include/librecomp/addresses.hpp); a host access beyond it is a
    fault, which [load] and [store], total functions, do not show. *)
Definition mem_size : Z := 1024 * 1024 * 1024.
Definition mapped (off : Z) : bool := (0 <=? off) && (off <? mem_size).

#[global] Arguments load_s32 : simpl never.
#[global] Arguments load_u16 : simpl never.
#[global] Arguments store_32 : simpl never.
#[global] Arguments store_16 : simpl never.
#[global] Arguments to_off : simpl never.

(** * Reading after writing *)

Lemma hbyte_insert m a b v : hbyte (<[a := v]> m) b = if decide (a = b) then v else hbyte m b.
Proof.
  unfold hbyte. destruct (decide (a = b)) as [->|N].
  - rewrite lookup_insert_eq. reflexivity.
  - rewrite lookup_insert_ne by assumption. reflexivity.
Qed.

Lemma store_byte n a v m b : ~ (a <= b < a + Z.of_nat n) -> hbyte (store n a v m) b = hbyte m b.
Proof.
  revert a v m. induction n as [|n IH]; intros a v m Hb; cbn [store]; [reflexivity|].
  rewrite IH by lia. rewrite hbyte_insert, decide_False by lia. reflexivity.
Qed.

Lemma load_ext n a m m' : (forall b, a <= b < a + Z.of_nat n -> hbyte m b = hbyte m' b) -> load n a m = load n a m'.
Proof.
  revert a. induction n as [|n IH]; intros a H; cbn [load]; [reflexivity|].
  rewrite (H a) by lia. rewrite (IH (a + 1)); [reflexivity|]. intros b Hb. apply H. lia.
Qed.

(** Disjoint accesses commute. *)
Lemma load_store_disj n k a b v m : (a + Z.of_nat n <= b \/ b + Z.of_nat k <= a) ->
  load n a (store k b v m) = load n a m.
Proof. intros H. apply load_ext. intros c Hc. apply store_byte. lia. Qed.

Lemma load_store_same n a v m : load n a (store n a v m) = v mod 256 ^ Z.of_nat n.
Proof.
  revert a v m. induction n as [|n IH]; intros a v m; cbn [load store].
  - rewrite Z.mod_1_r. reflexivity.
  - rewrite IH, store_byte by lia. rewrite hbyte_insert, decide_True by reflexivity.
    rewrite (u8_small (u8 v)) by apply u8_range.
    rewrite Nat2Z.inj_succ, Z.pow_succ_r by lia. unfold u8.
    rewrite Z.rem_mul_r by lia. reflexivity.
Qed.

Lemma load_bound n a m : 0 <= load n a m < 256 ^ Z.of_nat n.
Proof.
  revert a. induction n as [|n IH]; intros a; cbn [load]; [cbn; lia|].
  specialize (IH (a + 1)). pose proof (u8_range (hbyte m a)) as Hb. unfold is_u8 in Hb.
  rewrite Nat2Z.inj_succ, Z.pow_succ_r by lia. lia.
Qed.

Lemma load_s32_same a v m : load_s32 a (store_32 a v m) = s32 v.
Proof.
  unfold load_s32, store_32. rewrite load_store_same. change (256 ^ Z.of_nat 4) with 4294967296.
  unfold s32. rewrite Z.mod_mod by lia. reflexivity.
Qed.
Lemma load_s32_disj a b v m : (a + 4 <= b \/ b + 4 <= a) -> load_s32 a (store_32 b v m) = load_s32 a m.
Proof. intros H. unfold load_s32, store_32. rewrite load_store_disj by (cbn; lia). reflexivity. Qed.
Lemma load_s32_disj16 a b v m : (a + 4 <= b \/ b + 2 <= a) -> load_s32 a (store_16 b v m) = load_s32 a m.
Proof. intros H. unfold load_s32, store_16. rewrite load_store_disj by (cbn; lia). reflexivity. Qed.
Lemma load_u16_same a v m : load_u16 a (store_16 a v m) = u16 v.
Proof. unfold load_u16, store_16. rewrite load_store_same. reflexivity. Qed.
Lemma load_u16_disj a b v m : (a + 2 <= b \/ b + 4 <= a) -> load_u16 a (store_32 b v m) = load_u16 a m.
Proof. intros H. unfold load_u16, store_32. rewrite load_store_disj by (cbn; lia). reflexivity. Qed.
Lemma load_u16_disj16 a b v m : (a + 2 <= b \/ b + 2 <= a) -> load_u16 a (store_16 b v m) = load_u16 a m.
Proof. intros H. unfold load_u16, store_16. rewrite load_store_disj by (cbn; lia). reflexivity. Qed.
Lemma load_s32_range a m : is_s32 (load_s32 a m).
Proof. apply s32_range. Qed.
#[export] Hint Resolve load_s32_range : mach.
