(* ===== verification/Kernel.v ===== *)
(** Threads of the guest: the intrusive priority queues of
    ultramodern/src/threadqueue.cpp, the scheduler of
    ultramodern/src/scheduling.cpp and the thread calls of
    ultramodern/src/threads.cpp.

    Exactly one game thread executes at a time; a host semaphore hands the CPU
    over.  The model follows the guest CPU: [thread_self] is the thread that
    holds it, and a call that parks its caller returns the state in which the
    next thread runs. *)

From S2P Require Import Prelude GuestMem.
From Stdlib Require Import ZArith Lia Bool List.
From stdpp Require Import base gmap.
Open Scope Z_scope.

(** [running_queue_impl] is a host static, the queues of message queues are
    words of guest memory. *)
Record kstate := KState { mem : hostmem; running_queue_impl : Z; thread_self : Z }.

Definition NULLPTR : Z := 0.
Definition running_queue : Z := -1.

(** [OSThreadState] *)
Definition STOPPED : Z := 0.
Definition QUEUED : Z := 1.
Definition RUNNING : Z := 2.
Definition BLOCKED : Z := 3.

(** Fields of [OSThread]. *)
Definition t_next (t : Z) (s : kstate) : Z := load_s32 (to_off t) (mem s).
Definition t_priority (t : Z) (s : kstate) : Z := load_s32 (to_off t + 4) (mem s).
Definition t_queue (t : Z) (s : kstate) : Z := load_s32 (to_off t + 8) (mem s).
Definition t_state (t : Z) (s : kstate) : Z := load_u16 (to_off t + 18) (mem s).
Definition t_id (t : Z) (s : kstate) : Z := load_s32 (to_off t + 20) (mem s).
Definition t_context (t : Z) (s : kstate) : Z := load 8 (to_off t + 32) (mem s).
Definition t_sp (t : Z) (s : kstate) : Z := load_s32 (to_off t + 40) (mem s).

Definition set_mem (s : kstate) (m : hostmem) : kstate := KState m (running_queue_impl s) (thread_self s).
Definition set_self (s : kstate) (t : Z) : kstate := KState (mem s) (running_queue_impl s) t.
Definition put32 (a v : Z) (s : kstate) : kstate := set_mem s (store_32 a v (mem s)).
Definition set_next (t v : Z) (s : kstate) : kstate := put32 (to_off t) v s.
Definition set_priority (t v : Z) (s : kstate) : kstate := put32 (to_off t + 4) v s.
Definition set_queue (t v : Z) (s : kstate) : kstate := put32 (to_off t + 8) v s.
Definition set_state (t v : Z) (s : kstate) : kstate := set_mem s (store_16 (to_off t + 18) v (mem s)).
Definition set_id (t v : Z) (s : kstate) : kstate := put32 (to_off t + 20) v s.
Definition set_context (t v : Z) (s : kstate) : kstate := set_mem s (store 8 (to_off t + 32) v (mem s)).
Definition set_sp (t v : Z) (s : kstate) : kstate := put32 (to_off t + 40) v s.

(** * threadqueue.cpp *)

(** A [PTR(OSThread)*] of the host: the static or a word of guest memory. *)
Inductive link := LRun | LMem (off : Z).
#[export] Instance link_eq_dec : EqDecision link.
Proof. solve_decision. Defined.

Definition read_link (l : link) (s : kstate) : Z :=
  match l with LRun => running_queue_impl s | LMem o => load_s32 o (mem s) end.
Definition write_link (l : link) (v : Z) (s : kstate) : kstate :=
  match l with
  | LRun => KState (mem s) v (thread_self s)
  | LMem o => put32 o v s
  end.

Definition queue_to_ptr (queue : Z) : link :=
  if queue =? running_queue then LRun else LMem (to_off queue).

Definition valid_thread_ptr (p : Z) : bool :=
  let v := u32 p in (v >=? 0x80000000) && (v <? 0x80800000) && (Z.land v 3 =? 0).

(** The loop of [thread_queue_insert]; [guard] links may still be passed. *)
Fixpoint insert_walk (guard : nat) (added : Z) (l : link) (s : kstate) : link :=
  let t := read_link l s in
  if negb (t =? NULLPTR) && valid_thread_ptr t then
    match guard with
    | O => l
    | S guard =>
        if t_priority t s >? t_priority added s
        then insert_walk guard added (LMem (to_off t)) s else l
    end
  else l.
Definition queue_guard : nat := Z.to_nat 0x40000.

Definition thread_queue_insert (queue added : Z) (s : kstate) : kstate :=
  let l := insert_walk queue_guard added (queue_to_ptr queue) s in
  let s := if negb (read_link l s =? NULLPTR) && negb (valid_thread_ptr (read_link l s))
           then write_link l NULLPTR s else s in
  let s := set_next added (read_link l s) s in
  let s := set_queue added queue s in
  let s := if queue =? running_queue then set_state added QUEUED s
           else if negb (queue =? NULLPTR) then set_state added BLOCKED s else s in
  write_link l added s.

(** The trace loop at the end of [thread_queue_insert], which follows every
    link to the end; [None] is a dereference outside guest memory, and
    running out of fuel a chain longer than [fuel]. *)
Fixpoint insert_trace (fuel : nat) (l : link) (s : kstate) : option (list Z) :=
  match fuel with
  | O => None
  | S fuel =>
      let t := read_link l s in
      if t =? NULLPTR then Some []
      else if (u32 t >=? 0x80000000) && (u32 t <? 0x80800000)
      then match insert_trace fuel (LMem (to_off t)) s with
           | Some ids => Some (t_id t s :: ids)
           | None => None
           end
      else None
  end.

Definition thread_queue_pop (queue : Z) (s : kstate) : Z * kstate :=
  let head := queue_to_ptr queue in
  let popped := read_link head s in
  if negb (valid_thread_ptr popped) then (NULLPTR, write_link head NULLPTR s)
  else
    let s := write_link head (t_next popped s) s in
    (popped, set_queue popped NULLPTR s).

(** The loop of [thread_queue_remove]. *)
Fixpoint remove_walk (guard : nat) (t : Z) (l : link) (s : kstate) : bool * kstate :=
  let cur := read_link l s in
  if cur =? NULLPTR then (false, s)
  else if negb (valid_thread_ptr cur) then (false, write_link l NULLPTR s)
  else match guard with
       | O => (false, write_link l NULLPTR s)
       | S guard =>
           if cur =? t then (true, set_queue cur NULLPTR (write_link l (t_next cur s) s))
           else remove_walk guard t (LMem (to_off cur)) s
       end.

Definition thread_queue_remove (queue t : Z) (s : kstate) : bool * kstate :=
  if negb (queue =? running_queue) && negb (valid_thread_ptr queue) then (false, s)
  else remove_walk queue_guard t (queue_to_ptr queue) s.

Definition thread_queue_empty (queue : Z) (s : kstate) : bool :=
  read_link (queue_to_ptr queue) s =? NULLPTR.
Definition thread_queue_peek (queue : Z) (s : kstate) : Z :=
  read_link (queue_to_ptr queue) s.

(** * scheduling.cpp and the hand-over of threads.cpp *)

Definition schedule_running_thread (t : Z) (s : kstate) : kstate :=
  set_state t QUEUED (thread_queue_insert running_queue t s).

(** [resume_thread] signals the semaphore of the target's context (a null
    context is a null dereference) and [wait_for_resumed], in the target,
    marks it running. *)
Definition switch_to (t : Z) (s : kstate) : option kstate :=
  if t_context t s =? 0 then None
  else Some (set_state t RUNNING (set_self s t)).

(** [run_next_thread], [run_next_thread_and_wait]: [None] when no thread is
    runnable, which the code reports by an exception. *)
Definition run_next_thread (s : kstate) : option kstate :=
  if thread_queue_empty running_queue s then None
  else let '(to_run, s) := thread_queue_pop running_queue s in switch_to to_run s.
Definition run_next_thread_and_wait := run_next_thread.

Definition swap_to_thread (to : Z) (s : kstate) : option kstate :=
  let self := thread_self s in
  let s := thread_queue_insert running_queue self s in
  let s := set_state self QUEUED s in
  switch_to to s.

Definition check_running_queue (s : kstate) : option kstate :=
  if thread_queue_empty running_queue s then Some s
  else
    let next := thread_queue_peek running_queue s in
    if t_priority next s >? t_priority (thread_self s) s then
      let '(_, s) := thread_queue_pop running_queue s in
      swap_to_thread next s
    else Some s.

(** * The thread calls of threads.cpp *)

Definition or_self (t : Z) (s : kstate) : Z := if t =? NULLPTR then thread_self s else t.

(** [ctx] is the context object the call allocates. *)
Definition osCreateThread (t id sp pri ctx : Z) (s : kstate) : kstate :=
  let s := set_next t NULLPTR s in
  let s := set_queue t NULLPTR s in
  let s := set_priority t pri s in
  let s := set_id t id s in
  let s := set_state t STOPPED s in
  let s := set_sp t (s32 (sp - 0x10)) s in
  set_context t ctx s.

Definition osStartThread (t : Z) (s : kstate) : option kstate :=
  if negb (thread_self s =? NULLPTR) then check_running_queue (schedule_running_thread t s)
  else switch_to t (set_state t QUEUED s).

(** Stopping another thread is an assertion failure. *)
Definition osStopThread (t : Z) (s : kstate) : option kstate :=
  if or_self t s =? thread_self s then run_next_thread_and_wait s else None.

Inductive destroy_result :=
| Terminated                  (** the caller unwinds by [thread_terminated] *)
| Destroyed (s : kstate).
Definition osDestroyThread (t : Z) (s : kstate) : destroy_result :=
  let t := or_self t s in
  if t =? thread_self s then Terminated
  else
    let s := if negb (t_state t s =? STOPPED) then snd (thread_queue_remove (t_queue t s) t s) else s in
    Destroyed (if negb (t_context t s =? 0) then set_context t 0 s else s).

(** The part of [osSetThreadPri] before the reschedule. *)
Definition set_pri_requeue (t pri : Z) (s : kstate) : kstate :=
  let s := set_priority t pri s in
  if negb (t =? thread_self s) && negb (t_state t s =? STOPPED) then
    let s := snd (thread_queue_remove (t_queue t s) t s) in
    thread_queue_insert (t_queue t s) t s
  else s.
Definition osSetThreadPri (t pri : Z) (s : kstate) : option kstate :=
  let t := or_self t s in
  if negb (t_priority t s =? pri) then check_running_queue (set_pri_requeue t pri s)
  else Some s.

Definition osGetThreadPri (t : Z) (s : kstate) : Z := t_priority (or_self t s) s.
Definition osGetThreadId (t : Z) (s : kstate) : Z := t_id (or_self t s) s.
