(* ===== verification/KernelSpec.v ===== *)
(** The thread queues implement priority-ordered lists, and the scheduler
    built on them always runs a thread of the highest priority. At the end a small concrete guest,
    on which the theorems about threads and message queues are instantiated: three
    threads, of which one runs and two wait for the CPU. *)

From S2P Require Import Prelude GuestMem Kernel.
From Stdlib Require Import ZArith Lia Bool List.
From stdpp Require Import base list sorting gmap.
Open Scope Z_scope.

(** * Abstract queues: lists of threads, highest priority first *)

(** Where a thread of priority [p] goes: ahead of the first that does not outrank it. *)
Fixpoint enqueue (prio : Z -> Z) (x : Z) (ts : list Z) : list Z :=
  match ts with
  | [] => [x]
  | t :: ts => if prio t >? prio x then t :: enqueue prio x ts else x :: t :: ts
  end.
Fixpoint dequeue_thread (x : Z) (ts : list Z) : list Z :=
  match ts with
  | [] => []
  | t :: ts => if t =? x then ts else t :: dequeue_thread x ts
  end.
Definition ordered (prio : Z -> Z) (ts : list Z) : Prop := StronglySorted (fun a b => prio a >= prio b) ts.

Lemma enqueue_perm prio x ts : enqueue prio x ts ≡ₚ x :: ts.
Proof.
  induction ts as [|t ts IH]; cbn; [reflexivity|]. destruct (prio t >? prio x); [|reflexivity].
  rewrite IH. constructor.
Qed.
Lemma enqueue_ordered prio x ts : ordered prio ts -> ordered prio (enqueue prio x ts).
Proof.
  unfold ordered. induction ts as [|t ts IH]; cbn; intros Hs; [repeat constructor|].
  inversion Hs as [|? ? Hs' Hf]; subst. destruct (Z.gtb_spec (prio t) (prio x)).
  - constructor; [auto|]. rewrite Forall_forall in *. intros y Hy. rewrite enqueue_perm in Hy.
    apply elem_of_cons in Hy as [->|Hy]; [lia|auto].
  - constructor; [assumption|]. constructor; [lia|]. rewrite Forall_forall in *.
    intros y Hy. specialize (Hf y Hy). lia.
Qed.
Lemma dequeue_elem x ts y : y ∈ dequeue_thread x ts -> y ∈ ts.
Proof.
  induction ts as [|t ts IH]; cbn; [auto|]. destruct (t =? x); rewrite !elem_of_cons; tauto.
Qed.
Lemma dequeue_not_in x ts : NoDup ts -> x ∉ dequeue_thread x ts.
Proof.
  induction ts as [|t ts IH]; cbn; intros Hn; [apply not_elem_of_nil|].
  apply NoDup_cons in Hn as [Ht Hn]. destruct (Z.eqb_spec t x) as [->|N]; [assumption|].
  rewrite not_elem_of_cons. auto.
Qed.
Lemma dequeue_nodup x ts : NoDup ts -> NoDup (dequeue_thread x ts).
Proof.
  induction ts as [|t ts IH]; cbn; intros Hn; [constructor|].
  apply NoDup_cons in Hn as [Ht Hn]. destruct (t =? x); [assumption|]. constructor; [|auto].
  intros H. apply Ht, (dequeue_elem x). assumption.
Qed.
Lemma dequeue_ordered prio x ts : ordered prio ts -> ordered prio (dequeue_thread x ts).
Proof.
  unfold ordered. induction ts as [|t ts IH]; cbn; intros Hs; [constructor|].
  inversion Hs as [|? ? Hs' Hf]; subst. destruct (t =? x); [assumption|].
  constructor; [auto|]. rewrite Forall_forall in *. intros y Hy. apply Hf, (dequeue_elem x). assumption.
Qed.

(** * Layout of guest memory *)

Definition apart (a n b k : Z) : Prop := a + n <= b \/ b + k <= a.

(** The thread structures of the guest, which do not overlap. *)
Record threads_layout (is_thread : Z -> Prop) : Prop := {
  thread_valid : forall t, is_thread t -> is_s32 t /\ valid_thread_ptr t = true;
  threads_apart : forall t u, is_thread t -> is_thread u -> t <> u -> apart (to_off t) 48 (to_off u) 48 }.

Definition link_apart (l : link) (t : Z) : Prop :=
  match l with LRun => True | LMem o => apart o 4 (to_off t) 48 end.
Definition links_apart (l k : link) : Prop :=
  match l, k with
  | LRun, LMem _ | LMem _, LRun => True
  | LMem o, LMem o' => apart o 4 o' 4
  | LRun, LRun => False
  end.

Section Queues.
Context (is_thread : Z -> Prop) (Lay : threads_layout is_thread).

(** A queue whose head word lies outside every thread. *)
Definition queue_cell (q : Z) : Prop :=
  is_s32 q /\ forall t, is_thread t -> link_apart (queue_to_ptr q) t.

Lemma thread_range t : is_thread t -> is_s32 t /\ t <> NULLPTR /\ valid_thread_ptr t = true /\ 0 <= to_off t < 8388608.
Proof.
  intros Ht. destruct (thread_valid _ Lay t Ht) as [Hs Hv]. split; [assumption|].
  unfold valid_thread_ptr, to_off, NULLPTR, u32, is_s32 in *. revert Hv.
  destruct (Z.geb_spec (t mod 4294967296) 0x80000000), (Z.ltb_spec (t mod 4294967296) 0x80800000); cbn [andb];
    try discriminate. intros ->. repeat split; try reflexivity; zlia.
Qed.

(** Threads do not overlap, so the 8 MB of RDRAM hold fewer of them than the
    walk guard of the queue operations counts. *)
Lemma few_threads ts : NoDup ts -> Forall is_thread ts -> (length ts < queue_guard)%nat.
Proof.
  intros Hn HF. rewrite Forall_forall in HF.
  assert (Hi : NoDup ((fun t => to_off t / 48) <$> ts)).
  { apply NoDup_fmap_2_strong; [|assumption]. intros t u Ht Hu E.
    destruct (Z.eq_dec t u) as [|N]; [assumption|].
    pose proof (threads_apart _ Lay t u (HF t Ht) (HF u Hu) N) as A. unfold apart in A. zlia. }
  assert (Hs : (fun t => to_off t / 48) <$> ts ⊆+ seqZ 0 174763).
  { apply NoDup_submseteq; [assumption|]. intros y Hy. apply list_elem_of_fmap in Hy as (t & -> & Ht).
    apply elem_of_seqZ. destruct (thread_range t (HF t Ht)) as (_ & _ & _ & R). zlia. }
  apply submseteq_length in Hs. rewrite length_fmap, length_seqZ in Hs. unfold queue_guard. lia.
Qed.

(** ** Reads and writes *)

Lemma read_write_same l v s : is_s32 v -> read_link l (write_link l v s) = v.
Proof.
  intros Hv. destruct l; cbn; [reflexivity|]. rewrite load_s32_same. apply s32_small. assumption.
Qed.
Lemma read_write_other l k v s : links_apart l k -> read_link l (write_link k v s) = read_link l s.
Proof.
  destruct l, k; cbn; intros H; try reflexivity; [destruct H|]. apply load_s32_disj. exact H.
Qed.
(** A write to a thread's fields leaves a link outside the thread alone. *)
Lemma read_put32 l a v s t k : link_apart l t -> a = to_off t + k -> 0 <= k <= 44 -> read_link l (put32 a v s) = read_link l s.
Proof.
  intros H -> Hk. destruct l; cbn in *; [reflexivity|]. apply load_s32_disj. unfold apart in H. lia.
Qed.
Lemma read_set_state l v s t : link_apart l t -> read_link l (set_state t v s) = read_link l s.
Proof.
  intros H. destruct l; cbn in *; [reflexivity|]. apply load_s32_disj16. unfold apart in H. lia.
Qed.

(** ** Chains *)

(** Following [l] reaches exactly the threads [ts]. *)
Fixpoint chain (s : kstate) (l : link) (ts : list Z) : Prop :=
  match ts with
  | [] => read_link l s = NULLPTR
  | t :: ts => read_link l s = t /\ chain s (LMem (to_off t)) ts
  end.

Lemma chain_head s l ts : chain s l ts -> read_link l s = hd NULLPTR ts.
Proof. destruct ts; cbn; intros H; apply H. Qed.

(** A chain reads its first link and the [next] field of its threads. *)
Lemma chain_frame s s' l ts :
  read_link l s' = read_link l s -> (forall t, t ∈ ts -> t_next t s' = t_next t s) ->
  chain s l ts -> chain s' l ts.
Proof. clear Lay is_thread.
  revert l. induction ts as [|t ts IH]; cbn; intros l Hl Hn Hc.
  - congruence.
  - destruct Hc as [Hr Hc]. split; [congruence|]. apply IH; [|intros; apply Hn; set_solver|assumption].
    apply (Hn t). set_solver.
Qed.

(** The link in front of what follows [hi]. *)
Fixpoint link_after (l : link) (hi : list Z) : link :=
  match hi with [] => l | t :: hi => link_after (LMem (to_off t)) hi end.

Lemma link_after_cases l hi : link_after l hi = l \/ exists t, t ∈ hi /\ link_after l hi = LMem (to_off t).
Proof. clear Lay is_thread.
  revert l. induction hi as [|t hi IH]; cbn; intros l; [left; reflexivity|].
  right. destruct (IH (LMem (to_off t))) as [E|(u & Hu & E)].
  - exists t. split; [set_solver|assumption].
  - exists u. split; [set_solver|assumption].
Qed.
Lemma chain_app s l hi lo : chain s l (hi ++ lo) -> chain s (link_after l hi) lo.
Proof. revert l. induction hi as [|t hi IH]; cbn; intros l H; [assumption|]. apply IH, H. Qed.

Lemma next_apart t u : is_thread t -> is_thread u -> t <> u -> link_apart (LMem (to_off t)) u.
Proof.
  intros Ht Hu N. cbn. pose proof (threads_apart _ Lay t u Ht Hu N) as H. unfold apart in *. lia.
Qed.

(** Splicing [x] in after [hi]. *)
Lemma chain_splice s l hi lo x :
  is_thread x -> Forall is_thread (hi ++ lo) -> NoDup (hi ++ lo) -> x ∉ hi ++ lo ->
  (forall t, t ∈ hi ++ lo -> link_apart l t) -> link_apart l x ->
  chain s l (hi ++ lo) -> t_next x s = hd NULLPTR lo ->
  chain (write_link (link_after l hi) x s) l (hi ++ x :: lo).
Proof.
  intros Hx. revert l. induction hi as [|t hi IH]; cbn [app link_after]; intros l HF HN Hxn Ha Hlx Hc Hnx.
  - cbn [chain]. split; [apply read_write_same; apply thread_range; assumption|].
    assert (R : forall t, is_thread t -> link_apart l t -> t_next t (write_link l x s) = t_next t s).
    { intros t Ht Hlt. change (read_link (LMem (to_off t)) (write_link l x s) = read_link (LMem (to_off t)) s).
      destruct l as [|o]; [reflexivity|]. apply read_write_other. cbn in *. unfold apart in *. lia. }
    destruct lo as [|t lo].
    + cbn [chain read_link]. fold (t_next x (write_link l x s)). rewrite R by assumption. assumption.
    + cbn in Hnx, Hc. split.
      * change (t_next x (write_link l x s) = t). rewrite R by assumption. assumption.
      * apply (chain_frame s); [|intros u Hu|apply Hc].
        -- apply R; [|apply Ha; set_solver]. inversion HF; assumption.
        -- apply R; [|apply Ha; set_solver]. rewrite Forall_forall in HF. apply HF. set_solver.
  - cbn [chain] in *. destruct Hc as [Hr Hc].
    apply NoDup_cons in HN as [Htn HN]. apply Forall_cons in HF as [Ht HF'].
    assert (Hmem : forall u, u ∈ hi ++ lo -> is_thread u) by (rewrite Forall_forall in HF'; exact HF').
    split.
    + rewrite read_write_other; [assumption|].
      assert (Hk : forall u, link_apart l u -> links_apart l (LMem (to_off u))).
      { intros u Hu. destruct l; cbn in *; [exact I|]. unfold apart in *. lia. }
      destruct (link_after_cases (LMem (to_off t)) hi) as [->|(u & Hu & ->)]; apply Hk, Ha; set_solver.
    + apply IH; try assumption.
      * set_solver.
      * intros u Hu. apply next_apart; [assumption|apply Hmem; assumption|]. intros ->. contradiction.
      * apply next_apart; [assumption..|]. intros ->. set_solver.
Qed.

(** ** Fields of threads across writes *)

(** The links the queue code writes through: queue heads outside every
    thread, and the [next] fields of threads. *)
Definition link_ok (l : link) : Prop :=
  (forall t, is_thread t -> link_apart l t) \/ exists u, is_thread u /\ l = LMem (to_off u).

Lemma link_after_ok l hi : link_ok l -> Forall is_thread hi -> link_ok (link_after l hi).
Proof.
  intros Hl HF. destruct (link_after_cases l hi) as [->|(t & Ht & ->)]; [assumption|].
  right. exists t. split; [|reflexivity]. rewrite Forall_forall in HF. auto.
Qed.

Lemma thread_apart_or t u : is_thread t -> is_thread u -> t = u \/ apart (to_off t) 48 (to_off u) 48.
Proof. intros Ht Hu. destruct (Z.eq_dec t u); [left; assumption|right; apply (threads_apart _ Lay); assumption]. Qed.

Lemma field_write_link l v s t k : link_ok l -> is_thread t -> 4 <= k <= 44 ->
  load_s32 (to_off t + k) (mem (write_link l v s)) = load_s32 (to_off t + k) (mem s).
Proof.
  intros Hl Ht Hk. destruct l as [|o]; [reflexivity|]. cbn [write_link put32 set_mem mem].
  apply load_s32_disj. destruct Hl as [H|(u & Hu & E)].
  - specialize (H t Ht). cbn in H. unfold apart in H. lia.
  - injection E as ->. destruct (thread_apart_or t u Ht Hu) as [->|H]; unfold apart in *; lia.
Qed.
Lemma state_write_link l v s t : link_ok l -> is_thread t -> t_state t (write_link l v s) = t_state t s.
Proof.
  intros Hl Ht. unfold t_state. destruct l as [|o]; [reflexivity|]. cbn [write_link put32 set_mem mem].
  apply load_u16_disj. destruct Hl as [H|(u & Hu & E)].
  - specialize (H t Ht). cbn in H. unfold apart in H. lia.
  - injection E as ->. destruct (thread_apart_or t u Ht Hu) as [->|H]; unfold apart in *; lia.
Qed.
Lemma field_put32 x j v s t k : is_thread x -> is_thread t -> 0 <= j <= 44 -> 0 <= k <= 44 ->
  t <> x \/ j + 4 <= k \/ k + 4 <= j ->
  load_s32 (to_off t + k) (mem (put32 (to_off x + j) v s)) = load_s32 (to_off t + k) (mem s).
Proof.
  intros Hx Ht Hj Hk H. cbn [put32 set_mem mem]. apply load_s32_disj.
  destruct (thread_apart_or t x Ht Hx) as [->|A]; unfold apart in *; lia.
Qed.
Lemma field_set_state x v s t k : is_thread x -> is_thread t -> 0 <= k <= 44 ->
  t <> x \/ k + 4 <= 18 \/ 20 <= k ->
  load_s32 (to_off t + k) (mem (set_state x v s)) = load_s32 (to_off t + k) (mem s).
Proof.
  intros Hx Ht Hk H. cbn [set_state set_mem mem]. apply load_s32_disj16.
  destruct (thread_apart_or t x Ht Hx) as [->|A]; unfold apart in *; lia.
Qed.
Lemma state_put32 x j v s t : is_thread x -> is_thread t -> 0 <= j <= 44 ->
  t <> x \/ j + 4 <= 18 \/ 20 <= j -> t_state t (put32 (to_off x + j) v s) = t_state t s.
Proof.
  intros Hx Ht Hj H. unfold t_state. cbn [put32 set_mem mem]. apply load_u16_disj.
  destruct (thread_apart_or t x Ht Hx) as [->|A]; unfold apart in *; lia.
Qed.
Lemma state_set_state x v s t : is_thread x -> is_thread t ->
  t_state t (set_state x v s) = if decide (t = x) then u16 v else t_state t s.
Proof.
  intros Hx Ht. unfold t_state. cbn [set_state set_mem mem]. destruct (decide (t = x)) as [->|N].
  - apply load_u16_same.
  - apply load_u16_disj16. pose proof (threads_apart _ Lay t x Ht Hx N) as A. unfold apart in *. lia.
Qed.
Lemma link_put32 l x j v s : link_apart l x -> 0 <= j <= 44 ->
  read_link l (put32 (to_off x + j) v s) = read_link l s.
Proof. intros H Hj. apply (read_put32 l _ v s x j); auto. Qed.

(** ** Queues *)

(** Queue [q] holds the threads [ts], in this order. *)
Record queue_is (s : kstate) (q : Z) (ts : list Z) : Prop := {
  queue_head : queue_cell q;
  queue_chain : chain s (queue_to_ptr q) ts;
  queue_nodup : NoDup ts;
  queue_threads : Forall is_thread ts;
  queue_field : forall t, t ∈ ts -> t_queue t s = q }.

Lemma queue_link_ok q : queue_cell q -> link_ok (queue_to_ptr q).
Proof. intros [_ H]. left. exact H. Qed.

Lemma insert_walk_spec s x g l ts :
  chain s l ts -> Forall is_thread ts -> (length ts <= g)%nat ->
  exists hi lo, ts = hi ++ lo /\ insert_walk g x l s = link_after l hi /\
    enqueue (fun t => t_priority t s) x ts = hi ++ x :: lo.
Proof.
  revert g l. induction ts as [|t ts IH]; intros g l Hc HF Hg.
  - exists [], []. cbn in Hc. split; [reflexivity|]. split; [|reflexivity].
    destruct g; cbn; rewrite Hc; reflexivity.
  - destruct Hc as [Hr Hc]. apply Forall_cons in HF as [Ht HF].
    destruct (thread_range t Ht) as (_ & Hn & Hv & _).
    destruct g as [|g]; [cbn in Hg; lia|]. cbn [insert_walk enqueue]. rewrite Hr, Hv.
    destruct (Z.eqb_spec t NULLPTR) as [E|_]; [contradiction|]. cbn [negb andb].
    destruct (t_priority t s >? t_priority x s).
    + destruct (IH g (LMem (to_off t)) Hc HF ltac:(cbn in Hg; lia)) as (hi & lo & -> & Ew & Ee).
      exists (t :: hi), lo. split; [reflexivity|]. split; [exact Ew|]. cbn. rewrite Ee. reflexivity.
    + exists [], (t :: ts). repeat split; reflexivity.
Qed.

Lemma ctx_write_link l v s t : link_ok l -> is_thread t -> t_context t (write_link l v s) = t_context t s.
Proof.
  intros Hl Ht. unfold t_context. destruct l as [|o]; [reflexivity|]. cbn [write_link put32 set_mem mem].
  unfold store_32. apply load_store_disj. destruct Hl as [H|(u & Hu & E)].
  - specialize (H t Ht). cbn in H. unfold apart in H. lia.
  - injection E as ->. destruct (thread_apart_or t u Ht Hu) as [->|H]; unfold apart in *; lia.
Qed.
Lemma ctx_put32 x j v s t : is_thread x -> is_thread t -> 0 <= j <= 20 ->
  t_context t (put32 (to_off x + j) v s) = t_context t s.
Proof.
  intros Hx Ht Hj. unfold t_context. cbn [put32 set_mem mem]. unfold store_32. apply load_store_disj.
  destruct (thread_apart_or t x Ht Hx) as [->|A]; unfold apart in *; lia.
Qed.
Lemma ctx_set_state x v s t : is_thread x -> is_thread t -> t_context t (set_state x v s) = t_context t s.
Proof.
  intros Hx Ht. unfold t_context. cbn [set_state set_mem mem]. unfold store_16. apply load_store_disj.
  destruct (thread_apart_or t x Ht Hx) as [->|A]; unfold apart in *; lia.
Qed.

(** What an operation leaves of every thread's own fields. *)
Record same_threads (s s' : kstate) : Prop := {
  same_prio : forall t, is_thread t -> t_priority t s' = t_priority t s;
  same_ctx : forall t, is_thread t -> t_context t s' = t_context t s;
  same_self : thread_self s' = thread_self s }.
Lemma same_threads_refl s : same_threads s s.
Proof. constructor; reflexivity. Qed.
Lemma same_threads_trans s s' s'' : same_threads s s' -> same_threads s' s'' -> same_threads s s''.
Proof.
  intros [P C S] [P' C' S']. constructor; [intros; rewrite P', P by assumption; reflexivity| |congruence].
  intros; rewrite C', C by assumption; reflexivity.
Qed.
Lemma same_write_link l v s : link_ok l -> same_threads s (write_link l v s).
Proof.
  intros Hl. constructor; [|intros; apply ctx_write_link; assumption|destruct l; reflexivity].
  intros. apply field_write_link; (assumption || lia).
Qed.
Lemma same_put32 x j v s : is_thread x -> j = 0 \/ 8 <= j <= 20 -> same_threads s (put32 (to_off x + j) v s).
Proof.
  intros Hx Hj. constructor; [|intros; apply ctx_put32; (assumption || lia)|reflexivity].
  intros. apply field_put32; (assumption || lia).
Qed.
Lemma same_set_state x v s : is_thread x -> same_threads s (set_state x v s).
Proof.
  intros Hx. constructor; [|intros; apply ctx_set_state; assumption|reflexivity].
  intros. apply field_set_state; (assumption || lia).
Qed.
Lemma set_next_0 x v s : set_next x v s = put32 (to_off x + 0) v s.
Proof. unfold set_next. rewrite Z.add_0_r. reflexivity. Qed.

(** The added thread's fields, set before it is linked in. *)
Definition insert_state (q : Z) (x : Z) (s : kstate) : kstate :=
  if q =? running_queue then set_state x QUEUED s
  else if negb (q =? NULLPTR) then set_state x BLOCKED s else s.
Definition insert_prep (q x nxt : Z) (s : kstate) : kstate :=
  insert_state q x (set_queue x q (set_next x nxt s)).

Section Prep.
Context (q x nxt : Z) (s : kstate) (Hx : is_thread x) (Hq : is_s32 q) (Hn : is_s32 nxt).
Let s' := insert_prep q x nxt s.

Lemma prep_link l : link_apart l x -> read_link l s' = read_link l s.
Proof.
  intros Hl. unfold s', insert_prep, insert_state. 
  assert (E : read_link l (set_queue x q (set_next x nxt s)) = read_link l s).
  { unfold set_queue. rewrite set_next_0, !link_put32 by (assumption || lia). reflexivity. }
  destruct (q =? running_queue); [|destruct (negb _)]; rewrite ?(read_set_state l _ _ x) by assumption; exact E.
Qed.
Lemma prep_field t k : is_thread t -> t <> x -> 0 <= k <= 44 ->
  load_s32 (to_off t + k) (mem s') = load_s32 (to_off t + k) (mem s).
Proof.
  intros Ht N Hk. unfold s', insert_prep, insert_state.
  assert (E : load_s32 (to_off t + k) (mem (set_queue x q (set_next x nxt s))) = load_s32 (to_off t + k) (mem s)).
  { unfold set_queue. rewrite set_next_0, !field_put32 by (assumption || lia). reflexivity. }
  destruct (q =? running_queue); [|destruct (negb _)]; rewrite ?field_set_state by (assumption || lia || auto); exact E.
Qed.
Lemma prep_next : t_next x s' = nxt.
Proof.
  unfold s', insert_prep, insert_state, t_next.
  assert (E : load_s32 (to_off x + 0) (mem (set_queue x q (set_next x nxt s))) = nxt).
  { unfold set_queue. rewrite set_next_0, field_put32 by (assumption || lia). cbn [put32 set_mem mem].
    rewrite load_s32_same. apply s32_small. assumption. }
  rewrite <- (Z.add_0_r (to_off x)).
  destruct (q =? running_queue); [|destruct (negb _)]; rewrite ?field_set_state by (assumption || lia || auto); exact E.
Qed.
Lemma prep_queue : t_queue x s' = q.
Proof.
  unfold s', insert_prep, insert_state, t_queue.
  assert (E : load_s32 (to_off x + 8) (mem (set_queue x q (set_next x nxt s))) = q).
  { unfold set_queue. cbn [put32 set_mem mem]. rewrite load_s32_same. apply s32_small. assumption. }
  destruct (q =? running_queue); [|destruct (negb _)]; rewrite ?field_set_state by (assumption || lia || auto); exact E.
Qed.
Lemma prep_state t : is_thread t -> t_state t s' =
  if decide (t = x) then
    if q =? running_queue then QUEUED else if negb (q =? NULLPTR) then BLOCKED else t_state t s
  else t_state t s.
Proof.
  intros Ht. unfold s', insert_prep, insert_state.
  assert (E : t_state t (set_queue x q (set_next x nxt s)) = t_state t s).
  { unfold set_queue. rewrite set_next_0, !state_put32 by (assumption || lia). reflexivity. }
  destruct (q =? running_queue); [|destruct (negb _)]; rewrite ?state_set_state by assumption;
    destruct (decide _); try reflexivity; exact E.
Qed.
Lemma prep_same : same_threads s s'.
Proof.
  unfold s', insert_prep, insert_state. apply (same_threads_trans _ (set_queue x q (set_next x nxt s))).
  - unfold set_queue. rewrite set_next_0. eapply same_threads_trans; apply same_put32; (assumption || lia).
  - destruct (q =? running_queue); [|destruct (negb _)]; try (apply same_set_state; assumption). apply same_threads_refl.
Qed.
End Prep.

Lemma chain_next_not_in s s' l ts x :
  x ∉ ts -> (forall t, is_thread t -> t <> x -> t_next t s' = t_next t s) -> Forall is_thread ts ->
  read_link l s' = read_link l s -> chain s l ts -> chain s' l ts.
Proof.
  intros Hx Hn HF Hl. apply chain_frame; [assumption|]. intros t Ht. rewrite Forall_forall in HF.
  apply Hn; [auto|]. intros ->. contradiction.
Qed.

Section Insert.
Context (s : kstate) (q x : Z) (ts : list Z).
Context (Hq : queue_is s q ts) (Hx : is_thread x) (Hxn : x ∉ ts).

Lemma insert_len : (length ts <= queue_guard)%nat.
Proof. apply Nat.lt_le_incl, few_threads; apply Hq. Qed.

(** The insertion, with the place it chooses. *)
Lemma insert_unfold : exists hi lo,
  ts = hi ++ lo /\ enqueue (fun t => t_priority t s) x ts = hi ++ x :: lo /\
  thread_queue_insert q x s =
    write_link (link_after (queue_to_ptr q) hi) x (insert_prep q x (hd NULLPTR lo) s).
Proof.
  destruct (insert_walk_spec s x queue_guard _ ts (queue_chain _ _ _ Hq) (queue_threads _ _ _ Hq) insert_len)
    as (hi & lo & E & Ew & Ee).
  exists hi, lo. split; [assumption|]. split; [assumption|]. unfold thread_queue_insert. rewrite Ew. cbv zeta.
  assert (Eh : read_link (link_after (queue_to_ptr q) hi) s = hd NULLPTR lo).
  { apply (chain_head _ _ lo). apply chain_app. rewrite <- E. apply Hq. }
  rewrite Eh.
  assert (Eb : negb (hd NULLPTR lo =? NULLPTR) && negb (valid_thread_ptr (hd NULLPTR lo)) = false).
  { destruct lo as [|t lo]; [reflexivity|]. cbn [hd].
    destruct (thread_range t) as (_ & _ & -> & _); [|apply andb_false_r].
    pose proof (queue_threads _ _ _ Hq) as HF. rewrite E, Forall_app in HF. destruct HF as [_ HF].
    apply Forall_cons in HF as [Ht _]. exact Ht. }
  rewrite Eb, Eh. reflexivity.
Qed.

Lemma insert_queue_is :
  queue_is (thread_queue_insert q x s) q (enqueue (fun t => t_priority t s) x ts).
Proof.
  destruct insert_unfold as (hi & lo & E & Ee & ->). rewrite Ee.
  destruct Hq as [Hc Hch Hnd HF Hf]. subst ts. destruct Hc as [Hs Ha].
  assert (Hnl : is_s32 (hd NULLPTR lo)).
  { destruct lo as [|t lo]; [cbn; unfold is_s32, NULLPTR; lia|].
    apply Forall_app in HF as [_ HF]. apply Forall_cons in HF as [Ht _]. apply thread_range. assumption. }
  set (nxt := hd NULLPTR lo) in *. set (s1 := insert_prep q x nxt s) in *.
  assert (Hnx : forall t, is_thread t -> t <> x -> t_next t s1 = t_next t s).
  { intros t Ht N. unfold t_next. rewrite <- (Z.add_0_r (to_off t)). apply prep_field; (assumption || lia). }
  assert (Hch1 : chain s1 (queue_to_ptr q) (hi ++ lo)).
  { apply (chain_next_not_in s s1 _ _ x); try assumption. apply prep_link; auto. }
  assert (Hlk : link_ok (link_after (queue_to_ptr q) hi)).
  { apply link_after_ok; [left; exact Ha|]. apply Forall_app in HF. apply HF. }
  constructor.
  - split; assumption.
  - apply chain_splice; try assumption; [|auto|].
    + intros t Ht. apply Ha. rewrite Forall_forall in HF. auto.
    + apply prep_next; assumption.
  - rewrite <- Permutation_middle. constructor; assumption.
  - rewrite <- Permutation_middle. constructor; assumption.
  - intros t Ht. rewrite <- Permutation_middle in Ht. apply elem_of_cons in Ht.
    unfold t_queue. destruct Ht as [->|Ht].
    + rewrite field_write_link by (assumption || lia). apply prep_queue; assumption.
    + assert (HT : is_thread t) by (rewrite Forall_forall in HF; auto).
      rewrite field_write_link by (assumption || lia). unfold s1. rewrite prep_field; [apply Hf; assumption|assumption..| |lia].
      intros ->. contradiction.
Qed.

Lemma insert_same : same_threads s (thread_queue_insert q x s).
Proof.
  destruct insert_unfold as (hi & lo & E & Ee & ->).
  eapply same_threads_trans; [apply prep_same|apply same_write_link]; try assumption.
  apply link_after_ok; [apply queue_link_ok, Hq|].
  pose proof (queue_threads _ _ _ Hq) as HF. rewrite E in HF. apply Forall_app in HF. apply HF.
Qed.

Lemma insert_state_of t : is_thread t -> t_state t (thread_queue_insert q x s) =
  if decide (t = x) then
    if q =? running_queue then QUEUED else if negb (q =? NULLPTR) then BLOCKED else t_state t s
  else t_state t s.
Proof.
  intros Ht. destruct insert_unfold as (hi & lo & E & Ee & ->).
  rewrite state_write_link; [apply prep_state; assumption| |assumption].
  apply link_after_ok; [apply queue_link_ok, Hq|].
  pose proof (queue_threads _ _ _ Hq) as HF. rewrite E in HF. apply Forall_app in HF. apply HF.
Qed.

(** Every other queue is untouched. *)
Lemma insert_frame q' ts' :
  links_apart (queue_to_ptr q') (queue_to_ptr q) -> q' <> q -> x ∉ ts' ->
  queue_is s q' ts' -> queue_is (thread_queue_insert q x s) q' ts'.
Proof.
  intros Hla Nq Hx' [Hc' Hch' Hnd' HF' Hf'].
  destruct insert_unfold as (hi & lo & E & Ee & ->).
  destruct Hq as [Hc Hch Hnd HF Hf].
  assert (Hlk : link_ok (link_after (queue_to_ptr q) hi)).
  { apply link_after_ok; [apply queue_link_ok; assumption|]. rewrite E in HF. apply Forall_app in HF. apply HF. }
  assert (Hnl : is_s32 (hd NULLPTR lo)).
  { destruct lo as [|t lo]; [cbn; unfold is_s32, NULLPTR; lia|].
    rewrite E in HF. apply Forall_app in HF as [_ HF]. apply Forall_cons in HF as [Ht _]. apply thread_range. assumption. }
  assert (Hqs : is_s32 q) by apply Hc.
  assert (Hdisj : forall t, t ∈ ts -> t ∉ ts').
  { intros t Ht Ht'. apply Nq. rewrite <- (Hf t Ht). symmetry. apply Hf'. assumption. }
  rewrite Forall_forall in HF, HF'.
  (* the cell written is none of the cells read *)
  assert (Hcell : forall l, links_apart l (queue_to_ptr q) -> (forall t, t ∈ ts -> link_apart l t) ->
    forall v st, read_link l (write_link (link_after (queue_to_ptr q) hi) v st) = read_link l st).
  { intros l H1 H2 v st. apply read_write_other.
    destruct (link_after_cases (queue_to_ptr q) hi) as [->|(u & Hu & ->)]; [assumption|].
    assert (Hu' : u ∈ ts) by (rewrite E; apply elem_of_app; auto).
    specialize (H2 u Hu'). destruct l; cbn in *; [exact I|]. unfold apart in *. lia. }
  constructor; try assumption.
  - apply (chain_frame s).
    + rewrite Hcell; [apply prep_link; try assumption; apply Hc'; assumption|assumption|].
      intros t Ht. apply Hc'. auto.
    + intros t Ht. assert (HT : is_thread t) by auto. assert (N : t <> x) by (intros ->; contradiction).
      change (read_link (LMem (to_off t)) (write_link (link_after (queue_to_ptr q) hi) x (insert_prep q x (hd NULLPTR lo) s)) = t_next t s).
      rewrite Hcell.
      * cbn [read_link]. unfold t_next. rewrite <- (Z.add_0_r (to_off t)). apply prep_field; (assumption || lia).
      * destruct Hc as [_ Ha]. specialize (Ha t HT). destruct (queue_to_ptr q); cbn in *; [exact I|]. unfold apart in *. lia.
      * intros u Hu. apply next_apart; auto. intros ->. exact (Hdisj _ Hu Ht).
    + assumption.
  - rewrite Forall_forall. assumption.
  - intros t Ht. assert (HT : is_thread t) by auto. assert (N : t <> x) by (intros ->; contradiction).
    unfold t_queue. rewrite field_write_link, prep_field by (assumption || lia). apply Hf'. assumption.
Qed.
End Insert.

(** ** Unlinking *)

Lemma chain_unsplice s l hi lo x :
  Forall is_thread (hi ++ x :: lo) -> NoDup (hi ++ x :: lo) ->
  (forall t, t ∈ hi ++ x :: lo -> link_apart l t) ->
  chain s l (hi ++ x :: lo) ->
  chain (write_link (link_after l hi) (t_next x s) s) l (hi ++ lo).
Proof.
  revert l. induction hi as [|t hi IH]; cbn [app link_after]; intros l HF HN Ha Hc.
  - destruct Hc as [Hr Hc]. apply Forall_cons in HF as [Hx HF]. apply NoDup_cons in HN as [Hxn HN].
    change (chain s (LMem (to_off x)) lo) in Hc.
    assert (Hh : t_next x s = hd NULLPTR lo) by (apply (chain_head s (LMem (to_off x)) lo Hc)).
    assert (Hs : is_s32 (t_next x s)) by apply load_s32_range.
    assert (Hal : forall t, t ∈ lo -> link_apart l t) by (intros t Ht; apply Ha; set_solver).
    assert (R : forall t, t ∈ lo -> t_next t (write_link l (t_next x s) s) = t_next t s).
    { intros t Ht. specialize (Hal t Ht).
      change (read_link (LMem (to_off t)) (write_link l (t_next x s) s) = read_link (LMem (to_off t)) s).
      destruct l as [|o]; [reflexivity|]. apply read_write_other. cbn in *. unfold apart in *. lia. }
    destruct lo as [|t lo]; cbn [chain].
    + rewrite read_write_same by assumption. exact Hh.
    + rewrite read_write_same by assumption. split; [exact Hh|]. cbn [chain] in Hc.
      apply (chain_frame s); [apply (R t); set_solver|intros u Hu; apply R; set_solver|apply Hc].
  - cbn [chain] in *. destruct Hc as [Hr Hc].
    apply NoDup_cons in HN as [Htn HN]. apply Forall_cons in HF as [Ht HF].
    assert (Hmem : forall u, u ∈ hi ++ x :: lo -> is_thread u) by (rewrite Forall_forall in HF; exact HF).
    split.
    + rewrite read_write_other; [assumption|].
      assert (Hk : forall u, link_apart l u -> links_apart l (LMem (to_off u))).
      { intros u Hu. destruct l; cbn in *; [exact I|]. unfold apart in *. lia. }
      destruct (link_after_cases (LMem (to_off t)) hi) as [->|(u & Hu & ->)]; apply Hk, Ha; set_solver.
    + apply IH; try assumption.
      intros u Hu. apply next_apart; [assumption|apply Hmem; assumption|]. intros ->. contradiction.
Qed.

(** Unlinking [x], found behind [hi]. *)
Definition unlinked (q : Z) (hi : list Z) (x : Z) (s : kstate) : kstate :=
  set_queue x NULLPTR (write_link (link_after (queue_to_ptr q) hi) (t_next x s) s).

Section Unlink.
Context (s : kstate) (q x : Z) (hi lo : list Z).
Context (Hq : queue_is s q (hi ++ x :: lo)).
Let s' := unlinked q hi x s.

Lemma unlink_thread : is_thread x /\ (forall t, t ∈ hi ++ lo -> is_thread t /\ t <> x).
Proof.
  destruct Hq as [_ _ Hnd HF _]. rewrite <- Permutation_middle in HF, Hnd.
  apply Forall_cons in HF as [Hx HF]. apply NoDup_cons in Hnd as [Hn _]. rewrite Forall_forall in HF.
  split; [assumption|]. intros t Ht. split; [auto|]. intros ->. contradiction.
Qed.
Lemma unlink_link_ok : link_ok (link_after (queue_to_ptr q) hi).
Proof.
  apply link_after_ok; [apply queue_link_ok, Hq|].
  pose proof (queue_threads _ _ _ Hq) as HF. apply Forall_app in HF. apply HF.
Qed.
Lemma unlink_field t k : is_thread t -> t <> x -> 4 <= k <= 44 ->
  load_s32 (to_off t + k) (mem s') = load_s32 (to_off t + k) (mem s).
Proof.
  intros Ht N Hk. destruct unlink_thread as [Hx _]. unfold s', unlinked, set_queue.
  rewrite field_put32, field_write_link by (assumption || lia || apply unlink_link_ok). reflexivity.
Qed.
Lemma unlink_queue_is : queue_is s' q (hi ++ lo).
Proof.
  destruct unlink_thread as [Hx Hts]. pose proof Hq as [Hc Hch Hnd HF Hf].
  constructor.
  - assumption.
  - destruct Hc as [_ Ha].
    assert (Hch1 : chain (write_link (link_after (queue_to_ptr q) hi) (t_next x s) s) (queue_to_ptr q) (hi ++ lo)).
    { apply chain_unsplice; try assumption. intros t Ht. apply Ha. rewrite Forall_forall in HF. auto. }
    revert Hch1. apply chain_next_not_in with (x := x).
    + intros H. apply Hts in H as [_ H]. congruence.
    + intros t Ht N. unfold t_next, s', unlinked, set_queue. rewrite <- (Z.add_0_r (to_off t)).
      apply field_put32; (assumption || lia).
    + rewrite Forall_forall. intros t Ht. apply Hts. assumption.
    + unfold s', unlinked, set_queue. apply link_put32; [auto|lia].
  - rewrite <- Permutation_middle in Hnd. apply NoDup_cons in Hnd. apply Hnd.
  - rewrite Forall_forall. intros t Ht. apply Hts. assumption.
  - intros t Ht. destruct (Hts t Ht) as [HT N]. unfold t_queue. rewrite unlink_field by (assumption || lia).
    apply Hf. rewrite <- Permutation_middle. apply elem_of_cons. auto.
Qed.
Lemma unlink_cleared : t_queue x s' = NULLPTR.
Proof.
  unfold t_queue, s', unlinked, set_queue. cbn [put32 set_mem mem]. rewrite load_s32_same. reflexivity.
Qed.
Lemma unlink_same : same_threads s s'.
Proof.
  destruct unlink_thread as [Hx _]. unfold s', unlinked, set_queue.
  eapply same_threads_trans; [apply same_write_link, unlink_link_ok|apply same_put32; (assumption || lia)].
Qed.
Lemma unlink_state t : is_thread t -> t_state t s' = t_state t s.
Proof.
  intros Ht. destruct unlink_thread as [Hx _]. unfold s', unlinked, set_queue.
  rewrite state_put32, state_write_link by (assumption || lia || apply unlink_link_ok). reflexivity.
Qed.
Lemma unlink_frame q' ts' :
  links_apart (queue_to_ptr q') (queue_to_ptr q) -> q' <> q -> queue_is s q' ts' -> queue_is s' q' ts'.
Proof.
  intros Hla Nq [Hc' Hch' Hnd' HF' Hf']. pose proof Hq as [Hc Hch Hnd HF Hf].
  destruct unlink_thread as [Hx Hts].
  assert (Hdisj : forall t, t ∈ hi ++ x :: lo -> t ∉ ts').
  { intros t Ht Ht'. apply Nq. rewrite <- (Hf t Ht). symmetry. apply Hf'. assumption. }
  rewrite Forall_forall in HF, HF'.
  assert (Hcell : forall l, links_apart l (queue_to_ptr q) -> (forall t, t ∈ hi ++ x :: lo -> link_apart l t) ->
    forall v st, read_link l (write_link (link_after (queue_to_ptr q) hi) v st) = read_link l st).
  { intros l H1 H2 v st. apply read_write_other.
    destruct (link_after_cases (queue_to_ptr q) hi) as [->|(u & Hu & ->)]; [assumption|].
    assert (Hu' : u ∈ hi ++ x :: lo) by (apply elem_of_app; auto).
    specialize (H2 u Hu'). destruct l; cbn in *; [exact I|]. unfold apart in *. lia. }
  assert (Hx' : x ∉ ts') by (apply Hdisj; set_solver).
  constructor; try assumption.
  - apply (chain_frame s).
    + unfold s', unlinked, set_queue. rewrite link_put32 by (try lia; apply Hc'; assumption).
      apply Hcell; [assumption|]. intros t Ht. apply Hc'. auto.
    + intros t Ht. assert (HT : is_thread t) by auto. assert (N : t <> x) by (intros ->; contradiction).
      unfold t_next, s', unlinked, set_queue. rewrite <- (Z.add_0_r (to_off t)), field_put32 by (assumption || lia).
      rewrite Z.add_0_r. apply (Hcell (LMem (to_off t))).
      * destruct Hc as [_ Ha]. specialize (Ha t HT). destruct (queue_to_ptr q); cbn in *; [exact I|]. unfold apart in *. lia.
      * intros u Hu. apply next_apart; auto. intros ->. exact (Hdisj _ Hu Ht).
    + assumption.
  - rewrite Forall_forall. assumption.
  - intros t Ht. assert (HT : is_thread t) by auto. assert (N : t <> x) by (intros ->; contradiction).
    unfold t_queue. rewrite unlink_field by (assumption || lia). apply Hf'. assumption.
Qed.
End Unlink.

Lemma pop_unfold s q t ts : queue_is s q (t :: ts) -> thread_queue_pop q s = (t, unlinked q [] t s).
Proof.
  intros [Hc [Hr _] _ HF _]. apply Forall_cons in HF as [Ht _].
  destruct (thread_range t Ht) as (_ & _ & Hv & _).
  unfold thread_queue_pop. rewrite Hr, Hv. reflexivity.
Qed.
Lemma queue_is_empty s q ts : queue_is s q ts -> thread_queue_empty q s = match ts with [] => true | _ => false end.
Proof.
  intros [_ Hc _ HF _]. unfold thread_queue_empty. rewrite (chain_head s _ ts Hc).
  destruct ts as [|t ts]; cbn [hd].
  - reflexivity.
  - apply Forall_cons in HF as [Ht _]. destruct (thread_range t Ht) as (_ & Hn & _). apply Z.eqb_neq. assumption.
Qed.
Lemma queue_is_peek s q ts : queue_is s q ts -> thread_queue_peek q s = hd NULLPTR ts.
Proof. intros [_ Hc _ _ _]. apply (chain_head s _ ts). assumption. Qed.

Lemma remove_walk_spec s x g l hi lo :
  chain s l (hi ++ x :: lo) -> x ∉ hi -> Forall is_thread (hi ++ x :: lo) -> (length hi < g)%nat ->
  remove_walk g x l s = (true, set_queue x NULLPTR (write_link (link_after l hi) (t_next x s) s)).
Proof.
  revert g l. induction hi as [|t hi IH]; intros g l Hc Hn HF Hg; (destruct g as [|g]; [cbn in Hg; lia|]).
  - destruct Hc as [Hr Hc]. apply Forall_cons in HF as [Hx _].
    destruct (thread_range x Hx) as (_ & N0 & Hv & _).
    cbn [remove_walk]. rewrite Hr, Hv. destruct (Z.eqb_spec x NULLPTR); [contradiction|].
    rewrite Z.eqb_refl. reflexivity.
  - destruct Hc as [Hr Hc]. apply Forall_cons in HF as [Ht HF].
    destruct (thread_range t Ht) as (_ & N0 & Hv & _).
    cbn [remove_walk]. rewrite Hr, Hv. destruct (Z.eqb_spec t NULLPTR); [contradiction|].
    destruct (Z.eqb_spec t x) as [->|_]; [set_solver|]. cbn [negb].
    apply IH; try assumption; [set_solver|cbn in Hg; lia].
Qed.
Lemma remove_walk_miss s x g l ts :
  chain s l ts -> x ∉ ts -> Forall is_thread ts -> (length ts <= g)%nat -> remove_walk g x l s = (false, s).
Proof.
  revert g l. induction ts as [|t ts IH]; intros g l Hc Hn HF Hg.
  - destruct g; cbn; rewrite Hc; reflexivity.
  - destruct Hc as [Hr Hc]. apply Forall_cons in HF as [Ht HF]. destruct g as [|g]; [cbn in Hg; lia|].
    destruct (thread_range t Ht) as (_ & N0 & Hv & _).
    cbn [remove_walk]. rewrite Hr, Hv. destruct (Z.eqb_spec t NULLPTR); [contradiction|].
    destruct (Z.eqb_spec t x) as [->|_]; [set_solver|]. cbn [negb].
    apply IH; try assumption; [set_solver|cbn in Hg; lia].
Qed.

Lemma dequeue_split x hi lo : x ∉ hi -> dequeue_thread x (hi ++ x :: lo) = hi ++ lo.
Proof. clear Lay is_thread.
  induction hi as [|t hi IH]; cbn; intros Hn; [rewrite Z.eqb_refl; reflexivity|].
  destruct (Z.eqb_spec t x) as [->|_]; [set_solver|]. f_equal. apply IH. set_solver.
Qed.

Lemma elem_split_fst (x : Z) ts : x ∈ ts -> exists hi lo, ts = hi ++ x :: lo /\ x ∉ hi.
Proof.
  induction ts as [|t ts IH]; intros H; [apply elem_of_nil in H; contradiction|].
  destruct (Z.eq_dec x t) as [->|N].
  - exists [], ts. split; [reflexivity|apply not_elem_of_nil].
  - apply elem_of_cons in H as [H|H]; [contradiction|]. destruct (IH H) as (hi & lo & -> & Hn).
    exists (t :: hi), lo. split; [reflexivity|]. rewrite not_elem_of_cons. auto.
Qed.

(** The queues the remove call accepts. *)
Definition removable (q : Z) : Prop := q = running_queue \/ valid_thread_ptr q = true.

Lemma remove_unfold s q x hi lo : removable q -> queue_is s q (hi ++ x :: lo) ->
  thread_queue_remove q x s = (true, unlinked q hi x s).
Proof.
  intros Hr [Hc Hch Hnd HF Hf]. unfold thread_queue_remove.
  pose proof (few_threads _ Hnd HF) as Hlen.
  assert (E : negb (q =? running_queue) && negb (valid_thread_ptr q) = false).
  { destruct Hr as [->|Hv]; [reflexivity|]. rewrite Hv. apply andb_false_r. }
  rewrite E. rewrite (remove_walk_spec s x _ _ hi lo); [reflexivity|assumption| |assumption|].
  - apply NoDup_app in Hnd as (_ & Hd & _). intros H. apply (Hd x H). set_solver.
  - rewrite length_app in Hlen. cbn in Hlen. lia.
Qed.
End Queues.

Definition thread_a : Z := 0x80001000 - 4294967296.
Definition thread_b : Z := 0x80002000 - 4294967296.
Definition thread_c : Z := 0x80003000 - 4294967296.
Definition sample_thread (t : Z) : Prop := t = thread_a \/ t = thread_b \/ t = thread_c.

Lemma sample_layout : threads_layout sample_thread.
Proof.
  constructor.
  - intros t [->|[->| ->]]; split; (reflexivity || (unfold is_s32, thread_a, thread_b, thread_c; lia)).
  - intros t u [->|[->| ->]] [->|[->| ->]] N; try congruence; unfold apart, to_off, thread_a, thread_b, thread_c; lia.
Qed.

(** Priorities 10, 20 and 5; [thread_a] has the CPU. *)
Definition sample_created : kstate :=
  let s := KState ∅ NULLPTR thread_a in
  let s := osCreateThread thread_a 1 0 10 101 s in
  let s := osCreateThread thread_b 2 0 20 102 s in
  osCreateThread thread_c 3 0 5 103 s.
Definition sample_state : kstate :=
  thread_queue_insert running_queue thread_c (thread_queue_insert running_queue thread_b sample_created).

Lemma sample_cell : queue_cell sample_thread running_queue.
Proof. split; [unfold is_s32, running_queue; lia|]. intros t Ht. exact I. Qed.

Lemma sample_running : queue_is sample_thread sample_state running_queue [thread_b; thread_c].
Proof.
  constructor.
  - exact sample_cell.
  - vm_compute. auto.
  - repeat constructor; rewrite ?elem_of_cons, ?elem_of_nil; unfold thread_b, thread_c; intuition lia.
  - repeat apply Forall_cons_2; try apply Forall_nil_2; unfold sample_thread; auto.
  - intros t. rewrite !elem_of_cons, elem_of_nil. intros [->|[->|[]]]; vm_compute; reflexivity.
Qed.
Lemma sample_ordered : ordered (fun t => t_priority t sample_state) [thread_b; thread_c].
Proof. repeat constructor. vm_compute. discriminate. Qed.
Lemma sample_contexts t : sample_thread t -> t_context t sample_state <> 0.
Proof. intros [->|[->| ->]]; vm_compute; discriminate. Qed.
