(* ===== verification/Scheduler.v ===== *)
(** What the thread queues and the scheduler promise: queue operations refine
    operations on priority-ordered lists, and the CPU is always handed to a
    thread no queued thread outranks. *)

From S2P Require Import Prelude GuestMem Kernel KernelSpec.
From Stdlib Require Import ZArith Lia Bool List.
From stdpp Require Import base list sorting gmap.
Open Scope Z_scope.

#[local] Opaque queue_guard.

Section Scheduler.
Context (is_thread : Z -> Prop) (Lay : threads_layout is_thread).
Abbreviation prio s := (fun t => t_priority t s).
Abbreviation queue_is := (queue_is is_thread).

Lemma ordered_ext (f g : Z -> Z) ts : (forall t, t ∈ ts -> f t = g t) -> ordered f ts -> ordered g ts.
Proof.
  unfold ordered. induction ts as [|t ts IH]; intros E H; [constructor|].
  inversion H as [|? ? H1 H2]; subst. constructor.
  - apply IH; [|assumption]. intros u Hu. apply E. set_solver.
  - rewrite Forall_forall in *. intros u Hu. rewrite <- !E by set_solver. auto.
Qed.

Lemma ordered_same s s' ts : same_threads is_thread s s' -> Forall is_thread ts ->
  ordered (prio s) ts -> ordered (prio s') ts.
Proof.
  intros Hs HF. apply ordered_ext. intros t Ht. symmetry. apply (same_prio _ _ _ Hs).
  rewrite Forall_forall in HF. auto.
Qed.

Lemma running_cell : queue_cell is_thread running_queue.
Proof. split; [unfold is_s32, running_queue; lia|]. intros t Ht. exact I. Qed.

(** ** Queue operations refine list operations *)

(** thread_queue_insert on the linked list in guest memory is insertion into a priority-ordered list after the threads of equal or higher priority, sets the thread's state, and leaves other queues alone. *)
Theorem thread_queue_insert_refines s q x ts :
  queue_is s q ts -> ordered (prio s) ts -> is_thread x -> x ∉ ts ->
  let s' := thread_queue_insert q x s in
  queue_is s' q (enqueue (prio s) x ts) /\ ordered (prio s') (enqueue (prio s) x ts) /\
  t_state x s' = (if q =? running_queue then QUEUED else if q =? NULLPTR then t_state x s else BLOCKED) /\
  (forall q' ts', links_apart (queue_to_ptr q') (queue_to_ptr q) -> q' <> q -> x ∉ ts' ->
     queue_is s q' ts' -> queue_is s' q' ts').
Proof.
  intros Hq Ho Hx Hn. cbv zeta.
  pose proof (insert_queue_is is_thread Lay s q x ts Hq Hx Hn) as Hq'.
  split; [exact Hq'|]. split; [|split].
  - apply (ordered_same s); [apply (insert_same is_thread Lay s q x ts); assumption|apply Hq'|].
    apply enqueue_ordered. assumption.
  - rewrite (insert_state_of is_thread Lay s q x ts) by assumption. rewrite decide_True by reflexivity.
    destruct (q =? running_queue), (q =? NULLPTR); reflexivity.
  - intros q' ts' H1 H2 H3 H4. apply (insert_frame is_thread Lay s q x ts); assumption.
Qed.

(** thread_queue_pop takes the head of the list the queue represents, or reports an empty queue, and leaves other queues alone. *)
Theorem thread_queue_pop_refines s q ts :
  queue_is s q ts ->
  let '(t, s') := thread_queue_pop q s in
  t = hd NULLPTR ts /\ queue_is s' q (tl ts) /\ thread_queue_empty q s = (t =? NULLPTR) /\
  (forall q' ts', links_apart (queue_to_ptr q') (queue_to_ptr q) -> q' <> q ->
     queue_is s q' ts' -> queue_is s' q' ts').
Proof.
  intros Hq. pose proof (queue_is_empty is_thread Lay s q ts Hq) as He. destruct ts as [|t ts].
  - destruct Hq as [Hc Hch Hnd HF Hf]. cbn in Hch. unfold thread_queue_pop. rewrite Hch.
    change (valid_thread_ptr NULLPTR) with false. cbn [negb hd tl].
    assert (Er : forall l, links_apart l (queue_to_ptr q) \/ l = queue_to_ptr q ->
              read_link l (write_link (queue_to_ptr q) NULLPTR s) = read_link l s).
    { intros l [Hl| ->]; [apply read_write_other; assumption|].
      rewrite read_write_same by (unfold is_s32, NULLPTR; lia). congruence. }
    split; [reflexivity|]. split; [|split; [exact He|]].
    + constructor; try assumption; [cbn; rewrite Er by auto; assumption|].
      intros t Ht. apply elem_of_nil in Ht. contradiction.
    + intros q' ts' Hla Nq [Hc' Hch' Hnd' HF' Hf'].
      pose proof HF' as HF2. rewrite Forall_forall in HF2.
      assert (Hlk : link_ok is_thread (queue_to_ptr q)) by (apply queue_link_ok; assumption).
      constructor; try assumption.
      * apply (chain_frame s); [apply Er; auto| |assumption]. intros t Ht.
        apply (Er (LMem (to_off t))). left. destruct Hc as [_ Ha]. specialize (Ha t (HF2 t Ht)).
        destruct (queue_to_ptr q); cbn in *; [exact I|]. unfold apart in *. lia.
      * intros t Ht. unfold t_queue. rewrite (field_write_link is_thread Lay) by (auto || lia). apply Hf'. assumption.
  - rewrite (pop_unfold is_thread Lay s q t ts Hq). cbn [hd tl].
    split; [reflexivity|]. split; [apply (unlink_queue_is is_thread Lay s q t [] ts Hq)|]. split.
    + rewrite He. pose proof (queue_threads _ _ _ _ Hq) as HF. apply Forall_cons in HF as [Ht _].
      destruct (thread_range is_thread Lay t Ht) as (_ & N0 & _). symmetry. apply Z.eqb_neq. assumption.
    + intros q' ts' H1 H2 H3. apply (unlink_frame is_thread Lay s q t [] ts Hq); assumption.
Qed.

(** thread_queue_remove unlinks exactly the thread it is asked for and reports whether it was there; a miss changes nothing. *)
Theorem thread_queue_remove_refines s q x ts :
  removable q -> queue_is s q ts ->
  let '(found, s') := thread_queue_remove q x s in
  found = bool_decide (x ∈ ts) /\ queue_is s' q (dequeue_thread x ts) /\
  (found = true -> t_queue x s' = NULLPTR) /\ (found = false -> s' = s).
Proof.
  intros Hr Hq. destruct (decide (x ∈ ts)) as [Hx|Hx].
  - destruct (elem_split_fst x ts Hx) as (hi & lo & -> & Hn).
    rewrite (remove_unfold is_thread Lay s q x hi lo) by assumption.
    rewrite bool_decide_true, dequeue_split by assumption. split; [reflexivity|].
    split; [apply unlink_queue_is; assumption|]. split; [intros _; apply unlink_cleared|discriminate].
  - rewrite bool_decide_false by assumption.
    assert (E : dequeue_thread x ts = ts).
    { clear -Hx. induction ts as [|t ts IH]; cbn; [reflexivity|].
      destruct (Z.eqb_spec t x) as [->|_]; [set_solver|]. rewrite IH; [reflexivity|set_solver]. }
    unfold thread_queue_remove.
    assert (E2 : negb (q =? running_queue) && negb (valid_thread_ptr q) = false).
    { destruct Hr as [->|Hv]; [reflexivity|]. rewrite Hv. apply andb_false_r. }
    rewrite E2, (remove_walk_miss is_thread Lay s x _ _ ts) by (assumption || apply Hq || (apply Nat.lt_le_incl, (few_threads is_thread Lay); apply Hq)).
    rewrite E. split; [reflexivity|]. split; [assumption|]. split; [discriminate|reflexivity].
Qed.

(** ** Rescheduling *)

(** A scheduler state: the running thread, outside the running queue, whose
    threads are in priority order and have live contexts. *)
Record sched_ok (s : kstate) (ts : list Z) : Prop := {
  sched_queue : queue_is s running_queue ts;
  sched_ordered : ordered (prio s) ts;
  sched_self : is_thread (thread_self s);
  sched_self_out : thread_self s ∉ ts;
  sched_ctx : forall t, t ∈ ts -> t_context t s <> 0 }.

(** Nothing queued outranks the running thread. *)
Definition highest_runs (s : kstate) (ts : list Z) : Prop :=
  forall t, t ∈ ts -> t_priority t s <= t_priority (thread_self s) s.

Lemma read_running s : read_link (queue_to_ptr running_queue) s = running_queue_impl s.
Proof. reflexivity. Qed.

Lemma state_set_self u t s : t_state u (set_self s t) = t_state u s.
Proof. reflexivity. Qed.

Lemma swap_to_spec s t ts : sched_ok s (t :: ts) ->
  exists s' ts', swap_to_thread t (snd (thread_queue_pop running_queue s)) = Some s' /\
    queue_is s' running_queue ts' /\ ordered (prio s') ts' /\
    (t_priority t s > t_priority (thread_self s) s -> highest_runs s' ts') /\
    thread_self s' = t /\ thread_self s' :: ts' ≡ₚ thread_self s :: t :: ts /\
    t_state t s' = RUNNING /\ t_state (thread_self s) s' = QUEUED /\
    (forall u, is_thread u -> t_priority u s' = t_priority u s /\ t_context u s' = t_context u s).
Proof.
  intros [Hq Ho Hself Hout Hctx].
  rewrite (pop_unfold is_thread Lay s _ t ts Hq). cbn [snd].
  pose proof (unlink_queue_is is_thread Lay s _ t [] ts Hq) as Hq1.
  pose proof (unlink_same is_thread Lay s _ t [] ts Hq) as Hs1.
  pose proof (queue_threads _ _ _ _ Hq) as HF. apply Forall_cons in HF as [Ht HF].
  set (s1 := unlinked running_queue [] t s) in *. set (self := thread_self s) in *.
  assert (Es : thread_self s1 = self) by apply (same_self _ _ _ Hs1).
  unfold swap_to_thread. rewrite Es. cbn [app] in Hq1.
  assert (Hout1 : self ∉ ts) by (intros H; apply Hout; set_solver).
  assert (N : t <> self) by (intros E; apply Hout; rewrite E; set_solver).
  pose proof (insert_queue_is is_thread Lay s1 _ self ts Hq1 Hself Hout1) as Hq2.
  pose proof (insert_same is_thread Lay s1 _ self ts Hq1 Hself) as Hs2.
  set (s2 := thread_queue_insert running_queue self s1) in *.
  pose proof (same_set_state is_thread Lay self QUEUED s2 Hself) as Hs3.
  set (s3 := set_state self QUEUED s2) in *.
  pose proof (same_threads_trans _ _ _ _ Hs1 (same_threads_trans _ _ _ _ Hs2 Hs3)) as Hs13.
  set (ts' := enqueue (prio s1) self ts) in *.
  assert (Hc : t_context t s3 <> 0).
  { rewrite (same_ctx _ _ _ Hs13) by assumption. apply Hctx. set_solver. }
  unfold switch_to. destruct (Z.eqb_spec (t_context t s3) 0); [contradiction|].
  set (s4 := set_state t RUNNING (set_self s3 t)).
  assert (P4 : forall u, is_thread u -> t_priority u s4 = t_priority u s).
  { intros u Hu. unfold t_priority, s4. rewrite (field_set_state is_thread Lay) by (assumption || lia).
    change (mem (set_self s3 t)) with (mem s3). apply (same_prio _ _ _ Hs13). assumption. }
  assert (HF' : Forall is_thread ts') by apply Hq2.
  assert (Hperm : ts' ≡ₚ self :: ts) by apply enqueue_perm.
  exists s4, ts'. split; [reflexivity|].
  assert (R : forall u k, is_thread u -> 0 <= k <= 14 -> load_s32 (to_off u + k) (mem s4) = load_s32 (to_off u + k) (mem s2)).
  { intros u k Hu Hk. unfold s4. rewrite (field_set_state is_thread Lay) by (assumption || lia).
    change (mem (set_self s3 t)) with (mem s3). unfold s3. apply (field_set_state is_thread Lay); (assumption || lia). }
  split; [|split; [|split; [|split; [|split; [|split; [|split]]]]]].
  - destruct Hq2 as [Hc2 Hch2 Hnd2 _ Hf2]. constructor; try assumption.
    + apply (chain_frame s2); [unfold s4, s3; rewrite !read_running; reflexivity| |exact Hch2]. intros u Hu. unfold t_next.
      rewrite <- (Z.add_0_r (to_off u)). apply R; [rewrite Forall_forall in HF'; auto|lia].
    + intros u Hu. unfold t_queue. rewrite R; [apply Hf2; assumption|rewrite Forall_forall in HF'; auto|lia].
  - apply (ordered_ext (prio s1)).
    + intros u Hu. rewrite P4 by (rewrite Forall_forall in HF'; auto).
      apply (same_prio _ _ _ Hs1). rewrite Forall_forall in HF'. auto.
    + apply enqueue_ordered. apply (ordered_same s); [assumption..|]. inversion Ho; assumption.
  - intros Hp u Hu. change (thread_self s4) with t. rewrite Hperm in Hu.
    rewrite !P4 by (assumption || (rewrite Forall_forall in HF'; apply HF'; rewrite Hperm; assumption)).
    apply elem_of_cons in Hu as [->|Hu]; [fold self in Hp; lia|].
    inversion Ho as [|? ? _ Hall]; subst. rewrite Forall_forall in Hall. specialize (Hall u Hu). cbn in Hall. lia.
  - reflexivity.
  - change (thread_self s4) with t. rewrite Hperm. constructor.
  - unfold s4. rewrite (state_set_state is_thread Lay), decide_True by (assumption || reflexivity). reflexivity.
  - unfold s4. rewrite (state_set_state is_thread Lay), decide_False by (assumption || congruence).
    rewrite state_set_self.
    unfold s3. rewrite (state_set_state is_thread Lay), decide_True by (assumption || reflexivity). reflexivity.
  - intros u Hu. split; [auto|]. pose proof (ctx_set_state is_thread Lay t RUNNING (set_self s3 t) u Ht Hu) as Ec.
    pose proof (same_ctx _ _ _ Hs13 u Hu) as Ec3. unfold t_context in *. change (mem (set_self s3 t)) with (mem s3) in Ec.
    unfold s4. rewrite Ec. exact Ec3.
Qed.
(** The state stays a scheduler state if the thread that gives way can be resumed. *)
Lemma swap_sched_ok s t ts : sched_ok s (t :: ts) -> t_context (thread_self s) s <> 0 ->
  exists s' ts', swap_to_thread t (snd (thread_queue_pop running_queue s)) = Some s' /\
    sched_ok s' ts' /\ thread_self s' = t /\ thread_self s' :: ts' ≡ₚ thread_self s :: t :: ts /\
    t_context (thread_self s') s' <> 0.
Proof.
  intros Hs Hc. destruct (swap_to_spec s t ts Hs) as (s' & ts' & E & H1 & H2 & _ & H3 & H4 & _ & _ & H5).
  destruct Hs as [Hq Ho Hself Hout Hctx]. pose proof (queue_threads _ _ _ _ Hq) as HF. rewrite Forall_forall in HF.
  assert (Hall : forall u, u ∈ thread_self s' :: ts' -> is_thread u /\ t_context u s' <> 0).
  { intros u Hu. rewrite H4 in Hu. assert (Hu' : is_thread u /\ t_context u s <> 0).
    { apply elem_of_cons in Hu as [->|Hu]; [auto|]. split; auto. }
    destruct Hu' as [? ?]. split; [assumption|]. destruct (H5 u) as [_ ->]; assumption. }
  exists s', ts'. split; [exact E|]. split; [|split; [exact H3|split; [exact H4|apply Hall; left]]].
  constructor; [exact H1|exact H2|apply Hall; left| |intros u Hu; apply Hall; right; exact Hu].
  assert (HN : NoDup (thread_self s' :: ts')).
  { rewrite H4. apply NoDup_cons. split; [exact Hout|]. apply (queue_nodup _ _ _ _ Hq). }
  apply NoDup_cons in HN as [HN _]. exact HN.
Qed.

(** C4: After check_running_queue the running thread is not outranked by any queued one, no
    thread appears or disappears, and the running queue is still ordered by priority. *)
Theorem check_running_queue_highest s ts :
  sched_ok s ts ->
  exists s' ts', check_running_queue s = Some s' /\
    queue_is s' running_queue ts' /\ ordered (prio s') ts' /\ highest_runs s' ts' /\
    thread_self s' :: ts' ≡ₚ thread_self s :: ts.
Proof.
  intros Hs. pose proof Hs as [Hq Ho Hself Hout Hctx].
  unfold check_running_queue. rewrite (queue_is_empty is_thread Lay s _ ts Hq), (queue_is_peek is_thread s _ ts Hq).
  destruct ts as [|t ts].
  - exists s, []. split; [reflexivity|]. split; [assumption|]. split; [constructor|]. split; [|reflexivity].
    intros t Ht. apply elem_of_nil in Ht. contradiction.
  - cbn [hd]. destruct (Z.gtb_spec (t_priority t s) (t_priority (thread_self s) s)) as [Hp|Hp].
    + destruct (swap_to_spec s t ts Hs) as (s' & ts' & E & H1 & H2 & H3 & _ & H4 & _).
      destruct (thread_queue_pop running_queue s) as [t' s1]. exists s', ts'. specialize (H3 ltac:(lia)). auto.
    + exists s, (t :: ts). split; [reflexivity|]. split; [assumption|]. split; [assumption|]. split; [|reflexivity].
      intros u Hu. apply elem_of_cons in Hu as [->|Hu]; [assumption|].
      inversion Ho as [|? ? _ Hall]; subst. rewrite Forall_forall in Hall. specialize (Hall u Hu). cbn in Hall. lia.
Qed.

(** ** Changing a priority *)

Lemma priority_queue_is s q x pri ts : is_thread x -> queue_is s q ts -> queue_is (set_priority x pri s) q ts.
Proof.
  intros HT [Hc Hch Hnd HF Hf]. pose proof HF as HF2. rewrite Forall_forall in HF2. constructor; try assumption.
  - apply (chain_frame s); [|intros t Ht|assumption].
    + unfold set_priority. apply link_put32; [apply Hc; assumption|lia].
    + unfold t_next, set_priority. rewrite <- (Z.add_0_r (to_off t)).
      apply (field_put32 is_thread Lay); (auto || lia).
  - intros t Ht. unfold t_queue, set_priority. rewrite (field_put32 is_thread Lay) by (auto || lia). apply Hf. assumption.
Qed.

(** Changing the priority of a queued thread removes it from its queue and then inserts it into the null queue, whose link lies outside the mapped guest memory. *)
Theorem osSetThreadPri_reinserts_into_null s q x ts pri :
  queue_is s q ts -> x ∈ ts -> removable q ->
  x <> thread_self s -> t_state x s <> STOPPED ->
  exists s1, set_pri_requeue x pri s = thread_queue_insert NULLPTR x s1 /\
    queue_is s1 q (dequeue_thread x ts) /\ (x ∉ dequeue_thread x ts) /\
    queue_to_ptr NULLPTR = LMem 0x80000000 /\ mapped 0x80000000 = false.
Proof.
  intros Hq Hx Hr Hself Hst. unfold set_pri_requeue.
  assert (HT : is_thread x) by (pose proof (queue_threads _ _ _ _ Hq) as HF; rewrite Forall_forall in HF; auto).
  pose proof (priority_queue_is s q x pri ts HT Hq) as Hq0.
  set (s0 := set_priority x pri s) in *. change (thread_self s0) with (thread_self s).
  destruct (Z.eqb_spec x (thread_self s)); [contradiction|]. cbn [negb].
  assert (Es : t_state x s0 = t_state x s) by (apply (state_put32 is_thread Lay); (assumption || lia)).
  rewrite Es. destruct (Z.eqb_spec (t_state x s) STOPPED); [contradiction|]. cbn [negb andb].
  assert (Eq : t_queue x s0 = q) by (apply Hq0; assumption). rewrite Eq.
  pose proof (dequeue_not_in x ts (queue_nodup _ _ _ _ Hq)) as Hnot. revert Hnot.
  destruct (elem_split_fst x ts Hx) as (hi & lo & -> & Hn).
  rewrite (remove_unfold is_thread Lay s0 q x hi lo Hr Hq0), (dequeue_split x hi lo) by assumption.
  cbn [snd]. intros Hnot. exists (unlinked q hi x s0). rewrite unlink_cleared.
  split; [reflexivity|]. split; [apply (unlink_queue_is is_thread Lay s0 q x hi lo Hq0)|].
  split; [assumption|]. split; reflexivity.
Qed.
End Scheduler.

(** * The theorems on the sample guest *)

Lemma thread_queue_insert_refines_witness :
  let s' := thread_queue_insert running_queue thread_a sample_state in
  queue_is sample_thread s' running_queue [thread_b; thread_a; thread_c].
Proof.
  exact (proj1 (thread_queue_insert_refines sample_thread sample_layout sample_state running_queue thread_a
    [thread_b; thread_c] sample_running sample_ordered (or_introl eq_refl) ltac:(refine (bool_decide_unpack _ _); vm_compute; exact I))).
Defined.
Lemma thread_queue_pop_refines_witness :
  let '(t, s') := thread_queue_pop running_queue sample_state in
  t = thread_b /\ queue_is sample_thread s' running_queue [thread_c].
Proof.
  pose proof (thread_queue_pop_refines sample_thread sample_layout sample_state running_queue _ sample_running) as H.
  destruct (thread_queue_pop running_queue sample_state) as [t s']. destruct H as (H1 & H2 & _). split; assumption.
Defined.
Lemma thread_queue_remove_refines_witness :
  let '(found, s') := thread_queue_remove running_queue thread_c sample_state in
  found = true /\ queue_is sample_thread s' running_queue [thread_b].
Proof.
  pose proof (thread_queue_remove_refines sample_thread sample_layout sample_state running_queue thread_c _
    (or_introl eq_refl) sample_running) as H.
  destruct (thread_queue_remove running_queue thread_c sample_state) as [found s'].
  destruct H as (H1 & H2 & _). split; [rewrite H1; vm_compute; reflexivity|exact H2].
Defined.

Lemma sample_sched : sched_ok sample_thread sample_state [thread_b; thread_c].
Proof.
  constructor.
  - exact sample_running.
  - exact sample_ordered.
  - left. vm_compute. reflexivity.
  - refine (bool_decide_unpack _ _). vm_compute. exact I.
  - intros t Ht. apply sample_contexts. pose proof (queue_threads _ _ _ _ sample_running) as HF.
    rewrite Forall_forall in HF. auto.
Qed.
Lemma check_running_queue_highest_witness :
  exists s' ts', check_running_queue sample_state = Some s' /\ highest_runs s' ts' /\
    thread_self s' :: ts' ≡ₚ [thread_a; thread_b; thread_c].
Proof.
  destruct (check_running_queue_highest sample_thread sample_layout sample_state _ sample_sched)
    as (s' & ts' & E & _ & _ & H & P).
  exists s', ts'. split; [exact E|]. split; [exact H|exact P].
Defined.
Lemma osSetThreadPri_reinserts_into_null_witness :
  exists s1, set_pri_requeue thread_b 30 sample_state = thread_queue_insert NULLPTR thread_b s1 /\
    queue_is sample_thread s1 running_queue [thread_c].
Proof.
  destruct (osSetThreadPri_reinserts_into_null sample_thread sample_layout sample_state running_queue thread_b
    [thread_b; thread_c] 30 sample_running) as (s1 & E & H & _).
  - left.
  - left. reflexivity.
  - vm_compute. discriminate.
  - vm_compute. discriminate.
  - exists s1. split; [exact E|exact H].
Defined.
