(* ===== verification/MesgQueue.v ===== *)
(** Message queues of the guest: ultramodern/src/mesgqueue.cpp.

    An [OSMesgQueue] is a bounded ring of words in guest memory with two queues
    of blocked threads.  Threads of the host do not touch it: they post to a
    concurrent queue (moodycamel's, code outside the repository and here the
    interface [ExtQueue]), which a game thread drains on its next call.  The
    calls of the diagnostic event ring are left out; [drain] returns what it
    would log of each message. *)

From S2P Require Import Prelude GuestMem Kernel.
From Stdlib Require Import ZArith Lia Bool List.
From stdpp Require Import base gmap.
Open Scope Z_scope.

(** * The structure *)

Definition blocked_on_recv (mq : Z) : Z := s32 (mq + 0).
Definition blocked_on_send (mq : Z) : Z := s32 (mq + 4).
Definition mq_validCount (mq : Z) (s : kstate) : Z := load_s32 (to_off mq + 8) (mem s).
Definition mq_first (mq : Z) (s : kstate) : Z := load_s32 (to_off mq + 12) (mem s).
Definition mq_msgCount (mq : Z) (s : kstate) : Z := load_s32 (to_off mq + 16) (mem s).
Definition mq_msg (mq : Z) (s : kstate) : Z := load_s32 (to_off mq + 20) (mem s).
Definition set_validCount (mq v : Z) (s : kstate) : kstate := put32 (to_off mq + 8) v s.
Definition set_first (mq v : Z) (s : kstate) : kstate := put32 (to_off mq + 12) v s.
(** [TO_PTR(OSMesg, mq->msg)[i]] *)
Definition msg_slot (mq i : Z) (s : kstate) : Z := to_off (mq_msg mq s) + 4 * i.

Definition osCreateMesgQueue (mq msg count : Z) (s : kstate) : kstate :=
  let s := put32 (to_off mq) NULLPTR s in
  let s := put32 (to_off mq + 4) NULLPTR s in
  let s := put32 (to_off mq + 16) count s in
  let s := put32 (to_off mq + 20) msg s in
  let s := set_validCount mq 0 s in
  set_first mq 0 s.

Definition MQ_GET_COUNT (mq : Z) (s : kstate) : Z := mq_validCount mq s.
Definition MQ_IS_EMPTY (mq : Z) (s : kstate) : bool := mq_validCount mq s =? 0.
Definition MQ_IS_FULL (mq : Z) (s : kstate) : bool := MQ_GET_COUNT mq s >=? mq_msgCount mq s.

(** * Sending and receiving *)

(** How a call leaves the CPU: with its result, parked in a queue of blocked
    threads (another thread now runs, and the call resumes at its wait loop),
    or by a fault of the host. *)
Inductive outcome (A : Type) :=
| Done (a : A) (s : kstate)
| Parked (s : kstate)
| Fault.
Arguments Done {A}. Arguments Parked {A}. Arguments Fault {A}.

Definition in_kseg0 (p : Z) : bool := (u32 p >=? 0x80000000) && (u32 p <? 0x80800000).

(** The checks at the head of [do_send]. *)
Definition send_guard (mq : Z) (s : kstate) : bool :=
  in_kseg0 mq && in_kseg0 (mq_msg mq s) &&
  negb ((mq_msgCount mq s <=? 0) || (mq_msgCount mq s >? 0x10000)) &&
  negb ((mq_first mq s <? 0) || (mq_first mq s >=? mq_msgCount mq s) ||
        (mq_validCount mq s <? 0) || (mq_validCount mq s >? mq_msgCount mq s)).

(** Wake the first thread of a queue of blocked threads. *)
Definition wake (blocked_queue : Z) (s : kstate) : kstate :=
  if negb (thread_queue_empty blocked_queue s)
  then let '(t, s) := thread_queue_pop blocked_queue s in schedule_running_thread t s
  else s.

(** Block the caller on a queue and let another thread run. *)
Definition park {A} (blocked_queue : Z) (s : kstate) : outcome A :=
  match run_next_thread_and_wait (thread_queue_insert blocked_queue (thread_self s) s) with
  | Some s => Parked s
  | None => Fault
  end.

(** The write into the ring; [%] of C++ truncates. *)
Definition ring_jam (mq msg : Z) (s : kstate) : kstate :=
  let s := set_first mq (Z.rem (mq_first mq s + mq_msgCount mq s - 1) (mq_msgCount mq s)) s in
  let s := put32 (msg_slot mq (mq_first mq s) s) msg s in
  set_validCount mq (mq_validCount mq s + 1) s.
Definition ring_push (mq msg : Z) (s : kstate) : kstate :=
  let last := Z.rem (mq_first mq s + mq_validCount mq s) (mq_msgCount mq s) in
  let s := put32 (msg_slot mq last s) msg s in
  set_validCount mq (mq_validCount mq s + 1) s.

(** [do_send] from its wait loop on, where a parked sender resumes. *)
Definition send_resume (mq msg : Z) (jam block : bool) (s : kstate) : outcome bool :=
  if MQ_IS_FULL mq s then if block then park (blocked_on_send mq) s else Done false s
  else
    let s := if jam then ring_jam mq msg s else ring_push mq msg s in
    Done true (wake (blocked_on_recv mq) s).

Definition do_send (mq msg : Z) (jam block : bool) (s : kstate) : outcome bool :=
  if send_guard mq s then send_resume mq msg jam block s else Done false s.

Definition ring_shift (mq dst : Z) (s : kstate) : kstate :=
  let s := if negb (dst =? NULLPTR) then put32 (to_off dst) (load_s32 (msg_slot mq (mq_first mq s) s) (mem s)) s else s in
  let s := set_first mq (Z.rem (mq_first mq s + 1) (mq_msgCount mq s)) s in
  set_validCount mq (mq_validCount mq s - 1) s.

(** [do_recv], which checks no field: a ring of no slots is a division by
    zero.  It is its own resumption. *)
Definition do_recv (mq dst : Z) (block : bool) (s : kstate) : outcome bool :=
  if MQ_IS_EMPTY mq s then if block then park (blocked_on_recv mq) s else Done false s
  else if mq_msgCount mq s =? 0 then Fault
  else Done true (wake (blocked_on_send mq) (ring_shift mq dst s)).

(** * Messages from the host *)

Record QueuedMessage := Queued { qm_mq : Z; qm_mesg : Z; qm_jam : bool; qm_coalescible : bool }.

(** What the code relies on of [moodycamel::BlockingConcurrentQueue]: an
    enqueue adds one element, a dequeue takes one, and fails on an empty
    queue; elements of different producers come out in any order. *)
Class ExtQueue (Q : Type) := {
  ext_elems : Q -> list QueuedMessage;
  ext_enqueue : QueuedMessage -> Q -> Q;
  ext_try_dequeue : Q -> option (QueuedMessage * Q) }.
Class ExtQueueLaws (Q : Type) `{ExtQueue Q} : Prop := {
  ext_enqueue_elems : forall m q, ext_elems (ext_enqueue m q) ≡ₚ m :: ext_elems q;
  ext_dequeue_elems : forall q m q', ext_try_dequeue q = Some (m, q') -> ext_elems q ≡ₚ m :: ext_elems q';
  ext_dequeue_empty : forall q, ext_try_dequeue q = None -> ext_elems q = [] }.

(** One producer: a list, first in first out. *)
#[export] Instance fifo_queue : ExtQueue (list QueuedMessage) := {
  ext_elems := id;
  ext_enqueue m q := q ++ [m];
  ext_try_dequeue q := match q with [] => None | m :: q => Some (m, q) end }.
#[export] Instance fifo_laws : ExtQueueLaws (list QueuedMessage).
Proof.
  constructor; cbn.
  - intros m q. rewrite Permutation_app_comm. reflexivity.
  - intros [|m0 q] m q' E; inversion E. reflexivity.
  - intros [|m q] E; [reflexivity|discriminate].
Qed.

Section External.
Context {Q : Type} `{ExtQueue Q}.

(** [external_messages] and [g_external_pending]. *)
Record external := Ext { msgs : Q; g_external_pending : Z }.

Definition enqueue_external_tagged (mq msg : Z) (jam coalescible : bool) (e : external) : external :=
  Ext (ext_enqueue (Queued mq msg jam coalescible) (msgs e)) (u32 (g_external_pending e + 1)).
Definition enqueue_external_message (mq msg : Z) (jam : bool) (e : external) : external :=
  enqueue_external_tagged mq msg jam false e.
Definition try_dequeue (e : external) : option (QueuedMessage * external) :=
  match ext_try_dequeue (msgs e) with
  | Some (m, q) => Some (m, Ext q (u32 (g_external_pending e - 1)))
  | None => None
  end.
Definition external_message_pending (e : external) : bool := negb (g_external_pending e =? 0).

(** What became of a drained message. *)
Inductive drained := Delivered | Dropped | Requeued.

(** [dequeue_external_messages]; each turn but the last takes a message. *)
Fixpoint drain (fuel : nat) (e : external) (s : kstate) : option (list (drained * QueuedMessage) * external * kstate) :=
  match fuel with
  | O => None
  | S fuel =>
      match try_dequeue e with
      | None => Some ([], e, s)
      | Some (m, e) =>
          match do_send (qm_mq m) (qm_mesg m) (qm_jam m) false s with
          | Done true s =>
              match drain fuel e s with
              | Some (log, e, s) => Some ((Delivered, m) :: log, e, s)
              | None => None
              end
          | Done false s =>
              if qm_coalescible m then
                match drain fuel e s with
                | Some (log, e, s) => Some ((Dropped, m) :: log, e, s)
                | None => None
                end
              else Some ([(Requeued, m)],
                         Ext (ext_enqueue m (msgs e)) (u32 (g_external_pending e + 1)), s)
          | _ => None
          end
      end
  end.
Definition dequeue_external_messages (e : external) (s : kstate) :=
  drain (S (length (ext_elems (msgs e)))) e s.

(** [wait_for_external_message] and its timed form, once a message is there;
    [None] is the wait. *)
Definition wait_for_external_message (e : external) (s : kstate) : option (external * kstate) :=
  match try_dequeue e with
  | Some (m, e) =>
      match do_send (qm_mq m) (qm_mesg m) (qm_jam m) false s with
      | Done _ s => Some (e, s)
      | _ => None
      end
  | None => None
  end.

(** The timed wait: nothing happens when the time passes without a message. *)
Definition wait_for_external_message_timed (e : external) (s : kstate) : outcome external :=
  match try_dequeue e with
  | None => Done e s
  | Some _ => match wait_for_external_message e s with Some (e, s) => Done e s | None => Fault end
  end.

(** [yield_self] once a message is there, [yield_self_1ms]; [pause_self] is
    [yield_self] forever, here its first [n] turns. *)
Definition reschedule (r : option (external * kstate)) : option (external * kstate) :=
  match r with
  | Some (e, s) => match check_running_queue s with Some s => Some (e, s) | None => None end
  | None => None
  end.
Definition yield_self (e : external) (s : kstate) : option (external * kstate) :=
  reschedule (wait_for_external_message e s).
Definition yield_self_1ms (e : external) (s : kstate) : option (external * kstate) :=
  reschedule (match wait_for_external_message_timed e s with Done e s => Some (e, s) | _ => None end).
Fixpoint pause_self (n : nat) (e : external) (s : kstate) : option (external * kstate) :=
  match n with
  | O => Some (e, s)
  | S n => match yield_self e s with Some (e, s) => pause_self n e s | None => None end
  end.

(** A delayed post: now, or by a host thread that enqueues it when it wakes. *)
Definition send_external_message_after (mq msg delay_us : Z) (e : external) : external * list QueuedMessage :=
  if delay_us =? 0 then (enqueue_external_message mq msg false e, [])
  else (e, [Queued mq msg false false]).

(** [game] is [is_game_thread()]. *)
Definition post_rcp_event (game : bool) (mq msg : Z) (coalescible : bool) (e : external) (s : kstate) : external * outcome Z :=
  if game then
    (e, match do_send mq msg false false s with
        | Done _ s => Done 0 s | Parked s => Parked s | Fault => Fault end)
  else (enqueue_external_tagged mq msg false coalescible e, Done 0 s).

(** * The calls of the guest *)

Definition OS_MESG_BLOCK : Z := 1.

(** The end of each call: reschedule, then return. *)
Definition finish (o : outcome bool) : outcome Z :=
  match o with
  | Done sent s =>
      match check_running_queue s with
      | Some s => Done (if sent then 0 else -1) s
      | None => Fault
      end
  | Parked s => Parked s
  | Fault => Fault
  end.

Definition send_call (jam game : bool) (mq msg flags : Z) (e : external) (s : kstate) : external * outcome Z :=
  if negb game then (enqueue_external_message mq msg jam e, Done 0 s)
  else
    match dequeue_external_messages e s with
    | Some (_, e, s) => (e, finish (do_send mq msg jam (flags =? OS_MESG_BLOCK) s))
    | None => (e, Fault)
    end.
Definition osSendMesg := send_call false.
Definition osJamMesg := send_call true.

Definition osRecvMesg (mq dst flags : Z) (e : external) (s : kstate) : external * outcome Z :=
  match dequeue_external_messages e s with
  | Some (_, e, s) => (e, finish (do_recv mq dst (flags =? OS_MESG_BLOCK) s))
  | None => (e, Fault)
  end.

(** The rest of a call whose thread was parked and runs again. *)
Definition osSendMesg_resume (jam : bool) (mq msg : Z) (s : kstate) : outcome Z :=
  finish (send_resume mq msg jam true s).
Definition osRecvMesg_resume (mq dst : Z) (s : kstate) : outcome Z :=
  finish (do_recv mq dst true s).
End External.
Arguments external Q : clear implicits.
