(* ===== verification/MesgQueueSpec.v ===== *)
(** Message queues refine bounded double-ended queues: sending, jamming and
    receiving do to the ring what the operations do to a list.  What the drain of
    the host's messages keeps and drops. *)

From S2P Require Import Prelude GuestMem Kernel KernelSpec MesgQueue.
From Stdlib Require Import ZArith Lia Bool List.
From stdpp Require Import base list sorting gmap.
Open Scope Z_scope.

#[local] Opaque queue_guard.

(** * Ring indices *)

Lemma ring_index f i cap : 0 <= f < cap -> 0 <= i < cap ->
  (f + i) mod cap = if f + i <? cap then f + i else f + i - cap.
Proof.
  intros Hf Hi. destruct (Z.ltb_spec (f + i) cap); [apply Z.mod_small; lia|].
  symmetry. apply (Z.mod_unique _ _ 1); lia.
Qed.
Lemma ring_index_range f i cap : 0 < cap -> 0 <= (f + i) mod cap < cap.
Proof. intros H. apply Z.mod_pos_bound. assumption. Qed.
Lemma ring_index_inj f i j cap : 0 <= f < cap -> 0 <= i < cap -> 0 <= j < cap -> i <> j ->
  (f + i) mod cap <> (f + j) mod cap.
Proof.
  intros Hf Hi Hj N. rewrite !ring_index by assumption.
  destruct (Z.ltb_spec (f + i) cap), (Z.ltb_spec (f + j) cap); lia.
Qed.
Lemma ring_index_succ f i cap : 0 < cap -> ((f + 1) mod cap + i) mod cap = (f + (i + 1)) mod cap.
Proof. intros H. rewrite Z.add_mod_idemp_l by lia. f_equal. lia. Qed.
Lemma ring_index_pred f i cap : 0 < cap -> ((f + cap - 1) mod cap + (i + 1)) mod cap = (f + i) mod cap.
Proof.
  intros H. rewrite Z.add_mod_idemp_l by lia. replace (f + cap - 1 + (i + 1)) with (f + i + 1 * cap) by lia.
  apply Z.mod_add. lia.
Qed.

Lemma in_kseg0_range p : is_s32 p -> in_kseg0 p = true -> -2147483648 <= p < -2139095040.
Proof.
  unfold in_kseg0, u32, is_s32. intros Hp.
  destruct (Z.geb_spec (p mod 4294967296) 0x80000000), (Z.ltb_spec (p mod 4294967296) 0x80800000); cbn [andb];
    try discriminate. intros _. zlia.
Qed.

Lemma enqueue_ext p p' x ts : (forall t, t ∈ x :: ts -> p t = p' t) -> enqueue p x ts = enqueue p' x ts.
Proof.
  induction ts as [|t ts IH]; cbn; intros E; [reflexivity|].
  rewrite (E x), (E t) by (rewrite !elem_of_cons; auto). destruct (p' t >? p' x); [|reflexivity]. f_equal. apply IH.
  intros u Hu. apply E. rewrite !elem_of_cons in *. tauto.
Qed.

Section MesgQueue.
Context (is_thread : Z -> Prop) (Lay : threads_layout is_thread).
Abbreviation queue_is := (queue_is is_thread).
Abbreviation same_threads := (same_threads is_thread).
Abbreviation prio s := (fun t => t_priority t s).

(** Where a message queue and its ring lie. *)
Record mq_layout (mq buf cap : Z) : Prop := {
  ml_mq : is_s32 mq /\ in_kseg0 mq = true;
  ml_buf : is_s32 buf /\ in_kseg0 buf = true;
  ml_cap : 0 < cap <= 0x10000;
  ml_ring : apart (to_off mq) 24 (to_off buf) (4 * cap);
  ml_mq_threads : forall t, is_thread t -> apart (to_off mq) 24 (to_off t) 48;
  ml_buf_threads : forall t, is_thread t -> apart (to_off buf) (4 * cap) (to_off t) 48 }.

(** The ring of [mq] holds the messages [ms], oldest first. *)
Record mq_is (mq buf cap : Z) (s : kstate) (ms : list Z) : Prop := {
  mi_msg : mq_msg mq s = buf;
  mi_count : mq_msgCount mq s = cap;
  mi_first : 0 <= mq_first mq s < cap;
  mi_valid : mq_validCount mq s = Z.of_nat (length ms);
  mi_len : Z.of_nat (length ms) <= cap;
  mi_slot : forall i m, ms !! i = Some m ->
    load_s32 (to_off buf + 4 * ((mq_first mq s + Z.of_nat i) mod cap)) (mem s) = m }.

(** ** What the thread operations leave of the rest of memory *)

(** A word outside every thread and apart from the queue head [l]. *)
Definition word_apart (a : Z) (l : link) : Prop :=
  links_apart (LMem a) l /\ forall t, is_thread t -> apart a 4 (to_off t) 48.
Abbreviation word a s := (read_link (LMem a) s).

Lemma word_link_after a l hi : word_apart a l -> Forall is_thread hi -> links_apart (LMem a) (link_after l hi).
Proof.
  intros [Hl Ht] HF. destruct (link_after_cases l hi) as [->|(t & Hin & ->)]; [assumption|].
  rewrite Forall_forall in HF. specialize (Ht t (HF t Hin)). cbn. unfold apart in *. lia.
Qed.

Lemma insert_word s q x ts a : queue_is s q ts -> is_thread x -> x ∉ ts -> word_apart a (queue_to_ptr q) ->
  word a (thread_queue_insert q x s) = word a s.
Proof.
  intros Hq Hx Hn Ha.
  destruct (insert_unfold is_thread Lay s q x ts Hq) as (hi & lo & E & Ee & ->).
  pose proof (queue_threads _ _ _ _ Hq) as HF. rewrite E in HF. apply Forall_app in HF as [HF HF2].
  rewrite read_write_other by (apply word_link_after; assumption).
  apply (prep_link q x (hd NULLPTR lo) s). apply Ha. assumption.
Qed.
Lemma unlink_word s q x hi lo a : queue_is s q (hi ++ x :: lo) -> word_apart a (queue_to_ptr q) ->
  word a (unlinked q hi x s) = word a s.
Proof.
  intros Hq Ha. pose proof (queue_threads _ _ _ _ Hq) as HF. apply Forall_app in HF as [HF HF2].
  apply Forall_cons in HF2 as [Hx _]. unfold unlinked, set_queue.
  rewrite link_put32 by (try lia; apply Ha; assumption).
  apply read_write_other. apply word_link_after; assumption.
Qed.
Lemma set_state_word s x v a l : is_thread x -> word_apart a l -> word a (set_state x v s) = word a s.
Proof. intros Hx [_ Ha]. apply (read_set_state (LMem a) v s x). apply Ha. assumption. Qed.

(** A state change that keeps the links of a queue keeps the queue. *)
Lemma queue_is_frame s s' q ts :
  read_link (queue_to_ptr q) s' = read_link (queue_to_ptr q) s ->
  (forall t, is_thread t -> t_next t s' = t_next t s /\ t_queue t s' = t_queue t s) ->
  queue_is s q ts -> queue_is s' q ts.
Proof.
  intros Hl Hf [Hc Hch Hnd HF Hqf]. pose proof HF as HF2. rewrite Forall_forall in HF2.
  constructor; try assumption.
  - apply (chain_frame s); [assumption| |assumption]. intros t Ht. apply Hf. auto.
  - intros t Ht. destruct (Hf t (HF2 t Ht)) as [_ ->]. auto.
Qed.
Lemma set_state_queue_is s x v q ts : is_thread x -> queue_is s q ts -> queue_is (set_state x v s) q ts.
Proof.
  intros Hx Hq. apply (queue_is_frame s); [|intros t Ht|assumption].
  - apply (read_set_state _ v s x). apply Hq. assumption.
  - unfold t_next, t_queue. split; [rewrite <- (Z.add_0_r (to_off t))|];
      apply (field_set_state is_thread Lay); (assumption || lia).
Qed.
Lemma put_word_queue_is s a v q ts : word_apart a (queue_to_ptr q) -> queue_is s q ts -> queue_is (put32 a v s) q ts.
Proof.
  intros [Hl Ht] Hq. apply (queue_is_frame s); [|intros t HT|assumption].
  - change (put32 a v s) with (write_link (LMem a) v s). apply read_write_other.
    destruct (queue_to_ptr q); cbn in *; [exact I|]. unfold apart in *. lia.
  - specialize (Ht t HT). unfold apart in Ht. unfold t_next, t_queue. cbn [put32 set_mem mem].
    split; apply load_s32_disj; lia.
Qed.
Lemma put_word_same s a v : (forall t, is_thread t -> apart a 4 (to_off t) 48) -> same_threads s (put32 a v s).
Proof.
  intros Ha. apply (same_write_link is_thread Lay (LMem a)). left. intros t Ht. apply Ha. assumption.
Qed.
Lemma put_word_other s a b v : apart a 4 b 4 -> word a (put32 b v s) = word a s.
Proof. intros H. apply (read_write_other (LMem a) (LMem b)). exact H. Qed.
Lemma put_word_self s a v : is_s32 v -> word a (put32 a v s) = v.
Proof. intros H. apply (read_write_same (LMem a)). assumption. Qed.

(** ** Waking a waiting thread *)

Definition woken (p : Z -> Z) (rs ws : list Z) : list Z :=
  match ws with [] => rs | w :: _ => enqueue p w rs end.

Lemma queues_disjoint s q ts q' ts' t : queue_is s q ts -> queue_is s q' ts' -> q <> q' -> t ∈ ts -> t ∉ ts'.
Proof. intros H H' N Ht Ht'. apply N. rewrite <- (queue_field _ _ _ _ H t Ht). apply H'. assumption. Qed.

Lemma schedule_spec s t rs : queue_is s running_queue rs -> is_thread t -> t ∉ rs ->
  let s' := schedule_running_thread t s in
  queue_is s' running_queue (enqueue (prio s) t rs) /\ same_threads s s' /\
  (forall a l, word_apart a l -> word a s' = word a s) /\
  (forall q' ts', q' <> running_queue -> links_apart (queue_to_ptr q') LRun -> t ∉ ts' ->
     queue_is s q' ts' -> queue_is s' q' ts').
Proof.
  intros Hq Ht Hn. cbv zeta. unfold schedule_running_thread. split; [|split; [|split]].
  - apply set_state_queue_is; [assumption|]. apply (insert_queue_is is_thread Lay); assumption.
  - eapply same_threads_trans; [apply (insert_same is_thread Lay s running_queue t rs); assumption|].
    apply (same_set_state is_thread Lay). assumption.
  - intros a l Ha. rewrite (set_state_word _ _ _ _ l) by assumption.
    apply (insert_word s running_queue t rs); [assumption..|]. split; [exact I|apply Ha].
  - intros q' ts' Nq Hl Ht' Hq'. apply set_state_queue_is; [assumption|].
    apply (insert_frame is_thread Lay s running_queue t rs); assumption.
Qed.

Lemma wake_spec s q o ws rs :
  queue_is s q ws -> queue_is s running_queue rs -> q <> running_queue -> queue_to_ptr q = LMem o ->
  let s' := wake q s in
  queue_is s' q (tl ws) /\ queue_is s' running_queue (woken (prio s) rs ws) /\ same_threads s s' /\
  (forall a, word_apart a (LMem o) -> word a s' = word a s) /\
  (forall q' ts', q' <> q -> q' <> running_queue -> links_apart (queue_to_ptr q') (LMem o) ->
     links_apart (queue_to_ptr q') LRun -> queue_is s q' ts' -> queue_is s' q' ts').
Proof.
  intros Hq Hr Nq Eo. cbv zeta. unfold wake. rewrite (queue_is_empty is_thread Lay s q ws Hq).
  destruct ws as [|w ws]; cbn [negb tl woken].
  - split; [assumption|]. split; [assumption|]. split; [apply same_threads_refl|]. split; [reflexivity|auto].
  - rewrite (pop_unfold is_thread Lay s q w ws Hq).
    pose proof (unlink_thread is_thread s q w [] ws Hq) as [Hw _].
    assert (Hwr : w ∉ rs) by (apply (queues_disjoint s q (w :: ws) running_queue); auto; left).
    assert (Hr1 : queue_is (unlinked q [] w s) running_queue rs).
    { apply (unlink_frame is_thread Lay s q w [] ws Hq); [rewrite Eo; exact I|congruence|assumption]. }
    pose proof (unlink_same is_thread Lay s q w [] ws Hq) as Hs1.
    pose proof (unlink_queue_is is_thread Lay s q w [] ws Hq) as Hq1. cbn [app] in Hq1.
    assert (Hww : w ∉ ws) by (pose proof (queue_nodup _ _ _ _ Hq) as Hnd; apply NoDup_cons in Hnd; apply Hnd).
    assert (Hword : forall a, word_apart a (LMem o) -> word a (unlinked q [] w s) = word a s).
    { intros a Ha. apply (unlink_word s q w [] ws a Hq). rewrite Eo. assumption. }
    assert (Hfr : forall q' ts', q' <> q -> links_apart (queue_to_ptr q') (LMem o) -> queue_is s q' ts' ->
      queue_is (unlinked q [] w s) q' ts').
    { intros q' ts' N1 N2. apply (unlink_frame is_thread Lay s q w [] ws Hq); [rewrite Eo; assumption|assumption]. }
    set (s1 := unlinked q [] w s) in *. cbn [negb tl woken].
    destruct (schedule_spec s1 w rs Hr1 Hw Hwr) as (S1 & S2 & S3 & S4).
    split; [apply S4; try assumption; rewrite Eo; exact I|].
    split; [|split; [|split]].
    + revert S1. rewrite (enqueue_ext (prio s1) (prio s)); [tauto|].
      intros t Ht. apply (same_prio _ _ _ Hs1).
      pose proof (queue_threads _ _ _ _ Hr) as HF. rewrite Forall_forall in HF.
      apply elem_of_cons in Ht as [->|Ht]; auto.
    + eapply same_threads_trans; eassumption.
    + intros a Ha. rewrite (S3 a (LMem o)) by assumption. auto.
    + intros q' ts' N1 N2 L1 L2 Hq'. apply S4; auto.
      intros Hin. apply (queues_disjoint s q (w :: ws) q' ts' w) in Hin; auto. left.
Qed.

(** ** The ring *)

Section Ring.
Context (mq buf cap : Z) (ML : mq_layout mq buf cap).

Lemma ml_ranges : -2147483648 <= mq < -2139095040 /\ -2147483648 <= buf < -2139095040.
Proof. destruct ML as [[? ?] [? ?] _ _ _ _]. split; apply in_kseg0_range; assumption. Qed.
Lemma recv_head : queue_to_ptr (blocked_on_recv mq) = LMem (to_off mq) /\ blocked_on_recv mq <> running_queue.
Proof.
  destruct ml_ranges as [Hm _]. unfold blocked_on_recv, queue_to_ptr, running_queue.
  rewrite s32_small, Z.add_0_r by (unfold is_s32; lia).
  destruct (Z.eqb_spec mq (-1)); [lia|]. split; [reflexivity|lia].
Qed.
Lemma send_head : queue_to_ptr (blocked_on_send mq) = LMem (to_off mq + 4) /\ blocked_on_send mq <> running_queue.
Proof.
  destruct ml_ranges as [Hm _]. unfold blocked_on_send, queue_to_ptr, running_queue.
  rewrite s32_small by (unfold is_s32; lia).
  destruct (Z.eqb_spec (mq + 4) (-1)); [lia|]. split; [unfold to_off; f_equal; lia|lia].
Qed.
Lemma heads_differ : blocked_on_recv mq <> blocked_on_send mq.
Proof.
  destruct ml_ranges as [Hm _]. unfold blocked_on_recv, blocked_on_send.
  rewrite !s32_small by (unfold is_s32; lia). lia.
Qed.

(** The words of the structure behind its two heads, and those of the ring. *)
Definition mq_word (a : Z) : Prop :=
  (exists k, (k = 8 \/ k = 12 \/ k = 16 \/ k = 20) /\ a = to_off mq + k) \/
  exists j, 0 <= j < cap /\ a = to_off buf + 4 * j.
Lemma mq_word_apart a k : mq_word a -> k = 0 \/ k = 4 -> word_apart a (LMem (to_off mq + k)).
Proof.
  intros Ha Hk. destruct ML as [_ _ Hc Hr Hm Hb]. unfold apart in Hr. split.
  - cbn. unfold apart. destruct Ha as [(j & Hj & ->)|(j & Hj & ->)]; lia.
  - intros t Ht. specialize (Hm t Ht). specialize (Hb t Ht). unfold apart in *.
    destruct Ha as [(j & Hj & ->)|(j & Hj & ->)]; lia.
Qed.

Lemma mq_is_frame s s' ms : (forall a, mq_word a -> word a s' = word a s) -> mq_is mq buf cap s ms -> mq_is mq buf cap s' ms.
Proof.
  intros Hw [H1 H2 H3 H4 H5 H6].
  assert (F : forall k, k = 8 \/ k = 12 \/ k = 16 \/ k = 20 ->
            load_s32 (to_off mq + k) (mem s') = load_s32 (to_off mq + k) (mem s)).
  { intros k Hk. apply (Hw (to_off mq + k)). left. exists k. auto. }
  assert (E : mq_first mq s' = mq_first mq s) by (apply F; tauto).
  constructor; rewrite ?E; try assumption.
  - unfold mq_msg. rewrite F by tauto. assumption.
  - unfold mq_msgCount. rewrite F by tauto. assumption.
  - unfold mq_validCount. rewrite F by tauto. assumption.
  - intros i m Hi. rewrite <- (H6 i m Hi). apply (Hw (to_off buf + 4 * ((mq_first mq s + Z.of_nat i) mod cap))).
    right. eexists. split; [|reflexivity]. apply ring_index_range. lia.
Qed.

(** Reads of the structure after a write to the structure or to the ring. *)
Lemma field_put_field s j k v : 0 <= j <= 20 -> 0 <= k <= 20 -> j + 4 <= k \/ k + 4 <= j ->
  load_s32 (to_off mq + k) (mem (put32 (to_off mq + j) v s)) = load_s32 (to_off mq + k) (mem s).
Proof. intros Hj Hk H. cbn [put32 set_mem mem]. apply load_s32_disj. lia. Qed.
Lemma field_put_slot s j k v : 0 <= j < cap -> 0 <= k <= 20 ->
  load_s32 (to_off mq + k) (mem (put32 (to_off buf + 4 * j) v s)) = load_s32 (to_off mq + k) (mem s).
Proof.
  intros Hj Hk. cbn [put32 set_mem mem]. apply load_s32_disj. destruct ML as [_ _ Hc Hr _ _]. unfold apart in Hr. lia.
Qed.
Lemma slot_put_field s j k v : 0 <= j < cap -> 0 <= k <= 20 ->
  load_s32 (to_off buf + 4 * j) (mem (put32 (to_off mq + k) v s)) = load_s32 (to_off buf + 4 * j) (mem s).
Proof.
  intros Hj Hk. cbn [put32 set_mem mem]. apply load_s32_disj. destruct ML as [_ _ Hc Hr _ _]. unfold apart in Hr. lia.
Qed.
Lemma slot_put_slot s j k v : j <> k ->
  load_s32 (to_off buf + 4 * j) (mem (put32 (to_off buf + 4 * k) v s)) = load_s32 (to_off buf + 4 * j) (mem s).
Proof. intros N. cbn [put32 set_mem mem]. apply load_s32_disj. lia. Qed.
Lemma put_same_word s a v : is_s32 v -> load_s32 a (mem (put32 a v s)) = v.
Proof. apply put_word_self. Qed.

Lemma ring_push_is s ms msg : mq_is mq buf cap s ms -> Z.of_nat (length ms) < cap -> is_s32 msg ->
  mq_is mq buf cap (ring_push mq msg s) (ms ++ [msg]).
Proof.
  intros [H1 H2 H3 H4 H5 H6] Hl Hm. destruct ML as [_ _ Hc _ _ _].
  unfold ring_push, msg_slot. rewrite H1, H2, H4, Z.rem_mod_nonneg by lia.
  pose proof (ring_index_range (mq_first mq s) (Z.of_nat (length ms)) cap ltac:(lia)) as Hj.
  set (j := (mq_first mq s + Z.of_nat (length ms)) mod cap) in *.
  set (s1 := put32 (to_off buf + 4 * j) msg s).
  assert (E4 : mq_validCount mq s1 = Z.of_nat (length ms)).
  { unfold mq_validCount, s1. rewrite field_put_slot by (assumption || lia). assumption. }
  rewrite E4. unfold set_validCount.
  assert (Ef : mq_first mq (put32 (to_off mq + 8) (Z.of_nat (length ms) + 1) s1) = mq_first mq s).
  { unfold mq_first, s1. rewrite field_put_field, field_put_slot by (assumption || lia). reflexivity. }
  constructor; rewrite ?Ef.
  - unfold mq_msg, s1. rewrite field_put_field, field_put_slot by (assumption || lia). assumption.
  - unfold mq_msgCount, s1. rewrite field_put_field, field_put_slot by (assumption || lia). assumption.
  - assumption.
  - unfold mq_validCount. rewrite put_same_word by (unfold is_s32; lia). rewrite length_app. cbn. lia.
  - rewrite length_app. cbn. lia.
  - intros i m Hi. apply lookup_snoc_Some in Hi as [[Hi Hl2]|[-> ->]].
    + unfold s1. rewrite slot_put_field by (try apply ring_index_range; lia).
      rewrite slot_put_slot; [apply H6; assumption|]. apply ring_index_inj; lia.
    + rewrite slot_put_field by (assumption || lia). apply put_same_word. assumption.
Qed.

Lemma ring_jam_is s ms msg : mq_is mq buf cap s ms -> Z.of_nat (length ms) < cap -> is_s32 msg ->
  mq_is mq buf cap (ring_jam mq msg s) (msg :: ms).
Proof.
  intros [H1 H2 H3 H4 H5 H6] Hl Hm. destruct ML as [_ _ Hc _ _ _].
  unfold ring_jam, msg_slot. rewrite H2, Z.rem_mod_nonneg by lia.
  pose proof (ring_index_range (mq_first mq s) (cap - 1) cap ltac:(lia)) as Hj.
  replace (mq_first mq s + (cap - 1)) with (mq_first mq s + cap - 1) in Hj by lia.
  set (j := (mq_first mq s + cap - 1) mod cap) in *. unfold set_first.
  set (s1 := put32 (to_off mq + 12) j s).
  assert (E1 : mq_msg mq s1 = buf) by (unfold mq_msg, s1; rewrite field_put_field by lia; assumption).
  assert (E3 : mq_first mq s1 = j) by (apply put_same_word; unfold is_s32; lia).
  rewrite E1, E3. set (s2 := put32 (to_off buf + 4 * j) msg s1).
  assert (E4 : mq_validCount mq s2 = Z.of_nat (length ms)).
  { unfold mq_validCount, s2, s1. rewrite field_put_slot, field_put_field by (assumption || lia). assumption. }
  rewrite E4. unfold set_validCount.
  assert (Ef : mq_first mq (put32 (to_off mq + 8) (Z.of_nat (length ms) + 1) s2) = j).
  { unfold mq_first, s2. rewrite field_put_field, field_put_slot by (assumption || lia). exact E3. }
  constructor; rewrite ?Ef.
  - unfold mq_msg, s2. rewrite field_put_field, field_put_slot by (assumption || lia). exact E1.
  - unfold mq_msgCount, s2, s1. rewrite field_put_field, field_put_slot, field_put_field by (assumption || lia). assumption.
  - assumption.
  - unfold mq_validCount. rewrite put_same_word by (unfold is_s32; lia). cbn. lia.
  - cbn. lia.
  - intros [|i] m Hi.
    + injection Hi as <-. rewrite Z.add_0_r, (Z.mod_small j) by assumption.
      rewrite slot_put_field by (assumption || lia). apply put_same_word. assumption.
    + cbn in Hi. pose proof (lookup_lt_Some _ _ _ Hi) as Hlt.
      rewrite Nat2Z.inj_succ, <- Z.add_1_r. unfold j at 1. rewrite ring_index_pred by lia.
      rewrite slot_put_field by (try apply ring_index_range; lia). unfold s2.
      rewrite slot_put_slot.
      * unfold s1. rewrite slot_put_field by (try apply ring_index_range; lia). apply H6. assumption.
      * unfold j. replace (mq_first mq s + cap - 1) with (mq_first mq s + (cap - 1)) by lia.
        apply ring_index_inj; lia.
Qed.

(** Where a received message may be stored. *)
Definition dst_ok (dst : Z) : Prop :=
  dst = NULLPTR \/ (apart (to_off dst) 4 (to_off mq) 24 /\ apart (to_off dst) 4 (to_off buf) (4 * cap) /\
                    forall t, is_thread t -> apart (to_off dst) 4 (to_off t) 48).

Lemma mq_word_dst dst a : dst_ok dst -> dst <> NULLPTR -> mq_word a -> apart a 4 (to_off dst) 4.
Proof.
  intros [->|(H1 & H2 & _)] N Ha; [contradiction|]. unfold apart in *.
  destruct Ha as [(k & Hk & ->)|(k & Hk & ->)]; lia.
Qed.
Lemma dst_apart dst k : dst_ok dst -> dst <> NULLPTR -> k = 0 \/ k = 4 -> word_apart (to_off dst) (LMem (to_off mq + k)).
Proof.
  intros [->|(H1 & H2 & H3)] N Hk; [contradiction|]. split; [|assumption]. cbn. unfold apart in *. lia.
Qed.

Lemma store_dst_is s dst v ms : dst_ok dst -> mq_is mq buf cap s ms ->
  mq_is mq buf cap (if negb (dst =? NULLPTR) then put32 (to_off dst) v s else s) ms.
Proof.
  intros Hd H. destruct (Z.eqb_spec dst NULLPTR) as [_|N]; cbn [negb]; [assumption|].
  apply (mq_is_frame s); [|assumption]. intros a Ha. apply put_word_other. apply (mq_word_dst dst); assumption.
Qed.

Lemma ring_shift_is s dst m ms : mq_is mq buf cap s (m :: ms) -> dst_ok dst ->
  mq_is mq buf cap (ring_shift mq dst s) ms /\ (dst <> NULLPTR -> word (to_off dst) (ring_shift mq dst s) = m).
Proof.
  intros H Hd. unfold ring_shift.
  assert (Ev : load_s32 (msg_slot mq (mq_first mq s) s) (mem s) = m).
  { pose proof (mi_slot _ _ _ _ _ H 0%nat m eq_refl) as E. cbn in E. rewrite Z.add_0_r in E.
    unfold msg_slot. rewrite (mi_msg _ _ _ _ _ H). rewrite Z.mod_small in E by apply H. exact E. }
  rewrite Ev. pose proof (store_dst_is s dst m (m :: ms) Hd H) as [H1 H2 H3 H4 H5 H6].
  assert (Em : is_s32 m) by (rewrite <- Ev; apply load_s32_range).
  assert (Ed : dst <> NULLPTR -> word (to_off dst) (if negb (dst =? NULLPTR) then put32 (to_off dst) m s else s) = m).
  { intros N. destruct (Z.eqb_spec dst NULLPTR); [contradiction|]. apply put_word_self. assumption. }
  set (s1 := if negb (dst =? NULLPTR) then put32 (to_off dst) m s else s) in *.
  destruct ML as [_ _ Hc _ _ _]. cbn [length] in H4, H5.
  rewrite H2, Z.rem_mod_nonneg by lia.
  pose proof (ring_index_range (mq_first mq s1) 1 cap ltac:(lia)) as Hj.
  set (j := (mq_first mq s1 + 1) mod cap) in *. unfold set_first, set_validCount.
  assert (E4 : mq_validCount mq (put32 (to_off mq + 12) j s1) = Z.of_nat (S (length ms))).
  { unfold mq_validCount. rewrite field_put_field by lia. assumption. }
  rewrite E4. set (s2 := put32 (to_off mq + 12) j s1).
  assert (Ef : mq_first mq (put32 (to_off mq + 8) (Z.of_nat (S (length ms)) - 1) s2) = j).
  { unfold mq_first. rewrite field_put_field by lia. apply put_same_word. unfold is_s32. lia. }
  split.
  - constructor; rewrite ?Ef.
    + unfold mq_msg, s2. rewrite !field_put_field by lia. assumption.
    + unfold mq_msgCount, s2. rewrite !field_put_field by lia. assumption.
    + assumption.
    + unfold mq_validCount. rewrite put_same_word by (unfold is_s32; lia). lia.
    + lia.
    + intros i v Hi. unfold j, s2. rewrite !slot_put_field, ring_index_succ by (try apply ring_index_range; lia).
      rewrite <- (H6 (S i) v Hi), Nat2Z.inj_succ. reflexivity.
  - intros N. rewrite <- (Ed N). unfold s2. cbn [put32 set_mem mem read_link].
    destruct (dst_apart dst 0 Hd N ltac:(auto)) as [_ _].
    destruct Hd as [->|(Ha & _ & _)]; [contradiction|]. unfold apart in Ha.
    rewrite !load_s32_disj by lia. reflexivity.
Qed.

(** ** Writes the thread queues do not see *)

Definition own_queue (q : Z) : Prop := q = running_queue \/ q = blocked_on_recv mq \/ q = blocked_on_send mq.
Definition quiet (s s' : kstate) : Prop :=
  same_threads s s' /\ forall q ts, own_queue q -> queue_is s q ts -> queue_is s' q ts.
Lemma quiet_refl s : quiet s s.
Proof. split; [apply same_threads_refl|auto]. Qed.
Lemma quiet_trans s s' s'' : quiet s s' -> quiet s' s'' -> quiet s s''.
Proof. intros [A B] [A' B']. split; [eapply same_threads_trans; eassumption|auto]. Qed.
Lemma quiet_put s a v : word_apart a (LMem (to_off mq + 0)) -> word_apart a (LMem (to_off mq + 4)) -> quiet s (put32 a v s).
Proof.
  intros H0 H4. split; [apply put_word_same, H0|]. intros q ts Hq. apply put_word_queue_is.
  destruct Hq as [->|[->| ->]].
  - split; [exact I|apply H0].
  - destruct recv_head as [-> _]. rewrite Z.add_0_r in H0. assumption.
  - destruct send_head as [-> _]. assumption.
Qed.
Lemma quiet_mq s a v : mq_word a -> quiet s (put32 a v s).
Proof. intros Ha. apply quiet_put; apply mq_word_apart; auto. Qed.
Lemma mq_word_field k : k = 8 \/ k = 12 \/ k = 16 \/ k = 20 -> mq_word (to_off mq + k).
Proof. intros H. left. exists k. auto. Qed.
Lemma mq_word_slot j : 0 <= j < cap -> mq_word (to_off buf + 4 * j).
Proof. intros H. right. exists j. auto. Qed.

Lemma ring_push_quiet s ms msg : mq_is mq buf cap s ms -> quiet s (ring_push mq msg s).
Proof.
  intros [H1 H2 H3 H4 H5 H6]. pose proof (ml_cap _ _ _ ML) as Hc. unfold ring_push, msg_slot, set_validCount.
  rewrite H1, H2, H4, Z.rem_mod_nonneg by lia.
  eapply quiet_trans; apply quiet_mq; [apply mq_word_slot, ring_index_range; lia|apply mq_word_field; auto].
Qed.
Lemma ring_jam_quiet s ms msg : mq_is mq buf cap s ms -> quiet s (ring_jam mq msg s).
Proof.
  intros [H1 H2 H3 H4 H5 H6]. pose proof (ml_cap _ _ _ ML) as Hc. unfold ring_jam, msg_slot, set_validCount, set_first.
  rewrite H2, Z.rem_mod_nonneg by lia.
  assert (E1 : forall v, mq_msg mq (put32 (to_off mq + 12) v s) = buf).
  { intros v. unfold mq_msg. rewrite field_put_field by lia. assumption. }
  pose proof (ring_index_range (mq_first mq s) (cap - 1) cap ltac:(lia)) as Hj.
  replace (mq_first mq s + (cap - 1)) with (mq_first mq s + cap - 1) in Hj by lia.
  assert (E3 : mq_first mq (put32 (to_off mq + 12) ((mq_first mq s + cap - 1) mod cap) s) = (mq_first mq s + cap - 1) mod cap).
  { apply put_same_word. unfold is_s32. lia. }
  rewrite E1, E3.
  repeat (eapply quiet_trans; [|apply quiet_mq, mq_word_field; auto]).
  eapply quiet_trans; apply quiet_mq; [apply mq_word_field; auto|apply mq_word_slot; assumption].
Qed.
Lemma ring_shift_quiet s dst : dst_ok dst -> quiet s (ring_shift mq dst s).
Proof.
  intros Hd. unfold ring_shift, set_first, set_validCount.
  repeat (eapply quiet_trans; [|apply quiet_mq, mq_word_field; auto]).
  destruct (Z.eqb_spec dst NULLPTR) as [_|N]; cbn [negb]; [apply quiet_refl|].
  apply quiet_put; apply dst_apart; auto.
Qed.

(** ** The queue and its threads *)

(** [ms] in the ring, [rs] runnable, [ws] waiting to receive, [ss] waiting
    to send. *)
Record mq_view (s : kstate) (ms rs ws ss : list Z) : Prop := {
  view_ring : mq_is mq buf cap s ms;
  view_run : queue_is s running_queue rs;
  view_recv : queue_is s (blocked_on_recv mq) ws;
  view_send : queue_is s (blocked_on_send mq) ss }.

Lemma send_guard_ok s ms : mq_is mq buf cap s ms -> send_guard mq s = true.
Proof.
  intros [H1 H2 H3 H4 H5 _]. destruct ML as [[_ Hm] [_ Hb] Hc _ _ _].
  unfold send_guard. rewrite H1, H2, H4, Hm, Hb. cbn [andb].
  destruct (Z.leb_spec cap 0), (Z.gtb_spec cap 0x10000), (Z.ltb_spec (mq_first mq s) 0),
    (Z.geb_spec (mq_first mq s) cap), (Z.ltb_spec (Z.of_nat (length ms)) 0),
    (Z.gtb_spec (Z.of_nat (length ms)) cap); (lia || reflexivity).
Qed.
Lemma full_iff s ms : mq_is mq buf cap s ms -> MQ_IS_FULL mq s = (Z.of_nat (length ms) >=? cap).
Proof. intros [_ H2 _ H4 _ _]. unfold MQ_IS_FULL, MQ_GET_COUNT. rewrite H2, H4. reflexivity. Qed.
Lemma empty_iff s ms : mq_is mq buf cap s ms -> MQ_IS_EMPTY mq s = match ms with [] => true | _ => false end.
Proof. intros [_ _ _ H4 _ _]. unfold MQ_IS_EMPTY. rewrite H4. destruct ms; reflexivity. Qed.

Lemma quiet_view s s' ms ms' rs ws ss : quiet s s' -> mq_is mq buf cap s' ms' ->
  mq_view s ms rs ws ss -> mq_view s' ms' rs ws ss.
Proof.
  intros [_ Hq] Hm [_ V2 V3 V4]. constructor; [assumption|..]; apply Hq; try assumption; unfold own_queue; auto.
Qed.

Lemma heads_apart : links_apart (LMem (to_off mq)) (LMem (to_off mq + 4)) /\ links_apart (LMem (to_off mq + 4)) (LMem (to_off mq)).
Proof. cbn. unfold apart. lia. Qed.
Lemma mq_word_recv a : mq_word a -> word_apart a (LMem (to_off mq)).
Proof. intros H. rewrite <- (Z.add_0_r (to_off mq)). apply mq_word_apart; auto. Qed.
Lemma mq_word_send a : mq_word a -> word_apart a (LMem (to_off mq + 4)).
Proof. intros H. apply mq_word_apart; auto. Qed.

Lemma wake_recv_view s ms rs ws ss : mq_view s ms rs ws ss ->
  mq_view (wake (blocked_on_recv mq) s) ms (woken (prio s) rs ws) (tl ws) ss /\
  same_threads s (wake (blocked_on_recv mq) s).
Proof.
  intros [V1 V2 V3 V4]. destruct recv_head as [Eh Nh], send_head as [Eh' Nh'].
  destruct (wake_spec s _ _ ws rs V3 V2 Nh Eh) as (W1 & W2 & W3 & W4 & W5).
  split; [|assumption]. constructor; try assumption.
  - apply (mq_is_frame s); [|assumption]. intros a Ha. apply W4, mq_word_recv, Ha.
  - apply W5; try assumption; rewrite ?Eh'; [apply not_eq_sym, heads_differ|apply heads_apart|exact I].
Qed.
Lemma wake_send_view s ms rs ws ss : mq_view s ms rs ws ss ->
  mq_view (wake (blocked_on_send mq) s) ms (woken (prio s) rs ss) ws (tl ss) /\
  same_threads s (wake (blocked_on_send mq) s) /\
  (forall a, word_apart a (LMem (to_off mq + 4)) -> word a (wake (blocked_on_send mq) s) = word a s).
Proof.
  intros [V1 V2 V3 V4]. destruct recv_head as [Eh Nh], send_head as [Eh' Nh'].
  destruct (wake_spec s _ _ ss rs V4 V2 Nh' Eh') as (W1 & W2 & W3 & W4 & W5).
  split; [|split; assumption]. constructor; try assumption.
  - apply (mq_is_frame s); [|assumption]. intros a Ha. apply W4, mq_word_send, Ha.
  - apply W5; try assumption; rewrite ?Eh; [apply heads_differ|apply heads_apart|exact I].
Qed.

Lemma woken_same s s' rs ws : same_threads s s' -> queue_is s running_queue rs -> Forall is_thread ws ->
  woken (prio s') rs ws = woken (prio s) rs ws.
Proof.
  intros Hs Hr HF. destruct ws as [|w ws]; cbn; [reflexivity|]. apply enqueue_ext. intros t Ht.
  apply (same_prio _ _ _ Hs). pose proof (queue_threads _ _ _ _ Hr) as HF'. rewrite Forall_forall in HF'.
  apply Forall_cons in HF as [Hw _]. apply elem_of_cons in Ht as [->|Ht]; auto.
Qed.

Lemma send_view s ms rs ws ss msg jam block : mq_view s ms rs ws ss -> Z.of_nat (length ms) < cap -> is_s32 msg ->
  exists s', send_resume mq msg jam block s = Done true s' /\
    mq_view s' (if jam then msg :: ms else ms ++ [msg]) (woken (prio s) rs ws) (tl ws) ss /\ same_threads s s'.
Proof.
  intros HV Hl Hm. unfold send_resume. pose proof (view_ring _ _ _ _ _ HV) as HM. rewrite (full_iff s ms HM).
  destruct (Z.geb_spec (Z.of_nat (length ms)) cap); [lia|]. eexists. split; [reflexivity|].
  set (s1 := if jam then ring_jam mq msg s else ring_push mq msg s).
  assert (H1 : quiet s s1 /\ mq_is mq buf cap s1 (if jam then msg :: ms else ms ++ [msg])).
  { unfold s1. destruct jam.
    - split; [apply (ring_jam_quiet s ms)|apply ring_jam_is]; assumption.
    - split; [apply (ring_push_quiet s ms)|apply ring_push_is]; assumption. }
  destruct H1 as [Hq HM1]. pose proof (quiet_view s s1 _ _ _ _ _ Hq HM1 HV) as HV1.
  destruct (wake_recv_view s1 _ _ _ _ HV1) as [HV2 Hs2].
  rewrite (woken_same s s1 rs ws) in HV2; [|apply Hq|apply HV|apply (queue_threads _ _ _ _ (view_recv _ _ _ _ _ HV))].
  split; [assumption|]. eapply same_threads_trans; [apply Hq|assumption].
Qed.

Lemma recv_view s m ms rs ws ss dst block : mq_view s (m :: ms) rs ws ss -> dst_ok dst ->
  exists s', do_recv mq dst block s = Done true s' /\
    mq_view s' ms (woken (prio s) rs ss) ws (tl ss) /\ same_threads s s' /\
    (dst <> NULLPTR -> word (to_off dst) s' = m).
Proof.
  intros HV Hd. unfold do_recv. pose proof (view_ring _ _ _ _ _ HV) as HM. rewrite (empty_iff s _ HM).
  pose proof (ml_cap _ _ _ ML) as Hc. rewrite (mi_count _ _ _ _ _ HM).
  destruct (Z.eqb_spec cap 0); [lia|]. eexists. split; [reflexivity|].
  destruct (ring_shift_is s dst m ms HM Hd) as [HM1 Ed]. pose proof (ring_shift_quiet s dst Hd) as Hq.
  set (s1 := ring_shift mq dst s) in *. pose proof (quiet_view s s1 _ _ _ _ _ Hq HM1 HV) as HV1.
  destruct (wake_send_view s1 _ _ _ _ HV1) as (HV2 & Hs2 & Hw).
  rewrite (woken_same s s1 rs ss) in HV2; [|apply Hq|apply HV|apply (queue_threads _ _ _ _ (view_send _ _ _ _ _ HV))].
  split; [assumption|]. split; [eapply same_threads_trans; [apply Hq|assumption]|].
  intros N. rewrite Hw by (apply dst_apart; auto). auto.
Qed.

(** ** Handing over the CPU *)

Lemma frame_view s s' ms rs ws ss : (forall a, mq_word a -> word a s' = word a s) ->
  queue_is s' running_queue rs -> queue_is s' (blocked_on_recv mq) ws -> queue_is s' (blocked_on_send mq) ss ->
  mq_is mq buf cap s ms -> mq_view s' ms rs ws ss.
Proof. intros Hw H1 H2 H3 HM. constructor; try assumption. apply (mq_is_frame s); assumption. Qed.

Lemma set_state_view s t v ms rs ws ss : is_thread t -> mq_view s ms rs ws ss -> mq_view (set_state t v s) ms rs ws ss.
Proof.
  intros Ht [V1 V2 V3 V4]. apply (frame_view s); try (apply set_state_queue_is; assumption); [|assumption].
  intros a Ha. apply (set_state_word s t v a (LMem (to_off mq))); [assumption|apply mq_word_recv, Ha].
Qed.
Lemma set_self_view s t ms rs ws ss : mq_view s ms rs ws ss -> mq_view (set_self s t) ms rs ws ss.
Proof.
  intros [V1 V2 V3 V4].
  apply (frame_view s); try assumption; try reflexivity; (apply (queue_is_frame s); [reflexivity|split; reflexivity|assumption]).
Qed.

Lemma insert_run_view s x ms rs ws ss : mq_view s ms rs ws ss -> is_thread x -> x ∉ rs -> x ∉ ws -> x ∉ ss ->
  mq_view (thread_queue_insert running_queue x s) ms (enqueue (prio s) x rs) ws ss.
Proof.
  intros [V1 V2 V3 V4] Hx H1 H2 H3. destruct recv_head as [Eh Nh], send_head as [Eh' Nh'].
  apply (frame_view s); [| | | |assumption].
  - intros a Ha. apply (insert_word s running_queue x rs); try assumption. split; [exact I|apply mq_word_recv, Ha].
  - apply (insert_queue_is is_thread Lay); assumption.
  - apply (insert_frame is_thread Lay s running_queue x rs); try assumption. rewrite Eh. exact I.
  - apply (insert_frame is_thread Lay s running_queue x rs); try assumption. rewrite Eh'. exact I.
Qed.
Lemma insert_recv_view s x ms rs ws ss : mq_view s ms rs ws ss -> is_thread x -> x ∉ rs -> x ∉ ws -> x ∉ ss ->
  mq_view (thread_queue_insert (blocked_on_recv mq) x s) ms rs (enqueue (prio s) x ws) ss.
Proof.
  intros [V1 V2 V3 V4] Hx H1 H2 H3. destruct recv_head as [Eh Nh], send_head as [Eh' Nh'].
  apply (frame_view s); [| | | |assumption].
  - intros a Ha. apply (insert_word s (blocked_on_recv mq) x ws); try assumption. rewrite Eh. apply mq_word_recv, Ha.
  - apply (insert_frame is_thread Lay s (blocked_on_recv mq) x ws); auto. rewrite Eh. exact I.
  - apply (insert_queue_is is_thread Lay); assumption.
  - apply (insert_frame is_thread Lay s (blocked_on_recv mq) x ws); try assumption; [|apply not_eq_sym, heads_differ].
    rewrite Eh, Eh'. apply heads_apart.
Qed.
Lemma insert_send_view s x ms rs ws ss : mq_view s ms rs ws ss -> is_thread x -> x ∉ rs -> x ∉ ws -> x ∉ ss ->
  mq_view (thread_queue_insert (blocked_on_send mq) x s) ms rs ws (enqueue (prio s) x ss).
Proof.
  intros [V1 V2 V3 V4] Hx H1 H2 H3. destruct recv_head as [Eh Nh], send_head as [Eh' Nh'].
  apply (frame_view s); [| | | |assumption].
  - intros a Ha. apply (insert_word s (blocked_on_send mq) x ss); try assumption. rewrite Eh'. apply mq_word_send, Ha.
  - apply (insert_frame is_thread Lay s (blocked_on_send mq) x ss); auto. rewrite Eh'. exact I.
  - apply (insert_frame is_thread Lay s (blocked_on_send mq) x ss); try assumption; [|apply heads_differ].
    rewrite Eh, Eh'. apply heads_apart.
  - apply (insert_queue_is is_thread Lay); assumption.
Qed.
Lemma pop_run_view s r ms rs ws ss : mq_view s ms (r :: rs) ws ss ->
  exists s', thread_queue_pop running_queue s = (r, s') /\ mq_view s' ms rs ws ss /\ same_threads s s' /\ is_thread r.
Proof.
  intros [V1 V2 V3 V4]. destruct recv_head as [Eh Nh], send_head as [Eh' Nh'].
  exists (unlinked running_queue [] r s). split; [apply (pop_unfold is_thread Lay s _ r rs V2)|].
  split; [|split; [apply (unlink_same is_thread Lay s _ r [] rs V2)|apply (proj1 (unlink_thread is_thread s _ r [] rs V2))]].
  apply (frame_view s); [| | | |assumption].
  - intros a Ha. apply (unlink_word s running_queue r [] rs); [assumption|]. split; [exact I|apply mq_word_recv, Ha].
  - apply (unlink_queue_is is_thread Lay s _ r [] rs V2).
  - apply (unlink_frame is_thread Lay s _ r [] rs V2); try assumption. rewrite Eh. exact I.
  - apply (unlink_frame is_thread Lay s _ r [] rs V2); try assumption. rewrite Eh'. exact I.
Qed.

(** Priorities and contexts kept, the running thread not. *)
Definition same_fields (s s' : kstate) : Prop :=
  forall t, is_thread t -> t_priority t s' = t_priority t s /\ t_context t s' = t_context t s.
Lemma same_fields_of s s' : same_threads s s' -> same_fields s s'.
Proof. intros [H1 H2 _] t Ht. auto. Qed.
Lemma same_fields_trans s s' s'' : same_fields s s' -> same_fields s' s'' -> same_fields s s''.
Proof. intros H1 H2 t Ht. destruct (H1 t Ht), (H2 t Ht). split; congruence. Qed.

Lemma switch_view s t ms rs ws ss : mq_view s ms rs ws ss -> is_thread t -> t_context t s <> 0 ->
  exists s', switch_to t s = Some s' /\ mq_view s' ms rs ws ss /\ thread_self s' = t /\ same_fields s s'.
Proof.
  intros HV Ht Hc. unfold switch_to. destruct (Z.eqb_spec (t_context t s) 0); [contradiction|].
  eexists. split; [reflexivity|]. split; [apply set_state_view, set_self_view; assumption|]. split; [reflexivity|].
  intros u Hu. destruct (same_set_state is_thread Lay t RUNNING (set_self s t) Ht) as [E1 E2 _].
  split; [apply E1|apply E2]; assumption.
Qed.

Lemma run_next_view s ms rs ws ss : mq_view s ms rs ws ss -> (forall t, t ∈ rs -> t_context t s <> 0) ->
  match rs with
  | [] => run_next_thread s = None
  | r :: rs => exists s', run_next_thread s = Some s' /\ mq_view s' ms rs ws ss /\ thread_self s' = r /\ same_fields s s'
  end.
Proof.
  intros HV Hc. unfold run_next_thread. rewrite (queue_is_empty is_thread Lay s _ rs (view_run _ _ _ _ _ HV)).
  destruct rs as [|r rs]; [reflexivity|].
  destruct (pop_run_view s r ms rs ws ss HV) as (s1 & -> & HV1 & Hs1 & Hr).
  destruct (switch_view s1 r ms rs ws ss HV1 Hr) as (s2 & E & HV2 & Hself & Hf).
  - rewrite (same_ctx _ _ _ Hs1 r Hr). apply Hc. left.
  - exists s2. split; [exact E|]. split; [assumption|]. split; [assumption|].
    eapply same_fields_trans; [apply same_fields_of; eassumption|assumption].
Qed.

Lemma park_recv_view s ms r rs ws ss : mq_view s ms (r :: rs) ws ss -> is_thread (thread_self s) ->
  NoDup (thread_self s :: (r :: rs) ++ ws ++ ss) -> (forall t, is_thread t -> t_context t s <> 0) ->
  exists s', @park bool (blocked_on_recv mq) s = Parked s' /\
    mq_view s' ms rs (enqueue (prio s) (thread_self s) ws) ss /\ thread_self s' = r /\ same_fields s s'.
Proof.
  intros HV Hx HN Hc. apply NoDup_cons in HN as [HN _]. rewrite !elem_of_app in HN.
  pose proof (insert_recv_view s _ _ _ _ _ HV Hx ltac:(tauto) ltac:(tauto) ltac:(tauto)) as HV1.
  pose proof (insert_same is_thread Lay s (blocked_on_recv mq) (thread_self s) ws (view_recv _ _ _ _ _ HV) Hx) as Hs.
  unfold park, run_next_thread_and_wait. set (s1 := thread_queue_insert _ _ _) in *.
  pose proof (run_next_view s1 ms (r :: rs) _ ss HV1) as Hr. cbn beta iota in Hr.
  destruct Hr as (s2 & -> & HV2 & Hself & Hf).
  - intros t Ht. pose proof (queue_threads _ _ _ _ (view_run _ _ _ _ _ HV)) as HF. rewrite Forall_forall in HF.
    rewrite (same_ctx _ _ _ Hs) by auto. auto.
  - exists s2. split; [reflexivity|]. split; [assumption|]. split; [assumption|].
    eapply same_fields_trans; [apply same_fields_of; eassumption|assumption].
Qed.
Lemma park_send_view s ms r rs ws ss : mq_view s ms (r :: rs) ws ss -> is_thread (thread_self s) ->
  NoDup (thread_self s :: (r :: rs) ++ ws ++ ss) -> (forall t, is_thread t -> t_context t s <> 0) ->
  exists s', @park bool (blocked_on_send mq) s = Parked s' /\
    mq_view s' ms rs ws (enqueue (prio s) (thread_self s) ss) /\ thread_self s' = r /\ same_fields s s'.
Proof.
  intros HV Hx HN Hc. apply NoDup_cons in HN as [HN _]. rewrite !elem_of_app in HN.
  pose proof (insert_send_view s _ _ _ _ _ HV Hx ltac:(tauto) ltac:(tauto) ltac:(tauto)) as HV1.
  pose proof (insert_same is_thread Lay s (blocked_on_send mq) (thread_self s) ss (view_send _ _ _ _ _ HV) Hx) as Hs.
  unfold park, run_next_thread_and_wait. set (s1 := thread_queue_insert _ _ _) in *.
  pose proof (run_next_view s1 ms (r :: rs) _ _ HV1) as Hr. cbn beta iota in Hr.
  destruct Hr as (s2 & -> & HV2 & Hself & Hf).
  - intros t Ht. pose proof (queue_threads _ _ _ _ (view_run _ _ _ _ _ HV)) as HF. rewrite Forall_forall in HF.
    rewrite (same_ctx _ _ _ Hs) by auto. auto.
  - exists s2. split; [reflexivity|]. split; [assumption|]. split; [assumption|].
    eapply same_fields_trans; [apply same_fields_of; eassumption|assumption].
Qed.

(** Nobody runnable: a thread that would park is a deadlock. *)
Lemma park_alone s q : read_link (queue_to_ptr running_queue) (thread_queue_insert q (thread_self s) s) = NULLPTR ->
  @park bool q s = Fault.
Proof.
  intros H. unfold park, run_next_thread_and_wait, run_next_thread, thread_queue_empty. rewrite H. reflexivity.
Qed.

(** Rescheduling moves threads between the CPU and the running queue. *)
Lemma resched_view s ms rs ws ss : mq_view s ms rs ws ss -> is_thread (thread_self s) ->
  NoDup (thread_self s :: rs ++ ws ++ ss) -> (forall t, is_thread t -> t_context t s <> 0) ->
  exists s' rs', check_running_queue s = Some s' /\ mq_view s' ms rs' ws ss /\
    thread_self s' :: rs' ≡ₚ thread_self s :: rs /\ is_thread (thread_self s') /\ same_fields s s'.
Proof.
  intros HV Hx HN Hc. unfold check_running_queue.
  rewrite (queue_is_empty is_thread Lay s _ rs (view_run _ _ _ _ _ HV)), (queue_is_peek is_thread s _ rs (view_run _ _ _ _ _ HV)).
  assert (Hsame : forall s, same_fields s s) by (intros s0 t Ht; split; reflexivity).
  destruct rs as [|r rs]; [exists s, []; auto|]. cbn [hd].
  destruct (t_priority r s >? t_priority (thread_self s) s); [|exists s, (r :: rs); auto].
  destruct (pop_run_view s r ms rs ws ss HV) as (s1 & -> & HV1 & Hs1 & Hr).
  apply NoDup_cons in HN as [HN HN2]. rewrite elem_of_app, elem_of_cons, elem_of_app in HN.
  unfold swap_to_thread. rewrite (same_self _ _ _ Hs1).
  pose proof (insert_run_view s1 (thread_self s) _ _ _ _ HV1 Hx ltac:(tauto) ltac:(tauto) ltac:(tauto)) as HV2.
  pose proof (insert_same is_thread Lay s1 running_queue (thread_self s) rs (view_run _ _ _ _ _ HV1) Hx) as Hs2.
  set (s2 := thread_queue_insert running_queue (thread_self s) s1) in *.
  pose proof (set_state_view s2 (thread_self s) QUEUED _ _ _ _ Hx HV2) as HV3.
  pose proof (same_set_state is_thread Lay (thread_self s) QUEUED s2 Hx) as Hs3.
  pose proof (same_threads_trans _ _ _ _ Hs1 (same_threads_trans _ _ _ _ Hs2 Hs3)) as Hs13.
  set (s3 := set_state (thread_self s) QUEUED s2) in *.
  destruct (switch_view s3 r _ _ _ _ HV3 Hr) as (s4 & -> & HV4 & Hself & Hf).
  - rewrite (same_ctx _ _ _ Hs13) by assumption. auto.
  - exists s4. eexists. split; [reflexivity|]. split; [exact HV4|]. rewrite Hself. split; [|split; [assumption|]].
    + rewrite enqueue_perm. constructor.
    + eapply same_fields_trans; [apply same_fields_of; eassumption|assumption].
Qed.

Lemma set_self_word a s t : word a (set_self s t) = word a s.
Proof. reflexivity. Qed.
(** Rescheduling writes only to threads. *)
Lemma resched_word s s' a ms rs ws ss : mq_view s ms rs ws ss -> is_thread (thread_self s) ->
  NoDup (thread_self s :: rs ++ ws ++ ss) -> (forall t, is_thread t -> apart a 4 (to_off t) 48) ->
  check_running_queue s = Some s' -> word a s' = word a s.
Proof.
  intros HV Hx HN Ha. unfold check_running_queue.
  rewrite (queue_is_empty is_thread Lay s _ rs (view_run _ _ _ _ _ HV)), (queue_is_peek is_thread s _ rs (view_run _ _ _ _ _ HV)).
  destruct rs as [|r rs]; [intros [= <-]; reflexivity|]. cbn [hd]. destruct (_ >? _); [|intros [= <-]; reflexivity].
  assert (Hw : word_apart a LRun) by (split; [exact I|assumption]).
  pose proof (view_run _ _ _ _ _ HV) as HR. destruct (unlink_thread is_thread s _ r [] rs HR) as [Hr _].
  pose proof (unlink_queue_is is_thread Lay s _ r [] rs HR) as HR1. pose proof (unlink_same is_thread Lay s _ r [] rs HR) as Hs1.
  rewrite (pop_unfold is_thread Lay s _ r rs HR). assert (E1 : word a (unlinked running_queue [] r s) = word a s) by (apply (unlink_word s running_queue r [] rs); [exact HR|exact Hw]).
  set (s1 := unlinked running_queue [] r s) in *. unfold swap_to_thread, switch_to. rewrite (same_self _ _ _ Hs1).
  destruct (_ =? 0); [discriminate|]. intros [= <-].
  apply NoDup_cons in HN as [HN _]. rewrite elem_of_app, elem_of_cons in HN.
  rewrite (set_state_word _ _ _ _ LRun) by assumption. rewrite set_self_word.
  rewrite (set_state_word _ _ _ _ LRun) by assumption.
  rewrite (insert_word s1 running_queue (thread_self s) rs) by (assumption || tauto). exact E1.
Qed.

(** ** What a call promises *)

(** A non-blocking send to a queue with room appends (or, jammed, prepends) the message and makes the first waiting receiver ready; to a full queue it fails and changes nothing. *)
Theorem do_send_refines s ms rs ws ss msg jam : mq_view s ms rs ws ss -> is_s32 msg ->
  if Z.of_nat (length ms) <? cap then
    exists s', do_send mq msg jam false s = Done true s' /\
      mq_view s' (if jam then msg :: ms else ms ++ [msg]) (woken (prio s) rs ws) (tl ws) ss
  else do_send mq msg jam false s = Done false s.
Proof.
  intros HV Hm. pose proof (view_ring _ _ _ _ _ HV) as HM. unfold do_send. rewrite (send_guard_ok s ms HM).
  destruct (Z.ltb_spec (Z.of_nat (length ms)) cap) as [Hl|Hl].
  - destruct (send_view s ms rs ws ss msg jam false HV Hl Hm) as (s' & E & HV' & _). eauto.
  - unfold send_resume. rewrite (full_iff s ms HM). destruct (Z.geb_spec (Z.of_nat (length ms)) cap); [reflexivity|lia].
Qed.

(** A non-blocking receive takes the oldest message, stores it where the caller asks and makes the first waiting sender ready; on an empty queue it fails and changes nothing. *)
Theorem do_recv_refines s ms rs ws ss dst : mq_view s ms rs ws ss -> dst_ok dst ->
  match ms with
  | [] => do_recv mq dst false s = Done false s
  | m :: ms' =>
      exists s', do_recv mq dst false s = Done true s' /\
        mq_view s' ms' (woken (prio s) rs ss) ws (tl ss) /\
        (dst <> NULLPTR -> load_s32 (to_off dst) (mem s') = m)
  end.
Proof.
  intros HV Hd. destruct ms as [|m ms].
  - unfold do_recv. rewrite (empty_iff s [] (view_ring _ _ _ _ _ HV)). reflexivity.
  - destruct (recv_view s m ms rs ws ss dst false HV Hd) as (s' & E & HV' & _ & Hv). eauto.
Qed.
End Ring.
End MesgQueue.

(** Whatever the guest's queue holds, when do_send's guard lets it pass its ring index stays in the ring, its sums do not overflow and every byte it touches is mapped. *)
Theorem do_send_in_bounds mq s : is_s32 mq -> send_guard mq s = true ->
  let count := mq_msgCount mq s in
  (0 <= Z.rem (mq_first mq s + mq_validCount mq s) count < count) /\
  (0 <= Z.rem (mq_first mq s + count - 1) count < count) /\
  is_s32 (mq_first mq s + mq_validCount mq s) /\ is_s32 (mq_first mq s + count) /\ is_s32 (mq_validCount mq s + 1) /\
  (forall i b, 0 <= i < count -> 0 <= b < 4 -> mapped (msg_slot mq i s + b) = true) /\
  (forall b, 0 <= b < 24 -> mapped (to_off mq + b) = true).
Proof.
  intros Hm Hg. cbv zeta. unfold send_guard in Hg.
  repeat rewrite andb_true_iff in Hg. destruct Hg as [[[G1 G2] G3] G4].
  rewrite negb_true_iff in G3, G4. rewrite orb_false_iff in G3. rewrite !orb_false_iff in G4.
  destruct G3 as [G3 G3'], G4 as [[[G4 G5] G6] G7].
  apply Z.leb_gt in G3. apply Z.ltb_ge in G4, G6.
  assert (G3'' : mq_msgCount mq s <= 0x10000) by (destruct (Z.gtb_spec (mq_msgCount mq s) 0x10000); [discriminate|assumption]).
  assert (G5' : mq_first mq s < mq_msgCount mq s) by (destruct (Z.geb_spec (mq_first mq s) (mq_msgCount mq s)); [discriminate|assumption]).
  assert (G7' : mq_validCount mq s <= mq_msgCount mq s) by (destruct (Z.gtb_spec (mq_validCount mq s) (mq_msgCount mq s)); [discriminate|assumption]).
  apply in_kseg0_range in G1, G2; [|apply load_s32_range|assumption].
  rewrite !Z.rem_mod_nonneg by lia.
  split; [apply Z.mod_pos_bound; lia|]. split; [apply Z.mod_pos_bound; lia|].
  unfold is_s32. split; [lia|]. split; [lia|]. split; [lia|].
  unfold mapped, msg_slot, to_off, mem_size. split; intros; apply andb_true_iff; rewrite Z.leb_le, Z.ltb_lt; lia.
Qed.

Section External.
Context {Q : Type} `{EQ : ExtQueue Q} `{!ExtQueueLaws Q}.

Abbreviation elems e := (ext_elems (msgs e)).

(** The messages of a drain log with a given fate. *)
Definition fate (d : drained) : drained -> bool :=
  match d with
  | Delivered => fun d' => match d' with Delivered => true | _ => false end
  | Dropped => fun d' => match d' with Dropped => true | _ => false end
  | Requeued => fun d' => match d' with Requeued => true | _ => false end
  end.
Definition with_fate (d : drained) (log : list (drained * QueuedMessage)) : list QueuedMessage :=
  map snd (List.filter (fun p => fate d (fst p)) log).

Lemma try_dequeue_elems e m e' : try_dequeue e = Some (m, e') ->
  elems e ≡ₚ m :: elems e' /\ g_external_pending e' = u32 (g_external_pending e - 1).
Proof.
  unfold try_dequeue. destruct (ext_try_dequeue (msgs e)) as [[m0 q]|] eqn:E; [|discriminate].
  intros [= <- <-]. split; [apply ext_dequeue_elems; assumption|reflexivity].
Qed.
Lemma try_dequeue_none e : try_dequeue e = None -> elems e = [].
Proof.
  unfold try_dequeue. destruct (ext_try_dequeue (msgs e)) as [[m0 q]|] eqn:E; [discriminate|].
  intros _. apply ext_dequeue_empty. assumption.
Qed.

(** A call that does not block returns. *)
Lemma do_send_nonblocking mq msg jam s : exists ok s', do_send mq msg jam false s = Done ok s' /\ (ok = false -> s' = s).
Proof.
  unfold do_send, send_resume. destruct (send_guard mq s); [|eauto].
  destruct (MQ_IS_FULL mq s); [eauto|]. do 2 eexists. split; [reflexivity|discriminate].
Qed.

Lemma drain_total fuel e s : (length (elems e) < fuel)%nat -> exists r, drain fuel e s = Some r.
Proof.
  revert e s. induction fuel as [|fuel IH]; intros e s Hf; [lia|]. cbn [drain].
  destruct (try_dequeue e) as [[m e1]|] eqn:E; [|eauto].
  apply try_dequeue_elems in E as [E _]. apply Permutation_length in E. cbn in E.
  destruct (do_send_nonblocking (qm_mq m) (qm_mesg m) (qm_jam m) s) as (ok & s1 & -> & _).
  destruct (IH e1 s1 ltac:(lia)) as [[[log e2] s2] Er]. rewrite Er.
  destruct ok; [eauto|]. destruct (qm_coalescible m); eauto.
Qed.

Lemma u32_mod_add a b : u32 (u32 a + b) = u32 (a + b).
Proof. unfold u32. rewrite Z.add_mod_idemp_l by lia. reflexivity. Qed.

Definition counted (e : external Q) : Prop := g_external_pending e = u32 (Z.of_nat (length (elems e))).

Lemma try_dequeue_counted e m e' : try_dequeue e = Some (m, e') -> counted e -> counted e'.
Proof.
  unfold counted. intros E H. apply try_dequeue_elems in E as [E ->]. apply Permutation_length in E. cbn in E.
  rewrite H, E. rewrite <- Z.add_opp_r, u32_mod_add. f_equal. lia.
Qed.
Lemma enqueue_counted m e : counted e -> counted (Ext (ext_enqueue m (msgs e)) (u32 (g_external_pending e + 1))).
Proof.
  unfold counted. cbn. intros ->. rewrite u32_mod_add.
  rewrite (Permutation_length (ext_enqueue_elems m (msgs e))). cbn. f_equal. lia.
Qed.

Definition drain_ok (e : external Q) (log : list (drained * QueuedMessage)) (e' : external Q) : Prop :=
  elems e ≡ₚ with_fate Delivered log ++ with_fate Dropped log ++ elems e' /\
  Forall (fun m => qm_coalescible m = true) (with_fate Dropped log) /\
  (counted e -> counted e').

Lemma drain_drain_ok fuel e s log e' s' : drain fuel e s = Some (log, e', s') -> drain_ok e log e'.
Proof.
  revert e s log. induction fuel as [|fuel IH]; intros e s log; [discriminate|]. cbn [drain].
  destruct (try_dequeue e) as [[m e1]|] eqn:E.
  - pose proof (try_dequeue_counted _ _ _ E) as Hc. apply try_dequeue_elems in E as [E _].
    destruct (do_send_nonblocking (qm_mq m) (qm_mesg m) (qm_jam m) s) as (ok & s1 & -> & _).
    destruct ok; [|destruct (qm_coalescible m) eqn:Eco].
    + destruct (drain fuel e1 s1) as [[[log1 e2] s2]|] eqn:Er; [|discriminate]. intros [= <- <- <-].
      destruct (IH _ _ _ Er) as (H1 & H2 & H3). split; [|split; [exact H2|auto]].
      rewrite E, H1. reflexivity.
    + destruct (drain fuel e1 s1) as [[[log1 e2] s2]|] eqn:Er; [|discriminate]. intros [= <- <- <-].
      destruct (IH _ _ _ Er) as (H1 & H2 & H3). split; [|split; [constructor; assumption|auto]].
      rewrite E, H1. apply (Permutation_middle (with_fate Delivered log1)).
    + intros [= <- <- <-]. split; [|split; [constructor|]].
      * rewrite E. cbn. rewrite ext_enqueue_elems. reflexivity.
      * intros H. apply enqueue_counted. auto.
  - intros [= <- <- <-]. split; [reflexivity|]. split; [constructor|auto].
Qed.

(** Draining the host's messages ends, delivers, drops or keeps each one, and drops only those marked coalescible. *)
Theorem drain_keeps_reliable e s :
  exists log e' s', dequeue_external_messages e s = Some (log, e', s') /\
    elems e ≡ₚ with_fate Delivered log ++ with_fate Dropped log ++ elems e' /\
    Forall (fun m => qm_coalescible m = true) (with_fate Dropped log).
Proof.
  destruct (drain_total (S (length (elems e))) e s ltac:(lia)) as [[[log e'] s'] E].
  exists log, e', s'. split; [exact E|]. destruct (drain_drain_ok _ _ _ _ _ _ E) as (H1 & H2 & _). auto.
Qed.

(** g_external_pending counts the messages of the external queue after every operation on it, so external_message_pending tells exactly whether there is one. *)
Theorem external_pending_counts e s mq msg jam c :
  counted e -> Z.of_nat (length (elems e)) < 4294967296 ->
  external_message_pending e = negb (bool_decide (elems e = [])) /\
  counted (enqueue_external_tagged mq msg jam c e) /\
  (forall log e' s', dequeue_external_messages e s = Some (log, e', s') -> counted e') /\
  (forall e' s', wait_for_external_message e s = Some (e', s') -> counted e').
Proof.
  intros Hc Hl. split; [|split; [|split]].
  - unfold external_message_pending. rewrite Hc. rewrite u32_small by (unfold is_u32; lia).
    destruct (elems e) as [|m l]; [reflexivity|].
    rewrite bool_decide_false by discriminate. cbn [length]. destruct (Z.eqb_spec (Z.of_nat (S (length l))) 0); [lia|reflexivity].
  - apply (enqueue_counted (Queued mq msg jam c)). assumption.
  - intros log e' s' E. apply (drain_drain_ok _ _ _ _ _ _ E). assumption.
  - intros e' s'. unfold wait_for_external_message. destruct (try_dequeue e) as [[m e1]|] eqn:E; [|discriminate].
    pose proof (try_dequeue_counted _ _ _ E Hc).
    destruct (do_send (qm_mq m) (qm_mesg m) (qm_jam m) false s); [|discriminate..]. intros [= <- <-]. assumption.
Qed.

(** wait_for_external_message throws away a reliable message whose target is full or invalid, where the drain loop keeps it. *)
Theorem wait_external_drops_reliable e e' m s :
  try_dequeue e = Some (m, e') -> qm_coalescible m = false ->
  (send_guard (qm_mq m) s = false \/ MQ_IS_FULL (qm_mq m) s = true) ->
  wait_for_external_message e s = Some (e', s) /\ elems e ≡ₚ m :: elems e' /\
  exists log e2 s2, drain 1 e s = Some (log, e2, s2) /\ elems e2 ≡ₚ elems e /\ s2 = s.
Proof.
  intros E Hr Hf.
  assert (Es : do_send (qm_mq m) (qm_mesg m) (qm_jam m) false s = Done false s).
  { unfold do_send, send_resume. destruct (send_guard (qm_mq m) s); [|reflexivity].
    destruct Hf as [Hf| ->]; [discriminate|reflexivity]. }
  unfold wait_for_external_message. cbn [drain]. rewrite E, Es, Hr.
  apply try_dequeue_elems in E as [E _]. split; [reflexivity|]. split; [assumption|].
  do 3 eexists. split; [reflexivity|]. split; [|reflexivity]. cbn. rewrite ext_enqueue_elems, E. reflexivity.
Qed.
End External.
