(* ===== verification/MesgSystem.v ===== *)
(** Game threads and host threads sharing a message queue: the interleavings
    of their calls as a step relation, and what holds in every reachable state. *)

From S2P Require Import Prelude GuestMem Kernel KernelSpec MesgQueue MesgQueueSpec.
From Stdlib Require Import ZArith Lia Bool List.
From stdpp Require Import base list gmap relations.
Open Scope Z_scope.

#[local] Opaque queue_guard.

(** * Calls that wait *)

(** A call whose thread is parked, or was and has not resumed. *)
Inductive pending := PSend (msg : Z) | PRecv (dst : Z).
Definition is_send (p : option pending) : bool := match p with Some (PSend _) => true | _ => false end.
Definition is_recv (p : option pending) : bool := match p with Some (PRecv _) => true | _ => false end.

Fixpoint count (f : Z -> bool) (ts : list Z) : nat :=
  match ts with [] => 0 | t :: ts => (if f t then 1 else 0) + count f ts end%nat.
Lemma count_perm f ts us : ts ≡ₚ us -> count f ts = count f us.
Proof. induction 1; cbn; lia. Qed.
Lemma count_ext f g ts : (forall t, t ∈ ts -> f t = g t) -> count f ts = count g ts.
Proof.
  induction ts as [|t ts IH]; intros H; cbn; [reflexivity|].
  rewrite (H t), IH; [reflexivity| |left]. intros u Hu. apply H. right. assumption.
Qed.
Lemma count_pos f ts : (0 < count f ts)%nat -> exists t, t ∈ ts /\ f t = true.
Proof.
  induction ts as [|t ts IH]; cbn; [lia|]. destruct (f t) eqn:E.
  - intros _. exists t. split; [left|assumption].
  - intros H. destruct (IH H) as (u & Hu & Eu). exists u. split; [right|]; assumption.
Qed.

Section Waits.
Context (cap : Z) (p : Z -> Z) (all : list Z).
Implicit Types (pend : gmap Z pending) (ms rs ws ss : list Z).

Definition recvs pend ts := count (fun t => is_recv (pend !! t)) ts.
Definition sends pend ts := count (fun t => is_send (pend !! t)) ts.

(** Every thread of [all] is in one place, the blocked ones in a call of their
    queue; and when messages are left for blocked receivers, as many receivers have
    been woken (likewise for senders and free slots). *)
Record waits_ok pend (self : Z) ms rs ws ss : Prop := {
  w_nodup : NoDup (self :: rs ++ ws ++ ss);
  w_all : self :: rs ++ ws ++ ss ≡ₚ all;
  w_recv : forall t, t ∈ ws -> is_recv (pend !! t) = true;
  w_send : forall t, t ∈ ss -> is_send (pend !! t) = true;
  w_woken_recv : ws <> [] -> (length ms <= recvs pend (self :: rs))%nat;
  w_woken_send : ss <> [] -> cap - Z.of_nat (length ms) <= Z.of_nat (sends pend (self :: rs)) }.

Lemma woken_perm rs ws : woken p rs ws ≡ₚ match ws with [] => [] | w :: _ => [w] end ++ rs.
Proof. destruct ws as [|w ws]; cbn; [reflexivity|apply enqueue_perm]. Qed.
Lemma not_in_woken t rs ws : (t ∉ rs) -> (t ∉ ws) -> t ∉ woken p rs ws.
Proof.
  intros Hr Hw H. rewrite woken_perm in H. apply elem_of_app in H as [H|H]; [|contradiction].
  destruct ws as [|w ws]; [apply elem_of_nil in H; contradiction|].
  apply list_elem_of_singleton in H as ->. apply Hw. left.
Qed.
Lemma woken_places rs ws ss : woken p rs ws ++ tl ws ++ ss ≡ₚ rs ++ ws ++ ss.
Proof. rewrite woken_perm. destruct ws as [|w ws]; cbn; [reflexivity|]. rewrite <- Permutation_middle. reflexivity. Qed.

Lemma is_send_recv o : is_send o = true -> is_recv o = false.
Proof. destruct o as [[]|]; cbn; congruence. Qed.
Lemma is_recv_send o : is_recv o = true -> is_send o = false.
Proof. destruct o as [[]|]; cbn; congruence. Qed.

Lemma count_woken f rs ws : count f (woken p rs ws) = (match ws with [] => 0 | w :: _ => if f w then 1 else 0 end + count f rs)%nat.
Proof. rewrite (count_perm _ _ _ (woken_perm rs ws)). destruct ws as [|w ws]; cbn; lia. Qed.

(** The running thread's own entry does not count in the queues. *)
Lemma count_delete (g : option pending -> bool) pend self ts : self ∉ ts ->
  count (fun t => g (delete self pend !! t)) ts = count (fun t => g (pend !! t)) ts.
Proof.
  intros H. apply count_ext. intros t Ht. rewrite lookup_delete_ne; [reflexivity|]. intros ->. contradiction.
Qed.
Lemma count_insert (g : option pending -> bool) pend self c ts : self ∉ ts ->
  count (fun t => g (<[self := c]> pend !! t)) ts = count (fun t => g (pend !! t)) ts.
Proof.
  intros H. apply count_ext. intros t Ht. rewrite lookup_insert_ne; [reflexivity|]. intros ->. contradiction.
Qed.

Lemma nodup_out self rs ws ss t : NoDup (self :: rs ++ ws ++ ss) -> t ∈ rs \/ t ∈ ws \/ t ∈ ss -> t <> self.
Proof.
  intros H Ht ->. apply NoDup_cons in H as [H _]. apply H. rewrite !elem_of_app. tauto.
Qed.
Lemma nodup_self self rs ws ss : NoDup (self :: rs ++ ws ++ ss) -> (self ∉ rs) /\ (self ∉ ws) /\ (self ∉ ss).
Proof. intros H. repeat split; intros Hin; apply (nodup_out self rs ws ss self H); auto. Qed.

(** A call by the running thread puts a message into the ring. *)
Lemma waits_sent pend self ms ms' rs ws ss : waits_ok pend self ms rs ws ss ->
  length ms' = S (length ms) -> is_recv (pend !! self) = false ->
  waits_ok (delete self pend) self ms' (woken p rs ws) (tl ws) ss.
Proof.
  intros [H1 HA H2 H3 H4 H5] Hl Hs. destruct (nodup_self _ _ _ _ H1) as (N1 & N2 & N3).
  assert (HN : self ∉ woken p rs ws).
  { apply not_in_woken; assumption. }
  constructor.
  - rewrite woken_places. assumption.
  - rewrite woken_places. assumption.
  - intros t Ht. assert (Ht' : t ∈ ws) by (destruct ws; [assumption|right; assumption]).
    rewrite lookup_delete_ne; [auto|]. apply not_eq_sym. apply (nodup_out self rs ws ss); auto.
  - intros t Ht. rewrite lookup_delete_ne; [auto|]. apply not_eq_sym. apply (nodup_out self rs ws ss); auto.
  - intros Hw. destruct ws as [|w ws]; [contradiction|]. specialize (H4 ltac:(discriminate)).
    unfold recvs in *. cbn [count]. rewrite lookup_delete_eq. cbn [is_recv].
    rewrite count_delete, count_woken by assumption. rewrite (H2 w) by left. cbn [count] in H4. rewrite Hs in H4. lia.
  - intros Hss. specialize (H5 Hss). unfold sends in *. cbn [count] in *. rewrite lookup_delete_eq. cbn [is_send].
    rewrite count_delete, count_woken by assumption.
    destruct (is_send (pend !! self)), ws as [|w ws]; try destruct (is_send (pend !! w)); lia.
Qed.

(** A call by the running thread takes a message out of the ring. *)
Lemma waits_received pend self ms ms' rs ws ss : waits_ok pend self ms rs ws ss ->
  length ms = S (length ms') -> is_send (pend !! self) = false ->
  waits_ok (delete self pend) self ms' (woken p rs ss) ws (tl ss).
Proof.
  intros [H1 HA H2 H3 H4 H5] Hl Hs. destruct (nodup_self _ _ _ _ H1) as (N1 & N2 & N3).
  assert (HN : self ∉ woken p rs ss).
  { apply not_in_woken; assumption. }
  constructor.
  - rewrite (Permutation_app_comm ws), woken_places, (Permutation_app_comm ss). assumption.
  - rewrite (Permutation_app_comm ws), woken_places, (Permutation_app_comm ss). assumption.
  - intros t Ht. rewrite lookup_delete_ne; [auto|]. apply not_eq_sym. apply (nodup_out self rs ws ss); auto.
  - intros t Ht. assert (Ht' : t ∈ ss) by (destruct ss; [assumption|right; assumption]).
    rewrite lookup_delete_ne; [auto|]. apply not_eq_sym. apply (nodup_out self rs ws ss); auto.
  - intros Hw. specialize (H4 Hw). unfold recvs in *. cbn [count] in *. rewrite lookup_delete_eq. cbn [is_recv].
    rewrite count_delete, count_woken by assumption.
    destruct (is_recv (pend !! self)), ss as [|w ss]; try destruct (is_recv (pend !! w)); lia.
  - intros Hss. destruct ss as [|w ss]; [contradiction|]. specialize (H5 ltac:(discriminate)).
    unfold sends in *. cbn [count]. rewrite lookup_delete_eq. cbn [is_send].
    rewrite count_delete, count_woken by assumption. rewrite (H3 w) by left. cbn [count] in H5. rewrite Hs in H5. lia.
Qed.

Lemma park_places (self r : Z) rs ws ss : r :: rs ++ enqueue p self ws ++ ss ≡ₚ self :: (r :: rs) ++ ws ++ ss.
Proof.
  rewrite enqueue_perm. cbn. rewrite <- Permutation_middle. apply Permutation_swap.
Qed.

(** The running thread parks as a receiver on an empty ring. *)
Lemma waits_park_recv pend self dst r rs ws ss : waits_ok pend self [] (r :: rs) ws ss ->
  is_send (pend !! self) = false ->
  waits_ok (<[self := PRecv dst]> pend) r [] rs (enqueue p self ws) ss.
Proof.
  intros [H1 HA H2 H3 H4 H5] Hs. destruct (nodup_self _ _ _ _ H1) as (N1 & N2 & N3). constructor.
  - rewrite park_places. assumption.
  - rewrite park_places. assumption.
  - intros t Ht. rewrite enqueue_perm in Ht. destruct (Z.eq_dec t self) as [->|N].
    + rewrite lookup_insert_eq. reflexivity.
    + rewrite lookup_insert_ne by congruence. apply H2. apply elem_of_cons in Ht as [Ht|Ht]; [contradiction|assumption].
  - intros t Ht. rewrite lookup_insert_ne; [auto|]. apply not_eq_sym. apply (nodup_out self (r :: rs) ws ss); auto.
  - intros _. cbn. lia.
  - intros Hss. specialize (H5 Hss). unfold sends in *. rewrite count_insert by assumption.
    cbn [count] in *. rewrite Hs in H5. lia.
Qed.
(** The running thread parks as a sender on a full ring. *)
Lemma waits_park_send pend self msg ms r rs ws ss : waits_ok pend self ms (r :: rs) ws ss ->
  is_recv (pend !! self) = false -> Z.of_nat (length ms) = cap ->
  waits_ok (<[self := PSend msg]> pend) r ms rs ws (enqueue p self ss).
Proof.
  intros [H1 HA H2 H3 H4 H5] Hs Hl. destruct (nodup_self _ _ _ _ H1) as (N1 & N2 & N3). constructor.
  - rewrite (Permutation_app_comm ws), park_places, (Permutation_app_comm ss). assumption.
  - rewrite (Permutation_app_comm ws), park_places, (Permutation_app_comm ss). assumption.
  - intros t Ht. rewrite lookup_insert_ne; [auto|]. apply not_eq_sym. apply (nodup_out self (r :: rs) ws ss); auto.
  - intros t Ht. rewrite enqueue_perm in Ht. destruct (Z.eq_dec t self) as [->|N].
    + rewrite lookup_insert_eq. reflexivity.
    + rewrite lookup_insert_ne by congruence. apply H3. apply elem_of_cons in Ht as [Ht|Ht]; [contradiction|assumption].
  - intros Hw. specialize (H4 Hw). unfold recvs in *. rewrite count_insert by assumption.
    cbn [count] in *. rewrite Hs in H4. lia.
  - intros _. lia.
Qed.
Lemma waits_resched pend self self' ms rs rs' ws ss : waits_ok pend self ms rs ws ss ->
  self' :: rs' ≡ₚ self :: rs -> waits_ok pend self' ms rs' ws ss.
Proof.
  intros [H1 HA H2 H3 H4 H5] Hp. constructor; try assumption.
  - change (NoDup ((self' :: rs') ++ ws ++ ss)). rewrite Hp. assumption.
  - change ((self' :: rs') ++ ws ++ ss ≡ₚ all). rewrite Hp. assumption.
  - intros Hw. unfold recvs. rewrite (count_perm _ _ _ Hp). auto.
  - intros Hw. unfold sends. rewrite (count_perm _ _ _ Hp). auto.
Qed.
End Waits.

(** * Steps *)

Section System.
Context {Q : Type} `{EQ : ExtQueue Q}.
Context (mq : Z).

(** [g_sent], [g_recv]: the messages accepted and handed out so far. *)
Record gstate := GState {
  g_s : kstate; g_ext : external Q; g_pend : gmap Z pending; g_sent : list Z; g_recv : list Z }.

Definition idle (g : gstate) : Prop := g_pend g !! thread_self (g_s g) = None.
Definition delivered (log : list (drained * QueuedMessage)) : list Z := map qm_mesg (with_fate Delivered log).
Definition ring_head (s : kstate) : Z := load_s32 (msg_slot mq (mq_first mq s) s) (mem s).
(** The message a receive has stored when it completes, read where the guest finds
    it; with no destination it is taken and thrown away. *)
Definition received (dst : Z) (s s' : kstate) : Z :=
  if dst =? NULLPTR then ring_head s else load_s32 (to_off dst) (mem s').
Definition on_success {A} (ret : Z) (l : list A) : list A := if ret =? 0 then l else [].

(** The running thread makes a call or resumes one, and a host thread posts.
    [ok] limits the arguments a caller may pass. *)
Inductive step (ok : pending -> Prop) : gstate -> gstate -> Prop :=
| step_send g msg flags log e1 s1 e' ret s' :
    idle g -> ok (PSend msg) -> dequeue_external_messages (g_ext g) (g_s g) = Some (log, e1, s1) ->
    osSendMesg true mq msg flags (g_ext g) (g_s g) = (e', Done ret s') ->
    step ok g (GState s' e' (g_pend g) (g_sent g ++ delivered log ++ on_success ret [msg]) (g_recv g))
| step_send_parks g msg flags log e1 s1 e' s' :
    idle g -> ok (PSend msg) -> dequeue_external_messages (g_ext g) (g_s g) = Some (log, e1, s1) ->
    osSendMesg true mq msg flags (g_ext g) (g_s g) = (e', Parked s') ->
    step ok g (GState s' e' (<[thread_self (g_s g) := PSend msg]> (g_pend g)) (g_sent g ++ delivered log) (g_recv g))
| step_send_returns g msg ret s' :
    g_pend g !! thread_self (g_s g) = Some (PSend msg) -> osSendMesg_resume false mq msg (g_s g) = Done ret s' ->
    step ok g (GState s' (g_ext g) (delete (thread_self (g_s g)) (g_pend g)) (g_sent g ++ [msg]) (g_recv g))
| step_send_waits g msg s' :
    g_pend g !! thread_self (g_s g) = Some (PSend msg) -> osSendMesg_resume false mq msg (g_s g) = Parked s' ->
    step ok g (GState s' (g_ext g) (g_pend g) (g_sent g) (g_recv g))
| step_recv g dst flags log e1 s1 e' ret s' :
    idle g -> ok (PRecv dst) -> dequeue_external_messages (g_ext g) (g_s g) = Some (log, e1, s1) ->
    osRecvMesg mq dst flags (g_ext g) (g_s g) = (e', Done ret s') ->
    step ok g (GState s' e' (g_pend g) (g_sent g ++ delivered log) (g_recv g ++ on_success ret [received dst s1 s']))
| step_recv_parks g dst flags log e1 s1 e' s' :
    idle g -> ok (PRecv dst) -> dequeue_external_messages (g_ext g) (g_s g) = Some (log, e1, s1) ->
    osRecvMesg mq dst flags (g_ext g) (g_s g) = (e', Parked s') ->
    step ok g (GState s' e' (<[thread_self (g_s g) := PRecv dst]> (g_pend g)) (g_sent g ++ delivered log) (g_recv g))
| step_recv_returns g dst ret s' :
    g_pend g !! thread_self (g_s g) = Some (PRecv dst) -> osRecvMesg_resume mq dst (g_s g) = Done ret s' ->
    step ok g (GState s' (g_ext g) (delete (thread_self (g_s g)) (g_pend g)) (g_sent g) (g_recv g ++ [received dst (g_s g) s']))
| step_recv_waits g dst s' :
    g_pend g !! thread_self (g_s g) = Some (PRecv dst) -> osRecvMesg_resume mq dst (g_s g) = Parked s' ->
    step ok g (GState s' (g_ext g) (g_pend g) (g_sent g) (g_recv g))
| step_post g msg c e' :
    ok (PSend msg) -> post_rcp_event false mq msg c (g_ext g) (g_s g) = (e', Done 0 (g_s g)) ->
    step ok g (GState (g_s g) e' (g_pend g) (g_sent g) (g_recv g)).
End System.
Arguments gstate Q : clear implicits.

Section Invariant.
Context (is_thread : Z -> Prop) (Lay : threads_layout is_thread).
Context (mq buf cap : Z) (ML : mq_layout is_thread mq buf cap).
Context (all : list Z).
Context {Q : Type} `{EQ : ExtQueue Q} `{!ExtQueueLaws Q}.
Abbreviation prio s := (fun t => t_priority t s).
Abbreviation view := (mq_view is_thread mq buf cap).
Abbreviation fields := (same_fields is_thread).

Definition arg_ok (c : pending) : Prop :=
  match c with PSend msg => is_s32 msg | PRecv dst => dst_ok is_thread mq buf cap dst end.
(** What the host posts to this queue. *)
Definition post_ok (m : QueuedMessage) : Prop := qm_mq m = mq /\ qm_jam m = false /\ is_s32 (qm_mesg m).

(** The state of the queue and its threads. *)
Record queue_inv (s : kstate) (pend : gmap Z pending) (ms rs ws ss : list Z) : Prop := {
  qi_view : view s ms rs ws ss;
  qi_self : is_thread (thread_self s);
  qi_ctx : forall t, is_thread t -> t_context t s <> 0;
  qi_waits : waits_ok cap all pend (thread_self s) ms rs ws ss }.
Record sys_inv (g : gstate Q) : Prop := {
  si_queue : exists ms rs ws ss, queue_inv (g_s g) (g_pend g) ms rs ws ss /\ g_sent g = g_recv g ++ ms;
  si_args : forall t c, g_pend g !! t = Some c -> arg_ok c;
  si_ext : Forall post_ok (ext_elems (msgs (g_ext g))) }.

Lemma inv_len s pend ms rs ws ss : queue_inv s pend ms rs ws ss -> Z.of_nat (length ms) <= cap.
Proof. intros H. apply (mi_len _ _ _ _ _ (view_ring _ _ _ _ _ _ _ _ _ (qi_view _ _ _ _ _ _ H))). Qed.

(** ** The running thread's calls *)

Lemma inv_sent s pend ms rs ws ss msg jam block : queue_inv s pend ms rs ws ss -> Z.of_nat (length ms) < cap ->
  is_s32 msg -> is_recv (pend !! thread_self s) = false ->
  exists s' rs' ws', send_resume mq msg jam block s = Done true s' /\ thread_self s' = thread_self s /\
    queue_inv s' (delete (thread_self s) pend) (if jam then msg :: ms else ms ++ [msg]) rs' ws' ss.
Proof.
  intros [HV Hx Hc HW] Hl Hm Hp.
  destruct (send_view is_thread Lay mq buf cap ML s ms rs ws ss msg jam block HV Hl Hm) as (s' & E & HV' & Hs).
  do 3 eexists. split; [exact E|]. split; [apply (same_self _ _ _ Hs)|]. constructor.
  - exact HV'.
  - rewrite (same_self _ _ _ Hs). assumption.
  - intros t Ht. rewrite (same_ctx _ _ _ Hs t Ht). auto.
  - rewrite (same_self _ _ _ Hs). apply (waits_sent cap _ _ _ _ ms); try assumption.
    destruct jam; [reflexivity|]. rewrite length_app. cbn. lia.
Qed.

Lemma inv_received s pend m ms rs ws ss dst block : queue_inv s pend (m :: ms) rs ws ss -> arg_ok (PRecv dst) ->
  is_send (pend !! thread_self s) = false ->
  exists s' rs' ss', do_recv mq dst block s = Done true s' /\ thread_self s' = thread_self s /\ received mq dst s s' = m /\
    queue_inv s' (delete (thread_self s) pend) ms rs' ws ss'.
Proof.
  intros [HV Hx Hc HW] Hd Hp.
  destruct (recv_view is_thread Lay mq buf cap ML s m ms rs ws ss dst block HV Hd) as (s' & E & HV' & Hs & Ed).
  do 3 eexists. split; [exact E|]. split; [apply (same_self _ _ _ Hs)|]. split.
  - unfold received. destruct (Z.eqb_spec dst NULLPTR) as [->|N]; [|exact (Ed N)].
    pose proof (view_ring _ _ _ _ _ _ _ _ _ HV) as HM. pose proof (mi_slot _ _ _ _ _ HM 0%nat m eq_refl) as Em.
    cbn in Em. rewrite Z.add_0_r, Z.mod_small in Em by apply HM.
    unfold ring_head, msg_slot. rewrite (mi_msg _ _ _ _ _ HM). exact Em.
  - constructor.
    + exact HV'.
    + rewrite (same_self _ _ _ Hs). assumption.
    + intros t Ht. rewrite (same_ctx _ _ _ Hs t Ht). auto.
    + rewrite (same_self _ _ _ Hs). apply (waits_received cap _ _ _ _ (m :: ms)); try assumption. reflexivity.
Qed.

Lemma inv_resched s pend ms rs ws ss : queue_inv s pend ms rs ws ss ->
  exists s' rs', check_running_queue s = Some s' /\ queue_inv s' pend ms rs' ws ss.
Proof.
  intros [HV Hx Hc HW].
  destruct (resched_view is_thread Lay mq buf cap ML s ms rs ws ss HV Hx (w_nodup _ _ _ _ _ _ _ _ HW) Hc)
    as (s' & rs' & E & HV' & Hp & Hx' & Hf).
  exists s', rs'. split; [exact E|]. constructor; try assumption.
  - intros t Ht. destruct (Hf t Ht) as [_ ->]. auto.
  - apply (waits_resched cap _ _ (thread_self s) _ _ rs); assumption.
Qed.

(** A parked call, whatever the call was before it parked. *)
Lemma inv_parked_recv s pend rs ws ss dst s' : queue_inv s pend [] rs ws ss -> is_send (pend !! thread_self s) = false ->
  @park bool (blocked_on_recv mq) s = Parked s' ->
  exists rs' ws', queue_inv s' (<[thread_self s := PRecv dst]> pend) [] rs' ws' ss.
Proof.
  intros [HV Hx Hc HW] Hp E. pose proof (w_nodup _ _ _ _ _ _ _ _ HW) as HN. destruct rs as [|r rs].
  - destruct (insert_recv_view is_thread Lay mq buf cap ML s (thread_self s) [] [] ws ss HV Hx) as [_ V2 _ _].
    1-3: cbn in HN; apply NoDup_cons in HN as [HN _]; rewrite elem_of_app in HN; try tauto. 1: apply not_elem_of_nil.
    rewrite park_alone in E; [discriminate|]. apply (chain_head _ _ _ (queue_chain _ _ _ _ V2)).
  - destruct (park_recv_view is_thread Lay mq buf cap ML s [] r rs ws ss HV Hx HN Hc) as (s1 & E1 & HV1 & Hself & Hf).
    rewrite E1 in E. injection E as <-. do 2 eexists. constructor.
    + exact HV1.
    + rewrite Hself. pose proof (queue_threads _ _ _ _ (view_run _ _ _ _ _ _ _ _ _ HV)) as HF.
      apply Forall_cons in HF. apply HF.
    + intros t Ht. destruct (Hf t Ht) as [_ ->]. auto.
    + rewrite Hself. apply waits_park_recv; assumption.
Qed.
Lemma inv_parked_send s pend ms rs ws ss msg s' : queue_inv s pend ms rs ws ss -> is_recv (pend !! thread_self s) = false ->
  Z.of_nat (length ms) = cap -> @park bool (blocked_on_send mq) s = Parked s' ->
  exists rs' ss', queue_inv s' (<[thread_self s := PSend msg]> pend) ms rs' ws ss'.
Proof.
  intros [HV Hx Hc HW] Hp Hl E. pose proof (w_nodup _ _ _ _ _ _ _ _ HW) as HN. destruct rs as [|r rs].
  - destruct (insert_send_view is_thread Lay mq buf cap ML s (thread_self s) ms [] ws ss HV Hx) as [_ V2 _ _].
    1-3: cbn in HN; apply NoDup_cons in HN as [HN _]; rewrite elem_of_app in HN; try tauto. 1: apply not_elem_of_nil.
    rewrite park_alone in E; [discriminate|]. apply (chain_head _ _ _ (queue_chain _ _ _ _ V2)).
  - destruct (park_send_view is_thread Lay mq buf cap ML s ms r rs ws ss HV Hx HN Hc) as (s1 & E1 & HV1 & Hself & Hf).
    rewrite E1 in E. injection E as <-. do 2 eexists. constructor.
    + exact HV1.
    + rewrite Hself. pose proof (queue_threads _ _ _ _ (view_run _ _ _ _ _ _ _ _ _ HV)) as HF.
      apply Forall_cons in HF. apply HF.
    + intros t Ht. destruct (Hf t Ht) as [_ ->]. auto.
    + rewrite Hself. apply waits_park_send; assumption.
Qed.

Abbreviation inv s pend ms := (exists rs ws ss, queue_inv s pend ms rs ws ss).

Lemma inv_send s pend ms msg block : inv s pend ms -> is_s32 msg -> is_recv (pend !! thread_self s) = false ->
  match send_resume mq msg false block s with
  | Done true s' => thread_self s' = thread_self s /\ inv s' (delete (thread_self s) pend) (ms ++ [msg])
  | Done false s' => s' = s /\ block = false
  | Parked s' => inv s' (<[thread_self s := PSend msg]> pend) ms
  | Fault => True
  end.
Proof.
  intros (rs & ws & ss & HI) Hm Hp. pose proof (inv_len _ _ _ _ _ _ HI) as Hl.
  destruct (Z.eq_dec (Z.of_nat (length ms)) cap) as [E|N].
  - unfold send_resume. rewrite (full_iff _ _ _ _ _ (view_ring _ _ _ _ _ _ _ _ _ (qi_view _ _ _ _ _ _ HI))).
    destruct (Z.geb_spec (Z.of_nat (length ms)) cap); [|lia]. destruct block; [|auto].
    destruct (park (blocked_on_send mq) s) eqn:Ep; try exact I.
    + unfold park in Ep. destruct (run_next_thread_and_wait _) in Ep; discriminate.
    + destruct (inv_parked_send _ _ _ _ _ _ msg _ HI Hp E Ep) as (rs' & ss' & HI'). eauto.
  - destruct (inv_sent s pend ms rs ws ss msg false block HI ltac:(lia) Hm Hp) as (s' & rs' & ws' & -> & Hself & H).
    eauto.
Qed.

Lemma inv_do_send s pend ms msg jam block : inv s pend ms -> do_send mq msg jam block s = send_resume mq msg jam block s.
Proof.
  intros (rs & ws & ss & HI). unfold do_send.
  rewrite (send_guard_ok is_thread mq buf cap ML s ms); [reflexivity|]. apply (qi_view _ _ _ _ _ _ HI).
Qed.

Lemma inv_recv s pend ms dst block : inv s pend ms -> arg_ok (PRecv dst) -> is_send (pend !! thread_self s) = false ->
  match do_recv mq dst block s with
  | Done true s' => thread_self s' = thread_self s /\
      exists ms', ms = received mq dst s s' :: ms' /\ inv s' (delete (thread_self s) pend) ms'
  | Done false s' => s' = s /\ block = false
  | Parked s' => inv s' (<[thread_self s := PRecv dst]> pend) ms
  | Fault => True
  end.
Proof.
  intros (rs & ws & ss & HI) Hd Hp. destruct ms as [|m ms].
  - unfold do_recv. rewrite (empty_iff _ _ _ _ _ (view_ring _ _ _ _ _ _ _ _ _ (qi_view _ _ _ _ _ _ HI))).
    destruct block; [|auto]. destruct (park (blocked_on_recv mq) s) eqn:Ep; try exact I.
    + unfold park in Ep. destruct (run_next_thread_and_wait _) in Ep; discriminate.
    + destruct (inv_parked_recv _ _ _ _ _ dst _ HI Hp Ep) as (rs' & ws' & H). eauto.
  - destruct (inv_received s pend m ms rs ws ss dst block HI Hd Hp) as (s' & rs' & ss' & -> & Hself & Eh & H).
    split; [assumption|]. exists ms. split; [congruence|]. eauto.
Qed.

(** ** The drain *)

Lemma inv_drain fuel e s pend ms log e' s' : inv s pend ms -> pend !! thread_self s = None ->
  Forall post_ok (ext_elems (msgs e)) -> drain fuel e s = Some (log, e', s') ->
  inv s' pend (ms ++ delivered log) /\ thread_self s' = thread_self s /\ Forall post_ok (ext_elems (msgs e')).
Proof.
  revert e s ms log. induction fuel as [|fuel IH]; intros e s ms log HI Hn HF; [discriminate|]. cbn [drain].
  destruct (try_dequeue e) as [[m e1]|] eqn:E.
  2: { intros [= <- <- <-]. cbn. rewrite app_nil_r. auto. }
  apply try_dequeue_elems in E as [E _]. rewrite E in HF. apply Forall_cons in HF as [[Em [Ej Hm]] HF].
  rewrite Em, Ej, (inv_do_send _ _ _ _ _ _ HI).
  assert (Hp : is_recv (pend !! thread_self s) = false) by (rewrite Hn; reflexivity).
  pose proof (inv_send s pend ms (qm_mesg m) false HI Hm Hp) as HS.
  destruct (send_resume mq (qm_mesg m) false false s) as [[] s1|s1|]; [| |discriminate..].
  - destruct HS as [Hself HI1]. rewrite delete_id in HI1 by assumption.
    destruct (drain fuel e1 s1) as [[[log1 e2] s2]|] eqn:Er; [|discriminate]. intros [= <- <- <-].
    destruct (IH e1 s1 (ms ++ [qm_mesg m]) log1 HI1 ltac:(congruence) HF Er) as (H1 & H2 & H3).
    split; [|split; [congruence|assumption]]. rewrite <- app_assoc in H1. exact H1.
  - destruct HS as [-> _]. destruct (qm_coalescible m).
    + destruct (drain fuel e1 s) as [[[log1 e2] s2]|] eqn:Er; [|discriminate]. intros [= <- <- <-].
      apply (IH e1 s ms log1 HI Hn HF Er).
    + intros [= <- <- <-]. split; [cbn; rewrite app_nil_r; assumption|]. split; [reflexivity|].
      cbn. rewrite ext_enqueue_elems. constructor; [|assumption]. split; [assumption|]. split; assumption.
Qed.

(** ** Every step keeps the invariant *)

Lemma inv_finish o ret s' : finish o = Done ret s' ->
  exists sent s, o = Done sent s /\ check_running_queue s = Some s' /\ ret = (if sent then 0 else -1).
Proof.
  destruct o as [sent s|s|]; cbn; try discriminate.
  destruct (check_running_queue s) eqn:E; [|discriminate]. intros [= <- <-]. eauto.
Qed.
Lemma inv_finish_parked o s' : finish o = Parked s' -> o = Parked s'.
Proof.
  destruct o as [sent s|s|]; cbn; try discriminate; [|congruence]. destruct (check_running_queue s); discriminate.
Qed.
Lemma inv_after s pend ms s' : inv s pend ms -> check_running_queue s = Some s' -> inv s' pend ms.
Proof.
  intros (rs & ws & ss & HI) E. destruct (inv_resched _ _ _ _ _ _ HI) as (s1 & rs' & E1 & H).
  rewrite E1 in E. injection E as <-. eauto.
Qed.

(** The message is still at its destination when the call has rescheduled. *)
Lemma received_after s0 s s' dst pend ms : inv s pend ms -> arg_ok (PRecv dst) -> check_running_queue s = Some s' ->
  received mq dst s0 s = received mq dst s0 s'.
Proof.
  intros (rs & ws & ss & [HV Hx _ HW]) Hd E. unfold received. destruct (Z.eqb_spec dst NULLPTR) as [_|N]; [reflexivity|].
  symmetry. apply (resched_word is_thread Lay mq buf cap s s' (to_off dst) ms rs ws ss); try assumption; [apply HW|].
  destruct Hd as [->|(_ & _ & Hd)]; [contradiction|exact Hd].
Qed.

(** A call of the running thread, made ([pend] has no entry) or resumed. *)
Lemma inv_send_done s pend ms msg block ret s' : inv s pend ms -> is_s32 msg -> is_recv (pend !! thread_self s) = false ->
  finish (send_resume mq msg false block s) = Done ret s' ->
  (ret = 0 /\ inv s' (delete (thread_self s) pend) (ms ++ [msg])) \/ (ret = -1 /\ block = false /\ inv s' pend ms).
Proof.
  intros HI Hm Hp E. pose proof (inv_send s pend ms msg block HI Hm Hp) as HS.
  apply inv_finish in E as ([] & s1 & E1 & E2 & ->); rewrite E1 in HS.
  - left. split; [reflexivity|]. apply (inv_after s1); [apply HS|assumption].
  - destruct HS as [-> Hb]. right. split; [reflexivity|]. split; [assumption|]. apply (inv_after s); assumption.
Qed.
Lemma inv_send_parked s pend ms msg block s' : inv s pend ms -> is_s32 msg -> is_recv (pend !! thread_self s) = false ->
  finish (send_resume mq msg false block s) = Parked s' -> inv s' (<[thread_self s := PSend msg]> pend) ms.
Proof.
  intros HI Hm Hp E. pose proof (inv_send s pend ms msg block HI Hm Hp) as HS.
  apply inv_finish_parked in E. rewrite E in HS. exact HS.
Qed.
Lemma inv_recv_done s pend ms dst block ret s' : inv s pend ms -> arg_ok (PRecv dst) -> is_send (pend !! thread_self s) = false ->
  finish (do_recv mq dst block s) = Done ret s' ->
  (ret = 0 /\ exists ms', ms = received mq dst s s' :: ms' /\ inv s' (delete (thread_self s) pend) ms') \/
  (ret = -1 /\ block = false /\ inv s' pend ms).
Proof.
  intros HI Hm Hp E. pose proof (inv_recv s pend ms dst block HI Hm Hp) as HS.
  apply inv_finish in E as ([] & s1 & E1 & E2 & ->); rewrite E1 in HS.
  - left. split; [reflexivity|]. destruct HS as (_ & ms' & -> & H). exists ms'.
    rewrite (received_after s s1 s' dst _ ms' H Hm E2). split; [reflexivity|]. apply (inv_after s1); assumption.
  - destruct HS as [-> Hb]. right. split; [reflexivity|]. split; [assumption|]. apply (inv_after s); assumption.
Qed.
Lemma inv_recv_parked s pend ms dst block s' : inv s pend ms -> arg_ok (PRecv dst) -> is_send (pend !! thread_self s) = false ->
  finish (do_recv mq dst block s) = Parked s' -> inv s' (<[thread_self s := PRecv dst]> pend) ms.
Proof.
  intros HI Hm Hp E. pose proof (inv_recv s pend ms dst block HI Hm Hp) as HS.
  apply inv_finish_parked in E. rewrite E in HS. exact HS.
Qed.

Lemma sys_inv_of g ms : inv (g_s g) (g_pend g) ms -> g_sent g = g_recv g ++ ms ->
  (forall t c, g_pend g !! t = Some c -> arg_ok c) -> Forall post_ok (ext_elems (msgs (g_ext g))) -> sys_inv g.
Proof. intros (rs & ws & ss & H) E Ha He. constructor; try assumption. exists ms, rs, ws, ss. auto. Qed.

Lemma args_insert (pend : gmap Z pending) t0 c0 : arg_ok c0 -> (forall t c, pend !! t = Some c -> arg_ok c) ->
  forall t c, <[t0 := c0]> pend !! t = Some c -> arg_ok c.
Proof. intros H0 H t c E. apply lookup_insert_Some in E as [[_ <-]|[_ E]]; eauto. Qed.
Lemma args_delete (pend : gmap Z pending) t0 : (forall t c, pend !! t = Some c -> arg_ok c) ->
  forall t c, delete t0 pend !! t = Some c -> arg_ok c.
Proof. intros H t c E. apply lookup_delete_Some in E as [_ E]. eauto. Qed.

Lemma step_inv g g' : sys_inv g -> step mq arg_ok g g' -> sys_inv g'.
Proof.
  intros [(ms & rs & ws & ss & HI & Hh) Ha He] HS.
  assert (HI' : inv (g_s g) (g_pend g) ms) by eauto. clear HI rs ws ss.
  destruct HS as [g msg flags log e1 s1 e' ret s' Hid Hok Hd HC|g msg flags log e1 s1 e' s' Hid Hok Hd HC
    |g msg ret s' Hp HC|g msg s' Hp HC
    |g dst flags log e1 s1 e' ret s' Hid Hok Hd HC|g dst flags log e1 s1 e' s' Hid Hok Hd HC
    |g dst ret s' Hp HC|g dst s' Hp HC|g msg c e' Hok HC].
  1, 2, 5, 6: (unfold osSendMesg, send_call, osRecvMesg in HC; cbn [negb] in HC; rewrite Hd in HC; injection HC as <- HC;
    destruct (inv_drain _ _ _ _ _ _ _ _ HI' Hid He Hd) as (HI1 & Hself & He1);
    assert (Hid1 : g_pend g !! thread_self s1 = None) by (rewrite Hself; exact Hid);
    try rewrite (inv_do_send _ _ _ _ _ _ HI1) in HC).
  - eapply inv_send_done in HC; [|exact HI1|exact Hok|rewrite Hid1; reflexivity].
    rewrite delete_id in HC by assumption. destruct HC as [[-> HI2]|(-> & _ & HI2)].
    + apply (sys_inv_of _ ((ms ++ delivered log) ++ [msg])); try assumption. cbn. rewrite Hh, !app_assoc. reflexivity.
    + apply (sys_inv_of _ (ms ++ delivered log)); try assumption. cbn. rewrite Hh, app_nil_r, app_assoc. reflexivity.
  - eapply inv_send_parked in HC; [|exact HI1|exact Hok|rewrite Hid1; reflexivity]. rewrite Hself in HC.
    apply (sys_inv_of _ (ms ++ delivered log)); try assumption; cbn; [rewrite Hh, app_assoc; reflexivity|].
    apply args_insert; assumption.
  - eapply inv_recv_done in HC; [|exact HI1|exact Hok|rewrite Hid1; reflexivity].
    rewrite delete_id in HC by assumption. destruct HC as [(-> & ms' & Em & HI2)|(-> & _ & HI2)].
    + apply (sys_inv_of _ ms'); try assumption. cbn. rewrite Hh, <- !app_assoc. cbn. rewrite <- Em. reflexivity.
    + apply (sys_inv_of _ (ms ++ delivered log)); try assumption. cbn. rewrite Hh, app_nil_r, app_assoc. reflexivity.
  - eapply inv_recv_parked in HC; [|exact HI1|exact Hok|rewrite Hid1; reflexivity]. rewrite Hself in HC.
    apply (sys_inv_of _ (ms ++ delivered log)); try assumption; cbn; [rewrite Hh, app_assoc; reflexivity|].
    apply args_insert; assumption.
  - eapply inv_send_done in HC; [|exact HI'|apply (Ha _ _ Hp)|rewrite Hp; reflexivity].
    destruct HC as [[-> HI2]|(_ & Hb & _)]; [|discriminate].
    apply (sys_inv_of _ (ms ++ [msg])); try assumption; cbn; [rewrite Hh, app_assoc; reflexivity|].
    apply args_delete. assumption.
  - eapply inv_send_parked in HC; [|exact HI'|apply (Ha _ _ Hp)|rewrite Hp; reflexivity].
    rewrite insert_id in HC by assumption. apply (sys_inv_of _ ms); assumption.
  - eapply inv_recv_done in HC; [|exact HI'|apply (Ha _ _ Hp)|rewrite Hp; reflexivity].
    destruct HC as [(-> & ms' & Em & HI2)|(_ & Hb & _)]; [|discriminate].
    apply (sys_inv_of _ ms'); try assumption; cbn; [rewrite Hh, Em, <- app_assoc; reflexivity|].
    apply args_delete. assumption.
  - eapply inv_recv_parked in HC; [|exact HI'|apply (Ha _ _ Hp)|rewrite Hp; reflexivity].
    rewrite insert_id in HC by assumption. apply (sys_inv_of _ ms); assumption.
  - unfold post_rcp_event in HC. injection HC as <-. apply (sys_inv_of _ ms); try assumption. cbn.
    rewrite ext_enqueue_elems. constructor; [|assumption]. split; [reflexivity|]. split; [reflexivity|exact Hok].
Qed.

Definition reachable (g g' : gstate Q) : Prop := rtc (step mq arg_ok) g g'.
Lemma reachable_inv g g' : sys_inv g -> reachable g g' -> sys_inv g'.
Proof. intros H R. induction R as [|g g1 g2 S R IH]; [assumption|]. apply IH, (step_inv g); assumption. Qed.

(** The queue as created, nothing posted, no call under way; [all] are the threads. *)
Record initial (g : gstate Q) : Prop := {
  in_view : exists rs, view (g_s g) [] rs [] [] /\ NoDup (thread_self (g_s g) :: rs) /\ thread_self (g_s g) :: rs ≡ₚ all;
  in_self : is_thread (thread_self (g_s g));
  in_ctx : forall t, is_thread t -> t_context t (g_s g) <> 0;
  in_pend : g_pend g = ∅; in_sent : g_sent g = []; in_recv : g_recv g = [];
  in_ext : ext_elems (msgs (g_ext g)) = [] }.
Lemma initial_inv g : initial g -> sys_inv g.
Proof.
  intros [(rs & HV & HN & HA) Hx Hc Hp Hs Hr He]. constructor.
  - exists [], rs, [], []. rewrite Hs, Hr, Hp. split; [|reflexivity]. constructor; try assumption.
    constructor; [rewrite !app_nil_r; assumption|rewrite !app_nil_r; assumption|intros t Ht; apply elem_of_nil in Ht; contradiction
      |intros t Ht; apply elem_of_nil in Ht; contradiction|congruence|congruence].
  - intros t c. rewrite Hp, lookup_empty. discriminate.
  - rewrite He. constructor.
Qed.

(** C2: From a fresh queue, however threads send, receive, block and resume and the host
    posts, the messages sent are those that the receivers found at their destinations in
    guest memory, in order, followed by those still in the ring; and the ring never exceeds
    its capacity. *)
Theorem messages_in_order g g' : initial g -> reachable g g' ->
  exists ms, mq_is mq buf cap (g_s g') ms /\ g_sent g' = g_recv g' ++ ms /\ Z.of_nat (length ms) <= cap.
Proof.
  intros H0 HR. destruct (reachable_inv g g' (initial_inv g H0) HR) as [(ms & rs & ws & ss & HI & Hh) _ _].
  exists ms. split; [apply (qi_view _ _ _ _ _ _ HI)|]. split; [assumption|]. apply (inv_len _ _ _ _ _ _ HI).
Qed.

(** C3: In every reachable state each thread of the start is running, ready or waiting
    exactly once, and waits in the call of the queue that holds it; while a thread waits to
    receive and a message is there, or waits to send and there is room, some running or
    ready thread is about to do the matching operation. *)
Theorem no_lost_wakeup g g' : initial g -> reachable g g' ->
  let s := g_s g' in
  exists ms rs ws ss, mq_view is_thread mq buf cap s ms rs ws ss /\
    thread_self s :: rs ++ ws ++ ss ≡ₚ all /\ NoDup all /\
    (forall t, t ∈ ws -> is_recv (g_pend g' !! t) = true) /\ (forall t, t ∈ ss -> is_send (g_pend g' !! t) = true) /\
    (ws <> [] -> ms <> [] -> exists t, t ∈ thread_self s :: rs /\ is_recv (g_pend g' !! t) = true) /\
    (ss <> [] -> Z.of_nat (length ms) < cap -> exists t, t ∈ thread_self s :: rs /\ is_send (g_pend g' !! t) = true).
Proof.
  intros H0 HR. cbv zeta. destruct (reachable_inv g g' (initial_inv g H0) HR) as [(ms & rs & ws & ss & HI & Hh) _ _].
  destruct (qi_waits _ _ _ _ _ _ HI) as [H1 HA H2 H3 H4 H5].
  exists ms, rs, ws, ss. split; [apply HI|]. split; [assumption|]. split; [rewrite <- HA; assumption|].
  split; [assumption|]. split; [assumption|]. split.
  - intros Hw Hm. apply (count_pos (fun t => is_recv (g_pend g' !! t))). specialize (H4 Hw). unfold recvs in H4.
    destruct ms; [contradiction|]. cbn [length] in H4. lia.
  - intros Hw Hm. apply (count_pos (fun t => is_send (g_pend g' !! t))). specialize (H5 Hw). unfold sends in H5. lia.
Qed.
End Invariant.
