(* ===== verification/SampleMesg.v ===== *)
(** The theorems about message queues on the sample guest: a queue of two
    slots, sent to and received from. *)

From S2P Require Import Prelude GuestMem Kernel KernelSpec MesgQueue MesgQueueSpec MesgSystem.
From Stdlib Require Import ZArith Lia Bool List.
From stdpp Require Import base list gmap relations.
Open Scope Z_scope.

Definition sample_mq : Z := 0x80004000 - 4294967296.
Definition sample_buf : Z := 0x80005000 - 4294967296.
Definition queue_state : kstate := osCreateMesgQueue sample_mq sample_buf 2 sample_state.
(** The same queue with both slots taken. *)
Definition full_state : kstate := ring_push sample_mq 8 (ring_push sample_mq 7 queue_state).

Lemma sample_mq_layout : mq_layout sample_thread sample_mq sample_buf 2.
Proof.
  constructor.
  - split; [unfold is_s32, sample_mq; lia|reflexivity].
  - split; [unfold is_s32, sample_buf; lia|reflexivity].
  - lia.
  - unfold apart, to_off, sample_mq, sample_buf. lia.
  - intros t [->|[->| ->]]; unfold apart, to_off, sample_mq, thread_a, thread_b, thread_c; lia.
  - intros t [->|[->| ->]]; unfold apart, to_off, sample_buf, thread_a, thread_b, thread_c; lia.
Qed.

Lemma sample_queue_is q ts : queue_cell sample_thread q -> (forall t, t ∈ ts -> sample_thread t) -> NoDup ts ->
  chain queue_state (queue_to_ptr q) ts -> (forall t, t ∈ ts -> t_queue t queue_state = q) ->
  queue_is sample_thread queue_state q ts.
Proof. intros H1 H2 H3 H4 H5. constructor; try assumption. rewrite Forall_forall. assumption. Qed.

Lemma mq_cell k : k = 0 \/ k = 4 -> queue_cell sample_thread (s32 (sample_mq + k)).
Proof.
  intros Hk. assert (E : s32 (sample_mq + k) = sample_mq + k) by (apply s32_small; unfold is_s32, sample_mq; lia).
  rewrite E. split; [unfold is_s32, sample_mq; lia|]. intros t Ht. unfold queue_to_ptr.
  destruct (Z.eqb_spec (sample_mq + k) running_queue); [exact I|].
  destruct Ht as [->|[->| ->]]; cbn; unfold apart, to_off, sample_mq, thread_a, thread_b, thread_c; lia.
Qed.

Lemma sample_view : mq_view sample_thread sample_mq sample_buf 2 queue_state [] [thread_b; thread_c] [] [].
Proof.
  constructor.
  - constructor.
    + vm_compute. reflexivity.
    + vm_compute. reflexivity.
    + split; [vm_compute; discriminate|vm_compute; reflexivity].
    + vm_compute. reflexivity.
    + cbn. lia.
    + intros i m Hi. discriminate.
  - apply sample_queue_is; [exact sample_cell| | |vm_compute; auto|].
    + intros t. rewrite !elem_of_cons, elem_of_nil. unfold sample_thread. tauto.
    + apply sample_running.
    + intros t. rewrite !elem_of_cons, elem_of_nil. intros [->|[->|[]]]; vm_compute; reflexivity.
  - apply sample_queue_is; [apply (mq_cell 0); auto| |constructor|vm_compute; reflexivity|];
      intros t Ht; apply elem_of_nil in Ht; contradiction.
  - apply sample_queue_is; [apply (mq_cell 4); auto| |constructor|vm_compute; reflexivity|];
      intros t Ht; apply elem_of_nil in Ht; contradiction.
Qed.

Lemma do_send_refines_witness :
  exists s', do_send sample_mq 7 false false queue_state = Done true s' /\
    mq_view sample_thread sample_mq sample_buf 2 s' [7] [thread_b; thread_c] [] [].
Proof.
  exact (do_send_refines sample_thread sample_layout sample_mq sample_buf 2 sample_mq_layout queue_state
    [] [thread_b; thread_c] [] [] 7 false sample_view ltac:(unfold is_s32; lia)).
Defined.
Lemma do_recv_refines_witness :
  exists s s', do_recv sample_mq NULLPTR false s = Done true s' /\
    mq_view sample_thread sample_mq sample_buf 2 s' [] [thread_b; thread_c] [] [].
Proof.
  destruct (send_view sample_thread sample_layout sample_mq sample_buf 2 sample_mq_layout queue_state
    [] [thread_b; thread_c] [] [] 7 false false sample_view ltac:(cbn; lia) ltac:(unfold is_s32; lia)) as (s & _ & HV & _).
  destruct (do_recv_refines sample_thread sample_layout sample_mq sample_buf 2 sample_mq_layout s [7]
    [thread_b; thread_c] [] [] NULLPTR HV (or_introl eq_refl)) as (s' & E & HV' & _).
  exists s, s'. split; [exact E|exact HV'].
Defined.
Lemma do_send_in_bounds_witness :
  0 <= Z.rem (mq_first sample_mq queue_state + mq_validCount sample_mq queue_state) (mq_msgCount sample_mq queue_state)
    < mq_msgCount sample_mq queue_state.
Proof.
  refine (proj1 (do_send_in_bounds sample_mq queue_state _ _)); [unfold is_s32, sample_mq; lia|vm_compute; reflexivity].
Defined.

(** * Messages from the host *)

Definition sample_ext (ms : list QueuedMessage) : external (list QueuedMessage) := Ext ms (Z.of_nat (length ms)).
Definition reliable : QueuedMessage := Queued sample_mq 9 false false.

Lemma external_pending_counts_witness :
  external_message_pending (sample_ext [reliable]) = true.
Proof.
  exact (proj1 (external_pending_counts (sample_ext [reliable]) full_state 0 0 false false eq_refl ltac:(cbn; lia))).
Defined.
Lemma wait_external_drops_reliable_witness :
  wait_for_external_message (sample_ext [reliable]) full_state = Some (Ext [] 0, full_state).
Proof.
  refine (proj1 (wait_external_drops_reliable (sample_ext [reliable]) (Ext [] 0) reliable full_state _ _ _));
    [reflexivity|reflexivity|right; vm_compute; reflexivity].
Defined.

(** * The system *)

Definition sample_g0 : gstate (list QueuedMessage) := GState queue_state (sample_ext []) ∅ [] [].
(** [thread_a] sends 7 and gives way to [thread_b],
    which finds it at 0x80006000. *)
Definition sample_dst : Z := 0x80006000 - 4294967296.
Definition sent_state : kstate :=
  match osSendMesg true sample_mq 7 0 (sample_ext []) queue_state with (_, Done _ s) => s | _ => queue_state end.
Definition received_state : kstate :=
  match osRecvMesg sample_mq sample_dst 1 (sample_ext []) sent_state with (_, Done _ s) => s | _ => queue_state end.
Definition sample_g1 : gstate (list QueuedMessage) := GState sent_state (sample_ext []) ∅ [7] [].
Definition sample_g2 : gstate (list QueuedMessage) := GState received_state (sample_ext []) ∅ [7] [7].
Definition sample_threads : list Z := [thread_a; thread_b; thread_c].

Lemma sample_initial : initial sample_thread sample_mq sample_buf 2 sample_threads sample_g0.
Proof.
  constructor; try reflexivity.
  - exists [thread_b; thread_c]. split; [exact sample_view|]. split; [refine (bool_decide_unpack _ _); vm_compute; exact I|].
    assert (thread_self (g_s sample_g0) = thread_a) as -> by (vm_compute; reflexivity). reflexivity.
  - left. vm_compute. reflexivity.
  - intros t [->|[->| ->]]; vm_compute; discriminate.
Qed.
Lemma sample_dst_ok : dst_ok sample_thread sample_mq sample_buf 2 sample_dst.
Proof.
  right. unfold apart, to_off, sample_dst, sample_mq, sample_buf. split; [lia|]. split; [lia|].
  intros t [->|[->| ->]]; unfold thread_a, thread_b, thread_c; lia.
Qed.
Lemma sample_reachable : reachable sample_thread sample_mq sample_buf 2 sample_g0 sample_g2.
Proof.
  apply (rtc_l _ _ sample_g1); [|apply (rtc_l _ _ sample_g2); [|apply rtc_refl]].
  - refine (step_send sample_mq _ sample_g0 7 0 [] (sample_ext []) queue_state (sample_ext []) 0 sent_state _ _ _ _).
    + reflexivity.
    + cbn. unfold is_s32. lia.
    + vm_compute. reflexivity.
    + vm_compute. reflexivity.
  - assert (E : sample_g2 = GState received_state (sample_ext []) ∅ (g_sent sample_g1 ++ delivered [])
      (g_recv sample_g1 ++ on_success 0 [received sample_mq sample_dst sent_state received_state])) by (vm_compute; reflexivity).
    rewrite E.
    refine (step_recv sample_mq _ sample_g1 sample_dst 1 [] (sample_ext []) sent_state (sample_ext []) 0 received_state _ _ _ _).
    + reflexivity.
    + exact sample_dst_ok.
    + vm_compute. reflexivity.
    + vm_compute. reflexivity.
Qed.

Lemma messages_in_order_witness :
  exists ms, mq_is sample_mq sample_buf 2 (g_s sample_g2) ms /\ g_sent sample_g2 = g_recv sample_g2 ++ ms /\ Z.of_nat (length ms) <= 2.
Proof.
  exact (messages_in_order sample_thread sample_layout sample_mq sample_buf 2 sample_mq_layout sample_threads
    sample_g0 sample_g2 sample_initial sample_reachable).
Defined.
Lemma no_lost_wakeup_witness :
  exists ms rs ws ss, mq_view sample_thread sample_mq sample_buf 2 (g_s sample_g2) ms rs ws ss /\
    thread_self (g_s sample_g2) :: rs ++ ws ++ ss ≡ₚ sample_threads.
Proof.
  destruct (no_lost_wakeup sample_thread sample_layout sample_mq sample_buf 2 sample_mq_layout sample_threads
    sample_g0 sample_g2 sample_initial sample_reachable) as (ms & rs & ws & ss & H1 & H2 & _).
  exists ms, rs, ws, ss. split; [exact H1|exact H2].
Defined.
Lemma drain_keeps_reliable_witness :
  exists log e' s', dequeue_external_messages (sample_ext [reliable]) full_state = Some (log, e', s') /\
    [reliable] ≡ₚ with_fate Delivered log ++ with_fate Dropped log ++ msgs e'.
Proof.
  destruct (drain_keeps_reliable (sample_ext [reliable]) full_state) as (log & e' & s' & E & H & _).
  exists log, e', s'. split; [exact E|exact H].
Defined.
