(* ===== verification/GbCart.v ===== *)
(** The Transfer Pak: librecomp/src/gbcart.cpp.

    A Game Boy cartridge (MBC1, MBC3, MBC5 or none) with battery RAM kept in a
    save file, behind the enable, bank and status registers of the accessory,
    on each of four ports.  Bytes are integers of [0,256).  The files are a map
    from paths to contents; an absent file reads as empty, and whether a path
    can be written is a parameter.  The diagnostic ring is left out. *)

From S2P Require Import Prelude Bytes.
From Stdlib Require Import ZArith Lia Bool List String.
From stdpp Require Import base list strings gmap.
Open Scope Z_scope.

Definition block_size : Z := 32.
Definition port_count : Z := 4.
Definition pfs_err_no_pak : Z := 1.
Definition pfs_err_invalid : Z := 5.
Definition transfer_pak_address_mask : Z := 0x7FFF.
Definition transfer_pak_cart_window : Z := 0x4000.

Inductive Mbc := RomOnly | Mbc1 | Mbc3 | Mbc5 | Unsupported.
#[export] Instance mbc_eq_dec : EqDecision Mbc.
Proof. solve_decision. Defined.
Definition is_mbc (a b : Mbc) : bool := bool_decide (a = b).

Abbreviation files := (gmap string (list Z)).
Definition read_file (path : string) (fs : files) : list Z := default [] (fs !! path).

Definition header_ram_size (code : Z) : Z :=
  if code =? 1 then 2 * 1024 else if code =? 2 then 8 * 1024 else if code =? 3 then 32 * 1024
  else if code =? 4 then 128 * 1024 else if code =? 5 then 64 * 1024 else 0.


(** * The cartridge *)

Record Cartridge := Cart {
  rom_path : string; save_path : string; rom : list Z; ram : list Z; rom_open_bus_start : Z; mbc : Mbc;
  ram_enabled : bool; dirty : bool; rom_bank_low : Z; bank_high : Z; ram_bank : Z; mbc1_mode : Z; mbc5_rom_bank : Z }.

Definition new_cart : Cartridge := Cart "" "" [] [] 0 Unsupported false false 1 0 0 0 1.

(** [find_if] from the end: how many bytes precede the trailing zeroes, and
    whether any byte is left. *)
Fixpoint last_programmed (rev_rom : list Z) : option Z :=
  match rev_rom with
  | [] => None
  | b :: l => if b =? 0 then last_programmed l else Some (vec_size (b :: l))
  end.
Definition open_bus_start (rom : list Z) : Z :=
  match last_programmed (rev rom) with
  | Some n => if vec_size rom - n >=? 0x4000 then n else vec_size rom
  | None => vec_size rom
  end.

Definition cart_mbc (type : Z) : Mbc :=
  if (type =? 0x00) || (type =? 0x08) || (type =? 0x09) then RomOnly
  else if (0x01 <=? type) && (type <=? 0x03) then Mbc1
  else if (0x0F <=? type) && (type <=? 0x13) then Mbc3
  else if (0x19 <=? type) && (type <=? 0x1E) then Mbc5
  else Unsupported.

(** [vector::resize] with a fill byte, when it grows. *)
Definition grow (l : list Z) (n : Z) : list Z := l ++ replicate (Z.to_nat (n - vec_size l)) 0xFF.

Definition load (configured_rom configured_save : string) (fs : files) (c : Cartridge) : Cartridge * bool :=
  let rom := read_file configured_rom fs in
  let with_rom := fun start kind ram => Cart configured_rom configured_save rom ram start kind
    (ram_enabled c) (dirty c) (rom_bank_low c) (bank_high c) (ram_bank c) (mbc1_mode c) (mbc5_rom_bank c) in
  if vec_size rom <? 0x150 then (with_rom (vec_size rom) (mbc c) (ram c), false)
  else
    let start := open_bus_start rom in
    match cart_mbc (byte_at rom 0x147) with
    | Unsupported => (with_rom start (mbc c) (ram c), false)
    | kind =>
        let saved := if negb (String.eqb configured_save "") then read_file configured_save fs else ram c in
        let declared_ram := header_ram_size (byte_at rom 0x149) in
        (with_rom start kind (if vec_size saved <? declared_ram then grow saved declared_ram else saved), true)
    end.

Definition rom_index (c : Cartridge) (bank address_in_bank : Z) : Z :=
  if vec_size (rom c) =? 0 then 0
  else
    let banks := (vec_size (rom c) + 0x3FFF) / 0x4000 in
    bank mod banks * 0x4000 + address_in_bank.

Definition selected_switchable_rom_bank (c : Cartridge) : Z :=
  if is_mbc (mbc c) Mbc5 then mbc5_rom_bank c
  else if is_mbc (mbc c) Mbc1 then
    let bank := Z.lor (Z.land (rom_bank_low c) 0x1F) (Z.shiftl (Z.land (bank_high c) 0x03) 5) in
    if Z.land bank 0x1F =? 0 then bank + 1 else bank
  else
    let bank := Z.land (rom_bank_low c) 0x7F in
    if bank =? 0 then 1 else bank.

Definition selected_ram_offset (c : Cartridge) (address : Z) : Z :=
  let offset := address - 0xA000 in
  let selected_bank := if is_mbc (mbc c) Mbc1 && (mbc1_mode c =? 0) then 0 else Z.land (ram_bank c) 0x03 in
  selected_bank * 0x2000 + offset.

Definition rom_byte (c : Cartridge) (index : Z) : Z :=
  if index >=? rom_open_bus_start c then 0xFF
  else if index <? vec_size (rom c) then byte_at (rom c) index else 0xFF.
Definition in_ram_window (address : Z) : bool := (address >=? 0xA000) && (address <? 0xC000).

Definition cart_read (c : Cartridge) (address : Z) : Z :=
  if address <? 0x4000 then
    let bank := if is_mbc (mbc c) Mbc1 && negb (mbc1_mode c =? 0)
                then Z.shiftl (Z.land (bank_high c) 0x03) 5 else 0 in
    rom_byte c (rom_index c bank address)
  else if address <? 0x8000 then
    rom_byte c (rom_index c (selected_switchable_rom_bank c) (address - 0x4000))
  else if in_ram_window address && ram_enabled c then
    let index := selected_ram_offset c address in
    if index <? vec_size (ram c) then byte_at (ram c) index else 0xFF
  else 0xFF.

Definition set_ram (c : Cartridge) (r : list Z) (d : bool) : Cartridge :=
  Cart (rom_path c) (save_path c) (rom c) r (rom_open_bus_start c) (mbc c) (ram_enabled c) d
    (rom_bank_low c) (bank_high c) (ram_bank c) (mbc1_mode c) (mbc5_rom_bank c).
(** The bank registers, everything else unchanged. *)
Definition set_regs (c : Cartridge) (enabled : bool) (low high rbank mode bank5 : Z) : Cartridge :=
  Cart (rom_path c) (save_path c) (rom c) (ram c) (rom_open_bus_start c) (mbc c) enabled (dirty c)
    low high rbank mode bank5.

Definition ram_store (c : Cartridge) (index value : Z) : Cartridge :=
  if (index <? vec_size (ram c)) && negb (byte_at (ram c) index =? value)
  then set_ram c (set_byte (ram c) index value) true else c.

Definition cart_write (c : Cartridge) (address value : Z) : Cartridge :=
  let en := ram_enabled c in let low := rom_bank_low c in let high := bank_high c in
  let rbank := ram_bank c in let mode := mbc1_mode c in let bank5 := mbc5_rom_bank c in
  if is_mbc (mbc c) RomOnly then
    if in_ram_window address && negb (vec_size (ram c) =? 0) then ram_store c (address - 0xA000) value else c
  else if address <? 0x2000 then set_regs c (Z.land value 0x0F =? 0x0A) low high rbank mode bank5
  else if address <? 0x4000 then
    if is_mbc (mbc c) Mbc1 then
      set_regs c en (if Z.land value 0x1F =? 0 then 1 else Z.land value 0x1F) high rbank mode bank5
    else if is_mbc (mbc c) Mbc5 then
      if address <? 0x3000 then set_regs c en low high rbank mode (u16 (Z.lor (Z.land bank5 0x100) value))
      else set_regs c en low high rbank mode (u16 (Z.lor (Z.land bank5 0x0FF) (Z.shiftl (Z.land value 1) 8)))
    else set_regs c en (if Z.land value 0x7F =? 0 then 1 else Z.land value 0x7F) high rbank mode bank5
  else if address <? 0x6000 then
    if is_mbc (mbc c) Mbc1 then set_regs c en low (Z.land value 0x03) (Z.land value 0x03) mode bank5
    else if is_mbc (mbc c) Mbc5 then set_regs c en low high (Z.land value 0x0F) mode bank5
    else if value <=? 0x03 then set_regs c en low high value mode bank5 else c
  else if address <? 0x8000 then
    if is_mbc (mbc c) Mbc1 then set_regs c en low high rbank (Z.land value 1) bank5 else c
  else if in_ram_window address && en then ram_store c (selected_ram_offset c address) value
  else c.

Section Files.
Context (writable : string -> bool).

Definition flush_save (c : Cartridge) (fs : files) : Cartridge * files :=
  if negb (dirty c) || String.eqb (save_path c) "" then (c, fs)
  else if negb (writable (save_path c)) then (c, fs)
  else (set_ram c (ram c) false, <[save_path c := ram c]> fs).
End Files.

(** * The accessory *)

Record Port := MkPort {
  configured : bool; pak_enabled : bool; cart_enabled : bool; address_bank : Z; reset_state : Z; cart : Cartridge }.
Definition new_port : Port := MkPort false false false 3 0 new_cart.

Definition status (p : Port) : Z * Port :=
  let value := Z.lor (if cart_enabled p then 0x01 else 0)
              (Z.lor (u8 (Z.shiftl (Z.land (reset_state p) 0x03) 2))
              (Z.lor (if configured p then 0 else 0x40) (if pak_enabled p then 0x80 else 0))) in
  let next := if cart_enabled p && (reset_state p =? 3) then 2
              else if negb (cart_enabled p) && (reset_state p =? 2) then 1
              else if negb (cart_enabled p) && (reset_state p =? 1) then 0
              else reset_state p in
  (value, MkPort (configured p) (pak_enabled p) (cart_enabled p) (address_bank p) next (cart p)).

Definition bus_address (p : Port) (a : Z) : Z :=
  u16 (transfer_pak_cart_window * address_bank p + a - transfer_pak_cart_window).

Definition port_read (p : Port) (accessory_address : Z) : Z * Port :=
  let a := Z.land accessory_address transfer_pak_address_mask in
  if negb (pak_enabled p) then (0, p)
  else if a <=? 0x1FFF then (0x84, p)
  else if a <=? 0x2FFF then (address_bank p, p)
  else if a <=? 0x3FFF then status p
  else if negb (cart_enabled p) then (0, p)
  else (cart_read (cart p) (bus_address p a), p).

Definition set_cart_state (p : Port) (c : Cartridge) : Port :=
  MkPort (configured p) (pak_enabled p) (cart_enabled p) (address_bank p) (reset_state p) c.

Definition port_write (p : Port) (accessory_address value : Z) : Port :=
  let a := Z.land accessory_address transfer_pak_address_mask in
  if a <=? 0x1FFF then
    let enabled := if value =? 0x84 then true else if value =? 0xFE then false else pak_enabled p in
    if negb (pak_enabled p) && enabled
    then MkPort (configured p) enabled false 3 0 (cart p)
    else MkPort (configured p) enabled (cart_enabled p) (address_bank p) (reset_state p) (cart p)
  else if negb (pak_enabled p) then p
  else if a <=? 0x2FFF then
    MkPort (configured p) (pak_enabled p) (cart_enabled p) (if value >? 3 then 0 else value) (reset_state p) (cart p)
  else if a <=? 0x3FFF then
    let enabled := negb (Z.land value 1 =? 0) in
    MkPort (configured p) (pak_enabled p) enabled (address_bank p)
      (if negb (cart_enabled p) && enabled then 2 else reset_state p) (cart p)
  else if negb (cart_enabled p) then p
  else set_cart_state p (cart_write (cart p) (bus_address p a) value).

(** * The four ports *)

Record paks := Paks { ports : Z -> Port; saves : files }.
Definition valid_port (port : Z) : bool := negb ((port <? 0) || (port >=? port_count)).
Definition upd_port (s : paks) (port : Z) (p : Port) : paks :=
  Paks (fun i => if i =? port then p else ports s i) (saves s).

Definition set_cart (port : Z) (rom save : string) (s : paks) : paks :=
  if negb (valid_port port) then s
  else if String.eqb rom "" then upd_port s port new_port
  else
    let '(c, ok) := load rom save (saves s) new_cart in
    upd_port s port (MkPort ok false false 3 0 c).

Definition has_pak (port : Z) (s : paks) : bool := valid_port port && configured (ports s port).

(** The window of the cart, byte by byte. *)
Fixpoint read_bytes (n : nat) (p : Port) (a : Z) : list Z * Port :=
  match n with
  | O => ([], p)
  | S n =>
      let '(v, p) := port_read p (u16 a) in
      let '(vs, p) := read_bytes n p (a + 1) in
      (v :: vs, p)
  end.
Fixpoint write_bytes (p : Port) (a : Z) (data : list Z) : Port :=
  match data with
  | [] => p
  | v :: data => write_bytes (port_write p (u16 a) v) (a + 1) data
  end.

(** The result code, and the block when the code is 0; [out] tells whether the
    caller's pointer is not null, as does an option for [data]. *)
Definition read_block (port block_address : Z) (out : bool) (s : paks) : (Z * list Z) * paks :=
  if negb (has_pak port s) then ((pfs_err_no_pak, []), s)
  else if negb out then ((pfs_err_invalid, []), s)
  else
    let byte_address := u16 (block_address * block_size) in
    if Z.land byte_address transfer_pak_address_mask <=? 0x3FFF then
      let '(v, p) := port_read (ports s port) byte_address in
      ((0, replicate (Z.to_nat block_size) v), upd_port s port p)
    else
      let '(vs, p) := read_bytes (Z.to_nat block_size) (ports s port) byte_address in
      ((0, vs), upd_port s port p).

Definition write_block (writable : string -> bool) (port block_address : Z) (data : option (list Z)) (s : paks) : Z * paks :=
  if negb (has_pak port s) then (pfs_err_no_pak, s)
  else
    match data with
    | None => (pfs_err_invalid, s)
    | Some data =>
        let byte_address := u16 (block_address * block_size) in
        let p := write_bytes (ports s port) byte_address data in
        let '(c, fs) := flush_save writable (cart p) (saves s) in
        let s := upd_port s port (set_cart_state p c) in
        (0, Paks (ports s) fs)
    end.

Definition flush_port (writable : string -> bool) (port : Z) (s : paks) : paks :=
  if configured (ports s port) then
    let '(c, fs) := flush_save writable (cart (ports s port)) (saves s) in
    Paks (ports (upd_port s port (set_cart_state (ports s port) c))) fs
  else s.
Definition flush_all (writable : string -> bool) (s : paks) : paks :=
  fold_left (fun s port => flush_port writable port s) [0; 1; 2; 3] s.
