(* ===== verification/GbCartSpec.v ===== *)
(** What the Transfer Pak promises: banking, battery RAM, the registers of the
    accessory and the save file. *)

From S2P Require Import Prelude Bytes GbCart.
From Stdlib Require Import ZArith Lia Bool List String.
From stdpp Require Import base list strings gmap.
Open Scope Z_scope.

(** * Battery RAM *)

(** What the RAM holds after a store of [v] at [i]. *)
Lemma ram_store_byte c i v j : 0 <= i < vec_size (ram c) -> 0 <= j ->
  byte_at (ram (ram_store c i v)) j = if i =? j then v else byte_at (ram c) j.
Proof.
  intros Hi Hj. unfold ram_store. destruct (Z.ltb_spec i (vec_size (ram c))); [|lia].
  destruct (Z.eqb_spec (byte_at (ram c) i) v) as [E|N]; cbn [andb negb].
  - destruct (Z.eqb_spec i j) as [->|]; congruence.
  - apply byte_at_set; assumption.
Qed.
Lemma ram_store_same c i v : let c' := ram_store c i v in
  vec_size (ram c') = vec_size (ram c) /\ rom c' = rom c /\ mbc c' = mbc c /\ ram_enabled c' = ram_enabled c /\
  ram_bank c' = ram_bank c /\ mbc1_mode c' = mbc1_mode c /\ save_path c' = save_path c /\ rom_path c' = rom_path c.
Proof.
  cbv zeta. unfold ram_store. destruct (_ && _); cbn; rewrite ?size_set; auto 10.
Qed.

(** The window is open: banked RAM, enabled. *)
Definition ram_open (c : Cartridge) : bool := negb (is_mbc (mbc c) RomOnly) && ram_enabled c.

Lemma cart_write_window c a v : in_ram_window a = true -> ram_open c = true ->
  cart_write c a v = ram_store c (selected_ram_offset c a) v.
Proof.
  unfold in_ram_window, ram_open, cart_write. intros Ha Ho. apply andb_true_iff in Ho as [Ho1 Ho2].
  apply negb_true_iff in Ho1. rewrite Ho1, Ho2. apply andb_true_iff in Ha as [Ha1 Ha2].
  destruct (Z.geb_spec a 0xA000); [|discriminate].
  destruct (Z.ltb_spec a 0x2000), (Z.ltb_spec a 0x4000), (Z.ltb_spec a 0x6000), (Z.ltb_spec a 0x8000); try lia.
  unfold in_ram_window. rewrite Ha2. destruct (Z.geb_spec a 0xA000); [reflexivity|lia].
Qed.
Lemma cart_read_window c a : in_ram_window a = true -> ram_enabled c = true ->
  selected_ram_offset c a < vec_size (ram c) -> cart_read c a = byte_at (ram c) (selected_ram_offset c a).
Proof.
  intros Ha He Hs. unfold cart_read. rewrite Ha, He. unfold in_ram_window in Ha.
  apply andb_true_iff in Ha as [Ha1 _]. destruct (Z.geb_spec a 0xA000); [|discriminate].
  destruct (Z.ltb_spec a 0x4000), (Z.ltb_spec a 0x8000); try lia. cbn [andb].
  destruct (Z.ltb_spec (selected_ram_offset c a) (vec_size (ram c))); [reflexivity|lia].
Qed.

Lemma selected_same c c' a : mbc c' = mbc c -> mbc1_mode c' = mbc1_mode c -> ram_bank c' = ram_bank c ->
  selected_ram_offset c' a = selected_ram_offset c a.
Proof. unfold selected_ram_offset. intros -> -> ->. reflexivity. Qed.
Lemma selected_shift c a k : selected_ram_offset c (a + k) = selected_ram_offset c a + k.
Proof. unfold selected_ram_offset. lia. Qed.
Lemma selected_nonneg c a : 0xA000 <= a -> 0 <= selected_ram_offset c a.
Proof.
  intros Ha. unfold selected_ram_offset. destruct (is_mbc _ _ && _); [lia|].
  pose proof (Z.land_nonneg (ram_bank c) 3). nia.
Qed.

(** * The accessory's cart window *)

(** The port shows the cart's RAM window through accessory addresses from
    0x6000: bank 2 of the cart's bus. *)
Record window_open (p : Port) : Prop := {
  wo_pak : pak_enabled p = true; wo_cart : cart_enabled p = true; wo_bank : address_bank p = 2;
  wo_ram : ram_open (cart p) = true }.

Lemma land_mask a : 0 <= a < 65536 -> Z.land a transfer_pak_address_mask = a mod 0x8000.
Proof. intros Ha. change transfer_pak_address_mask with (2 ^ 15 - 1). apply land_ones_mod. lia. Qed.

Lemma window_address p a : window_open p -> 0 <= a < 65536 -> 0x6000 <= a mod 0x8000 ->
  Z.land a transfer_pak_address_mask = a mod 0x8000 /\
  bus_address p (a mod 0x8000) = a mod 0x8000 + 0x4000.
Proof.
  intros [_ _ Hb _] Ha Hw. split; [apply land_mask; assumption|].
  unfold bus_address. rewrite Hb. unfold transfer_pak_cart_window. rewrite u16_small; [lia|]. unfold is_u16. zlia.
Qed.
Lemma port_read_window p a : window_open p -> 0 <= a < 65536 -> 0x6000 <= a mod 0x8000 ->
  port_read p a = (cart_read (cart p) (a mod 0x8000 + 0x4000), p).
Proof.
  intros Hp Ha Hw. destruct (window_address p a Hp Ha Hw) as [E1 E2].
  destruct Hp as [H1 H2 _ _]. unfold port_read. rewrite E1, E2, H1, H2. cbn [negb].
  destruct (Z.leb_spec (a mod 0x8000) 0x1FFF), (Z.leb_spec (a mod 0x8000) 0x2FFF), (Z.leb_spec (a mod 0x8000) 0x3FFF);
    (lia || reflexivity).
Qed.
Lemma port_write_window p a v : window_open p -> 0 <= a < 65536 -> 0x6000 <= a mod 0x8000 ->
  port_write p a v = set_cart_state p (ram_store (cart p) (selected_ram_offset (cart p) (a mod 0x8000 + 0x4000)) v).
Proof.
  intros Hp Ha Hw. destruct (window_address p a Hp Ha Hw) as [E1 E2]. pose proof Hp as [H1 H2 _ H4].
  unfold port_write. rewrite E1, E2, H1, H2. cbn [negb].
  destruct (Z.leb_spec (a mod 0x8000) 0x1FFF), (Z.leb_spec (a mod 0x8000) 0x2FFF), (Z.leb_spec (a mod 0x8000) 0x3FFF);
    try lia.
  rewrite cart_write_window; [reflexivity| |assumption]. unfold in_ram_window.
  destruct (Z.geb_spec (a mod 0x8000 + 0x4000) 0xA000), (Z.ltb_spec (a mod 0x8000 + 0x4000) 0xC000); (zlia || reflexivity).
Qed.

Lemma window_ram_enabled p : window_open p -> ram_enabled (cart p) = true.
Proof. intros [_ _ _ H]. apply andb_true_iff in H. apply H. Qed.

(** The window stays open, and the selected bytes in range, across a store. *)
Lemma window_store p i v : window_open p -> window_open (set_cart_state p (ram_store (cart p) i v)).
Proof.
  intros [H1 H2 H3 H4]. constructor; try assumption. cbn [set_cart_state cart].
  destruct (ram_store_same (cart p) i v) as (_ & _ & E1 & E2 & _). unfold ram_open in *. rewrite E1, E2. assumption.
Qed.

(** Storing bytes one after the other. *)
Fixpoint ram_stores (c : Cartridge) (i : Z) (data : list Z) : Cartridge :=
  match data with [] => c | v :: data => ram_stores (ram_store c i v) (i + 1) data end.

Lemma ram_stores_same c i data : let c' := ram_stores c i data in
  vec_size (ram c') = vec_size (ram c) /\ rom c' = rom c /\ mbc c' = mbc c /\ ram_enabled c' = ram_enabled c /\
  ram_bank c' = ram_bank c /\ mbc1_mode c' = mbc1_mode c /\ save_path c' = save_path c /\ rom_path c' = rom_path c.
Proof.
  revert c i. induction data as [|v data IH]; intros c i; cbn [ram_stores]; [auto 10|].
  destruct (IH (ram_store c i v) (i + 1)) as (-> & -> & -> & -> & -> & -> & -> & ->). apply ram_store_same.
Qed.
Lemma ram_stores_byte c i data j : 0 <= i -> i + vec_size data <= vec_size (ram c) -> 0 <= j ->
  byte_at (ram (ram_stores c i data)) j =
  if (i <=? j) && (j <? i + vec_size data) then byte_at data (j - i) else byte_at (ram c) j.
Proof.
  revert c i. induction data as [|v data IH]; intros c i Hi Hs Hj; cbn [ram_stores].
  - change (vec_size []) with 0. destruct (Z.leb_spec i j), (Z.ltb_spec j (i + 0)); (lia || reflexivity).
  - assert (E : vec_size (v :: data) = vec_size data + 1) by (unfold vec_size; cbn [length]; lia).
    assert (0 <= vec_size data) by (unfold vec_size; lia).
    destruct (ram_store_same c i v) as [Es _]. rewrite E in *.
    rewrite IH by (rewrite ?Es; lia). rewrite ram_store_byte by lia.
    destruct (Z.leb_spec (i + 1) j), (Z.leb_spec i j), (Z.ltb_spec j (i + 1 + vec_size data)), (Z.ltb_spec j (i + (vec_size data + 1)));
      cbn [andb]; try lia; destruct (Z.eqb_spec i j); try lia; try reflexivity.
    + unfold byte_at. replace (Z.to_nat (j - i)) with (S (Z.to_nat (j - (i + 1)))) by lia. reflexivity.
    + subst j. rewrite Z.sub_diag. reflexivity.
Qed.

Lemma write_bytes_window p a data : window_open p -> 0 <= a -> a + vec_size data <= 65536 ->
  0x6000 <= a mod 0x8000 -> a mod 0x8000 + vec_size data <= 0x8000 ->
  write_bytes p a data =
  set_cart_state p (ram_stores (cart p) (selected_ram_offset (cart p) (a mod 0x8000 + 0x4000)) data).
Proof.
  revert p a. induction data as [|v data IH]; intros p a Hp H0 H1 H2 H3; cbn [write_bytes ram_stores].
  - destruct p; reflexivity.
  - assert (E : vec_size (v :: data) = vec_size data + 1) by (unfold vec_size; cbn [length]; lia).
    assert (0 <= vec_size data) by (unfold vec_size; lia). rewrite E in *.
    rewrite u16_small by (unfold is_u16; lia). rewrite port_write_window by (assumption || lia).
    set (off := selected_ram_offset (cart p) (a mod 0x8000 + 0x4000)).
    destruct (Z.eq_dec (vec_size data) 0) as [E0|N0].
    { destruct data; [reflexivity|]. exfalso. unfold vec_size in E0. cbn [length] in E0. lia. }
    assert (Em : (a + 1) mod 0x8000 = a mod 0x8000 + 1) by zlia.
    rewrite IH; [|apply window_store; assumption|lia|lia|lia|lia].
    cbn [set_cart_state cart]. destruct (ram_store_same (cart p) off v) as (_ & _ & S1 & _ & S3 & S4 & _).
    rewrite (selected_same (cart p)) by assumption. rewrite Em.
    replace (a mod 0x8000 + 1 + 0x4000) with (a mod 0x8000 + 0x4000 + 1) by lia. rewrite selected_shift. reflexivity.
Qed.
Lemma read_bytes_window n p a off : window_open p -> 0 <= a -> a + Z.of_nat n <= 65536 ->
  0x6000 <= a mod 0x8000 -> a mod 0x8000 + Z.of_nat n <= 0x8000 ->
  off = selected_ram_offset (cart p) (a mod 0x8000 + 0x4000) -> off + Z.of_nat n <= vec_size (ram (cart p)) ->
  read_bytes n p a = ((fun i => byte_at (ram (cart p)) i) <$> seqZ off (Z.of_nat n), p).
Proof.
  revert a off. induction n as [|n IH]; intros a off Hp H0 H1 H2 H3 Ho H4; [reflexivity|].
  cbn [read_bytes]. rewrite u16_small by (unfold is_u16; lia). rewrite port_read_window by (assumption || lia).
  rewrite cart_read_window; [|unfold in_ram_window|apply window_ram_enabled; assumption|lia].
  2: { destruct (Z.geb_spec (a mod 0x8000 + 0x4000) 0xA000), (Z.ltb_spec (a mod 0x8000 + 0x4000) 0xC000); (zlia || reflexivity). }
  rewrite seqZ_cons by lia. replace (Z.pred (Z.of_nat (S n))) with (Z.of_nat n) by lia.
  cbn [fmap list_fmap]. rewrite <- Ho. destruct n as [|n]; [reflexivity|].
  assert (Em : (a + 1) mod 0x8000 = a mod 0x8000 + 1) by zlia.
  rewrite (IH (a + 1) (off + 1)); [reflexivity|assumption|lia|lia|lia|lia| |lia].
  rewrite Em. replace (a mod 0x8000 + 1 + 0x4000) with (a mod 0x8000 + 0x4000 + 1) by lia. rewrite selected_shift. lia.
Qed.

Lemma flush_cart w c fs : ram (fst (flush_save w c fs)) = ram c /\ mbc (fst (flush_save w c fs)) = mbc c /\
  ram_enabled (fst (flush_save w c fs)) = ram_enabled c /\ ram_bank (fst (flush_save w c fs)) = ram_bank c /\
  mbc1_mode (fst (flush_save w c fs)) = mbc1_mode c.
Proof. unfold flush_save. destruct (_ || _); [auto 6|]. destruct (negb _); cbn; auto 6. Qed.

Section Blocks.
Context (writable : string -> bool).

(** The address of a block, and where its first byte is in the RAM. *)
Definition block_addr (b : Z) : Z := u16 (b * block_size).
Definition block_ram (c : Cartridge) (b : Z) : Z := selected_ram_offset c (block_addr b mod 0x8000 + 0x4000).

Lemma block_addr_aligned b : 0 <= b -> 0 <= block_addr b /\ block_addr b + 32 <= 65536 /\
  block_addr b mod 0x8000 + 32 <= 0x8000.
Proof. intros Hb. unfold block_addr, block_size, u16. zlia. Qed.

(** A block written through the open cart window is read back by the next read, and the other bytes of the cart's RAM do not change. *)
Theorem sram_block_roundtrip port b data s : has_pak port s = true -> window_open (ports s port) -> 0 <= b ->
  vec_size data = 32 -> 0x6000 <= block_addr b mod 0x8000 ->
  block_ram (cart (ports s port)) b + 32 <= vec_size (ram (cart (ports s port))) ->
  exists s', write_block writable port b (Some data) s = (0, s') /\
    fst (read_block port b true s') = (0, data) /\
    forall j, 0 <= j -> ~ block_ram (cart (ports s port)) b <= j < block_ram (cart (ports s port)) b + 32 ->
      byte_at (ram (cart (ports s' port))) j = byte_at (ram (cart (ports s port))) j.
Proof.
  intros Hp Hw Hb Hd Ha Hr. destruct (block_addr_aligned b Hb) as (A1 & A2 & A3).
  unfold write_block. rewrite Hp. cbn [negb]. cbv zeta. fold (block_addr b).
  rewrite write_bytes_window by (assumption || lia). fold (block_ram (cart (ports s port)) b).
  set (p := ports s port) in *. set (off := block_ram (cart p) b) in *.
  assert (Hoff : 0 <= off) by (apply selected_nonneg; lia).
  cbn [set_cart_state cart]. set (c := ram_stores (cart p) off data).
  destruct (ram_stores_same (cart p) off data) as (S1 & _ & S2 & S3 & S4 & S5 & _). fold c in S1, S2, S3, S4, S5.
  destruct (flush_cart writable c (saves s)) as (F1 & F2 & F3 & F4 & F5).
  destruct (flush_save writable c (saves s)) as [c' fs] eqn:Ef. cbn [fst] in F1, F2, F3, F4, F5.
  eexists. split; [reflexivity|]. cbn [ports upd_port].
  split; [|intros j Hj Hn; rewrite Z.eqb_refl; cbn [set_cart_state cart]; rewrite F1; unfold c;
    rewrite ram_stores_byte by lia; destruct (Z.leb_spec off j), (Z.ltb_spec j (off + vec_size data)); (lia || reflexivity)].
  unfold read_block, has_pak. cbn [ports upd_port]. rewrite Z.eqb_refl.
  unfold has_pak in Hp. apply andb_true_iff in Hp as [-> Hc]. cbn [set_cart_state configured]. fold p in Hc.
  rewrite Hc. cbn [negb andb]. cbv zeta. fold (block_addr b). rewrite land_mask by lia.
  destruct (Z.leb_spec (block_addr b mod 0x8000) 0x3FFF); [lia|].
  set (p' := set_cart_state (set_cart_state p c) c').
  assert (Hw' : window_open p').
  { destruct Hw as [W1 W2 W3 W4]. constructor; try assumption. cbn [p' set_cart_state cart].
    unfold ram_open in *. rewrite F2, F3, S2, S3. assumption. }
  rewrite (read_bytes_window _ p' _ off); cbn [p' set_cart_state cart]; try assumption; try (cbn; lia).
  - cbn [fst]. f_equal. rewrite F1, (fmap_seqZ_shift _ (byte_at data)).
    + rewrite <- (seqZ_bytes data) at 2. rewrite Hd. reflexivity.
    + intros i Hi. change (Z.of_nat (Z.to_nat block_size)) with 32 in Hi. unfold c. rewrite ram_stores_byte by lia.
      destruct (Z.leb_spec off (off + i)), (Z.ltb_spec (off + i) (off + vec_size data)); try lia. cbn [andb]. f_equal. lia.
  - unfold off, block_ram. symmetry. apply selected_same; congruence.
  - rewrite F1, S1. change (Z.of_nat (Z.to_nat block_size)) with 32. exact Hr.
Qed.
End Blocks.

(** * ROM banks *)

(** The bank a cart shows at 0x4000 after bank number [n] is selected. *)
Definition bank_of (kind : Mbc) (n : Z) : Z :=
  match kind with
  | Mbc1 => if n mod 32 =? 0 then n mod 128 + 1 else n mod 128
  | Mbc3 => if n mod 128 =? 0 then 1 else n mod 128
  | Mbc5 => n mod 512
  | _ => 1
  end.
(** The writes of a game that selects it. *)
Definition select_bank (kind : Mbc) (n : Z) (c : Cartridge) : Cartridge :=
  match kind with
  | Mbc1 => cart_write (cart_write c 0x2000 (n mod 32)) 0x4000 (n / 32 mod 4)
  | Mbc3 => cart_write c 0x2000 (n mod 128)
  | Mbc5 => cart_write (cart_write c 0x2000 (n mod 256)) 0x3000 (n / 256 mod 2)
  | _ => c
  end.

Lemma land_ones_mod' x m k : 0 <= m -> k = 2 ^ m - 1 -> Z.land x k = x mod 2 ^ m.
Proof. intros Hm ->. apply land_ones_mod. assumption. Qed.
Lemma lor_disjoint_add a b k : 0 <= k -> 0 <= a < 2 ^ k -> Z.lor a (Z.shiftl b k) = a + b * 2 ^ k.
Proof.
  intros Hk Ha. rewrite Z.shiftl_mul_pow2 by assumption. rewrite <- Z.lxor_lor, <- Z.add_nocarry_lxor; [reflexivity|..];
    (apply Z.bits_inj'; intros i Hi; rewrite Z.land_spec, Z.bits_0, <- Z.shiftl_mul_pow2 by assumption;
     destruct (Z.ltb_spec i k);
     [rewrite Z.shiftl_spec_low by assumption; apply andb_false_r
     |rewrite <- (Z.mod_small a (2 ^ k)) by assumption; rewrite Z.mod_pow2_bits_high by lia; reflexivity]).
Qed.

(** For MBC1, MBC3 and MBC5 the writes that select bank n make 0x4000-0x7FFF show that bank, with the controller's rule for bank 0. *)
Theorem rom_bank_select c n a : mbc c = Mbc1 \/ mbc c = Mbc3 \/ mbc c = Mbc5 -> 0 <= n -> 0 <= a < 0x4000 ->
  cart_read (select_bank (mbc c) n c) (0x4000 + a) =
  rom_byte c (rom_index c (bank_of (mbc c) n) a).
Proof.
  intros Hk Hn Ha. set (c' := select_bank (mbc c) n c).
  assert (E : mbc c' = mbc c /\ rom c' = rom c /\ rom_open_bus_start c' = rom_open_bus_start c /\
              selected_switchable_rom_bank c' = bank_of (mbc c) n).
  { destruct c as [p1 p2 r1 r2 st kind en d lo hi rb mo b5]. cbn [mbc] in *. unfold c'. cbn [mbc].
    destruct Hk as [->|[->| ->]];
      lazy -[Z.land Z.lor Z.shiftl Z.modulo Z.div Z.eqb Z.add u16]; (do 3 (split; [reflexivity|])).
    - rewrite !(land_ones_mod' _ 5), !(land_ones_mod' _ 2) by (lia || reflexivity).
      change (2 ^ 5) with 32. change (2 ^ 2) with 4. rewrite !(Z.mod_mod _ 32), !(Z.mod_mod _ 4) by lia.
      destruct (Z.eqb_spec (n mod 32) 0) as [E0|N0].
      + change (1 mod 32) with 1. rewrite (lor_disjoint_add 1) by (cbn; lia). change (2 ^ 5) with 32.
        destruct (Z.eqb_spec ((1 + n / 32 mod 4 * 32) mod 32) 0); zlia.
      + rewrite (Z.mod_mod n 32), (lor_disjoint_add (n mod 32)) by (cbn; zlia). change (2 ^ 5) with 32.
        destruct (Z.eqb_spec ((n mod 32 + n / 32 mod 4 * 32) mod 32) 0); zlia.
    - rewrite !(land_ones_mod' _ 7) by (lia || reflexivity). change (2 ^ 7) with 128. rewrite !(Z.mod_mod _ 128) by lia.
      destruct (Z.eqb_spec (n mod 128) 0); [reflexivity|]. rewrite Z.mod_mod by lia.
      destruct (Z.eqb_spec (n mod 128) 0); [contradiction|reflexivity].
    - assert (E : Z.lor (Z.land b5 256) (n mod 256) mod 256 = n mod 256).
      { rewrite <- (land_ones_mod' _ 8 255) by (lia || reflexivity). rewrite Z.land_lor_distr_l, <- Z.land_assoc.
        change (Z.land 256 255) with 0. rewrite Z.land_0_r, Z.lor_0_l, (land_ones_mod' _ 8 255) by (lia || reflexivity).
        apply Z.mod_mod. lia. }
      rewrite (land_ones_mod' _ 8 255), (land_ones_mod' _ 1 1) by (lia || reflexivity).
      change (2 ^ 8) with 256. change (2 ^ 1) with 2.
      replace (u16 (Z.lor (Z.land b5 256) (n mod 256)) mod 256) with (n mod 256) by (revert E; unfold u16; intros E; zlia).
      rewrite (lor_disjoint_add (n mod 256)) by (cbn; zlia). change (2 ^ 8) with 256. unfold u16. zlia. }
  destruct E as (E1 & E2 & E3 & E4). unfold cart_read.
  destruct (Z.ltb_spec (0x4000 + a) 0x4000), (Z.ltb_spec (0x4000 + a) 0x8000); try lia.
  replace (0x4000 + a - 0x4000) with a by lia. rewrite E4. unfold rom_byte, rom_index. rewrite E2, E3. reflexivity.
Qed.

(** * Cartridges without a bank controller *)

Lemma cart_write_rom_only c a v : mbc c = RomOnly ->
  cart_write c a v = if in_ram_window a && negb (vec_size (ram c) =? 0) then ram_store c (a - 0xA000) v else c.
Proof. intros Hm. unfold cart_write. rewrite Hm. reflexivity. Qed.

(** A cart without a bank controller stores writes to its RAM but reads it as 0xFF, whatever was written before. *)
Theorem rom_only_ram_unreadable c writes a : mbc c = RomOnly -> ram_enabled c = false -> in_ram_window a = true ->
  let c' := fold_left (fun c w => cart_write c (fst w) (snd w)) writes c in
  cart_read c' a = 0xFF /\
  forall v, a - 0xA000 < vec_size (ram c') -> byte_at (ram (cart_write c' a v)) (a - 0xA000) = v.
Proof.
  intros Hm He Ha. cbv zeta.
  assert (H : mbc (fold_left (fun c w => cart_write c (fst w) (snd w)) writes c) = RomOnly /\
              ram_enabled (fold_left (fun c w => cart_write c (fst w) (snd w)) writes c) = false).
  { revert c Hm He. induction writes as [|[b v] writes IH]; intros c Hm He; cbn [fold_left fst snd]; [auto|]. apply IH.
    - rewrite cart_write_rom_only by assumption. destruct (_ && _); [|assumption].
      destruct (ram_store_same c (b - 0xA000) v) as (_ & _ & -> & _). assumption.
    - rewrite cart_write_rom_only by assumption. destruct (_ && _); [|assumption].
      destruct (ram_store_same c (b - 0xA000) v) as (_ & _ & _ & -> & _). assumption. }
  destruct H as [Hm' He']. set (c' := fold_left _ writes c) in *.
  pose proof Ha as Ha'. apply andb_true_iff in Ha' as [Ha1 _]. apply Z.geb_le in Ha1. split.
  - unfold cart_read. rewrite He', andb_false_r. destruct (Z.ltb_spec a 0x4000), (Z.ltb_spec a 0x8000); (lia || reflexivity).
  - intros v Hv. rewrite cart_write_rom_only by assumption. rewrite Ha. cbn [andb].
    destruct (Z.eqb_spec (vec_size (ram c')) 0); [lia|]. cbn [negb].
    rewrite ram_store_byte, Z.eqb_refl by lia. reflexivity.
Qed.

(** The RAM bank of an MBC5 keeps two of its four bits, so that bank 4 is bank 0. *)
Theorem mbc5_ram_bank_aliases c b a : mbc c = Mbc5 -> 0 <= b < 16 ->
  selected_ram_offset (cart_write c 0x4000 b) a = (b mod 4) * 0x2000 + (a - 0xA000) /\
  header_ram_size 4 = 16 * 0x2000.
Proof.
  intros Hm Hb. split; [|reflexivity]. destruct c as [p1 p2 r1 r2 st kind en d lo hi rb mo b5]. cbn [mbc] in Hm. subst kind.
  unfold cart_write, selected_ram_offset. cbn [mbc].
  change (is_mbc Mbc5 RomOnly) with false. change (is_mbc Mbc5 Mbc1) with false. change (is_mbc Mbc5 Mbc5) with true.
  cbn. rewrite (land_ones_mod' b 4), (land_ones_mod' _ 2) by (lia || reflexivity). change (2 ^ 4) with 16. change (2 ^ 2) with 4.
  rewrite (Z.mod_small b 16) by lia. reflexivity.
Qed.


(** * The registers of the accessory *)

(** Accesses of the game to a mounted port. *)
Inductive port_step : Port -> Port -> Prop :=
| port_step_read p a : port_step p (snd (port_read p a))
| port_step_write p a v : 0 <= v < 256 -> port_step p (port_write p a v).

Record port_ok (p : Port) : Prop := {
  po_configured : configured p = true;
  po_bank : 0 <= address_bank p <= 3;
  po_reset : 0 <= reset_state p <= 2;
  po_enabled : cart_enabled p = true -> reset_state p = 2 }.

Lemma status_ok p : port_ok p -> port_ok (snd (status p)).
Proof.
  intros [H1 H2 H3 H4]. unfold status. cbn [snd]. destruct (cart_enabled p) eqn:Ec; cbn [andb negb].
  - rewrite (H4 eq_refl). cbn. constructor; cbn; auto; lia.
  - destruct (Z.eqb_spec (reset_state p) 2), (Z.eqb_spec (reset_state p) 1); constructor; cbn; auto; (lia || congruence).
Qed.
Lemma port_step_ok p p' : port_ok p -> port_step p p' -> port_ok p'.
Proof.
  intros Hp Hs. destruct Hs as [p a|p a v Hv].
  - unfold port_read. cbv zeta.
    repeat lazymatch goal with |- port_ok (snd (if ?b then _ else _)) => destruct b end; try assumption.
    apply status_ok. assumption.
  - pose proof Hp as [H1 H2 H3 H4]. unfold port_write. cbv zeta.
    destruct (_ <=? 0x1FFF).
    { destruct (negb (pak_enabled p) && _); constructor; cbn; auto; (lia || congruence). }
    destruct (negb (pak_enabled p)); [assumption|].
    destruct (_ <=? 0x2FFF).
    { destruct (Z.gtb_spec v 3); constructor; cbn; auto; lia. }
    destruct (_ <=? 0x3FFF).
    { destruct (Z.land v 1 =? 0), (cart_enabled p) eqn:Ec; cbn [negb andb]; constructor; cbn; auto; (lia || congruence). }
    destruct (negb (cart_enabled p)); [assumption|]. constructor; cbn; auto.
Qed.

Lemma status_enabled p : port_ok p -> pak_enabled p = true -> cart_enabled p = true -> status p = (0x89, p).
Proof.
  intros [H1 H2 H3 H4] Hp Hc. unfold status. rewrite Hp, Hc, H1, (H4 Hc). cbn. rewrite <- Hp at 1. rewrite <- Hc at 2.
  destruct p; cbn in *. subst. rewrite (H4 eq_refl). reflexivity.
Qed.

(** However the game has accessed a mounted port, with pak and cart enabled a status block reads 0x89 in every byte and leaves the port unchanged. *)
Theorem cart_check_passes p p' s port b : port_ok p -> rtc port_step p p' ->
  pak_enabled p' = true -> cart_enabled p' = true -> valid_port port = true -> 0 <= b ->
  0x3000 <= block_addr b mod 0x8000 <= 0x3FFF ->
  fst (read_block port b true (upd_port s port p')) = (0, replicate 32 0x89) /\
  ports (snd (read_block port b true (upd_port s port p'))) port = p'.
Proof.
  intros Hp Hr He Hc Hv Hb Ha.
  assert (Ho : port_ok p') by (induction Hr as [|p p1 p2 S R IH]; [assumption|]; apply IH; auto; apply (port_step_ok p); assumption).
  destruct (block_addr_aligned b Hb) as (A1 & A2 & _).
  unfold read_block, has_pak. cbn [upd_port ports]. rewrite Z.eqb_refl, Hv, (po_configured _ Ho). cbn [negb andb].
  cbv zeta. fold (block_addr b). unfold port_read. rewrite land_mask, He by lia. cbn [negb].
  destruct (Z.leb_spec (block_addr b mod 0x8000) 0x3FFF), (Z.leb_spec (block_addr b mod 0x8000) 0x1FFF),
    (Z.leb_spec (block_addr b mod 0x8000) 0x2FFF); try lia.
  rewrite (status_enabled p') by assumption. cbn [fst snd upd_port ports]. rewrite Z.eqb_refl. split; reflexivity.
Qed.

(** * The save file *)

(** What a write changes of a cart. *)
Definition cart_frame (c c' : Cartridge) : Prop :=
  rom c' = rom c /\ save_path c' = save_path c /\ vec_size (ram c') = vec_size (ram c) /\
  ((ram c' = ram c /\ dirty c' = dirty c) \/ dirty c' = true).
Lemma cart_frame_refl c : cart_frame c c.
Proof. unfold cart_frame. auto 7. Qed.
Lemma cart_frame_trans c c1 c2 : cart_frame c c1 -> cart_frame c1 c2 -> cart_frame c c2.
Proof.
  intros (A1 & A2 & A3 & A4) (B1 & B2 & B3 & B4). unfold cart_frame. rewrite B1, B2, B3, A1, A2, A3.
  split; [reflexivity|]. split; [reflexivity|]. split; [reflexivity|].
  destruct B4 as [[B4 B5]|B4]; [|auto]. rewrite B4, B5. exact A4.
Qed.
Lemma ram_store_frame c i v : cart_frame c (ram_store c i v).
Proof.
  unfold ram_store, cart_frame. destruct (_ && _); cbn; [|auto 7]. rewrite size_set. auto 7.
Qed.
Lemma set_regs_frame c e l h r m b : cart_frame c (set_regs c e l h r m b).
Proof. unfold cart_frame. cbn. auto 7. Qed.
Lemma cart_write_frame c a v : cart_frame c (cart_write c a v).
Proof.
  unfold cart_write.
  repeat lazymatch goal with |- cart_frame _ (if ?b then _ else _) => destruct b end;
    first [apply cart_frame_refl|apply set_regs_frame|apply ram_store_frame].
Qed.
Lemma port_write_frame p a v : configured (port_write p a v) = configured p /\ cart_frame (cart p) (cart (port_write p a v)).
Proof.
  unfold port_write. cbv zeta.
  repeat lazymatch goal with |- context [if ?b then MkPort _ _ _ _ _ _ else _] => destruct b
                        | |- context [if ?b then p else _] => destruct b end;
    (split; [reflexivity|]; first [apply cart_frame_refl|apply cart_write_frame]).
Qed.
Lemma write_bytes_frame data p a : configured (write_bytes p a data) = configured p /\ cart_frame (cart p) (cart (write_bytes p a data)).
Proof.
  revert p a. induction data as [|v data IH]; intros p a; cbn [write_bytes]; [split; [reflexivity|apply cart_frame_refl]|].
  destruct (port_write_frame p (u16 a) v) as [E F], (IH (port_write p (u16 a) v) (a + 1)) as [E' F'].
  split; [congruence|]. eapply cart_frame_trans; eassumption.
Qed.

(** The RAM [load] makes of the save file. *)
Definition saved_ram (r : list Z) (save : string) (fs : files) : list Z :=
  let saved := read_file save fs in
  let declared := header_ram_size (byte_at r 0x149) in
  if vec_size saved <? declared then grow saved declared else saved.
Definition loadable (r : list Z) : Prop := 0x150 <= vec_size r /\ cart_mbc (byte_at r 0x147) <> Unsupported.

Lemma load_spec rom_p save fs c c' : load rom_p save fs c = (c', true) -> save <> ""%string ->
  loadable (read_file rom_p fs) /\ rom c' = read_file rom_p fs /\ save_path c' = save /\ dirty c' = dirty c /\
  ram c' = saved_ram (read_file rom_p fs) save fs.
Proof.
  unfold load, loadable, saved_ram. cbv zeta. intros E Hs. revert E.
  destruct (Z.ltb_spec (vec_size (read_file rom_p fs)) 0x150); [discriminate|].
  destruct (String.eqb_spec save ""); [contradiction|]. cbn [negb].
  destruct (cart_mbc (byte_at (read_file rom_p fs) 0x147)); intros [= <-]; cbn; repeat split; auto; discriminate.
Qed.
Lemma load_loadable rom_p save fs c : loadable (read_file rom_p fs) -> snd (load rom_p save fs c) = true.
Proof.
  unfold load, loadable. cbv zeta. intros [H1 H2].
  destruct (Z.ltb_spec (vec_size (read_file rom_p fs)) 0x150); [lia|].
  destruct (cart_mbc (byte_at (read_file rom_p fs) 0x147)); try reflexivity. contradiction.
Qed.

Lemma grow_size l n : vec_size l < n -> vec_size (grow l n) = n.
Proof. unfold grow, vec_size. intros H. rewrite length_app, length_replicate. lia. Qed.
Lemma saved_ram_size r save fs : header_ram_size (byte_at r 0x149) <= vec_size (saved_ram r save fs).
Proof.
  unfold saved_ram. cbv zeta. destruct (Z.ltb_spec (vec_size (read_file save fs)) (header_ram_size (byte_at r 0x149))); [|assumption].
  rewrite grow_size by assumption. lia.
Qed.

Section Persistence.
Context (writable : string -> bool) (port : Z) (rom_p save : string).
Context (Hport : valid_port port = true) (Hrom : rom_p <> ""%string) (Hsave : save <> ""%string).
Context (Hapart : save <> rom_p) (Hw : writable save = true).

(** The mounted cart and its save file agree. *)
Record synced (s : paks) : Prop := {
  sy_configured : configured (ports s port) = true;
  sy_load : loadable (read_file rom_p (saves s));
  sy_rom : rom (cart (ports s port)) = read_file rom_p (saves s);
  sy_path : save_path (cart (ports s port)) = save;
  sy_clean : dirty (cart (ports s port)) = false;
  sy_ram : ram (cart (ports s port)) = saved_ram (read_file rom_p (saves s)) save (saves s) }.

Lemma set_cart_synced s : has_pak port (set_cart port rom_p save s) = true -> synced (set_cart port rom_p save s).
Proof.
  unfold has_pak, set_cart. rewrite Hport. cbn [negb]. destruct (String.eqb_spec rom_p ""); [contradiction|].
  destruct (load rom_p save (saves s) new_cart) as [c ok] eqn:E. cbn [upd_port ports]. rewrite Z.eqb_refl. cbn. intros ->.
  destruct (load_spec _ _ _ _ _ E Hsave) as (H1 & H2 & H3 & H4 & H5).
  constructor; cbn; rewrite ?Z.eqb_refl; cbn; auto.
Qed.

Lemma write_block_synced s b data : synced s -> synced (snd (write_block writable port b data s)).
Proof.
  intros Hs. pose proof Hs as [H1 H2 H3 H4 H5 H6]. unfold write_block, has_pak. rewrite Hport, H1. cbn [andb negb].
  destruct data as [data|]; [|assumption]. cbv zeta.
  destruct (write_bytes_frame data (ports s port) (u16 (b * block_size))) as [E (F1 & F2 & F3 & F4)].
  set (p := write_bytes _ _ data) in *. unfold flush_save. rewrite F2, H4.
  destruct (String.eqb_spec save ""); [contradiction|]. rewrite orb_false_r, Hw. cbn [negb].
  assert (Hr : forall r, read_file rom_p (<[save := r]> (saves s)) = read_file rom_p (saves s)).
  { intros r. unfold read_file. rewrite lookup_insert_ne by assumption. reflexivity. }
  destruct (dirty (cart p)) eqn:Ed; cbn [negb].
  - constructor; cbn; rewrite ?Z.eqb_refl; cbn; rewrite ?Hr; try congruence; try assumption.
    assert (Hl : read_file save (<[save := ram (cart p)]> (saves s)) = ram (cart p))
      by (unfold read_file; rewrite lookup_insert_eq; reflexivity).
    unfold saved_ram. rewrite Hl. cbv zeta.
    pose proof (saved_ram_size (read_file rom_p (saves s)) save (saves s)) as Hsz. rewrite <- H6, <- F3 in Hsz.
    destruct (Z.ltb_spec (vec_size (ram (cart p))) (header_ram_size (byte_at (read_file rom_p (saves s)) 0x149))); [lia|reflexivity].
  - destruct F4 as [[F4 _]|F4]; [|congruence].
    constructor; cbn; rewrite ?Z.eqb_refl; cbn; try congruence; assumption.
Qed.

(** After any sequence of block writes, mounting the cart again from disk finds the RAM the writes left. *)
Theorem save_survives_remount s writes :
  has_pak port (set_cart port rom_p save s) = true ->
  let s1 := fold_left (fun s w => snd (write_block writable port (fst w) (Some (snd w)) s)) writes (set_cart port rom_p save s) in
  ram (cart (ports (set_cart port rom_p save s1) port)) = ram (cart (ports s1 port)) /\
  has_pak port (set_cart port rom_p save s1) = true.
Proof.
  intros H0. apply set_cart_synced in H0. cbv zeta. revert H0. generalize (set_cart port rom_p save s) as s0.
  induction writes as [|w writes IH]; intros s0 H0; cbn [fold_left]; [|apply IH, write_block_synced; assumption].
  destruct H0 as [H1 H2 H3 H4 H5 H6]. unfold has_pak, set_cart. rewrite Hport. cbn [negb].
  destruct (String.eqb_spec rom_p ""); [contradiction|].
  pose proof (load_loadable rom_p save (saves s0) new_cart H2) as Hok.
  destruct (load rom_p save (saves s0) new_cart) as [c ok] eqn:E. cbn in Hok. subst ok.
  destruct (load_spec _ _ _ _ _ E Hsave) as (_ & _ & _ & _ & R).
  cbn. rewrite Z.eqb_refl. cbn. rewrite R, H6. split; reflexivity.
Qed.
End Persistence.
