(* ===== verification/Joybus.v ===== *)
(** The joybus processor: librecomp/src/si_joybus.cpp.  It parses the 64-byte
    command block of a serial transfer and answers the accessory commands from
    the pak behind the interface [PakOps], which gbcart.cpp implements. *)

From S2P Require Import Prelude Bytes Rdram GbCart GbCartSpec.
From Stdlib Require Import ZArith Lia Bool List String.
From stdpp Require Import base list strings gmap.
Open Scope Z_scope.

(** What the processor calls: [has_pak], [read_block] and [write_block] of a
    port, on a state [S]. *)
Class PakOps (S : Type) := {
  pak_has : Z -> S -> bool;
  pak_read : Z -> Z -> S -> (Z * list Z) * S;
  pak_write : Z -> Z -> list Z -> S -> Z * S }.
Class PakLaws (S : Type) `{PakOps S} : Prop := {
  pak_read_length : forall port b s data s', pak_read port b s = ((0, data), s') -> vec_size data = 32;
  pak_absent : forall port b s, pak_has port s = false -> fst (fst (pak_read port b s)) <> 0 }.

Definition gbcart_pak (writable : string -> bool) : PakOps paks := {|
  pak_has := has_pak;
  pak_read port b s := read_block port b true s;
  pak_write port b data s := write_block writable port b (Some data) s |}.

Definition JOY_INFO : Z := 0x00.
Definition JOY_STATE : Z := 0x01.
Definition JOY_READ : Z := 0x02.
Definition JOY_WRITE : Z := 0x03.
Definition RX_NO_DEVICE : Z := 0x80.

(** * The data CRC *)

Definition crc_bit (crc : Z) (bit : bool) : Z :=
  let xorv := if negb (Z.land crc 0x80 =? 0) then 0x85 else 0 in
  let crc := u32 (Z.shiftl crc 1) in
  let crc := if bit then Z.lor crc 1 else crc in
  Z.lxor crc xorv.
(** [data[i] & mask] for the masks from 0x80 down. *)
Definition byte_bits (v : Z) : list bool :=
  map (fun mask => negb (Z.land v mask =? 0)) [0x80; 0x40; 0x20; 0x10; 0x08; 0x04; 0x02; 0x01].
Definition crc_bits (data : list Z) : list bool :=
  List.concat (map byte_bits data) ++ repeat false 8.
Definition data_crc (data : list Z) : Z := u8 (fold_left crc_bit (crc_bits data) 0).

(** * The command block *)

(** An element of the 64-byte array; [None] is a read outside of it. *)
Definition get (blk : list Z) (i : Z) : option Z :=
  if (0 <=? i) && (i <? 64) then Some (byte_at blk i) else None.
Fixpoint get_n (blk : list Z) (i : Z) (n : nat) : option (list Z) :=
  match n with
  | O => Some []
  | S n => match get blk i, get_n blk (i + 1) n with Some v, Some vs => Some (v :: vs) | _, _ => None end
  end.
Fixpoint set_n (blk : list Z) (i : Z) (vs : list Z) : list Z :=
  match vs with [] => blk | v :: vs => set_n (set_byte blk i v) (i + 1) vs end.

Section Joybus.
Context {S : Type} `{PakOps S}.

(** The address of a read or write command. *)
Definition frame_addr (blk : list Z) (cmd_i : Z) : option Z :=
  match get blk (cmd_i + 1), get blk (cmd_i + 2) with
  | Some hi, Some lo => Some (u16 (Z.lor (Z.shiftl hi 8) lo))
  | _, _ => None
  end.

Definition no_device (blk : list Z) (p : Z) : list Z :=
  set_byte blk (p + 1) (u8 (Z.lor (byte_at blk (p + 1)) RX_NO_DEVICE)).

(** The reply to the frame at [p]; [None] is a read outside the block. *)
Definition frame (chan p tx rx : Z) (blk : list Z) (s : S) : option (list Z * S) :=
  let cmd_i := p + 2 in
  let rx_i := p + 2 + tx in
  match get blk cmd_i with
  | None => None
  | Some cmd =>
      if cmd =? JOY_INFO then
        Some (if rx >=? 3 then set_n blk rx_i [0x05; 0x00; if pak_has chan s then 0x01 else 0x00] else blk, s)
      else if cmd =? JOY_READ then
        match frame_addr blk cmd_i with
        | None => None
        | Some addr =>
            let '((ret, data), s) := pak_read chan (Z.shiftr addr 5) s in
            Some (if (ret =? 0) && (rx >=? 33)
                  then set_byte (set_n blk rx_i data) (rx_i + 32) (data_crc data)
                  else no_device blk p, s)
        end
      else if cmd =? JOY_WRITE then
        match frame_addr blk cmd_i, get_n blk (cmd_i + 3) 32 with
        | Some addr, Some data =>
            let '(ret, s) := pak_write chan (Z.shiftr addr 5) data s in
            Some (if (ret =? 0) && (rx >=? 1) then set_byte blk rx_i (data_crc data) else no_device blk p, s)
        | _, _ => None
        end
      else if cmd =? JOY_STATE then Some (set_n blk rx_i (repeat 0 (Z.to_nat rx)), s)
      else Some (blk, s)
  end.

Inductive joybus_result := Answered (blk : list Z) (s : S) | OutOfBlock | OutOfFuel.

(** The loop of [run_joybus]: at most one turn for each byte of the block. *)
Fixpoint run_frames (fuel : nat) (p chan : Z) (blk : list Z) (s : S) : joybus_result :=
  match fuel with
  | O => OutOfFuel
  | Datatypes.S fuel =>
      if negb (p <? 63) then Answered blk s
      else
        let t := byte_at blk p in
        if t =? 0xFE then Answered blk s
        else if t =? 0xFF then run_frames fuel (p + 1) chan blk s
        else if t =? 0x00 then run_frames fuel (p + 1) (chan + 1) blk s
        else if t =? 0xFD then run_frames fuel (p + 1) chan blk s
        else
          let tx := Z.land t 0x3F in
          let rx := Z.land (byte_at blk (p + 1)) 0x3F in
          let rx_i := p + 2 + tx in
          if rx_i + rx >? 64 then Answered blk s
          else if (chan <? 0) || (chan >? 3) then run_frames fuel (rx_i + rx) (chan + 1) blk s
          else
            match frame chan p tx rx blk s with
            | None => OutOfBlock
            | Some (blk, s) => run_frames fuel (rx_i + rx) (chan + 1) blk s
            end
  end.
Definition answer_block (blk : list Z) (s : S) : joybus_result := run_frames 64 0 0 blk s.

(** The block is fetched from guest memory at [pif] and stored back. *)
Context {M : Type} `{RdramOps M}.
Definition fetch_block (pif : Z) (rdram : M) : list Z := (fun i => u8 (MEM_B (pif + i) rdram)) <$> seqZ 0 64.
Fixpoint store_bytes (pif i : Z) (bytes : list Z) (rdram : M) : M :=
  match bytes with
  | [] => rdram
  | b :: bytes => store_bytes pif (i + 1) bytes (MEM_B_put (pif + i) (s8 b) rdram)
  end.
Definition run_joybus (pif : Z) (rdram : M) (s : S) : option (M * S) :=
  match answer_block (fetch_block pif rdram) s with
  | Answered blk s => Some (store_bytes pif 0 blk rdram, s)
  | _ => None
  end.

(** [__osSiRawStartDma_recomp]: a read answers the block, and both directions
    post the completion message [send_si_message]. *)
Definition osSiRawStartDma (direction pif : Z) (rdram : M) (s : S) : option (M * S * list unit) :=
  if direction =? 0
  then match run_joybus pif rdram s with Some (rdram, s) => Some (rdram, s, [tt]) | None => None end
  else Some (rdram, s, [tt]).
End Joybus.

(** * The data CRC detects every single-bit error *)

Lemma crc_bit_u8 c b : u8 (crc_bit c b) = u8 (crc_bit (u8 c) b).
Proof.
  unfold crc_bit. cbv zeta.
  assert (E : Z.land c 0x80 = Z.land (u8 c) 0x80).
  { unfold u8. change 256 with (2 ^ 8). rewrite <- Z.land_ones, <- Z.land_assoc by lia. f_equal. }
  rewrite <- E. set (x := if negb (Z.land c 128 =? 0) then 133 else 0).
  assert (L : forall y, u8 y = Z.land y (Z.ones 8)) by (intros y; rewrite Z.land_ones by lia; reflexivity).
  assert (L32 : forall y, u32 y = Z.land y (Z.ones 32)) by (intros y; rewrite Z.land_ones by lia; reflexivity).
  rewrite !L, !L32. apply Z.bits_inj'. intros n Hn.
  rewrite !Z.land_spec, !Z.lxor_spec. destruct (Z.ltb_spec n 8).
  2: { rewrite (Z.ones_spec_high 8) by lia. rewrite !andb_false_r. reflexivity. }
  f_equal. f_equal.
  assert (T : Z.testbit (Z.land (Z.shiftl c 1) (Z.ones 32)) n = Z.testbit (Z.land (Z.shiftl (Z.land c (Z.ones 8)) 1) (Z.ones 32)) n).
  { rewrite !Z.land_spec, !Z.shiftl_spec by lia. f_equal. destruct (Z.eq_dec n 0) as [->|N]; [reflexivity|].
    rewrite Z.land_spec, (Z.ones_spec_low 8 (n - 1)) by lia. rewrite andb_true_r. reflexivity. }
  destruct b; [rewrite !Z.lor_spec|]; rewrite T; reflexivity.
Qed.

(** One step on the register's eight bits is linear over exclusive or. *)
Definition crc8 (c : Z) (b : bool) : Z :=
  Z.lxor (Z.lxor (u8 (2 * c)) (if b then 1 else 0)) (if Z.testbit c 7 then 0x85 else 0).
Definition all_bytes : list Z := seqZ 0 256.
Lemma crc8_steps : forallb (fun c => forallb (fun b => u8 (crc_bit c b) =? crc8 c b) [false; true]) all_bytes = true.
Proof. vm_compute. reflexivity. Qed.

Lemma crc_fold bits c : u8 (fold_left crc_bit bits c) = fold_left crc8 bits (u8 c).
Proof.
  revert c. induction bits as [|b bits IH]; intros c; cbn [fold_left]; [reflexivity|].
  rewrite IH. f_equal. rewrite crc_bit_u8.
  pose proof (u8_range c) as Hc. unfold is_u8 in Hc. pose proof crc8_steps as Hs. rewrite forallb_forall in Hs.
  specialize (Hs (u8 c)). rewrite forallb_forall in Hs. apply Z.eqb_eq, Hs.
  - apply list_elem_of_In. apply elem_of_seqZ. lia.
  - destruct b; cbn; auto.
Qed.

Lemma u8_double_lxor a b : u8 (2 * Z.lxor a b) = Z.lxor (u8 (2 * a)) (u8 (2 * b)).
Proof.
  unfold u8. change 256 with (2 ^ 8). rewrite <- !Z.land_ones by lia.
  rewrite !(Z.mul_comm 2). change 2 with (2 ^ 1). rewrite <- !Z.shiftl_mul_pow2 by lia.
  apply Z.bits_inj'. intros n Hn. rewrite Z.lxor_spec, !Z.land_spec, !Z.shiftl_spec, Z.lxor_spec by assumption.
  destruct (Z.testbit a (n - 1)), (Z.testbit b (n - 1)), (Z.testbit (Z.ones 8) n); reflexivity.
Qed.
Lemma crc8_linear c d a b : crc8 (Z.lxor c d) (xorb a b) = Z.lxor (crc8 c a) (crc8 d b).
Proof.
  unfold crc8. rewrite u8_double_lxor, Z.lxor_spec.
  assert (E1 : (if xorb a b then 1 else 0) = Z.lxor (if a then 1 else 0) (if b then 1 else 0)) by (destruct a, b; reflexivity).
  assert (E2 : (if xorb (Z.testbit c 7) (Z.testbit d 7) then 0x85 else 0) =
               Z.lxor (if Z.testbit c 7 then 0x85 else 0) (if Z.testbit d 7 then 0x85 else 0))
    by (destruct (Z.testbit c 7), (Z.testbit d 7); reflexivity).
  rewrite E1, E2. apply Z.bits_inj'. intros n Hn. rewrite !Z.lxor_spec.
  repeat match goal with |- context [Z.testbit ?x n] => generalize (Z.testbit x n); intros [] end; reflexivity.
Qed.
Lemma crc_fold_linear bs es c d : length bs = length es ->
  fold_left crc8 (zip_with xorb bs es) (Z.lxor c d) = Z.lxor (fold_left crc8 bs c) (fold_left crc8 es d).
Proof.
  revert es c d. induction bs as [|b bs IH]; intros [|e es] c d Hl; try discriminate; [reflexivity|].
  cbn [zip_with fold_left]. rewrite crc8_linear. apply IH. cbn in Hl. lia.
Qed.

Lemma byte_bits_testbit v : byte_bits v = map (Z.testbit v) [7; 6; 5; 4; 3; 2; 1; 0].
Proof.
  change (byte_bits v) with (map (fun n => negb (Z.land v (2 ^ n) =? 0)) [7; 6; 5; 4; 3; 2; 1; 0]).
  apply map_ext_in. intros n Hn. rewrite land_pow2, negb_involutive; [reflexivity|].
  cbn in Hn. lia.
Qed.
Lemma byte_bits_lxor v w : byte_bits (Z.lxor v w) = zip_with xorb (byte_bits v) (byte_bits w).
Proof. rewrite !byte_bits_testbit. cbn [map zip_with]. rewrite !Z.lxor_spec. reflexivity. Qed.
Lemma crc_bits_lxor ds es : length ds = length es ->
  crc_bits (zip_with Z.lxor ds es) = zip_with xorb (crc_bits ds) (crc_bits es).
Proof.
  unfold crc_bits. intros Hl.
  assert (E : forall ds es, length ds = length es ->
    List.concat (map byte_bits (zip_with Z.lxor ds es)) =
    zip_with xorb (List.concat (map byte_bits ds)) (List.concat (map byte_bits es)) /\
    length (List.concat (map byte_bits ds)) = length (List.concat (map byte_bits es))).
  { clear. induction ds as [|d ds IH]; intros [|e es] Hl; try discriminate; [split; reflexivity|].
    cbn [zip_with map List.concat]. destruct (IH es ltac:(cbn in Hl; lia)) as [E1 E2].
    rewrite byte_bits_lxor, E1. split; [symmetry; apply zip_with_app; reflexivity|].
    rewrite !length_app, E2. reflexivity. }
  destruct (E ds es Hl) as [-> E2]. rewrite zip_with_app by assumption. reflexivity.
Qed.

(** The error that flips bit [j] of byte [i] of a block. *)
Definition flip (i j : nat) : list Z := <[i := 2 ^ Z.of_nat j]> (replicate 32 0).

Lemma crc_flip_nonzero : forallb (fun i => forallb (fun j =>
  negb (fold_left crc8 (crc_bits (flip i j)) 0 =? 0)) (seq 0 8)) (seq 0 32) = true.
Proof. vm_compute. reflexivity. Qed.

(** The data checksum of a block differs from that of the block with any one bit flipped. *)
Theorem data_crc_detects_bit_flips data i j : length data = 32%nat -> (i < 32)%nat -> (j < 8)%nat ->
  data_crc (zip_with Z.lxor data (flip i j)) <> data_crc data.
Proof.
  intros Hd Hi Hj. unfold data_crc. rewrite !crc_fold. change (u8 0) with 0.
  assert (Hf : length (flip i j) = 32%nat) by (unfold flip; rewrite length_insert; reflexivity).
  rewrite crc_bits_lxor by congruence. change 0 with (Z.lxor 0 0) at 1.
  rewrite crc_fold_linear.
  - pose proof crc_flip_nonzero as H. rewrite forallb_forall in H. specialize (H i ltac:(apply in_seq; lia)).
    rewrite forallb_forall in H. specialize (H j ltac:(apply in_seq; lia)).
    set (e := fold_left crc8 (crc_bits (flip i j)) 0) in *. set (d := fold_left crc8 (crc_bits data) 0).
    intros E. apply (f_equal (Z.lxor d)) in E. rewrite <- Z.lxor_assoc, Z.lxor_nilpotent, Z.lxor_0_l in E.
    rewrite E in H. discriminate.
  - unfold crc_bits. rewrite !length_app. f_equal.
    assert (L : forall l, length (List.concat (map byte_bits l)) = (8 * length l)%nat).
    { induction l as [|x l IH]; cbn [map List.concat length]; [reflexivity|]. rewrite length_app, IH. cbn. lia. }
    rewrite !L. congruence.
Qed.

(** * The command loop *)

Section Loop.
Context {S : Type} `{PO : PakOps S}.

Lemma size_set_n blk i vs : vec_size (set_n blk i vs) = vec_size blk.
Proof.
  revert blk i. induction vs as [|v vs IH]; intros blk i; cbn [set_n]; [reflexivity|].
  rewrite IH. unfold vec_size, set_byte. rewrite length_insert. reflexivity.
Qed.
Lemma size_no_device blk p : vec_size (no_device blk p) = vec_size blk.
Proof. unfold no_device, vec_size, set_byte. rewrite length_insert. reflexivity. Qed.
Lemma size_set_byte blk i v : vec_size (set_byte blk i v) = vec_size blk.
Proof. unfold vec_size, set_byte. rewrite length_insert. reflexivity. Qed.

Lemma frame_size chan p tx rx blk s blk' s' : frame chan p tx rx blk s = Some (blk', s') -> vec_size blk' = vec_size blk.
Proof.
  unfold frame. destruct (get blk (p + 2)) as [cmd|]; [|discriminate].
  destruct (cmd =? JOY_INFO).
  { intros [= <- <-]. destruct (rx >=? 3); rewrite ?size_set_byte; reflexivity. }
  destruct (cmd =? JOY_READ).
  { destruct (frame_addr blk (p + 2)); [|discriminate]. destruct (pak_read _ _ _) as [[ret data] s1].
    intros [= <- <-]. destruct (_ && _); rewrite ?size_set_byte, ?size_set_n, ?size_no_device; reflexivity. }
  destruct (cmd =? JOY_WRITE).
  { destruct (frame_addr blk (p + 2)); [|discriminate]. destruct (get_n _ _ _); [|discriminate].
    destruct (pak_write _ _ _ _) as [ret s1]. intros [= <- <-].
    destruct (_ && _); rewrite ?size_set_byte, ?size_no_device; reflexivity. }
  destruct (cmd =? JOY_STATE); intros [= <- <-]; rewrite ?size_set_n; reflexivity.
Qed.

Lemma land_3f_nonneg v : 0 <= Z.land v 0x3F.
Proof. change 0x3F with (2 ^ 6 - 1). rewrite land_ones_mod by lia. apply Z.mod_pos_bound. lia. Qed.

Lemma run_frames_total fuel p chan blk s : 0 <= p -> 64 - p <= Z.of_nat fuel -> 0 < Z.of_nat fuel ->
  run_frames fuel p chan blk s = OutOfBlock \/
  exists blk' s', run_frames fuel p chan blk s = Answered blk' s' /\ vec_size blk' = vec_size blk.
Proof.
  revert p chan blk s. induction fuel as [|fuel IH]; intros p chan blk s H0 Hf Hp; [lia|]. cbn [run_frames].
  destruct (Z.ltb_spec p 63) as [Hlt|Hge]; cbn [negb]; [|right; eauto].
  pose proof (land_3f_nonneg (byte_at blk p)). pose proof (land_3f_nonneg (byte_at blk (p + 1))).
  destruct (_ =? 0xFE); [right; eauto|].
  destruct (_ =? 0xFF); [apply IH; lia|]. destruct (_ =? 0x00); [apply IH; lia|]. destruct (_ =? 0xFD); [apply IH; lia|].
  destruct (_ >? 64); [right; eauto|]. destruct (_ || _); [apply IH; lia|].
  destruct (frame _ _ _ _ _ _) as [[blk1 s1]|] eqn:E; [|left; reflexivity].
  apply frame_size in E. destruct (IH (p + 2 + Z.land (byte_at blk p) 0x3F + Z.land (byte_at blk (p + 1)) 0x3F) (chan + 1) blk1 s1)
    as [Hr|(b & s2 & Hr & Hs)]; [lia..|left; exact Hr|]. right. exists b, s2. split; [exact Hr|congruence].
Qed.

Lemma byte_at_set_n blk i vs j : 0 <= i -> i + vec_size vs <= vec_size blk -> 0 <= j ->
  byte_at (set_n blk i vs) j = if (i <=? j) && (j <? i + vec_size vs) then byte_at vs (j - i) else byte_at blk j.
Proof.
  revert blk i. induction vs as [|v vs IH]; intros blk i Hi Hs Hj; cbn [set_n].
  - change (vec_size []) with 0. destruct (Z.leb_spec i j), (Z.ltb_spec j (i + 0)); (lia || reflexivity).
  - assert (E : vec_size (v :: vs) = vec_size vs + 1) by (unfold vec_size; cbn [length]; lia).
    assert (0 <= vec_size vs) by (unfold vec_size; lia). rewrite E in *.
    rewrite IH by (rewrite ?size_set_byte; lia). rewrite byte_at_set by lia.
    destruct (Z.leb_spec (i + 1) j), (Z.leb_spec i j), (Z.ltb_spec j (i + 1 + vec_size vs)), (Z.ltb_spec j (i + (vec_size vs + 1)));
      cbn [andb]; try lia; destruct (Z.eqb_spec i j); try lia; try reflexivity.
    + unfold byte_at. replace (Z.to_nat (j - i)) with (Datatypes.S (Z.to_nat (j - (i + 1)))) by lia. reflexivity.
    + subst j. rewrite Z.sub_diag. reflexivity.
Qed.
Lemma get_inside blk i : 0 <= i < 64 -> get blk i = Some (byte_at blk i).
Proof. intros Hi. unfold get. destruct (Z.leb_spec 0 i), (Z.ltb_spec i 64); (lia || reflexivity). Qed.
Lemma get_n_inside blk i n : 0 <= i -> i + Z.of_nat n <= 64 -> exists vs, get_n blk i n = Some vs.
Proof.
  revert i. induction n as [|n IH]; intros i Hi Hn; cbn [get_n]; [eauto|].
  rewrite get_inside by lia. destruct (IH (i + 1) ltac:(lia) ltac:(lia)) as [vs ->]. eauto.
Qed.

(** A frame inside the block whose transmit length covers its command is answered without a read outside the block. *)
Theorem frame_reads_inside chan p tx rx blk s : 0 <= p -> 1 <= tx -> 0 <= rx -> p + 2 + tx + rx <= 64 ->
  (byte_at blk (p + 2) = JOY_READ -> 3 <= tx) -> (byte_at blk (p + 2) = JOY_WRITE -> 35 <= tx) ->
  exists blk' s', frame chan p tx rx blk s = Some (blk', s') /\ vec_size blk' = vec_size blk.
Proof.
  intros Hp Htx Hrx Hf Hr Hw.
  assert (H : exists r, frame chan p tx rx blk s = Some r).
  { unfold frame. rewrite get_inside by lia.
    destruct (Z.eqb_spec (byte_at blk (p + 2)) JOY_INFO) as [_|_]; [eauto|].
    destruct (Z.eqb_spec (byte_at blk (p + 2)) JOY_READ) as [E|_].
    { specialize (Hr E). unfold frame_addr. rewrite !get_inside by lia. destruct (pak_read _ _ _) as [[ret data] s1]. eauto. }
    destruct (Z.eqb_spec (byte_at blk (p + 2)) JOY_WRITE) as [E|_].
    { specialize (Hw E). unfold frame_addr. rewrite !get_inside by lia.
      destruct (get_n_inside blk (p + 2 + 3) 32) as [vs ->]; [lia..|].
      destruct (pak_write _ _ _ _) as [ret s1]. eauto. }
    destruct (_ =? JOY_STATE); eauto. }
  destruct H as [[blk' s'] E]. exists blk', s'. split; [exact E|]. apply (frame_size _ _ _ _ _ _ _ _ E).
Qed.

(** The block number of a command with its address at [p + 3]. *)
Definition frame_block (blk : list Z) (p : Z) : Z :=
  Z.shiftr (u16 (Z.lor (Z.shiftl (byte_at blk (p + 3)) 8) (byte_at blk (p + 4)))) 5.

(** The reply to a read frame is the accessory's 32 bytes and their checksum, or the no-device bit when the accessory fails; nothing else changes. *)
Theorem joybus_read_reply `{PL : !PakLaws S} chan p blk s ret data s' :
  vec_size blk = 64 -> 0 <= p -> p + 38 <= 64 -> byte_at blk (p + 2) = JOY_READ ->
  pak_read chan (frame_block blk p) s = ((ret, data), s') ->
  exists blk', frame chan p 3 33 blk s = Some (blk', s') /\
    forall i, 0 <= i ->
      byte_at blk' i =
      if ret =? 0 then
        if (p + 5 <=? i) && (i <? p + 37) then byte_at data (i - (p + 5))
        else if i =? p + 37 then data_crc data else byte_at blk i
      else if i =? p + 1 then u8 (Z.lor (byte_at blk (p + 1)) RX_NO_DEVICE) else byte_at blk i.
Proof.
  intros Hb Hp H38 Hc Hr. unfold frame. rewrite get_inside by lia. rewrite Hc. cbn [Z.eqb JOY_READ JOY_INFO Pos.eqb].
  unfold frame_addr. rewrite !get_inside by lia. replace (p + 2 + 1) with (p + 3) by lia. replace (p + 2 + 2) with (p + 4) by lia.
  unfold frame_block in Hr. rewrite Hr. eexists. split; [reflexivity|]. intros i Hi.
  change (33 >=? 33) with true. rewrite andb_true_r. destruct (Z.eqb_spec ret 0) as [->|Nr].
  - apply pak_read_length in Hr. rewrite byte_at_set by (rewrite ?size_set_n; lia).
    rewrite byte_at_set_n by lia. rewrite Hr. replace (p + 2 + 3 + 32) with (p + 37) by lia.
    replace (p + 2 + 3) with (p + 5) by lia.
    destruct (Z.eqb_spec (p + 37) i), (Z.eqb_spec i (p + 37)), (Z.leb_spec (p + 5) i), (Z.ltb_spec i (p + 37));
      (lia || reflexivity).
  - unfold no_device. rewrite byte_at_set by lia.
    destruct (Z.eqb_spec (p + 1) i), (Z.eqb_spec i (p + 1)); (lia || reflexivity).
Qed.

(** Guest memory after the reply is stored. *)
Context {M : Type} `{RL : RdramLaws M}.
Lemma stored_block_get pif i bytes rdram a :
  MEM_B a (store_bytes pif i bytes rdram) =
  if (pif + i <=? a) && (a <? pif + i + vec_size bytes) then s8 (byte_at bytes (a - (pif + i))) else MEM_B a rdram.
Proof.
  revert i rdram. induction bytes as [|b bytes IH]; intros i rdram; cbn [store_bytes].
  - change (vec_size []) with 0. destruct (Z.leb_spec (pif + i) a), (Z.ltb_spec a (pif + i + 0)); (lia || reflexivity).
  - assert (E : vec_size (b :: bytes) = vec_size bytes + 1) by (unfold vec_size; cbn [length]; lia).
    assert (0 <= vec_size bytes) by (unfold vec_size; lia). rewrite E, IH, mem_b_put.
    destruct (Z.leb_spec (pif + (i + 1)) a), (Z.leb_spec (pif + i) a), (Z.ltb_spec a (pif + (i + 1) + vec_size bytes)),
      (Z.ltb_spec a (pif + i + (vec_size bytes + 1))); cbn [andb]; try lia; destruct (decide (pif + i = a)); try lia; try reflexivity.
    + unfold byte_at. replace (Z.to_nat (a - (pif + i))) with (Datatypes.S (Z.to_nat (a - (pif + (i + 1))))) by lia. reflexivity.
    + subst a. rewrite Z.sub_diag, s8_of_s8. reflexivity.
Qed.
Lemma fetch_block_get pif (rdram : M) i : 0 <= i < 64 -> byte_at (fetch_block pif rdram) i = u8 (MEM_B (pif + i) rdram).
Proof.
  intros Hi. unfold byte_at, fetch_block. rewrite list_lookup_fmap, lookup_seqZ_lt by lia. cbn. do 3 f_equal. lia.
Qed.
Lemma fetch_block_size pif (rdram : M) : vec_size (fetch_block pif rdram) = 64.
Proof. unfold vec_size, fetch_block. rewrite length_fmap, length_seqZ. reflexivity. Qed.

(** C40: The command loop ends for every block; unless a malformed frame makes it read
    outside, guest memory then holds the answered block and is otherwise unchanged. *)
Theorem run_joybus_block pif (rdram : M) (s : S) :
  answer_block (fetch_block pif rdram) s = OutOfBlock /\ run_joybus pif rdram s = None \/
  exists blk rdram' s', answer_block (fetch_block pif rdram) s = Answered blk s' /\
    run_joybus pif rdram s = Some (rdram', s') /\
    (forall i, 0 <= i < 64 -> MEM_B (pif + i) rdram' = s8 (byte_at blk i)) /\
    (forall a, ~ pif <= a < pif + 64 -> MEM_B a rdram' = MEM_B a rdram).
Proof.
  unfold run_joybus.
  destruct (run_frames_total 64 0 0 (fetch_block pif rdram) s) as [E|(blk & s' & E & Hs)]; [cbn; lia..| |];
    unfold answer_block; rewrite E; [left; split; reflexivity|].
  right. rewrite fetch_block_size in Hs. exists blk, (store_bytes pif 0 blk rdram), s'.
  split; [reflexivity|]. split; [reflexivity|]. split.
  - intros i Hi. rewrite stored_block_get. rewrite Hs.
    destruct (Z.leb_spec (pif + 0) (pif + i)), (Z.ltb_spec (pif + i) (pif + 0 + 64)); try lia. cbn [andb].
    do 2 f_equal. lia.
  - intros a Ha. rewrite stored_block_get, Hs.
    destruct (Z.leb_spec (pif + 0) a), (Z.ltb_spec a (pif + 0 + 64)); (lia || reflexivity).
Qed.

(** Malformed frames that make the loop read past the block. *)
Theorem answer_block_reads_outside (s : S) :
  answer_block (replicate 62 0xFF ++ [0x40; 0x00]) s = OutOfBlock /\
  answer_block (replicate 54 0xFF ++ [3; 1; JOY_WRITE; 0; 0; 0; 0xFE; 0; 0; 0]) s = OutOfBlock.
Proof. split; reflexivity. Qed.
End Loop.

(** * The cart model behind the interface *)

Lemma read_bytes_length n p a : length (fst (read_bytes n p a)) = n.
Proof.
  revert p a. induction n as [|n IH]; intros p a; cbn [read_bytes]; [reflexivity|].
  destruct (port_read p (u16 a)) as [v p1]. specialize (IH p1 (a + 1)). destruct (read_bytes n p1 (a + 1)). cbn in *. lia.
Qed.
#[export] Instance gbcart_laws writable : @PakLaws paks (gbcart_pak writable).
Proof.
  constructor; cbn [pak_read gbcart_pak pak_has].
  - intros port b s data s'. unfold read_block. destruct (negb _); [discriminate|]. cbn [negb].
    destruct (_ <=? _).
    + destruct (port_read _ _) as [v p]. intros [= <- <-]. reflexivity.
    + pose proof (read_bytes_length (Z.to_nat block_size) (ports s port) (u16 (b * block_size))) as Hl.
      destruct (read_bytes _ _ _) as [vs p]. intros [= <- <-]. cbn [fst] in Hl. unfold vec_size. rewrite Hl. reflexivity.
  - intros port b s Hn. unfold read_block. rewrite Hn. discriminate.
Qed.
