(* ===== verification/EventRing.v ===== *)
(** The always-on diagnostic rings: the message-queue log of
    ultramodern/src/mesgqueue.cpp ([mesg_log]), the scheduler log of
    ultramodern/src/threadqueue.cpp ([sched_log]), the DMA trace of
    librecomp/src/rsp.cpp and the block log of librecomp/src/gbcart.cpp.

    All are rings of events overwritten in order and read out oldest first; the
    message log adds a hash table keyed by queue and the scheduler log a table
    keyed by thread id, from which nothing is evicted.  Clocks are arguments. *)

From S2P Require Import Prelude Bytes GuestMem Kernel RspMem GbCart.
From Stdlib Require Import ZArith Lia Bool List.
From stdpp Require Import base list gmap.
Open Scope Z_scope.

(** * A ring *)

Section Ring.
Context {E : Type} (wrap : Z -> Z) (cap : Z).

(** [slots] are the elements written so far; [next_seq] is a counter that
    wraps at the width of its type. *)
Record ring := Ring { next_seq : Z; slots : gmap Z E }.
Definition ring_empty : ring := Ring 0 ∅.
(** [ring[s % cap] = e], with [s] the counter before. *)
Definition ring_record (e : Z -> E) (r : ring) : ring :=
  Ring (wrap (next_seq r + 1)) (<[next_seq r mod cap := e (next_seq r)]> (slots r)).

(** [ultramodern_mesg_recent_copy], [ultramodern_sched_recent_copy]: [out] is
    the capacity of the caller's buffer, 0 also for a null pointer. *)
Definition recent_copy (out : Z) (r : ring) : list (option E) :=
  if out =? 0 then []
  else
    let available := Z.min (next_seq r) cap in
    let want := Z.min out available in
    let start := (next_seq r - want) mod cap in
    (fun i => slots r !! ((start + i) mod cap)) <$> seqZ 0 want.

(** [recomp_rsp_dma_recent_copy], which reduces the index only once. *)
Definition dma_recent_copy (out : Z) (r : ring) : list (option E) :=
  if out =? 0 then []
  else
    let count := Z.min (next_seq r) cap in
    let count := if count >? out then out else count in
    let start := next_seq r - count in
    (fun i => slots r !! ((start + i) mod cap)) <$> seqZ 0 count.
End Ring.
Arguments ring : clear implicits.

(** * The message-queue log *)

Module MesgLog.
Record MesgEvent := MkMesgEvent {
  ev_seq : Z; ev_ms : Z; ev_mq : Z; ev_msg : Z; ev_thread : Z; ev_thread_id : Z; valid_before : Z; valid_after : Z;
  ev_op : Z; ev_block : Z; ev_game_thread : Z }.

Definition RING_CAP : Z := 65536.
Definition QEVENTS : Z := 64.
Definition QCAP : Z := 1024.

(** A slot of the per-queue table; [q_queue] is 0 in an empty one. *)
Record QState := MkQState { q_queue : Z; q_count : Z; q_last : gmap Z MesgEvent }.
Definition no_queue : QState := MkQState 0 0 ∅.
Abbreviation qtable := (gmap Z QState).
Definition slot_at (t : qtable) (i : Z) : QState := default no_queue (t !! i).

(** The probe loop of [qstate_push]; [None] when every slot is another's. *)
Fixpoint qprobe (n : nat) (t : qtable) (mq h probe : Z) : option Z :=
  match n with
  | O => None
  | S n =>
      let i := (h + probe) mod QCAP in
      if (q_queue (slot_at t i) =? 0) || (q_queue (slot_at t i) =? mq) then Some i
      else qprobe n t mq h (probe + 1)
  end.
Definition qfind (t : qtable) (mq : Z) : option Z :=
  qprobe (Z.to_nat QCAP) t mq (Z.shiftr mq 3 mod QCAP) 0.
Definition qstate_push (mq : Z) (e : MesgEvent) (t : qtable) : qtable :=
  if mq =? 0 then t
  else
    match qfind t mq with
    | None => t
    | Some i =>
        let q := slot_at t i in
        <[i := MkQState mq (u32 (q_count q + 1)) (<[Z.land (q_count q) (QEVENTS - 1) := e]> (q_last q))]> t
    end.

(** [current_thread]: [None] is a null [rdram]. *)
Definition current_thread (s : option kstate) : Z * Z :=
  match s with
  | None => (0, 0)
  | Some s => if thread_self s =? NULLPTR then (0, 0) else (u32 (thread_self s), u16 (t_id (thread_self s) s))
  end.

Record mesg_log := MkMesgLog { events : ring MesgEvent; qstates : qtable }.
Definition mesg_record (s : option kstate) (now_ms op mq msg vb va : Z) (block game_thread : bool) (l : mesg_log) : mesg_log :=
  let '(thread, thread_id) := current_thread s in
  let e := fun seq => MkMesgEvent seq now_ms mq msg thread thread_id vb va op
                        (if block then 1 else 0) (if game_thread then 1 else 0) in
  MkMesgLog (ring_record u64 RING_CAP e (events l)) (qstate_push mq (e (next_seq (events l))) (qstates l)).

(** [ultramodern_mesg_qstates_copy] *)
Definition qstates_copy (out : Z) (t : qtable) : list QState :=
  take (Z.to_nat out) (List.filter (fun q => negb (q_queue q =? 0)) (slot_at t <$> seqZ 0 QCAP)).
End MesgLog.

(** * The scheduler log *)

Module SchedLog.
Record SchedEvent := MkSchedEvent {
  ev_seq : Z; ev_ms : Z; ev_op : Z; ev_queue : Z; ev_thread : Z; ev_current : Z; head_after : Z; next_after : Z;
  ev_thread_id : Z; ev_current_id : Z; ev_priority : Z }.
Definition OP_INSERT : Z := 1.
Definition SCHED_RING_CAP : Z := 65536.
Definition MAX_TID : Z := 1024.

Definition thread_id (t : Z) (s : kstate) : Z := if t =? NULLPTR then 0 else u16 (t_id t s).
Definition thread_priority (t : Z) (s : kstate) : Z := if t =? NULLPTR then 0 else s16 (t_priority t s).

Record ThreadState := MkThreadState {
  ts_id : Z; ts_thread : Z; ts_priority : Z; last_op : Z; last_queue : Z; last_head_after : Z; last_ms : Z;
  last_mq : Z; last_mq_ms : Z; ts_count : Z }.
Definition no_thread : ThreadState := MkThreadState 0 0 0 0 0 0 0 0 0 0.

(** [thread_states]; an absent entry is one that is not [valid]. *)
Record sched_log := MkSchedLog { events : ring SchedEvent; thread_states : gmap Z ThreadState }.
Definition sched_record (op queue thread head now_ms : Z) (s : kstate) (l : sched_log) : sched_log :=
  let e := fun seq => MkSchedEvent seq now_ms op (u32 queue) (u32 thread) (u32 (thread_self s)) (u32 head)
             (if negb (thread =? NULLPTR) then u32 (t_next thread s) else 0)
             (thread_id thread s) (thread_id (thread_self s) s) (thread_priority thread s) in
  let ev := e (next_seq (events l)) in
  let tid := ev_thread_id ev in
  let states :=
    if (tid <? MAX_TID) && negb ((tid =? 0) && (thread =? NULLPTR)) then
      let ts := default no_thread (thread_states l !! tid) in
      let waits := (op =? OP_INSERT) && negb (ev_queue ev =? 0xFFFFFFFF) && negb (ev_queue ev =? 0) in
      <[tid := MkThreadState tid (ev_thread ev) (ev_priority ev) op (ev_queue ev) (head_after ev) now_ms
                 (if waits then ev_queue ev else last_mq ts) (if waits then now_ms else last_mq_ms ts)
                 (u64 (ts_count ts + 1))]> (thread_states l)
    else thread_states l in
  MkSchedLog (ring_record u64 SCHED_RING_CAP e (events l)) states.

(** [queue_head_or_zero], [scheduler_trace_mark] *)
Definition queue_head_or_zero (queue : Z) (s : kstate) : Z :=
  if queue =? NULLPTR then NULLPTR else read_link (queue_to_ptr queue) s.
Definition scheduler_trace_mark (op queue thread now_ms : Z) (s : kstate) (l : sched_log) : sched_log :=
  sched_record op queue thread (queue_head_or_zero queue s) now_ms s l.

(** [ultramodern_sched_thread_states_copy] *)
Definition thread_states_copy (out : Z) (l : sched_log) : list ThreadState :=
  take (Z.to_nat out) (omap (fun i => thread_states l !! i) (seqZ 0 MAX_TID)).
End SchedLog.

(** * The DMA trace *)

Module DmaLog.
Record RspDmaTraceEvent := MkDmaEvent {
  ev_seq : Z; ev_write : Z; ev_dmem : Z; ev_dram : Z; byte_count : Z; nonzero_bytes : Z; first_nonzero : Z;
  first16 : gmap Z Z }.
(** The scan of the transferred bytes: their count, the first, a prefix. *)
Definition trace_dma (cap : Z) (write : bool) (dmem_addr dram_addr count : Z) (d : dmem_t) (r : ring RspDmaTraceEvent) : ring RspDmaTraceEvent :=
  let capped := Z.min count (0x1000 - Z.land dmem_addr 0xFFF) in
  let '(nonzero, first, prefix) :=
    for_u32 0 capped (fun i '(nonzero, first, prefix) =>
      let b := RSP_MEM_BU i dmem_addr d in
      let prefix := if i <? 80 then <[i := b]> prefix else prefix in
      if negb (b =? 0) then (nonzero + 1, if first <? 0 then i else first, prefix) else (nonzero, first, prefix))
      (0, -1, gset_to_gmap 0 (list_to_set (seqZ 0 80) : gset Z)) in
  ring_record u64 cap (fun seq => MkDmaEvent seq (if write then 1 else 0) dmem_addr dram_addr count nonzero first prefix) r.
End DmaLog.

(** * The Transfer Pak block log *)

Module BlockLog.
Record RingEntry := MkEntry {
  e_seq : Z; tstamp_us : Z; thread_ptr : Z; block_addr : Z; e_rom_bank : Z; e_port : Z; kind : Z; addr_bank : Z;
  flags : Z; e_ram_bank : Z; e_mbc1_mode : Z; b0 : Z }.
Definition ring_cap : Z := 65536.
Definition ring_append (port k block first now_us self : Z) (s : paks) (r : ring RingEntry) : ring RingEntry :=
  let p := ports s port in
  ring_record u32 ring_cap (fun seq => MkEntry seq now_us (u32 self) block
    (u16 (selected_switchable_rom_bank (cart p))) (u8 port) k (address_bank p)
    (Z.lor (if pak_enabled p then 1 else 0) (Z.lor (if cart_enabled p then 2 else 0) (if ram_enabled (cart p) then 4 else 0)))
    (ram_bank (cart p)) (u8 (mbc1_mode (cart p))) first) r.
End BlockLog.

(** * Reading a ring back *)

Section RingSpec.
Context {E : Type} (wrap : Z -> Z) (bound cap : Z).
Context (Hwrap : forall k, 0 <= k < bound -> wrap k = k) (Hcap : 0 < cap).

(** The events of a history: each is made from its sequence number. *)
Definition stamped (h : list (Z -> E)) : list E := imap (fun i e => e (Z.of_nat i)) h.
Definition ring_of (h : list (Z -> E)) : ring E := fold_left (fun r e => ring_record wrap cap e r) h ring_empty.

Lemma ring_of_snoc h e : ring_of (h ++ [e]) = ring_record wrap cap e (ring_of h).
Proof. unfold ring_of. rewrite fold_left_app. reflexivity. Qed.
Lemma stamped_snoc h e : stamped (h ++ [e]) = stamped h ++ [e (Z.of_nat (length h))].
Proof. unfold stamped. rewrite imap_app. cbn. rewrite Nat.add_0_r. reflexivity. Qed.
Lemma stamped_length h : length (stamped h) = length h.
Proof. unfold stamped. apply length_imap. Qed.

Lemma mod_window a b : 0 <= b - a < cap -> a mod cap = b mod cap -> a = b.
Proof. 
  intros H E0. pose proof (Z.div_mod a cap ltac:(lia)). pose proof (Z.div_mod b cap ltac:(lia)).
  assert (b / cap = a / cap) by nia. nia.
Qed.

Lemma ring_of_spec h : Z.of_nat (length h) < bound ->
  next_seq (ring_of h) = Z.of_nat (length h) /\
  forall j, Z.of_nat (length h) - cap <= Z.of_nat j -> (j < length h)%nat ->
    slots (ring_of h) !! (Z.of_nat j mod cap) = stamped h !! j.
Proof.
  induction h as [|e h IH] using rev_ind; intros Hb; [split; [reflexivity|intros j _ Hj; cbn in Hj; lia]|].
  rewrite length_app in *. cbn [length] in *. destruct (IH ltac:(lia)) as [IH1 IH2].
  rewrite ring_of_snoc, stamped_snoc. unfold ring_record. cbn [next_seq slots]. rewrite IH1.
  split; [rewrite Hwrap by lia; lia|]. intros j Hj1 Hj2.
  destruct (decide (j = length h)) as [->|N].
  - rewrite lookup_insert_eq, lookup_app_r, stamped_length, Nat.sub_diag by (rewrite stamped_length; lia). reflexivity.
  - rewrite lookup_insert_ne.
    + rewrite lookup_app_l by (rewrite stamped_length; lia). apply IH2; lia.
    + intros E0. symmetry in E0. apply mod_window in E0; lia.
Qed.

Lemma dma_copy_same out (r : ring E) : 0 <= out -> 0 <= next_seq r -> dma_recent_copy cap out r = recent_copy cap out r.
Proof.
  intros Ho Hn. unfold dma_recent_copy, recent_copy. destruct (out =? 0); [reflexivity|].
  assert (Ew : (if Z.min (next_seq r) cap >? out then out else Z.min (next_seq r) cap) = Z.min out (Z.min (next_seq r) cap))
    by (destruct (Z.gtb_spec (Z.min (next_seq r) cap) out); lia).
  cbv zeta. rewrite Ew. apply list_fmap_ext. intros k i Hi. rewrite Z.add_mod_idemp_l by lia. reflexivity.
Qed.

(** Reading a diagnostic ring returns the newest events that fit, oldest first, for every history and buffer size, through either copy routine. *)
Theorem ring_reads_back_newest h out : 0 <= out -> Z.of_nat (length h) < bound ->
  let want := Z.to_nat (Z.min out (Z.min (Z.of_nat (length h)) cap)) in
  recent_copy cap out (ring_of h) = Some <$> drop (length h - want) (stamped h) /\
  dma_recent_copy cap out (ring_of h) = recent_copy cap out (ring_of h).
Proof.
  intros Ho Hb want. destruct (ring_of_spec h Hb) as [Hn Hs].
  split; [|apply dma_copy_same; lia]. unfold recent_copy. rewrite Hn. destruct (Z.eqb_spec out 0) as [->|N].
  - assert (Ew : want = 0%nat) by (unfold want; lia). rewrite Ew, drop_ge by (rewrite stamped_length; lia). reflexivity.
  - cbv zeta. set (w := Z.min out (Z.min (Z.of_nat (length h)) cap)) in *.
    apply list_eq. intros k. rewrite !list_lookup_fmap, lookup_drop. destruct (decide (Z.of_nat k < w)) as [Hk|Hk].
    + rewrite lookup_seqZ_lt by assumption. cbn [fmap option_fmap option_map].
      rewrite Z.add_0_l, Z.add_mod_idemp_l by lia.
      replace (Z.of_nat (length h) - w + Z.of_nat k) with (Z.of_nat (length h - want + k)) by lia.
      rewrite Hs by lia.
      destruct (lookup_lt_is_Some_2 (stamped h) (length h - want + k)) as [x ->]; [rewrite stamped_length; lia|reflexivity].
    + rewrite lookup_seqZ_ge by lia. rewrite lookup_ge_None_2 by (rewrite stamped_length; lia). reflexivity.
Qed.
End RingSpec.

(** * The per-queue table *)

Module MesgLogSpec.
Import MesgLog.

(** The events of one queue, and the slot that keeps them. *)
Definition pushes := list (Z * MesgEvent).
Definition of_queue (mq : Z) (ps : pushes) : list MesgEvent := snd <$> List.filter (fun p => fst p =? mq) ps.
Definition push_all (ps : pushes) (t : qtable) : qtable := fold_left (fun t p => qstate_push (fst p) (snd p) t) ps t.
Definition tracked (t : qtable) (mq i : Z) : Prop := qfind t mq = Some i /\ q_queue (slot_at t i) = mq.

Lemma slot_at_insert t i j q : slot_at (<[i := q]> t) j = if decide (i = j) then q else slot_at t j.
Proof.
  unfold slot_at. destruct (decide (i = j)) as [->|N]; [rewrite lookup_insert_eq; reflexivity|].
  rewrite lookup_insert_ne by assumption. reflexivity.
Qed.

(** A slot that changes hands keeps every other queue's probe. *)
Lemma qprobe_insert n t mq h probe i i' q : qprobe n t mq h probe = Some i ->
  (i' = i /\ q_queue q = mq) \/ (i' <> i /\ q_queue q <> 0 /\ q_queue q <> mq) ->
  qprobe n (<[i' := q]> t) mq h probe = Some i.
Proof.
  intros E H. revert probe E. induction n as [|n IH]; intros probe E; cbn [qprobe] in *; [discriminate|].
  rewrite slot_at_insert. destruct (decide (i' = (h + probe) mod QCAP)) as [->|N].
  - destruct H as [[H1 H2]|(H1 & H2 & H3)].
    + rewrite H2, Z.eqb_refl, orb_true_r. congruence.
    + apply Z.eqb_neq in H2, H3. rewrite H2, H3. cbn [orb].
      destruct ((q_queue (slot_at t ((h + probe) mod QCAP)) =? 0) || _); [congruence|]. apply IH. assumption.
  - destruct ((q_queue (slot_at t ((h + probe) mod QCAP)) =? 0) || _); [assumption|]. apply IH. assumption.
Qed.
Lemma qprobe_hit n t mq h probe i : qprobe n t mq h probe = Some i -> q_queue (slot_at t i) = 0 \/ q_queue (slot_at t i) = mq.
Proof.
  revert probe. induction n as [|n IH]; intros probe E; cbn [qprobe] in E; [discriminate|].
  destruct ((q_queue (slot_at t ((h + probe) mod QCAP)) =? 0) || _) eqn:Eb; [|apply (IH _ E)].
  injection E as <-. apply orb_true_iff in Eb as [Eb|Eb]; apply Z.eqb_eq in Eb; auto.
Qed.

(** One push: the queue's own slot counts it, every other keeps its events. *)
Lemma push_tracked t mq i mq' e : mq <> 0 -> tracked t mq i ->
  tracked (qstate_push mq' e t) mq i /\
  slot_at (qstate_push mq' e t) i =
    if mq' =? mq then MkQState mq (u32 (q_count (slot_at t i) + 1))
                        (<[Z.land (q_count (slot_at t i)) (QEVENTS - 1) := e]> (q_last (slot_at t i)))
    else slot_at t i.
Proof.
  intros Nz [Hf Hq]. unfold qstate_push. destruct (Z.eqb_spec mq' 0) as [->|N0].
  { destruct (Z.eqb_spec 0 mq); [congruence|]. split; [split; assumption|reflexivity]. }
  destruct (Z.eqb_spec mq' mq) as [->|Nm].
  - rewrite Hf. unfold tracked, qfind. rewrite !slot_at_insert, !decide_True by reflexivity. cbn [q_queue].
    split; [|reflexivity]. split; [|reflexivity]. apply qprobe_insert; [exact Hf|]. left. split; reflexivity.
  - destruct (qfind t mq') as [i'|] eqn:Ef; [|split; [split; assumption|reflexivity]].
    assert (Ni : i' <> i).
    { intros ->. apply qprobe_hit in Ef. rewrite Hq in Ef. destruct Ef; congruence. }
    unfold tracked, qfind. rewrite !slot_at_insert, !decide_False by assumption. split; [|reflexivity].
    split; [|assumption]. apply qprobe_insert; [exact Hf|]. right. cbn [q_queue]. auto.
Qed.

Lemma land_63 c k : Z.land (u32 (c + k)) (QEVENTS - 1) = (c + k) mod 64.
Proof.
  change (QEVENTS - 1) with (2 ^ 6 - 1). rewrite land_ones_mod by lia. change (2 ^ 6) with 64. unfold u32.
  apply Z.mod_mod_divide. exists 67108864. reflexivity.
Qed.

(** Once a queue has a slot of the per-queue table it keeps it, with the number of its events and the last 64 of them, whatever other queues record. *)
Theorem queue_history_kept t mq i ps : mq <> 0 -> tracked t mq i -> is_u32 (q_count (slot_at t i)) ->
  let q := slot_at (push_all ps t) i in
  let h := of_queue mq ps in
  tracked (push_all ps t) mq i /\ q_count q = u32 (q_count (slot_at t i) + Z.of_nat (length h)) /\
  forall j e, h !! j = Some e -> Z.of_nat (length h) - 64 <= Z.of_nat j ->
    q_last q !! ((q_count (slot_at t i) + Z.of_nat j) mod 64) = Some e.
Proof.
  intros Nz Ht Hc. cbv zeta. induction ps as [|[mq' e'] ps IH] using rev_ind.
  - cbn. rewrite Z.add_0_r, u32_small by assumption. split; [assumption|]. split; [reflexivity|].
    intros j e Hj. discriminate.
  - unfold push_all in *. rewrite fold_left_app. cbn [fold_left fst snd].
    destruct IH as (IH1 & IH2 & IH3). set (t1 := fold_left _ ps t) in *.
    destruct (push_tracked t1 mq i mq' e' Nz IH1) as [P1 P2]. split; [exact P1|]. rewrite P2.
    unfold of_queue in *. rewrite List.filter_app, fmap_app. cbn [List.filter fst snd].
    destruct (Z.eqb_spec mq' mq) as [->|N]; cbn [fmap list_fmap]; [|rewrite app_nil_r; split; assumption].
    set (h := snd <$> List.filter _ ps) in *. rewrite length_app. cbn [length q_count q_last snd]. rewrite IH2.
    split; [unfold u32; rewrite Z.add_mod_idemp_l by lia; f_equal; lia|].
    intros j e Hj Hl. rewrite land_63. apply lookup_snoc_Some in Hj as [[Hj Hj2]|[-> ->]].
    + rewrite lookup_insert_ne; [apply IH3; [assumption|lia]|]. intros E0.
      symmetry in E0. apply (mod_window 64 ltac:(lia)) in E0; lia.
    + rewrite lookup_insert_eq. reflexivity.
Qed.
End MesgLogSpec.
