(* ===== verification/AudioInput.v ===== *)
(** Audio and controllers: ultramodern/src/audio.cpp and input.cpp, and the calls of
    librecomp/src/ai.cpp, cont.cpp and pak.cpp that games make.

    What the host answers and its clocks are arguments; what it is told is a log.
    Host memory is that of GuestMem, in which a guest byte sits at its address with
    the two low bits flipped; the macros of recomp.h are a class. *)

From S2P Require Import Prelude Floats GuestMem Kernel RspMem Rdram GbCart EventRing.
From Stdlib Require Import ZArith Lia Bool List String SpecFloat.
From stdpp Require Import base list gmap.
Open Scope Z_scope.

(** [MEM_B], [MEM_H], [MEM_W] as a store, at an address of the guest. *)
Class RecompMacros := { mem_b : Z -> hostmem -> Z; mem_b_put : Z -> Z -> hostmem -> hostmem;
  mem_h_put : Z -> Z -> hostmem -> hostmem; mem_w_put : Z -> Z -> hostmem -> hostmem }.
Class RecompLaws `{RecompMacros} := {
  mem_b_is : forall a m, mem_b a m = s8 (hbyte m (Z.lxor (to_off a) 3));
  mem_b_put_is : forall a v m, mem_b_put a v m = <[Z.lxor (to_off a) 3 := u8 v]> m;
  mem_h_put_is : forall a v m, a mod 2 = 0 -> mem_h_put a v m = mem_b_put (a + 1) v (mem_b_put a (v / 256) m) }.

(** * audio.cpp *)

Module Audio.
Section Audio.
Context (nan_of : list Z -> Z).
Abbreviation dmul := (float_mul binary64 nan_of).
Abbreviation dsub := (float_sub binary64 nan_of).
Abbreviation dadd := (float_add binary64 nan_of).
Abbreviation ddiv := (float_div binary64 nan_of).
Abbreviation of_int := (float_of_Z binary64 nan_of).
Abbreviation lt := (float_ltb binary64).

(** The constants, as patterns: 0.5, 1, 4, a thousand million, 0.015, 1e-8, 5e-4. *)
Definition half : Z := 0x3FE0000000000000.
Definition one : Z := 0x3FF0000000000000.
Definition four : Z := 0x4010000000000000.
Definition giga : Z := 0x41CDCD6500000000.
Definition cushion_seconds : Z := 0x3F8EB851EB851EB8.
Definition trim_gain : Z := 0x3E45798EE2308C3A.
Definition trim_limit : Z := 0x3F40624DD2F1A9FC.
Definition minus_trim_limit : Z := 0xBF40624DD2F1A9FC.

Definition AI_SUBMIT_RING_CAP : Z := 8192.
Definition payload_size : Z := 2208.
Record AiSubmitEvent := MkAiSubmit { ai_seq : Z; ai_ms : Z; guest_addr : Z; byte_count : Z; data : list Z }.
(** The clock is in nanoseconds. *)
Record VirtualAiDac := MkDac { remaining_bytes : Z; rate_scale : Z; ever_submitted : bool; last : Z }.
Record PendingAiBuffer := MkPending { pending_addr : Z; pending_bytes : Z; valid : bool }.
Inductive audio_call := Call_set_frequency (freq : Z) | Call_queue_samples (off count : Z) (bytes : list Z).
Record audio_settings := MkSettings { has_set_frequency : bool; has_queue_samples : bool; ai_virtual_enabled : bool; ai_instant_copy : bool }.
Record audio := MkAudio { sample_rate : Z; g_vai : VirtualAiDac; g_ai_pending : PendingAiBuffer; g_ai_submit_ring : ring AiSubmitEvent;
  host_log : list audio_call }.
Definition set_dac (d : VirtualAiDac) (a : audio) : audio := MkAudio (sample_rate a) d (g_ai_pending a) (g_ai_submit_ring a) (host_log a).
Definition set_pending (p : PendingAiBuffer) (a : audio) : audio := MkAudio (sample_rate a) (g_vai a) p (g_ai_submit_ring a) (host_log a).

Context (cfg : audio_settings).
Definition set_audio_frequency (freq : Z) (a : audio) : audio :=
  MkAudio freq (g_vai a) (g_ai_pending a) (g_ai_submit_ring a) (host_log a ++ if has_set_frequency cfg then [Call_set_frequency freq] else []).
Definition init_audio (a : audio) : audio := set_audio_frequency 48000 a.
(** Before anything is called, with the clock at start-up. *)
Definition initial (t0 : Z) : audio := MkAudio 48000 (MkDac 0 one false t0) (MkPending 0 0 false) ring_empty [].

Definition drain_locked (now rate : Z) (d : VirtualAiDac) : VirtualAiDac :=
  let dt := ddiv (of_int (now - last d)) giga in
  let dt := if lt dt 0 then 0 else dt in
  let dt := if lt half dt then half else dt in
  let r := dsub (remaining_bytes d) (dmul (dmul (dmul dt (of_int rate)) four) (rate_scale d)) in
  MkDac (if lt r 0 then 0 else r) (rate_scale d) (ever_submitted d) now.

(** The samples as the host finds them, and the bytes that are recorded. *)
Definition host_bytes (off n : Z) (m : hostmem) : list Z := (fun i => u8 (hbyte m (off + i))) <$> seqZ 0 n.
Definition wire_bytes (paddr n : Z) (m : hostmem) : list Z := (fun i => u8 (hbyte m (Z.lxor (paddr + i) 3))) <$> seqZ 0 n.
Definition recorded_bytes (addr count : Z) : Z :=
  let want := if count >? payload_size then payload_size else count in
  if Z.land addr 0xFFFFFF + want >? 0x800000 then 0 else want.
Definition submit_event (m : hostmem) (ms addr count seq : Z) : AiSubmitEvent :=
  MkAiSubmit seq ms addr count (wire_bytes (Z.land addr 0xFFFFFF) (recorded_bytes addr count) m).
Definition queue_samples (m : hostmem) (addr count : Z) : list audio_call :=
  let sample_count := count / 2 in
  if (0 <? sample_count) && has_queue_samples cfg
  then [Call_queue_samples (to_off (s32 addr)) sample_count (host_bytes (to_off (s32 addr)) (2 * sample_count) m)] else [].
Definition ai_play_buffer (m : hostmem) (ms addr count : Z) (a : audio) : audio :=
  MkAudio (sample_rate a) (g_vai a) (g_ai_pending a) (ring_record u64 AI_SUBMIT_RING_CAP (submit_event m ms addr count) (g_ai_submit_ring a))
    (host_log a ++ queue_samples m addr count).

(** The pointer is a signed word, kept without its sign. *)
Definition queue_audio_buffer (m : hostmem) (now ms ptr count : Z) (a : audio) : audio :=
  let a := if ai_virtual_enabled cfg && (0 <? count)
           then let d := drain_locked now (sample_rate a) (g_vai a) in
                set_dac (MkDac (dadd (remaining_bytes d) (of_int count)) (rate_scale d) true (last d)) a
           else a in
  if ai_instant_copy cfg then ai_play_buffer m ms (u32 ptr) count a
  else
    let p := g_ai_pending a in
    let a := if valid p then ai_play_buffer m ms (pending_addr p) (pending_bytes p) a else a in
    set_pending (MkPending (u32 ptr) count (0 <? count)) a.

(** A conversion of a double to an unsigned word, undefined out of its range. *)
Definition uint32_of (bits : Z) : option Z := in_range 0 4294967295 (Z_of_float Floats.Truncate (Floats.decode binary64 bits)).
Definition trimmed (buffered rate : Z) : Z :=
  let err_bytes := dsub (of_int buffered) (dmul (dmul cushion_seconds (of_int rate)) four) in
  let trim := dmul err_bytes trim_gain in
  let trim := if lt trim_limit trim then trim_limit else trim in
  let trim := if lt trim minus_trim_limit then minus_trim_limit else trim in
  dadd one trim.
(** 0.5f of the size of a sample, of the samples of a retrace, in single precision. *)
Definition cushion_bytes (rate : Z) : option Z :=
  let single z := float_of_Z binary32 nan_of z in
  in_range 0 4294967295 (Z_of_float Floats.Truncate (Floats.decode binary32
    (float_mul binary32 nan_of (float_mul binary32 nan_of 0x3F000000 (single 2)) (single (rate / 60))))).
(** [frames] is what the host reports, if it can. *)
Definition get_remaining_audio_bytes (now : Z) (frames : option Z) (a : audio) : option (Z * audio) :=
  let buffered := match frames with Some n => u32 (n * 2 * 2) | None => 100 end in
  let d := g_vai a in
  if ai_virtual_enabled cfg && ever_submitted d then
    if buffered =? 0 then Some (0, set_dac (MkDac 0 (rate_scale d) true (last d)) a)
    else
      let d := drain_locked now (sample_rate a) (MkDac (remaining_bytes d) (trimmed buffered (sample_rate a)) true (last d)) in
      n ← uint32_of (remaining_bytes d); Some (Z.land n 0xFFFFFFFE, set_dac d a)
  else c ← cushion_bytes (sample_rate a); Some (if buffered >? c then buffered - c else 0, a).

(** * ai.cpp *)

Context `{RecompMacros}.
Definition AI_LEN_REG_ADDR : Z := 0xA4500004 - 4294967296.
(** When the host is asked, and what it answers. *)
Record reading := Reading { at_ns : Z; frames : option Z }.
Definition publish_ai_len (q : reading) (m : hostmem) (a : audio) : option (hostmem * audio) :=
  '(n, a) ← get_remaining_audio_bytes (at_ns q) (frames q) a; Some (mem_w_put AI_LEN_REG_ADDR (s32 n) m, a).
Definition recomp_publish_ai_len := publish_ai_len.
(** Calls of the guest: the value in r2, memory and the state. *)
Definition osAiSetFrequency_recomp (r4 : Z) (m : hostmem) (a : audio) : Z * hostmem * audio := (u32 r4, m, set_audio_frequency (u32 r4) a).
Definition osAiSetNextBuffer_recomp (r4 r5 ms now : Z) (q : reading) (m : hostmem) (a : audio) : option (Z * hostmem * audio) :=
  let a := queue_audio_buffer m now ms (s32 r4) (u32 r5) a in
  '(m, a) ← publish_ai_len q m a; Some (0, m, a).
Definition osAiGetLength_recomp (q q' : reading) (m : hostmem) (a : audio) : option (Z * hostmem * audio) :=
  '(m, a) ← publish_ai_len q m a;
  '(n, a) ← get_remaining_audio_bytes (at_ns q') (frames q') a;
  Some (n, m, a).
Definition osAiGetStatus_recomp : Z := 0.
End Audio.
End Audio.

(** * input.cpp *)

Module Input.
Inductive Device := NoDevice | Controller.
Inductive Pak := NoPak | RumblePak.
Record connected_device_info_t := MkInfo { connected_device : Device; connected_pak : Pak }.
(** What the host offers: the answers for a port, and the state of its buttons and
    stick, in binary32 patterns, if it has one. *)
Record callbacks_t := MkCallbacks { poll_input : bool; get_input : option (Z -> option (Z * Z * Z)); set_rumble : bool;
  device_info : option (Z -> connected_device_info_t) }.
Inductive host_call := Call_poll_input | Call_set_rumble (channel : Z) (on : bool).

Definition MAXCONTROLLERS : Z := 4.
Definition CONT_NO_RESPONSE_ERROR : Z := 8.
Definition CONT_TYPE_NORMAL : Z := 5.
Definition get_connected_device_info (cb : callbacks_t) (controller_num : Z) : connected_device_info_t :=
  match device_info cb with None => MkInfo NoDevice NoPak | Some f => f controller_num end.
Definition get_controller_type (d : Device) : Z := match d with NoDevice => 0 | Controller => CONT_TYPE_NORMAL end.
Definition has_pak (i : connected_device_info_t) : bool := match connected_pak i with NoPak => false | RumblePak => true end.

(** A port's [OSContStatus], with its members reversed: the error, the status, the
    type. *)
Definition report (cb : callbacks_t) (data : Z) (acc : Z * hostmem) (controller : Z) : Z * hostmem :=
  let '(pattern, m) := acc in
  let info := get_connected_device_info cb controller in
  let p := data + 4 * controller in
  match connected_device info with
  | NoDevice => (pattern, store 1 p CONT_NO_RESPONSE_ERROR m)
  | d => (u8 (Z.lor pattern (Z.shiftl 1 controller)), store 1 p 0 (store 1 (p + 1) (b2z (has_pak info)) (store_16 (p + 2) (get_controller_type d) m)))
  end.
Definition osContGetInitData (cb : callbacks_t) (max_controllers data : Z) (m : hostmem) : Z * hostmem :=
  foldl (report cb data) (0, m) (seqZ 0 max_controllers).

Section Input.
Context (nan_of : list Z -> Z) `{RecompMacros} (cb : callbacks_t).
(** Results are what the guest finds in r2, with memory and [max_controllers]. *)
Definition osContInit_recomp (bitpattern data : Z) (m : hostmem) : Z * hostmem * Z :=
  let '(pattern, m) := osContGetInitData cb MAXCONTROLLERS (to_off data) m in
  (0, mem_b_put bitpattern pattern m, MAXCONTROLLERS).
Definition osContGetQuery_recomp (max_controllers data : Z) (m : hostmem) : hostmem :=
  snd (osContGetInitData cb max_controllers (to_off data) m).
Definition osContSetCh_recomp (ch : Z) : Z * Z := (0, Z.min (u8 ch) MAXCONTROLLERS).
(** The message of the serial interface is sent through Events. *)
Definition osContStartReadData_recomp : list host_call := if poll_input cb then [Call_poll_input] else [].

(** Members that nothing has written yet are [None]. *)
Record OSContPad := MkPad { button : option Z; stick_x : option Z; stick_y : option Z; err_no : option Z }.
Definition unwritten : OSContPad := MkPad None None None None.
Definition stick_position (v : Z) : option Z :=
  in_range (-128) 127 (Z_of_float Floats.Truncate (Floats.decode binary32 (float_mul binary32 nan_of (float_of_Z binary32 nan_of 127) v))).
Definition read_pad (p : OSContPad) (controller : Z) : option OSContPad :=
  match get_input cb ≫= (fun f => f controller) with
  | Some (buttons, x, y) => x ← stick_position x; y ← stick_position y; Some (MkPad (Some buttons) (Some x) (Some y) (Some 0))
  | None => Some (MkPad (button p) (stick_x p) (stick_y p) (Some CONT_NO_RESPONSE_ERROR))
  end.
Definition osContGetReadData (max_controllers : Z) (pads : list OSContPad) : option (list OSContPad) :=
  mapM (fun '(i, p) => if Z.of_nat i <? max_controllers then read_pad p (Z.of_nat i) else Some p) (imap pair pads).
(** [None]: a member that was not written is read. *)
Definition store_pad (data : Z) (m : option hostmem) (ip : nat * OSContPad) : option hostmem :=
  m ← m;
  let '(i, p) := ip in
  e ← err_no p;
  if e =? 0
  then b ← button p; x ← stick_x p; y ← stick_y p;
       let a := data + 6 * Z.of_nat i in
       Some (mem_b_put (a + 4) e (mem_b_put (a + 3) y (mem_b_put (a + 2) x (mem_h_put a b m))))
  else Some m.
Definition osContGetReadData_recomp (max_controllers data : Z) (m : hostmem) : option hostmem :=
  pads ← osContGetReadData max_controllers (replicate (Z.to_nat MAXCONTROLLERS) unwritten);
  foldl (store_pad data) (Some m) (imap pair pads).

(** The channel of an [OSPfs] is its third word. *)
Definition osMotorInit_recomp (pfs channel : Z) (m : hostmem) : Z * hostmem := (0, store_32 (to_off pfs + 8) channel m).
Definition osMotorAccess_recomp (pfs flag : Z) (m : hostmem) : Z * list host_call :=
  (0, if set_rumble cb then [Call_set_rumble (load_s32 (to_off pfs + 8) m) (negb (flag =? 0))] else []).
Definition osMotorStart_recomp (pfs : Z) (m : hostmem) := osMotorAccess_recomp pfs 1 m.
Definition osMotorStop_recomp (pfs : Z) (m : hostmem) := osMotorAccess_recomp pfs 0 m.

(** ** pak.cpp: there is no controller pak. *)
Definition PFS_ERR_NOPACK : Z := 1.
Definition osPfsNumFiles_recomp (max_files files_used : Z) (m : hostmem) : Z * hostmem :=
  (PFS_ERR_NOPACK, store_32 (to_off files_used) 0 (store_32 (to_off max_files) 0 m)).
Definition osPfsIsPlug_recomp (pattern_out : Z) (m : hostmem) : Z * hostmem :=
  (0, if pattern_out =? NULLPTR then m
      else mem_b_put pattern_out
             (foldl (fun pattern c => if has_pak (get_connected_device_info cb c) then u8 (Z.lor pattern (Z.shiftl 1 c)) else pattern) 0 (seqZ 0 4)) m).
End Input.
End Input.

(** * gbpak.cpp: the accessory calls of the guest, without the waits *)

Module GbPak.
Section GbPak.
Context `{RecompMacros}.
Definition osContRamRead_recomp (channel address buffer : Z) (s : paks) (m : hostmem) : Z * paks * hostmem :=
  let '(ret, block, s) := read_block channel address true s in
  (ret, s, if ret =? 0 then foldl (fun m '(i, b) => mem_b_put (buffer + Z.of_nat i) (s8 b) m) m (imap pair block) else m).
Definition osContRamWrite_recomp (writable : string -> bool) (channel address buffer : Z) (s : paks) (m : hostmem) : Z * paks :=
  write_block writable channel address (Some ((fun i => u8 (mem_b (buffer + i) m)) <$> seqZ 0 block_size)) s.
Definition osPfsGetStatus_recomp (channel : Z) (s : paks) : Z := if GbCart.has_pak channel s then 0 else 1.
End GbPak.
End GbPak.

(** * Buffers are played one submission later *)

Module AudioSpec.
Import Audio.
Section AudioSpec.
Context (nan_of : list Z -> Z) (cfg : audio_settings).
Record submission := Submitted { sub_mem : hostmem; sub_ms : Z; sub_ptr : Z; sub_count : Z }.
Inductive audio_op := Submit (s : submission) (now : Z) | Ask (now : Z) (frames : option Z) | Frequency (freq : Z).
Definition audio_step (a : audio) (o : audio_op) : option audio :=
  match o with
  | Submit s now => Some (queue_audio_buffer nan_of cfg (sub_mem s) now (sub_ms s) (sub_ptr s) (sub_count s) a)
  | Ask now frames => snd <$> get_remaining_audio_bytes nan_of cfg now frames a
  | Frequency f => Some (set_audio_frequency cfg f a)
  end.
Definition run_audio (l : list audio_op) (a : audio) : option audio := foldl (fun a o => a ← a; audio_step a o) (Some a) l.
Definition submissions (l : list audio_op) : list submission := omap (fun o => match o with Submit s _ => Some s | _ => None end) l.
Definition is_samples (c : audio_call) : bool := match c with Call_queue_samples _ _ _ => true | _ => false end.
Definition samples (a : audio) : list audio_call := List.filter is_samples (host_log a).
(** What the host is to be given of a submission, from the memory at that time: one
    call with the samples from the pointer on, if there are any and it can take them. *)
Definition handed (m : hostmem) (s : submission) : list audio_call :=
  let off := s32 (sub_ptr s) + 0x80000000 in
  if has_queue_samples cfg && (2 <=? sub_count s)
  then [Call_queue_samples off (sub_count s / 2) ((fun i => u8 (hbyte m (off + i))) <$> seqZ 0 (2 * (sub_count s / 2)))] else [].
(** And what the ring is to record: at most 2208 bytes, in the game's order, if they
    lie in the 8 MB of memory. *)
Definition entry (m : hostmem) (ms : Z) (s : submission) : Z -> AiSubmitEvent :=
  let p := sub_ptr s mod 0x1000000 in
  let n := Z.min (sub_count s) 2208 in
  fun seq => MkAiSubmit seq ms (u32 (sub_ptr s)) (sub_count s)
    (if p + n <=? 0x800000 then (fun i => u8 (hbyte m (Z.lxor (p + i) 3))) <$> seqZ 0 n else []).
(** What becomes of a submission when the next one comes. *)
Definition played (s next : submission) : list audio_call := handed (sub_mem next) s.
Definition recorded (s next : submission) : list (Z -> AiSubmitEvent) :=
  if 0 <? sub_count s then [entry (sub_mem next) (sub_ms next) s] else [].
Definition record_all (r : ring AiSubmitEvent) (l : list (Z -> AiSubmitEvent)) : ring AiSubmitEvent :=
  fold_left (fun r e => ring_record u64 AI_SUBMIT_RING_CAP e r) l r.

Definition waits_for (s : submission) (a : audio) : Prop :=
  valid (g_ai_pending a) = (0 <? sub_count s) /\
  (0 < sub_count s -> pending_addr (g_ai_pending a) = u32 (sub_ptr s) /\ pending_bytes (g_ai_pending a) = sub_count s).

Lemma off_of p : to_off (s32 (u32 p)) = s32 p + 0x80000000.
Proof. unfold to_off, s32, u32. rewrite Zmod_mod. lia. Qed.
Lemma queue_samples_are m s : queue_samples cfg m (u32 (sub_ptr s)) (sub_count s) = handed m s.
Proof.
  unfold queue_samples, handed, host_bytes. rewrite off_of, andb_comm. cbv zeta.
  replace (0 <? sub_count s / 2) with (2 <=? sub_count s); [done|]. destruct (Z.leb_spec 2 (sub_count s)), (Z.ltb_spec 0 (sub_count s / 2)); zlia.
Qed.
Lemma submit_event_is m ms s : submit_event m ms (u32 (sub_ptr s)) (sub_count s) = entry m ms s.
Proof.
  unfold submit_event, entry, wire_bytes, recorded_bytes, payload_size.
  replace (Z.land (u32 (sub_ptr s)) 0xFFFFFF) with (sub_ptr s mod 0x1000000) by (change 0xFFFFFF with (Z.ones 24); rewrite Z.land_ones by lia; unfold u32; zlia).
  cbv zeta. replace (if sub_count s >? 2208 then 2208 else sub_count s) with (Z.min (sub_count s) 2208) by (destruct (Z.gtb_spec (sub_count s) 2208); lia).
  destruct (Z.gtb_spec (sub_ptr s mod 0x1000000 + Z.min (sub_count s) 2208) 0x800000), (Z.leb_spec (sub_ptr s mod 0x1000000 + Z.min (sub_count s) 2208) 0x800000); try lia; done.
Qed.
Lemma handed_samples m s : List.filter is_samples (handed m s) = handed m s.
Proof. unfold handed. by destruct (_ && _). Qed.
Lemma none_handed m s : sub_count s <= 0 -> handed m s = [].
Proof. intros Hc. unfold handed. destruct (Z.leb_spec 2 (sub_count s)); [lia|]. by rewrite andb_false_r. Qed.
Lemma play_step m ms s a : samples (ai_play_buffer cfg m ms (u32 (sub_ptr s)) (sub_count s) a) = samples a ++ handed m s /\
  g_ai_submit_ring (ai_play_buffer cfg m ms (u32 (sub_ptr s)) (sub_count s) a) = record_all (g_ai_submit_ring a) [entry m ms s].
Proof.
  unfold samples, ai_play_buffer. cbn [host_log g_ai_submit_ring]. by rewrite List.filter_app, queue_samples_are, handed_samples, submit_event_is.
Qed.
Lemma submit_step s now a s0 : ai_instant_copy cfg = false -> waits_for s0 a ->
  let a' := queue_audio_buffer nan_of cfg (sub_mem s) now (sub_ms s) (sub_ptr s) (sub_count s) a in
  waits_for s a' /\ samples a' = samples a ++ played s0 s /\
  g_ai_submit_ring a' = record_all (g_ai_submit_ring a) (recorded s0 s).
Proof.
  intros Hi [Hv Hp]. unfold queue_audio_buffer. rewrite Hi.
  set (a1 := if _ : bool then _ else a). assert (g_ai_pending a1 = g_ai_pending a /\ host_log a1 = host_log a /\ g_ai_submit_ring a1 = g_ai_submit_ring a) as (E1 & E2 & E3)
    by (unfold a1; by destruct (_ && _)).
  assert (samples a1 = samples a) as E4 by (unfold samples; by rewrite E2).
  cbn zeta. rewrite E1, Hv. split; [by split|]. unfold played, recorded. destruct (Z.ltb_spec 0 (sub_count s0)) as [L|L].
  - destruct (Hp L) as [-> ->]. destruct (play_step (sub_mem s) (sub_ms s) s0 a1) as [P1 P2]. rewrite E4 in P1. rewrite E3 in P2. exact (conj P1 P2).
  - rewrite none_handed, app_nil_r by lia. exact (conj E4 E3).
Qed.
Lemma instant_step s now a : ai_instant_copy cfg = true ->
  let a' := queue_audio_buffer nan_of cfg (sub_mem s) now (sub_ms s) (sub_ptr s) (sub_count s) a in
  samples a' = samples a ++ handed (sub_mem s) s /\ g_ai_submit_ring a' = record_all (g_ai_submit_ring a) [entry (sub_mem s) (sub_ms s) s].
Proof.
  intros Hi. unfold queue_audio_buffer. rewrite Hi. set (a1 := if _ : bool then _ else a).
  assert (samples a1 = samples a /\ g_ai_submit_ring a1 = g_ai_submit_ring a) as [<- <-] by (unfold a1; by destruct (_ && _)).
  apply play_step.
Qed.
Lemma other_step o a a' : submissions [o] = [] -> audio_step a o = Some a' ->
  g_ai_pending a' = g_ai_pending a /\ samples a' = samples a /\ g_ai_submit_ring a' = g_ai_submit_ring a.
Proof.
  destruct o as [s now|now frames|f]; cbn [audio_step]; intros Hs; [done| |].
  - intros ([n a1] & E & ->)%fmap_Some. cbn [snd]. unfold get_remaining_audio_bytes in E.
    destruct (_ && _).
    + destruct (_ =? 0); [by injection E as _ <-|]. apply bind_Some in E as (k & _ & [= _ <-]). done.
    + apply bind_Some in E as (k & _ & [= _ <-]). done.
  - intros [= <-]. unfold set_audio_frequency, samples. cbn [g_ai_pending host_log g_ai_submit_ring]. split; [done|]. split; [|done].
    rewrite List.filter_app. destruct (has_set_frequency cfg); by rewrite app_nil_r.
Qed.
Lemma run_audio_none l : foldl (fun a o => a ← a; audio_step a o) None l = None.
Proof. by induction l. Qed.
Lemma runs_play l : ai_instant_copy cfg = false -> forall s0 a a', waits_for s0 a -> run_audio l a = Some a' ->
  waits_for (List.last (submissions l) s0) a' /\
  samples a' = samples a ++ concat (zip_with played (s0 :: submissions l) (submissions l)) /\
  g_ai_submit_ring a' = record_all (g_ai_submit_ring a) (concat (zip_with recorded (s0 :: submissions l) (submissions l))).
Proof.
  intros Hi. induction l as [|o l IH]; intros s0 a a' Hw.
  - intros [= <-]. cbn. by rewrite app_nil_r.
  - unfold run_audio. cbn [foldl]. change (Some a ≫= _) with (audio_step a o). destruct (audio_step a o) as [a1|] eqn:E1; [|by rewrite run_audio_none].
    change (run_audio l a1 = Some a' -> waits_for (List.last (submissions (o :: l)) s0) a' /\
      samples a' = samples a ++ concat (zip_with played (s0 :: submissions (o :: l)) (submissions (o :: l))) /\
      g_ai_submit_ring a' = record_all (g_ai_submit_ring a) (concat (zip_with recorded (s0 :: submissions (o :: l)) (submissions (o :: l))))).
    intros Hr. destruct (submissions [o]) as [|s ss] eqn:Es.
    + destruct (other_step o a a1 Es E1) as (P1 & P2 & P3).
      assert (submissions (o :: l) = submissions l) as -> by (by destruct o).
      rewrite <- P2, <- P3. apply IH; [|done]. unfold waits_for. by rewrite P1.
    + destruct o as [s' now| |]; try done. cbn in Es. injection Es as -> <-. injection E1 as <-.
      destruct (submit_step s now a s0 Hi Hw) as (W & S1 & R1). destruct (IH s _ a' W Hr) as (W' & S2 & R2).
      change (submissions (Submit s now :: l)) with (s :: submissions l). split; [|split].
      * destruct (submissions l) as [|x xs] eqn:El; [exact W'|]. change (List.last (s :: x :: xs) s0) with (List.last (x :: xs) s0).
        assert (forall d d', List.last (x :: xs) d = List.last (x :: xs) d') as Hd.
        { clear. revert x. induction xs as [|y xs IH]; intros x d d'; [done|]. exact (IH y d d'). }
        by rewrite (Hd s0 s).
      * cbn [zip_with concat] in *. rewrite S2, S1.
        by rewrite app_assoc.
      * cbn [zip_with concat] in *. rewrite R2, R1. unfold record_all. by rewrite fold_left_app.
Qed.

Lemma runs_play_at_once l : ai_instant_copy cfg = true -> forall a a', run_audio l a = Some a' ->
  samples a' = samples a ++ concat ((fun s => handed (sub_mem s) s) <$> submissions l) /\
  g_ai_submit_ring a' = record_all (g_ai_submit_ring a) ((fun s => entry (sub_mem s) (sub_ms s) s) <$> submissions l).
Proof.
  intros Hi. induction l as [|o l IH]; intros a a'; [intros [= <-]; cbn; by rewrite app_nil_r|].
  unfold run_audio. cbn [foldl]. change (Some a ≫= _) with (audio_step a o). destruct (audio_step a o) as [a1|] eqn:E1; [|by rewrite run_audio_none].
  intros Hr. destruct (IH a1 a' Hr) as [S R]. destruct (submissions [o]) as [|s ss] eqn:Es.
  - destruct (other_step o a a1 Es E1) as (_ & P2 & P3). assert (submissions (o :: l) = submissions l) as -> by (by destruct o). by rewrite <- P2, <- P3.
  - destruct o as [s' now| |]; try done. injection E1 as <-. destruct (instant_step s' now a Hi) as [S1 R1].
    change (submissions (Submit s' now :: l)) with (s' :: submissions l). cbn [fmap list_fmap concat]. rewrite S, S1, R, R1, app_assoc. done.
Qed.

(** C36: However a game submits buffers, asks for the length and sets the frequency, each
    submission that holds a sample is given to the host by exactly one call with its
    address, its number of samples and the bytes of memory from there, in order; it is made
    when the next one is submitted and from the memory of that time, and the last buffer
    waits, or at once in the instant-copy mode. The ring records each with its first 2208
    bytes. *)
Theorem buffers_play_one_submission_later l a a' : valid (g_ai_pending a) = false -> run_audio l a = Some a' ->
  let subs := submissions l in
  if ai_instant_copy cfg then
    samples a' = samples a ++ concat ((fun s => handed (sub_mem s) s) <$> subs) /\
    g_ai_submit_ring a' = record_all (g_ai_submit_ring a) ((fun s => entry (sub_mem s) (sub_ms s) s) <$> subs)
  else
    samples a' = samples a ++ concat (zip_with played subs (tail subs)) /\
    g_ai_submit_ring a' = record_all (g_ai_submit_ring a) (concat (zip_with recorded subs (tail subs))) /\
    (forall s, List.last (Some <$> subs) None = Some s -> waits_for s a').
Proof.
  intros Hv Hr subs. destruct (ai_instant_copy cfg) eqn:Hi; [by apply runs_play_at_once|].
  set (s0 := Submitted ∅ 0 0 0). assert (waits_for s0 a) as W by (split; [done|cbn; lia]).
  destruct (runs_play l Hi s0 a a' W Hr) as (W' & S & R). fold subs in W', S, R. destruct subs as [|s subs']; [done|].
  cbn [zip_with concat tail] in S, R |- *. unfold played at 1 in S. rewrite none_handed in S by (cbn; lia). cbn [recorded sub_count s0] in R. cbn [app] in S.
  split; [exact S|]. split; [exact R|]. intros s1 Hs1. enough (List.last (s :: subs') s0 = s1) as <- by exact W'. clear - Hs1. revert s Hs1.
  induction subs' as [|x xs IH]; intros s Hs1; [by injection Hs1|]. exact (IH x Hs1).
Qed.
End AudioSpec.
End AudioSpec.

(** * What the guest is told of controllers *)

Module InputSpec.
Import Input.
Section InputSpec.
Context (nan_of : list Z -> Z) `{RecompLaws} (cb : callbacks_t).
Definition connected (c : Z) : bool := match connected_device (get_connected_device_info cb c) with NoDevice => false | Controller => true end.
Definition status_of (c : Z) : Z := b2z (Input.has_pak (get_connected_device_info cb c)).
(** The host bytes of a port's status. *)
Definition status_byte (m : hostmem) (c k : Z) : Z -> Z := fun old =>
  if connected c then nth (Z.to_nat k) [0; status_of c; 5; 0] 0 else if k =? 0 then 8 else old.

Lemma status_range c : is_u8 (status_of c).
Proof. unfold status_of. destruct (Input.has_pak _); split; cbn; lia. Qed.
Lemma report_bytes p m c b : hbyte (store 1 p 0 (store 1 (p + 1) (status_of c) (store_16 (p + 2) 5 m))) b =
  if decide (p <= b < p + 4) then nth (Z.to_nat (b - p)) [0; status_of c; 5; 0] 0 else hbyte m b.
Proof.
  unfold store_16. cbn [store]. rewrite !hbyte_insert.
  destruct (decide (p <= b < p + 4)) as [D|D].
  - assert (b - p = 0 \/ b - p = 1 \/ b - p = 2 \/ b - p = 3) as [E|[E|[E|E]]] by lia; rewrite E; cbn [Z.to_nat Pos.to_nat Pos.iter_op nth Nat.add];
      repeat (destruct (decide _); try lia); try done. apply u8_small, status_range.
  - repeat (destruct (decide _); try lia); done.
Qed.
Lemma init_data n off m : (n <= 8)%nat -> let '(pattern, m') := osContGetInitData cb (Z.of_nat n) off m in
  0 <= pattern < 256 /\ (forall c, 0 <= c -> Z.testbit pattern c = (c <? Z.of_nat n) && connected c) /\
  forall b, hbyte m' b = if decide (off <= b < off + 4 * Z.of_nat n)
    then status_byte m ((b - off) / 4) ((b - off) mod 4) (hbyte m b) else hbyte m b.
Proof.
  induction n as [|n IH]; intros Hn.
  - change (osContGetInitData cb (Z.of_nat 0) off m) with (0, m). cbv iota. split; [lia|]. split.
    { intros c Hc. rewrite Z.bits_0. change (Z.of_nat 0) with 0. destruct (Z.ltb_spec c 0); [lia|reflexivity]. }
    intros b. rewrite decide_False by lia. reflexivity.
  - specialize (IH ltac:(lia)). unfold osContGetInitData in *. rewrite seqZ_S, foldl_app. cbn [foldl].
    destruct (foldl _ _ _) as [p0 m0]. destruct IH as (Hp & Hb & Hm). replace (0 + Z.of_nat n) with (Z.of_nat n) by lia. unfold report, get_controller_type.
    set (c := Z.of_nat n) in *. pose proof (eq_refl (connected c)) as Hc. unfold connected in Hc at 1.
    assert (forall b, off + 4 * c <= b < off + 4 * c + 4 -> (b - off) / 4 = c /\ (b - off) mod 4 = b - (off + 4 * c)) as Hdiv by (intros b Hb'; zlia).
    replace (Z.of_nat (S n)) with (c + 1) by lia. destruct (connected_device (get_connected_device_info cb c)).
    + split; [exact Hp|]. split.
      * intros d Hd. rewrite Hb by done. destruct (Z.ltb_spec d c), (Z.ltb_spec d (c + 1)); try lia; try done. replace d with c by lia. by rewrite <- Hc.
      * intros b. cbn [store]. rewrite hbyte_insert, Hm. destruct (decide (off + 4 * c = b)) as [<-|N].
        { rewrite decide_True by lia. destruct (Hdiv (off + 4 * c)) as [-> ->]; [lia|]. unfold status_byte. rewrite <- Hc, Z.sub_diag. done. }
        destruct (decide (off <= b < off + 4 * c)); [by rewrite decide_True by lia|]. destruct (decide (off <= b < off + 4 * (c + 1))); [|done].
        destruct (Hdiv b) as [-> ->]; [lia|]. unfold status_byte. rewrite <- Hc. destruct (Z.eqb_spec (b - (off + 4 * c)) 0); [lia|done].
    + change (b2z (Input.has_pak (get_connected_device_info cb c))) with (status_of c). change CONT_TYPE_NORMAL with 5.
      assert (0 <= c < 8) as Hc8 by lia. assert (0 <= Z.shiftl 1 c < 256) as Hs.
      { rewrite Z.shiftl_1_l. split; [apply Z.pow_nonneg; lia|]. apply (Z.pow_lt_mono_r 2 c 8); lia. }
      assert (0 <= Z.lor p0 (Z.shiftl 1 c) < 256) as Hl by (apply (lor_bound 8); [lia|exact Hp|exact Hs]).
      rewrite u8_small by exact Hl. split; [exact Hl|]. split.
      * intros d Hd. rewrite Z.lor_spec, Hb, Z.shiftl_1_l, Z.pow2_bits_eqb by lia.
        destruct (Z.ltb_spec d c), (Z.ltb_spec d (c + 1)), (Z.eqb_spec c d); try lia; try (by rewrite orb_false_r); try done. subst d. by rewrite <- Hc.
      * intros b. rewrite report_bytes, Hm. destruct (decide (off + 4 * c <= b < off + 4 * c + 4)) as [D|D].
        { rewrite (decide_True (P := off <= b < off + 4 * (c + 1))) by lia. destruct (Hdiv b D) as [-> ->]. unfold status_byte. by rewrite <- Hc. }
        destruct (decide (off <= b < off + 4 * c)); [by rewrite decide_True by lia|by rewrite decide_False by lia].
Qed.

(** ** At the guest's addresses *)

Definition guest_byte (a : Z) (m : hostmem) : Z := u8 (mem_b a m).
Definition at_host (a : Z) : Z := Z.lxor (to_off a) 3.
Lemma guest_byte_is a m : guest_byte a m = u8 (hbyte m (at_host a)).
Proof. unfold guest_byte, at_host. rewrite mem_b_is. apply u8_of_s8. Qed.
Lemma guest_byte_put a a' v m : guest_byte a (mem_b_put a' v m) = if decide (a = a') then u8 v else guest_byte a m.
Proof.
  rewrite !guest_byte_is, mem_b_put_is. fold (at_host a'). rewrite hbyte_insert. destruct (decide (a = a')) as [->|N].
  - rewrite decide_True by done. apply u8_small. unfold is_u8, u8. zlia.
  - rewrite decide_False; [done|]. intros E. apply N. unfold at_host in E.
    apply lxor_inj in E.
    unfold to_off in E. lia.
Qed.
(** The bytes of a word are those of the host in reverse. *)
Lemma at_host_word w a : (to_off w) mod 4 = 0 -> w <= a < w + 4 -> at_host a = to_off w + (3 - (a - w)).
Proof.
  intros Hw Ha. unfold at_host. set (k := a - w). replace (to_off a) with (to_off w + k) by (unfold to_off, k; lia).
  assert (to_off w = to_off w / 4 * 2 ^ 2) as E by zlia. rewrite E. set (q := to_off w / 4).
  rewrite <- !(lor_add 2) by lia. apply Z.bits_inj'. intros i Hi. rewrite Z.lxor_spec, !Z.lor_spec, Z.mul_pow2_bits by lia.
  assert (k = 0 \/ k = 1 \/ k = 2 \/ k = 3) as D by lia. destruct (Z.ltb_spec i 2).
  - rewrite (Z.testbit_neg_r q) by lia. assert (i = 0 \/ i = 1) as [-> | ->] by lia; destruct D as [-> |[-> |[-> | ->]]]; reflexivity.
  - assert (forall r, 0 <= r < 4 -> Z.testbit r i = false) as Hz by (intros r Hr; destruct (decide (r = 0)) as [->|]; [apply Z.bits_0|apply Z.bits_above_log2; [lia|]; apply (Z.lt_le_trans _ 2); [|lia]; apply Z.log2_lt_pow2; lia]).
    rewrite !Hz by lia. by rewrite xorb_false_r.
Qed.

Definition in_status (data a : Z) : Prop := data <= a < data + 16.
Lemma init_bytes bitpattern data m a : data mod 4 = 0 -> a <> bitpattern ->
  guest_byte a (osContInit_recomp cb bitpattern data m).1.2 =
  if decide (in_status data a)
  then let k := (a - data) mod 4 in
       if connected ((a - data) / 4) then nth (Z.to_nat k) [0; 5; status_of ((a - data) / 4); 0] 0 else if k =? 3 then 8 else guest_byte a m
  else guest_byte a m.
Proof.
  intros Hd Ha. unfold osContInit_recomp. pose proof (init_data 4 (to_off data) m ltac:(lia)) as D. change (Z.of_nat 4) with MAXCONTROLLERS in D.
  destruct (osContGetInitData _ _ _ _) as [pat m']. destruct D as (_ & _ & Hm). cbn [fst snd]. rewrite guest_byte_put, decide_False by done.
  rewrite !guest_byte_is, Hm. change (4 * MAXCONTROLLERS) with 16.
  set (w := a - (a - data) mod 4). assert (to_off w mod 4 = 0) as Hw by (unfold w, to_off; zlia). assert (w <= a < w + 4) as Hwa by (unfold w; zlia).
  rewrite (at_host_word w a Hw Hwa). unfold in_status.
  destruct (decide (data <= a < data + 16)) as [I|I]; [|rewrite decide_False by (unfold to_off, w in *; zlia); done].
  rewrite decide_True by (unfold to_off, w in *; zlia). set (c := (a - data) / 4). set (k := (a - data) mod 4). assert (0 <= k < 4) as Hk by (unfold k; zlia).
  assert ((to_off w + (3 - (a - w)) - to_off data) / 4 = c /\ (to_off w + (3 - (a - w)) - to_off data) mod 4 = 3 - k) as [-> ->].
  { unfold to_off, w. fold k. assert (a - data = 4 * c + k) as E by (unfold c, k; zlia). replace (_ - _) with (c * 4 + (3 - k)) by lia. zlia. }
  unfold status_byte. cbv zeta. assert (k = 0 \/ k = 1 \/ k = 2 \/ k = 3) as [E|[E|[E|E]]] by lia; rewrite E; destruct (connected c); try reflexivity.
  apply u8_small, status_range.
Qed.

(** C35: After osContInit the pattern has the bits of the ports with a controller and no
    others, and each port's status says its type, its pak and no error, or that it does not
    respond; no other memory changes. *)
Theorem controllers_are_reported bitpattern data m : data mod 4 = 0 -> ~ in_status data bitpattern ->
  let '(ret, m', n) := osContInit_recomp cb bitpattern data m in
  ret = 0 /\ n = MAXCONTROLLERS /\
  (forall c, 0 <= c -> Z.testbit (guest_byte bitpattern m') c = (c <? MAXCONTROLLERS) && connected c) /\
  (forall c k, 0 <= c < MAXCONTROLLERS -> 0 <= k < 4 -> guest_byte (data + 4 * c + k) m' =
    if connected c then nth (Z.to_nat k) [0; 5; status_of c; 0] 0 else if k =? 3 then 8 else guest_byte (data + 4 * c + k) m) /\
  (forall a, a <> bitpattern -> ~ in_status data a -> guest_byte a m' = guest_byte a m).
Proof.
  intros Hd Hb. pose proof (fun a => init_bytes bitpattern data m a Hd) as Hi.
  assert (exists pat m1, osContInit_recomp cb bitpattern data m = (0, mem_b_put bitpattern pat m1, MAXCONTROLLERS) /\
    0 <= pat < 256 /\ forall c, 0 <= c -> Z.testbit pat c = (c <? MAXCONTROLLERS) && connected c) as (pat & m1 & E & Hp & Hbits).
  { unfold osContInit_recomp. pose proof (init_data 4 (to_off data) m ltac:(lia)) as D. change (Z.of_nat 4) with MAXCONTROLLERS in D.
    destruct (osContGetInitData _ _ _ _) as [pat m1]. destruct D as (P1 & P2 & _). by exists pat, m1. }
  rewrite E in Hi |- *. cbn [fst snd] in Hi. repeat (split; [done|]). split; [|split].
  - intros c Hc. rewrite guest_byte_put, decide_True, u8_small by done. by apply Hbits.
  - unfold MAXCONTROLLERS. intros c k Hc Hk. assert (in_status data (data + 4 * c + k)) as I by (unfold in_status; lia).
    rewrite Hi by (intros F; by rewrite F in I). rewrite decide_True by exact I.
    assert ((data + 4 * c + k - data) / 4 = c /\ (data + 4 * c + k - data) mod 4 = k) as [-> ->] by zlia. done.
  - intros a Ha I. rewrite Hi by done. by rewrite decide_False.
Qed.

(** ** The state of the controllers *)

Definition answer (c : Z) : option (Z * Z * Z) := get_input cb ≫= (fun f => f c).
Definition sticks_convert : Prop := forall c b x y, answer c = Some (b, x, y) ->
  is_Some (stick_position nan_of x) /\ is_Some (stick_position nan_of y).
Definition stick (v : Z) : Z := default 0 (stick_position nan_of v).
(** A stick [n] 128ths of the way to one end. *)
Definition deflection (n : Z) : Z := float_mul binary32 nan_of (float_of_Z binary32 nan_of n) 0x3C000000.
Lemma deflections_read : forallb (fun n => match stick_position nan_of (deflection n) with Some x => x =? Z.quot (127 * n) 128 | None => false end) (seqZ (-128) 257) = true.
Proof. vm_compute. reflexivity. Qed.
Lemma deflection_read n : -128 <= n <= 128 -> stick (deflection n) = Z.quot (127 * n) 128.
Proof.
  intros Hn. pose proof deflections_read as Hall. rewrite forallb_forall in Hall.
  assert (In n (seqZ (-128) 257)) as Hin by (apply list_elem_of_In, elem_of_seqZ; lia). specialize (Hall n Hin). unfold stick.
  destruct (stick_position nan_of (deflection n)) as [x|]; [|done]. by apply Z.eqb_eq.
Qed.
(** Byte [k] of the six of a port. *)
Definition pad_byte (c k old : Z) : Z :=
  match answer c with
  | Some (b, x, y) => if k <? 5 then u8 (nth (Z.to_nat k) [b / 256; b; stick x; stick y; 0] 0) else old
  | None => old
  end.
Definition pad_of (c : nat) : OSContPad :=
  match answer (Z.of_nat c) with
  | Some (b, x, y) => MkPad (Some b) (Some (stick x)) (Some (stick y)) (Some 0)
  | None => MkPad None None None (Some CONT_NO_RESPONSE_ERROR)
  end.
Lemma pad_is_read c : sticks_convert -> read_pad nan_of cb unwritten (Z.of_nat c) = Some (pad_of c).
Proof.
  intros S. unfold read_pad, pad_of. fold (answer (Z.of_nat c)). destruct (answer (Z.of_nat c)) as [[[b x] y]|] eqn:E; [|done].
  destruct (S _ _ _ _ E) as [[x' Ex] [y' Ey]]. unfold stick. by rewrite Ex, Ey.
Qed.
Definition in_pad (data : Z) (c : nat) (a : Z) : Prop := data + 6 * Z.of_nat c <= a < data + 6 * Z.of_nat c + 6.
Lemma pad_is_stored data c m : data mod 2 = 0 -> exists m', store_pad data (Some m) (c, pad_of c) = Some m' /\
  forall a, guest_byte a m' = if decide (in_pad data c a) then pad_byte (Z.of_nat c) (a - (data + 6 * Z.of_nat c)) (guest_byte a m) else guest_byte a m.
Proof.
  intros Hd. unfold store_pad, pad_of, pad_byte, in_pad. set (p := data + 6 * Z.of_nat c). destruct (answer (Z.of_nat c)) as [[[b x] y]|]; cbn; fold p.
  - eexists. split; [reflexivity|]. intros a. rewrite mem_h_put_is by (unfold p; zlia). rewrite !guest_byte_put.
    destruct (decide (p <= a < p + 6)) as [D|D]; [|repeat (rewrite decide_False by lia); done].
    assert (a = p \/ a = p + 1 \/ a = p + 2 \/ a = p + 3 \/ a = p + 4 \/ a = p + 5) as [E|[E|[E|[E|[E|E]]]]] by lia; rewrite E;
      replace (_ - p) with (a - p) by lia; rewrite E; repeat (destruct (decide _); try lia); try (rewrite Z.add_simpl_l); try (rewrite Z.sub_diag); done.
  - eexists. split; [reflexivity|]. intros a. by destruct (decide _).
Qed.
Lemma unwritten_is_read data o c : store_pad data o (c, unwritten) = None.
Proof. by destruct o. Qed.
Lemma pads_are_stored data m n : data mod 2 = 0 -> exists m', foldl (store_pad data) (Some m) ((fun c => (c, pad_of c)) <$> seq 0 n) = Some m' /\
  (forall c a, (c < n)%nat -> in_pad data c a -> guest_byte a m' = pad_byte (Z.of_nat c) (a - (data + 6 * Z.of_nat c)) (guest_byte a m)) /\
  (forall a, ~ data <= a < data + 6 * Z.of_nat n -> guest_byte a m' = guest_byte a m).
Proof.
  intros Hd. induction n as [|n IH].
  - exists m. split; [done|]. split; [lia|done].
  - destruct IH as (m1 & E1 & H1 & H2). rewrite seq_S, fmap_app, foldl_app, E1. destruct (pad_is_stored data n m1 Hd) as (m' & E & Hb).
    exists m'. split; [exact E|]. split.
    + intros c a Hc Ha. rewrite Hb. destruct (decide (c = n)) as [->|N].
      * rewrite decide_True by exact Ha. rewrite H2; [done|]. unfold in_pad in Ha. lia.
      * rewrite decide_False by (unfold in_pad in *; lia). apply H1; [lia|exact Ha].
    + intros a Ha. rewrite Hb, decide_False by (unfold in_pad; lia). apply H2. lia.
Qed.

(** C34: Reading the controllers gives the game, for every port that answers, its buttons,
    its stick and no error, and leaves all other memory as it was, when max_controllers is
    four; when it is less, members that nothing wrote are read. A stick deflected by n/128
    is read as 127 n / 128 rounded towards zero, so the game sees up to 127 either way. *)
Theorem input_is_read n data m : sticks_convert -> data mod 2 = 0 ->
  (forall k, -128 <= k <= 128 -> stick (deflection k) = Z.quot (127 * k) 128) /\
  match osContGetReadData_recomp nan_of cb n data m with
  | Some m' => MAXCONTROLLERS <= n /\
      (forall c a, (c < Z.to_nat MAXCONTROLLERS)%nat -> in_pad data c a -> guest_byte a m' = pad_byte (Z.of_nat c) (a - (data + 6 * Z.of_nat c)) (guest_byte a m)) /\
      (forall a, ~ data <= a < data + 6 * MAXCONTROLLERS -> guest_byte a m' = guest_byte a m)
  | None => n < MAXCONTROLLERS
  end.
Proof.
  intros S Hd. split; [exact deflection_read|]. unfold osContGetReadData_recomp, osContGetReadData, MAXCONTROLLERS.
  change (imap pair (replicate (Z.to_nat 4) unwritten)) with ((fun i => (i, unwritten)) <$> seq 0 4).
  destruct (Z.ltb_spec n 4) as [L|L].
  - destruct (mapM _ _) as [pads|] eqn:E; [|done]. cbn [mbind option_bind].
    apply mapM_Some in E. apply Forall2_cons_inv_l in E as (p0 & l0 & _ & E & ->). apply Forall2_cons_inv_l in E as (p1 & l1 & _ & E & ->).
    apply Forall2_cons_inv_l in E as (p2 & l2 & _ & E & ->). apply Forall2_cons_inv_l in E as (p3 & l3 & E3 & E & ->). apply Forall2_nil_inv_l in E as ->.
    change (Z.of_nat 3) with 3 in E3. destruct (Z.ltb_spec 3 n); [lia|]. injection E3 as <-.
    change (imap pair [p0; p1; p2; unwritten]) with ([(0, p0); (1, p1); (2, p2)] ++ [(3, unwritten)])%nat. rewrite foldl_app. cbn [foldl].
    by rewrite unwritten_is_read.
  - assert (mapM (fun '(i, p) => if Z.of_nat i <? n then read_pad nan_of cb p (Z.of_nat i) else Some p) ((fun i => (i, unwritten)) <$> seq 0 4)
      = Some (pad_of <$> seq 0 4)) as ->.
    { apply mapM_Some. apply Forall2_fmap_2, Forall_Forall2_diag, list.Forall_forall. intros i Hi%elem_of_seq.
      destruct (Z.ltb_spec (Z.of_nat i) n); [|lia]. by apply pad_is_read. }
    cbn [mbind option_bind]. change (imap pair (pad_of <$> seq 0 4)) with ((fun c => (c, pad_of c)) <$> seq 0 4).
    destruct (pads_are_stored data m 4 Hd) as (m' & -> & H1 & H2). done.
Qed.
End InputSpec.
End InputSpec.
