(* ===== verification/SampleDevices.v ===== *)
(** Saves and accessories at concrete inputs: a FlashRAM chip and its save file on a
    disk that may crash; a Transfer Pak with a small cartridge, and command
    blocks that reach it; controllers; and audio buffers. *)

From S2P Require Import Prelude Bytes RspMem Rdram Save Pi PiSpec Files FilesSpec SavingThread GbCart GbCartSpec Joybus GuestMem EventRing AudioInput.
From Stdlib Require Import ZArith Lia Bool List String.
From stdpp Require Import base list gmap strings relations.
Import ListNotations.
Open Scope Z_scope.

(** The [OSPiHandle] at address 0x100, its base the chip's, and a pattern at
    0x200 that the transfers carry. *)
Definition sample_rdram : bytemap :=
  MEM_W_put (0x100 + 12) (s32 0xA8000000) (store_from (fun i => i * 3) 0x200 256 (∅ : bytemap)).
Definition blank_saves (n : Z) : save_context := SaveContext (fill n 0) 0.
Definition flash_sample : pi_state bytemap :=
  MkPi sample_rdram (blank_saves flash_size) ReadArray 0 0 (fill flash_page_size 0xFF) [].

Lemma flash_sample_ok : flash_ok flash_sample.
Proof. constructor; [vm_compute; reflexivity|vm_compute; reflexivity|cbn; lia]. Qed.

Lemma do_rom_read_contents_witness :
  MEM_B 0x301 (do_rom_read [10; 20; 30; 40] 0x300 (rom_base + 1) 2 (∅ : bytemap)) = 30.
Proof. rewrite (do_rom_read_contents [10; 20; 30; 40] 0x300 (rom_base + 1) 2 (∅ : bytemap) 0x301); vm_compute; [reflexivity| |]; intuition discriminate. Defined.

Lemma flash_calls_stay_inside_witness :
  match run_calls [] Flashram [EPiWriteIo 0x100 0x10000 0xB4000000; EPiReadIo 0x100 0 0x400] flash_sample with
  | PiOk s' => flash_ok s'
  | _ => False
  end.
Proof.
  pose proof (flash_calls_stay_inside [] [EPiWriteIo 0x100 0x10000 0xB4000000; EPiReadIo 0x100 0 0x400]
    flash_sample flash_sample_ok) as P.
  assert (B : match run_calls [] Flashram [EPiWriteIo 0x100 0x10000 0xB4000000; EPiReadIo 0x100 0 0x400] flash_sample with
              | PiOk _ => true | _ => false end = true) by (vm_compute; reflexivity).
  revert P B. destruct (run_calls _ _ _ _); intros P B; [exact P|discriminate B|discriminate B].
Defined.

Lemma flash_program_roundtrip_witness :
  exists s', program_calls [] 0x100 0 0x200 5 flash_sample = PiOk s' /\ byte_at (save_buffer (pi_saves s')) 641 = 3.
Proof.
  destruct (flash_program_roundtrip [] 0x100 0 0x200 5 flash_sample flash_sample_ok) as (s' & E & _ & _ & Hb & _);
    [vm_compute; reflexivity|lia|].
  exists s'. split; [exact E|]. rewrite (Hb 641) by lia. vm_compute. reflexivity.
Defined.

Lemma flash_sector_erase_blanks_witness :
  exists s', erase_calls 0x100 130 flash_sample = PiOk s' /\
    byte_at (save_buffer (pi_saves s')) 16384 = 0xFF /\ byte_at (save_buffer (pi_saves s')) 16383 = 0.
Proof.
  destruct (flash_sector_erase_blanks 0x100 130 flash_sample flash_sample_ok) as (s' & E & _ & _ & _ & Hb);
    [vm_compute; reflexivity|lia|].
  exists s'. split; [exact E|]. rewrite (Hb 16384), (Hb 16383) by lia. vm_compute. split; reflexivity.
Defined.

Lemma eeprom_block_roundtrip_witness :
  exists c' rdram'', osEepromWrite Eep4k 63 0x200 sample_rdram (blank_saves 0x200) = SaveOk _ 0 c' /\
    osEepromRead Eep4k 63 0x400 c' (∅ : bytemap) = SaveOk _ 0 rdram'' /\ MEM_B 0x407 rdram'' = 21.
Proof.
  destruct (eeprom_block_roundtrip Eep4k 63 0x200 0x400 sample_rdram (∅ : bytemap) (blank_saves 0x200))
    as (c' & m & Ew & Er & _ & _ & Hm); [reflexivity|vm_compute; reflexivity|vm_compute; discriminate|].
  exists c', m. split; [exact Ew|]. split; [exact Er|]. rewrite Hm. vm_compute. reflexivity.
Defined.

Lemma eeprom_block_bounds_witness :
  osEepromWrite Eep4k 64 0x200 sample_rdram (blank_saves 0x200) = SaveFault _.
Proof.
  apply (eeprom_block_bounds Eep4k 64 0x200 sample_rdram (blank_saves 0x200)); [vm_compute; reflexivity|].
  split; [reflexivity|vm_compute; discriminate].
Defined.

(** * Save files *)

Definition sample_disk : gmap string (list Z) := {[ "a.bin" := [1; 2; 3] ]}.

Lemma interrupted_save_keeps_old_witness :
  old_or_backed_up "a.bin" [1; 2; 3] [7; 8; 9] (run_ops (take 9 (snd (update_save_file no_faults "a.bin" [7; 8; 9] sample_disk))) sample_disk).
Proof. apply (interrupted_save_keeps_old no_faults "a.bin" [7; 8; 9] [1; 2; 3] sample_disk 9). vm_compute. reflexivity. Defined.

Lemma torn_save_is_read_witness :
  exists k, let d' := run_ops (take k (snd (update_save_file no_faults "a.bin" [7; 8; 9] sample_disk))) sample_disk in
    d' !! "a.bin.bak" = Some [1; 2; 3] /\ read_save_file Eep4k 3 "a.bin" d' = [7; 0; 0].
Proof. apply (torn_save_is_read Eep4k "a.bin" [7; 8; 9] [1; 2; 3] sample_disk 1); [vm_compute; reflexivity|cbn; lia]. Defined.

(** A write, its signal, and the thread's steps to the end of the update. *)
Definition sample_actions : list action := [Thread; Write 1 [42]; Signal; Thread; Thread; Thread; Thread; Thread].

Lemma drained_writes_are_saved_witness :
  exists s, saver_run Eep4k 0x200 sample_actions (init_saving Eep4k "a.bin" sample_disk) = Some s /\
    byte_at (read_save_file Eep4k 0x200 (sv_path s) (sv_disk s)) 1 = 42.
Proof.
  destruct (saver_run Eep4k 0x200 sample_actions (init_saving Eep4k "a.bin" sample_disk)) as [s|] eqn:E;
    [|vm_compute in E; discriminate E].
  exists s. split; [reflexivity|]. change 0x200 with (get_save_size Eep4k).
  rewrite (drained_writes_are_saved Eep4k "a.bin" sample_disk sample_actions s);
    [| |exact E| | |]; vm_compute in E; injection E as <-; try reflexivity; try exact I.
  unfold sample_actions. repeat constructor.
Defined.

Lemma quiet_writes_reach_the_file_witness :
  exists s n s', saver_run Eep4k 0x200 (take 3 sample_actions) (init_saving Eep4k "a.bin" sample_disk) = Some s /\
    (n <= 8)%nat /\ thread_run n s = Some s' /\ read_save_file Eep4k 0x200 (sv_path s') (sv_disk s') = sv_buffer s.
Proof.
  destruct (saver_run Eep4k 0x200 (take 3 sample_actions) (init_saving Eep4k "a.bin" sample_disk)) as [s|] eqn:E;
    [|vm_compute in E; discriminate E].
  assert (P : unsignalled s = O /\ exited s = false /\ sv_phase s <> Stopped /\ writes s = 1%nat).
  { vm_compute in E. injection E as <-. repeat split; discriminate. }
  destruct P as (P1 & P2 & P3 & P4).
  destruct (quiet_writes_reach_the_file Eep4k "a.bin" sample_disk (take 3 sample_actions) s) as (n & s' & H1 & H2 & _ & H4);
    [repeat constructor|exact E|exact P1|exact P2|exact P3|].
  exists s, n, s'. rewrite P4 in H1. auto.
Defined.

Lemma swap_can_drop_a_write_witness :
  exists s, saver_run Eep4k 0x200 [Thread; Thread; Write 1 [42]; Signal; RequestSwap "b.bin"; Thread; Swap]
      (init_saving Eep4k "a.bin" sample_disk) = Some s /\ sv_disk s = sample_disk.
Proof.
  destruct (swap_can_drop_a_write Eep4k "a.bin" "b.bin" sample_disk 1 [42] [43]) as (s & H1 & _ & _ & H4);
    [reflexivity|lia|vm_compute; discriminate|]. exists s. auto.
Defined.

(** * The Transfer Pak *)

Definition sample_cart (kind : Mbc) : Cartridge := Cart "" "" [] (replicate 32 5) 0 kind true false 1 0 0 0 1.
(** Enabled, with the RAM bank of the cart's bus in the window. *)
Definition sample_port : Port := MkPort true true true 2 2 (sample_cart Mbc5).
Definition sample_paks : paks := Paks (fun _ => sample_port) ∅.

Lemma sram_block_roundtrip_witness :
  exists s', write_block (fun _ => true) 0 0x300 (Some (replicate 32 9)) sample_paks = (0, s') /\
    fst (read_block 0 0x300 true s') = (0, replicate 32 9).
Proof.
  destruct (sram_block_roundtrip (fun _ => true) 0 0x300 (replicate 32 9) sample_paks) as (s' & H1 & H2 & _).
  - reflexivity.
  - constructor; reflexivity.
  - lia.
  - reflexivity.
  - vm_compute. discriminate.
  - vm_compute. discriminate.
  - exists s'. split; assumption.
Defined.

Lemma rom_bank_select_witness :
  cart_read (select_bank Mbc1 32 (sample_cart Mbc1)) 0x4010
  = rom_byte (sample_cart Mbc1) (rom_index (sample_cart Mbc1) 33 0x10).
Proof. refine (rom_bank_select (sample_cart Mbc1) 32 0x10 _ _ _); [left; reflexivity|lia|lia]. Defined.

Lemma rom_only_ram_unreadable_witness :
  cart_read (cart_write (Cart "" "" [] (replicate 32 5) 0 RomOnly false false 1 0 0 0 1) 0xA001 7) 0xA001 = 0xFF.
Proof.
  refine (proj1 (rom_only_ram_unreadable (Cart "" "" [] (replicate 32 5) 0 RomOnly false false 1 0 0 0 1)
    [(0xA001, 7)] 0xA001 _ _ _)); reflexivity.
Defined.
Lemma mbc5_ram_bank_aliases_witness : selected_ram_offset (cart_write (sample_cart Mbc5) 0x4000 5) 0xA000 = 0x2000.
Proof. refine (proj1 (mbc5_ram_bank_aliases (sample_cart Mbc5) 5 0xA000 _ _)); [reflexivity|lia]. Defined.

(** The game enables the pak, then the cart. *)
Definition mounted : Port := MkPort true false false 3 0 (sample_cart Mbc5).
Lemma cart_check_passes_witness :
  fst (read_block 0 0x180 true (upd_port sample_paks 0 (port_write (port_write mounted 0 0x84) 0x3000 1)))
  = (0, replicate 32 0x89).
Proof.
  refine (proj1 (cart_check_passes mounted _ sample_paks 0 0x180 _ _ _ _ _ _ _)).
  - constructor; cbn; try reflexivity; try lia; discriminate.
  - apply (rtc_l _ _ (port_write mounted 0 0x84)); [constructor; lia|].
    apply (rtc_l _ _ (port_write (port_write mounted 0 0x84) 0x3000 1)); [constructor; lia|apply rtc_refl].
  - reflexivity.
  - reflexivity.
  - reflexivity.
  - lia.
  - vm_compute. split; discriminate.
Defined.

(** A ROM image of the least size, with an MBC5 and no declared RAM. *)
Definition sample_rom : list Z := <[0x147%nat := 0x1B]> (replicate 0x150 0).
Definition on_disk : paks := Paks (fun _ => new_port) {[ "cart.gb"%string := sample_rom; "cart.sav"%string := replicate 32 1 ]}.
Lemma save_survives_remount_witness :
  let s1 := snd (write_block (fun _ => true) 0 0 (Some [0x84]) (set_cart 0 "cart.gb" "cart.sav" on_disk)) in
  ram (cart (ports (set_cart 0 "cart.gb" "cart.sav" s1) 0)) = ram (cart (ports s1 0)).
Proof.
  refine (proj1 (save_survives_remount (fun _ => true) 0 "cart.gb" "cart.sav" _ _ _ _ _ on_disk [(0, [0x84])] _));
    first [discriminate | reflexivity | vm_compute; reflexivity].
Defined.

(** * The joybus processor *)

Lemma data_crc_detects_bit_flips_witness :
  data_crc (zip_with Z.lxor (replicate 32 0x5A) (Joybus.flip 3 6)) <> data_crc (replicate 32 0x5A).
Proof. refine (data_crc_detects_bit_flips (replicate 32 0x5A) 3 6 _ _ _); [reflexivity|lia|lia]. Defined.

(** A read of block 0x300 on channel 0: command bytes, then room for the reply. *)
Definition read_command : list Z := [3; 33; JOY_READ; 0x60; 0x00] ++ replicate 33 0 ++ [0xFE] ++ replicate 25 0.

#[local] Instance always_writable : PakOps paks := gbcart_pak (fun _ => true).

Lemma frame_reads_inside_witness :
  exists blk' s', frame 0 0 3 33 read_command sample_paks = Some (blk', s') /\ vec_size blk' = 64.
Proof.
  refine (frame_reads_inside 0 0 3 33 read_command sample_paks _ _ _ _ _ _); try lia; intros H; discriminate || lia.
Defined.
Lemma joybus_read_reply_witness :
  exists blk' s', frame 0 0 3 33 read_command sample_paks = Some (blk', s') /\ byte_at blk' 7 = 5.
Proof.
  destruct (read_block 0 (frame_block read_command 0) true sample_paks) as [[ret data] s'] eqn:E.
  destruct (joybus_read_reply (PL := gbcart_laws (fun _ => true)) 0 0 read_command sample_paks ret data s'
    eq_refl ltac:(lia) ltac:(lia) eq_refl E) as (blk' & H1 & H2).
  exists blk', s'. split; [exact H1|]. rewrite (H2 7) by lia.
  vm_compute in E. injection E as <- <- _. reflexivity.
Defined.

(** The same command in guest memory. *)
Definition command_memory : bytemap := store_bytes 0x100 0 read_command (∅ : bytemap).
Lemma run_joybus_block_witness :
  exists rdram' s', run_joybus 0x100 command_memory sample_paks = Some (rdram', s') /\ MEM_B 0x140 rdram' = 0.
Proof.
  destruct (run_joybus_block 0x100 command_memory sample_paks) as [[E _]|(blk & rdram' & s' & _ & E & _ & H)].
  - vm_compute in E. discriminate.
  - exists rdram', s'. split; [exact E|]. rewrite H by lia. vm_compute. reflexivity.
Defined.

(** * Rings *)

Lemma ring_reads_back_newest_witness :
  recent_copy 2 5 (ring_of u64 2 [Z.add 10; Z.add 20; Z.add 30]) = [Some 21; Some 32].
Proof.
  refine (proj1 (ring_reads_back_newest u64 100 2 _ _ [Z.add 10; Z.add 20; Z.add 30] 5 _ _)).
  - intros k Hk. unfold u64. apply Z.mod_small. lia.
  - lia.
  - lia.
  - cbn. lia.
Defined.

Definition sample_event (n : Z) : MesgLog.MesgEvent := MesgLog.MkMesgEvent n 0 8 0 0 0 0 0 1 0 0.
Lemma queue_history_kept_witness :
  MesgLog.q_last (MesgLog.slot_at (MesgLogSpec.push_all [(8, sample_event 0); (8192 + 8, sample_event 1); (8, sample_event 2)]
    (MesgLog.qstate_push 8 (sample_event 9) ∅)) 1) !! 2 = Some (sample_event 2).
Proof.
  refine (proj2 (proj2 (MesgLogSpec.queue_history_kept (MesgLog.qstate_push 8 (sample_event 9) ∅) 8 1
    [(8, sample_event 0); (8192 + 8, sample_event 1); (8, sample_event 2)] _ _ _)) 1%nat (sample_event 2) _ _).
  - lia.
  - split; vm_compute; reflexivity.
  - unfold is_u32. vm_compute. split; [discriminate|reflexivity].
  - reflexivity.
  - vm_compute. discriminate.
Defined.

(** * Controllers *)

#[export] Instance host_macros : RecompMacros := {
  mem_b a m := s8 (hbyte m (Z.lxor (to_off a) 3));
  mem_b_put a v m := <[Z.lxor (to_off a) 3 := u8 v]> m;
  mem_h_put a v m := <[Z.lxor (to_off (a + 1)) 3 := u8 v]> (<[Z.lxor (to_off a) 3 := u8 (v / 256)]> m);
  mem_w_put a v m := store_32 (to_off a) v m }.
#[export] Instance host_laws : RecompLaws.
Proof. by constructor. Qed.

(** A controller with a rumble pak in the first port, one without in the third. *)
Definition sample_nan (l : list Z) : Z := 0x7FC00000.
Definition sample_callbacks : Input.callbacks_t :=
  Input.MkCallbacks true (Some (fun c => if c =? 0 then Some (0x8000, 0x3F800000, 0xBF000000) else if c =? 2 then Some (1, 0, 0) else None)) true
    (Some (fun c => if c =? 0 then Input.MkInfo Input.Controller Input.RumblePak
                    else if c =? 2 then Input.MkInfo Input.Controller Input.NoPak else Input.MkInfo Input.NoDevice Input.NoPak)).

Lemma controllers_are_reported_witness :
  let '(_, m, _) := Input.osContInit_recomp sample_callbacks 0x300 0x200 ∅ in
  (fun c => Z.testbit (InputSpec.guest_byte 0x300 m) c) <$> [0; 1; 2; 3; 4] = [true; false; true; false; false] /\
  (fun a => InputSpec.guest_byte a m) <$> [0x200; 0x201; 0x202; 0x203; 0x207] = [0; 5; 1; 0; 8].
Proof.
  pose proof (InputSpec.controllers_are_reported sample_callbacks 0x300 0x200 ∅ eq_refl ltac:(unfold InputSpec.in_status; lia)) as P.
  revert P. destruct (Input.osContInit_recomp _ _ _ _) as [[r m] n]. intros (_ & _ & Hb & Hs & _). split.
  - cbn [fmap list_fmap]. rewrite !Hb by lia. reflexivity.
  - pose proof (fun k => Hs 0 k ltac:(unfold Input.MAXCONTROLLERS; lia)) as H0. cbn [fmap list_fmap].
    rewrite (H0 0 ltac:(lia) : InputSpec.guest_byte 0x200 m = 0), (H0 1 ltac:(lia) : InputSpec.guest_byte 0x201 m = 5),
      (H0 2 ltac:(lia) : InputSpec.guest_byte 0x202 m = 1), (H0 3 ltac:(lia) : InputSpec.guest_byte 0x203 m = 0).
    by rewrite (Hs 1 3 ltac:(unfold Input.MAXCONTROLLERS; lia) ltac:(lia) : InputSpec.guest_byte 0x207 m = 8).
Defined.

Lemma sample_sticks : InputSpec.sticks_convert sample_nan sample_callbacks.
Proof.
  unfold InputSpec.sticks_convert, InputSpec.answer. cbn. intros c b x y. destruct (c =? 0); [|destruct (c =? 2); [|done]]; intros [= _ <- <-]; split; eexists; vm_compute; reflexivity.
Qed.
Lemma input_is_read_witness :
  match Input.osContGetReadData_recomp sample_nan sample_callbacks 4 0x200 ∅ with
  | Some m => (fun a => InputSpec.guest_byte a m) <$> [0x200; 0x201; 0x202; 0x203; 0x20D] = [0x80; 0; 127; 256 - 63; 1]
  | None => False
  end.
Proof.
  destruct (InputSpec.input_is_read sample_nan sample_callbacks 4 0x200 ∅ sample_sticks eq_refl) as [_ P].
  revert P. destruct (Input.osContGetReadData_recomp _ _ _ _ _) as [m|]; [|unfold Input.MAXCONTROLLERS; lia]. intros (_ & Hb & _). cbn [fmap list_fmap].
  assert (forall a, InputSpec.in_pad 0x200 0 a -> InputSpec.guest_byte a m = InputSpec.pad_byte sample_nan sample_callbacks 0 (a - 0x200) (InputSpec.guest_byte a ∅)) as H0.
  { intros a Ha. rewrite (Hb 0%nat a); [done|unfold Input.MAXCONTROLLERS; lia|exact Ha]. }
  rewrite !H0 by (unfold InputSpec.in_pad; lia). rewrite (Hb 2%nat 0x20D) by (unfold InputSpec.in_pad, Input.MAXCONTROLLERS; lia). vm_compute. reflexivity.
Defined.
(** A game that lowers the number of controllers reads what nothing wrote. *)
Lemma lowered_controllers_read_garbage :
  Input.osContSetCh_recomp 1 = (0, 1) /\ Input.osContGetReadData_recomp sample_nan sample_callbacks 1 0x200 ∅ = None.
Proof. vm_compute. split; reflexivity. Qed.

(** * Audio *)

Definition sample_audio_settings : Audio.audio_settings := Audio.MkSettings true true true false.
(** Two buffers; the second is the one that waits. *)
Definition sample_samples (b : Z) : hostmem := <[0x103 := b]> ∅.
Definition sample_submissions : list AudioSpec.audio_op :=
  [AudioSpec.Submit (AudioSpec.Submitted (sample_samples 1) 5 (0x100 - 2147483648) 4) 0; AudioSpec.Frequency 32000; AudioSpec.Ask 1000000 (Some 600);
   AudioSpec.Submit (AudioSpec.Submitted (sample_samples 2) 20 (0x200 - 2147483648) 8) 2000000].

Lemma buffers_play_one_submission_later_witness :
  match AudioSpec.run_audio sample_nan sample_audio_settings sample_submissions (Audio.initial 0) with
  | Some a => AudioSpec.samples a = [Audio.Call_queue_samples 0x100 2 [0; 0; 0; 2]] /\ Audio.pending_bytes (Audio.g_ai_pending a) = 8
  | None => False
  end.
Proof.
  destruct (AudioSpec.run_audio sample_nan sample_audio_settings sample_submissions (Audio.initial 0)) as [a|] eqn:E; [|vm_compute in E; discriminate].
  destruct (AudioSpec.buffers_play_one_submission_later sample_nan sample_audio_settings sample_submissions (Audio.initial 0) a eq_refl E) as (S & _ & W).
  split; [rewrite S; vm_compute; reflexivity|]. destruct (W _ eq_refl) as [_ P]. by destruct P.
Defined.
(** The length a game gets and the one it finds in the register are two readings:
    samples may have been played between them. *)
Lemma two_readings_differ :
  match AudioSpec.run_audio sample_nan sample_audio_settings [AudioSpec.Submit (AudioSpec.Submitted ∅ 0 (0x100 - 2147483648) 2000) 0] (Audio.initial 0) with
  | Some a => match Audio.osAiGetLength_recomp sample_nan sample_audio_settings (Audio.Reading 1000000 (Some 700)) (Audio.Reading 2000000 (Some 600)) ∅ a with
              | Some (r2, m, _) => r2 = 1616 /\ load_s32 (to_off Audio.AI_LEN_REG_ADDR) m = 1808
              | None => False
              end
  | None => False
  end.
Proof. vm_compute. split; reflexivity. Qed.
