(* ===== verification/Overlays.v ===== *)
(** Overlays: librecomp/src/overlays.cpp, the tables that say which native
    function runs at a guest address.

    The recompiler's sections are moved in guest memory as the game loads them;
    [func_map] maps addresses to functions, [section_addresses] gives the base
    of each section to relocated code, [loaded_sections] lists what is loaded
    where.  Modelled are loading by DMA, by id and of patches, unloading, the
    lookups, and the trampolines of fragments; Fragments.v has the fragments that
    the game unpacks itself.  The JIT and the dumps are left out, and the index
    from native addresses to sections, which only a debugging hook reads. *)

From S2P Require Import Prelude Bytes RspMem Rdram.
From Stdlib Require Import ZArith Lia Bool List.
From stdpp Require Import base list gmap sorting.
Open Scope Z_scope.

(** ** librecomp/include/librecomp/sections.h; [func] is [None] for a null pointer. *)
Record FuncEntry (F : Type) := MkFunc { func : option F; offset : Z; rom_size : Z }.
Arguments MkFunc {F}.
Arguments func {F}.
Arguments offset {F}.
Arguments rom_size {F}.
Record SectionTableEntry (F : Type) := MkSection {
  rom_addr : Z; ram_addr : Z; size : Z; funcs : list (FuncEntry F); index : nat;
  content_hash : Z; original_pattern_id : Z }.
Arguments MkSection {F}.
Arguments rom_addr {F}.
Arguments ram_addr {F}.
Arguments size {F}.
Arguments funcs {F}.
Arguments index {F}.
Arguments content_hash {F}.
Arguments original_pattern_id {F}.

(** [LoadedSection], and a slot whose target is not loaded yet. *)
Record LoadedSection := MkLoaded { loaded_ram_addr : Z; section_table_index : nat }.
Record PendingTrampoline := MkPending { trampoline_runtime_addr : Z; link_time_target : Z }.

(** Where a fragment of the synthetic pool is, and the tables kept for
    fragments: the section of each id, the range each id was last loaded at, the
    synthetic slots, the order of loading. *)
Record SyntheticFragmentSlot := MkSlot { slot_runtime_base : Z; slot_size : Z; slot_section_index : nat }.
Record fragment_tables := MkFragments {
  runtime_fragment_id_to_section : gmap Z nat; frag_live_range : gmap Z (Z * Z);
  synthetic_fragments : gmap Z SyntheticFragmentSlot; section_load_order : gmap nat Z; next_load_order : Z }.
Definition no_fragments : fragment_tables := MkFragments ∅ ∅ ∅ ∅ 1.

Record overlay_state (F : Type) := MkOverlays {
  func_map : gmap Z F; loaded_sections : list LoadedSection; section_addresses : list Z;
  pending_trampolines : list PendingTrampoline; fragments : fragment_tables }.
Arguments MkOverlays {F}.
Arguments func_map {F}.
Arguments loaded_sections {F}.
Arguments section_addresses {F}.
Arguments pending_trampolines {F}.
Arguments fragments {F}.

Section Overlays.
Context {F : Type}.
Abbreviation section_t := (SectionTableEntry F).
Abbreviation state := (overlay_state F).

Definition set_map (m : gmap Z F) (s : state) : state :=
  MkOverlays m (loaded_sections s) (section_addresses s) (pending_trampolines s) (fragments s).
Definition set_loaded (l : list LoadedSection) (s : state) : state :=
  MkOverlays (func_map s) l (section_addresses s) (pending_trampolines s) (fragments s).
Definition set_addresses (l : list Z) (s : state) : state :=
  MkOverlays (func_map s) (loaded_sections s) l (pending_trampolines s) (fragments s).
Definition set_pending (l : list PendingTrampoline) (s : state) : state :=
  MkOverlays (func_map s) (loaded_sections s) (section_addresses s) l (fragments s).
Definition set_fragments (t : fragment_tables) (s : state) : state :=
  MkOverlays (func_map s) (loaded_sections s) (section_addresses s) (pending_trampolines s) t.

(** * Aliases *)

(** The base the game's own linker gave a fragment. *)
Definition section_original_fragment_base (sec : section_t) : option Z :=
  if original_pattern_id sec =? 0xFFFFFFFF then None
  else Some (Z.lor 0x80000000 (Z.shiftl (Z.land (original_pattern_id sec + 0x10) 0xFF) 20)).

(** The keys under which the function at [off] is registered. *)
Definition alias_keys (sec : section_t) (runtime_base off : Z) : list Z :=
  [s32 (runtime_base + off)] ++
  (if negb (s32 (ram_addr sec) =? runtime_base) then [s32 (ram_addr sec + off)] else []) ++
  match section_original_fragment_base sec with Some base => [s32 (base + off)] | None => [] end.
Definition install_section_func_aliases (sec : section_t) (runtime_base : Z) (f : FuncEntry F) (m : gmap Z F) : gmap Z F :=
  match func f with
  | None => m
  | Some fn => foldl (fun m k => <[k := fn]> m) m (alias_keys sec runtime_base (offset f))
  end.
Definition erase_section_func_aliases (sec : section_t) (runtime_base : Z) (f : FuncEntry F) (m : gmap Z F) : gmap Z F :=
  match func f with
  | None => m
  | Some _ => foldl (fun m k => delete k m) m (alias_keys sec runtime_base (offset f))
  end.
(** The entries of a range of guest addresses, which [frag_range_erase] removes. *)
Definition in_range (base sz k : Z) : bool := (base <=? u32 k) && (u32 k <? u32 (base + sz)).
Definition frag_range_erase (base sz : Z) (m : gmap Z F) : gmap Z F :=
  if sz =? 0 then m else filter (fun kv : Z * F => in_range base sz (fst kv) = false) m.

(** A base that is not a multiple of four is refused; the debugging aid that
    aborts instead (PSR_SECADDR_CATCH) is off. *)
Definition secaddr_set (i : nat) (value : Z) (s : state) : state :=
  if negb (Z.land value 3 =? 0) then s else set_addresses (<[i := value]> (section_addresses s)) s.

(** * Loading and unloading

    The sections, sorted by [rom_addr]; the ids of the recompiler's overlays;
    whether [PSR_FRAG_UNREG] leaves the range erasure on, which it does unless
    it is set to 0. *)
Context (code_sections : list section_t) (overlay_table : Z -> nat) (frag_unreg : bool).

Definition no_section : section_t := MkSection 0 0 0 [] 0 0 0xFFFFFFFF.
Definition sec (i : nat) : section_t := default no_section (code_sections !! i).

(** The load order; 0 for a section never loaded. *)
Definition record_load_order (i : nat) (s : state) : state :=
  let t := fragments s in
  set_fragments (MkFragments (runtime_fragment_id_to_section t) (frag_live_range t) (synthetic_fragments t)
    (<[i := next_load_order t]> (section_load_order t)) (u64 (next_load_order t + 1))) s.
Definition get_load_order (i : nat) (s : state) : Z := default 0 (section_load_order (fragments s) !! i).

Definition load_overlay (i : nat) (ram : Z) (s : state) : state :=
  let m := foldl (fun m f => install_section_func_aliases (sec i) ram f m) (func_map s) (funcs (sec i)) in
  let s := set_loaded (loaded_sections s ++ [MkLoaded ram i]) (set_map m s) in
  record_load_order i (secaddr_set (index (sec i)) ram s).

Definition is_section (i : nat) (l : LoadedSection) : bool := (section_table_index l =? i)%nat.
Fixpoint erase_first (i : nat) (l : list LoadedSection) : list LoadedSection :=
  match l with
  | [] => []
  | x :: l => if is_section i x then l else x :: erase_first i l
  end.
(** The tables without the section loaded at [base]. *)
Definition forget_section (i : nat) (base : Z) (s : state) : state :=
  let m := foldl (fun m f => erase_section_func_aliases (sec i) base f m) (func_map s) (funcs (sec i)) in
  let m := if frag_unreg then frag_range_erase (u32 base) (size (sec i)) m else m in
  secaddr_set (index (sec i)) (s32 (ram_addr (sec i))) (set_map m s).
Definition unload_overlay_by_section_index (i : nat) (s : state) : state :=
  match find (is_section i) (loaded_sections s) with
  | None => s
  | Some l =>
      let s := forget_section i (loaded_ram_addr l) s in
      set_loaded (erase_first i (loaded_sections s)) s
  end.

Definition runtime_ranges_overlap (a_base a_size b_base b_size : Z) : bool :=
  (u32 a_base <? u32 b_base + b_size) && (u32 b_base <? u32 a_base + a_size).

(** A loaded section in the way of section [i] at [base]. *)
Definition in_the_way (i : nat) (base : Z) (l : LoadedSection) : bool :=
  negb (is_section i l) &&
  runtime_ranges_overlap base (size (sec i)) (loaded_ram_addr l) (size (sec (section_table_index l))).
(** The loop; every round unloads a section. *)
Fixpoint evict (fuel : nat) (i : nat) (base : Z) (s : state) : state :=
  match fuel with
  | O => s
  | S fuel =>
      match find (in_the_way i base) (loaded_sections s) with
      | None => s
      | Some l => evict fuel i base (unload_overlay_by_section_index (section_table_index l) s)
      end
  end.
Definition evict_overlapping_sections (i : nat) (base : Z) (s : state) : state := evict (length (loaded_sections s)) i base s.

Definition register_if_new (i : nat) (base : Z) (s : state) : state :=
  let s := evict_overlapping_sections i base s in
  match find (is_section i) (loaded_sections s) with
  | None => load_overlay i base s
  | Some l =>
      if negb (loaded_ram_addr l =? base) then load_overlay i base (unload_overlay_by_section_index i s) else s
  end.

(** [std::lower_bound] and [std::upper_bound] on the sorted table. *)
Definition lower_bound (rom : Z) : nat := length (filter (fun e : section_t => (rom_addr e <? rom) = true) code_sections).
Definition upper_bound (rom : Z) : nat := length (filter (fun e : section_t => (rom_addr e <=? rom) = true) code_sections).

(** The sections a transfer covers or falls in, with the bases it gives them,
    in the order they are registered.  The iterators of a transfer whose end
    wraps past 2^32 would never meet; here that range is empty. *)
Definition sections_of_dma (rom ram sz : Z) : list (nat * Z) :=
  let lower := lower_bound rom in
  let upper := upper_bound (u32 (rom + sz)) in
  let base i := s32 (rom_addr (sec i) - rom + ram) in
  let past i := u32 (rom + sz) <? u32 (rom_addr (sec i) + size (sec i)) in
  ((fun i => (i, base i)) <$> filter (fun i => past i = false) (seq lower (upper - lower))) ++
  (if negb (lower =? 0)%nat then
     let i := (lower - 1)%nat in
     if (rom_addr (sec i) <=? rom) && (rom <? u32 (rom_addr (sec i) + size (sec i)))
     then [(i, s32 (ram - s32 (u32 (rom - rom_addr (sec i)))))] else []
   else []) ++
  (if negb (lower =? length code_sections)%nat && (rom_addr (sec lower) =? rom) && past lower
   then [(lower, base lower)] else []).
Definition load_overlays (rom ram sz : Z) (s : state) : state :=
  foldl (fun s '(i, base) => register_if_new i base s) s (sections_of_dma rom ram sz).

Definition unload_overlay_by_id (id : Z) (s : state) : state := unload_overlay_by_section_index (overlay_table id) s.
Definition load_overlay_by_id (id ram : Z) (s : state) : state :=
  let i := overlay_table id in
  let prev := default 0 (section_addresses s !! index (sec i)) in
  if u32 prev =? ram_addr (sec i) then load_overlay i (s32 ram) s
  else load_overlay i (s32 (prev + ram)) (unload_overlay_by_id id s).

(** [None] is the exit of the program on a partial unload. *)
Definition overlaps_unload (ram sz : Z) (l : LoadedSection) : bool :=
  (u32 ram <? u32 (loaded_ram_addr l + size (sec (section_table_index l)))) && (u32 (loaded_ram_addr l) <=? u32 (ram + sz)).
Definition partly_unloaded (ram sz : Z) (l : LoadedSection) : bool :=
  (loaded_ram_addr l <? ram) || (u32 (ram + sz) <? u32 (loaded_ram_addr l + size (sec (section_table_index l)))).
(** The loop, with the sections it has passed. *)
Fixpoint unload_loop (ram sz : Z) (kept l : list LoadedSection) (s : state) : option state :=
  match l with
  | [] => Some (set_loaded kept s)
  | x :: l =>
      if overlaps_unload ram sz x then
        if partly_unloaded ram sz x then None
        else unload_loop ram sz kept l (forget_section (section_table_index x) (loaded_ram_addr x) s)
      else unload_loop ram sz (kept ++ [x]) l s
  end.
Definition unload_overlays (ram sz : Z) (s : state) : option state := unload_loop ram sz [] (loaded_sections s) s.

Definition unregister_runtime_fragment (id : Z) (s : state) : state :=
  match runtime_fragment_id_to_section (fragments s) !! id with
  | None => s
  | Some i => unload_overlay_by_section_index i s
  end.

(** Patches are registered once, at their own address.  A null pointer is
    stored there and read back as null, which is an absent key here. *)
Definition load_special_overlay (section : section_t) (ram : Z) (m : gmap Z F) : gmap Z F :=
  foldl (fun m f => match func f with Some fn => <[s32 (ram + offset f) := fn]> m | None => delete (s32 (ram + offset f)) m end) m (funcs section).
Definition load_patch_functions (patches : list section_t) (m : gmap Z F) : gmap Z F :=
  foldl (fun m p => load_special_overlay p (s32 (ram_addr p)) m) m patches.
(** A fresh process; [code_sections] is the table after the sort. *)
Definition init_overlays (total_num_sections : nat) (patches : list section_t) : state :=
  let s := MkOverlays ∅ [] (replicate total_num_sections 0) [] no_fragments in
  let s := foldl (fun s e => secaddr_set (index e) (s32 (ram_addr e)) s) s code_sections in
  set_map (load_patch_functions patches (func_map s)) s.

(** * Lookups *)

Definition recomp_lookup_function_or_null (addr : Z) (s : state) : option F := func_map s !! addr.
Definition get_func_entry_by_section_index_function_offset (i : nat) (function_offset : Z) : option (FuncEntry F) :=
  if (length code_sections <=? i)%nat then None
  else if function_offset >=? size (sec i) then None
  else find (fun f => offset f =? function_offset) (funcs (sec i)).
Definition is_manual_patch_symbol (vram : Z) : bool := (0x8F000000 <=? vram) && (vram <? 0x90000000).
Definition get_func_by_section_index_function_offset (section_absolute : nat) (manual_patch_symbols_by_vram : gmap Z F)
    (i : nat) (function_offset : Z) : option F :=
  match get_func_entry_by_section_index_function_offset i function_offset with
  | Some e => func e
  | None =>
      if (i =? section_absolute)%nat && is_manual_patch_symbol function_offset
      then manual_patch_symbols_by_vram !! function_offset else None
  end.

(** * Trampolines of fragments *)

Definition decode_jal_target (instr pc_delay_slot : Z) : Z :=
  let opcode := Z.land (Z.shiftr instr 26) 0x3F in
  if negb (opcode =? 0x02) && negb (opcode =? 0x03) then 0
  else Z.lor (Z.land pc_delay_slot 0xF0000000) (Z.shiftl (Z.land instr 0x03FFFFFF) 2).
Definition func_entry_may_be_fragment_jump_slot (f : FuncEntry F) : bool :=
  (offset f >=? 0x20) && (Z.land (offset f) 7 =? 0) && (rom_size f =? 8).

(** Where a loaded section covers a link-time address; 0 if none does. *)
Definition translate_in (link_time : Z) (l : LoadedSection) : option Z :=
  let sec := sec (section_table_index l) in
  let base := loaded_ram_addr l in
  if (u32 base <=? link_time) && (link_time <? u32 (u32 base + size sec)) then Some (s32 link_time)
  else if (ram_addr sec <=? link_time) && (link_time <? u32 (ram_addr sec + size sec))
  then Some (s32 (base + (link_time - ram_addr sec)))
  else match section_original_fragment_base sec with
       | Some ob => if (ob <=? link_time) && (link_time <? u32 (ob + size sec)) then Some (s32 (base + (link_time - ob))) else None
       | None => None
       end.
Fixpoint first_some {A B} (f : A -> option B) (l : list A) : option B :=
  match l with [] => None | x :: l => match f x with Some b => Some b | None => first_some f l end end.
Definition translate_link_time_to_runtime (link_time : Z) (s : state) : Z :=
  default 0 (first_some (translate_in link_time) (loaded_sections s)).

(** The aliases of a slot in its host section. *)
Definition trampoline_aliases (tramp : Z) (fn : F) (l : LoadedSection) (m : gmap Z F) : gmap Z F :=
  let sec := sec (section_table_index l) in
  let off := tramp - loaded_ram_addr l in
  let link := s32 (s32 (ram_addr sec) + off) in
  if negb (link =? tramp) then
    let m := <[link := fn]> m in
    match section_original_fragment_base sec with Some ob => <[s32 (s32 ob + off) := fn]> m | None => m end
  else m.
Definition hosts (tramp : Z) (l : LoadedSection) : bool :=
  (loaded_ram_addr l <=? tramp) && (tramp <? s32 (loaded_ram_addr l + s32 (size (sec (section_table_index l))))).
Definition try_install_trampoline (tramp target : Z) (s : state) : bool * state :=
  let runtime_target := translate_link_time_to_runtime target s in
  if runtime_target =? 0 then (false, s)
  else match func_map s !! runtime_target with
       | None => (false, s)
       | Some fn =>
           let m := <[tramp := fn]> (func_map s) in
           let m := match find (hosts tramp) (loaded_sections s) with
                    | Some l => trampoline_aliases tramp fn l m
                    | None => m
                    end in
           (true, set_map m s)
       end.
Fixpoint retry_loop (todo kept : list PendingTrampoline) (s : state) : state :=
  match todo with
  | [] => set_pending kept s
  | p :: todo =>
      let '(installed, s) := try_install_trampoline (trampoline_runtime_addr p) (link_time_target p) s in
      retry_loop todo (if (installed : bool) then kept else kept ++ [p]) s
  end.
Definition retry_pending_trampolines (s : state) : state := retry_loop (pending_trampolines s) [] s.

Section Scan.
Context {M : Type} `{RdramOps M}.

(** Byte [p] of the memory is what [MEM_B] finds at 0x80000000 + p, sign-extended;
    words are read at a physical address, most significant byte first. *)
Definition physical (vaddr : Z) : Z := Z.land (u32 vaddr) 0x1FFFFFFF.
Definition rdram_byte (rdram : M) (paddr : Z) : Z := u8 (MEM_B (paddr - 0x80000000) rdram).
Definition read_rdram_u32_be (rdram : M) (vaddr : Z) : Z :=
  foldl (fun v i => Z.lor (u32 (Z.shiftl v 8)) (rdram_byte rdram (physical vaddr + i))) 0 (seqZ 0 4).
Definition func_entry_is_live_fragment_jump_slot (rdram : M) (section : section_t) (runtime_base : Z) (f : FuncEntry F) : bool :=
  if negb (func_entry_may_be_fragment_jump_slot f) then false
  else
    let instr := read_rdram_u32_be rdram (s32 (runtime_base + offset f)) in
    let delay := read_rdram_u32_be rdram (s32 (runtime_base + offset f + 4)) in
    if negb (delay =? 0) then false
    else if negb (Z.land (Z.shiftr instr 26) 0x3F =? 0x02) then false
    else negb (decode_jal_target instr (u32 (ram_addr section + offset f + 4)) =? 0).

(** Where the jump table of a fragment ends: its first function. *)
Definition first_func_offset (rdram : M) (section : section_t) (runtime_base : Z) : Z :=
  foldl (fun first f =>
    if func_entry_is_live_fragment_jump_slot rdram section runtime_base f then first
    else if (offset f >? 0) && (offset f <? first) then offset f else first) (size section) (funcs section).
Definition scan_slot (rdram : M) (runtime_base decode_base slot_off : Z) (s : state) : state :=
  let instr := read_rdram_u32_be rdram (s32 (runtime_base + slot_off)) in
  let delay := read_rdram_u32_be rdram (s32 (runtime_base + slot_off + 4)) in
  if negb (delay =? 0) then s
  else
    let target := decode_jal_target instr (u32 (decode_base + slot_off + 4)) in
    if target =? 0 then s
    else
      let tramp := s32 (runtime_base + slot_off) in
      let '(installed, s) := try_install_trampoline tramp target s in
      if (installed : bool) then s else set_pending (pending_trampolines s ++ [MkPending tramp target]) s.
Definition scan_fragment_section_trampolines (rdram : M) (i : nat) (runtime_base : Z) (s : state) : state :=
  let section := sec i in
  if negb (read_rdram_u32_be rdram (s32 (runtime_base + 8)) =? 0x46524147)
     || negb (read_rdram_u32_be rdram (s32 (runtime_base + 12)) =? 0x4D454E54) then s
  else
    let first := first_func_offset rdram section runtime_base in
    if first <=? 0x20 then s
    else
      let decode_base := default (ram_addr section) (section_original_fragment_base section) in
      foldl (fun s k => scan_slot rdram runtime_base decode_base (0x20 + 8 * k) s) s (seqZ 0 ((first - 0x20) / 8)).
Definition scan_loaded_fragment_trampolines (rdram : M) (rom sz : Z) (s : state) : state :=
  let s := foldl (fun s l =>
    let e := sec (section_table_index l) in
    if (rom_addr e <? u32 (rom + sz)) && (u32 (rom_addr e + size e) >? rom)
    then scan_fragment_section_trampolines rdram (section_table_index l) (loaded_ram_addr l) s else s)
    s (loaded_sections s) in
  retry_pending_trampolines s.
End Scan.
End Overlays.
