(* ===== verification/OverlaysSpec.v ===== *)
(** What the tables of Overlays.v promise: every operation of the game on them
    is a sequence of loads of sections that fit and of removals, so that loaded
    sections never overlap, [section_addresses] follows them, and a lookup
    inside guest memory finds exactly the functions of what is loaded. *)

From Stdlib Require Import ZArith Lia Bool List.
From stdpp Require Import base list gmap sorting relations.
From S2P Require Import Prelude Bytes RspMem Rdram Overlays.
Open Scope Z_scope.

(** * Lists *)

Lemma find_none {A} (f : A -> bool) l : find f l = None <-> Forall (fun x => f x = false) l.
Proof.
  rewrite Forall_forall. split.
  - intros H x Hx. apply (find_none f l H). by apply list_elem_of_In.
  - intros H. destruct (find f l) as [x|] eqn:E; [|done].
    apply find_some in E as [Hx E]. apply list_elem_of_In in Hx. rewrite (H x Hx) in E. done.
Qed.

Lemma find_split {A} (f : A -> bool) l x :
  find f l = Some x -> exists a b, l = a ++ x :: b /\ Forall (fun y => f y = false) a /\ f x = true.
Proof.
  induction l as [|y l IH]; simpl; [done|]. destruct (f y) eqn:E.
  - intros [= ->]. by exists [], l.
  - intros (a & b & -> & Ha & Hx)%IH. exists (y :: a), b. auto.
Qed.

Lemma find_app_none {A} (f : A -> bool) a b : Forall (fun x => f x = false) a -> find f (a ++ b) = find f b.
Proof. induction 1 as [|x a E _ IH]; simpl; [done|]. by rewrite E. Qed.

Lemma find_middle {A} (f : A -> bool) a x b : f x = false -> find f (a ++ x :: b) = find f (a ++ b).
Proof. intros H. induction a as [|y a IH]; simpl; [by rewrite H|]. by destruct (f y). Qed.

Lemma FOP_app {A} (R : A -> A -> Prop) a b :
  ForallOrdPairs R (a ++ b) <-> ForallOrdPairs R a /\ ForallOrdPairs R b /\ Forall (fun x => Forall (R x) b) a.
Proof.
  induction a as [|x a IH]; simpl.
  - split; [intros H; repeat split; auto; constructor|tauto].
  - split.
    + intros H. inversion_clear H as [|? ? Hx Ha]. apply Forall_app in Hx as [? ?].
      apply IH in Ha as (? & ? & ?). repeat split; auto; by constructor.
    + intros (Ha & Hb & Hx). inversion_clear Ha. inversion_clear Hx. constructor; [by apply Forall_app|].
      apply IH. auto.
Qed.

Section OverlaysSpec.
Context {F : Type} (code_sections : list (SectionTableEntry F)) (frag_unreg : bool).
Abbreviation state := (overlay_state F).
Abbreviation sec := (Overlays.sec code_sections).
Abbreviation load_overlay := (Overlays.load_overlay code_sections).
Abbreviation forget := (forget_section code_sections frag_unreg).
Abbreviation unload_index := (unload_overlay_by_section_index code_sections frag_unreg).
Abbreviation register_if_new := (Overlays.register_if_new code_sections frag_unreg).
Implicit Types (s : state) (x : LoadedSection) (i : nat) (base : Z).

(** * Loads and removals *)

(** Two loaded sections that are different and do not overlap. *)
Definition apart (a b : LoadedSection) : Prop :=
  section_table_index a <> section_table_index b /\
  runtime_ranges_overlap (loaded_ram_addr a) (size (sec (section_table_index a)))
    (loaded_ram_addr b) (size (sec (section_table_index b))) = false.

(** One change of the tables: a section loads where nothing is in its way, or
    a loaded one goes.  [place] says which loads are considered. *)
Inductive change (place : nat -> Z -> Prop) : state -> state -> Prop :=
| change_load i base s :
    place i base -> Forall (apart (MkLoaded base i)) (loaded_sections s) ->
    change place s (load_overlay i base s)
| change_drop a x b s :
    loaded_sections s = a ++ x :: b ->
    change place s (set_loaded (a ++ b) (forget (section_table_index x) (loaded_ram_addr x) s)).

Lemma loaded_record i s : loaded_sections (record_load_order i s) = loaded_sections s.
Proof. done. Qed.
Lemma func_map_record i s : func_map (record_load_order i s) = func_map s.
Proof. done. Qed.
Lemma addresses_record i s : section_addresses (record_load_order i s) = section_addresses s.
Proof. done. Qed.
Lemma loaded_secaddr_set j v s : loaded_sections (secaddr_set j v s) = loaded_sections s.
Proof. unfold secaddr_set. by destruct (negb _). Qed.
Lemma func_map_secaddr_set j v s : func_map (secaddr_set j v s) = func_map s.
Proof. unfold secaddr_set. by destruct (negb _). Qed.
Lemma loaded_forget i base s : loaded_sections (forget i base s) = loaded_sections s.
Proof. unfold forget_section. by rewrite loaded_secaddr_set. Qed.
Lemma loaded_load i base s : loaded_sections (load_overlay i base s) = loaded_sections s ++ [MkLoaded base i].
Proof. unfold Overlays.load_overlay. by rewrite loaded_record, loaded_secaddr_set. Qed.
Lemma forget_set_loaded i base k l s : set_loaded l (forget i base (set_loaded k s)) = set_loaded l (forget i base s).
Proof. unfold forget_section, secaddr_set. by destruct (negb _). Qed.

Lemma is_section_eq i l : is_section i l = true <-> section_table_index l = i.
Proof. unfold is_section. apply Nat.eqb_eq. Qed.
Lemma is_section_ne i l : is_section i l = false <-> section_table_index l <> i.
Proof. unfold is_section. apply Nat.eqb_neq. Qed.

Lemma erase_first_split i a x b :
  Forall (fun y => is_section i y = false) a -> is_section i x = true -> erase_first i (a ++ x :: b) = a ++ b.
Proof. induction 1 as [|y a E _ IH]; simpl; intros H; [by rewrite H|]. rewrite E. f_equal. auto. Qed.

(** Unloading a section that is loaded drops it. *)
Lemma unload_index_split i s x :
  find (is_section i) (loaded_sections s) = Some x ->
  exists a b, loaded_sections s = a ++ x :: b /\ section_table_index x = i /\
    unload_index i s = set_loaded (a ++ b) (forget i (loaded_ram_addr x) s).
Proof.
  intros E. destruct (find_split _ _ _ E) as (a & b & Hl & Ha & Hx). exists a, b.
  split; [done|]. split; [by apply is_section_eq|].
  unfold unload_overlay_by_section_index. rewrite E. f_equal.
  rewrite loaded_forget, Hl. by apply erase_first_split.
Qed.
Lemma unload_index_changes place i s : rtc (change place) s (unload_index i s).
Proof.
  destruct (find (is_section i) (loaded_sections s)) as [x|] eqn:E.
  - destruct (unload_index_split _ _ _ E) as (a & b & Hl & <- & ->). apply rtc_once. by apply change_drop.
  - unfold unload_overlay_by_section_index. rewrite E. apply rtc_refl.
Qed.

Lemma length_unload i s x :
  find (is_section i) (loaded_sections s) = Some x ->
  length (loaded_sections s) = S (length (loaded_sections (unload_index i s))).
Proof.
  intros E. destruct (unload_index_split _ _ _ E) as (a & b & -> & _ & ->). simpl.
  rewrite !length_app. simpl. lia.
Qed.

Lemma find_is_section l s : l ∈ loaded_sections s ->
  exists x, find (is_section (section_table_index l)) (loaded_sections s) = Some x.
Proof.
  intros Hl. destruct (find _ _) as [x|] eqn:E; [eauto|]. exfalso.
  rewrite find_none, Forall_forall in E. apply E, is_section_ne in Hl. done.
Qed.

(** * Eviction ends with nothing in the way *)

Abbreviation in_the_way := (Overlays.in_the_way code_sections).
Lemma evict_changes place fuel i base s : rtc (change place) s (evict code_sections frag_unreg fuel i base s).
Proof.
  revert s. induction fuel as [|fuel IH]; intros s; simpl; [apply rtc_refl|].
  destruct (find _ _) as [l|]; [|apply rtc_refl].
  etransitivity; [apply (unload_index_changes place)|apply IH].
Qed.
Lemma evict_clears fuel i base s : (length (loaded_sections s) <= fuel)%nat ->
  Forall (fun l => in_the_way i base l = false) (loaded_sections (evict code_sections frag_unreg fuel i base s)).
Proof.
  revert s. induction fuel as [|fuel IH]; intros s Hf; simpl.
  { destruct (loaded_sections s); [done|simpl in Hf; lia]. }
  destruct (find (in_the_way i base) (loaded_sections s)) as [l|] eqn:E; [|by apply find_none].
  apply IH. apply find_some in E as [Hl%list_elem_of_In _].
  destruct (find_is_section l s Hl) as [x Hx]. pose proof (length_unload _ _ _ Hx). lia.
Qed.

(** What eviction and registration leave of the other sections. *)
Definition clear_of i base l : Prop := section_table_index l <> i -> in_the_way i base l = false.
Lemma in_the_way_apart i base l : section_table_index l <> i -> in_the_way i base l = false -> apart (MkLoaded base i) l.
Proof.
  intros Hi. unfold Overlays.in_the_way. rewrite (proj2 (is_section_ne i l) Hi). simpl. intros H. by split.
Qed.

Lemma apart_sym a b : apart a b -> apart b a.
Proof.
  unfold apart, runtime_ranges_overlap. intros [H1 H2]. split; [done|].
  by rewrite andb_comm.
Qed.

(** * Every operation is a sequence of changes *)

Abbreviation all_apart := (fun s => ForallOrdPairs apart (loaded_sections s)).

Lemma apart_middle a x b : ForallOrdPairs apart (a ++ x :: b) ->
  ForallOrdPairs apart (a ++ b) /\ Forall (apart x) (a ++ b).
Proof.
  rewrite !FOP_app. intros (Ha & Hxb & Hax). inversion_clear Hxb as [|? ? Hx Hb].
  rewrite Forall_app. rewrite Forall_forall in Hax. repeat split; auto.
  - apply Forall_forall. intros y Hy. specialize (Hax y Hy). by inversion_clear Hax.
  - apply Forall_forall. intros y Hy. apply apart_sym. specialize (Hax y Hy). by inversion Hax.
Qed.
Lemma change_all_apart place s s' : change place s s' -> all_apart s -> all_apart s'.
Proof.
  intros [i base t _ Hf | a x b t Hl] H; cbv beta in *.
  - rewrite loaded_load. apply FOP_app. split; [done|]. split; [repeat constructor|].
    apply Forall_impl with (1 := Hf). intros y Hy. constructor; [by apply apart_sym|constructor].
  - rewrite Hl in H. by apply apart_middle in H as [? _].
Qed.
Lemma changes_all_apart place s s' : rtc (change place) s s' -> all_apart s -> all_apart s'.
Proof. induction 1 as [|s t s' H _ IH]; [done|]. intros Hs. by apply IH, (change_all_apart place s t). Qed.

Lemma register_changes (place : nat -> Z -> Prop) i base s :
  place i base -> all_apart s -> rtc (change place) s (register_if_new i base s).
Proof.
  intros Hp Ha. unfold Overlays.register_if_new, evict_overlapping_sections.
  pose proof (evict_clears (length (loaded_sections s)) i base s ltac:(done)) as Hc.
  pose proof (evict_changes place (length (loaded_sections s)) i base s) as He.
  pose proof (changes_all_apart _ _ _ He Ha) as Ha'. simpl in Ha'.
  set (t := evict _ _ _ _ _ _) in *.
  assert (Hap : forall y, y ∈ loaded_sections t -> section_table_index y <> i -> apart (MkLoaded base i) y).
  { intros y Hy Hi. apply in_the_way_apart; [done|]. rewrite Forall_forall in Hc. auto. }
  destruct (find (is_section i) (loaded_sections t)) as [l|] eqn:E.
  - destruct (negb _) eqn:En; [|done]. etransitivity; [done|].
    etransitivity; [apply (unload_index_changes place)|]. apply rtc_once. apply change_load; [done|].
    destruct (unload_index_split _ _ _ E) as (a & b & Hl & <- & ->). simpl.
    rewrite Hl in Ha'. apply apart_middle in Ha' as [_ Hx]. rewrite Forall_forall in Hx |- *.
    intros y Hy. apply Hap; [rewrite Hl; revert Hy; rewrite !elem_of_app, elem_of_cons; tauto|]. by destruct (Hx y Hy) as [? _].
  - etransitivity; [done|]. apply rtc_once. apply change_load; [done|].
    rewrite find_none, Forall_forall in E. apply Forall_forall. intros y Hy. apply Hap; [done|].
    by apply is_section_ne, E.
Qed.

Lemma registers_change (place : nat -> Z -> Prop) l s :
  Forall (fun p => place (fst p) (snd p)) l -> all_apart s ->
  rtc (change place) s (foldl (fun s '(i, base) => register_if_new i base s) s l).
Proof.
  intros Hl. revert s. induction Hl as [|[i base] l Hp _ IH]; intros s Ha; simpl; [apply rtc_refl|].
  pose proof (register_changes place i base s Hp Ha) as H1.
  etransitivity; [done|]. apply IH. by apply (changes_all_apart place s).
Qed.

(** The loop of [unload_overlays], with the sections it has passed put back. *)
Lemma unload_loop_changes place ram sz l : forall kept s s',
  unload_loop code_sections frag_unreg ram sz kept l s = Some s' ->
  rtc (change place) (set_loaded (kept ++ l) s) s'.
Proof.
  induction l as [|x l IH]; intros kept s s'; simpl.
  { intros [= <-]. rewrite app_nil_r. apply rtc_refl. }
  destruct (overlaps_unload _ _ _ _).
  - destruct (partly_unloaded _ _ _ _); [done|]. intros H. eapply rtc_l; [|by apply IH].
    rewrite <- (forget_set_loaded _ _ (kept ++ x :: l)). by apply change_drop.
  - intros H%IH. by rewrite <- app_assoc in H.
Qed.

(** * Runs *)

Context (overlay_table : Z -> nat).
Inductive op :=
| Load_overlays (rom ram sz : Z)
| Unload_overlays (ram sz : Z)
| Unload_overlay_by_id (id : Z)
| Unregister_runtime_fragment (id : Z).
(** [None] when [unload_overlays] ends the program. *)
Definition run_op (o : op) s : option state :=
  match o with
  | Load_overlays rom ram sz => Some (load_overlays code_sections frag_unreg rom ram sz s)
  | Unload_overlays ram sz => unload_overlays code_sections frag_unreg ram sz s
  | Unload_overlay_by_id id => Some (unload_overlay_by_id code_sections overlay_table frag_unreg id s)
  | Unregister_runtime_fragment id => Some (unregister_runtime_fragment code_sections frag_unreg id s)
  end.
Fixpoint run (l : list op) s : option state :=
  match l with [] => Some s | o :: l => match run_op o s with Some s => run l s | None => None end end.

Abbreviation sections_of_dma := (Overlays.sections_of_dma code_sections).
Definition op_places (place : nat -> Z -> Prop) (o : op) : Prop :=
  match o with
  | Load_overlays rom ram sz => Forall (fun p => place (fst p) (snd p)) (sections_of_dma rom ram sz)
  | _ => True
  end.

Lemma set_loaded_same s : set_loaded (loaded_sections s) s = s.
Proof. by destruct s. Qed.
Lemma run_op_changes place o s s' : op_places place o -> run_op o s = Some s' -> all_apart s -> rtc (change place) s s'.
Proof.
  destruct o; simpl; intros Hp H Ha.
  - injection H as <-. by apply registers_change.
  - apply (unload_loop_changes place) in H. simpl in H. by rewrite set_loaded_same in H.
  - injection H as <-. apply unload_index_changes.
  - injection H as <-. unfold unregister_runtime_fragment. destruct (_ !! _); [apply unload_index_changes|apply rtc_refl].
Qed.
Lemma run_changes place l : forall s s', Forall (op_places place) l -> run l s = Some s' -> all_apart s -> rtc (change place) s s'.
Proof.
  induction l as [|o l IH]; intros s s' Hp H Ha; simpl in H; [injection H as <-; apply rtc_refl|].
  destruct (run_op o s) as [t|] eqn:E; [|done]. inversion_clear Hp.
  pose proof (run_op_changes place o s t ltac:(done) E Ha) as Ho. etransitivity; [done|].
  apply IH; [done|done|]. by apply (changes_all_apart place s).
Qed.
(** An invariant of every change is one of every run. *)
Lemma run_invariant (place : nat -> Z -> Prop) (Inv : state -> Prop) l s s' :
  (forall s s', change place s s' -> all_apart s -> Inv s -> Inv s') ->
  Forall (op_places place) l -> run l s = Some s' -> all_apart s -> Inv s -> all_apart s' /\ Inv s'.
Proof.
  intros Hi Hp H Ha. pose proof (run_changes place l s s' Hp H Ha) as Hc. revert Ha. clear Hp H.
  induction Hc as [u|u t w Hu _ IH]; intros Ha Hs; [done|].
  apply IH; [by apply (change_all_apart place u)|eauto].
Qed.

Lemma loaded_init_addresses (l : list (SectionTableEntry F)) s :
  loaded_sections (foldl (fun s e => secaddr_set (index e) (s32 (ram_addr e)) s) s l) = loaded_sections s.
Proof. revert s. induction l as [|e l IH]; intros s; simpl; [done|]. by rewrite IH, loaded_secaddr_set. Qed.
Lemma loaded_init total patches : loaded_sections (init_overlays code_sections total patches) = [].
Proof. apply loaded_init_addresses. Qed.
Lemma init_apart total patches : all_apart (init_overlays code_sections total patches).
Proof. cbv beta. rewrite loaded_init. constructor. Qed.

(** C16: Through any run of transfers and unloads, no section is loaded twice and the memory
    ranges of loaded sections do not overlap. *)
Theorem loaded_sections_stay_apart l total patches s :
  run l (init_overlays code_sections total patches) = Some s -> ForallOrdPairs apart (loaded_sections s).
Proof.
  intros H. apply (run_invariant (fun _ _ => True) (fun _ => True) l _ s) in H; [tauto|done| |apply init_apart|done].
  apply Forall_forall. intros [] _; simpl; [|done..]. by apply Forall_forall.
Qed.

(** * Addresses *)

Definition in_table i : Prop := (i < length code_sections)%nat.
Lemma sections_of_dma_in_table rom ram sz : Forall (fun p => in_table (fst p)) (sections_of_dma rom ram sz).
Proof.
  unfold Overlays.sections_of_dma. cbv zeta.
  assert (Hu : forall r, (upper_bound code_sections r <= length code_sections)%nat) by (intros; apply length_filter).
  assert (Hl : forall r, (lower_bound code_sections r <= length code_sections)%nat) by (intros; apply length_filter).
  specialize (Hl rom). specialize (Hu (u32 (rom + sz))). unfold in_table. apply Forall_app; split.
  { apply Forall_fmap, Forall_forall. intros i [_ Hi%elem_of_seq]%list_elem_of_filter. simpl. lia. }
  apply Forall_app; split.
  - destruct (negb _) eqn:E; [|done]. apply negb_true_iff, Nat.eqb_neq in E.
    destruct (_ && _); [|done]. constructor; [simpl; lia|done].
  - destruct (negb _ && _ && _) eqn:E; [|done]. rewrite !andb_true_iff, negb_true_iff, Nat.eqb_neq in E.
    constructor; [simpl; lia|done].
Qed.

Definition aligned (v : Z) : bool := Z.land v 3 =? 0.
Lemma secaddr_same j v s w : section_addresses s !! j = Some w ->
  section_addresses (secaddr_set j v s) !! j = Some (if aligned v then v else w).
Proof.
  intros H. unfold secaddr_set, aligned. destruct (_ =? 0); simpl; [|done].
  apply list_lookup_insert_eq. by apply lookup_lt_Some in H.
Qed.
Lemma secaddr_other j k v s : j <> k -> section_addresses (secaddr_set j v s) !! k = section_addresses s !! k.
Proof. intros H. unfold secaddr_set. destruct (negb _); simpl; [done|]. by apply list_lookup_insert_ne. Qed.

(** The base of a section: where it is loaded, or where it was linked. *)
Definition base_of (e : SectionTableEntry F) i s : Z :=
  match find (is_section i) (loaded_sections s) with
  | Some l => if aligned (loaded_ram_addr l) then loaded_ram_addr l else s32 (ram_addr e)
  | None => s32 (ram_addr e)
  end.
Definition addresses_follow s : Prop :=
  Forall (fun l => in_table (section_table_index l)) (loaded_sections s) /\
  forall i e, code_sections !! i = Some e -> section_addresses s !! index e = Some (base_of e i s).

Context (total : nat) (Hdup : NoDup (index <$> code_sections))
  (Hsec : Forall (fun e => (index e < total)%nat /\ aligned (s32 (ram_addr e)) = true) code_sections).

Lemma sec_lookup i e : code_sections !! i = Some e -> sec i = e.
Proof. unfold Overlays.sec. by intros ->. Qed.
Lemma sec_in_table i : in_table i -> code_sections !! i = Some (sec i).
Proof. intros [e H]%lookup_lt_is_Some. by rewrite H, (sec_lookup i e). Qed.
Lemma index_inj i j e e' :
  code_sections !! i = Some e -> code_sections !! j = Some e' -> i <> j -> index e <> index e'.
Proof.
  intros Hi Hj Hij He. apply Hij. apply (NoDup_lookup _ _ _ (index e) Hdup); rewrite list_lookup_fmap.
  - by rewrite Hi.
  - by rewrite Hj, He.
Qed.

Lemma change_addresses s s' :
  change (fun i _ => in_table i) s s' -> all_apart s -> addresses_follow s -> addresses_follow s'.
Proof.
  intros [i base t Hi Hf | a x b t Hl] Ha [Ht H]; unfold addresses_follow, base_of in *; cbv beta.
  - rewrite loaded_load. split; [apply Forall_app; auto|]. intros j e Hj. specialize (H j e Hj).
    pose proof (sec_in_table i Hi) as He. unfold Overlays.load_overlay. rewrite addresses_record. destruct (decide (j = i)) as [->|Hij].
    + assert (Hn : Forall (fun y => is_section i y = false) (loaded_sections t)).
      { apply Forall_impl with (1 := Hf). intros y [Hy _]. by apply is_section_ne, not_eq_sym. }
      rewrite find_app_none by done. rewrite (proj2 (find_none _ _) Hn) in H.
      rewrite (sec_lookup i e Hj). simpl. rewrite (proj2 (is_section_eq i (MkLoaded base i)) eq_refl).
      by apply secaddr_same.
    + rewrite secaddr_other by (eapply index_inj; eauto). simpl. rewrite H. f_equal.
      rewrite find_middle, app_nil_r; [done|]. by apply is_section_ne.
  - simpl. rewrite Hl in *. apply apart_middle in Ha as [_ Hx]. apply Forall_app in Ht as [Hta Htb].
    inversion_clear Htb as [|? ? Hxi Htb']. split; [by apply Forall_app|]. intros j e Hj. specialize (H j e Hj).
    pose proof (sec_in_table _ Hxi) as He. unfold forget_section. destruct (decide (j = section_table_index x)) as [->|Hij].
    + assert (Hn : find (is_section (section_table_index x)) (a ++ b) = None).
      { apply find_none, Forall_impl with (1 := Hx). intros y [Hy _]. by apply is_section_ne, not_eq_sym. }
      rewrite Hn. rewrite (sec_lookup _ e Hj). erewrite secaddr_same; [|exact H].
      rewrite Forall_lookup in Hsec. by destruct (Hsec _ _ Hj) as [_ ->].
    + rewrite secaddr_other by (eapply index_inj; eauto). simpl. rewrite H. f_equal.
      rewrite find_middle; [done|]. by apply is_section_ne.
Qed.

Lemma init_fold_other l s j : j ∉ (index <$> l) ->
  section_addresses (foldl (fun s (e : SectionTableEntry F) => secaddr_set (index e) (s32 (ram_addr e)) s) s l) !! j
  = section_addresses s !! j.
Proof.
  revert s. induction l as [|e l IH]; intros s Hj; simpl; [done|].
  rewrite fmap_cons, not_elem_of_cons in Hj. destruct Hj. rewrite IH by done. apply secaddr_other. congruence.
Qed.
Lemma init_fold_addresses l s : NoDup (index <$> l) ->
  Forall (fun e => is_Some (section_addresses s !! index e) /\ aligned (s32 (ram_addr e)) = true) l ->
  Forall (fun e => section_addresses
    (foldl (fun s (e : SectionTableEntry F) => secaddr_set (index e) (s32 (ram_addr e)) s) s l) !! index e
    = Some (s32 (ram_addr e))) l.
Proof.
  revert s. induction l as [|e l IH]; intros s Hd Hl; simpl; [done|].
  inversion_clear Hd as [|? ? He Hd']. inversion_clear Hl as [|? ? [[v Hv] Hal] Hl'].
  constructor.
  - rewrite init_fold_other by done. erewrite secaddr_same by done. by rewrite Hal.
  - apply IH; [done|]. apply Forall_impl with (1 := Hl'). intros e' [Hs Ha]. split; [|done].
    destruct (decide (index e = index e')) as [E|E].
    + rewrite <- E. erewrite secaddr_same by done. eauto.
    + by rewrite secaddr_other.
Qed.
Lemma init_addresses patches : addresses_follow (init_overlays code_sections total patches).
Proof.
  split; [by rewrite loaded_init|]. intros i e He. unfold base_of. rewrite loaded_init. simpl.
  unfold init_overlays. simpl.
  assert (H : Forall (fun e => is_Some (replicate total 0 !! index e) /\ aligned (s32 (ram_addr e)) = true) code_sections).
  { apply Forall_impl with (1 := Hsec). intros x [Hx Ha]. split; [|done].
    rewrite lookup_replicate_2 by done. by eexists. }
  apply (init_fold_addresses code_sections (MkOverlays ∅ [] (replicate total 0) [] no_fragments) Hdup) in H.
  rewrite Forall_lookup in H. by apply (H i e).
Qed.

(** Through any run, section_addresses holds for each section the base it is loaded at, or its link-time address when it is not loaded or its base is misaligned. *)
Theorem section_addresses_follow_loading l patches s i e :
  run l (init_overlays code_sections total patches) = Some s -> code_sections !! i = Some e ->
  section_addresses s !! index e = Some (base_of e i s).
Proof.
  intros H He. apply (run_invariant (fun i _ => in_table i) addresses_follow l _ s) in H as [_ [_ H]]; [auto| | | |].
  - apply change_addresses.
  - apply Forall_forall. intros [] _; simpl; [|done..]. apply sections_of_dma_in_table.
  - apply init_apart.
  - apply init_addresses.
Qed.
End OverlaysSpec.
