(* ===== verification/OverlaysLookup.v ===== *)
(** Which function runs at a guest address: while the game loads its sections
    into guest memory and links them elsewhere, a lookup there finds exactly the
    functions of the loaded sections, but for the jump slots of fragments. *)

From Stdlib Require Import ZArith Lia Bool List.
From stdpp Require Import base list gmap sorting relations.
From S2P Require Import Prelude Bytes RspMem Rdram Overlays OverlaysSpec.
Open Scope Z_scope.

Section OverlaysLookup.
Context {F : Type} (code_sections : list (SectionTableEntry F)) (overlay_table : Z -> nat) (frag_unreg : bool).
Abbreviation state := (overlay_state F).
Abbreviation sec := (Overlays.sec code_sections).
Abbreviation load_overlay := (Overlays.load_overlay code_sections).
Abbreviation forget := (forget_section code_sections frag_unreg).
Abbreviation apart := (OverlaysSpec.apart code_sections).
Implicit Types (s : state) (i : nat) (base k : Z) (f : FuncEntry F) (m : gmap Z F).

(** Part of the guest's address space, where sections are loaded. *)
Context (lo hi : Z) (Hlo : 0 <= lo) (Hhi : hi <= 4294967296).
Definition in_window k : bool := (lo <=? u32 k) && (u32 k <? hi).
Definition key base f : Z := s32 (base + offset f).

(** Section [i] fits at [base], and its link-time addresses are elsewhere. *)
Definition fits i base : bool :=
  (i <? length code_sections)%nat && (s32 base =? base) && (lo <=? u32 base) && (u32 base + size (sec i) <=? hi)
  && forallb (fun f => forallb (fun k => negb (in_window k)) (tl (alias_keys (sec i) base (offset f)))) (funcs (sec i)).
(** Functions lie at different offsets inside their section. *)
Definition section_ok (e : SectionTableEntry F) : Prop :=
  0 <= size e /\ NoDup (offset <$> funcs e) /\ Forall (fun f => 0 <= offset f < size e) (funcs e).
Context (Hok : Forall section_ok code_sections).

Record placed i base : Prop := Placed {
  placed_ok : section_ok (sec i);
  placed_range : lo <= u32 base /\ u32 base + size (sec i) <= hi;
  placed_aliases : forall f k, f ∈ funcs (sec i) -> k ∈ tl (alias_keys (sec i) base (offset f)) -> in_window k = false }.
Lemma fits_placed i base : fits i base = true -> placed i base.
Proof.
  unfold fits. rewrite !andb_true_iff. intros [[[[Hi%Nat.ltb_lt _] H1%Z.leb_le] H2%Z.leb_le] H3].
  split; [|done|].
  - rewrite Forall_lookup in Hok. apply (Hok i), sec_in_table. done.
  - intros f k Hf Hk. rewrite forallb_forall in H3. rewrite list_elem_of_In in Hf.
    specialize (H3 f Hf). rewrite forallb_forall in H3. rewrite list_elem_of_In in Hk.
    by apply negb_true_iff, H3.
Qed.

Lemma key_u32 i base f : placed i base -> f ∈ funcs (sec i) -> u32 (key base f) = u32 base + offset f.
Proof.
  intros [(_ & _ & Ho) [H1 H2] _] Hf. rewrite Forall_forall in Ho. specialize (Ho f Hf). unfold key. rewrite u32_s32.
  rewrite <- (u32_small (u32 base + offset f)) by (unfold is_u32; lia). unfold u32. zlia.
Qed.
Lemma keys_apart i base f j base' f' :
  placed i base -> placed j base' -> apart (MkLoaded base i) (MkLoaded base' j) ->
  f ∈ funcs (sec i) -> f' ∈ funcs (sec j) -> key base f <> key base' f'.
Proof.
  intros Hi Hj [_ Ha] Hf Hf' E. simpl in Ha.
  pose proof (key_u32 i base f Hi Hf) as E1. pose proof (key_u32 j base' f' Hj Hf') as E2. rewrite E in E1.
  destruct Hi as [(_ & _ & Ho) _ _], Hj as [(_ & _ & Ho') _ _]. rewrite Forall_forall in Ho, Ho'.
  specialize (Ho f Hf). specialize (Ho' f' Hf').
  unfold runtime_ranges_overlap in Ha. rewrite andb_false_iff, !Z.ltb_ge in Ha. lia.
Qed.
Lemma key_inj i base f f' : placed i base -> f ∈ funcs (sec i) -> f' ∈ funcs (sec i) ->
  key base f = key base f' -> offset f = offset f'.
Proof.
  intros Hi Hf Hf' E. pose proof (key_u32 i base f Hi Hf). pose proof (key_u32 i base f' Hi Hf'). rewrite E in *. lia.
Qed.

(** * What installing and erasing a section does to a key of the window *)

Lemma fold_insert_other (l : list Z) fn m k : k ∉ l -> foldl (fun m k => <[k := fn]> m) m l !! k = m !! k.
Proof.
  revert m. induction l as [|k' l IH]; intros m; simpl; [done|]. rewrite not_elem_of_cons. intros [H1 H2].
  rewrite IH by done. by apply lookup_insert_ne, not_eq_sym.
Qed.
Lemma fold_delete_other (l : list Z) m k : k ∉ l -> foldl (fun m k => delete k m) m l !! k = m !! k.
Proof.
  revert m. induction l as [|k' l IH]; intros m; simpl; [done|]. rewrite not_elem_of_cons. intros [H1 H2].
  rewrite IH by done. by apply lookup_delete_ne, not_eq_sym.
Qed.
Lemma alias_keys_cons (e : SectionTableEntry F) base off : alias_keys e base off = s32 (base + off) :: tl (alias_keys e base off).
Proof. done. Qed.

(** Aliases of [f] that may be the key [k] of the window. *)
Definition aliases_out (e : SectionTableEntry F) base k f : Prop := k ∉ tl (alias_keys e base (offset f)).
Lemma install_one e base f m k : aliases_out e base k f ->
  install_section_func_aliases e base f m !! k =
  match func f with Some fn => if decide (k = key base f) then Some fn else m !! k | None => m !! k end.
Proof.
  intros Hk. unfold install_section_func_aliases. destruct (func f) as [fn|]; [|done].
  rewrite alias_keys_cons. simpl foldl. rewrite fold_insert_other by done. unfold key.
  case_decide as E; [subst; apply lookup_insert_eq|by apply lookup_insert_ne, not_eq_sym].
Qed.
Lemma erase_one e base f m k : aliases_out e base k f ->
  erase_section_func_aliases e base f m !! k =
  match func f with Some fn => if decide (k = key base f) then None else m !! k | None => m !! k end.
Proof.
  intros Hk. unfold erase_section_func_aliases. destruct (func f) as [fn|]; [|done].
  rewrite alias_keys_cons. simpl foldl. rewrite fold_delete_other by done. unfold key.
  case_decide as E; [subst; apply lookup_delete_eq|by apply lookup_delete_ne, not_eq_sym].
Qed.

Definition defines base (l : list (FuncEntry F)) k (fn : F) : Prop :=
  exists f, f ∈ l /\ func f = Some fn /\ k = key base f.
Definition names base (l : list (FuncEntry F)) k : Prop := exists fn, defines base l k fn.

Lemma defines_cons base f l k fn : defines base (f :: l) k fn <-> (func f = Some fn /\ k = key base f) \/ defines base l k fn.
Proof. unfold defines. set_solver. Qed.
Lemma names_cons base f l k : names base (f :: l) k <-> (func f <> None /\ k = key base f) \/ names base l k.
Proof.
  unfold names. setoid_rewrite defines_cons. split.
  - intros (fn & [[E ->]|H]); [left; by rewrite E|eauto].
  - intros [[E ->]|[fn H]]; [|eauto]. destruct (func f) as [fn|]; [eauto|done].
Qed.

Lemma install_all e base k : forall l m, Forall (aliases_out e base k) l ->
  (forall f f', f ∈ l -> f' ∈ l -> key base f = key base f' -> offset f = offset f') -> NoDup (offset <$> l) ->
  forall fn, foldl (fun m f => install_section_func_aliases e base f m) m l !! k = Some fn <->
    defines base l k fn \/ (~ names base l k /\ m !! k = Some fn).
Proof.
  induction l as [|f l IH]; intros m Ha Hinj Hd fn; simpl.
  { unfold names, defines. set_solver. }
  inversion_clear Ha. inversion_clear Hd as [|? ? Hf Hd'].
  rewrite IH by (try done; intros; apply Hinj; set_solver).
  rewrite defines_cons, names_cons, install_one by done.
  assert (Hn : k = key base f -> ~ names base l k).
  { intros -> (fn' & f' & Hf' & _ & E). apply Hf. rewrite (Hinj f f') by (try done; set_solver).
    apply list_elem_of_fmap. eauto. }
  destruct (func f) as [g|]; [case_decide as E|].
  - specialize (Hn E). assert (~ defines base l k fn) by (intros ?; apply Hn; by exists fn). naive_solver.
  - naive_solver.
  - naive_solver.
Qed.
Lemma erase_all e base k : forall l m, Forall (aliases_out e base k) l ->
  forall fn, foldl (fun m f => erase_section_func_aliases e base f m) m l !! k = Some fn <->
    ~ names base l k /\ m !! k = Some fn.
Proof.
  induction l as [|f l IH]; intros m Ha fn; simpl.
  { unfold names, defines. set_solver. }
  inversion_clear Ha. rewrite IH, names_cons, erase_one by done.
  destruct (func f) as [g|]; [case_decide as E|]; naive_solver.
Qed.
Lemma range_erase_lookup base sz m k fn :
  frag_range_erase base sz m !! k = Some fn <-> (sz = 0 \/ in_range base sz k = false) /\ m !! k = Some fn.
Proof.
  unfold frag_range_erase. destruct (Z.eqb_spec sz 0) as [->|H]; [naive_solver|].
  rewrite map_lookup_filter_Some. simpl. naive_solver.
Qed.

(** * The invariant *)

Definition resident l k (fn : F) : Prop := defines (loaded_ram_addr l) (funcs (sec (section_table_index l))) k fn.
Definition dispatches s k (fn : F) : Prop := exists l, l ∈ loaded_sections s /\ resident l k fn.
Definition all_placed s : Prop := Forall (fun l => placed (section_table_index l) (loaded_ram_addr l)) (loaded_sections s).
Definition lookup_exact k s : Prop :=
  all_placed s /\ (in_window k = true -> forall fn, func_map s !! k = Some fn <-> dispatches s k fn).

Lemma placed_out i base k : placed i base -> in_window k = true -> Forall (aliases_out (sec i) base k) (funcs (sec i)).
Proof.
  intros Hp Hk. apply Forall_forall. intros f Hf Ha. by rewrite (placed_aliases _ _ Hp f k Hf Ha) in Hk.
Qed.
(** A resident function of one section is not named by a section apart from it. *)
Lemma resident_not_named i base l k fn :
  placed i base -> placed (section_table_index l) (loaded_ram_addr l) -> apart (MkLoaded base i) l ->
  resident l k fn -> ~ names base (funcs (sec i)) k.
Proof.
  intros Hi Hl Ha (f & Hf & _ & ->) (fn' & f' & Hf' & _ & E). symmetry in E. revert E.
  destruct l as [base' j]. by apply (keys_apart i base f' j base' f).
Qed.
Lemma resident_not_in_range i base l k fn :
  placed i base -> placed (section_table_index l) (loaded_ram_addr l) -> apart (MkLoaded base i) l ->
  resident l k fn -> in_range (u32 base) (size (sec i)) k = false.
Proof.
  intros Hi Hl [_ Ha] (f & Hf & _ & ->). simpl in *.
  pose proof (key_u32 _ _ f Hl Hf) as E. destruct Hl as [(_ & _ & Ho) [H1 H2] _], Hi as [[Hs _] [H3 H4] _].
  rewrite Forall_forall in Ho. specialize (Ho f Hf). unfold in_range. rewrite E.
  unfold runtime_ranges_overlap in Ha. rewrite andb_false_iff, !Z.ltb_ge in Ha.
  rewrite andb_false_iff, Z.leb_gt, Z.ltb_ge.
  pose proof (u32_range base) as Hb. unfold is_u32 in Hb. set (b := u32 base) in *.
  destruct (decide (b + size (sec i) < 4294967296)) as [Hw|Hw].
  - rewrite (u32_small (b + _)) by (unfold is_u32; lia). lia.
  - replace (b + size (sec i)) with 4294967296 by lia. unfold u32. rewrite Z.mod_same by done. lia.
Qed.

Lemma change_lookup k s s' : change code_sections frag_unreg (fun i base => fits i base = true) s s' ->
  ForallOrdPairs apart (loaded_sections s) -> lookup_exact k s -> lookup_exact k s'.
Proof.
  intros [i base t Hi%fits_placed Hf | a x b t Hl] Ha [Hp H]; unfold lookup_exact, all_placed, dispatches in *; cbv beta.
  - rewrite loaded_load. split; [apply Forall_app; auto|]. intros Hk fn.
    unfold Overlays.load_overlay. rewrite func_map_record, func_map_secaddr_set. simpl.
    rewrite install_all; [|by apply placed_out|intros; by eapply key_inj|apply Hi]. rewrite (H Hk fn).
    setoid_rewrite elem_of_app. setoid_rewrite list_elem_of_singleton. split.
    + intros [Hd|[_ (l & Hl & Hr)]]; [exists (MkLoaded base i); auto|eauto].
    + intros (l & [Hl| ->] & Hr); [|by left]. right. split; [|eauto].
      rewrite Forall_forall in Hp, Hf. eapply resident_not_named; eauto.
  - simpl. rewrite Hl in *. apply apart_middle in Ha as [_ Hx]. apply Forall_app in Hp as [Hpa Hpb].
    inversion_clear Hpb as [|? ? Hpx Hpb']. assert (Hp : Forall (fun l => placed (section_table_index l) (loaded_ram_addr l)) (a ++ b)) by (by apply Forall_app).
    split; [done|]. intros Hk fn. unfold forget_section. rewrite func_map_secaddr_set. simpl.
    transitivity ((frag_unreg = false \/ size (sec (section_table_index x)) = 0 \/
        in_range (u32 (loaded_ram_addr x)) (size (sec (section_table_index x))) k = false) /\
      ~ names (loaded_ram_addr x) (funcs (sec (section_table_index x))) k /\ func_map t !! k = Some fn).
    { destruct frag_unreg; [rewrite range_erase_lookup|]; rewrite erase_all by (by apply placed_out); naive_solver. }
    rewrite (H Hk fn). setoid_rewrite elem_of_app. setoid_rewrite elem_of_cons. split.
    + intros (_ & Hn & l & [?|[->|?]] & Hr); [eauto|destruct Hn; by exists fn|eauto].
    + intros (l & Hi & Hr). rewrite <- elem_of_app in Hi. rewrite Forall_forall in Hx, Hp.
      destruct x as [base i]. specialize (Hx l Hi). specialize (Hp l Hi). simpl in *.
      split; [do 2 right; by eapply resident_not_in_range|]. split; [by eapply resident_not_named|].
      exists l. split; [|done]. apply elem_of_app in Hi. tauto.
Qed.

(** Patches live outside the window. *)
Definition patches_outside (patches : list (SectionTableEntry F)) : bool :=
  forallb (fun p => forallb (fun f => negb (in_window (s32 (s32 (ram_addr p) + offset f)))) (funcs p)) patches.
Lemma patches_none patches m k : patches_outside patches = true -> in_window k = true ->
  load_patch_functions patches m !! k = m !! k.
Proof.
  intros Hp Hk. unfold load_patch_functions. revert m Hp. induction patches as [|p l IH]; intros m Hp; simpl; [done|].
  simpl in Hp. apply andb_prop in Hp as [Hf Hp]. rewrite IH by done. unfold load_special_overlay. revert Hf.
  generalize m. clear -Hk. induction (funcs p) as [|f fs IH]; intros m Hf; simpl; [done|].
  simpl in Hf. apply andb_prop in Hf as [E Hf]. rewrite IH by done.
  assert (s32 (s32 (ram_addr p) + offset f) <> k) by (intros <-; by rewrite Hk in E).
  destruct (func f); [by apply lookup_insert_ne|by apply lookup_delete_ne].
Qed.
Lemma func_map_init_addresses (l : list (SectionTableEntry F)) s :
  func_map (foldl (fun s e => secaddr_set (index e) (s32 (ram_addr e)) s) s l) = func_map s.
Proof. revert s. induction l as [|e l IH]; intros s; simpl; [done|]. by rewrite IH, func_map_secaddr_set. Qed.

(** * The calls of a game *)

(** Where a load by id puts its section, and the tables it finds there. *)
Definition by_id_place (id ram : Z) s : state * Z :=
  let prev := default 0 (section_addresses s !! index (sec (overlay_table id))) in
  if u32 prev =? ram_addr (sec (overlay_table id)) then (s, s32 ram)
  else (unload_overlay_by_id code_sections overlay_table frag_unreg id s, s32 (prev + ram)).
Lemma load_overlay_by_id_place id ram s :
  load_overlay_by_id code_sections overlay_table frag_unreg id ram s =
  load_overlay (overlay_table id) (snd (by_id_place id ram s)) (fst (by_id_place id ram s)).
Proof. unfold load_overlay_by_id, by_id_place. by destruct (_ =? _). Qed.

Section Game.
Context {M : Type} `{RdramOps M}.

(** Transfers and unloads, the scan for jump slots that follows each transfer, with
    the memory it reads, and loads by id. *)
Inductive game_op := Op (o : op) | Scan (rdram : M) (rom sz : Z) | Load_by_id (id ram : Z).
Definition run_game_op (g : game_op) s : option state :=
  match g with
  | Op o => run_op code_sections frag_unreg overlay_table o s
  | Scan rdram rom sz => Some (scan_loaded_fragment_trampolines code_sections rdram rom sz s)
  | Load_by_id id ram => Some (load_overlay_by_id code_sections overlay_table frag_unreg id ram s)
  end.
Fixpoint run_game (l : list game_op) s : option state :=
  match l with [] => Some s | g :: l => match run_game_op g s with Some s => run_game l s | None => None end end.

(** Every section that is loaded fits where it goes; a load by id, which evicts
    nothing, goes where nothing else is. *)
Definition apartb (a b : LoadedSection) : bool :=
  negb (section_table_index a =? section_table_index b)%nat &&
  negb (runtime_ranges_overlap (loaded_ram_addr a) (size (sec (section_table_index a)))
          (loaded_ram_addr b) (size (sec (section_table_index b)))).
Definition op_fits s (g : game_op) : bool :=
  match g with
  | Op (Load_overlays rom ram sz) => forallb (fun p => fits (fst p) (snd p)) (sections_of_dma code_sections rom ram sz)
  | Op _ | Scan _ _ _ => true
  | Load_by_id id ram =>
      let '(s, base) := by_id_place id ram s in
      fits (overlay_table id) base && forallb (apartb (MkLoaded base (overlay_table id))) (loaded_sections s)
  end.
(** Whether the scan leaves the address [k] alone: it has no jump slot there. *)
Definition leaves_alone k s s' (g : game_op) : Prop :=
  match g with Scan _ _ _ => func_map s' !! k = func_map s !! k | _ => True end.
Fixpoint game_fits k (l : list game_op) s : Prop :=
  match l with
  | [] => True
  | g :: l => op_fits s g = true /\ match run_game_op g s with Some s' => leaves_alone k s s' g /\ game_fits k l s' | None => True end
  end.

Lemma apartb_apart a b : apartb a b = true -> apart a b.
Proof.
  unfold apartb, OverlaysSpec.apart. rewrite andb_true_iff, !negb_true_iff, Nat.eqb_neq. done.
Qed.
Lemma by_id_changes place id ram s : rtc (change code_sections frag_unreg place) s (fst (by_id_place id ram s)).
Proof. unfold by_id_place. destruct (_ =? _); [apply rtc_refl|]. apply unload_index_changes. Qed.

(** A scan changes nothing but the map and the slots that wait. *)
Definition loads_nothing (s s' : state) : Prop := loaded_sections s' = loaded_sections s.
Lemma install_loads_nothing tramp target s : loads_nothing s (snd (try_install_trampoline code_sections tramp target s)).
Proof. unfold try_install_trampoline. destruct (_ =? 0); [done|]. by destruct (func_map s !! _). Qed.
Lemma slot_loads_nothing rdram base decode off s : loads_nothing s (scan_slot code_sections rdram base decode off s).
Proof.
  unfold scan_slot. destruct (negb _); [done|]. destruct (_ =? 0); [done|].
  pose proof (install_loads_nothing (s32 (base + off)) (decode_jal_target (read_rdram_u32_be rdram (s32 (base + off))) (u32 (decode + off + 4))) s) as E.
  by destruct (try_install_trampoline _ _ _ _) as [[] t].
Qed.
Lemma fold_loads_nothing {A} (f : state -> A -> state) l s : (forall s x, loads_nothing s (f s x)) -> loads_nothing s (foldl f s l).
Proof.
  intros Hf. revert s. induction l as [|x l IH]; intros s; [done|]. cbn [foldl]. unfold loads_nothing in *. by rewrite IH, Hf.
Qed.
Lemma retry_loads_nothing todo : forall kept s, loads_nothing s (retry_loop code_sections todo kept s).
Proof.
  induction todo as [|p todo IH]; intros kept s; [done|]. cbn [retry_loop].
  pose proof (install_loads_nothing (trampoline_runtime_addr p) (link_time_target p) s) as E.
  destruct (try_install_trampoline _ _ _ _) as [b t]. unfold loads_nothing in *. by rewrite IH.
Qed.
Lemma scan_loads_nothing rdram rom sz s : loads_nothing s (scan_loaded_fragment_trampolines code_sections rdram rom sz s).
Proof.
  unfold scan_loaded_fragment_trampolines, retry_pending_trampolines. unfold loads_nothing. rewrite retry_loads_nothing.
  apply (fold_loads_nothing (fun s l => _)). intros t l. destruct (_ && _); [|done].
  unfold scan_fragment_section_trampolines. destruct (_ || _); [done|]. destruct (_ <=? _); [done|].
  apply fold_loads_nothing. intros. apply slot_loads_nothing.
Qed.

Abbreviation all_apart := (fun s => ForallOrdPairs apart (loaded_sections s)).
Lemma changes_lookup k s s' : rtc (change code_sections frag_unreg (fun i base => fits i base = true)) s s' ->
  all_apart s -> lookup_exact k s -> all_apart s' /\ lookup_exact k s'.
Proof.
  induction 1 as [|s t s' Hc _ IH]; [done|]. intros Ha He. apply IH; [by apply (change_all_apart _ _ _ _ _ Hc)|by apply (change_lookup k s)].
Qed.
Lemma game_op_lookup k g s s' : op_fits s g = true -> run_game_op g s = Some s' -> leaves_alone k s s' g ->
  all_apart s -> lookup_exact k s -> all_apart s' /\ lookup_exact k s'.
Proof.
  intros Hf E Hq Ha He. destruct g as [o|rdram rom sz|id ram]; cbn [run_game_op] in E.
  - apply (changes_lookup k s); [|done|done]. apply (run_op_changes code_sections frag_unreg overlay_table _ o); [|done|done].
    destruct o; cbn [op_fits op_places] in *; try done. rewrite forallb_forall in Hf.
    apply Forall_forall. intros p Hp%list_elem_of_In. auto.
  - injection E as <-. cbn [leaves_alone] in Hq. unfold lookup_exact, all_placed, dispatches in *.
    rewrite Hq, (scan_loads_nothing rdram rom sz s). done.
  - injection E as <-. rewrite load_overlay_by_id_place. cbn [op_fits] in Hf.
    pose proof (by_id_changes (fun i base => fits i base = true) id ram s) as Hc. destruct (by_id_place id ram s) as [t base].
    apply andb_prop in Hf as [Hf Hn]. apply (changes_lookup k s); [|done|done]. eapply rtc_r; [exact Hc|].
    apply change_load; [exact Hf|]. rewrite forallb_forall in Hn. apply Forall_forall. intros x Hx%list_elem_of_In. auto using apartb_apart.
Qed.

(** C5: While the game loads sections into a window of memory that no link-time address
    aliases, by transfers each followed by its scan for trampolines and by id where nothing
    else is loaded, and unloads them, a lookup at an address where no scan installs a jump
    slot finds a function exactly when a loaded section has it there. Fragments that the
    game registers itself are not part of these runs. *)
Theorem lookups_find_what_is_loaded l total patches s k fn :
  patches_outside patches = true ->
  in_window k = true ->
  game_fits k l (init_overlays code_sections total patches) ->
  run_game l (init_overlays code_sections total patches) = Some s ->
  recomp_lookup_function_or_null k s = Some fn <-> dispatches s k fn.
Proof.
  intros Hp Hk Hl HR. enough (all_apart s /\ lookup_exact k s) as [_ [_ He]] by exact (He Hk fn).
  assert (H0 : lookup_exact k (init_overlays code_sections total patches)).
  { split; [unfold all_placed; by rewrite loaded_init|]. intros _ fn'.
    unfold dispatches. rewrite loaded_init. unfold init_overlays. simpl.
    rewrite patches_none, func_map_init_addresses by done. simpl. rewrite lookup_empty. set_solver. }
  pose proof (init_apart code_sections total patches) as Ha. revert Hl HR H0 Ha. generalize (init_overlays code_sections total patches).
  induction l as [|g l IH]; intros t Hl HR H0 Ha; [by injection HR as <-|]. cbn [run_game game_fits] in *. destruct Hl as [Hf Hl].
  destruct (run_game_op g t) as [t'|] eqn:E; [|done]. destruct Hl as [Hq Hl].
  destruct (game_op_lookup k g t t' Hf E Hq Ha H0). by apply (IH t').
Qed.
End Game.
End OverlaysLookup.
