(* ===== verification/OverlaysOps.v ===== *)
(** What a transfer from the cartridge loads: the sections it covers, and the
    one it falls in.  What unloading a range of memory takes with it and when it
    ends the program; unloading undoes loading; installed trampolines dispatch. *)

From Stdlib Require Import ZArith Lia Bool List.
From stdpp Require Import base list gmap sorting relations.
From S2P Require Import Prelude Bytes RspMem Rdram Overlays OverlaysSpec.
Open Scope Z_scope.

(** In a sorted list, the elements that satisfy a downward closed test come first. *)
Lemma sorted_prefix {A} (R : relation A) (P : A -> Prop) `{!forall x, Decision (P x)} (l : list A) i x :
  StronglySorted R l -> (forall x y, R x y -> P y -> P x) -> l !! i = Some x ->
  (i < length (filter P l))%nat <-> P x.
Proof.
  intros Hs Hd. revert i. induction Hs as [|y l _ IH Hy]; intros i Hi; [done|].
  rewrite filter_cons. case_decide as E.
  - destruct i as [|i]; simpl in Hi; [injection Hi as <-; simpl; split; [done|lia]|].
    rewrite <- (IH i Hi). simpl. lia.
  - assert (Hn : ~ P x) by (destruct i as [|i]; simpl in Hi; [by injection Hi as <-|];
      intros Hx; apply E; rewrite Forall_lookup in Hy; eauto).
    assert (filter P l = []) as ->; [|simpl; split; [lia|done]].
    destruct (filter P l) as [|z k] eqn:Ef; [done|]. exfalso.
    assert (Hz : z ∈ filter P l) by (rewrite Ef; constructor).
    apply list_elem_of_filter in Hz as [Hz Hin]. rewrite Forall_forall in Hy. eauto.
Qed.

Section OverlaysDma.
Context {F : Type} (code_sections : list (SectionTableEntry F)) (frag_unreg : bool).
Abbreviation state := (overlay_state F).
Abbreviation sec := (Overlays.sec code_sections).
Abbreviation sections_of_dma := (Overlays.sections_of_dma code_sections).
Abbreviation register_if_new := (Overlays.register_if_new code_sections frag_unreg).
Abbreviation unload_index := (unload_overlay_by_section_index code_sections frag_unreg).
Abbreviation apart := (OverlaysSpec.apart code_sections).
Abbreviation all_apart := (fun s => ForallOrdPairs apart (loaded_sections s)).
Implicit Types (s : state) (i : nat) (base : Z).

(** * Registered sections stay *)

Lemma apart_unique l x y : ForallOrdPairs apart l -> x ∈ l -> y ∈ l ->
  section_table_index x = section_table_index y -> x = y.
Proof.
  intros Ha [a [b ->]]%list_elem_of_split Hy E. apply apart_middle in Ha as [_ Hx].
  rewrite Forall_forall in Hx. rewrite elem_of_app, elem_of_cons in Hy.
  assert (Hn : y ∈ a ++ b -> section_table_index x <> section_table_index y) by (intros H; apply Hx, H).
  rewrite elem_of_app in Hn. naive_solver.
Qed.
Lemma unload_keeps i s l : l ∈ loaded_sections s -> section_table_index l <> i ->
  l ∈ loaded_sections (unload_index i s).
Proof.
  intros Hl Hi. destruct (find (is_section i) (loaded_sections s)) as [x|] eqn:E.
  - destruct (unload_index_split code_sections frag_unreg _ _ _ E) as (a & b & Hs & Hx & ->). simpl.
    rewrite Hs, elem_of_app, elem_of_cons in Hl. rewrite elem_of_app. naive_solver.
  - unfold unload_overlay_by_section_index. by rewrite E.
Qed.
Lemma evict_keeps fuel i base : forall s l, all_apart s -> l ∈ loaded_sections s ->
  in_the_way code_sections i base l = false ->
  l ∈ loaded_sections (evict code_sections frag_unreg fuel i base s).
Proof.
  induction fuel as [|fuel IH]; intros s l Ha Hl Hw; simpl; [done|].
  destruct (find _ _) as [x|] eqn:E; [|done]. apply find_some in E as [Hx%list_elem_of_In Ew].
  apply IH; [|apply unload_keeps; [done|]|done].
  - pose proof (unload_index_changes code_sections frag_unreg (fun _ _ => True) (section_table_index x) s) as Hc.
    by apply (changes_all_apart _ _ _ _ _ Hc).
  - intros Ei. by rewrite (apart_unique _ l x Ha Hl Hx Ei), Ew in Hw.
Qed.

(** Two places a transfer may give sections in the same run. *)
Definition compatible (p q : nat * Z) : Prop :=
  (fst p = fst q -> snd p = snd q) /\
  (fst p <> fst q -> runtime_ranges_overlap (snd q) (size (sec (fst q))) (snd p) (size (sec (fst p))) = false).
Lemma register_keeps i base j b s : all_apart s -> MkLoaded b j ∈ loaded_sections s -> compatible (j, b) (i, base) ->
  MkLoaded b j ∈ loaded_sections (register_if_new i base s).
Proof.
  intros Ha Hl [Heq Hne]. simpl in *. unfold Overlays.register_if_new, evict_overlapping_sections.
  assert (Hw : in_the_way code_sections i base (MkLoaded b j) = false).
  { unfold in_the_way, is_section. simpl. destruct (Nat.eqb_spec j i) as [->|Hij]; simpl; auto. }
  pose proof (evict_keeps (length (loaded_sections s)) i base s _ Ha Hl Hw) as Hk.
  pose proof (evict_changes code_sections frag_unreg (fun _ _ => True) (length (loaded_sections s)) i base s) as Hc.
  pose proof (changes_all_apart _ _ _ _ _ Hc Ha) as Ha'. simpl in Ha'. clear Hc.
  set (t := evict _ _ _ _ _ _) in *. destruct (find (is_section i) (loaded_sections t)) as [x|] eqn:E.
  - destruct (negb _) eqn:En; [|done]. rewrite loaded_load, elem_of_app. left.
    apply unload_keeps; [done|]. simpl. intros ->. apply find_some in E as [Hx%list_elem_of_In Ex%is_section_eq].
    rewrite <- (apart_unique _ (MkLoaded b i) x Ha' Hk Hx) in En by done. simpl in En.
    rewrite Heq, Z.eqb_refl in En by done. done.
  - rewrite loaded_load, elem_of_app. by left.
Qed.
Lemma register_loads i base s : MkLoaded base i ∈ loaded_sections (register_if_new i base s).
Proof.
  unfold Overlays.register_if_new. set (t := evict_overlapping_sections _ _ _ _ _).
  destruct (find _ _) as [x|] eqn:E; [|rewrite loaded_load; set_solver].
  destruct (negb _) eqn:En; [rewrite loaded_load; set_solver|].
  apply find_some in E as [Hx%list_elem_of_In Ex%is_section_eq]. apply negb_false_iff, Z.eqb_eq in En.
  destruct x as [b j]. simpl in *. by subst.
Qed.
Lemma registers_load (l : list (nat * Z)) : forall s, all_apart s ->
  (forall p q, p ∈ l -> q ∈ l -> compatible p q) -> forall p, p ∈ l \/ MkLoaded (snd p) (fst p) ∈ loaded_sections s /\ (forall q, q ∈ l -> compatible p q) ->
  MkLoaded (snd p) (fst p) ∈ loaded_sections (foldl (fun s '(i, base) => register_if_new i base s) s l).
Proof.
  induction l as [|[i base] l IH]; intros s Ha Hc p Hp; simpl; [set_solver|].
  apply IH; [|set_solver|].
  - pose proof (register_changes code_sections frag_unreg (fun _ _ => True) i base s I Ha) as H.
    by apply (changes_all_apart _ _ _ _ _ H).
  - rewrite elem_of_cons in Hp. destruct Hp as [[->|Hp]|[Hp Hq]]; [right|by left|right].
    + split; [apply register_loads|set_solver].
    + split; [|set_solver]. apply register_keeps; [done|done|]. destruct p. apply Hq. constructor.
Qed.

(** * Which sections a transfer touches *)

(** Sections follow each other in the cartridge. *)
Definition rom_before (a b : SectionTableEntry F) : Prop := rom_addr a + size a <= rom_addr b.
Definition rom_ok (e : SectionTableEntry F) : Prop := 0 <= rom_addr e /\ 0 < size e /\ rom_addr e + size e < 4294967296.
(** The transfer covers the section, or starts inside it. *)
Definition touches (rom sz : Z) (e : SectionTableEntry F) : Prop :=
  (rom <= rom_addr e /\ rom_addr e + size e <= rom + sz) \/ rom_addr e <= rom < rom_addr e + size e.
Definition dma_base (rom ram : Z) (e : SectionTableEntry F) : Z := s32 (rom_addr e - rom + ram).
Context (Hsorted : StronglySorted rom_before code_sections) (Hrom : Forall rom_ok code_sections).

Lemma rom_facts i e : code_sections !! i = Some e -> 0 <= rom_addr e /\ 0 < size e /\ rom_addr e + size e < 4294967296.
Proof. rewrite Forall_lookup in Hrom. apply Hrom. Qed.
Lemma rom_order i j e e' : (i < j)%nat -> code_sections !! i = Some e -> code_sections !! j = Some e' -> rom_before e e'.
Proof.
  clear Hrom. revert i j. induction Hsorted as [|x l _ IH Hx]; intros i j Hij Hi Hj; [done|].
  destruct j as [|j]; [lia|]. destruct i as [|i]; simpl in *; [injection Hi as <-; rewrite Forall_lookup in Hx; eauto|].
  apply (IH ltac:(by inversion Hsorted) i j); [lia|done|done].
Qed.
Lemma sorted_addresses : StronglySorted (fun a b : SectionTableEntry F => rom_addr a < rom_addr b) code_sections.
Proof.
  induction Hsorted as [|x l Hl IH Hx]; [constructor|]. inversion_clear Hrom as [|? ? Hok Hoks]. constructor; [by apply IH|].
  apply Forall_impl with (1 := Hx). intros y. unfold rom_before. destruct Hok as (_ & ? & _). lia.
Qed.
Lemma before_lower rom i e : code_sections !! i = Some e -> (i < lower_bound code_sections rom)%nat <-> rom_addr e < rom.
Proof.
  intros He. unfold lower_bound. rewrite (sorted_prefix _ _ _ i e sorted_addresses) by (try done; intros ? ?; rewrite !Z.ltb_lt; lia).
  by rewrite Z.ltb_lt.
Qed.
Lemma before_upper rom i e : code_sections !! i = Some e -> (i < upper_bound code_sections rom)%nat <-> rom_addr e <= rom.
Proof.
  intros He. unfold upper_bound. rewrite (sorted_prefix _ _ _ i e sorted_addresses) by (try done; intros ? ?; rewrite !Z.leb_le; lia).
  by rewrite Z.leb_le.
Qed.

Context (rom ram sz : Z) (Hrange : 0 <= rom /\ 0 <= sz /\ rom + sz < 4294967296).

Lemma covered_at_lower_first i e : code_sections !! i = Some e -> rom_addr e = rom -> lower_bound code_sections rom = i.
Proof.
  intros He E. assert (~ (i < lower_bound code_sections rom)%nat) by (rewrite (before_lower rom i e He); lia).
  destruct i as [|i]; [lia|]. destruct (lookup_lt_is_Some_2 code_sections i) as [e' He'].
  { apply lookup_lt_Some in He. lia. }
  pose proof (rom_order i (S i) e' e ltac:(lia) He' He) as Ho. unfold rom_before in Ho.
  pose proof (rom_facts i e' He').
  enough (i < lower_bound code_sections rom)%nat by lia. apply (before_lower rom i e' He'). lia.
Qed.
Lemma inside_before_lower i e : code_sections !! i = Some e -> rom_addr e < rom < rom_addr e + size e ->
  lower_bound code_sections rom = S i.
Proof.
  intros He E. assert (i < lower_bound code_sections rom)%nat by (apply (before_lower rom i e He); lia).
  assert (lower_bound code_sections rom <= length code_sections)%nat by apply length_filter.
  destruct (code_sections !! S i) as [e'|] eqn:He'; [|apply lookup_ge_None in He'; lia].
  pose proof (rom_order i (S i) e e' ltac:(lia) He He') as Ho. unfold rom_before in Ho.
  enough (~ (S i < lower_bound code_sections rom)%nat) by lia. rewrite (before_lower rom _ e' He'). lia.
Qed.

Lemma dma_end : u32 (rom + sz) = rom + sz.
Proof. apply u32_small. unfold is_u32. lia. Qed.
Lemma chunk_base e : rom_addr e <= rom < 4294967296 -> 0 <= rom_addr e ->
  s32 (ram - s32 (u32 (rom - rom_addr e))) = dma_base rom ram e.
Proof. intros He. unfold dma_base, s32, u32. zcase; zlia. Qed.
Lemma sections_of_dma_touched i b :
  (i, b) ∈ sections_of_dma rom ram sz -> exists e, code_sections !! i = Some e /\ touches rom sz e /\ b = dma_base rom ram e.
Proof.
  unfold Overlays.sections_of_dma. cbv zeta. rewrite dma_end, !elem_of_app.
  intros [Hi|[Hi|Hi]].
  - apply list_elem_of_fmap in Hi as (j & [= -> ->] & [Hp Hj%elem_of_seq]%list_elem_of_filter).
    assert (upper_bound code_sections (rom + sz) <= length code_sections)%nat by apply length_filter.
    destruct (lookup_lt_is_Some_2 code_sections j) as [e He]; [lia|]. rewrite (sec_lookup _ j e He) in *.
    pose proof (rom_facts j e He). exists e. split; [done|]. split; [|done]. left.
    apply Z.ltb_ge in Hp. rewrite u32_small in Hp by (unfold is_u32; lia).
    assert (~ (j < lower_bound code_sections rom)%nat) as Hl by lia. rewrite (before_lower rom j e He) in Hl. lia.
  - destruct (negb _) eqn:E; [|set_solver]. destruct (_ && _) eqn:Ec; [|set_solver].
    apply negb_true_iff, Nat.eqb_neq in E. apply list_elem_of_singleton in Hi as [= -> ->].
    assert (lower_bound code_sections rom <= length code_sections)%nat by apply length_filter.
    destruct (lookup_lt_is_Some_2 code_sections (lower_bound code_sections rom - 1)) as [e He]; [lia|].
    rewrite (sec_lookup _ _ e He) in *. pose proof (rom_facts _ e He).
    rewrite andb_true_iff, Z.leb_le, Z.ltb_lt, u32_small in Ec by (unfold is_u32; lia).
    exists e. split; [done|]. split; [right; lia|]. apply chunk_base; lia.
  - destruct (_ && _) eqn:Ec; [|set_solver]. rewrite !andb_true_iff, negb_true_iff, Nat.eqb_neq, Z.eqb_eq in Ec.
    apply list_elem_of_singleton in Hi as [= -> ->]. destruct Ec as [[Hl Er] _].
    assert (lower_bound code_sections rom <= length code_sections)%nat by apply length_filter.
    destruct (lookup_lt_is_Some_2 code_sections (lower_bound code_sections rom)) as [e He]; [lia|].
    rewrite (sec_lookup _ _ e He) in *. pose proof (rom_facts _ e He). exists e. split; [done|]. split; [right; lia|done].
Qed.
Lemma touched_in_dma i e :
  code_sections !! i = Some e -> touches rom sz e -> (i, dma_base rom ram e) ∈ sections_of_dma rom ram sz.
Proof.
  unfold Overlays.sections_of_dma. cbv zeta. rewrite dma_end, !elem_of_app.
  intros He Ht. pose proof (rom_facts i e He) as Hf. pose proof (lookup_lt_Some _ _ _ He) as Hlen.
  destruct (decide (rom <= rom_addr e /\ rom_addr e + size e <= rom + sz)) as [Hc|Hc].
  { left. apply list_elem_of_fmap. exists i. rewrite (sec_lookup _ i e He). split; [done|].
    apply list_elem_of_filter. rewrite (sec_lookup _ i e He), (u32_small (rom_addr e + size e)) by (unfold is_u32; lia).
    split; [apply Z.ltb_ge; lia|]. apply elem_of_seq.
    assert (~ (i < lower_bound code_sections rom)%nat) by (rewrite (before_lower rom i e He); lia).
    assert (i < upper_bound code_sections (rom + sz))%nat by (apply (before_upper _ i e He); lia). lia. }
  right. destruct Ht as [?|Ht]; [done|]. destruct (decide (rom_addr e = rom)) as [E|E].
  - right. rewrite (covered_at_lower_first i e He E), (sec_lookup _ i e He), E, Z.eqb_refl.
    rewrite (u32_small (rom + size e)) by (unfold is_u32; lia).
    rewrite (proj2 (Nat.eqb_neq i (length code_sections))) by lia. rewrite (proj2 (Z.ltb_lt _ _)) by lia.
    simpl. apply list_elem_of_singleton. by rewrite <- E.
  - left. rewrite (inside_before_lower i e He) by lia. simpl. rewrite Nat.sub_0_r, (sec_lookup _ i e He).
    rewrite (u32_small (rom_addr e + size e)) by (unfold is_u32; lia).
    rewrite (proj2 (Z.leb_le _ _)) by lia. rewrite (proj2 (Z.ltb_lt _ _)) by lia. simpl.
    apply list_elem_of_singleton. f_equal. symmetry. apply chunk_base; lia.
Qed.

(** Where the sections of a transfer lie. *)
Context (Hplace : forall i e, code_sections !! i = Some e -> touches rom sz e -> 0 <= u32 ram + (rom_addr e - rom) < 4294967296).
Lemma dma_base_u32 i e : code_sections !! i = Some e -> touches rom sz e -> u32 (dma_base rom ram e) = u32 ram + (rom_addr e - rom).
Proof.
  intros He Ht. specialize (Hplace i e He Ht). unfold dma_base.
  rewrite <- (u32_small (u32 ram + (rom_addr e - rom))) by done. unfold u32, s32. zcase; zlia.
Qed.
Lemma touched_apart i j e e' : (i < j)%nat ->
  code_sections !! i = Some e -> code_sections !! j = Some e' -> touches rom sz e -> touches rom sz e' ->
  runtime_ranges_overlap (dma_base rom ram e) (size e) (dma_base rom ram e') (size e') = false.
Proof.
  intros Hij Hi Hj Ht Ht'. pose proof (rom_order i j e e' Hij Hi Hj) as Ho. unfold rom_before in Ho.
  unfold runtime_ranges_overlap. rewrite (dma_base_u32 i e), (dma_base_u32 j e') by done.
  rewrite andb_false_iff, !Z.ltb_ge. lia.
Qed.
Lemma overlap_sym a n b m : runtime_ranges_overlap a n b m = runtime_ranges_overlap b m a n.
Proof. apply andb_comm. Qed.
Lemma sections_of_dma_compatible p q :
  p ∈ sections_of_dma rom ram sz -> q ∈ sections_of_dma rom ram sz -> compatible p q.
Proof.
  destruct p as [i b], q as [j b'].
  intros (e & He & Ht & ->)%sections_of_dma_touched (e' & He' & Ht' & ->)%sections_of_dma_touched.
  split; simpl; [intros ->; congruence|]. intros Hij. rewrite (sec_lookup _ i e He), (sec_lookup _ j e' He').
  destruct (Nat.lt_total i j) as [H|[H|H]]; [rewrite overlap_sym| |]; [by eapply touched_apart|done|by eapply touched_apart].
Qed.

(** After a transfer every section it covers, and the section it starts in, is loaded at the address its place in the cartridge implies. *)
Theorem dma_loads_what_it_touches s i e :
  ForallOrdPairs apart (loaded_sections s) -> code_sections !! i = Some e -> touches rom sz e ->
  MkLoaded (dma_base rom ram e) i ∈ loaded_sections (load_overlays code_sections frag_unreg rom ram sz s).
Proof.
  intros Ha He Ht. apply (registers_load _ s Ha sections_of_dma_compatible (i, dma_base rom ram e)).
  left. by apply touched_in_dma.
Qed.
(** A transfer that starts before a section and ends inside it does not load it. *)
Lemma dma_passes_over_a_section_it_enters i e : code_sections !! i = Some e ->
  rom < rom_addr e < rom + sz -> rom + sz < rom_addr e + size e -> forall b, (i, b) ∉ sections_of_dma rom ram sz.
Proof.
  intros He H1 H2 b (e' & He' & Ht & _)%sections_of_dma_touched. unfold touches in Ht. simplify_eq. lia.
Qed.
End OverlaysDma.

Section OverlaysUnload.
Context {F : Type} (code_sections : list (SectionTableEntry F)) (frag_unreg : bool).
Abbreviation state := (overlay_state F).
Abbreviation sec := (Overlays.sec code_sections).
Abbreviation forget := (forget_section code_sections frag_unreg).
Abbreviation unload_index := (unload_overlay_by_section_index code_sections frag_unreg).
Abbreviation load_overlay := (Overlays.load_overlay code_sections).
Abbreviation unload_overlays := (Overlays.unload_overlays code_sections frag_unreg).
Abbreviation overlaps := (overlaps_unload code_sections).
Abbreviation partly := (partly_unloaded code_sections).
Implicit Types (s : state) (i : nat) (base k : Z) (m : gmap Z F).

(** * The keys of a section *)

Definition keys_of (e : SectionTableEntry F) base (f : FuncEntry F) : list Z :=
  match func f with Some _ => alias_keys e base (offset f) | None => [] end.
Definition all_keys (e : SectionTableEntry F) base : list Z := mjoin (keys_of e base <$> funcs e).

Lemma delete_all_lookup (l : list Z) m k :
  foldl (fun m k => delete k m) m l !! k = if decide (k ∈ l) then None else m !! k.
Proof.
  revert m. induction l as [|j l IH]; intros m; simpl; [done|]. rewrite IH.
  destruct (decide (k ∈ l)) as [H|H]; [by rewrite decide_True by (by right)|].
  destruct (decide (k = j)) as [->|Hj].
  - rewrite decide_True by (by left). apply lookup_delete_eq.
  - rewrite decide_False by (by rewrite not_elem_of_cons). by apply lookup_delete_ne, not_eq_sym.
Qed.
Lemma erase_all_keys e base l m :
  foldl (fun m f => erase_section_func_aliases e base f m) m l
  = foldl (fun m k => delete k m) m (mjoin (keys_of e base <$> l)).
Proof.
  revert m. induction l as [|f l IH]; intros m; simpl; [done|]. rewrite foldl_app, IH. f_equal.
  unfold erase_section_func_aliases, keys_of. by destruct (func f).
Qed.
Lemma install_other e base l k : forall m, k ∉ mjoin (keys_of e base <$> l) ->
  foldl (fun m f => install_section_func_aliases e base f m) m l !! k = m !! k.
Proof.
  induction l as [|f l IH]; intros m; simpl; [done|]. rewrite not_elem_of_app. intros [Hf Hl]. rewrite IH by done.
  unfold install_section_func_aliases, keys_of in *. destruct (func f) as [fn|]; [|done].
  revert m Hf. generalize (alias_keys e base (offset f)). clear. induction l as [|j l IH]; intros m; simpl; [done|].
  rewrite not_elem_of_cons. intros [Hj Hl]. rewrite IH by done. by apply lookup_insert_ne, not_eq_sym.
Qed.

Definition in_section (i : nat) base k : bool := in_range (u32 base) (size (sec i)) k.
Lemma forget_lookup i base s k :
  func_map (forget i base s) !! k =
  if decide (k ∈ all_keys (sec i) base) then None
  else if frag_unreg && in_section i base k then None else func_map s !! k.
Proof.
  unfold forget_section. rewrite func_map_secaddr_set. simpl. rewrite erase_all_keys. unfold in_section.
  assert (Hr : forall m, frag_range_erase (u32 base) (size (sec i)) m !! k =
    if in_range (u32 base) (size (sec i)) k then None else m !! k).
  { intros m. unfold frag_range_erase. destruct (Z.eqb_spec (size (sec i)) 0) as [E|E].
    - unfold in_range. rewrite E, Z.add_0_r, (u32_small (u32 base)) by apply u32_range.
      destruct (_ && _) eqn:H; [|done]. rewrite andb_true_iff, Z.leb_le, Z.ltb_lt in H. lia.
    - destruct (in_range _ _ _) eqn:H.
      + apply map_lookup_filter_None. right. intros x _. simpl. by rewrite H.
      + destruct (m !! k) as [x|] eqn:Em; [by apply map_lookup_filter_Some|]. apply map_lookup_filter_None. auto. }
  destruct frag_unreg; simpl; [rewrite Hr|]; rewrite delete_all_lookup; repeat case_decide; try done;
    destruct (in_range _ _ _); done.
Qed.

(** * Unloading a range of memory *)

Lemma unload_loop_result ram sz l : forall kept s,
  match unload_loop code_sections frag_unreg ram sz kept l s with
  | None => Exists (fun x => overlaps ram sz x = true /\ partly ram sz x = true) l
  | Some s' =>
      Forall (fun x => overlaps ram sz x = true -> partly ram sz x = false) l /\
      loaded_sections s' = kept ++ filter (fun x => overlaps ram sz x = false) l /\
      forall k, func_map s' !! k =
        if decide (Exists (fun x => overlaps ram sz x = true /\
          (k ∈ all_keys (sec (section_table_index x)) (loaded_ram_addr x) \/
           frag_unreg && in_section (section_table_index x) (loaded_ram_addr x) k = true)) l)
        then None else func_map s !! k
  end.
Proof.
  induction l as [|x l IH]; intros kept s; simpl.
  { split; [done|]. split; [by rewrite app_nil_r|]. intros k. done. }
  destruct (overlaps ram sz x) eqn:Eo.
  - destruct (partly ram sz x) eqn:Ep; [by left|].
    specialize (IH kept (forget (section_table_index x) (loaded_ram_addr x) s)).
    destruct (unload_loop _ _ _ _ _ _ _) as [s'|]; [|by right]. destruct IH as (Hf & Hl & Hm).
    split; [by constructor|]. split; [by rewrite filter_cons_False by congruence|]. intros k. rewrite Hm, forget_lookup. clear -Eo.
    repeat case_decide; rewrite Exists_cons in *; try (destruct (_ && _) eqn:E); naive_solver.
  - specialize (IH (kept ++ [x]) s).
    destruct (unload_loop _ _ _ _ _ _ _) as [s'|]; [|by right]. destruct IH as (Hf & Hl & Hm).
    split; [constructor; [congruence|done]|]. split; [by rewrite Hl, <- app_assoc, filter_cons_True|]. intros k. rewrite Hm. clear -Eo.
    apply decide_ext. rewrite Exists_cons, Eo. split; [by right|]. by intros [[? _]|?].
Qed.

(** Unloading a range removes the loaded sections it overlaps, with all their function aliases and, unless disabled, every entry in their memory, and nothing else; it ends the program exactly when it overlaps one it does not cover. *)
Theorem unload_overlays_result ram sz s :
  match unload_overlays ram sz s with
  | None => Exists (fun x => overlaps ram sz x = true /\ partly ram sz x = true) (loaded_sections s)
  | Some s' =>
      Forall (fun x => overlaps ram sz x = true -> partly ram sz x = false) (loaded_sections s) /\
      loaded_sections s' = filter (fun x => overlaps ram sz x = false) (loaded_sections s) /\
      forall k, func_map s' !! k =
        if decide (Exists (fun x => overlaps ram sz x = true /\
          (k ∈ all_keys (sec (section_table_index x)) (loaded_ram_addr x) \/
           frag_unreg && in_section (section_table_index x) (loaded_ram_addr x) k = true)) (loaded_sections s))
        then None else func_map s !! k
  end.
Proof. apply (unload_loop_result ram sz (loaded_sections s) [] s). Qed.

(** Unloading a region that ends exactly where a loaded section starts, and so does not overlap it, ends the program. *)
Theorem unload_adjacent_region_exits ram sz s l :
  l ∈ loaded_sections s -> 0 < sz -> 0 < size (sec (section_table_index l)) ->
  u32 ram + sz = u32 (loaded_ram_addr l) ->
  u32 (loaded_ram_addr l) + size (sec (section_table_index l)) < 4294967296 ->
  runtime_ranges_overlap ram sz (loaded_ram_addr l) (size (sec (section_table_index l))) = false /\
  unload_overlays ram sz s = None.
Proof.
  intros Hl Hs Hn E Hw. pose proof (u32_range ram) as Hr. pose proof (u32_range (loaded_ram_addr l)) as Hb.
  unfold is_u32 in *. split.
  { unfold runtime_ranges_overlap. rewrite andb_false_iff, !Z.ltb_ge. lia. }
  assert (E1 : u32 (ram + sz) = u32 (loaded_ram_addr l)).
  { rewrite <- (u32_small (u32 (loaded_ram_addr l))), <- E by done. unfold u32. zlia. }
  assert (E2 : u32 (loaded_ram_addr l + size (sec (section_table_index l))) = u32 (loaded_ram_addr l) + size (sec (section_table_index l))).
  { rewrite <- (u32_small (u32 (loaded_ram_addr l) + _)) by (unfold is_u32; lia). unfold u32. zlia. }
  pose proof (unload_loop_result ram sz (loaded_sections s) [] s) as H.
  unfold Overlays.unload_overlays. destruct (unload_loop _ _ _ _ _ _ _) as [s'|]; [|done]. destruct H as [H _]. rewrite Forall_forall in H.
  specialize (H l Hl). unfold overlaps_unload, partly_unloaded in H. rewrite E1, E2 in H.
  rewrite (proj2 (Z.ltb_lt (u32 ram) _)), (proj2 (Z.leb_le _ _)), (proj2 (Z.ltb_lt (u32 _) _)), orb_true_r in H by lia.
  by specialize (H eq_refl).
Qed.

(** * Unloading undoes loading *)

(** Slots that wait for their target survive every unload. *)
Lemma pending_forget i base s : pending_trampolines (forget i base s) = pending_trampolines s.
Proof. unfold forget_section, secaddr_set. by destruct (negb _). Qed.

Theorem unload_undoes_load i base s :
  Forall (fun l => section_table_index l <> i) (loaded_sections s) ->
  (forall k, k ∈ all_keys (sec i) base -> func_map s !! k = None) ->
  (forall k, in_section i base k = true -> func_map s !! k = None) ->
  aligned (s32 (ram_addr (sec i))) = true -> section_addresses s !! index (sec i) = Some (s32 (ram_addr (sec i))) ->
  unload_index i (load_overlay i base s) = set_fragments (fragments (load_overlay i base s)) s.
Proof.
  intros Hn Hk Hr Ha Hs. set (t := load_overlay i base s).
  assert (Hf : Forall (fun y => is_section i y = false) (loaded_sections s)).
  { apply Forall_impl with (1 := Hn). intros y. apply is_section_ne. }
  assert (Hx : find (is_section i) (loaded_sections t) = Some (MkLoaded base i)).
  { unfold t. rewrite loaded_load, find_app_none by done. simpl. by rewrite (proj2 (is_section_eq i (MkLoaded base i)) eq_refl). }
  unfold unload_overlay_by_section_index. rewrite Hx. cbv zeta. rewrite loaded_forget. change (loaded_ram_addr (MkLoaded base i)) with base.
  assert (El : erase_first i (loaded_sections t) = loaded_sections s).
  { unfold t. rewrite loaded_load, erase_first_split, app_nil_r; [done|done|by apply is_section_eq]. }
  assert (Em : func_map (forget i base t) = func_map s).
  { apply map_eq. intros k. rewrite forget_lookup. unfold t, Overlays.load_overlay. rewrite func_map_record, func_map_secaddr_set. simpl.
    case_decide as H1; [by rewrite Hk|]. destruct (frag_unreg && in_section i base k) eqn:H2.
    - apply andb_prop in H2 as [_ H2]. by rewrite Hr.
    - by apply install_other. }
  assert (Ea : section_addresses (forget i base t) = section_addresses s).
  { unfold forget_section, t, Overlays.load_overlay, record_load_order, secaddr_set, aligned in *. rewrite Ha. simpl.
    destruct (Z.land base 3 =? 0); simpl; rewrite ?list_insert_insert_eq; by apply list_insert_id. }
  assert (Ep : pending_trampolines (forget i base t) = pending_trampolines s).
  { rewrite pending_forget. unfold t, Overlays.load_overlay, record_load_order, secaddr_set. by destruct (negb _). }
  assert (Eg : fragments (forget i base t) = fragments t) by (unfold forget_section, secaddr_set; by destruct (negb _)).
  rewrite El. unfold set_loaded, set_fragments. by rewrite Em, Ea, Ep, Eg.
Qed.

(** * Trampolines *)

Lemma pending_unload i s : pending_trampolines (unload_index i s) = pending_trampolines s.
Proof. unfold unload_overlay_by_section_index. destruct (find _ _); [apply pending_forget|done]. Qed.

Lemma trampoline_aliases_lookup tramp fn l m k v : m !! tramp = Some fn ->
  trampoline_aliases code_sections tramp fn l m !! tramp = Some fn /\
  (trampoline_aliases code_sections tramp fn l m !! k = Some v -> m !! k = Some v \/ v = fn).
Proof.
  intros Hm. assert (H : forall j (n : gmap Z F), n !! tramp = Some fn -> <[j := fn]> n !! tramp = Some fn /\
    (<[j := fn]> n !! k = Some v -> n !! k = Some v \/ v = fn)).
  { intros j n Hn. split.
    - destruct (decide (j = tramp)) as [->|Hj]; [apply lookup_insert_eq|by rewrite lookup_insert_ne].
    - destruct (decide (j = k)) as [->|Hj]; [rewrite lookup_insert_eq; intros [= <-]; auto|rewrite lookup_insert_ne by done; auto]. }
  unfold trampoline_aliases. destruct (negb _); [|by auto]. destruct (section_original_fragment_base _); [|by apply H].
  destruct (H (s32 (s32 (ram_addr (sec (section_table_index l))) + (tramp - loaded_ram_addr l))) m Hm) as [H1 H2].
  destruct (H (s32 (s32 z + (tramp - loaded_ram_addr l))) _ H1) as [H3 H4]. split; [done|]. naive_solver.
Qed.
Theorem trampoline_dispatches_to_its_target tramp target s s' :
  try_install_trampoline code_sections tramp target s = (true, s') ->
  exists fn, recomp_lookup_function_or_null (translate_link_time_to_runtime code_sections target s) s = Some fn /\
    recomp_lookup_function_or_null tramp s' = Some fn /\
    (forall k v, func_map s' !! k = Some v -> func_map s !! k = Some v \/ v = fn) /\
    loaded_sections s' = loaded_sections s /\ section_addresses s' = section_addresses s.
Proof.
  unfold try_install_trampoline. destruct (_ =? 0); [done|]. destruct (func_map s !! _) as [fn|] eqn:E; [|done].
  intros [= <-]. exists fn. split; [done|]. unfold recomp_lookup_function_or_null. simpl.
  assert (Hi : (<[tramp := fn]> (func_map s) : gmap Z F) !! tramp = Some fn) by apply lookup_insert_eq.
  assert (Hk : forall k v, (<[tramp := fn]> (func_map s) : gmap Z F) !! k = Some v -> func_map s !! k = Some v \/ v = fn).
  { intros k v. destruct (decide (tramp = k)) as [->|Hj]; [rewrite lookup_insert_eq; intros [= <-]; auto|].
    rewrite lookup_insert_ne by done. auto. }
  destruct (find _ _) as [l|]; [|auto]. split; [by apply (trampoline_aliases_lookup _ _ _ _ 0 fn)|]. split; [|done].
  intros k v Hv. apply (trampoline_aliases_lookup _ _ _ _ k v Hi) in Hv as [Hv|Hv]; auto.
Qed.
End OverlaysUnload.
