(* ===== verification/Fragments.v ===== *)
(** Fragments: librecomp/src/overlays.cpp, the part for games that unpack their
    overlays themselves.

    The game announces a fragment by its id and address; the runtime finds out
    which recompiled section it is, evicts what was there and installs it.  One
    id can have several variants at once, so that addresses of the fragment
    space are resolved against the variant meant.  The ring of past instances
    is a diagnostic and left out. *)

From Stdlib Require Import ZArith Lia Bool List.
From stdpp Require Import base list gmap sorting.
From S2P Require Import Prelude Bytes RspMem Rdram Overlays.
Open Scope Z_scope.

(** * The synthetic pool *)

Definition kSyntheticPoolBase : Z := 0xC0000000.
Definition kSyntheticPoolEnd : Z := 0xE0000000.
Definition kSyntheticPoolStride : Z := 0x00100000.
Definition kSyntheticBucketCount : Z := (kSyntheticPoolEnd - kSyntheticPoolBase) / kSyntheticPoolStride.
Definition is_synthetic_addr (addr : Z) : bool := (kSyntheticPoolBase <=? addr) && (addr <? kSyntheticPoolEnd).
Definition synthetic_bucket_idx (addr : Z) : Z := (addr - kSyntheticPoolBase) / kSyntheticPoolStride.

Definition fnv1a_64 (data : list Z) : Z :=
  foldl (fun h b => u64 (Z.lxor h b * 0x100000001B3)) 0xCBF29CE484222325 data.

Section Fragments.
Context {F M : Type} `{RdramOps M}.
Abbreviation section_t := (SectionTableEntry F).
Abbreviation state := (overlay_state F).
(** [psr_size_filter_on] is off only if PSR_FRAG_SIZEMATCH is 0. *)
Context (code_sections : list section_t) (frag_unreg psr_size_filter_on : bool).
Abbreviation sec := (Overlays.sec code_sections).

(** * Which section is it? *)

Definition is_candidate (id : Z) (e : section_t) : bool :=
  if is_synthetic_addr (ram_addr e) then (original_pattern_id e =? id) && negb (content_hash e =? 0)
  else
    let bucket := Z.shiftr (Z.land (ram_addr e) 0x0FF00000) 20 in
    if bucket <? 0x10 then false else bucket - 0x10 =? id.
Definition candidates (id : Z) : list nat := filter (fun i => is_candidate id (sec i) = true) (seq 0 (length code_sections)).

(** The header of a fragment, if it lies in memory. *)
Definition rd_be32 (rdram : M) (p : Z) : Z :=
  Z.lor (Z.lor (Z.lor (Z.shiftl (rdram_byte rdram p) 24) (Z.shiftl (rdram_byte rdram (p + 1)) 16))
    (Z.shiftl (rdram_byte rdram (p + 2)) 8)) (rdram_byte rdram (p + 3)).
Definition fragment_magic (rdram : M) (p : Z) : bool :=
  (rd_be32 rdram (p + 0x08) =? 0x46524147) && (rd_be32 rdram (p + 0x0C) =? 0x4D454E54).
Definition frag_size_in_ram (rdram : M) (fragment_ptr : Z) : Z :=
  let p := physical fragment_ptr in
  if (p + 0x20 <=? 8 * 1024 * 1024) && fragment_magic rdram p then rd_be32 rdram (p + 0x1C) else 0.
(** The link-time address its first jump implies. *)
Definition header_link_vram (rdram : M) (fragment_ptr : Z) : option Z :=
  let p := physical fragment_ptr in
  let j_instr := rd_be32 rdram p in
  if (p + 0x14 <=? 8 * 1024 * 1024) && fragment_magic rdram p && (Z.land (Z.shiftr j_instr 26) 0x3F =? 0x02)
  then Some (u32 (Z.lor (u32 (Z.shiftl (Z.land j_instr 0x03FFFFFF) 2)) 0x80000000 - rd_be32 rdram (p + 0x10)))
  else None.

Definition extent_ok (size_in_ram : Z) (i : nat) : bool :=
  negb psr_size_filter_on || (size_in_ram =? 0) || (size (sec i) <=? size_in_ram).
Definition live_hash (rdram : M) (fragment_ptr : Z) : Z :=
  fnv1a_64 ((fun i => rdram_byte rdram (physical fragment_ptr + i)) <$> seqZ 0 0x100).
Definition by_hash (rdram : M) (fragment_ptr size_in_ram : Z) (cands : list nat) : option nat :=
  find (fun i => negb (content_hash (sec i) =? 0) && (content_hash (sec i) =? live_hash rdram fragment_ptr)
                 && extent_ok size_in_ram i) cands.
Definition by_header_range (rdram : M) (fragment_ptr size_in_ram : Z) (cands : list nat) : option nat :=
  match header_link_vram rdram fragment_ptr with
  | Some link => find (fun i => (ram_addr (sec i) <=? link) && (link <? u32 (ram_addr (sec i) + size (sec i)))
                                && extent_ok size_in_ram i) cands
  | None => None
  end.
Definition by_header_link (rdram : M) (fragment_ptr size_in_ram : Z) : option nat :=
  match header_link_vram rdram fragment_ptr with
  | Some link => find (fun i => (ram_addr (sec i) =? link) && extent_ok size_in_ram i) (seq 0 (length code_sections))
  | None => None
  end.
(** The last resort: the only candidate that fits. *)
Definition by_size (size_in_ram : Z) (cands : list nat) : option nat :=
  if psr_size_filter_on && negb (size_in_ram =? 0) then
    match filter (fun i => (size (sec i) <=? size_in_ram) = true) cands with [i] => Some i | _ => None end
  else None.

Definition or_else {A} (a b : option A) : option A := match a with Some _ => a | None => b end.
Definition has_hashed_candidate (cands : list nat) : bool := existsb (fun i => negb (content_hash (sec i) =? 0)) cands.
Definition found_index (rdram : M) (id fragment_ptr : Z) : option nat :=
  let cands := candidates id in
  let size_in_ram := frag_size_in_ram rdram fragment_ptr in
  let first :=
    if (length cands =? 1)%nat && negb (has_hashed_candidate cands) then head cands
    else or_else (by_hash rdram fragment_ptr size_in_ram cands) (by_header_range rdram fragment_ptr size_in_ram cands) in
  let found := or_else first (or_else (by_header_link rdram fragment_ptr size_in_ram) (by_size size_in_ram cands)) in
  (* the final guard *)
  match found with
  | Some i => if psr_size_filter_on && negb (size_in_ram =? 0) && (size (sec i) >? size_in_ram) then None else Some i
  | None => None
  end.

(** * Registration *)

Definition erase_fragment_slot_aliases (e : section_t) (runtime_base off : Z) (m : gmap Z F) : gmap Z F :=
  foldl (fun m k => delete k m) m (alias_keys e runtime_base off).
Definition first_slotless_offset (e : section_t) : Z :=
  foldl (fun first f =>
    if func_entry_may_be_fragment_jump_slot f then first
    else if (offset f >? 0) && (offset f <? first) then offset f else first) (size e) (funcs e).
(** The aliases of an evicted section; those at its link address are erased twice. *)
Definition evict_aliases (e : section_t) (fragment_ptr : Z) (m : gmap Z F) : gmap Z F :=
  let m := foldl (fun m f => erase_section_func_aliases e fragment_ptr f m) m (funcs e) in
  foldl (fun m k => erase_fragment_slot_aliases e fragment_ptr (0x20 + 8 * k) m) m
    (seqZ 0 ((first_slotless_offset e - 0x20) / 8)).
Definition stays (fragment_ptr : Z) (skip_index : option nat) (l : LoadedSection) : bool :=
  negb (loaded_ram_addr l =? fragment_ptr) ||
  match skip_index with Some i => is_section i l | None => false end.
Fixpoint evict_loop (fragment_ptr : Z) (skip_index : option nat) (kept l : list LoadedSection) (s : state) : state :=
  match l with
  | [] => set_loaded kept s
  | x :: l =>
      if stays fragment_ptr skip_index x then evict_loop fragment_ptr skip_index (kept ++ [x]) l s
      else
        let e := sec (section_table_index x) in
        let s := set_map (evict_aliases e fragment_ptr (func_map s)) s in
        evict_loop fragment_ptr skip_index kept l (secaddr_set (index e) (s32 (ram_addr e)) s)
  end.
Definition evict_prior_at_base (fragment_ptr : Z) (skip_index : option nat) (s : state) : state :=
  evict_loop fragment_ptr skip_index [] (loaded_sections s) s.

Definition set_live_range (id : Z) (r : Z * Z) (s : state) : state :=
  let t := fragments s in
  set_fragments (MkFragments (runtime_fragment_id_to_section t) (<[id := r]> (frag_live_range t))
    (synthetic_fragments t) (section_load_order t) (next_load_order t)) s.
Definition set_section_of_id (id : Z) (i : nat) (s : state) : state :=
  let t := fragments s in
  set_fragments (MkFragments (<[id := i]> (runtime_fragment_id_to_section t)) (frag_live_range t)
    (synthetic_fragments t) (section_load_order t) (next_load_order t)) s.
(** The range the id was last loaded at, when it moves. *)
Definition supersede (id fragment_ptr : Z) (s : state) : state :=
  match frag_live_range (fragments s) !! id with
  | Some (base, sz) =>
      if frag_unreg && negb (base =? u32 fragment_ptr) then set_map (frag_range_erase base sz (func_map s)) s else s
  | None => s
  end.
Definition leave_unregistered (id fragment_ptr size_in_ram : Z) (s : state) : state :=
  let s := supersede id fragment_ptr (evict_prior_at_base fragment_ptr None s) in
  if negb (size_in_ram =? 0) then set_live_range id (u32 fragment_ptr, size_in_ram) s else s.

(** The slot of a synthetic section; the index is below the capacity. *)
Definition register_synthetic (i : nat) (fragment_ptr : Z) (s : state) : state :=
  if is_synthetic_addr (ram_addr (sec i)) then
    let t := fragments s in
    set_fragments (MkFragments (runtime_fragment_id_to_section t) (frag_live_range t)
      (<[synthetic_bucket_idx (ram_addr (sec i)) := MkSlot (u32 fragment_ptr) (size (sec i)) i]> (synthetic_fragments t))
      (section_load_order t) (next_load_order t)) s
  else s.
Fixpoint move_first (i : nat) (fragment_ptr : Z) (l : list LoadedSection) : list LoadedSection :=
  match l with
  | [] => [MkLoaded fragment_ptr i]
  | x :: l => if is_section i x then MkLoaded fragment_ptr i :: l else x :: move_first i fragment_ptr l
  end.
Definition bind_fragment (rdram : M) (id fragment_ptr : Z) (i : nat) (s : state) : state :=
  let s := supersede id fragment_ptr (evict_prior_at_base fragment_ptr (Some i) s) in
  let s := set_map (foldl (fun m f => install_section_func_aliases (sec i) fragment_ptr f m) (func_map s) (funcs (sec i))) s in
  let s := secaddr_set (index (sec i)) fragment_ptr s in
  let s := set_live_range id (u32 fragment_ptr, size (sec i)) s in
  let s := register_synthetic i fragment_ptr s in
  let s := set_loaded (move_first i fragment_ptr (loaded_sections s)) s in
  let s := record_load_order i (set_section_of_id id i s) in
  let s := scan_fragment_section_trampolines code_sections rdram i fragment_ptr s in
  retry_pending_trampolines code_sections s.
(** Called with a table registered. *)
Definition register_runtime_fragment (rdram : M) (id fragment_ptr : Z) (s : state) : state :=
  if fragment_ptr =? 0 then s
  else match found_index rdram id fragment_ptr with
       | Some i => bind_fragment rdram id fragment_ptr i s
       | None => leave_unregistered id fragment_ptr (frag_size_in_ram rdram fragment_ptr) s
       end.
End Fragments.

(** * Resolving addresses of the fragment space *)

Section Resolve.
Context {F : Type} (code_sections : list (SectionTableEntry F)).
Abbreviation state := (overlay_state F).
Abbreviation sec := (Overlays.sec code_sections).

Definition in_fragment_space (link_vaddr : Z) : bool := (0x81000000 <=? link_vaddr) && (link_vaddr <? 0x90000000).
Definition bucket_of (link_vaddr : Z) : Z := Z.land link_vaddr 0xFFF00000.
Definition offset_of (link_vaddr : Z) : Z := Z.land link_vaddr 0x000FFFFF.
(** An address inside a loaded section. *)
Definition inside (addr : Z) (l : LoadedSection) : bool :=
  let base := u32 (loaded_ram_addr l) in (base <=? addr) && (addr <? u32 (base + size (sec (section_table_index l)))).
(** A loaded section linked at [bucket] that reaches [off]. *)
Definition covers (bucket off : Z) (l : LoadedSection) : bool :=
  (ram_addr (sec (section_table_index l)) =? bucket) && (off <? size (sec (section_table_index l))).
Definition at_offset (l : LoadedSection) (off : Z) : Z := s32 (loaded_ram_addr l + off).

Definition recomp_addr_in_loaded_variant (bucket addr : Z) (s : state) : bool :=
  existsb (fun l => (ram_addr (sec (section_table_index l)) =? bucket) && inside addr l) (loaded_sections s).

(** The variant the data being walked lies in; 0 is no answer. *)
Definition recomp_resolve_via_data_context (link_vaddr data_ctx_addr : Z) (s : state) : Z :=
  if negb (in_fragment_space link_vaddr) then 0
  else if data_ctx_addr =? 0 then 0
  else match find (inside data_ctx_addr) (loaded_sections s) with
       | Some l => if covers (bucket_of link_vaddr) (offset_of link_vaddr) l then at_offset l (offset_of link_vaddr) else 0
       | None => 0
       end.

(** The smallest variant that reaches the offset, newest first. *)
Definition smaller_variant (link_vaddr : Z) (best : Z * Z) (l : LoadedSection) : Z * Z :=
  if covers (bucket_of link_vaddr) (offset_of link_vaddr) l && (size (sec (section_table_index l)) <? snd best)
  then (at_offset l (offset_of link_vaddr), size (sec (section_table_index l))) else best.
Definition recomp_lookup_fragment_offset (link_vaddr : Z) (s : state) : Z :=
  if negb (in_fragment_space link_vaddr) then 0
  else fst (foldl (smaller_variant link_vaddr) (0, 0xFFFFFFFF) (rev (loaded_sections s))).

(** The variant that was live when the caller's section was loaded;
    [caller_idx] is what the index of native addresses says of the caller. *)
Definition newer_variant (link_vaddr caller_order : Z) (s : state) (best : Z * Z) (l : LoadedSection) : Z * Z :=
  let order := get_load_order (section_table_index l) s in
  if covers (bucket_of link_vaddr) (offset_of link_vaddr) l && negb ((order =? 0) || (caller_order <=? order)) && (snd best <? order)
  then (at_offset l (offset_of link_vaddr), order) else best.
Definition recomp_resolve_fragment_via_caller_pc (link_vaddr : Z) (caller_idx : option nat) (s : state) : Z :=
  if negb (in_fragment_space link_vaddr) then 0
  else match caller_idx with
       | None => 0
       | Some c =>
           let live :=
             if (ram_addr (sec c) =? bucket_of link_vaddr) && (offset_of link_vaddr <? size (sec c))
             then find (is_section c) (loaded_sections s) else None in
           match live with
           | Some l => at_offset l (offset_of link_vaddr)
           | None =>
               let caller_order := get_load_order c s in
               if caller_order =? 0 then 0
               else fst (foldl (newer_variant link_vaddr caller_order s) (0, 0) (loaded_sections s))
           end
       end.

(** [None] aborts the program; 0 means that the address is not synthetic. *)
Definition recomp_resolve_synthetic_fragment (addr : Z) (s : state) : option Z :=
  if negb (is_synthetic_addr addr) then Some 0
  else match synthetic_fragments (fragments s) !! synthetic_bucket_idx addr with
       | None => None
       | Some slot =>
           if offset_of addr >=? slot_size slot then None
           else Some (s32 (u32 (slot_runtime_base slot + offset_of addr)))
       end.

(** The stack of inputs of nested resolver calls, zeroed at the start. *)
Definition kFragmentInputStackDepth : Z := 16.
Record input_stack := MkInputs { fragment_input_stack : list Z; fragment_input_sp : Z }.
Definition no_inputs : input_stack := MkInputs (replicate 16 0) 0.
(** A push below the bottom of the stack writes outside it. *)
Definition librecomp_fragment_input_push (input : Z) (st : input_stack) : option input_stack :=
  let sp := fragment_input_sp st in
  if sp <? 0 then None
  else Some (MkInputs (if sp <? kFragmentInputStackDepth then <[Z.to_nat sp := input]> (fragment_input_stack st)
                       else fragment_input_stack st) (sp + 1)).
Definition librecomp_fragment_input_pop (st : input_stack) : Z * input_stack :=
  let sp := fragment_input_sp st - 1 in
  let idx := if (sp >=? 0) && (sp <? kFragmentInputStackDepth) then sp else 0 in
  (default 0 (fragment_input_stack st !! Z.to_nat idx), MkInputs (fragment_input_stack st) sp).

Definition librecomp_fragment_resolve_exit (game_result data_ctx_addr : Z) (s : state) (st : input_stack) : option (Z * input_stack) :=
  let '(input, st) := librecomp_fragment_input_pop st in
  match recomp_resolve_synthetic_fragment input s with
  | None => None
  | Some synth =>
      Some (
        if negb (synth =? 0) then u32 synth
        else if negb (bucket_of input =? 0x8FF00000) then game_result
        else if recomp_addr_in_loaded_variant (bucket_of input) game_result s then game_result
        else
          let resolved := recomp_resolve_via_data_context input data_ctx_addr s in
          if negb (resolved =? 0) then u32 resolved else game_result, st)
  end.
End Resolve.
