(* ===== verification/FragmentsSpec.v ===== *)
(** Fragments: what registration leaves in the tables, that clearing undoes it,
    and where addresses of the fragment space resolve to. *)

From Stdlib Require Import ZArith Lia Bool List.
From stdpp Require Import base list gmap sorting relations.
From S2P Require Import Prelude Bytes RspMem Rdram Overlays OverlaysSpec OverlaysOps Fragments.
Open Scope Z_scope.

Section Registration.
Context {F M : Type} `{RO : RdramOps M} (code_sections : list (SectionTableEntry F)) (frag_unreg filter_on : bool).
Abbreviation state := (overlay_state F).
Abbreviation sec := (Overlays.sec code_sections).
Abbreviation found := (found_index code_sections filter_on).
Abbreviation register := (register_runtime_fragment code_sections frag_unreg filter_on).
Abbreviation unregister := (unregister_runtime_fragment code_sections frag_unreg).
Implicit Types (rdram : M) (s t : state) (i : nat).

(** * Which section is found *)

Lemma candidate_in_table id i : i ∈ candidates code_sections id -> in_table code_sections i.
Proof. intros [_ Hi%elem_of_seq]%list_elem_of_filter. unfold in_table. lia. Qed.
Lemma find_in {A} (p : A -> bool) l x : find p l = Some x -> x ∈ l.
Proof. intros [Hx _]%find_some. by apply list_elem_of_In. Qed.
Lemma by_size_in size_in_ram cands i : by_size code_sections filter_on size_in_ram cands = Some i -> i ∈ cands.
Proof.
  unfold by_size. destruct (_ && _); [|done]. destruct (filter _ cands) as [|j [|? ?]] eqn:E; try done. intros [= ->].
  assert (Hi : i ∈ filter (fun i => (size (sec i) <=? size_in_ram) = true) cands) by (rewrite E; constructor).
  by apply list_elem_of_filter in Hi as [_ Hi].
Qed.
Lemma found_index_fits rdram id ptr i : found rdram id ptr = Some i ->
  in_table code_sections i /\ extent_ok code_sections filter_on (frag_size_in_ram rdram ptr) i = true.
Proof.
  unfold found_index. set (c := candidates code_sections id).
  assert (Hc : forall j, j ∈ c -> in_table code_sections j) by apply candidate_in_table.
  set (n := frag_size_in_ram rdram ptr). cbv zeta.
  set (first := if _ && _ then head c else _).
  assert (Hf : forall j, first = Some j -> in_table code_sections j).
  { subst first. intros j. destruct (_ && _).
    - intros Hj. apply Hc. destruct c; [done|]. injection Hj as <-. constructor.
    - unfold or_else, by_hash, by_header_range. destruct (find _ c) eqn:E; [intros [= <-]; apply find_in in E; auto|].
      destruct (header_link_vram _ _); [|done]. intros Hj%find_in. by apply Hc. }
  assert (Hg : forall j, or_else first (or_else (by_header_link code_sections filter_on rdram ptr n) (by_size code_sections filter_on n c)) = Some j ->
    in_table code_sections j).
  { intros j. unfold or_else at 1. destruct first eqn:E; [intros [= <-]; auto|]. unfold or_else, by_header_link.
    destruct (header_link_vram rdram ptr); [|intros Hj%by_size_in; auto]. destruct (find _ _) eqn:Ef; [|intros Hj%by_size_in; auto].
    intros [= <-]. apply find_in, elem_of_seq in Ef as [_ Ef]. unfold in_table. lia. }
  destruct (or_else first _) as [j|] eqn:E; [|done]. destruct (filter_on && negb (n =? 0) && (size (sec j) >? n)) eqn:Eg; [done|]. intros [= <-].
  split; [by apply Hg|]. unfold extent_ok. destruct filter_on; [|done]. simpl in *. destruct (n =? 0); [done|]. simpl in *.
  rewrite Z.gtb_ltb, Z.ltb_ge in Eg. by apply Z.leb_le.
Qed.

(** * What the steps keep *)

Abbreviation scan := (scan_fragment_section_trampolines code_sections).
(** The parts of the tables that trampolines do not touch. *)
Definition same_sections s t : Prop :=
  loaded_sections s = loaded_sections t /\ section_addresses s = section_addresses t /\ fragments s = fragments t.
#[local] Instance same_sections_trans : Transitive same_sections.
Proof. intros a b c (? & ? & ?) (? & ? & ?). unfold same_sections. repeat split; congruence. Qed.
#[local] Instance same_sections_refl : Reflexive same_sections.
Proof. done. Qed.

Lemma try_install_same tramp target s : same_sections (snd (try_install_trampoline code_sections tramp target s)) s.
Proof. unfold try_install_trampoline. destruct (_ =? 0); [done|]. by destruct (_ !! _). Qed.
Lemma retry_loop_same todo : forall kept s, same_sections (retry_loop code_sections todo kept s) s.
Proof.
  induction todo as [|p todo IH]; intros kept s; simpl; [done|].
  pose proof (try_install_same (trampoline_runtime_addr p) (link_time_target p) s) as H.
  destruct (try_install_trampoline _ _ _ _) as [b t]. by rewrite IH.
Qed.
Lemma scan_slot_same rdram base decode off s : same_sections (scan_slot code_sections rdram base decode off s) s.
Proof.
  unfold scan_slot. cbv zeta. destruct (negb _); [done|]. destruct (_ =? 0); [done|].
  pose proof (try_install_same (s32 (base + off)) (decode_jal_target (read_rdram_u32_be rdram (s32 (base + off))) (u32 (decode + off + 4))) s) as H.
  destruct (try_install_trampoline _ _ _ _) as [[] t]; exact H.
Qed.
Lemma scan_same rdram i base s : same_sections (scan rdram i base s) s.
Proof.
  unfold scan_fragment_section_trampolines. cbv zeta. destruct (_ || _); [done|]. destruct (_ <=? _); [done|].
  generalize (seqZ 0 ((first_func_offset rdram (sec i) base - 32) / 8)). intros l. revert s.
  induction l as [|k l IH]; intros s; simpl; [done|]. rewrite IH. apply scan_slot_same.
Qed.
Lemma supersede_same id ptr s : same_sections (supersede frag_unreg id ptr s) s.
Proof. unfold supersede. destruct (_ !! _) as [[b n]|]; [|done]. by destruct (_ && _). Qed.

(** Eviction removes exactly what does not stay. *)
Lemma loaded_secaddr j v s : loaded_sections (secaddr_set j v s) = loaded_sections s.
Proof. unfold secaddr_set. by destruct (negb _). Qed.
Lemma fragments_secaddr j v s : fragments (secaddr_set j v s) = fragments s.
Proof. unfold secaddr_set. by destruct (negb _). Qed.
Lemma evict_loop_loaded ptr skip l : forall kept s,
  loaded_sections (evict_loop code_sections ptr skip kept l s) = kept ++ filter (fun x => stays ptr skip x = true) l.
Proof.
  induction l as [|x l IH]; intros kept s; simpl; [by rewrite app_nil_r|].
  rewrite filter_cons. destruct (stays ptr skip x) eqn:E; simpl; rewrite IH; [by rewrite <- app_assoc|done].
Qed.
Lemma evict_loop_fragments ptr skip l : forall kept s, fragments (evict_loop code_sections ptr skip kept l s) = fragments s.
Proof.
  induction l as [|x l IH]; intros kept s; simpl; [done|]. destruct (stays _ _ _); rewrite IH; [done|].
  by rewrite fragments_secaddr.
Qed.
Lemma length_secaddr j v s : length (section_addresses (secaddr_set j v s)) = length (section_addresses s).
Proof. unfold secaddr_set. destruct (negb _); [done|]. apply length_insert. Qed.
Lemma evict_loop_length ptr skip l : forall kept s,
  length (section_addresses (evict_loop code_sections ptr skip kept l s)) = length (section_addresses s).
Proof.
  induction l as [|x l IH]; intros kept s; simpl; [done|]. destruct (stays _ _ _); rewrite IH; [done|].
  by rewrite length_secaddr.
Qed.
Lemma evicted_elsewhere ptr s l : l ∈ loaded_sections (evict_prior_at_base code_sections ptr None s) -> loaded_ram_addr l <> ptr.
Proof.
  unfold evict_prior_at_base. rewrite evict_loop_loaded. simpl. intros [H _]%list_elem_of_filter. unfold stays in H.
  rewrite orb_false_r, negb_true_iff, Z.eqb_neq in H. done.
Qed.
Lemma evicted_but ptr i s l : l ∈ loaded_sections (evict_prior_at_base code_sections ptr (Some i) s) ->
  loaded_ram_addr l = ptr -> section_table_index l = i.
Proof.
  unfold evict_prior_at_base. rewrite evict_loop_loaded. simpl. intros [H _]%list_elem_of_filter E. unfold stays in H.
  rewrite (proj2 (Z.eqb_eq _ _) E) in H. simpl in H. by apply is_section_eq.
Qed.
Lemma move_first_spec ptr i l x : x ∈ move_first i ptr l -> x = MkLoaded ptr i \/ x ∈ l.
Proof.
  induction l as [|y l IH]; simpl; [set_solver|]. destruct (is_section i y); [set_solver|].
  rewrite !elem_of_cons. naive_solver.
Qed.
Lemma move_first_in ptr i l : MkLoaded ptr i ∈ move_first i ptr l.
Proof. induction l as [|y l IH]; simpl; [set_solver|]. destruct (is_section i y); set_solver. Qed.

(** * Registration *)

Lemma bind_same rdram id ptr i s : exists t,
  loaded_sections t = move_first i ptr (loaded_sections (evict_prior_at_base code_sections ptr (Some i) s)) /\
  (exists u : state, section_addresses t = section_addresses (secaddr_set (index (sec i)) ptr u) /\
    length (section_addresses u) = length (section_addresses s)) /\
  runtime_fragment_id_to_section (fragments t) = <[id := i]> (runtime_fragment_id_to_section (fragments s)) /\
  same_sections (bind_fragment code_sections frag_unreg rdram id ptr i s) t.
Proof.
  unfold bind_fragment. cbv zeta. set (e := evict_prior_at_base code_sections ptr (Some i) s).
  pose proof (supersede_same id ptr e) as (Hl & Ha & Hf). set (u := supersede frag_unreg id ptr e) in *.
  set (v := set_map _ u). eexists. split; [|split; [|split; [|etransitivity; [apply retry_loop_same|apply scan_same]]]].
  - rewrite loaded_record. unfold set_section_of_id, register_synthetic. simpl. f_equal.
    transitivity (loaded_sections (secaddr_set (index (sec i)) ptr v)); [|by rewrite loaded_secaddr].
    by destruct (is_synthetic_addr _).
  - exists v. split.
    + rewrite addresses_record. unfold set_section_of_id, register_synthetic. simpl. by destruct (is_synthetic_addr _).
    + transitivity (length (section_addresses u)); [done|]. rewrite Ha. apply evict_loop_length.
  - unfold record_load_order, set_section_of_id, register_synthetic. simpl.
    assert (E : fragments (secaddr_set (index (sec i)) ptr v) = fragments s).
    { rewrite fragments_secaddr. transitivity (fragments u); [done|]. rewrite Hf. apply evict_loop_fragments. }
    destruct (is_synthetic_addr _); simpl; by rewrite E.
Qed.
Lemma secaddr_lookup j v s : aligned v = true -> (j < length (section_addresses s))%nat ->
  section_addresses (secaddr_set j v s) !! j = Some v.
Proof.
  intros Hv [w Hw]%lookup_lt_is_Some. rewrite (secaddr_same j v s w Hw). by rewrite Hv.
Qed.

(** Registering a fragment leaves the section found for it as the only one at that address, with its base in section_addresses and its id recorded; when none is found, no section is left at the address. *)
Theorem register_binds_one_section rdram id ptr s : ptr <> 0 ->
  match found rdram id ptr with
  | None => Forall (fun l => loaded_ram_addr l <> ptr) (loaded_sections (register rdram id ptr s)) /\
      runtime_fragment_id_to_section (fragments (register rdram id ptr s)) = runtime_fragment_id_to_section (fragments s)
  | Some i =>
      MkLoaded ptr i ∈ loaded_sections (register rdram id ptr s) /\
      (forall l, l ∈ loaded_sections (register rdram id ptr s) -> loaded_ram_addr l = ptr -> section_table_index l = i) /\
      runtime_fragment_id_to_section (fragments (register rdram id ptr s)) !! id = Some i /\
      (aligned ptr = true -> (index (sec i) < length (section_addresses s))%nat ->
        section_addresses (register rdram id ptr s) !! index (sec i) = Some ptr)
  end.
Proof.
  intros Hp. unfold register_runtime_fragment. rewrite (proj2 (Z.eqb_neq ptr 0) Hp).
  destruct (found rdram id ptr) as [i|].
  - destruct (bind_same rdram id ptr i s) as (t & Hl & (u & Ha & Hn) & Hf & El & Ea & Ef). rewrite El, Hl, Ef, Hf, Ea, Ha.
    split; [apply move_first_in|]. split.
    + intros l [->|Hm]%move_first_spec; [done|]. by apply (evicted_but ptr i s).
    + split; [apply lookup_insert_eq|]. intros Hal Hi. apply secaddr_lookup; [done|by rewrite Hn].
  - unfold leave_unregistered. pose proof (supersede_same id ptr (evict_prior_at_base code_sections ptr None s)) as (Hl & _ & Hf).
    assert (Hr : forall t, loaded_sections (if negb (frag_size_in_ram rdram ptr =? 0) then set_live_range id (u32 ptr, frag_size_in_ram rdram ptr) t else t) = loaded_sections t
      /\ runtime_fragment_id_to_section (fragments (if negb (frag_size_in_ram rdram ptr =? 0) then set_live_range id (u32 ptr, frag_size_in_ram rdram ptr) t else t)) = runtime_fragment_id_to_section (fragments t)).
    { intros t. by destruct (negb _). }
    destruct (Hr (supersede frag_unreg id ptr (evict_prior_at_base code_sections ptr None s))) as [-> ->]. rewrite Hl, Hf. split.
    + apply Forall_forall. intros l. apply evicted_elsewhere.
    + unfold evict_prior_at_base. by rewrite evict_loop_fragments.
Qed.

(** * Clearing *)

Lemma erase_first_gone i l : NoDup (section_table_index <$> l) -> Forall (fun x => section_table_index x <> i) (erase_first i l).
Proof.
  induction l as [|x l IH]; simpl; [done|]. intros Hd. inversion_clear Hd as [|? ? Hx Hl].
  destruct (is_section i x) eqn:E.
  - apply is_section_eq in E. subst i. apply Forall_forall. intros y Hy Ey. apply Hx. rewrite <- Ey. by apply list_elem_of_fmap_2.
  - constructor; [by apply is_section_ne|auto].
Qed.
Lemma filter_indices (P : LoadedSection -> Prop) `{!forall x, Decision (P x)} l :
  NoDup (section_table_index <$> l) -> NoDup (section_table_index <$> filter P l).
Proof.
  induction l as [|x l IH]; simpl; [done|]. intros Hd. inversion_clear Hd as [|? ? Hx Hl]. rewrite filter_cons.
  case_decide; [simpl; constructor|]; auto.
  intros (y & E & [_ Hy]%list_elem_of_filter)%list_elem_of_fmap. apply Hx. rewrite E. by apply list_elem_of_fmap_2.
Qed.
Lemma move_first_indices ptr i l : NoDup (section_table_index <$> l) -> NoDup (section_table_index <$> move_first i ptr l).
Proof.
  induction l as [|x l IH]; simpl; [intros; repeat constructor; set_solver|]. intros Hd. inversion_clear Hd as [|? ? Hx Hl].
  destruct (is_section i x) eqn:E; simpl; [apply is_section_eq in E; subst; by constructor|].
  constructor; [|auto]. intros (y & Ey & Hy)%list_elem_of_fmap. apply move_first_spec in Hy as [->|Hy].
  - apply is_section_ne in E. done.
  - apply Hx. rewrite Ey. by apply list_elem_of_fmap_2.
Qed.
(** Clearing the id of a fragment just registered leaves its section unloaded and its base back at the link-time address. *)
Theorem clearing_undoes_registration rdram id ptr s i : ptr <> 0 -> found rdram id ptr = Some i ->
  NoDup (section_table_index <$> loaded_sections s) -> (index (sec i) < length (section_addresses s))%nat ->
  aligned (s32 (ram_addr (sec i))) = true ->
  Forall (fun l => section_table_index l <> i) (loaded_sections (unregister id (register rdram id ptr s))) /\
  section_addresses (unregister id (register rdram id ptr s)) !! index (sec i) = Some (s32 (ram_addr (sec i))).
Proof.
  intros Hp Hi Hd Hn Hal.
  unfold unregister_runtime_fragment, register_runtime_fragment in *. rewrite (proj2 (Z.eqb_neq ptr 0) Hp), Hi in *.
  destruct (bind_same rdram id ptr i s) as (t & Hl & (u & Ha & Hu) & Hf & El & Ea & Ef).
  set (b := bind_fragment _ _ _ _ _ _ _) in *. rewrite Ef, Hf, lookup_insert_eq.
  assert (Hb : MkLoaded ptr i ∈ loaded_sections b) by (rewrite El, Hl; apply move_first_in).
  destruct (find_is_section _ b Hb) as [x Hx]. simpl in Hx. unfold unload_overlay_by_section_index. rewrite Hx. split.
  - simpl. rewrite loaded_forget, El, Hl. apply erase_first_gone, move_first_indices.
    unfold evict_prior_at_base. rewrite evict_loop_loaded. simpl. by apply filter_indices.
  - simpl. unfold forget_section. apply secaddr_lookup; [done|]. simpl. by rewrite Ea, Ha, length_secaddr, Hu.
Qed.
End Registration.

(** * Resolution *)

Section Resolution.
Context {F : Type} (code_sections : list (SectionTableEntry F)).
Abbreviation state := (overlay_state F).
Abbreviation sec := (Overlays.sec code_sections).
Implicit Types (s : state).

Lemma u32_idemp x : u32 (u32 x) = u32 x.
Proof. apply u32_small, u32_range. Qed.

(** A resolved fragment address is the game's own answer, or lies inside the registered synthetic variant, or inside the loaded variant that the data being walked belongs to. *)
Theorem resolve_exit_stays_in_a_variant game_result ctx s st r st' :
  librecomp_fragment_resolve_exit code_sections game_result ctx s st = Some (r, st') ->
  let input := fst (librecomp_fragment_input_pop st) in
  r = game_result \/
  (exists slot, synthetic_fragments (fragments s) !! synthetic_bucket_idx input = Some slot /\ is_synthetic_addr input = true /\
     offset_of input < slot_size slot /\ r = u32 (slot_runtime_base slot + offset_of input)) \/
  (exists l, l ∈ loaded_sections s /\ inside code_sections ctx l = true /\
     covers code_sections (bucket_of input) (offset_of input) l = true /\ r = u32 (loaded_ram_addr l + offset_of input)).
Proof.
  unfold librecomp_fragment_resolve_exit. destruct (librecomp_fragment_input_pop st) as [input st1]. cbn [fst].
  destruct (recomp_resolve_synthetic_fragment input s) as [synth|] eqn:E; [|done]. intros [= <- <-].
  unfold recomp_resolve_synthetic_fragment in E.
  destruct (negb (synth =? 0)) eqn:En.
  - right. left. destruct (is_synthetic_addr input); simpl in E; [|injection E as <-; discriminate En].
    destruct (_ !! _) as [slot|] eqn:Es; [|done]. destruct (_ >=? _) eqn:Eo; [done|]. injection E as <-.
    rewrite Z.geb_leb, Z.leb_gt in Eo. exists slot. rewrite u32_s32, u32_idemp. done.
  - destruct (negb (bucket_of input =? _)); [by left|]. destruct (recomp_addr_in_loaded_variant _ _ _ _); [by left|].
    destruct (negb (recomp_resolve_via_data_context _ _ _ _ =? 0)) eqn:Er; [|by left]. right. right.
    unfold recomp_resolve_via_data_context in *. destruct (negb (in_fragment_space input)); [discriminate Er|].
    destruct (ctx =? 0); [discriminate Er|]. destruct (find _ _) as [l|] eqn:Ef; [|discriminate Er].
    destruct (covers _ _ _ l) eqn:Ec; [|discriminate Er].
    apply find_some in Ef as [Hl Hi]. exists l. split; [by apply list_elem_of_In|]. unfold at_offset. by rewrite u32_s32.
Qed.

(** The smallest variant that reaches the offset, the newest of its size. *)
Definition smallest_variant (bucket off : Z) (l : list LoadedSection) (x : LoadedSection) : Prop :=
  exists a b, l = a ++ x :: b /\ covers code_sections bucket off x = true /\
    (forall y, y ∈ a -> covers code_sections bucket off y = true -> size (sec (section_table_index x)) <= size (sec (section_table_index y))) /\
    (forall y, y ∈ b -> covers code_sections bucket off y = true -> size (sec (section_table_index x)) < size (sec (section_table_index y))).
Lemma smallest_fold link l :
  Forall (fun x => size (sec (section_table_index x)) < 0xFFFFFFFF) l ->
  let best := foldl (smaller_variant code_sections link) (0, 0xFFFFFFFF) (rev l) in
  (best = (0, 0xFFFFFFFF) /\ Forall (fun x => covers code_sections (bucket_of link) (offset_of link) x = false) l) \/
  (exists x, smallest_variant (bucket_of link) (offset_of link) l x /\
     best = (at_offset x (offset_of link), size (sec (section_table_index x)))).
Proof.
  induction l as [|y l IH]; intros Hs; simpl; [by left|]. inversion_clear Hs as [|? ? Hy Hl].
  rewrite foldl_app. simpl. set (best := foldl _ _ _) in *. unfold smaller_variant.
  destruct (covers code_sections (bucket_of link) (offset_of link) y) eqn:Ec; simpl.
  - right. destruct (IH Hl) as [[-> Hn]|(x & (a & b & -> & Hx & Ha & Hb) & ->)]; simpl.
    + exists y. rewrite (proj2 (Z.ltb_lt _ _) Hy). split; [|done]. exists [], l. repeat split; [done|set_solver|].
      intros z Hz Hc. rewrite Forall_forall in Hn. by rewrite Hn in Hc.
    + destruct (Z.ltb_spec (size (sec (section_table_index y))) (size (sec (section_table_index x)))) as [Hlt|Hge].
      * exists y. split; [|done]. exists [], (a ++ x :: b). repeat split; [done|set_solver|].
        intros z Hz Hc. rewrite elem_of_app, elem_of_cons in Hz. destruct Hz as [Hz|[->|Hz]]; [specialize (Ha z Hz Hc); lia|done|].
        specialize (Hb z Hz Hc). lia.
      * exists x. split; [|done]. exists (y :: a), b. repeat split; [done| |done].
        intros z Hz Hc. apply elem_of_cons in Hz as [->|Hz]; [lia|auto].
  - destruct (IH Hl) as [[-> Hn]|(x & (a & b & -> & Hx & Ha & Hb) & ->)]; [left; auto|]. right. exists x. split; [|done].
    exists (y :: a), b. repeat split; [done| |done]. intros z Hz Hc. apply elem_of_cons in Hz as [->|Hz]; [congruence|auto].
Qed.
Theorem lookup_fragment_offset_smallest link s :
  in_fragment_space link = true -> Forall (fun x => size (sec (section_table_index x)) < 0xFFFFFFFF) (loaded_sections s) ->
  match find (covers code_sections (bucket_of link) (offset_of link)) (loaded_sections s) with
  | None => recomp_lookup_fragment_offset code_sections link s = 0
  | Some _ => exists x, smallest_variant (bucket_of link) (offset_of link) (loaded_sections s) x /\
      recomp_lookup_fragment_offset code_sections link s = at_offset x (offset_of link)
  end.
Proof.
  intros Hin Hs. unfold recomp_lookup_fragment_offset. rewrite Hin. simpl.
  destruct (smallest_fold link (loaded_sections s) Hs) as [[-> Hn]|(x & Hx & ->)].
  - by rewrite (proj2 (find_none _ _) Hn).
  - destruct (find _ _) eqn:E; [eauto|]. rewrite find_none, Forall_forall in E. destruct Hx as (a & b & Hl & Hc & _).
    rewrite E in Hc; [done|]. rewrite Hl. set_solver.
Qed.
End Resolution.

(** * Nested calls *)

(** A resolver call, the calls it makes, and those that follow it. *)
Inductive calls := Done | Call (input : Z) (inner next : calls).
Fixpoint depth (c : calls) : Z :=
  match c with Done => 0 | Call _ inner next => Z.max (1 + depth inner) (depth next) end.
(** Entry hooks push, exit hooks pop: the inputs the exits see. *)
Fixpoint run_calls (c : calls) (st : input_stack) : option (list Z * input_stack) :=
  match c with
  | Done => Some ([], st)
  | Call input inner next =>
      match librecomp_fragment_input_push input st with
      | None => None
      | Some st =>
          match run_calls inner st with
          | None => None
          | Some (seen, st) =>
              let '(x, st) := librecomp_fragment_input_pop st in
              match run_calls next st with Some (more, st) => Some (seen ++ x :: more, st) | None => None end
          end
      end
  end.
Fixpoint inputs (c : calls) : list Z :=
  match c with Done => [] | Call input inner next => inputs inner ++ input :: inputs next end.

Lemma depth_nonneg c : 0 <= depth c.
Proof. induction c; simpl; lia. Qed.
Lemma run_calls_keep c : forall st,
  length (fragment_input_stack st) = 16%nat -> 0 <= fragment_input_sp st -> fragment_input_sp st + depth c <= kFragmentInputStackDepth ->
  exists st', run_calls c st = Some (inputs c, st') /\ fragment_input_sp st' = fragment_input_sp st /\
    length (fragment_input_stack st') = 16%nat /\
    forall k, (k < Z.to_nat (fragment_input_sp st))%nat -> fragment_input_stack st' !! k = fragment_input_stack st !! k.
Proof.
  unfold kFragmentInputStackDepth. induction c as [|x inner IH1 next IH2]; intros st Hn H0 Hd; simpl in *; [by exists st|].
  pose proof (depth_nonneg inner). unfold librecomp_fragment_input_push, kFragmentInputStackDepth.
  rewrite (proj2 (Z.ltb_ge _ _)) by lia. rewrite (proj2 (Z.ltb_lt (fragment_input_sp st) 16)) by lia.
  destruct (IH1 (MkInputs (<[Z.to_nat (fragment_input_sp st) := x]> (fragment_input_stack st)) (fragment_input_sp st + 1)))
    as (st1 & -> & Hsp & Hn1 & Hk); simpl in *; [by rewrite length_insert|lia|lia|].
  unfold librecomp_fragment_input_pop, kFragmentInputStackDepth. rewrite Hsp.
  replace (fragment_input_sp st + 1 - 1) with (fragment_input_sp st) by lia.
  rewrite Z.geb_leb, (proj2 (Z.leb_le _ _)), (proj2 (Z.ltb_lt (fragment_input_sp st) 16)) by lia. simpl.
  rewrite (Hk (Z.to_nat (fragment_input_sp st))), list_lookup_insert_eq by lia. simpl.
  destruct (IH2 (MkInputs (fragment_input_stack st1) (fragment_input_sp st))) as (st2 & -> & Hsp2 & Hn2 & Hk2); simpl in *; [done|lia|lia|].
  exists st2. split; [done|]. split; [done|]. split; [done|].
  intros k Hlt. rewrite Hk2, Hk by lia. apply list_lookup_insert_ne. lia.
Qed.
(** However resolver calls nest and follow each other, up to sixteen deep, each exit hook pops the input its own entry hook pushed, and the stack ends as it began. *)
Theorem nested_calls_see_their_inputs c :
  depth c <= kFragmentInputStackDepth -> exists st', run_calls c no_inputs = Some (inputs c, st') /\ fragment_input_sp st' = 0.
Proof.
  intros Hd. destruct (run_calls_keep c no_inputs) as (st' & H & Hsp & _); [done|done|simpl; lia|]. by exists st'.
Qed.
