(* ===== verification/SampleOverlays.v ===== *)
(** A small game for the properties of the overlays: resident code, two
    fragments and an overlay that shares their memory.  Fragments at concrete
    inputs: two of their own, two variants of one id, and a variant of the
    synthetic pool. *)

From Stdlib Require Import ZArith Lia Bool List.
From stdpp Require Import base list gmap sorting relations.
From S2P Require Import Prelude Bytes RspMem Rdram Overlays OverlaysSpec OverlaysLookup OverlaysOps Fragments FragmentsSpec.
Open Scope Z_scope.

(** Functions are numbers; fragment 1 waits for fragment 2 through the slot at
    0x20 of its jump table. *)
Definition resident_code : SectionTableEntry nat :=
  MkSection 0x1000 0x80000400 0x100 [MkFunc (Some 1%nat) 0 0x40; MkFunc (Some 2%nat) 0x40 0x20] 0 0 0xFFFFFFFF.
Definition fragment_1 : SectionTableEntry nat :=
  MkSection 0x2000 0x81000000 0x200 [MkFunc (Some 3%nat) 0x30 0x20; MkFunc None 0x60 0x20] 2 0 0xFFFFFFFF.
Definition fragment_2 : SectionTableEntry nat :=
  MkSection 0x2200 0x82000000 0x100 [MkFunc (Some 4%nat) 0x10 0x20] 1 0 0x05.
Definition shared_overlay : SectionTableEntry nat :=
  MkSection 0x3000 0x83000000 0x100 [MkFunc (Some 5%nat) 0x20 0x20] 3 0 0xFFFFFFFF.
Definition sample_sections : list (SectionTableEntry nat) := [resident_code; fragment_1; fragment_2; shared_overlay].
Definition sample_patches : list (SectionTableEntry nat) := [MkSection 0 0x80801000 0x100 [MkFunc (Some 9%nat) 8 4] 0 0 0xFFFFFFFF].
Definition sample_table (id : Z) : nat := Z.to_nat id.
Abbreviation sample_init := (init_overlays sample_sections 4 sample_patches).

(** The resident code, fragment 1 in two chunks and fragment 2, then the overlay
    over fragment 1. *)
Definition sample_ops : list op :=
  [Load_overlays 0x1000 (s32 0x80000400) 0x100; Load_overlays 0x2000 (s32 0x80100000) 0x80;
   Load_overlays 0x2080 (s32 0x80100080) 0x280; Load_overlays 0x3000 (s32 0x80100100) 0x100;
   Unload_overlays (s32 0x80000400) 0x200].
Abbreviation sample_end := (run sample_sections true sample_table sample_ops sample_init).
Definition loaded_now (s : option (overlay_state nat)) : list (Z * nat) :=
  match s with Some s => (fun l => (u32 (loaded_ram_addr l), section_table_index l)) <$> loaded_sections s | None => [] end.

Example sample_loaded : loaded_now sample_end = [(0x80100200, 2%nat); (0x80100100, 3%nat)].
Proof. vm_compute. reflexivity. Qed.

Lemma loaded_sections_stay_apart_witness :
  match sample_end with
  | Some s => ForallOrdPairs (apart sample_sections) (loaded_sections s) /\ length (loaded_sections s) = 2%nat
  | None => False
  end.
Proof.
  assert (Hn : length (loaded_now sample_end) = 2%nat) by (vm_compute; reflexivity).
  revert Hn. destruct (run _ _ _ _ _) as [s|] eqn:E; intros Hn; [|discriminate Hn].
  split; [exact (loaded_sections_stay_apart _ _ _ _ _ _ s E)|]. simpl in Hn. by rewrite length_fmap in Hn.
Defined.

Definition sample_sections_ok (e : SectionTableEntry nat) : bool :=
  (index e <? 4)%nat && aligned (s32 (ram_addr e)).
Lemma section_addresses_follow_loading_witness :
  match sample_end with
  | Some s => section_addresses s !! 1%nat = Some (base_of fragment_2 2 s) /\ base_of fragment_2 2 s = s32 0x80100200
  | None => False
  end.
Proof.
  assert (Hb : match sample_end with Some s => base_of fragment_2 2 s | None => 0 end = s32 0x80100200) by (vm_compute; reflexivity).
  revert Hb. destruct (run _ _ _ _ _) as [s|] eqn:E; intros Hb; [|discriminate Hb].
  split; [|exact Hb].
  refine (section_addresses_follow_loading sample_sections true sample_table 4 _ _ _ _ s 2 fragment_2 E eq_refl).
  - apply (bool_decide_unpack _). vm_compute. exact I.
  - repeat (constructor; [split; [apply Nat.ltb_lt; reflexivity|vm_compute; reflexivity]|]). constructor.
Defined.

Lemma sample_sections_fit : Forall section_ok sample_sections.
Proof.
  repeat constructor; simpl; try lia; rewrite ?not_elem_of_nil, ?not_elem_of_cons; try set_solver; lia.
Qed.
(** Fragment 1 in memory: its header and a jump to fragment 2. *)
Definition fragment_words : list (Z * Z) :=
  [(0x80100008, 0x46524147); (0x8010000C, 0x4D454E54); (0x80100020, 0x08800004)].
Definition fragment_rdram : bytemap := foldr (fun '(a, w) m => MEM_W_put (s32 a) w m) (∅ : bytemap) fragment_words.
(** The resident code; fragment 1 with its jump slot, whose target is not there yet;
    fragment 2 by its id; then the overlay over fragment 1, each with its scan. *)
Definition sample_game : list game_op :=
  [Op (Load_overlays 0x1000 (s32 0x80000400) 0x100); Scan fragment_rdram 0x1000 0x100;
   Op (Load_overlays 0x2000 (s32 0x80100000) 0x80); Scan fragment_rdram 0x2000 0x80;
   Load_by_id 2 0x80200000; Op (Load_overlays 0x3000 (s32 0x80100100) 0x100); Scan fragment_rdram 0x3000 0x100;
   Op (Unload_overlays (s32 0x80000400) 0x200)].
Abbreviation sample_game_end := (run_game sample_sections sample_table true sample_game sample_init).
Lemma lookups_find_what_is_loaded_witness :
  match sample_game_end with
  | Some s => recomp_lookup_function_or_null (s32 0x80100120) s = Some 5%nat <-> dispatches sample_sections s (s32 0x80100120) 5%nat
  | None => False
  end.
Proof.
  assert (Hn : length (loaded_now sample_game_end) = 2%nat) by (vm_compute; reflexivity).
  revert Hn. destruct sample_game_end as [s|] eqn:E; intros Hn; [|discriminate Hn].
  apply (lookups_find_what_is_loaded sample_sections sample_table true 0x80000000 0x80800000 ltac:(lia) ltac:(lia) sample_sections_fit
    sample_game 4 sample_patches s); [vm_compute; reflexivity|vm_compute; reflexivity|vm_compute; tauto|exact E].
Defined.

Lemma sample_rom_order : StronglySorted rom_before sample_sections /\ Forall rom_ok sample_sections.
Proof.
  split; [repeat constructor; vm_compute; discriminate|]. repeat constructor; vm_compute; try discriminate; reflexivity.
Qed.
Lemma dma_loads_what_it_touches_witness :
  MkLoaded (s32 0x80100000) 1 ∈ loaded_sections (load_overlays sample_sections true 0x2080 (s32 0x80100080) 0x280 sample_init).
Proof.
  destruct sample_rom_order as [H1 H2].
  refine (dma_loads_what_it_touches sample_sections true H1 H2 0x2080 (s32 0x80100080) 0x280 ltac:(lia) _ sample_init 1 fragment_1 _ eq_refl _).
  - intros i e He _. do 4 (destruct i as [|i]; [injection He as <-; vm_compute; split; [discriminate|reflexivity]|]). discriminate He.
  - apply init_apart.
  - right. vm_compute. split; [discriminate|reflexivity].
Defined.

Definition after_first_load : overlay_state nat := load_overlays sample_sections true 0x1000 (s32 0x80000400) 0x100 sample_init.
Lemma unload_adjacent_region_exits_witness :
  unload_overlays sample_sections true (s32 0x80000300) 0x100 after_first_load = None.
Proof.
  apply (unload_adjacent_region_exits sample_sections true (s32 0x80000300) 0x100 after_first_load (MkLoaded (s32 0x80000400) 0));
    [|vm_compute; reflexivity..].
  assert (E : find (is_section 0) (loaded_sections after_first_load) = Some (MkLoaded (s32 0x80000400) 0)) by (vm_compute; reflexivity).
  apply find_some in E as [E _]. apply list_elem_of_In. exact E.
Defined.
Lemma unload_undoes_load_witness :
  unload_overlay_by_section_index sample_sections true 2 (load_overlay sample_sections 2 (s32 0x80200000) after_first_load)
  = set_fragments (fragments (load_overlay sample_sections 2 (s32 0x80200000) after_first_load)) after_first_load.
Proof.
  apply unload_undoes_load.
  - change (Forall (fun l => section_table_index l <> 2%nat) [MkLoaded (s32 0x80000400) 0]). repeat constructor. discriminate.
  - intros k Hk. assert (Hall : forallb (fun k => match func_map after_first_load !! k with None => true | _ => false end)
      (all_keys (sec sample_sections 2) (s32 0x80200000)) = true) by (vm_compute; reflexivity).
    rewrite forallb_forall in Hall. specialize (Hall k (proj1 (list_elem_of_In _ _) Hk)). by destruct (_ !! k).
  - intros k Hk. destruct (func_map after_first_load !! k) as [fn|] eqn:E; [|reflexivity].
    assert (Hall : forallb (fun kv => negb (in_section sample_sections 2 (s32 0x80200000) (fst kv)))
      (map_to_list (func_map after_first_load)) = true) by (vm_compute; reflexivity).
    apply elem_of_map_to_list, list_elem_of_In in E. rewrite forallb_forall in Hall. specialize (Hall _ E). cbn [fst] in Hall.
    rewrite Hk in Hall. discriminate Hall.
  - vm_compute. reflexivity.
  - vm_compute. reflexivity.
Defined.

(** * Trampolines *)

Abbreviation lookup_at a s := (recomp_lookup_function_or_null (s32 a) s).
Definition with_fragment_2 : overlay_state nat :=
  load_overlays sample_sections true 0x2200 (s32 0x80200000) 0x100 after_first_load.
Lemma trampoline_dispatches_to_its_target_witness :
  match try_install_trampoline sample_sections (s32 0x80000480) 0x82000010 with_fragment_2 with
  | (true, s') => exists fn, lookup_at 0x80200010 with_fragment_2 = Some fn /\ lookup_at 0x80000480 s' = Some fn
  | _ => False
  end.
Proof.
  assert (Hb : fst (try_install_trampoline sample_sections (s32 0x80000480) 0x82000010 with_fragment_2) = true)
    by (vm_compute; reflexivity).
  assert (Ht : translate_link_time_to_runtime sample_sections 0x82000010 with_fragment_2 = s32 0x80200010)
    by (vm_compute; reflexivity).
  revert Hb. destruct (try_install_trampoline _ _ _ _) as [b s'] eqn:E. intros Hb. simpl in Hb. subst b.
  destruct (trampoline_dispatches_to_its_target sample_sections _ _ _ _ E) as (fn & H1 & H2 & _).
  rewrite Ht in H1. exists fn. split; [exact H1|exact H2].
Defined.

Definition load_and_scan (rom ram sz : Z) (s : overlay_state nat) : overlay_state nat :=
  scan_loaded_fragment_trampolines sample_sections fragment_rdram rom sz
    (load_overlays sample_sections true rom (s32 ram) sz s).
Definition fragment_waits : overlay_state nat := load_and_scan 0x2000 0x80100000 0x200 after_first_load.
Definition overlay_replaces : overlay_state nat := load_and_scan 0x3000 0x80100000 0x100 fragment_waits.
Definition target_arrives : overlay_state nat := load_and_scan 0x2200 0x80200000 0x100 overlay_replaces.

Example slot_waits_for_its_target : pending_trampolines fragment_waits = [MkPending (s32 0x80100020) 0x82000010].
Proof. vm_compute. reflexivity. Qed.
(** A slot of a fragment that is gone takes over a function of the section that
    replaced it. *)
Lemma stale_trampoline_replaces_a_function :
  lookup_at 0x80100020 overlay_replaces = Some 5%nat /\ lookup_at 0x80100020 target_arrives = Some 4%nat /\
  loaded_now (Some target_arrives) = [(0x80000400, 0%nat); (0x80100000, 3%nat); (0x80200000, 2%nat)].
Proof. vm_compute. split; [reflexivity|]. split; reflexivity. Qed.
(** A transfer that starts before a section and ends inside it does not load it. *)
Example entered_section_is_not_loaded :
  loaded_now (Some (load_overlays sample_sections true 0x1F00 (s32 0x800FFF00) 0x180 sample_init)) = [].
Proof. vm_compute. reflexivity. Qed.
(** Unloading a section removes an alias that another loaded one still owns. *)
Definition twin_sections : list (SectionTableEntry nat) :=
  [MkSection 0x2000 0x82000000 0x100 [MkFunc (Some 6%nat) 0x10 0x20] 0 0 0x05; MkSection 0x2100 0x82100000 0x100 [MkFunc (Some 7%nat) 0x10 0x20] 1 0 0x05].
Example unloading_a_twin_removes_a_live_alias :
  let s := load_overlays twin_sections true 0x2000 (s32 0x80100000) 0x200 (init_overlays twin_sections 2 []) in
  lookup_at 0x81500010 s = Some 7%nat /\
  lookup_at 0x81500010 (unload_overlay_by_section_index twin_sections true 0 s) = None.
Proof. vm_compute. split; reflexivity. Qed.

Definition empty_rdram : bytemap := ∅.
(** The hash of memory that is all zero. *)
Definition zero_hash : Z := 15567473145155401509.
Definition sample_fragments : list (SectionTableEntry nat) :=
  [MkSection 0x1000 0x81000000 0x100 [MkFunc (Some 1%nat) 0x40 0x20] 0 0 0xFFFFFFFF;
   MkSection 0x2000 0x81100000 0x100 [MkFunc (Some 2%nat) 0x40 0x20] 1 0 0xFFFFFFFF;
   MkSection 0x3000 0x8FF00000 0x400 [] 2 5 0xFFFFFFFF;
   MkSection 0x4000 0x8FF00000 0x200 [] 3 6 0xFFFFFFFF;
   MkSection 0x5000 0xC0100000 0x300 [MkFunc (Some 3%nat) 0x40 0x20] 4 zero_hash 0xEF].
Definition fragments_init : overlay_state nat := init_overlays sample_fragments 5 [].
Abbreviation register_at id ptr s := (register_runtime_fragment sample_fragments true true empty_rdram id (s32 ptr) s).
Abbreviation fragment_at a s := (recomp_lookup_function_or_null (s32 a) s).

Lemma found_index_fits_witness :
  found_index sample_fragments true empty_rdram 0xEF (s32 0x80200000) = Some 4%nat /\ in_table sample_fragments 4.
Proof.
  assert (E : found_index sample_fragments true empty_rdram 0xEF (s32 0x80200000) = Some 4%nat) by (vm_compute; reflexivity).
  split; [exact E|]. apply (found_index_fits sample_fragments true _ _ _ _ E).
Defined.

Lemma found_0 : found_index sample_fragments true empty_rdram 0 (s32 0x80100000) = Some 0%nat.
Proof. vm_compute. reflexivity. Qed.
Lemma register_binds_one_section_witness :
  MkLoaded (s32 0x80100000) 0 ∈ loaded_sections (register_at 0 0x80100000 fragments_init).
Proof.
  pose proof (register_binds_one_section sample_fragments true true empty_rdram 0 (s32 0x80100000) fragments_init ltac:(discriminate)) as H.
  rewrite found_0 in H. exact (proj1 H).
Defined.
Lemma clearing_undoes_registration_witness :
  section_addresses (unregister_runtime_fragment sample_fragments true 0 (register_at 0 0x80100000 fragments_init)) !! 0%nat
  = Some (s32 0x81000000).
Proof.
  apply (clearing_undoes_registration sample_fragments true true empty_rdram 0 (s32 0x80100000) fragments_init 0 ltac:(discriminate) found_0).
  - constructor.
  - apply Nat.ltb_lt. vm_compute. reflexivity.
  - vm_compute. reflexivity.
Defined.

Definition variant_registered : overlay_state nat := register_synthetic sample_fragments 4 (s32 0x80200000) fragments_init.
Definition one_input : input_stack := MkInputs (<[0%nat := 0xC0100010]> (replicate 16 0)) 1.
Lemma resolve_exit_stays_in_a_variant_witness :
  exists slot, synthetic_fragments (fragments variant_registered) !! 1 = Some slot /\ 0x80200010 = u32 (slot_runtime_base slot + 0x10).
Proof.
  assert (E : librecomp_fragment_resolve_exit sample_fragments 7 0 variant_registered one_input
    = Some (0x80200010, MkInputs (fragment_input_stack one_input) 0)) by (vm_compute; reflexivity).
  assert (Hn : forallb (fun l => negb (inside sample_fragments 0 l)) (loaded_sections variant_registered) = true) by (vm_compute; reflexivity).
  destruct (resolve_exit_stays_in_a_variant sample_fragments 7 0 _ _ _ _ E) as [H|[(slot & H1 & _ & _ & H2)|(l & Hl & Hi & _)]].
  - discriminate H.
  - exists slot. split; [exact H1|exact H2].
  - exfalso. rewrite forallb_forall in Hn. specialize (Hn l (proj1 (list_elem_of_In _ _) Hl)). by rewrite Hi in Hn.
Defined.

Definition two_variants : overlay_state nat :=
  set_loaded [MkLoaded (s32 0x80100000) 3; MkLoaded (s32 0x80200000) 2] fragments_init.
Lemma lookup_fragment_offset_smallest_witness :
  exists x, smallest_variant sample_fragments 0x8FF00000 0x80 (loaded_sections two_variants) x /\
    recomp_lookup_fragment_offset sample_fragments 0x8FF00080 two_variants = at_offset x 0x80.
Proof.
  pose proof (lookup_fragment_offset_smallest sample_fragments 0x8FF00080 two_variants eq_refl) as H.
  assert (Hs : Forall (fun x => Overlays.size (sec sample_fragments (section_table_index x)) < 0xFFFFFFFF) (loaded_sections two_variants))
    by (repeat constructor).
  exact (H Hs).
Defined.

(** [n] calls, each inside the one before. *)
Fixpoint nested (n : nat) (x : Z) : calls := match n with O => Done | S n => Call x (nested n (x + 1)) Done end.
Lemma nested_calls_see_their_inputs_witness :
  exists st, run_calls (nested 16 100) no_inputs = Some (rev (seqZ 100 16), st) /\ fragment_input_sp st = 0.
Proof.
  destruct (nested_calls_see_their_inputs (nested 16 100)) as (st & H & Hsp); [vm_compute; discriminate|].
  exists st. split; [exact H|exact Hsp].
Defined.
(** The seventeenth call sees the input of the first. *)
Example seventeenth_call_sees_the_first_input :
  match run_calls (nested 17 100) no_inputs with Some (x :: _, _) => x = 100 | _ => False end.
Proof. vm_compute. reflexivity. Qed.

(** The last range of a cleared fragment is erased when its id comes back
    elsewhere, although another fragment lives there by then. *)
Definition fragment_cleared : overlay_state nat :=
  unregister_runtime_fragment sample_fragments true 0 (register_at 0 0x80100000 fragments_init).
Definition range_reused : overlay_state nat := register_at 1 0x80100000 fragment_cleared.
Example moved_fragment_erases_a_live_one :
  fragment_at 0x80100040 range_reused = Some 2%nat /\
  fragment_at 0x80100040 (register_at 0 0x80300000 range_reused) = None /\
  MkLoaded (s32 0x80100000) 1 ∈ loaded_sections (register_at 0 0x80300000 range_reused).
Proof.
  split; [vm_compute; reflexivity|]. split; [vm_compute; reflexivity|].
  assert (E : find (is_section 1) (loaded_sections (register_at 0 0x80300000 range_reused)) = Some (MkLoaded (s32 0x80100000) 1))
    by (vm_compute; reflexivity).
  apply find_some in E as [E _]. apply list_elem_of_In. exact E.
Qed.
(** Registration leaves a loaded section that overlaps the new one. *)
Example registration_leaves_an_overlap :
  (fun l => (u32 (loaded_ram_addr l), section_table_index l)) <$> loaded_sections (register_at 1 0x80100080 (register_at 0 0x80100000 fragments_init))
  = [(0x80100000, 0%nat); (0x80100080, 1%nat)].
Proof. vm_compute. reflexivity. Qed.
