(* ===== verification/ModManager.v ===== *)
(** Mods: librecomp/src/mods.cpp and mods.hpp, the part that decides which mods
    are on and in which order they run.

    Mods are opened from files, enabled by the user, and enable the mods they
    require.  Callbacks of content types are recorded in a log.  Opening the
    files, the code of mods and the thread that saves the configuration are left
    out; saves are counted. *)

From Stdlib Require Import ZArith Lia Bool List.
From stdpp Require Import base list gmap gmultiset strings sorting.
From S2P Require Import Prelude.
Open Scope Z_scope.

(** * Data *)

(** [Version]: the suffix is not compared.  Of a manifest and a mod only what these
    operations read is kept: no names, texts, files, options or code. *)
Record Version := MkVersion { major : Z; minor : Z; patch : Z; suffix : string }.
Definition version_ltb (a b : Version) : bool :=
  (major a <? major b) ||
  ((major a =? major b) && ((minor a <? minor b) || ((minor a =? minor b) && (patch a <? patch b)))).

Record Dependency := MkDependency { dep_mod_id : string; dep_version : Version; optional : bool }.
Record ModManifest := MkManifest {
  mod_id : string; dependencies : list Dependency; version : Version; minimum_recomp_version : Version;
  enabled_by_default : bool }.
(** Content types by their number; games by their index. *)
Record ModHandle := MkMod {
  manifest : ModManifest; mod_content_types : list nat; game_indices : list nat; runtime_toggleable : bool }.
Record ModContentType := MkContentType {
  allow_runtime_toggle : bool; has_on_enabled : bool; has_on_disabled : bool; has_on_reordered : bool }.

Inductive callback :=
| On_enabled (type_id : nat) (id : string)
| On_disabled (type_id : nat) (id : string)
| On_reordered (type_id : nat).

(** [active_game] is [None] until mods are loaded; the sentinel of the order
    lookup is [None] too. *)
Record ModContext := MkContext {
  opened_mods : list ModHandle; opened_mods_by_id : gmap string nat;
  opened_mods_order : list nat; mod_order_lookup : list (option nat);
  enabled_mods : gset string; auto_enabled_mods : gset string;
  loaded_mods_by_id : gmap string nat; mod_game_ids : gmap string nat; active_game : option nat;
  callbacks : list callback; saves : nat }.

Definition set_enabled (e a : gset string) (c : ModContext) : ModContext :=
  MkContext (opened_mods c) (opened_mods_by_id c) (opened_mods_order c) (mod_order_lookup c) e a
    (loaded_mods_by_id c) (mod_game_ids c) (active_game c) (callbacks c) (saves c).
Definition set_order (o : list nat) (l : list (option nat)) (c : ModContext) : ModContext :=
  MkContext (opened_mods c) (opened_mods_by_id c) o l (enabled_mods c) (auto_enabled_mods c)
    (loaded_mods_by_id c) (mod_game_ids c) (active_game c) (callbacks c) (saves c).
Definition set_loaded_mods (m : gmap string nat) (g : option nat) (c : ModContext) : ModContext :=
  MkContext (opened_mods c) (opened_mods_by_id c) (opened_mods_order c) (mod_order_lookup c) (enabled_mods c)
    (auto_enabled_mods c) m (mod_game_ids c) g (callbacks c) (saves c).
Definition log (l : list callback) (c : ModContext) : ModContext :=
  MkContext (opened_mods c) (opened_mods_by_id c) (opened_mods_order c) (mod_order_lookup c) (enabled_mods c)
    (auto_enabled_mods c) (loaded_mods_by_id c) (mod_game_ids c) (active_game c) (callbacks c ++ l) (saves c).
Definition request_save (c : ModContext) : ModContext :=
  MkContext (opened_mods c) (opened_mods_by_id c) (opened_mods_order c) (mod_order_lookup c) (enabled_mods c)
    (auto_enabled_mods c) (loaded_mods_by_id c) (mod_game_ids c) (active_game c) (callbacks c) (S (saves c)).

Section ModManager.
Context (content_types : list ModContentType).

Definition no_content_type : ModContentType := MkContentType false false false false.
Definition content_type (t : nat) : ModContentType := default no_content_type (content_types !! t).
Definition enabled_callbacks (m : ModHandle) : list callback :=
  (fun t => On_enabled t (mod_id (manifest m))) <$> filter (fun t => has_on_enabled (content_type t) = true) (mod_content_types m).
Definition disabled_callbacks (m : ModHandle) : list callback :=
  (fun t => On_disabled t (mod_id (manifest m))) <$> filter (fun t => has_on_disabled (content_type t) = true) (mod_content_types m).
Definition reordered_callbacks (m : ModHandle) : list callback :=
  On_reordered <$> filter (fun t => has_on_reordered (content_type t) = true) (mod_content_types m).

(** * Opening *)

(** A mod can be toggled at run time if none of its content types forbids it. *)
Definition new_handle (m : ModManifest) (types games : list nat) : ModHandle :=
  MkMod m types games (forallb (fun t => allow_runtime_toggle (content_type t)) types).
Definition is_for_game (g : nat) (m : ModHandle) : bool := existsb (Nat.eqb g) (game_indices m).
(** [emplace]: an id that is taken keeps its mod. *)
Definition emplace (id : string) (i : nat) (m : gmap string nat) : gmap string nat :=
  match m !! id with Some _ => m | None => <[id := i]> m end.
Definition add_opened_mod (m : ModManifest) (games types : list nat) (c : ModContext) : ModContext :=
  let i := length (opened_mods c) in
  MkContext (opened_mods c ++ [new_handle m types games]) (emplace (mod_id m) i (opened_mods_by_id c))
    (opened_mods_order c ++ [i]) (mod_order_lookup c) (enabled_mods c) (auto_enabled_mods c)
    (loaded_mods_by_id c) (mod_game_ids c) (active_game c) (callbacks c) (saves c).
Definition register_game (id : string) (c : ModContext) : ModContext :=
  MkContext (opened_mods c) (opened_mods_by_id c) (opened_mods_order c) (mod_order_lookup c) (enabled_mods c)
    (auto_enabled_mods c) (loaded_mods_by_id c) (emplace id (size (mod_game_ids c)) (mod_game_ids c))
    (active_game c) (callbacks c) (saves c).
Definition close_mods (c : ModContext) : ModContext :=
  MkContext [] ∅ [] [] ∅ ∅ (loaded_mods_by_id c) (mod_game_ids c) (active_game c) (callbacks c) (saves c).
Definition opened (c : ModContext) (id : string) : option ModHandle :=
  i ← opened_mods_by_id c !! id; opened_mods c !! i.

(** * Enabling *)

(** One mod of the walk: its required dependencies that are not in the set yet
    join the set and the stack. *)
Definition required_ids (m : ModHandle) : list string :=
  dep_mod_id <$> filter (fun d => optional d = false) (dependencies (manifest m)).
Definition reach_one (acc : gset string * list string * nat) (id : string) : gset string * list string * nat :=
  let '(auto, pending, n) := acc in
  if decide (id ∈ auto) then acc else ({[id]} ∪ auto, id :: pending, S n).
Definition reach (ids : list string) (auto : gset string) (pending : list string) : gset string * list string * nat :=
  foldl reach_one (auto, pending, 0%nat) ids.
(** The loop, with the stack's top first; [on_reached] gives the callbacks for a
    mod that reached so many new ones.  [None] is out of fuel. *)
Fixpoint walk (fuel : nat) (c : ModContext) (on_reached : ModHandle -> nat -> list callback)
    (auto : gset string) (pending : list string) (out : list callback) : option (gset string * list callback) :=
  match pending with
  | [] => Some (auto, out)
  | id :: pending =>
      match fuel with
      | O => None
      | S fuel =>
          match opened c id with
          | None => walk fuel c on_reached auto pending out
          | Some m =>
              let '(auto, pending, n) := reach (required_ids m) auto pending in
              walk fuel c on_reached auto pending (out ++ on_reached m n)
          end
      end
  end.
(** Each round pops one id, and an id is pushed when it joins the set. *)
Definition walk_fuel (c : ModContext) : nat := S (length (concat (required_ids <$> opened_mods c))).

(** The callbacks run for the mod that was walked, once for every mod it reached. *)
Definition reached_callbacks (mods_loaded : bool) (m : ModHandle) (n : nat) : list callback :=
  if mods_loaded then concat (replicate n (enabled_callbacks m)) else [].
Definition enable (id : string) (m : ModHandle) (c : ModContext) : option ModContext :=
  let mods_loaded := bool_decide (is_Some (active_game c)) in
  if decide (id ∈ enabled_mods c) then Some c
  else
    let c := set_enabled ({[id]} ∪ enabled_mods c) (auto_enabled_mods c) c in
    let c := if mods_loaded then log (enabled_callbacks m) c else c in
    match walk (walk_fuel c) c (reached_callbacks mods_loaded) (auto_enabled_mods c) [id] [] with
    | None => None
    | Some (auto, out) => Some (log out (set_enabled (enabled_mods c) auto c))
    end.

(** The set of a fresh traversal; the roots come in some order. *)
Fixpoint rebuild (c : ModContext) (roots : list string) (auto : gset string) : option (gset string) :=
  match roots with
  | [] => Some auto
  | r :: roots =>
      match walk (walk_fuel c) c (fun _ _ => []) auto [r] [] with
      | None => None
      | Some (auto, _) => rebuild c roots auto
      end
  end.
Definition disable (id : string) (m : ModHandle) (c : ModContext) : option ModContext :=
  let mods_loaded := bool_decide (is_Some (active_game c)) in
  if decide (id ∈ enabled_mods c) then
    let previous := auto_enabled_mods c in
    let c := set_enabled (enabled_mods c ∖ {[id]}) previous c in
    let c := if mods_loaded then log (disabled_callbacks m) c else c in
    match rebuild c (elements (enabled_mods c)) ∅ with
    | None => None
    | Some rebuilt =>
        let gone := elements (previous ∖ rebuilt) in
        let c := if mods_loaded then log (concat ((fun i => match opened c i with Some m => disabled_callbacks m | None => [] end) <$> gone)) c else c in
        Some (set_enabled (enabled_mods c) rebuilt c)
    end
  else Some c.

Definition enable_mod (id : string) (enabled trigger_save : bool) (c : ModContext) : option ModContext :=
  match opened c id with
  | None => Some c
  | Some m =>
      let refused := match active_game c with
                     | Some g => negb (runtime_toggleable m) || negb (is_for_game g m)
                     | None => false
                     end in
      if refused then Some c
      else match (if enabled then enable id m c else disable id m c) with
           | None => None
           | Some c => Some (if trigger_save then request_save c else c)
           end
  end.
Definition is_mod_enabled (id : string) (c : ModContext) : bool := bool_decide (id ∈ enabled_mods c).
Definition is_mod_auto_enabled (id : string) (c : ModContext) : bool := bool_decide (id ∈ auto_enabled_mods c).

(** * Order *)

(** The inverse of the order. *)
Definition rebuild_mod_order_lookup (c : ModContext) : ModContext :=
  let none := replicate (length (opened_mods c)) None in
  set_order (opened_mods_order c)
    (foldl (fun l '(pos, i) => <[i := Some pos]> l) none (imap pair (opened_mods_order c))) c.
Definition get_mod_order_index (i : nat) (c : ModContext) : option nat := mjoin (mod_order_lookup c !! i).

(** The scan of [set_mod_index]; [visible] tells which mods the view shows. *)
Fixpoint place_loop (fuel : nat) (visible : nat -> bool) (mod_index index : nat)
    (i visible_index : nat) (inserted erased : bool) (order : list nat) : bool * list nat :=
  match fuel with
  | O => (inserted, order)
  | S fuel =>
      if inserted && erased then (inserted, order)
      else match order !! i with
           | None => (inserted, order)
           | Some entry =>
               if visible entry then
                 if (index =? visible_index)%nat then
                   place_loop fuel visible mod_index index (S i) (S visible_index) true erased (take i order ++ mod_index :: drop i order)
                 else if (mod_index =? entry)%nat then
                   place_loop fuel visible mod_index index (S i) (S visible_index) inserted true (delete i order)
                 else place_loop fuel visible mod_index index (S i) (S visible_index) inserted erased order
               else place_loop fuel visible mod_index index (S i) visible_index inserted erased order
           end
  end.
(** The list grows by one entry at most. *)
Definition place (visible : nat -> bool) (mod_index index : nat) (order : list nat) : list nat :=
  let '(inserted, order) := place_loop (S (S (length order))) visible mod_index index 0 0 false false order in
  if inserted then order else order ++ [mod_index].

(** An empty game id shows every mod. *)
Definition shown (game_id : string) (c : ModContext) (i : nat) : bool :=
  bool_decide (game_id = ""%string) ||
  match mod_game_ids c !! game_id, opened_mods c !! i with
  | Some g, Some m => is_for_game g m
  | _, _ => false
  end.
Definition set_mod_index (game_id id : string) (index : nat) (c : ModContext) : ModContext :=
  match opened_mods_by_id c !! id with
  | None => c
  | Some i =>
      let c := rebuild_mod_order_lookup (set_order (place (shown game_id c) i index (opened_mods_order c)) (mod_order_lookup c) c) in
      let c := match opened_mods c !! i with Some m => log (reordered_callbacks m) c | None => c end in
      request_save c
  end.

(** The saved configuration: mods it names come after the new ones, in its order. *)
Definition relative_order (c : ModContext) (config_order : list string) : list nat :=
  foldl (fun l '(pos, id) =>
    match opened_mods_by_id c !! id with Some i => <[i := (length (opened_mods c) + pos)%nat]> l | None => l end)
    (seq 0 (length (opened_mods c))) (imap pair config_order).
Definition order_le (key : list nat) (a b : nat) : Prop := (default 0 (key !! a) <= default 0 (key !! b))%nat.
#[export] Instance order_le_dec key a b : Decision (order_le key a b).
Proof. apply Nat.le_dec. Defined.
Definition is_known (c : ModContext) (config_order : list string) (i : nat) : bool :=
  existsb (fun id => bool_decide (opened_mods_by_id c !! id = Some i)) config_order.
Definition load_mods_config (config_enabled : gset string) (config_order : list string) (c : ModContext) : option ModContext :=
  let order := merge_sort (order_le (relative_order c config_order)) (seq 0 (length (opened_mods c))) in
  let c0 := rebuild_mod_order_lookup (set_order order (mod_order_lookup c) c) in
  foldl (fun oc i =>
    match oc, opened_mods c0 !! i with
    | Some c, Some m =>
        let id := mod_id (manifest m) in
        if (negb (is_known c0 config_order i) && enabled_by_default (manifest m)) || bool_decide (id ∈ config_enabled)
        then enable_mod id true false c else Some c
    | _, _ => oc
    end) (Some c0) (seq 0 (length (opened_mods c0))).

(** * Loading, up to the dependency check *)

Inductive ModLoadError := InvalidGame | MinimumRecompVersionNotMet | MissingDependency (id : string) | WrongDependencyVersion (id : string).
Context (project_version : Version).

Definition is_active (game_index : nat) (c : ModContext) (m : ModHandle) : bool :=
  is_for_game game_index m && (is_mod_enabled (mod_id (manifest m)) c || is_mod_auto_enabled (mod_id (manifest m)) c).
Definition active_mods (game_index : nat) (c : ModContext) : list nat :=
  filter (fun i => match opened_mods c !! i with Some m => is_active game_index c m | None => false end = true)
    (seq 0 (length (opened_mods c))).
Definition load_mod (m : ModHandle) (c : ModContext) : list ModLoadError * ModContext :=
  if version_ltb project_version (minimum_recomp_version (manifest m)) then ([MinimumRecompVersionNotMet], c)
  else ([], log (enabled_callbacks m) c).
Definition load_one (acc : list (string * ModLoadError) * ModContext) (i : nat) : list (string * ModLoadError) * ModContext :=
  let '(errors, c) := acc in
  match opened_mods c !! i with
  | None => acc
  | Some m =>
      let c := set_loaded_mods (emplace (mod_id (manifest m)) i (loaded_mods_by_id c)) (active_game c) c in
      let '(e, c) := load_mod m c in (errors ++ (pair (mod_id (manifest m)) <$> e), c)
  end.
Definition disable_runtime_toggle (i : nat) (c : ModContext) : ModContext :=
  MkContext (alter (fun m => MkMod (manifest m) (mod_content_types m) (game_indices m) false) i (opened_mods c))
    (opened_mods_by_id c) (opened_mods_order c) (mod_order_lookup c) (enabled_mods c) (auto_enabled_mods c)
    (loaded_mods_by_id c) (mod_game_ids c) (active_game c) (callbacks c) (saves c).
Definition check_dependency (acc : list ModLoadError * ModContext) (d : Dependency) : list ModLoadError * ModContext :=
  let '(errors, c) := acc in
  if optional d then acc
  else match loaded_mods_by_id c !! dep_mod_id d with
       | None => (errors ++ [MissingDependency (dep_mod_id d)], c)
       | Some i =>
           match opened_mods c !! i with
           | None => acc
           | Some m =>
               (errors ++ (if version_ltb (version (manifest m)) (dep_version d) then [WrongDependencyVersion (dep_mod_id d)] else []),
                disable_runtime_toggle i c)
           end
       end.
(** A mod with dependencies, and a required one, can no longer be toggled. *)
Definition check_dependencies (i : nat) (c : ModContext) : list ModLoadError * ModContext :=
  match opened_mods c !! i with
  | None => ([], c)
  | Some m =>
      let c := match dependencies (manifest m) with [] => c | _ => disable_runtime_toggle i c end in
      foldl check_dependency ([], c) (dependencies (manifest m))
  end.
Definition check_one (acc : list (string * ModLoadError) * ModContext) (i : nat) : list (string * ModLoadError) * ModContext :=
  let '(errors, c) := acc in
  match opened_mods c !! i with
  | None => acc
  | Some m => let '(e, c) := check_dependencies i c in (errors ++ (pair (mod_id (manifest m)) <$> e), c)
  end.
Definition unload_mods (c : ModContext) : ModContext := set_loaded_mods ∅ None c.
(** The first two phases of [load_mods]; the code of the mods comes after them.
    [patched] tells that functions are patched, so that mods are loaded already. *)
Definition load_phases (patched : bool) (game_id : string) (c : ModContext) : list (string * ModLoadError) * ModContext :=
  match mod_game_ids c !! game_id with
  | None => ([(game_id, InvalidGame)], c)
  | Some g =>
      if patched then ([], c) else
      let active := active_mods g c in
      let '(errors, c) := foldl load_one ([], c) active in
      match errors with
      | _ :: _ => (errors, unload_mods c)
      | [] =>
          let '(errors, c) := foldl check_one ([], c) active in
          match errors with _ :: _ => (errors, unload_mods c) | [] => ([], c) end
      end
  end.

(** The question a mod asks of its dependencies. *)
Inductive DependencyStatus := Found | InvalidDependency | NotFound | WrongVersion.
Definition is_dependency_met (m : ModHandle) (id : string) (c : ModContext) : DependencyStatus :=
  match find (fun d => bool_decide (dep_mod_id d = id)) (dependencies (manifest m)) with
  | None => InvalidDependency
  | Some d =>
      match loaded_mods_by_id c !! id ≫= (fun i => opened_mods c !! i) with
      | None => NotFound
      | Some dep => if version_ltb (version (manifest dep)) (dep_version d) then WrongVersion else Found
      end
  end.
End ModManager.
