(* ===== verification/ModManagerSpec.v ===== *)
(** Mods: the mods that run on their own are exactly those that an enabled mod
    needs.  A load succeeds exactly when every active mod accepts the runtime's
    version and has what it requires, and it locks what it must. *)

From Stdlib Require Import ZArith Lia Bool List.
From stdpp Require Import base list gmap strings sorting relations fin_sets.
From S2P Require Import Prelude ModManager.
Open Scope Z_scope.

Section Enabling.
Context (content_types : list ModContentType).
Implicit Types (c : ModContext) (auto : gset string) (pending ids : list string).
Abbreviation walk := (ModManager.walk).

(** [b] is a required dependency of the opened mod [a]. *)
Definition requires c (a b : string) : Prop := exists m, opened c a = Some m /\ b ∈ required_ids m.
Definition closed c auto : Prop := forall a b, a ∈ auto -> requires c a b -> b ∈ auto.
(** What is enabled automatically is what an enabled mod needs, directly or not. *)
Definition auto_exact c : Prop :=
  forall d, d ∈ auto_enabled_mods c <-> exists r, r ∈ enabled_mods c /\ tc (requires c) r d.

Lemma auto_exact_closed c : auto_exact c -> closed c (auto_enabled_mods c).
Proof. intros H a b Ha Hab. apply H in Ha as (r & Hr & Ht). apply H. exists r. split; [done|]. by eapply tc_r. Qed.
Lemma requires_opened c c' : opened_mods c = opened_mods c' -> opened_mods_by_id c = opened_mods_by_id c' ->
  forall a b, requires c a b <-> requires c' a b.
Proof. intros H1 H2 a b. unfold requires, opened. by rewrite H1, H2. Qed.
Lemma tc_requires c c' : opened_mods c = opened_mods c' -> opened_mods_by_id c = opened_mods_by_id c' ->
  forall a b, tc (requires c) a b <-> tc (requires c') a b.
Proof.
  intros H1 H2 a b. pose proof (requires_opened c c' H1 H2) as H. clear H1 H2.
  split; (induction 1 as [x y Hxy|x y z Hxy _ IH]; [apply tc_once|eapply tc_l; [|exact IH]]; by apply H).
Qed.

(** * One step of the walk *)

Lemma reach_fold ids : forall auto pending n, exists new,
  foldl reach_one (auto, pending, n) ids = (list_to_set new ∪ auto, new ++ pending, (n + length new)%nat) /\
  NoDup new /\ (forall x, x ∈ new <-> x ∈ ids /\ x ∉ auto).
Proof.
  induction ids as [|id ids IH]; intros auto pending n; simpl.
  { exists []. simpl. rewrite Nat.add_0_r. split; [f_equal; f_equal; set_solver|]. split; [constructor|set_solver]. }
  case_decide as H.
  - destruct (IH auto pending n) as (new & -> & Hd & Hx). exists new. split; [done|]. split; [done|]. set_solver.
  - destruct (IH ({[id]} ∪ auto) (id :: pending) (S n)) as (new & -> & Hd & Hx). exists (new ++ [id]).
    rewrite length_app. split; [|split].
    + f_equal; [f_equal|simpl; lia]; [set_solver|by rewrite <- app_assoc].
    + apply NoDup_app. split; [done|]. split; [set_solver|apply NoDup_singleton].
    + intros x. rewrite elem_of_app, list_elem_of_singleton, Hx, elem_of_cons, elem_of_union, elem_of_singleton.
      destruct (decide (x = id)) as [->|]; tauto.
Qed.
Lemma reach_spec ids auto pending : exists new,
  reach ids auto pending = (list_to_set new ∪ auto, new ++ pending, length new) /\
  NoDup new /\ (forall x, x ∈ new <-> x ∈ ids /\ x ∉ auto).
Proof. apply (reach_fold ids auto pending 0). Qed.

(** Every id that can join. *)
Definition universe c : gset string := list_to_set (concat (required_ids <$> opened_mods c)).
Lemma opened_required c id m : opened c id = Some m -> forall x, x ∈ required_ids m -> x ∈ universe c.
Proof.
  unfold opened, universe. intros E x Hx. destruct (opened_mods_by_id c !! id) as [i|]; [|done]. simpl in E.
  rewrite elem_of_list_to_set. apply list_elem_of_In, in_concat. exists (required_ids m). split; [|by apply list_elem_of_In].
  apply list_elem_of_In, list_elem_of_fmap. exists m. split; [done|]. by eapply list_elem_of_lookup_2.
Qed.

(** * The walk ends, and adds what the stack needs *)

Definition room c auto pending : nat := (size (universe c ∖ auto) + length pending)%nat.
Lemma room_reach c auto pending new : NoDup new -> (forall x, x ∈ new -> x ∈ universe c /\ x ∉ auto) ->
  room c (list_to_set new ∪ auto) (new ++ pending) = room c auto pending.
Proof.
  intros Hd Hn. unfold room. rewrite length_app.
  assert (universe c ∖ auto = list_to_set new ∪ (universe c ∖ (list_to_set new ∪ auto))) as E.
  { apply set_eq. intros x. specialize (Hn x). destruct (decide (x ∈ new)); set_solver. }
  pose proof (size_union (C:=gset string) (list_to_set new) (universe c ∖ (list_to_set new ∪ auto)) ltac:(set_solver)) as Hu.
  pose proof (size_list_to_set (C:=gset string) new Hd) as Hl. rewrite <- E in Hu. lia.
Qed.
Lemma walk_total c on_reached fuel : forall auto pending out,
  (room c auto pending <= fuel)%nat -> exists r, walk fuel c on_reached auto pending out = Some r.
Proof.
  induction fuel as [|fuel IH]; intros auto pending out Hf; destruct pending as [|id pending]; simpl; try by eexists.
  { unfold room in Hf. simpl in Hf. lia. }
  destruct (opened c id) as [m|] eqn:E; [|apply IH; unfold room in *; simpl in *; lia].
  destruct (reach_spec (required_ids m) auto pending) as (new & -> & Hd & Hx). apply IH.
  rewrite room_reach; [unfold room in *; simpl in *; lia|done|]. intros x Hn. apply Hx in Hn as [Hn Ha].
  split; [by eapply opened_required|done].
Qed.
Lemma size_of_list (l : list string) : (size (list_to_set l : gset string) <= length l)%nat.
Proof.
  induction l as [|x l IH]; [apply Nat.le_0_l|]. cbn [list_to_set length].
  pose proof (size_union_alt (C:=gset string) {[x]} (list_to_set l)) as Hu. pose proof (size_singleton (C:=gset string) x) as Hs.
  assert (size (list_to_set l ∖ {[x]} : gset string) <= size (list_to_set l : gset string))%nat by (apply subseteq_size; set_solver).
  simpl in *. lia.
Qed.
Lemma walk_fuel_enough c auto id : (room c auto [id] <= walk_fuel c)%nat.
Proof.
  unfold room, walk_fuel. simpl. enough (size (universe c ∖ auto) <= length (concat (required_ids <$> opened_mods c)))%nat by lia.
  transitivity (size (universe c)); [apply subseteq_size; set_solver|]. apply size_of_list.
Qed.

Lemma walk_spec c on_reached fuel : forall auto pending out auto' out',
  walk fuel c on_reached auto pending out = Some (auto', out') ->
  auto ⊆ auto' /\
  (forall d, d ∈ auto' -> d ∈ auto \/ exists p, p ∈ pending /\ tc (requires c) p d) /\
  (forall x y, x ∈ pending \/ (x ∈ auto' /\ x ∉ auto) -> requires c x y -> y ∈ auto').
Proof.
  induction fuel as [|fuel IH]; intros auto pending out auto' out'; destruct pending as [|id pending]; simpl; try done.
  1, 2: intros [= -> _]; split; [done|]; split; [auto|]; intros x y [Hx|[? ?]]; [set_solver|done].
  destruct (opened c id) as [m|] eqn:E.
  - destruct (reach_spec (required_ids m) auto pending) as (new & -> & Hd & Hx). intros (Hm & Hs & Hc)%IH.
    assert (Hreq : forall y, requires c id y <-> y ∈ required_ids m) by (intros y; unfold requires; rewrite E; naive_solver).
    split; [set_solver|]. split.
    + intros d [Hd'|(p & Hp & Ht)]%Hs.
      * apply elem_of_union in Hd' as [Hd'%elem_of_list_to_set|Hd']; [|by left]. right. exists id. split; [constructor|].
        apply tc_once, Hreq. by apply Hx.
      * right. apply elem_of_app in Hp as [Hp|Hp]; [|exists p; split; [by right|done]]. exists id. split; [constructor|].
        eapply tc_l; [|done]. apply Hreq. by apply Hx.
    + intros x y Hxy Hr. destruct Hxy as [[->|Hp]%elem_of_cons|[Ha Hna]].
      * apply Hreq in Hr. destruct (decide (y ∈ auto)); [set_solver|]. apply Hm. rewrite elem_of_union, elem_of_list_to_set. left. by apply Hx.
      * apply (Hc x); [left; set_solver|done].
      * apply (Hc x); [|done]. destruct (decide (x ∈ new)); [left; set_solver|right; set_solver].
  - intros (Hm & Hs & Hc)%IH. split; [done|]. split; [set_solver|].
    intros x y [[->|Hp]%elem_of_cons|H] Hr; [|by apply (Hc x); [left|]|by apply (Hc x); [right|]].
    destruct Hr as (m & Em & _). congruence.
Qed.

(** From a set that is closed already, the walk adds what the one root needs. *)
Lemma walk_root c on_reached auto r : closed c auto -> exists auto' out,
  walk (walk_fuel c) c on_reached auto [r] [] = Some (auto', out) /\ closed c auto' /\
  (forall d, d ∈ auto' <-> d ∈ auto \/ tc (requires c) r d).
Proof.
  intros Hc. destruct (walk_total c on_reached _ auto [r] [] (walk_fuel_enough c auto r)) as [[auto' out] E].
  exists auto', out. split; [done|]. destruct (walk_spec _ _ _ _ _ _ _ _ E) as (Hm & Hs & Hr).
  assert (closed c auto') as Hc'.
  { intros x y Hx Hxy. destruct (decide (x ∈ auto)) as [Ha|Ha]; [apply Hm; by apply (Hc x)|apply (Hr x); [by right|done]]. }
  assert (forall x d, tc (requires c) x d -> x = r \/ x ∈ auto' -> d ∈ auto') as Hin.
  { intros x d. induction 1 as [x y Hxy|x y z Hxy Hyz IH]; (intros [->|Hx]; [|try (by apply (Hc' x)); apply IH; right; by apply (Hc' x)]).
    - apply (Hr r); [left; constructor|done].
    - apply IH. right. apply (Hr r); [left; constructor|done]. }
  split; [done|]. intros d. split.
  - intros Hd. destruct (Hs d Hd) as [|(p & Hp%list_elem_of_singleton & Ht)]; [by left|subst; by right].
  - intros [Hd|Ht]; [by apply Hm|]. apply (Hin r d Ht). by left.
Qed.

Lemma rebuild_spec c roots : forall auto, closed c auto -> exists auto',
  rebuild c roots auto = Some auto' /\
  (forall d, d ∈ auto' <-> d ∈ auto \/ exists r, r ∈ roots /\ tc (requires c) r d).
Proof.
  induction roots as [|r roots IH]; intros auto Hc; cbn [rebuild].
  { exists auto. split; [done|]. intros d. split; [auto|]. intros [?|(r & Hr%elem_of_nil & _)]; done. }
  destruct (walk_root c (fun _ _ => []) auto r Hc) as (auto1 & out & -> & Hc1 & H1).
  destruct (IH auto1 Hc1) as (auto' & -> & H'). exists auto'. split; [done|]. intros d. rewrite H', H1. split.
  - intros [[|]|(x & Hx & ?)]; [by left|right; exists r; split; [constructor|done]|right; exists x; split; [by constructor|done]].
  - intros [|(x & [->|Hx]%elem_of_cons & ?)]; [by left; left|by left; right|right; by exists x].
Qed.

(** * Toggling *)

(** What toggling leaves alone. *)
Definition same_mods c c' : Prop :=
  opened_mods c' = opened_mods c /\ opened_mods_by_id c' = opened_mods_by_id c /\
  opened_mods_order c' = opened_mods_order c /\ mod_order_lookup c' = mod_order_lookup c /\
  active_game c' = active_game c /\ loaded_mods_by_id c' = loaded_mods_by_id c.
Lemma same_mods_refl c : same_mods c c.
Proof. by unfold same_mods. Qed.
Lemma same_mods_trans c c' c'' : same_mods c c' -> same_mods c' c'' -> same_mods c c''.
Proof. unfold same_mods. intuition congruence. Qed.
#[local] Hint Resolve same_mods_refl : core.

Lemma enable_spec id m c : auto_exact c -> exists c',
  enable content_types id m c = Some c' /\ auto_exact c' /\ same_mods c c' /\ enabled_mods c' = {[id]} ∪ enabled_mods c.
Proof.
  intros Ha. unfold enable. case_decide as Hin.
  { exists c. split; [done|]. split; [done|]. split; [done|]. set_solver. }
  set (c1 := set_enabled ({[id]} ∪ enabled_mods c) (auto_enabled_mods c) c).
  set (c2 := if bool_decide (is_Some (active_game c)) then _ else c1).
  assert (opened_mods c2 = opened_mods c /\ opened_mods_by_id c2 = opened_mods_by_id c /\ same_mods c c2 /\
          auto_enabled_mods c2 = auto_enabled_mods c /\ enabled_mods c2 = {[id]} ∪ enabled_mods c) as (E1 & E2 & Hs & Ea & Ee).
  { unfold c2. by case_match. }
  pose proof (requires_opened c2 c E1 E2) as Hr. pose proof (tc_requires c2 c E1 E2) as Ht. clearbody c2.
  assert (closed c2 (auto_enabled_mods c2)) as Hc.
  { rewrite Ea. intros a b Hx Hab. apply (auto_exact_closed c Ha a b Hx). by apply Hr. }
  destruct (walk_root c2 (reached_callbacks content_types (bool_decide (is_Some (active_game c)))) _ id Hc) as (auto' & out & -> & _ & Hd).
  eexists. split; [done|]. split; [|split; [|done]].
  - intros d. cbn [auto_enabled_mods set_enabled log enabled_mods]. rewrite Hd, Ea, Ee, (Ha d), (Ht id d). split.
    + intros [(r & Hin' & ?)|?]; eexists; (split; [|apply Ht; eassumption]); set_solver.
    + intros (r & [->%elem_of_singleton|Hin']%elem_of_union & ?%Ht); [by right|left; by exists r].
  - destruct Hs as (? & ? & ? & ? & ? & ?). done.
Qed.
Lemma disable_spec id m c : auto_exact c -> exists c',
  disable content_types id m c = Some c' /\ auto_exact c' /\ same_mods c c' /\ enabled_mods c' = enabled_mods c ∖ {[id]}.
Proof.
  intros Ha. unfold disable. case_decide as Hin.
  2:{ exists c. split; [done|]. split; [done|]. split; [done|]. set_solver. }
  set (c2 := if bool_decide (is_Some (active_game c)) then log (disabled_callbacks content_types m) _ else _).
  assert (opened_mods c2 = opened_mods c /\ opened_mods_by_id c2 = opened_mods_by_id c /\ same_mods c c2 /\
          enabled_mods c2 = enabled_mods c ∖ {[id]}) as (E1 & E2 & Hs & Ee).
  { unfold c2. by case_match. }
  clearbody c2. destruct (rebuild_spec c2 (elements (enabled_mods c2)) ∅) as (rebuilt & -> & Hd); [by intros a b|].
  eexists. split; [done|]. split; [|split].
  - assert (forall d, d ∈ rebuilt <-> exists r, r ∈ enabled_mods c2 /\ tc (requires c2) r d) as Hx.
    { intros d. rewrite Hd. setoid_rewrite elem_of_elements. set_solver. }
    intros d. cbn [auto_enabled_mods set_enabled]. rewrite Hx. by case_match.
  - destruct Hs as (? & ? & ? & ? & ? & ?). by case_match.
  - by case_match.
Qed.

(** A toggle is ignored for a mod that is not opened and, while a game runs, for
    one that cannot be toggled then. *)
Definition can_toggle (id : string) c : bool :=
  match opened c id with
  | None => false
  | Some m => match active_game c with None => true | Some g => runtime_toggleable m && is_for_game g m end
  end.
Definition toggled (id : string) (enabled : bool) c : gset string :=
  if can_toggle id c then (if enabled then {[id]} ∪ enabled_mods c else enabled_mods c ∖ {[id]}) else enabled_mods c.
Lemma enable_mod_spec id enabled save c : auto_exact c -> exists c',
  enable_mod content_types id enabled save c = Some c' /\ auto_exact c' /\ same_mods c c' /\
  enabled_mods c' = toggled id enabled c.
Proof.
  intros Ha. unfold enable_mod, toggled, can_toggle. destruct (opened c id) as [m|]; [|by exists c].
  set (refused := match active_game c with Some g => _ | None => _ end).
  assert (match active_game c with None => true | Some g => runtime_toggleable m && is_for_game g m end = negb refused) as ->.
  { unfold refused. destruct (active_game c); [|done]. by rewrite negb_orb, !negb_involutive. }
  destruct refused; simpl; [by exists c|].
  destruct enabled; [destruct (enable_spec id m c Ha) as (c' & -> & He & Hs & Hen)|destruct (disable_spec id m c Ha) as (c' & -> & He & Hs & Hen)];
    eexists; (split; [done|]); destruct save; done.
Qed.

(** Requests in the order they are made. *)
Definition toggle_all (l : list (string * bool * bool)) c : option ModContext :=
  foldl (fun oc '(id, enabled, save) => c ← oc; enable_mod content_types id enabled save c) (Some c) l.
Definition toggled_all (l : list (string * bool * bool)) c : gset string :=
  foldl (fun e '(id, enabled, _) => toggled id enabled (set_enabled e (auto_enabled_mods c) c)) (enabled_mods c) l.
Lemma can_toggle_same id c c' : same_mods c c' -> can_toggle id c' = can_toggle id c.
Proof. intros (E1 & E2 & _ & _ & E3 & _). unfold can_toggle, opened. by rewrite E1, E2, E3. Qed.
Lemma toggle_all_spec l c : auto_exact c -> exists c',
  toggle_all l c = Some c' /\ auto_exact c' /\ same_mods c c' /\ enabled_mods c' = toggled_all l c.
Proof.
  intros Ha. unfold toggle_all, toggled_all.
  induction l as [|[[id enabled] save] l IH] using rev_ind; [by exists c|]. destruct IH as (c1 & E1 & Ha1 & Hs1 & He1).
  rewrite !foldl_app, E1. simpl. destruct (enable_mod_spec id enabled save c1 Ha1) as (c' & -> & Ha' & Hs' & He').
  exists c'. split; [done|]. split; [done|]. split; [by eapply same_mods_trans|]. rewrite He'. unfold toggled.
  rewrite (can_toggle_same id _ _ Hs1), He1. done.
Qed.
End Enabling.

(** C28: However mods are toggled, before or while a game runs, every request ends, the
    enabled mods are those the requests left enabled, and the ones enabled automatically are
    exactly what an enabled mod needs, directly or through others, also in a circle. *)
Theorem toggles_keep_required content_types l c : auto_exact c -> exists c',
  toggle_all content_types l c = Some c' /\ auto_exact c' /\
  (forall id, is_mod_enabled id c' = true <-> id ∈ toggled_all l c) /\
  (forall d, is_mod_auto_enabled d c' = true <->
    exists r, is_mod_enabled r c' = true /\ tc (requires c) r d).
Proof.
  intros Ha. destruct (toggle_all_spec content_types l c Ha) as (c' & E & Ha' & Hs & He).
  exists c'. split; [done|]. split; [done|]. split.
  - intros id. unfold is_mod_enabled. by rewrite bool_decide_eq_true, He.
  - intros d. unfold is_mod_auto_enabled. rewrite bool_decide_eq_true, (Ha' d). unfold is_mod_enabled.
    setoid_rewrite bool_decide_eq_true. destruct Hs as (E1 & E2 & _).
    split; intros (r & Hr & Ht); exists r; (split; [done|]); by apply (tc_requires c' c E1 E2).
Qed.

Section Load.
Context (content_types : list ModContentType) (project_version : Version).
Implicit Types (c : ModContext) (idxs : list nat).

Definition manifest_of c (i : nat) : option ModManifest := manifest <$> opened_mods c !! i.
(** The first mod of the list that has the id. *)
Definition provider c idxs (id : string) : option nat :=
  find (fun i => bool_decide (mod_id <$> manifest_of c i = Some id)) idxs.
Definition runtime_ok c (i : nat) : Prop :=
  forall mf, manifest_of c i = Some mf -> version_ltb project_version (minimum_recomp_version mf) = false.
(** A required dependency is there, in a version that is new enough. *)
Definition dep_ok c (d : Dependency) : Prop :=
  optional d = false -> exists j mf, loaded_mods_by_id c !! dep_mod_id d = Some j /\ manifest_of c j = Some mf /\
    version_ltb (version mf) (dep_version d) = false.
Definition deps_ok c (i : nat) : Prop :=
  forall mf, manifest_of c i = Some mf -> forall d, d ∈ dependencies mf -> dep_ok c d.
Definition locked c (i : nat) : Prop := forall m, opened_mods c !! i = Some m -> runtime_toggleable m = false.

(** * The first phase *)

Lemma provider_app c l1 l2 id : provider c (l1 ++ l2) id =
  match provider c l1 id with Some j => Some j | None => provider c l2 id end.
Proof. unfold provider. induction l1 as [|x l1 IH]; cbn [app find]; [done|]. destruct (bool_decide _); [done|exact IH]. Qed.
Lemma provider_same c c' l id : opened_mods c' = opened_mods c -> provider c' l id = provider c l id.
Proof. intros E. unfold provider, manifest_of. by rewrite E. Qed.
Lemma provider_some c l id j : provider c l id = Some j -> j ∈ l /\ mod_id <$> manifest_of c j = Some id.
Proof.
  unfold provider. intros H. apply find_some in H as [H1 H2]. split; [by apply list_elem_of_In|by apply bool_decide_eq_true in H2].
Qed.
Definition found_or (o : option nat) (p : option nat) : option nat := match o with Some j => Some j | None => p end.

Lemma load_one_spec e c i : exists e' c', load_one content_types project_version (e, c) i = (e ++ e', c') /\
  opened_mods c' = opened_mods c /\ active_game c' = active_game c /\
  (forall id, loaded_mods_by_id c' !! id = found_or (loaded_mods_by_id c !! id) (provider c [i] id)) /\
  (e' = [] <-> runtime_ok c i).
Proof.
  unfold load_one, runtime_ok, found_or, provider, manifest_of. cbn [find]. destruct (opened_mods c !! i) as [m|] eqn:E.
  2:{ exists [], c. rewrite app_nil_r. split; [done|]. split; [done|]. split; [done|]. split; [intros id; simpl; by case_match|done]. }
  unfold load_mod.
  assert (forall id, emplace (mod_id (manifest m)) i (loaded_mods_by_id c) !! id =
    match loaded_mods_by_id c !! id with Some j => Some j
    | None => if bool_decide (mod_id <$> (manifest <$> Some m) = Some id) then Some i else None end) as He.
  { intros id. unfold emplace. simpl. case_bool_decide as H.
    - injection H as <-. destruct (loaded_mods_by_id c !! mod_id (manifest m)) eqn:El; [by rewrite El|by rewrite lookup_insert_eq].
    - case_match; [by case_match|]. rewrite lookup_insert_ne by congruence. by case_match. }
  destruct (version_ltb project_version _) eqn:Ev; eexists _, _; (split; [reflexivity|]); (split; [done|]); (split; [done|]); (split; [exact He|]).
  - split; [done|]. intros H. specialize (H _ eq_refl). congruence.
  - split; [|done]. intros _ mf [= <-]. done.
Qed.
Lemma load_fold idxs : forall e c, exists e' c', foldl (load_one content_types project_version) (e, c) idxs = (e ++ e', c') /\
  opened_mods c' = opened_mods c /\ active_game c' = active_game c /\
  (forall id, loaded_mods_by_id c' !! id = found_or (loaded_mods_by_id c !! id) (provider c idxs id)) /\
  (e' = [] <-> forall i, i ∈ idxs -> runtime_ok c i).
Proof.
  induction idxs as [|i idxs IH]; intros e c; cbn [foldl].
  { exists [], c. rewrite app_nil_r. split; [done|]. split; [done|]. split; [done|]. split; [intros id; unfold found_or; by case_match|].
    split; [|done]. intros _ i Hi. by apply elem_of_nil in Hi. }
  destruct (load_one_spec e c i) as (e1 & c1 & -> & Ho1 & Hg1 & Hl1 & He1).
  destruct (IH (e ++ e1) c1) as (e2 & c2 & -> & Ho2 & Hg2 & Hl2 & He2). exists (e1 ++ e2), c2.
  split; [by rewrite <- app_assoc|]. split; [congruence|]. split; [congruence|]. split.
  - intros id. rewrite Hl2, Hl1, (provider_same c c1) by done. change (provider c (i :: idxs) id) with (provider c ([i] ++ idxs) id). rewrite provider_app.
    unfold found_or. by repeat case_match.
  - assert (forall k, runtime_ok c1 k <-> runtime_ok c k) as Hr by (intros k; unfold runtime_ok, manifest_of; by rewrite Ho1).
    split.
    + intros [H1 H2]%app_eq_nil k [->|Hk]%elem_of_cons; [by apply He1|apply Hr; by apply He2].
    + intros H. assert (e1 = []) as -> by (apply He1, H; constructor). apply He2. intros k Hk. apply Hr, H. by constructor.
Qed.

(** * The second phase *)

Lemma version_of_locked c i j : manifest_of (disable_runtime_toggle i c) j = manifest_of c j.
Proof.
  unfold manifest_of, disable_runtime_toggle. cbn [opened_mods]. rewrite list_lookup_alter. case_decide as H; [subst j|done].
  by destruct (opened_mods c !! i).
Qed.
(** What checking leaves alone, and that it only locks. *)
Definition only_locks c c' : Prop :=
  loaded_mods_by_id c' = loaded_mods_by_id c /\ active_game c' = active_game c /\
  length (opened_mods c') = length (opened_mods c) /\
  (forall j, manifest_of c' j = manifest_of c j) /\ (forall j, locked c j -> locked c' j).
Lemma only_locks_refl c : only_locks c c.
Proof. by unfold only_locks. Qed.
Lemma only_locks_trans c c' c'' : only_locks c c' -> only_locks c' c'' -> only_locks c c''.
Proof.
  intros (L1 & A1 & N1 & M1 & K1) (L2 & A2 & N2 & M2 & K2). split; [congruence|]. split; [congruence|]. split; [congruence|].
  split; [intros; by rewrite M2|auto].
Qed.
Lemma disable_locks c i : only_locks c (disable_runtime_toggle i c) /\ locked (disable_runtime_toggle i c) i.
Proof.
  split; [split; [done|]; split; [done|]; split; [apply length_alter|]; split; [intros j; apply version_of_locked|]|].
  - intros j H m. unfold disable_runtime_toggle. cbn [opened_mods]. rewrite list_lookup_alter. case_decide as Hd; [|apply H].
    intros (m' & _ & ->)%fmap_Some_1. done.
  - intros m. unfold disable_runtime_toggle. cbn [opened_mods]. rewrite list_lookup_alter_eq. intros (m' & _ & ->)%fmap_Some_1. done.
Qed.
Lemma dep_ok_same c c' d : only_locks c c' -> dep_ok c' d <-> dep_ok c d.
Proof. intros (E & _ & _ & Em & _). unfold dep_ok. rewrite E. by setoid_rewrite Em. Qed.

Lemma check_dependency_spec e c d : (forall id j, loaded_mods_by_id c !! id = Some j -> (j < length (opened_mods c))%nat) ->
  exists e' c', check_dependency (e, c) d = (e ++ e', c') /\ only_locks c c' /\ (e' = [] <-> dep_ok c d) /\
  (optional d = false -> forall j, loaded_mods_by_id c !! dep_mod_id d = Some j -> locked c' j).
Proof.
  intros Hl. unfold check_dependency, dep_ok. destruct (optional d).
  { exists [], c. rewrite app_nil_r. split; [done|]. split; [apply only_locks_refl|]. done. }
  destruct (loaded_mods_by_id c !! dep_mod_id d) as [j|] eqn:E.
  2:{ eexists _, c. split; [done|]. split; [apply only_locks_refl|]. split; [|done]. split; [done|].
      intros H. destruct (H eq_refl) as (? & ? & ? & _). done. }
  destruct (lookup_lt_is_Some_2 _ _ (Hl _ _ E)) as [m Em]. rewrite Em. eexists _, _. split; [reflexivity|].
  destruct (disable_locks c j) as [H1 H2]. split; [done|]. split.
  - assert (manifest_of c j = Some (manifest m)) as Hm by (unfold manifest_of; by rewrite Em).
    destruct (version_ltb _ _) eqn:Ev; (split; [|]); [done| |by intros _ _; exists j, (manifest m)|done].
    intros H. destruct (H eq_refl) as (j' & mf & [= <-] & Hm' & Hv). rewrite Hm in Hm'. injection Hm' as <-. congruence.
  - intros _ k [= <-]. done.
Qed.
Lemma check_deps_fold ds : forall e c, (forall id j, loaded_mods_by_id c !! id = Some j -> (j < length (opened_mods c))%nat) ->
  exists e' c', foldl check_dependency (e, c) ds = (e ++ e', c') /\ only_locks c c' /\
  (e' = [] <-> forall d, d ∈ ds -> dep_ok c d) /\
  (forall d, d ∈ ds -> optional d = false -> forall j, loaded_mods_by_id c !! dep_mod_id d = Some j -> locked c' j).
Proof.
  induction ds as [|d ds IH]; intros e c Hl; cbn [foldl].
  { exists [], c. rewrite app_nil_r. split; [done|]. split; [apply only_locks_refl|]. split; [|intros d Hd; by apply elem_of_nil in Hd].
    split; [|done]. intros _ d Hd. by apply elem_of_nil in Hd. }
  destruct (check_dependency_spec e c d Hl) as (e1 & c1 & -> & H1 & He1 & Hk1).
  destruct (IH (e ++ e1) c1) as (e2 & c2 & -> & H2 & He2 & Hk2).
  { destruct H1 as (-> & _ & -> & _). done. }
  exists (e1 ++ e2), c2. split; [by rewrite <- app_assoc|]. split; [by eapply only_locks_trans|]. split.
  - split.
    + intros [E1 E2]%app_eq_nil k [->|Hk]%elem_of_cons; [by apply He1|]. apply (dep_ok_same c c1 k H1). by apply He2.
    + intros H. assert (e1 = []) as -> by (apply He1, H; constructor). apply He2. intros k Hk. apply (dep_ok_same c c1 k H1), H. by constructor.
  - intros k [->|Hk]%elem_of_cons Ho j Hj; [destruct H2 as (_ & _ & _ & _ & H2); by eapply H2, Hk1|].
    apply (Hk2 k Hk Ho j). destruct H1 as (-> & _). done.
Qed.

(** The mods a phase has to lock: those with dependencies and those required. *)
Definition must_lock c (i j : nat) : Prop := exists mf, manifest_of c i = Some mf /\
  ((j = i /\ dependencies mf <> []) \/
   exists d, d ∈ dependencies mf /\ optional d = false /\ loaded_mods_by_id c !! dep_mod_id d = Some j).
Lemma check_one_spec e c i : (forall id j, loaded_mods_by_id c !! id = Some j -> (j < length (opened_mods c))%nat) ->
  exists e' c', check_one (e, c) i = (e ++ e', c') /\ only_locks c c' /\ (e' = [] <-> deps_ok c i) /\
  (forall j, must_lock c i j -> locked c' j).
Proof.
  intros Hl. unfold check_one, check_dependencies. destruct (opened_mods c !! i) as [m|] eqn:Em.
  2:{ exists [], c. rewrite app_nil_r. split; [done|]. split; [apply only_locks_refl|]. unfold deps_ok, must_lock, manifest_of. rewrite Em.
      split; [done|]. by intros j (mf & ? & _). }
  assert (manifest_of c i = Some (manifest m)) as Hm by (unfold manifest_of; by rewrite Em).
  set (c1 := match dependencies (manifest m) with [] => c | _ => disable_runtime_toggle i c end).
  assert (only_locks c c1 /\ (dependencies (manifest m) <> [] -> locked c1 i)) as [H1 Hk1].
  { unfold c1. destruct (dependencies (manifest m)); [split; [apply only_locks_refl|done]|].
    destruct (disable_locks c i). by split. }
  clearbody c1. destruct (check_deps_fold (dependencies (manifest m)) [] c1) as (e2 & c2 & -> & H2 & He2 & Hk2).
  { destruct H1 as (-> & _ & -> & _). done. }
  eexists _, c2. split; [reflexivity|]. split; [by eapply only_locks_trans|]. split.
  - transitivity (e2 = []); [split; [apply fmap_nil_inv|by intros ->]|]. rewrite He2. unfold deps_ok. setoid_rewrite (fun d => dep_ok_same c c1 d H1). rewrite Hm.
    split; [by intros H mf [= <-]|]. intros H. by apply H.
  - intros j (mf & Hmf & Hj). rewrite Hm in Hmf. injection Hmf as <-.
    destruct Hj as [[-> Hd]|(d & Hd & Ho & Hj)]; [destruct H2 as (_ & _ & _ & _ & H2); by apply H2, Hk1|].
    apply (Hk2 d Hd Ho). destruct H1 as (-> & _). done.
Qed.

Lemma deps_ok_same c c' i : only_locks c c' -> deps_ok c' i <-> deps_ok c i.
Proof. intros H. unfold deps_ok. setoid_rewrite (fun d => dep_ok_same c c' d H). destruct H as (_ & _ & _ & Em & _). by rewrite Em. Qed.
Lemma check_fold idxs : forall e c, (forall id j, loaded_mods_by_id c !! id = Some j -> (j < length (opened_mods c))%nat) ->
  exists e' c', foldl check_one (e, c) idxs = (e ++ e', c') /\ only_locks c c' /\
  (e' = [] <-> forall i, i ∈ idxs -> deps_ok c i) /\ (forall i j, i ∈ idxs -> must_lock c i j -> locked c' j).
Proof.
  induction idxs as [|i idxs IH]; intros e c Hl; cbn [foldl].
  { exists [], c. rewrite app_nil_r. split; [done|]. split; [apply only_locks_refl|]. split; [|intros i j Hi; by apply elem_of_nil in Hi].
    split; [|done]. intros _ i Hi. by apply elem_of_nil in Hi. }
  destruct (check_one_spec e c i Hl) as (e1 & c1 & -> & H1 & He1 & Hk1).
  destruct (IH (e ++ e1) c1) as (e2 & c2 & -> & H2 & He2 & Hk2).
  { destruct H1 as (-> & _ & -> & _). done. }
  exists (e1 ++ e2), c2. split; [by rewrite <- app_assoc|]. split; [by eapply only_locks_trans|]. split.
  - split.
    + intros [E1 E2]%app_eq_nil k [->|Hk]%elem_of_cons; [by apply He1|]. apply (deps_ok_same c c1 k H1). by apply He2.
    + intros H. assert (e1 = []) as -> by (apply He1, H; constructor). apply He2. intros k Hk. apply (deps_ok_same c c1 k H1), H. by constructor.
  - intros k j [->|Hk]%elem_of_cons Hj; [destruct H2 as (_ & _ & _ & _ & H2); by apply H2, Hk1|].
    apply (Hk2 k j Hk). destruct H1 as (El & _ & _ & Em & _). unfold must_lock. by rewrite El, Em.
Qed.

(** * The load *)

(** What the active mods of a game ask for: a runtime that is new enough and, for
    every required dependency, an active mod in a version that is new enough. *)
Definition requirements_met c (g : nat) : Prop :=
  forall i, i ∈ active_mods g c -> runtime_ok c i /\
  forall mf, manifest_of c i = Some mf -> forall d, d ∈ dependencies mf -> optional d = false ->
  exists j mf', provider c (active_mods g c) (dep_mod_id d) = Some j /\ manifest_of c j = Some mf' /\
    version_ltb (version mf') (dep_version d) = false.

Lemma active_bound g c i : i ∈ active_mods g c -> (i < length (opened_mods c))%nat.
Proof. unfold active_mods. intros [_ H%elem_of_seq]%list_elem_of_filter. lia. Qed.
Lemma unload_spec c : loaded_mods_by_id (unload_mods c) = ∅ /\ active_game (unload_mods c) = None.
Proof. done. Qed.

(** C29: With no mods loaded, the checks of load_mods that come before any code is touched
    report no error exactly when every active mod accepts the runtime's version and finds
    its required dependencies among the active ones in a version new enough; these are then
    found, and locked against toggling; checks with errors leave nothing loaded. The code
    passes that follow have errors of their own. *)
Theorem load_succeeds_iff_requirements_met game_id g c :
  mod_game_ids c !! game_id = Some g -> loaded_mods_by_id c = ∅ ->
  let '(errors, c') := load_phases content_types project_version false game_id c in
  (errors = [] <-> requirements_met c g) /\
  (errors = [] -> forall i m, i ∈ active_mods g c -> opened_mods c' !! i = Some m ->
    (dependencies (manifest m) <> [] -> runtime_toggleable m = false) /\
    forall d, d ∈ dependencies (manifest m) -> optional d = false ->
      (exists j m', loaded_mods_by_id c' !! dep_mod_id d = Some j /\ opened_mods c' !! j = Some m' /\
        runtime_toggleable m' = false) /\
      (find (fun d' => bool_decide (dep_mod_id d' = dep_mod_id d)) (dependencies (manifest m)) = Some d ->
       is_dependency_met m (dep_mod_id d) c' = Found)) /\
  (errors <> [] -> loaded_mods_by_id c' = ∅ /\ active_game c' = None).
Proof.
  intros Hg Hl. unfold load_phases. rewrite Hg.
  destruct (load_fold (active_mods g c) [] c) as (e1 & c1 & -> & Ho1 & Hg1 & Hl1 & He1). simpl ([] ++ e1).
  assert (forall i, manifest_of c1 i = manifest_of c i) as Hm1 by (intros i; unfold manifest_of; by rewrite Ho1).
  assert (forall id, loaded_mods_by_id c1 !! id = provider c (active_mods g c) id) as Hp1.
  { intros id. rewrite Hl1, Hl, lookup_empty. done. }
  destruct e1 as [|x e1].
  2:{ split; [|split; [done|intros _; apply unload_spec]]. split; [done|]. intros H. apply He1. intros i Hi. by apply H. }
  destruct (check_fold (active_mods g c) [] c1) as (e2 & c2 & -> & H2 & He2 & Hk2).
  { intros id j. rewrite Hp1. intros [Hj _]%provider_some. rewrite Ho1. by eapply active_bound. }
  simpl ([] ++ e2).
  assert ((forall i, i ∈ active_mods g c -> deps_ok c1 i) <-> requirements_met c g) as Hreq.
  { unfold deps_ok, dep_ok, requirements_met. setoid_rewrite Hm1. setoid_rewrite Hp1. split.
    - intros H i Hi. split; [by apply He1|by apply H].
    - intros H i Hi. by apply H. }
  destruct e2 as [|x e2]; [|split; [|split; [done|intros _; apply unload_spec]]].
  2:{ split; [done|]. intros H. by apply He2, Hreq. }
  split; [split; [intros _; by apply Hreq, He2|done]|]. split; [|done].
  intros _ i m Hi Em. destruct H2 as (El & _ & _ & Em2 & _).
  assert (manifest_of c1 i = Some (manifest m)) as Hmi by (rewrite <- Em2; unfold manifest_of; by rewrite Em).
  split.
  - intros Hd. eapply (Hk2 i i Hi); [|done]. exists (manifest m). auto.
  - intros d Hd Ho. destruct (proj1 He2 eq_refl i Hi _ Hmi d Hd Ho) as (j & mf & Hj & Hmj & Hv).
    rewrite <- Em2 in Hmj. unfold manifest_of in Hmj. destruct (opened_mods c2 !! j) as [m'|] eqn:Em'; [|done]. injection Hmj as <-.
    split.
    + exists j, m'. rewrite El. split; [done|]. split; [done|]. eapply (Hk2 i j Hi); [|done]. exists (manifest m). split; [done|]. right. by exists d.
    + intros Hf. unfold is_dependency_met. rewrite Hf, El, Hj. simpl. by rewrite Em', Hv.
Qed.
End Load.
