(* ===== verification/ModOrder.v ===== *)
(** Mods: the order.  Moving a mod puts it where it is asked to go, the lookup
    stays the inverse of the order, and the saved order is restored. *)

From Stdlib Require Import ZArith Lia Bool List.
From stdpp Require Import base list gmap strings sorting.
From S2P Require Import Prelude ModManager ModManagerSpec.
Open Scope Z_scope.

(** The order lists every opened mod once, and the lookup inverts it. *)
Definition order_ok (c : ModContext) : Prop := opened_mods_order c ≡ₚ seq 0 (length (opened_mods c)).
Definition lookup_ok (c : ModContext) : Prop :=
  forall i p, get_mod_order_index i c = Some p <-> opened_mods_order c !! p = Some i.

(** * The lookup *)

Definition fill (l : list (option nat)) (off : nat) (o : list nat) : list (option nat) :=
  foldl (fun l '(pos, i) => <[i := Some pos]> l) l (imap (fun p i => ((off + p)%nat, i)) o).
Lemma fill_cons l off i o : fill l off (i :: o) = fill (<[i := Some off]> l) (S off) o.
Proof.
  unfold fill. cbn [imap foldl]. rewrite Nat.add_0_r. f_equal. apply imap_ext. intros p x _. simpl. f_equal. lia.
Qed.
Lemma fill_spec o : forall l off, NoDup o -> (forall i, i ∈ o -> (i < length l)%nat) ->
  length (fill l off o) = length l /\
  (forall p i, o !! p = Some i -> fill l off o !! i = Some (Some (off + p)%nat)) /\
  (forall i, i ∉ o -> fill l off o !! i = l !! i).
Proof.
  induction o as [|x o IH]; intros l off Hd Hb.
  { split; [done|]. split; [by intros p i|done]. }
  rewrite fill_cons. apply NoDup_cons in Hd as [Hx Hd].
  assert (x < length l)%nat as Hxl by (apply Hb; constructor).
  destruct (IH (<[x := Some off]> l) (S off) Hd) as (Hl & Hin & Hout).
  { intros i Hi. rewrite length_insert. apply Hb. by constructor. }
  rewrite length_insert in Hl. split; [done|]. split.
  - intros [|p] i Hi; simpl in Hi.
    + injection Hi as ->. rewrite Hout, Nat.add_0_r by done. by apply list_lookup_insert_eq.
    + rewrite (Hin p i Hi). do 2 f_equal. lia.
  - intros i [Hne Hni]%not_elem_of_cons. rewrite Hout by done. by apply list_lookup_insert_ne.
Qed.
Lemma rebuild_lookup_fill c :
  mod_order_lookup (rebuild_mod_order_lookup c) = fill (replicate (length (opened_mods c)) None) 0 (opened_mods_order c).
Proof. done. Qed.
Lemma order_ok_bound c : order_ok c -> forall i, i ∈ opened_mods_order c <-> (i < length (opened_mods c))%nat.
Proof. unfold order_ok. intros H i. rewrite H, elem_of_seq. lia. Qed.
Lemma order_ok_nodup c : order_ok c -> NoDup (opened_mods_order c).
Proof. unfold order_ok. intros H. rewrite H. apply NoDup_seq. Qed.
Lemma rebuild_lookup_ok c : order_ok c -> lookup_ok (rebuild_mod_order_lookup c).
Proof.
  intros Ho i p. unfold get_mod_order_index. rewrite rebuild_lookup_fill. cbn [opened_mods_order rebuild_mod_order_lookup set_order].
  destruct (fill_spec (opened_mods_order c) (replicate (length (opened_mods c)) None) 0 (order_ok_nodup c Ho)) as (_ & Hin & Hout).
  { intros j Hj. rewrite length_replicate. by apply order_ok_bound. }
  split.
  - intros H. destruct (decide (i ∈ opened_mods_order c)) as [Hi|Hi].
    + apply list_elem_of_lookup in Hi as [q Hq]. pose proof (Hin q i Hq) as E. rewrite E in H. simpl in H. congruence.
    + rewrite Hout in H by done. destruct (replicate _ _ !! i) as [[n|]|] eqn:E; try done. by apply lookup_replicate in E as [? _].
  - intros H. by rewrite (Hin p i H).
Qed.

(** * Moving *)

(** The order with the mod at the position, or last. *)
Definition moved (mod_index index : nat) (order : list nat) : list nat :=
  let others := filter (fun x => x <> mod_index) order in take index others ++ mod_index :: drop index others.

Section Place.
Context (visible : nat -> bool) (m index : nat).
Local Abbreviation others l := (filter (fun x => x <> m) (l : list nat)).

Lemma others_out l : m ∉ l -> others l = l.
Proof. induction l as [|x l IH]; [done|]. intros [? ?]%not_elem_of_cons. rewrite filter_cons_True by done. by rewrite IH. Qed.
Lemma cons_app_assoc (pre : list nat) x l : pre ++ x :: l = (pre ++ [x]) ++ l.
Proof. by rewrite <- app_assoc. Qed.
Lemma length_snoc (pre : list nat) x : length (pre ++ [x]) = S (length pre).
Proof. rewrite length_app. simpl. lia. Qed.
Lemma scan_inserted post : forall fuel pre, (forall x, x ∈ post -> visible x = true) -> m ∈ post -> NoDup post ->
  (index < length pre)%nat -> (length post < fuel)%nat ->
  place_loop fuel visible m index (length pre) (length pre) true false (pre ++ post) = (true, pre ++ others post).
Proof.
  induction post as [|x post IH]; intros fuel pre Hv Hm Hd Hi Hf; [by apply elem_of_nil in Hm|].
  destruct fuel as [|fuel]; [simpl in Hf; lia|]. cbn [place_loop andb].
  rewrite list_lookup_middle by done. rewrite Hv by constructor.
  rewrite (proj2 (Nat.eqb_neq index (length pre))) by lia. apply NoDup_cons in Hd as [Hx Hd].
  destruct (Nat.eqb_spec m x) as [<-|Hne].
  - rewrite delete_middle, filter_cons_False by auto. rewrite others_out by done.
    destruct fuel; [simpl in Hf; lia|]. done.
  - rewrite filter_cons_True by auto. apply elem_of_cons in Hm as [->|Hm]; [done|].
    rewrite <- (length_snoc pre x).
    rewrite (cons_app_assoc pre x post), (cons_app_assoc pre x (others post)).
    apply IH; try done; [intros; apply Hv; by constructor|rewrite length_snoc; lia|simpl in Hf; lia].
Qed.
Lemma scan_erased post : forall fuel pre, (forall x, x ∈ post -> visible x = true) -> m ∉ post ->
  (length pre <= index)%nat -> (length post < fuel)%nat ->
  place_loop fuel visible m index (length pre) (length pre) false true (pre ++ post) =
    (bool_decide (index < length pre + length post)%nat,
     if bool_decide (index < length pre + length post)%nat
     then pre ++ take (index - length pre) post ++ m :: drop (index - length pre) post else pre ++ post).
Proof.
  induction post as [|x post IH]; intros fuel pre Hv Hm Hi Hf; (destruct fuel as [|fuel]; [simpl in Hf; lia|]); cbn [place_loop andb].
  { rewrite bool_decide_false, lookup_ge_None_2 by (rewrite ?length_app; simpl; lia). done. }
  rewrite list_lookup_middle, Hv by (done || constructor). apply not_elem_of_cons in Hm as [Hne Hm].
  destruct (Nat.eqb_spec index (length pre)) as [Hn|Hn].
  - rewrite bool_decide_true by (simpl; lia). rewrite take_app_length', drop_app_length' by lia. replace (index - length pre)%nat with 0%nat by lia.
    destruct fuel; [simpl in Hf; lia|]. done.
  - rewrite (proj2 (Nat.eqb_neq m x)) by done. rewrite <- (length_snoc pre x), (cons_app_assoc pre x post), IH;
      [|by intros; apply Hv; constructor|done|rewrite length_snoc; lia|simpl in Hf; lia].
    rewrite length_snoc. cbn [length].
    replace (S (length pre) + length post)%nat with (length pre + S (length post))%nat by lia.
    case_bool_decide; [|done]. f_equal. rewrite <- app_assoc.
    replace (index - length pre)%nat with (S (index - S (length pre))) by lia. done.
Qed.
Lemma scan post : forall fuel pre, (forall x, x ∈ post -> visible x = true) -> m ∈ post -> NoDup post -> m ∉ pre ->
  (length pre <= index)%nat -> (S (length post) < fuel)%nat ->
  (let '(inserted, order) := place_loop fuel visible m index (length pre) (length pre) false false (pre ++ post) in
   if inserted then order else order ++ [m]) = moved m index (pre ++ post).
Proof.
  induction post as [|x post IH]; intros fuel pre Hv Hm Hd Hp Hi Hf; [by apply elem_of_nil in Hm|].
  destruct fuel as [|fuel]; [simpl in Hf; lia|]. cbn [place_loop andb].
  rewrite list_lookup_middle, Hv by (done || constructor). unfold moved.
  assert (forall l, others (pre ++ l) = pre ++ others l) as Ho by (intros l; rewrite filter_app, others_out; done).
  rewrite Ho. destruct (Nat.eqb_spec index (length pre)) as [Hn|Hn].
  - rewrite !take_app_length', !drop_app_length' by lia.
    rewrite (cons_app_assoc pre m (x :: post)), (cons_app_assoc pre m (others (x :: post))), <- (length_snoc pre m), scan_inserted; try done.
    + rewrite length_snoc. lia.
    + simpl in *. lia.
  - apply NoDup_cons in Hd as [Hx Hd]. destruct (Nat.eqb_spec m x) as [<-|Hne].
    + rewrite delete_middle, filter_cons_False, others_out by auto. rewrite take_app_ge, drop_app_ge by lia.
      destruct post as [|y post].
      { destruct fuel; [simpl in Hf; lia|]. cbn [place_loop andb]. rewrite lookup_ge_None_2 by (rewrite app_nil_r; lia).
        by rewrite take_nil, drop_nil, !app_nil_r. }
      rewrite (cons_app_assoc pre y post), <- (length_snoc pre y), scan_erased; [|by intros; apply Hv; do 2 constructor| | |].
      * rewrite length_snoc. case_bool_decide.
        -- rewrite <- app_assoc. replace (index - length pre)%nat with (S (index - S (length pre))) by lia. by rewrite <- app_assoc.
        -- rewrite take_ge, drop_ge by (simpl; lia). by rewrite <- !app_assoc.
      * by apply not_elem_of_cons in Hx as [_ ?].
      * rewrite length_snoc. lia.
      * simpl in Hf. lia.
    + apply elem_of_cons in Hm as [->|Hm]; [done|].
      rewrite (cons_app_assoc pre x post), <- (length_snoc pre x), IH; try done; [|by intros; apply Hv; constructor|set_solver|rewrite length_snoc; lia|simpl in Hf; lia].
      unfold moved. by rewrite <- cons_app_assoc, Ho.
Qed.
Lemma place_moved order : (forall x, x ∈ order -> visible x = true) -> m ∈ order -> NoDup order ->
  place visible m index order = moved m index order.
Proof.
  intros Hv Hm Hd. unfold place. apply (scan order _ [] Hv Hm Hd); [apply not_elem_of_nil|simpl; lia|lia].
Qed.
End Place.

Lemma others_perm m l : NoDup l -> m ∈ l -> m :: filter (fun x : nat => x <> m) l ≡ₚ l.
Proof.
  intros Hd Hm. apply NoDup_Permutation; [|done|].
  - apply NoDup_cons. split; [rewrite list_elem_of_filter; naive_solver|by apply NoDup_filter].
  - intros x. rewrite elem_of_cons, list_elem_of_filter. destruct (decide (x = m)) as [->|]; naive_solver.
Qed.
Lemma moved_perm m index l : NoDup l -> m ∈ l -> moved m index l ≡ₚ l.
Proof.
  intros Hd Hm. unfold moved. rewrite <- Permutation_middle, take_drop. by apply others_perm.
Qed.
Lemma moved_lookup m index l : NoDup l -> m ∈ l -> moved m index l !! (index `min` (length l - 1))%nat = Some m.
Proof.
  intros Hd Hm. unfold moved. pose proof (Permutation_length (others_perm m l Hd Hm)) as Hl. simpl in Hl.
  apply list_lookup_middle. rewrite length_take. lia.
Qed.
Lemma moved_others m index l : filter (fun x : nat => x <> m) (moved m index l) = filter (fun x : nat => x <> m) l.
Proof.
  unfold moved. rewrite filter_app, filter_cons_False by auto. rewrite <- filter_app, take_drop.
  apply list_filter_filter_l. done.
Qed.

Lemma rebuild_order_ok c : order_ok c -> order_ok (rebuild_mod_order_lookup c).
Proof. done. Qed.
Lemma set_mod_index_order content_types game_id id index c i : opened_mods_by_id c !! id = Some i ->
  opened_mods (set_mod_index content_types game_id id index c) = opened_mods c /\
  opened_mods_order (set_mod_index content_types game_id id index c) = place (shown game_id c) i index (opened_mods_order c) /\
  mod_order_lookup (set_mod_index content_types game_id id index c) =
    mod_order_lookup (rebuild_mod_order_lookup (set_order (place (shown game_id c) i index (opened_mods_order c)) (mod_order_lookup c) c)).
Proof. intros E. unfold set_mod_index. rewrite E. by case_match. Qed.

(** In a view that shows every opened mod, set_mod_index moves the mod to the position asked for or to the end, keeps the others in their order, and the lookup gives each mod its position. *)
Theorem set_mod_index_moves content_types game_id id index c i :
  order_ok c -> opened_mods_by_id c !! id = Some i -> (i < length (opened_mods c))%nat ->
  (forall j, (j < length (opened_mods c))%nat -> shown game_id c j = true) ->
  let c' := set_mod_index content_types game_id id index c in
  order_ok c' /\ lookup_ok c' /\
  get_mod_order_index i c' = Some (index `min` (length (opened_mods c) - 1))%nat /\
  filter (fun j => j <> i) (opened_mods_order c') = filter (fun j => j <> i) (opened_mods_order c).
Proof.
  intros Ho E Hi Hs c'. destruct (set_mod_index_order content_types game_id id index c i E) as (Em & Eo & El). fold c' in Em, Eo, El.
  pose proof (order_ok_nodup c Ho) as Hd. assert (i ∈ opened_mods_order c) as Hin by by apply order_ok_bound.
  rewrite place_moved in Eo, El by (try done; intros x Hx; apply Hs; by apply (order_ok_bound c Ho)).
  set (c0 := set_order (moved i index (opened_mods_order c)) (mod_order_lookup c) c) in *.
  assert (order_ok c0) as Ho0 by (unfold order_ok, c0; simpl; by rewrite moved_perm).
  assert (lookup_ok c') as Hl.
  { intros j p. unfold get_mod_order_index. rewrite El, Eo. apply (rebuild_lookup_ok c0 Ho0 j p). }
  split; [|split; [done|split]].
  - unfold order_ok. rewrite Em, Eo. exact Ho0.
  - apply Hl. rewrite Eo. pose proof (Permutation_length Ho) as Hn. rewrite length_seq in Hn. rewrite <- Hn. by apply moved_lookup.
  - rewrite Eo. apply moved_others.
Qed.

(** * Opening and the saved order *)

(** Ids name opened mods, and every opened mod has its id registered. *)
Definition ids_ok (c : ModContext) : Prop :=
  (forall id i, opened_mods_by_id c !! id = Some i -> exists m, opened_mods c !! i = Some m /\ mod_id (manifest m) = id) /\
  (forall m, m ∈ opened_mods c -> is_Some (opened_mods_by_id c !! mod_id (manifest m))).
Lemma add_opened_mod_ok content_types m games types c : ids_ok c -> order_ok c ->
  ids_ok (add_opened_mod content_types m games types c) /\ order_ok (add_opened_mod content_types m games types c).
Proof.
  intros [H1 H2] Ho. split; [split|].
  - intros id i. unfold add_opened_mod, emplace. cbn [opened_mods opened_mods_by_id]. intros H.
    assert (opened_mods_by_id c !! id = Some i \/ (i = length (opened_mods c) /\ id = mod_id m)) as [H'|[-> ->]].
    { case_match; [by left|]. apply lookup_insert_Some in H as [[<- <-]|[_ ?]]; [by right|by left]. }
    + destruct (H1 id i H') as (m' & E & Hid). exists m'. split; [|done]. by apply lookup_app_l_Some.
    + exists (new_handle content_types m types games). split; [|done]. by rewrite list_lookup_middle.
  - intros m'. unfold add_opened_mod, emplace. cbn [opened_mods opened_mods_by_id].
    intros [Hin|Hin]%elem_of_app; [apply H2 in Hin|apply list_elem_of_singleton in Hin as ->]; cbn [manifest new_handle].
    + case_match; [done|]. apply lookup_insert_is_Some'. by right.
    + case_match; [done|]. apply lookup_insert_is_Some'. by left.
  - unfold order_ok in *. cbn [opened_mods_order opened_mods add_opened_mod]. rewrite length_app, seq_app, Ho. done.
Qed.

Lemma relative_order_snoc c l id : relative_order c (l ++ [id]) =
  match opened_mods_by_id c !! id with
  | Some i => <[i := (length (opened_mods c) + length l)%nat]> (relative_order c l)
  | None => relative_order c l
  end.
Proof. unfold relative_order. rewrite imap_app, foldl_app. simpl. by rewrite Nat.add_0_r. Qed.
(** The last position at which the configuration names the mod. *)
Definition saved_at (c : ModContext) (config_order : list string) (i pos : nat) : Prop :=
  (exists id, config_order !! pos = Some id /\ opened_mods_by_id c !! id = Some i) /\
  forall p id, (pos < p)%nat -> config_order !! p = Some id -> opened_mods_by_id c !! id <> Some i.
Lemma is_known_spec c l i : is_known c l i = true <-> exists id, id ∈ l /\ opened_mods_by_id c !! id = Some i.
Proof.
  unfold is_known. rewrite existsb_exists. split; intros (id & H1 & H2); exists id.
  - apply list_elem_of_In in H1. apply bool_decide_eq_true in H2. done.
  - split; [by apply list_elem_of_In|]. by apply bool_decide_eq_true.
Qed.
Lemma relative_order_spec c l : ids_ok c ->
  length (relative_order c l) = length (opened_mods c) /\
  forall i, (i < length (opened_mods c))%nat ->
    (is_known c l i = false -> relative_order c l !! i = Some i) /\
    (forall pos, saved_at c l i pos -> relative_order c l !! i = Some (length (opened_mods c) + pos)%nat).
Proof.
  intros [Hids _]. induction l as [|id l IHl] using rev_ind.
  { unfold relative_order. simpl. rewrite length_seq. split; [done|]. intros i Hi. split.
    - intros _. by apply lookup_seq.
    - by intros pos ((id & ? & _) & _). }
  destruct IHl as [Hl IH]. rewrite relative_order_snoc. split; [by case_match; rewrite ?length_insert|]. intros i Hi. destruct (IH i Hi) as [Hu Hk].
  assert (is_known c (l ++ [id]) i = is_known c l i || bool_decide (opened_mods_by_id c !! id = Some i)) as Ek.
  { unfold is_known. rewrite existsb_app. simpl. by rewrite orb_false_r. }
  assert (forall pos, saved_at c (l ++ [id]) i pos -> opened_mods_by_id c !! id <> Some i -> saved_at c l i pos) as Hs.
  { intros pos [(id' & Hp & Hi') Hlast] Hne. apply lookup_app_Some in Hp as [Hp|[_ Hp]].
    - split; [by exists id'|]. intros p id2 Hlt Hp2. apply (Hlast p id2 Hlt). by apply lookup_app_l_Some.
    - apply list_lookup_singleton_Some in Hp as [_ <-]. done. }
  assert (forall pos, saved_at c (l ++ [id]) i pos -> opened_mods_by_id c !! id = Some i -> pos = length l) as He.
  { intros pos [(id' & Hp & Hi') Hlast] He. pose proof (lookup_lt_Some _ _ _ Hp) as Hb. rewrite length_app in Hb. simpl in Hb.
    destruct (decide (pos < length l)%nat) as [Hlt|]; [|lia]. exfalso. apply (Hlast (length l) id); [done| |done].
    by apply list_lookup_middle. }
  destruct (opened_mods_by_id c !! id) as [j|] eqn:Ej; [|split].
  - destruct (decide (j = i)) as [->|Hne].
    + rewrite list_lookup_insert_eq by lia. split; [rewrite Ek, bool_decide_true by done; by rewrite orb_true_r|].
      intros pos Hp. by rewrite (He pos Hp).
    + rewrite list_lookup_insert_ne by done. rewrite Ek, bool_decide_false by congruence. rewrite orb_false_r.
      split; [done|]. intros pos Hp. apply Hk, Hs; [done|congruence].
  - rewrite Ek, bool_decide_false by done. rewrite orb_false_r. done.
  - intros pos Hp. apply Hk, Hs; done.
Qed.

(** [a] runs before [b]. *)
Definition before (c : ModContext) (a b : nat) : Prop :=
  exists p q, get_mod_order_index a c = Some p /\ get_mod_order_index b c = Some q /\ (p < q)%nat.
#[export] Instance order_le_total key : Total (order_le key).
Proof. intros a b. unfold order_le. lia. Qed.
#[export] Instance order_le_trans key : Transitive (order_le key).
Proof. intros a b d. unfold order_le. lia. Qed.
Definition sorted_mods (c : ModContext) (config_order : list string) : list nat :=
  merge_sort (order_le (relative_order c config_order)) (seq 0 (length (opened_mods c))).
Lemma StronglySorted_lookup {A} (R : A -> A -> Prop) (l : list A) : StronglySorted R l ->
  forall p q a b, (p < q)%nat -> l !! p = Some a -> l !! q = Some b -> R a b.
Proof.
  induction 1 as [|x l Hs IH Hx]; intros [|p] [|q] a b Hpq Ha Hb; simpl in *; try done; try lia.
  - injection Ha as ->. rewrite Forall_forall in Hx. apply Hx. by eapply list_elem_of_lookup_2.
  - apply (IH p q); [lia|done|done].
Qed.
Lemma sorted_before c l a b ka kb : order_ok c -> lookup_ok c -> opened_mods_order c = sorted_mods c l ->
  relative_order c l !! a = Some ka -> relative_order c l !! b = Some kb -> (ka < kb)%nat ->
  (a < length (opened_mods c))%nat -> (b < length (opened_mods c))%nat -> before c a b.
Proof.
  intros Ho Hl E Ea Eb Hk Ha Hb. apply (order_ok_bound c Ho), list_elem_of_lookup in Ha as [p Hp].
  apply (order_ok_bound c Ho), list_elem_of_lookup in Hb as [q Hq].
  exists p, q. split; [by apply Hl|]. split; [by apply Hl|].
  destruct (decide (p < q)%nat) as [|Hge]; [done|]. exfalso.
  destruct (decide (p = q)) as [->|Hne]; [assert (a = b) by congruence; subst b; assert (ka = kb) by congruence; lia|].
  rewrite E in Hp, Hq. pose proof (StronglySorted_merge_sort (order_le (relative_order c l)) (seq 0 (length (opened_mods c)))) as Hs.
  pose proof (StronglySorted_lookup _ _ Hs q p b a ltac:(lia) Hq Hp) as H. unfold order_le in H. rewrite Ea, Eb in H. simpl in H. lia.
Qed.

(** The mods the configuration turns on, new ones that opt in included. *)
Definition config_picks (c : ModContext) (config_enabled : gset string) (config_order : list string) (i : nat) : option string :=
  m ← opened_mods c !! i;
  if (negb (is_known c config_order i) && enabled_by_default (manifest m)) || bool_decide (mod_id (manifest m) ∈ config_enabled)
  then Some (mod_id (manifest m)) else None.
Definition picked (c : ModContext) (config_enabled : gset string) (config_order : list string) : list string :=
  omap (config_picks c config_enabled config_order) (seq 0 (length (opened_mods c))).
Lemma load_mods_config_toggles content_types e l c :
  let c0 := rebuild_mod_order_lookup (set_order (sorted_mods c l) (mod_order_lookup c) c) in
  load_mods_config content_types e l c = toggle_all content_types ((fun id => (id, true, false)) <$> picked c e l) c0.
Proof.
  unfold load_mods_config, toggle_all, picked. fold (sorted_mods c l).
  set (c0 := rebuild_mod_order_lookup _). change (opened_mods c0) with (opened_mods c).
  assert (forall i, is_known c0 l i = is_known c l i) as Ek by done.
  generalize (Some c0). induction (seq 0 (length (opened_mods c))) as [|i l' IH]; intros oc; [done|].
  cbn [foldl omap list_omap]. rewrite IH. clear IH. unfold config_picks at 2. rewrite Ek.
  destruct (opened_mods c !! i) as [m|]; simpl; [|by destruct oc].
  destruct (_ || _); simpl; [by destruct oc|by destruct oc].
Qed.
Lemma toggled_all_enable c ids : active_game c = None -> (forall id, id ∈ ids -> is_Some (opened c id)) ->
  toggled_all ((fun id => (id, true, false)) <$> ids) c = list_to_set ids ∪ enabled_mods c.
Proof.
  intros Hg. induction ids as [|id ids IH] using rev_ind; intros Hids; [set_solver|].
  unfold toggled_all in *. rewrite fmap_app, foldl_app, IH by (intros; apply Hids; set_solver). clear IH. cbn [fmap list_fmap foldl].
  unfold toggled, can_toggle. destruct (Hids id ltac:(set_solver)) as [m E].
  change (opened (set_enabled _ _ c) id) with (opened c id). rewrite E. cbn [active_game set_enabled enabled_mods]. rewrite Hg.
  rewrite list_to_set_app_L. set_solver.
Qed.
Lemma picked_opened c e l : ids_ok c -> forall id, id ∈ picked c e l -> is_Some (opened c id).
Proof.
  intros [H1 H2] id Hin. unfold picked in Hin. apply list_elem_of_omap in Hin as (i & _ & E).
  unfold config_picks in E. destruct (opened_mods c !! i) as [m|] eqn:Em; [|done]. simpl in E. destruct (_ || _); [|done].
  injection E as <-. destruct (H2 m) as [j Ej]; [by eapply list_elem_of_lookup_2|]. unfold opened. rewrite Ej. simpl.
  destruct (H1 _ _ Ej) as (m' & -> & _). done.
Qed.

(** Loading the saved configuration ends with the new mods first, those it names after them in its order, exactly the mods it enables and the new ones that opt in turned on, and what they need enabled with them. *)
Theorem load_mods_config_restores content_types e l c :
  ids_ok c -> auto_exact c -> active_game c = None -> exists c',
  load_mods_config content_types e l c = Some c' /\ auto_exact c' /\ order_ok c' /\ lookup_ok c' /\
  enabled_mods c' = list_to_set (picked c e l) ∪ enabled_mods c /\
  forall a b, (a < length (opened_mods c))%nat -> (b < length (opened_mods c))%nat ->
    (is_known c l a = false -> is_known c l b = false -> (a < b)%nat -> before c' a b) /\
    (is_known c l a = false -> forall pb, saved_at c l b pb -> before c' a b) /\
    (forall pa pb, saved_at c l a pa -> saved_at c l b pb -> (pa < pb)%nat -> before c' a b).
Proof.
  intros Hids Ha Hg. rewrite load_mods_config_toggles. cbv zeta.
  set (c0 := rebuild_mod_order_lookup (set_order (sorted_mods c l) (mod_order_lookup c) c)).
  assert (order_ok c0) as Ho0 by apply merge_sort_Permutation.
  pose proof (rebuild_lookup_ok _ Ho0) as Hl0. change (lookup_ok c0) in Hl0.
  destruct (toggle_all_spec content_types ((fun id => (id, true, false)) <$> picked c e l) c0 Ha) as (c' & E & Ha' & Hs & He).
  destruct Hs as (E1 & E2 & E3 & E4 & _).
  assert (order_ok c') as Ho' by (unfold order_ok; rewrite E1, E3; exact Ho0).
  assert (lookup_ok c') as Hl' by (unfold lookup_ok, get_mod_order_index; rewrite E3, E4; exact Hl0).
  exists c'. split; [done|]. split; [done|]. split; [done|]. split; [done|]. split.
  { rewrite He. apply (toggled_all_enable c0); [done|]. by apply picked_opened. }
  destruct (relative_order_spec c l Hids) as [_ Hk].
  assert (forall a b ka kb, (a < length (opened_mods c))%nat -> (b < length (opened_mods c))%nat ->
    relative_order c l !! a = Some ka -> relative_order c l !! b = Some kb -> (ka < kb)%nat -> before c' a b) as Hb.
  { intros a b ka kb Hla Hlb Hka Hkb Hlt. unfold before, get_mod_order_index. rewrite E4.
    by apply (sorted_before c0 l a b ka kb). }
  intros a b Hla Hlb. destruct (Hk a Hla) as [Hua Hka]. destruct (Hk b Hlb) as [Hub Hkb]. split; [|split].
  - intros Hna Hnb Hab. eapply Hb; [done|done|by apply Hua|by apply Hub|done].
  - intros Hna pb Hpb. eapply Hb; [done|done|by apply Hua|by apply Hkb|lia].
  - intros pa pb Hpa Hpb Hlt. eapply Hb; [done|done|by apply Hka|by apply Hkb|lia].
Qed.
