(* ===== verification/Events.v ===== *)
(** Hardware events and the video interface: ultramodern/src/events.cpp.

    Three host threads stand for the hardware: one ticks the video interface, one
    renders display lists, one runs the other tasks of the signal processor.  The
    game registers a queue and a message for each event, sets the next frame's
    video state, and submits tasks.  A tick, the start and the end of a display
    list, and a task are one step each; clocks, the renderer and the callbacks of
    the front end are outside, and calls to the renderer are recorded. *)

From Stdlib Require Import ZArith Lia Bool List.
From stdpp Require Import base list gmap.
From S2P Require Import Prelude Vec128 Rdram RspMem RspCore GuestMem Kernel MesgQueue.
Open Scope Z_scope.

(** * Video interface *)

Record OSViCommonRegs := MkCommon {
  ctrl : Z; width : Z; burst : Z; vSync : Z; hSync : Z; leap : Z; hStart : Z; xScale : Z; vCurrent : Z }.
Record OSViFieldRegs := MkField { fld_origin : Z; yScale : Z; vStart : Z; vBurst : Z; vIntr : Z }.
Record OSViMode := MkMode { comRegs : OSViCommonRegs; fldRegs : OSViFieldRegs * OSViFieldRegs }.

Definition load_u32 (a : Z) (m : hostmem) : Z := load 4 a m.
Definition load_common (a : Z) (m : hostmem) : OSViCommonRegs :=
  MkCommon (load_u32 a m) (load_u32 (a + 4) m) (load_u32 (a + 8) m) (load_u32 (a + 12) m) (load_u32 (a + 16) m)
    (load_u32 (a + 20) m) (load_u32 (a + 24) m) (load_u32 (a + 28) m) (load_u32 (a + 32) m).
Definition load_field (a : Z) (m : hostmem) : OSViFieldRegs :=
  MkField (load_u32 a m) (load_u32 (a + 4) m) (load_u32 (a + 8) m) (load_u32 (a + 12) m) (load_u32 (a + 16) m).
(** The type's four bytes come first. *)
Definition load_mode (p : Z) (m : hostmem) : OSViMode :=
  let a := to_off p in MkMode (load_common (a + 4) m) (load_field (a + 40) m, load_field (a + 60) m).

Definition dummy_mode : OSViMode :=
  let f := MkField 0x280 0x400 0x2501FF 0xE0204 0x2 in
  MkMode (MkCommon (Z.lor 0x2 (Z.lor 0x4 (Z.lor 0x8 (Z.lor 0x10 (Z.lor 0x100 0x3000)))))
            0x140 0x03E52239 0x20D 0xC15 0x0C150C15 0x006C02EC 0x200 0) (f, f).

(** A mode is the dummy or one in guest memory, which is read when it is used. *)
Inductive mode_ptr := Dummy_mode | Guest_mode (p : Z).
Definition view_mode (m : hostmem) (p : mode_ptr) : OSViMode :=
  match p with Dummy_mode => dummy_mode | Guest_mode p => load_mode p m end.

Record ViState := MkVi {
  vi_mode : option mode_ptr; framebuffer : Z; vi_mq : Z; vi_msg : Z; vi_flags : Z; vi_control : Z; retrace_count : Z }.
Definition VI_STATE_BLACK : Z := 0x20.
Definition VI_STATE_REPEATLINE : Z := 0x40.

Record ViRegs := MkRegs {
  VI_STATUS_REG : Z; VI_ORIGIN_REG : Z; VI_WIDTH_REG : Z; VI_INTR_REG : Z; VI_V_CURRENT_LINE_REG : Z; VI_TIMING_REG : Z;
  VI_V_SYNC_REG : Z; VI_H_SYNC_REG : Z; VI_LEAP_REG : Z; VI_H_START_REG : Z; VI_V_START_REG : Z; VI_V_BURST_REG : Z;
  VI_X_SCALE_REG : Z; VI_Y_SCALE_REG : Z }.

(** [states] is indexed by [cur_state]; nothing changes [field]. *)
Record vi_context := MkViContext {
  cur_state : Z; field : Z; states : ViState * ViState; regs : ViRegs; update_screen_regs : ViRegs }.
Definition state_at (i : Z) (v : vi_context) : ViState := if i =? 0 then fst (states v) else snd (states v).
Definition set_state_at (i : Z) (x : ViState) (v : vi_context) : vi_context :=
  MkViContext (cur_state v) (field v) (if i =? 0 then (x, snd (states v)) else (fst (states v), x)) (regs v) (update_screen_regs v).
Definition get_cur_state (v : vi_context) : ViState := state_at (cur_state v) v.
Definition get_next_state (v : vi_context) : ViState := state_at (Z.lxor (cur_state v) 1) v.
Definition set_next_state (x : ViState) (v : vi_context) : vi_context := set_state_at (Z.lxor (cur_state v) 1) x v.

(** [osVirtualToPhysical] of ultramodern/src/misc_ultra.cpp. *)
Definition osVirtualToPhysical (addr : Z) : Z :=
  let v := u32 addr in
  if (v >=? 0x80000000) && (v <? 0xC0000000) then Z.land v 0x1FFFFFFF else v.

(** The registers a state asks for in a field. *)
Definition stage (m : hostmem) (field current_line : Z) (p : mode_ptr) (x : ViState) : ViRegs :=
  let mode := view_mode m p in
  let common := comRegs mode in
  let f := if field =? 0 then fst (fldRegs mode) else snd (fldRegs mode) in
  let fb := osVirtualToPhysical (framebuffer x) in
  let origin := if negb (Z.land (vi_flags x) VI_STATE_REPEATLINE =? 0) then fb else u32 (fb + fld_origin f) in
  let h := if negb (Z.land (vi_flags x) VI_STATE_BLACK =? 0) then 0 else hStart common in
  MkRegs (vi_control x) origin (width common) (vIntr f) current_line (burst common) (vSync common) (hSync common) (leap common)
    h (vStart f) (vBurst f) (xScale common) (yScale f).
(** [None]: the mode is a null pointer. *)
Definition update_vi (m : hostmem) (v : vi_context) : option vi_context :=
  let next := get_next_state v in
  match vi_mode next with
  | None => None
  | Some p =>
      let v := MkViContext (cur_state v) (field v) (states v) (stage m (field v) (VI_V_CURRENT_LINE_REG (regs v)) p next) (update_screen_regs v) in
      let v := MkViContext (Z.lxor (cur_state v) 1) (field v) (states v) (regs v) (update_screen_regs v) in
      Some (set_next_state (get_cur_state v) v)
  end.

(** ** The game's calls: each changes the next state *)

Definition osViSetEvent (mq msg count : Z) (x : ViState) : ViState :=
  MkVi (vi_mode x) (framebuffer x) mq msg (vi_flags x) (vi_control x) (s32 count).
Definition set_dummy_vi (odd : bool) (x : ViState) : ViState :=
  MkVi (Some Dummy_mode) (s32 (if odd then 0x80725800 else 0x80700000)) (vi_mq x) (vi_msg x) (vi_flags x) (vi_control x) (retrace_count x).
Definition osViSwapBuffer (fb : Z) (x : ViState) : ViState :=
  MkVi (vi_mode x) fb (vi_mq x) (vi_msg x) (vi_flags x) (vi_control x) (retrace_count x).
Definition set_vi_control (c : Z) (x : ViState) : ViState :=
  MkVi (vi_mode x) (framebuffer x) (vi_mq x) (vi_msg x) (vi_flags x) c (retrace_count x).
Definition set_vi_flags (f : Z) (x : ViState) : ViState :=
  MkVi (vi_mode x) (framebuffer x) (vi_mq x) (vi_msg x) f (vi_control x) (retrace_count x).
Definition osViSetMode (m : hostmem) (mode : Z) (x : ViState) : ViState :=
  MkVi (Some (Guest_mode mode)) (framebuffer x) (vi_mq x) (vi_msg x) (vi_flags x) (ctrl (comRegs (load_mode mode m))) (retrace_count x).

Definition VI_CTRL_GAMMA_DITHER_ON : Z := 0x4.
Definition VI_CTRL_GAMMA_ON : Z := 0x8.
Definition VI_CTRL_DIVOT_ON : Z := 0x10.
Definition VI_CTRL_ANTIALIAS_MASK : Z := 0x300.
Definition VI_CTRL_DITHER_FILTER_ON : Z := 0x10000.
(** [control &= ~bits] on 32 bits. *)
Definition clear_bits (bits control : Z) : Z := Z.land control (Z.lxor bits 0xFFFFFFFF).
Definition feature (func bit : Z) : bool := negb (Z.land func bit =? 0).
(** A pair of bits of the request turns a bit of the register on, then off. *)
Definition on_off (func on off bit control : Z) : Z :=
  let control := if feature func on then Z.lor control bit else control in
  if feature func off then clear_bits bit control else control.
(** [None]: turning the dither filter off reads the mode, which is null. *)
Definition osViSetSpecialFeatures (m : hostmem) (func : Z) (x : ViState) : option ViState :=
  let c := vi_control x in
  let c := on_off func 0x01 0x02 VI_CTRL_GAMMA_ON c in
  let c := on_off func 0x04 0x08 VI_CTRL_GAMMA_DITHER_ON c in
  let c := on_off func 0x10 0x20 VI_CTRL_DIVOT_ON c in
  let c := if feature func 0x40 then clear_bits VI_CTRL_ANTIALIAS_MASK (Z.lor c VI_CTRL_DITHER_FILTER_ON) else c in
  if feature func 0x80 then
    match vi_mode x with
    | None => None
    | Some p => Some (set_vi_control (Z.lor (clear_bits VI_CTRL_DITHER_FILTER_ON c) (Z.land (ctrl (comRegs (view_mode m p))) VI_CTRL_ANTIALIAS_MASK)) x)
    end
  else Some (set_vi_control c x).
Definition osViBlack (active : Z) (x : ViState) : ViState :=
  set_vi_flags (if negb (u8 active =? 0) then Z.lor (vi_flags x) VI_STATE_BLACK else clear_bits VI_STATE_BLACK (vi_flags x)) x.
Definition osViRepeatLine (active : Z) (x : ViState) : ViState :=
  set_vi_flags (if negb (u8 active =? 0) then Z.lor (vi_flags x) VI_STATE_REPEATLINE else clear_bits VI_STATE_REPEATLINE (vi_flags x)) x.
Definition osViGetNextFramebuffer (v : vi_context) : Z := framebuffer (get_next_state v).
Definition osViGetCurrentFramebuffer (v : vi_context) : Z := framebuffer (get_cur_state v).

(** * Events *)

(** [sp], [dp], [ai], [si]: the queue and the message registered for each. *)
Record slots := MkSlots { sp_slot : Z * Z; dp_slot : Z * Z; ai_slot : Z * Z; si_slot : Z * Z }.
Definition OS_EVENT_SP : Z := 4.
Definition OS_EVENT_SI : Z := 5.
Definition OS_EVENT_AI : Z := 6.
Definition OS_EVENT_DP : Z := 9.
Definition osSetEventMesg (event_id mq msg : Z) (x : slots) : slots :=
  if event_id =? OS_EVENT_SP then MkSlots (mq, msg) (dp_slot x) (ai_slot x) (si_slot x)
  else if event_id =? OS_EVENT_DP then MkSlots (sp_slot x) (mq, msg) (ai_slot x) (si_slot x)
  else if event_id =? OS_EVENT_AI then MkSlots (sp_slot x) (dp_slot x) (mq, msg) (si_slot x)
  else if event_id =? OS_EVENT_SI then MkSlots (sp_slot x) (dp_slot x) (ai_slot x) (mq, msg)
  else x.
(** The first [count] entries of the table. *)
Definition ultramodern_get_event_queues (count : nat) (x : slots) (v : vi_context) : list Z :=
  take count [u32 (fst (sp_slot x)); u32 (fst (dp_slot x)); u32 (fst (ai_slot x)); u32 (fst (si_slot x)); u32 (vi_mq (get_cur_state v))].

(** What the graphics thread is asked to do. *)
Inductive Action := SpTaskAction (task : OSTask) | ScreenUpdateAction (r : ViRegs) | UpdateConfigAction.
Inductive render_call := Enable_instant_present | Send_dl (task : OSTask) | Update_screen (r : ViRegs) | Update_config.

Record vi_thread := MkViThread { odd : bool; remaining_retraces : Z; total_vis : Z }.
Record counters := MkCounters {
  g_sp_complete : Z; g_dp_complete : Z; g_submit_gfx : Z; g_submit_audio : Z; g_submit_other : Z;
  g_dl_entry : Z; g_dl_exit : Z }.

Section Events.
Context {Q : Type} {EQ : ExtQueue Q} (RO : RdramOps hostmem).
Context (get_rsp_microcode : hostmem -> OSTask -> option (hostmem -> dmem_t -> Z -> RspExitReason * hostmem * dmem_t)).

(** [rendering] is the list the graphics thread is sending; the order of the two
    task queues is not relied on. *)
Record events := MkEvents {
  vi : vi_context; vit : vi_thread; ev : slots; action_queue : list Action; sp_task_queue : list (option Z);
  rendering : option OSTask; instant_present : bool; render_log : list render_call;
  ext : external Q; kern : kstate; sp_status : Z * Z; dmem : dmem_t; cnt : counters }.

Definition with_vi (v : vi_context) (s : events) : events :=
  MkEvents v (vit s) (ev s) (action_queue s) (sp_task_queue s) (rendering s) (instant_present s) (render_log s) (ext s) (kern s) (sp_status s) (dmem s) (cnt s).
Definition with_vit (t : vi_thread) (s : events) : events :=
  MkEvents (vi s) t (ev s) (action_queue s) (sp_task_queue s) (rendering s) (instant_present s) (render_log s) (ext s) (kern s) (sp_status s) (dmem s) (cnt s).
Definition with_ev (e : slots) (s : events) : events :=
  MkEvents (vi s) (vit s) e (action_queue s) (sp_task_queue s) (rendering s) (instant_present s) (render_log s) (ext s) (kern s) (sp_status s) (dmem s) (cnt s).
Definition with_actions (a : list Action) (s : events) : events :=
  MkEvents (vi s) (vit s) (ev s) a (sp_task_queue s) (rendering s) (instant_present s) (render_log s) (ext s) (kern s) (sp_status s) (dmem s) (cnt s).
Definition with_tasks (t : list (option Z)) (s : events) : events :=
  MkEvents (vi s) (vit s) (ev s) (action_queue s) t (rendering s) (instant_present s) (render_log s) (ext s) (kern s) (sp_status s) (dmem s) (cnt s).
Definition with_rendering (r : option OSTask) (l : list render_call) (i : bool) (s : events) : events :=
  MkEvents (vi s) (vit s) (ev s) (action_queue s) (sp_task_queue s) r i (render_log s ++ l) (ext s) (kern s) (sp_status s) (dmem s) (cnt s).
Definition with_ext (e : external Q) (s : events) : events :=
  MkEvents (vi s) (vit s) (ev s) (action_queue s) (sp_task_queue s) (rendering s) (instant_present s) (render_log s) e (kern s) (sp_status s) (dmem s) (cnt s).
Definition with_kern (k : kstate) (s : events) : events :=
  MkEvents (vi s) (vit s) (ev s) (action_queue s) (sp_task_queue s) (rendering s) (instant_present s) (render_log s) (ext s) k (sp_status s) (dmem s) (cnt s).
Definition with_sp (p : Z * Z) (m : hostmem) (d : dmem_t) (s : events) : events :=
  MkEvents (vi s) (vit s) (ev s) (action_queue s) (sp_task_queue s) (rendering s) (instant_present s) (render_log s) (ext s) (set_mem (kern s) m) p d (cnt s).
Definition with_cnt (c : counters) (s : events) : events :=
  MkEvents (vi s) (vit s) (ev s) (action_queue s) (sp_task_queue s) (rendering s) (instant_present s) (render_log s) (ext s) (kern s) (sp_status s) (dmem s) c.

(** A post by a thread of the host, which is no game thread. *)
Definition post_from_host (slot : Z * Z) (coalescible : bool) (s : events) : events :=
  with_ext (fst (post_rcp_event false (fst slot) (snd slot) coalescible (ext s) (kern s))) s.
(** [recomp_rsp_mark_sp_task_complete] on the flags and guest memory. *)
Definition mark_complete (task_type : Z) (s : events) : events :=
  let p := mark_sp_task_complete task_type (SpState (fst (sp_status s)) (snd (sp_status s)) (Some (mem (kern s)))) in
  with_sp (g_sp_status p, preempt_skip_budget p) (default (mem (kern s)) (sp_rdram p)) (dmem s) s.
Definition sp_complete (task_type : Z) (s : events) : events :=
  let s := post_from_host (sp_slot (ev s)) false (mark_complete task_type s) in
  let c := cnt s in
  with_cnt (MkCounters (u64 (g_sp_complete c + 1)) (g_dp_complete c) (g_submit_gfx c) (g_submit_audio c) (g_submit_other c) (g_dl_entry c) (g_dl_exit c)) s.
Definition dp_complete (task_type : Z) (s : events) : events :=
  let s := post_from_host (dp_slot (ev s)) false (mark_complete task_type s) in
  let c := cnt s in
  with_cnt (MkCounters (g_sp_complete c) (u64 (g_dp_complete c + 1)) (g_submit_gfx c) (g_submit_audio c) (g_submit_other c) (g_dl_entry c) (g_dl_exit c)) s.
(** A post by whichever thread runs: a game thread sends directly, without
    blocking, and drops the result. *)
Definition post_event (game : bool) (slot : Z * Z) (coalescible : bool) (s : events) : option events :=
  let '(e, o) := post_rcp_event game (fst slot) (snd slot) coalescible (ext s) (kern s) in
  match o with Done _ k => Some (with_kern k (with_ext e s)) | _ => None end.
Definition send_si_message (game : bool) (s : events) : option events := post_event game (si_slot (ev s)) false s.

(** ** Tasks *)

Definition M_AUDTASK : Z := 2.
(** The fields of a task in guest memory that are used. *)
Definition load_task_at (p : Z) (m : hostmem) : OSTask :=
  let a := to_off p in
  MkOSTask (load_u32 a m) (load_s32 (a + 16) m) (load_s32 (a + 24) m) (load_u32 (a + 28) m) (map (fun i => u8 (hbyte m (a + Z.of_nat i))) (seq 0 64)).
Definition submit_rsp_task (p : Z) (s : events) : events :=
  let t := load_task_at p (mem (kern s)) in
  let c := cnt s in
  if task_type t =? M_GFXTASK then
    let s := with_cnt (MkCounters (g_sp_complete c) (g_dp_complete c) (u64 (g_submit_gfx c + 1)) (g_submit_audio c) (g_submit_other c) (g_dl_entry c) (g_dl_exit c)) s in
    with_actions (action_queue s ++ [SpTaskAction t]) s
  else
    let s := with_cnt (if task_type t =? M_AUDTASK
                       then MkCounters (g_sp_complete c) (g_dp_complete c) (g_submit_gfx c) (u64 (g_submit_audio c + 1)) (g_submit_other c) (g_dl_entry c) (g_dl_exit c)
                       else MkCounters (g_sp_complete c) (g_dp_complete c) (g_submit_gfx c) (g_submit_audio c) (u64 (g_submit_other c + 1)) (g_dl_entry c) (g_dl_exit c)) s in
    with_tasks (sp_task_queue s ++ [Some p]) s.

(** One round of [task_thread_func] on a task taken from its queue; a task
    without microcode, or whose microcode fails, is reported all the same. *)
Definition task_round (p : Z) (s : events) : events :=
  let '(_, m, d) := run_task get_rsp_microcode (mem (kern s)) (load_task_at p (mem (kern s))) (dmem s) in
  let s := with_sp (sp_status s) m d s in
  sp_complete (task_type (load_task_at p (mem (kern s)))) s.

(** One round of [gfx_thread_func] on an action taken from its queue, up to the
    call that renders a display list, and from there. *)
Definition gfx_start (game_started : bool) (a : Action) (s : events) : events :=
  match a with
  | SpTaskAction t =>
      let first := game_started && negb (instant_present s) in
      let s := with_rendering (rendering s) (if first then [Enable_instant_present] else []) (instant_present s || first) s in
      let s := sp_complete (task_type t) s in
      let c := cnt s in
      let s := with_cnt (MkCounters (g_sp_complete c) (g_dp_complete c) (g_submit_gfx c) (g_submit_audio c) (g_submit_other c) (u64 (g_dl_entry c + 1)) (g_dl_exit c)) s in
      with_rendering (Some t) [Send_dl t] (instant_present s) s
  | ScreenUpdateAction r =>
      let v := vi s in
      with_rendering (rendering s) [Update_screen r] (instant_present s)
        (with_vi (MkViContext (cur_state v) (field v) (states v) (regs v) r) s)
  | UpdateConfigAction => with_rendering (rendering s) [Update_config] (instant_present s) s
  end.
Definition gfx_finish (t : OSTask) (s : events) : events :=
  let c := cnt s in
  let s := with_cnt (MkCounters (g_sp_complete c) (g_dp_complete c) (g_submit_gfx c) (g_submit_audio c) (g_submit_other c) (g_dl_entry c) (u64 (g_dl_exit c + 1))) s in
  dp_complete (task_type t) (with_rendering None [] (instant_present s) s).
Definition trigger_config_action (s : events) : events := with_actions (action_queue s ++ [UpdateConfigAction]) s.

(** ** The tick *)

(** The events of a tick, once the game has started. *)
Definition tick_events (s : events) : events :=
  let cur := get_cur_state (vi s) in
  let remaining := s32 (remaining_retraces (vit s) - 1) in
  let s := with_vit (MkViThread (odd (vit s)) remaining (total_vis (vit s))) s in
  let s :=
    if remaining =? 0 then
      let s := if negb (vi_mq cur =? NULLPTR) then post_from_host (vi_mq cur, vi_msg cur) true s else s in
      with_vit (MkViThread (odd (vit s)) (retrace_count cur) (total_vis (vit s))) s
    else s in
  if negb (fst (ai_slot (ev s)) =? NULLPTR) then post_from_host (ai_slot (ev s)) false s else s.
(** One round of [vi_thread_func]; [new_total_vis] comes from the clock. *)
Definition vi_round (game_started : bool) (new_total_vis : Z) (s : events) : option events :=
  let t := vit s in
  let s := with_vit (MkViThread (odd t) (remaining_retraces t) new_total_vis) s in
  let s := if negb game_started || negb (bool_decide (is_Some (vi_mode (get_next_state (vi s)))))
           then with_vit (MkViThread (negb (odd t)) (remaining_retraces t) new_total_vis) (with_vi (set_next_state (set_dummy_vi (odd t) (get_next_state (vi s))) (vi s)) s)
           else s in
  let s := with_actions (action_queue s ++ [ScreenUpdateAction (regs (vi s))]) s in
  match update_vi (mem (kern s)) (vi s) with
  | None => None
  | Some v =>
      let s := with_vi v s in
      Some (if game_started then tick_events s else s)
  end.
(** [osViSetEvent] and its kind, on the next state. *)
Definition vi_call (f : ViState -> ViState) (s : events) : events :=
  with_vi (set_next_state (f (get_next_state (vi s))) (vi s)) s.
End Events.
Arguments events Q : clear implicits.
