(* ===== verification/EventsSpec.v ===== *)
(** The video interface: what the double buffer of states amounts to, which bits a
    feature request changes, and when retrace events are posted.  Tasks and their
    completions: the game, the three host threads and the drain of the external
    queue as steps that interleave.  Nothing is lost but retraces. *)

From Stdlib Require Import ZArith Lia Bool List.
From stdpp Require Import base list gmap.
From S2P Require Import Prelude Vec128 RspMem Rdram RspCore GuestMem Kernel MesgQueue MesgQueueSpec Events.
Open Scope Z_scope.

(** * The double buffer *)

(** A tick or a call of the game, with guest memory as it is then. *)
Inductive vi_op :=
| Tick
| Set_event (mq msg count : Z) | Swap_buffer (fb : Z) | Set_mode (mode : Z) | Special_features (func : Z)
| Black (active : Z) | Repeat_line (active : Z).
Definition vi_setting (m : hostmem) (op : vi_op) (x : ViState) : option ViState :=
  match op with
  | Tick => Some x
  | Set_event mq msg count => Some (osViSetEvent mq msg count x)
  | Swap_buffer fb => Some (osViSwapBuffer fb x)
  | Set_mode mode => Some (osViSetMode m mode x)
  | Special_features func => osViSetSpecialFeatures m func x
  | Black active => Some (osViBlack active x)
  | Repeat_line active => Some (osViRepeatLine active x)
  end.
Definition vi_step (m : hostmem) (op : vi_op) (v : vi_context) : option vi_context :=
  match op with
  | Tick => update_vi m v
  | _ => x ← vi_setting m op (get_next_state v); Some (set_next_state x v)
  end.
Definition vi_run (l : list (hostmem * vi_op)) (v : vi_context) : option vi_context :=
  foldl (fun o '(m, op) => v ← o; vi_step m op v) (Some v) l.

(** The specification keeps one set of settings: every call changes it, a tick
    shows it, and it stays. *)
Record vi_spec := MkSpec { settings : ViState; shown_state : ViState; registers : ViRegs }.
Definition spec_step (field : Z) (m : hostmem) (op : vi_op) (s : vi_spec) : option vi_spec :=
  match op with
  | Tick => p ← vi_mode (settings s);
            Some (MkSpec (settings s) (settings s) (stage m field (VI_V_CURRENT_LINE_REG (registers s)) p (settings s)))
  | _ => x ← vi_setting m op (settings s); Some (MkSpec x (shown_state s) (registers s))
  end.
Definition spec_run (field : Z) (l : list (hostmem * vi_op)) (s : vi_spec) : option vi_spec :=
  foldl (fun o '(m, op) => s ← o; spec_step field m op s) (Some s) l.
Definition vi_abs (v : vi_context) : vi_spec := MkSpec (get_next_state v) (get_cur_state v) (regs v).
Definition vi_wf (v : vi_context) : Prop := cur_state v = 0 \/ cur_state v = 1.

Lemma vi_step_refines m op v : vi_wf v ->
  vi_abs <$> vi_step m op v = spec_step (field v) m op (vi_abs v) /\
  (forall v', vi_step m op v = Some v' -> vi_wf v' /\ field v' = field v).
Proof.
  intros Hwf. destruct v as [i f [a b] r u]. unfold vi_wf in *. simpl in Hwf.
  assert (forall x, get_next_state (set_next_state x (MkViContext i f (a, b) r u)) = x /\
    get_cur_state (set_next_state x (MkViContext i f (a, b) r u)) = get_cur_state (MkViContext i f (a, b) r u)) as Hset.
  { intros x. destruct Hwf as [-> | ->]; done. }
  destruct op.
  1:{ unfold vi_step, update_vi, spec_step. cbn [settings vi_abs].
      destruct (vi_mode (get_next_state (MkViContext i f (a, b) r u))) as [p|]; [|done]. simpl.
      destruct Hwf as [-> | ->]; (split; [done|]); intros v' [= <-]; (split; [|done]); simpl; [by right|by left]. }
  all: cbn [vi_step spec_step]; cbn [settings vi_abs];
    destruct (vi_setting m _ (get_next_state (MkViContext i f (a, b) r u))) as [x|] eqn:E; [|done]; simpl;
    destruct (Hset x) as [H1 H2]; (split; [unfold vi_abs; f_equal; by rewrite H1, H2|]);
    intros v' [= <-]; done.
Qed.

(** C26: The video interface with its two states and their index refines a specification
    with one pending and one shown state: the game's calls change the pending one, a tick
    stages registers from it and shows it, and it stays pending; both fail together, when
    the pending mode is null. The field never changes. *)
Theorem vi_double_buffer_refines l v : vi_wf v ->
  vi_abs <$> vi_run l v = spec_run (field v) l (vi_abs v) /\
  (forall v', vi_run l v = Some v' -> vi_wf v' /\ field v' = field v).
Proof.
  intros Hwf. unfold vi_run, spec_run. induction l as [|[m op] l [IH IHw]] using rev_ind.
  { split; [done|]. by intros v' [= <-]. }
  rewrite !foldl_app. simpl. rewrite <- IH. destruct (foldl _ (Some v) l) as [v1|]; [|done].
  destruct (IHw v1 eq_refl) as [Hw1 Hf1]. destruct (vi_step_refines m op v1 Hw1) as [H1 H2]. simpl. rewrite H1, Hf1. split; [done|].
  intros v' E. destruct (H2 v' E) as [? ?]. split; [done|congruence].
Qed.

(** * Feature requests *)

Lemma clear_bits_spec bits c n : 0 <= n < 32 -> Z.testbit (clear_bits bits c) n = Z.testbit c n && negb (Z.testbit bits n).
Proof.
  intros Hn. unfold clear_bits. rewrite Z.land_spec, Z.lxor_spec. change 0xFFFFFFFF with (Z.ones 32).
  rewrite Z.ones_spec_low by lia. by destruct (Z.testbit bits n).
Qed.
Lemma testbit_above c n : 0 <= c < 2 ^ 32 -> 32 <= n -> Z.testbit c n = false.
Proof.
  intros Hc Hn. destruct (decide (c = 0)) as [->|]; [apply Z.testbit_0_l|].
  apply Z.bits_above_log2; [lia|]. apply Z.log2_lt_pow2; [lia|]. apply Z.lt_le_trans with (2 ^ 32); [lia|]. by apply Z.pow_le_mono_r.
Qed.
Lemma clear_bits_above bits c n : 32 <= n -> Z.testbit c n = false -> Z.testbit (clear_bits bits c) n = false.
Proof. intros Hn Hc. unfold clear_bits. by rewrite Z.land_spec, Hc. Qed.
Lemma lor_above a b n : Z.testbit a n = false -> Z.testbit b n = false -> Z.testbit (Z.lor a b) n = false.
Proof. intros Ha Hb. by rewrite Z.lor_spec, Ha, Hb. Qed.
Lemma on_off_spec func on off bit c n : 0 <= n < 32 ->
  Z.testbit (on_off func on off bit c) n =
  if Z.testbit bit n then negb (feature func off) && (feature func on || Z.testbit c n) else Z.testbit c n.
Proof.
  intros Hn. unfold on_off. destruct (feature func on), (feature func off);
    rewrite ?clear_bits_spec, ?Z.lor_spec by done; destruct (Z.testbit bit n), (Z.testbit c n); done.
Qed.
Lemma on_off_above func on off bit c n : 32 <= n -> Z.testbit bit n = false -> Z.testbit c n = false ->
  Z.testbit (on_off func on off bit c) n = false.
Proof.
  intros Hn Hb Hc. unfold on_off. destruct (feature func on), (feature func off);
    rewrite ?clear_bits_above; try done; by apply lor_above.
Qed.

(** What a request makes of a bit: off wins over on; the dither filter takes the
    antialias bits away, and its end brings those of the mode back. *)
Definition feature_bit (func mode_ctrl old : Z) (n : Z) : bool :=
  let o := Z.testbit old n in
  if n =? 3 then negb (feature func 0x02) && (feature func 0x01 || o)
  else if n =? 2 then negb (feature func 0x08) && (feature func 0x04 || o)
  else if n =? 4 then negb (feature func 0x20) && (feature func 0x10 || o)
  else if n =? 16 then negb (feature func 0x80) && (feature func 0x40 || o)
  else if (n =? 8) || (n =? 9) then (negb (feature func 0x40) && o) || (feature func 0x80 && Z.testbit mode_ctrl n)
  else o.
Definition mode_ctrl (m : hostmem) (x : ViState) : Z :=
  match vi_mode x with Some p => ctrl (comRegs (view_mode m p)) | None => 0 end.
Lemma testbit_one k n : 0 <= k -> 0 <= n -> Z.testbit (2 ^ k) n = (n =? k).
Proof. intros Hk Hn. rewrite Z.pow2_bits_eqb by done. apply Z.eqb_sym. Qed.
Lemma testbit_antialias n : 0 <= n -> Z.testbit VI_CTRL_ANTIALIAS_MASK n = (n =? 8) || (n =? 9).
Proof.
  intros Hn. change VI_CTRL_ANTIALIAS_MASK with (Z.lor (2 ^ 8) (2 ^ 9)). by rewrite Z.lor_spec, !testbit_one by lia.
Qed.

Theorem special_features_bits m func x : 0 <= vi_control x < 2 ^ 32 ->
  (osViSetSpecialFeatures m func x = None <-> feature func 0x80 = true /\ vi_mode x = None) /\
  forall x', osViSetSpecialFeatures m func x = Some x' ->
  x' = set_vi_control (vi_control x') x /\
  forall n, 0 <= n -> Z.testbit (vi_control x') n = feature_bit func (mode_ctrl m x) (vi_control x) n.
Proof.
  intros Hc. unfold osViSetSpecialFeatures, mode_ctrl.
  set (c3 := on_off func 0x10 0x20 _ _).
  set (c4 := if feature func 0x40 then _ else c3).
  assert (forall n, 0 <= n < 32 -> Z.testbit c3 n =
    if n =? 4 then negb (feature func 0x20) && (feature func 0x10 || Z.testbit (vi_control x) n)
    else if n =? 2 then negb (feature func 0x08) && (feature func 0x04 || Z.testbit (vi_control x) n)
    else if n =? 3 then negb (feature func 0x02) && (feature func 0x01 || Z.testbit (vi_control x) n)
    else Z.testbit (vi_control x) n) as H3.
  { intros n Hn. unfold c3. rewrite !on_off_spec by done.
    change VI_CTRL_DIVOT_ON with (2 ^ 4). change VI_CTRL_GAMMA_DITHER_ON with (2 ^ 2). change VI_CTRL_GAMMA_ON with (2 ^ 3).
    rewrite !testbit_one by lia. destruct (Z.eqb_spec n 4) as [->|]; [done|]. destruct (Z.eqb_spec n 2) as [->|]; done. }
  assert (forall n, 32 <= n -> Z.testbit c4 n = false) as Ha4.
  { intros n Hn. assert (Z.testbit c3 n = false) as H.
    { unfold c3. repeat (apply on_off_above; [done|by apply testbit_above|]). by apply testbit_above. }
    unfold c4. destruct (feature func 0x40); [|done]. apply clear_bits_above; [done|]. apply lor_above; [done|by apply testbit_above]. }
  assert (forall n, 0 <= n < 32 -> Z.testbit c4 n =
    if (n =? 8) || (n =? 9) then negb (feature func 0x40) && Z.testbit c3 n
    else if n =? 16 then feature func 0x40 || Z.testbit c3 n else Z.testbit c3 n) as H4.
  { intros n Hn. unfold c4. destruct (feature func 0x40); [|by repeat case_match].
    rewrite clear_bits_spec, Z.lor_spec, testbit_antialias by lia. change VI_CTRL_DITHER_FILTER_ON with (2 ^ 16).
    rewrite testbit_one by lia. destruct ((n =? 8) || (n =? 9)); [by rewrite andb_false_r|].
    rewrite andb_true_r. destruct (n =? 16); [by rewrite orb_true_r|by rewrite orb_false_r]. }
  clearbody c3 c4.
  assert (forall n b, 0 <= n < 32 ->
    (if (n =? 16) && feature func 0x80 then false else Z.testbit c4 n) || (((n =? 8) || (n =? 9)) && b) =
    if n =? 3 then negb (feature func 0x02) && (feature func 0x01 || Z.testbit (vi_control x) n)
    else if n =? 2 then negb (feature func 0x08) && (feature func 0x04 || Z.testbit (vi_control x) n)
    else if n =? 4 then negb (feature func 0x20) && (feature func 0x10 || Z.testbit (vi_control x) n)
    else if n =? 16 then negb (feature func 0x80) && (feature func 0x40 || Z.testbit (vi_control x) n)
    else if (n =? 8) || (n =? 9) then (negb (feature func 0x40) && Z.testbit (vi_control x) n) || b
    else Z.testbit (vi_control x) n) as H5.
  { intros n b Hn. rewrite H4, H3 by done.
    destruct (Z.eqb_spec n 3) as [->|]; [by rewrite orb_false_r|]. destruct (Z.eqb_spec n 2) as [->|]; [by rewrite orb_false_r|].
    destruct (Z.eqb_spec n 4) as [->|]; [by rewrite orb_false_r|].
    destruct (Z.eqb_spec n 16) as [->|]; [by rewrite orb_false_r; destruct (feature func 0x80)|].
    destruct ((n =? 8) || (n =? 9)); [done|by rewrite orb_false_r]. }
  assert (forall c', (forall n, 0 <= n < 32 -> Z.testbit c' n = feature_bit func (mode_ctrl m x) (vi_control x) n) ->
    (forall n, 32 <= n -> Z.testbit c' n = false) ->
    forall n, 0 <= n -> Z.testbit c' n = feature_bit func (mode_ctrl m x) (vi_control x) n) as Hall.
  { intros c' Hl Hh n Hn. destruct (decide (n < 32)); [by apply Hl|]. rewrite Hh by lia. unfold feature_bit.
    rewrite (testbit_above (vi_control x)) by (done || lia). repeat (case_match; [lia|]). done. }
  destruct (feature func 0x80) eqn:E8.
  - unfold mode_ctrl in Hall. destruct (vi_mode x) as [p|]; [|split; [done|done]]. split; [split; [done|by intros [_ ?]]|].
    intros x' [= <-]. split; [done|]. apply Hall; cbn [vi_control set_vi_control].
    + intros n Hn. rewrite Z.lor_spec, Z.land_spec, clear_bits_spec, testbit_antialias by lia.
      change VI_CTRL_DITHER_FILTER_ON with (2 ^ 16). rewrite testbit_one by lia. unfold feature_bit. rewrite E8.
      cbn [andb]. etransitivity; [|exact (H5 n (Z.testbit (ctrl (comRegs (view_mode m p))) n) Hn)].
      rewrite andb_true_r, (andb_comm (Z.testbit (ctrl _) n)).
      f_equal. destruct (n =? 16); [by rewrite andb_false_r|by rewrite andb_true_r].
    + intros n Hn. apply lor_above; [apply clear_bits_above; [done|by apply Ha4]|]. rewrite Z.land_spec, testbit_antialias by lia.
      rewrite (proj2 (Z.eqb_neq n 8)), (proj2 (Z.eqb_neq n 9)) by lia. apply andb_false_r.
  - split; [split; [done|by intros [? _]]|]. intros x' [= <-]. split; [done|]. apply Hall; cbn [vi_control set_vi_control]; [|done].
    intros n Hn. unfold feature_bit. rewrite E8. etransitivity; [|exact (H5 n false Hn)].
    by rewrite !andb_false_r, orb_false_r.
Qed.

(** * Retrace events *)

Section Retrace.
Context {Q : Type} `{EQ : ExtQueue Q} `{!ExtQueueLaws Q}.

(** Only retraces are posted as messages that may be dropped. *)
Definition retraces_posted (s : events Q) : nat := length (List.filter qm_coalescible (ext_elems (msgs (ext s)))).
Lemma retraces_post slot b s : retraces_posted (post_from_host slot b s) = ((if b then 1 else 0) + retraces_posted s)%nat.
Proof.
  unfold retraces_posted, post_from_host. cbn. 
  assert (forall l l', l ≡ₚ l' -> length (List.filter qm_coalescible l) = length (List.filter qm_coalescible l')) as Hp.
  { induction 1; simpl; repeat case_match; simpl; congruence. }
  rewrite (Hp _ _ (ext_enqueue_elems _ _)). simpl. by destruct b.
Qed.
Fixpoint ticks (l : list Z) (s : events Q) : option (events Q) :=
  match l with [] => Some s | t :: l => s ← vi_round true t s; ticks l s end.

(** The registration that the next tick makes current. *)
Definition registered (mq r : Z) (s : events Q) : Prop :=
  vi_wf (vi s) /\ vi_mq (get_next_state (vi s)) = mq /\ retrace_count (get_next_state (vi s)) = r.
Lemma set_next_get x v : vi_wf v -> get_next_state (set_next_state x v) = x /\ vi_wf (set_next_state x v).
Proof. destruct v as [i f [a b] rg u]. intros [H|H]; simpl in H; subst i; (split; [done|]); [by left|by right]. Qed.
Lemma update_vi_keeps m v : vi_wf v -> is_Some (vi_mode (get_next_state v)) -> exists v', update_vi m v = Some v' /\
  vi_wf v' /\ get_next_state v' = get_next_state v /\ get_cur_state v' = get_next_state v.
Proof.
  intros Hw [p Hp]. unfold update_vi. rewrite Hp. eexists. split; [done|].
  destruct v as [i f [a b] rg u]. destruct Hw as [H|H]; simpl in H; subst i; (split; [|done]); [by right|by left].
Qed.
Lemma tick_round t mq r s : mq <> NULLPTR -> registered mq r s -> exists s',
  vi_round true t s = Some s' /\ registered mq r s' /\
  let k := s32 (remaining_retraces (vit s) - 1) in
  remaining_retraces (vit s') = (if k =? 0 then r else k) /\
  retraces_posted s' = ((if (k =? 0)%Z then 1 else 0) + retraces_posted s)%nat.
Proof.
  intros Hmq (Hw & Hq & Hr). unfold vi_round.
  set (s1 := if negb true || _ then _ else _).
  assert (vi_wf (vi s1) /\ is_Some (vi_mode (get_next_state (vi s1))) /\ vi_mq (get_next_state (vi s1)) = mq /\
    retrace_count (get_next_state (vi s1)) = r /\ remaining_retraces (vit s1) = remaining_retraces (vit s) /\ ext s1 = ext s /\ kern s1 = kern s)
    as (Hw1 & Hm1 & Hq1 & Hr1 & Hk1 & He1 & Hn1).
  { unfold s1. cbn [negb orb vi with_vit]. case_bool_decide as Hm; cbn [negb].
    - done.
    - cbn [vi with_vi with_vit]. destruct (set_next_get (set_dummy_vi (odd (vit s)) (get_next_state (vi s))) (vi s) Hw) as [-> ?]. done. }
  clearbody s1. cbn [vi kern with_actions].
  destruct (update_vi_keeps (mem (kern s1)) (vi s1) Hw1 Hm1) as (v & -> & Hwv & Hnv & Hcv).
  eexists. split; [done|]. cbv zeta. unfold tick_events. cbn [vi vit with_vi with_actions ev].
  rewrite Hcv, Hq1, Hr1, Hk1. rewrite (proj2 (Z.eqb_neq mq NULLPTR)) by done. cbn [negb].
  set (k := s32 (remaining_retraces (vit s) - 1)).
  assert (forall sl b (x : events Q), vi (post_from_host sl b x) = vi x /\ vit (post_from_host sl b x) = vit x) as Hpost by done.
  assert (forall x : events Q, vi x = v -> registered mq r x) as Hreg.
  { intros x E. unfold registered. rewrite E, Hnv. done. }
  assert (forall t' (x : events Q), retraces_posted (with_vit t' x) = retraces_posted x) as Hvit by done.
  split; [apply Hreg; by repeat case_match|].
  destruct (k =? 0); destruct (negb _); (split; [done|]); rewrite ?retraces_post, ?Hvit, ?retraces_post; unfold retraces_posted; cbn; by rewrite He1.
Qed.

(** With a queue registered for every r-th retrace, after n ticks exactly (n + r - k) / r retrace messages have been posted, where k ticks remained before the first, and the countdown is in step. *)
Theorem retrace_event_every_r_ticks mq r k l s :
  mq <> NULLPTR -> 1 <= k <= r -> r < 2 ^ 31 -> registered mq r s -> remaining_retraces (vit s) = k ->
  exists s', ticks l s = Some s' /\ registered mq r s' /\
  Z.of_nat (retraces_posted s') = Z.of_nat (retraces_posted s) + (Z.of_nat (length l) + r - k) / r /\
  remaining_retraces (vit s') = r - (Z.of_nat (length l) + r - k) mod r.
Proof.
  intros Hmq Hk Hr. revert s k Hk. induction l as [|t l IH]; intros s k Hk Hreg Hrem.
  { exists s. split; [done|]. split; [done|]. simpl. rewrite Z.div_small, Z.mod_small by lia. lia. }
  cbn [ticks length]. destruct (tick_round t mq r s Hmq Hreg) as (s1 & -> & Hreg1 & Hrem1 & Hp1). simpl.
  rewrite Hrem in Hrem1, Hp1. assert (s32 (k - 1) = k - 1) as Hs by (apply s32_small; unfold is_s32; lia). rewrite Hs in Hrem1, Hp1.
  destruct (Z.eqb_spec (k - 1) 0) as [Hz|Hz].
  - destruct (IH s1 r ltac:(lia) Hreg1 Hrem1) as (s' & -> & Hreg' & Hp' & Hrem'). exists s'. split; [done|]. split; [done|].
    replace (Z.of_nat (S (length l)) + r - k) with (Z.of_nat (length l) + r - r + 1 * r) by lia.
    rewrite Z.div_add, Z.mod_add by lia. split; [lia|exact Hrem'].
  - destruct (IH s1 (k - 1) ltac:(lia) Hreg1 Hrem1) as (s' & -> & Hreg' & Hp' & Hrem'). exists s'. split; [done|]. split; [done|].
    replace (Z.of_nat (S (length l)) + r - k) with (Z.of_nat (length l) + r - (k - 1)) by lia. split; [lia|exact Hrem'].
Qed.
(** A count of zero stops the messages: the counter passes zero and goes on. *)
Theorem zero_retrace_count_stops mq l s k : mq <> NULLPTR -> registered mq 0 s -> remaining_retraces (vit s) = - k -> 0 <= k ->
  k + Z.of_nat (length l) < 2 ^ 31 -> exists s', ticks l s = Some s' /\ retraces_posted s' = retraces_posted s.
Proof.
  intros Hmq. revert s k. induction l as [|t l IH]; intros s k Hreg Hrem Hk Hl; [by exists s|].
  cbn [ticks length] in *. destruct (tick_round t mq 0 s Hmq Hreg) as (s1 & -> & Hreg1 & Hrem1 & Hp1). simpl.
  rewrite Hrem in Hrem1, Hp1. rewrite s32_small in Hrem1, Hp1 by (unfold is_s32; lia).
  rewrite (proj2 (Z.eqb_neq (- k - 1) 0)) in Hrem1, Hp1 by lia.
  destruct (IH s1 (k + 1)) as (s' & -> & Hp'); [done|lia|lia|lia|]. exists s'. split; [done|]. simpl in Hp1. congruence.
Qed.
End Retrace.

(** What a step does that the statements count. *)
Inductive happening :=
| Submitted (gfx : bool)
| Sp_done (m : QueuedMessage) | Dp_done (m : QueuedMessage) | Other_event (m : QueuedMessage)
| Handled (d : drained) (m : QueuedMessage)
| Lost (m : QueuedMessage) (k : kstate).
Definition tally (f : happening -> bool) (h : list happening) : nat := length (List.filter f h).
Definition is_gfx (x : happening) : bool := match x with Submitted true => true | _ => false end.
Definition is_submit (x : happening) : bool := match x with Submitted _ => true | _ => false end.
Definition is_sp (x : happening) : bool := match x with Sp_done _ => true | _ => false end.
Definition is_dp (x : happening) : bool := match x with Dp_done _ => true | _ => false end.
Lemma tally_app f h1 h2 : tally f (h1 ++ h2) = (tally f h1 + tally f h2)%nat.
Proof. unfold tally. by rewrite List.filter_app, length_app. Qed.
Lemma tally_nil f : tally f [] = 0%nat.
Proof. done. Qed.
Lemma tally_one f x : tally f [x] = if f x then 1%nat else 0%nat.
Proof. unfold tally. simpl. by destruct (f x). Qed.
(** The messages posted, and those handled in a way. *)
Definition posted (h : list happening) : list QueuedMessage :=
  omap (fun x => match x with Sp_done m | Dp_done m | Other_event m => Some m | _ => None end) h.
Definition handled (d : drained) (h : list happening) : list QueuedMessage :=
  omap (fun x => match x with Handled d' m => if fate d d' then Some m else None | _ => None end) h.
(** The messages thrown away, with the guest at that moment. *)
Definition lost (h : list happening) : list (QueuedMessage * kstate) :=
  omap (fun x => match x with Lost m k => Some (m, k) | _ => None end) h.
Lemma lost_app h1 h2 : lost (h1 ++ h2) = lost h1 ++ lost h2.
Proof. apply omap_app. Qed.
Lemma posted_app h1 h2 : posted (h1 ++ h2) = posted h1 ++ posted h2.
Proof. apply omap_app. Qed.
Lemma handled_app d h1 h2 : handled d (h1 ++ h2) = handled d h1 ++ handled d h2.
Proof. apply omap_app. Qed.

Definition tasks_in (l : list Action) : nat := length (List.filter (fun a => match a with SpTaskAction _ => true | _ => false end) l).
Definition jobs_in (l : list (option Z)) : nat := length (List.filter (fun a => match a with Some _ => true | None => false end) l).

Section Tasks.
Context {Q : Type} `{EQ : ExtQueue Q} `{!ExtQueueLaws Q} (RO : RdramOps hostmem).
Context (get_rsp_microcode : hostmem -> OSTask -> option (hostmem -> dmem_t -> Z -> RspExitReason * hostmem * dmem_t)).
Abbreviation events := (events Q).
Implicit Types (s : events) (h : list happening).

Definition queued (slot : Z * Z) (c : bool) : QueuedMessage := Queued (fst slot) (snd slot) false c.
(** The posts of a tick. *)
Definition event_posts (remaining : Z) (cur : ViState) (ai : Z * Z) : list happening :=
  (if (remaining =? 0) && negb (vi_mq cur =? NULLPTR) then [Other_event (queued (vi_mq cur, vi_msg cur) true)] else []) ++
  (if negb (fst ai =? NULLPTR) then [Other_event (queued ai false)] else []).
Definition tick_posts (game_started : bool) s s' : list happening :=
  if game_started then event_posts (s32 (remaining_retraces (vit s) - 1)) (get_cur_state (vi s')) (ai_slot (ev s)) else [].

(** A step of the game, of the graphics, task or video thread, of a drain, or of the
    wait of [yield_self], [pause_self] and the scheduler's tick for one message.  The
    game may change guest memory and threads in any way ([step_guest]); the
    queues between threads hand over their elements in any order. *)
Inductive step : events -> list happening -> events -> Prop :=
| step_submit p s : step s [Submitted (task_type (load_task_at p (mem (kern s))) =? M_GFXTASK)] (submit_rsp_task p s)
| step_guest k s : step s [] (with_kern k s)
| step_event id mq msg s : step s [] (with_ev (osSetEventMesg id mq msg (ev s)) s)
| step_vi_call f s : step s [] (vi_call f s)
| step_config s : step s [] (trigger_config_action s)
| step_gfx_start started a q s : rendering s = None -> action_queue s ≡ₚ a :: q ->
    step s (match a with SpTaskAction _ => [Sp_done (queued (sp_slot (ev s)) false)] | _ => [] end) (gfx_start RO started a (with_actions q s))
| step_gfx_finish t s : rendering s = Some t -> step s [Dp_done (queued (dp_slot (ev s)) false)] (gfx_finish RO t s)
| step_task p q s : sp_task_queue s ≡ₚ Some p :: q ->
    step s [Sp_done (queued (sp_slot (ev s)) false)] (task_round RO get_rsp_microcode p (with_tasks q s))
| step_tick started n s s' : vi_round started n s = Some s' -> step s (tick_posts started s s') s'
| step_drain l e k s : dequeue_external_messages (ext s) (kern s) = Some (l, e, k) ->
    step s (map (fun p => Handled (fst p) (snd p)) l) (with_kern k (with_ext e s))
| step_wait m e0 e k s : try_dequeue (ext s) = Some (m, e0) -> wait_for_external_message (ext s) (kern s) = Some (e, k) ->
    step s [if send_guard (qm_mq m) (kern s) && negb (MQ_IS_FULL (qm_mq m) (kern s)) then Handled Delivered m else Lost m (kern s)]
      (with_kern k (with_ext e s)).
Inductive run : events -> list happening -> events -> Prop :=
| run_nil s : run s [] s
| run_snoc s h s' h' s'' : run s h s' -> step s' h' s'' -> run s (h ++ h') s''.

Abbreviation ext_list s := (ext_elems (msgs (ext s))).
(** What each operation adds to the external queue, and what it leaves alone. *)
Lemma post_list slot c s : ext_list (post_from_host slot c s) ≡ₚ queued slot c :: ext_list s.
Proof. unfold post_from_host, post_rcp_event, enqueue_external_tagged. cbn. apply ext_enqueue_elems. Qed.
Lemma sp_complete_list t s : ext_list (sp_complete RO t s) ≡ₚ queued (sp_slot (ev s)) false :: ext_list s.
Proof. unfold sp_complete. cbn [ext with_cnt]. rewrite post_list. done. Qed.
Lemma dp_complete_list t s : ext_list (dp_complete RO t s) ≡ₚ queued (dp_slot (ev s)) false :: ext_list s.
Proof. unfold dp_complete. cbn [ext with_cnt]. rewrite post_list. done. Qed.

(** * The books *)

(** A message whose queue is full, or is not a queue. *)
Definition refused (p : QueuedMessage * kstate) : Prop :=
  send_guard (qm_mq (fst p)) (snd p) = false \/ MQ_IS_FULL (qm_mq (fst p)) (snd p) = true.
(** Every submitted graphics task is waiting, being rendered, or done; every task
    is waiting or was reported by the signal processor; every message posted was
    delivered, dropped or lost, or is still there. *)
Definition settled h : list QueuedMessage :=
  omap (fun x => match x with Handled Delivered m | Handled Dropped m | Lost m _ => Some m | _ => None end) h.
Definition balanced h s : Prop :=
  tally is_gfx h = (tally is_dp h + tasks_in (action_queue s) + match rendering s with Some _ => 1 | None => 0 end)%nat /\
  tally is_submit h = (tally is_sp h + tasks_in (action_queue s) + jobs_in (sp_task_queue s))%nat /\
  posted h ≡ₚ settled h ++ ext_list s /\
  Forall (fun m => qm_coalescible m = true) (handled Dropped h) /\ Forall refused (lost h).
Lemma settled_app h1 h2 : settled (h1 ++ h2) = settled h1 ++ settled h2.
Proof. apply omap_app. Qed.
Lemma settled_split h : settled h ≡ₚ handled Delivered h ++ handled Dropped h ++ (lost h).*1.
Proof.
  unfold settled, handled, lost. induction h as [|x h IH]; [done|]. cbn [omap list_omap].
  destruct x as [| | | |[] m|m k]; cbn [fate]; [exact IH..|by rewrite IH| |exact IH|].
  - rewrite IH. apply (Permutation_middle (omap _ h)).
  - cbn [fmap list_fmap fst]. rewrite IH, !app_assoc. apply Permutation_middle.
Qed.

Lemma tasks_in_perm l l' : l ≡ₚ l' -> tasks_in l = tasks_in l'.
Proof. unfold tasks_in. induction 1; simpl; repeat case_match; simpl; congruence. Qed.
Lemma jobs_in_perm l l' : l ≡ₚ l' -> jobs_in l = jobs_in l'.
Proof. unfold jobs_in. induction 1; simpl; repeat case_match; simpl; congruence. Qed.
Lemma tasks_in_app l l' : tasks_in (l ++ l') = (tasks_in l + tasks_in l')%nat.
Proof. unfold tasks_in. by rewrite List.filter_app, length_app. Qed.
Lemma jobs_in_app l l' : jobs_in (l ++ l') = (jobs_in l + jobs_in l')%nat.
Proof. unfold jobs_in. by rewrite List.filter_app, length_app. Qed.

(** A step that posts some messages and settles none. *)
Lemma posts_balance h ms s s' : posted h ≡ₚ settled h ++ ext_list s ->
  ext_list s' ≡ₚ posted ms ++ ext_list s -> settled ms = [] ->
  posted (h ++ ms) ≡ₚ settled (h ++ ms) ++ ext_list s'.
Proof.
  intros Hb Hl H1. rewrite posted_app, settled_app, H1, app_nil_r, Hl, Hb.
  rewrite <- !app_assoc. apply Permutation_app_head, Permutation_app_comm.
Qed.

Lemma tick_events_books s :
  ext_list (tick_events s) ≡ₚ posted (event_posts (s32 (remaining_retraces (vit s) - 1)) (get_cur_state (vi s)) (ai_slot (ev s))) ++ ext_list s /\
  action_queue (tick_events s) = action_queue s /\ sp_task_queue (tick_events s) = sp_task_queue s /\
  rendering (tick_events s) = rendering s /\ vi (tick_events s) = vi s.
Proof.
  unfold tick_events, event_posts. set (k := s32 (remaining_retraces (vit s) - 1)).
  assert (forall t x, ext_list (with_vit t x) = ext_list x) as Ht by done.
  assert (forall sl c x, ev (post_from_host sl c x) = ev x) as Hp by done.
  destruct (k =? 0), (negb (vi_mq (get_cur_state (vi s)) =? NULLPTR)); cbn [andb app];
    change (ev (with_vit ?t ?x)) with (ev x); rewrite ?Hp; change (ev (with_vit ?t ?x)) with (ev x);
    destruct (negb (fst (ai_slot (ev s)) =? NULLPTR)); (split; [|done]);
    rewrite ?post_list, ?Ht, ?post_list, ?Ht; cbn [posted omap list_omap app]; try done; apply Permutation_swap.
Qed.
Lemma tick_books started n s s' : vi_round started n s = Some s' ->
  ext_list s' ≡ₚ posted (tick_posts started s s') ++ ext_list s /\
  tasks_in (action_queue s') = tasks_in (action_queue s) /\ sp_task_queue s' = sp_task_queue s /\ rendering s' = rendering s.
Proof.
  unfold vi_round. set (s1 := if negb started || _ then _ else _).
  assert (ext s1 = ext s /\ action_queue s1 = action_queue s /\ sp_task_queue s1 = sp_task_queue s /\ rendering s1 = rendering s /\
    ev s1 = ev s /\ remaining_retraces (vit s1) = remaining_retraces (vit s)) as (He & Ha & Ht & Hr & Hv & Hk).
  { unfold s1. by case_match. }
  clearbody s1. cbn [vi with_actions]. destruct (update_vi _ _) as [v|]; [|done]. intros [= <-].
  set (s2 := with_vi v _).
  assert (tasks_in (action_queue s2) = tasks_in (action_queue s)) as Ha'.
  { unfold s2. cbn [action_queue with_vi with_actions]. rewrite tasks_in_app, Ha. unfold tasks_in at 2. simpl. lia. }
  assert (ext s2 = ext s /\ sp_task_queue s2 = sp_task_queue s /\ rendering s2 = rendering s /\ ev s2 = ev s /\ vit s2 = vit s1)
    as (He2 & Ht2 & Hr2 & Hv2 & Hk2) by done.
  clearbody s2. unfold tick_posts. destruct started.
  - destruct (tick_events_books s2) as (H1 & H2 & H3 & H4 & H5). rewrite H2, H3, H4, H5. split; [|by rewrite Ha', Ht2, Hr2].
    rewrite H1, He2, Hv2, Hk2, Hk. done.
  - by rewrite He2, Ht2, Hr2, Ha'.
Qed.

Lemma handled_log d l : handled d (map (fun p => Handled (fst p) (snd p)) l) = with_fate d l.
Proof.
  unfold handled, with_fate. induction l as [|[x m] l IH]; [done|]. cbn. destruct (fate d x); cbn; [f_equal|]; exact IH.
Qed.
Lemma posted_log l : posted (map (fun p : drained * QueuedMessage => Handled (fst p) (snd p)) l) = [].
Proof. unfold posted. by induction l. Qed.
Lemma lost_log l : lost (map (fun p : drained * QueuedMessage => Handled (fst p) (snd p)) l) = [].
Proof. unfold lost. by induction l. Qed.
Lemma tally_log f l : (forall d m, f (Handled d m) = false) -> tally f (map (fun p : drained * QueuedMessage => Handled (fst p) (snd p)) l) = 0%nat.
Proof. intros Hf. unfold tally. induction l as [|[x m] l IH]; simpl; [done|]. by rewrite Hf. Qed.
Lemma tick_tally f started s s' : (forall m, f (Other_event m) = false) -> tally f (tick_posts started s s') = 0%nat.
Proof. intros Hf. unfold tick_posts, event_posts, tally. destruct started; [|done]. repeat case_match; simpl; by rewrite ?Hf. Qed.
Lemma tick_settles started s s' : settled (tick_posts started s s') = [] /\ handled Dropped (tick_posts started s s') = [] /\ lost (tick_posts started s s') = [].
Proof. unfold tick_posts, event_posts. destruct started; [|done]. repeat case_match; done. Qed.

Lemma submit_books p s : let g := task_type (load_task_at p (mem (kern s))) =? M_GFXTASK in
  ext (submit_rsp_task p s) = ext s /\ rendering (submit_rsp_task p s) = rendering s /\
  tasks_in (action_queue (submit_rsp_task p s)) = ((if g then 1 else 0) + tasks_in (action_queue s))%nat /\
  jobs_in (sp_task_queue (submit_rsp_task p s)) = ((if g then 0 else 1) + jobs_in (sp_task_queue s))%nat.
Proof.
  cbv zeta. unfold submit_rsp_task. destruct (_ =? M_GFXTASK); cbn [ext rendering action_queue sp_task_queue with_actions with_tasks with_cnt].
  - rewrite tasks_in_app. unfold tasks_in at 2. simpl. split; [done|]. split; [done|]. split; [lia|done].
  - rewrite jobs_in_app. unfold jobs_in at 2. simpl. split; [done|]. split; [done|]. split; [done|lia].
Qed.
Lemma gfx_start_books started a s :
  let r := gfx_start RO started a s in
  action_queue r = action_queue s /\ sp_task_queue r = sp_task_queue s /\
  match a with
  | SpTaskAction t => ext_list r ≡ₚ queued (sp_slot (ev s)) false :: ext_list s /\ rendering r = Some t
  | _ => ext_list r = ext_list s /\ rendering r = rendering s
  end.
Proof. destruct a as [t| |]; cbv zeta; [|done..]. split; [done|]. split; [done|]. split; [|done]. exact (sp_complete_list (task_type t) (with_rendering _ _ _ s)). Qed.

Lemma step_balanced s h' s' h : step s h' s' -> balanced h s -> balanced (h ++ h') s'.
Proof.
  intros Hst (Hg & Ht & Hm & Hd & Hl). unfold balanced. rewrite !tally_app.
  assert (forall s'' ms, ext_list s'' ≡ₚ posted ms ++ ext_list s -> settled ms = [] /\ handled Dropped ms = [] /\ lost ms = [] ->
    posted (h ++ ms) ≡ₚ settled (h ++ ms) ++ ext_list s'' /\
    Forall (fun m => qm_coalescible m = true) (handled Dropped (h ++ ms)) /\ Forall refused (lost (h ++ ms))) as Hpost.
  { intros s'' ms H1 (H2 & H3 & H4). split; [by apply (posts_balance h ms s)|]. by rewrite handled_app, lost_app, H3, H4, !app_nil_r. }
  destruct Hst as [p s|k s|id mq msg s|f s|s|started a q s Hn Hq|t s Hr|p q s Hq|started n s s' Hv|l e k s He|m e0 e k s E0 He].
  - destruct (submit_books p s) as (E1 & E2 & E3 & E4). rewrite E2, E3, E4, !tally_one.
    destruct (_ =? M_GFXTASK); simpl; (split; [lia|]; split; [lia|]); apply Hpost; by rewrite ?E1.
  - rewrite app_nil_r, !tally_nil. split; [simpl; lia|]. split; [simpl; lia|]. done.
  - rewrite app_nil_r, !tally_nil. split; [simpl; lia|]. split; [simpl; lia|]. done.
  - rewrite app_nil_r, !tally_nil. split; [simpl; lia|]. split; [simpl; lia|]. done.
  - rewrite app_nil_r, !tally_nil. cbn [action_queue trigger_config_action with_actions rendering sp_task_queue ext].
    rewrite tasks_in_app. change (tasks_in [UpdateConfigAction]) with 0%nat. split; [lia|]. split; [lia|]. done.
  - destruct (gfx_start_books started a (with_actions q s)) as (E1 & E2 & E3). rewrite E1, E2. cbn [action_queue with_actions sp_task_queue].
    rewrite (tasks_in_perm _ _ Hq) in Hg, Ht. rewrite Hn in Hg. change (a :: q) with ([a] ++ q) in Hg, Ht. rewrite tasks_in_app in Hg, Ht.
    destruct a; destruct E3 as [E3 E4]; rewrite E4, ?tally_one, ?tally_nil; cbn [rendering with_actions is_gfx is_dp is_submit is_sp]; rewrite ?Hn;
      [change (tasks_in [SpTaskAction task]) with 1%nat in *|change (tasks_in [ScreenUpdateAction r]) with 0%nat in *|change (tasks_in [UpdateConfigAction]) with 0%nat in *];
      (split; [lia|]; split; [lia|]); apply Hpost; try done; by rewrite E3.
  - rewrite Hr in Hg. rewrite !tally_one. cbn [gfx_finish action_queue dp_complete with_cnt post_from_host with_ext mark_complete with_sp with_rendering sp_task_queue rendering is_gfx is_dp is_submit is_sp].
    split; [lia|]. split; [lia|]. apply Hpost; try done. exact (dp_complete_list (task_type t) (with_rendering None [] _ (with_cnt _ s))).
  - assert (exists x d, task_round RO get_rsp_microcode p (with_tasks q s) =
      sp_complete RO (task_type (load_task_at p x)) (with_sp (sp_status s) x d (with_tasks q s))) as (x & d & E).
    { unfold task_round. destruct (run_task _ _ _ _) as [[b x] d]. exists x, d. done. }
    rewrite E, !tally_one. rewrite (jobs_in_perm _ _ Hq) in Ht. change (Some p :: q) with ([Some p] ++ q) in Ht. rewrite jobs_in_app in Ht.
    change (jobs_in [Some p]) with 1%nat in Ht.
    cbn [sp_complete action_queue with_cnt post_from_host with_ext mark_complete with_sp with_tasks sp_task_queue rendering is_gfx is_dp is_submit is_sp].
    split; [lia|]. split; [lia|]. apply Hpost; try done. exact (sp_complete_list _ (with_sp _ _ _ (with_tasks _ s))).
  - destruct (tick_books started n s s' Hv) as (E1 & E2 & E3 & E4). rewrite E2, E3, E4, !tick_tally by done.
    split; [lia|]. split; [lia|]. apply Hpost; [done|apply tick_settles].
  - destruct (drain_drain_ok _ _ _ _ _ _ He) as (H1 & H2 & _). rewrite !tally_log by done. cbn [action_queue with_kern with_ext sp_task_queue rendering ext].
    split; [lia|]. split; [lia|]. rewrite posted_app, settled_app, handled_app, lost_app, posted_log, (settled_split (map _ l)), !handled_log, lost_log, ?app_nil_r.
    split; [|split; [by apply Forall_app|done]]. cbn [fmap list_fmap]. rewrite Hm, H1. by rewrite <- !app_assoc.
  - apply try_dequeue_elems in E0 as E1. destruct E1 as [E1 _].
    assert (He' : msgs e = msgs e0).
    { unfold wait_for_external_message in He. rewrite E0 in He. destruct (do_send _ _ _ _ _); [|done..]. by injection He as <- <-. }
    cbn [action_queue with_kern with_ext sp_task_queue rendering ext]. rewrite He', posted_app, settled_app, handled_app, lost_app, Hm, E1.
    destruct (send_guard (qm_mq m) (kern s) && negb (MQ_IS_FULL (qm_mq m) (kern s))) eqn:Eg; rewrite !tally_one; cbn [is_gfx is_dp is_submit is_sp];
      (split; [lia|]; split; [lia|]); cbn; rewrite ?app_nil_r, <- ?app_assoc; (split; [done|]); (split; [done|]); [done|].
    apply Forall_app_2; [done|]. constructor; [|constructor]. unfold refused. cbn [fst snd].
    destruct (send_guard (qm_mq m) (kern s)); [|by left]. right. by destruct (MQ_IS_FULL (qm_mq m) (kern s)).
Qed.

Lemma run_balanced s h s' h0 : run s h s' -> balanced h0 s -> balanced (h0 ++ h) s'.
Proof.
  intros Hr Hb. induction Hr as [s|s h s1 h' s2 Hr IH Hs]; [by rewrite app_nil_r|].
  rewrite app_assoc. apply (step_balanced s1); [done|]. by apply IH.
Qed.
(** Nothing is asked for and nothing waits. *)
Definition quiet s : Prop :=
  tasks_in (action_queue s) = 0%nat /\ jobs_in (sp_task_queue s) = 0%nat /\ rendering s = None.
Lemma quiet_balanced s : quiet s -> ext_list s = [] -> balanced [] s.
Proof. intros (Ha & Ht & Hr) He. unfold balanced. by rewrite Ha, Ht, Hr, He. Qed.

(** What the labels say: a drained or awaited message counts as delivered only when
    it has been sent to its queue. *)
Fixpoint sends (l : list QueuedMessage) (k : kstate) : option kstate :=
  match l with
  | [] => Some k
  | m :: l => match do_send (qm_mq m) (qm_mesg m) (qm_jam m) false k with Done true k => sends l k | _ => None end
  end.
Lemma drain_sends fuel : forall e k l e' k', drain fuel e k = Some (l, e', k') -> sends (with_fate Delivered l) k = Some k'.
Proof.
  induction fuel as [|fuel IH]; intros e k l e' k'; [done|]. cbn [drain].
  destruct (try_dequeue e) as [[m e1]|]; [|by intros [= <- _ <-]].
  destruct (do_send_nonblocking (qm_mq m) (qm_mesg m) (qm_jam m) k) as (ok & k1 & E & Hk). rewrite E. destruct ok.
  - destruct (drain fuel e1 k1) as [[[l1 e2] k2]|] eqn:Ed; [|done]. intros [= <- _ <-]. cbn. rewrite E. by apply (IH e1 k1 l1 e2).
  - rewrite (Hk eq_refl) in *. destruct (qm_coalescible m); [|by intros [= <- _ <-]].
    destruct (drain fuel e1 k) as [[[l1 e2] k2]|] eqn:Ed; [|done]. intros [= <- _ <-]. by apply (IH e1 k l1 e2).
Qed.
Lemma step_sends s h' s' : step s h' s' -> handled Delivered h' <> [] -> sends (handled Delivered h') (kern s) = Some (kern s').
Proof.
  intros [p x|k x|id mq msg x|f x|x|started a q x Hn Hq|t x Hr|p q x Hq|started n x x' Hv|l e k x He|m e0 e k x E0 He] Hd; try done.
  - by destruct a.
  - exfalso. apply Hd. unfold tick_posts, event_posts. destruct started; [|done]. repeat case_match; done.
  - rewrite handled_log. by eapply drain_sends.
  - unfold wait_for_external_message in He. rewrite E0 in He. unfold do_send in He. destruct (send_guard _ _) eqn:Eg; [|done].
    unfold send_resume in He. destruct (MQ_IS_FULL (qm_mq m) (kern x)) eqn:Ef; [done|]. injection He as <- <-.
    cbn. unfold do_send, send_resume. by rewrite Eg, Ef.
Qed.

(** C25: However the game submits tasks, the graphics and task threads work and the game's
    threads drain or await the host's messages, each display list is reported done by the
    display processor once and each task by the signal processor once, except those still
    queued or being rendered; the messages posted are those delivered, dropped, lost or
    still pending. Only coalescible ones are dropped, a message is lost only by a wait whose
    target queue is full or no queue, and what a step reports as delivered has been sent to
    its queue. *)
Theorem every_task_is_reported s h s' : quiet s -> ext_list s = [] -> run s h s' ->
  tally is_gfx h = (tally is_dp h + tasks_in (action_queue s') + match rendering s' with Some _ => 1 | None => 0 end)%nat /\
  tally is_submit h = (tally is_sp h + tasks_in (action_queue s') + jobs_in (sp_task_queue s'))%nat /\
  posted h ≡ₚ handled Delivered h ++ handled Dropped h ++ (lost h).*1 ++ ext_list s' /\
  Forall (fun m => qm_coalescible m = true) (handled Dropped h) /\ Forall refused (lost h) /\
  (quiet s' -> tally is_sp h = tally is_submit h /\ tally is_dp h = tally is_gfx h) /\
  (forall h' s'', step s' h' s'' -> handled Delivered h' <> [] -> sends (handled Delivered h') (kern s') = Some (kern s'')).
Proof.
  intros Hq He Hr. destruct (run_balanced s h s' [] Hr (quiet_balanced s Hq He)) as (H1 & H2 & H3 & H4 & H5). simpl in *.
  split; [done|]. split; [done|]. split; [by rewrite H3, settled_split, <- !app_assoc|]. split; [done|]. split; [done|]. split; [|intros ? ?; apply step_sends].
  intros (Ha & Ht & Hn). rewrite Hn in H1. lia.
Qed.

(** * The host threads finish *)

(** A step of the graphics or the task thread. *)
Inductive host_step : events -> events -> Prop :=
| host_gfx_start started a q s : rendering s = None -> action_queue s ≡ₚ a :: q ->
    host_step s (gfx_start RO started a (with_actions q s))
| host_gfx_finish t s : rendering s = Some t -> host_step s (gfx_finish RO t s)
| host_task p q s : sp_task_queue s ≡ₚ Some p :: q -> host_step s (task_round RO get_rsp_microcode p (with_tasks q s)).
(** Rendering takes a second step. *)
Definition work_left s : nat :=
  (length (action_queue s) + tasks_in (action_queue s) + jobs_in (sp_task_queue s) + match rendering s with Some _ => 1 | None => 0 end)%nat.
Lemma host_step_work s s' : host_step s s' -> S (work_left s') = work_left s.
Proof.
  unfold work_left. intros [started a q x Hn Hq|t x Hr|p q x Hq].
  - destruct (gfx_start_books started a (with_actions q x)) as (E1 & E2 & E3). rewrite E1, E2. cbn [action_queue with_actions sp_task_queue].
    rewrite (tasks_in_perm _ _ Hq), (Permutation_length Hq), Hn. change (a :: q) with ([a] ++ q). rewrite tasks_in_app, length_app.
    destruct a; destruct E3 as [_ E4]; rewrite E4; cbn [rendering with_actions]; rewrite ?Hn; unfold tasks_in at 2; simpl; lia.
  - rewrite Hr. cbn [gfx_finish action_queue dp_complete with_cnt post_from_host with_ext mark_complete with_sp with_rendering sp_task_queue rendering]. lia.
  - unfold task_round. destruct (run_task _ _ _ _) as [[b m] d]. rewrite (jobs_in_perm _ _ Hq). change (Some p :: q) with ([Some p] ++ q). rewrite jobs_in_app.
    cbn [sp_complete action_queue with_cnt post_from_host with_ext mark_complete with_sp with_tasks sp_task_queue rendering].
    change (jobs_in [Some p]) with 1%nat. lia.
Qed.
Lemma host_step_possible s : work_left s <> 0%nat -> exists s', host_step s s'.
Proof.
  unfold work_left. intros H. destruct (rendering s) as [t|] eqn:Hr; [eexists; by eapply host_gfx_finish|].
  destruct (action_queue s) as [|a q] eqn:Ha; [|eexists; by eapply (host_gfx_start true); [done|rewrite Ha]].
  assert (exists p q, sp_task_queue s ≡ₚ Some p :: q) as (p & q & Hq).
  { revert H. unfold tasks_in. simpl. generalize (sp_task_queue s). induction l as [|[p|] l IH]; intros H.
    - done.
    - by exists p, l.
    - destruct (IH H) as (p & q & Hq). exists p, (None :: q). etransitivity; [apply Permutation_cons; [reflexivity|exact Hq]|]. apply Permutation_swap. }
  eexists. by eapply host_task.
Qed.

(** The graphics and task threads left alone come to rest after exactly as many steps as there is work, two for a display list, one for any other action or task, and are stuck only when every queue is empty and nothing is being rendered. *)
Theorem host_threads_finish s n s' : nsteps host_step n s s' ->
  (n + work_left s' = work_left s)%nat /\
  ((forall s'', ~ host_step s' s'') -> n = work_left s /\ quiet s' /\ action_queue s' = []).
Proof.
  intros Hn. assert (n + work_left s' = work_left s)%nat as Hw.
  { induction Hn as [|n x y z Hxy Hn IH]; [lia|]. apply host_step_work in Hxy. lia. }
  split; [done|]. intros Hstuck. assert (work_left s' = 0%nat) as Hz.
  { destruct (decide (work_left s' = 0%nat)) as [|H]; [done|]. destruct (host_step_possible s' H) as [x Hx]. by destruct (Hstuck x). }
  split; [lia|]. unfold work_left in Hz. unfold quiet. destruct (action_queue s'); [|simpl in Hz; lia]. destruct (rendering s'); [lia|].
  simpl in Hz. split; [split; [done|split; [lia|done]]|done].
Qed.

(** * What goes wrong *)

(** An event without a queue is posted all the same and can never be delivered:
    each drain that reaches it puts it back. *)
Theorem unregistered_event_is_kept t s k : fst (sp_slot (ev s)) = NULLPTR ->
  ext_list (sp_complete RO t s) ≡ₚ Queued NULLPTR (snd (sp_slot (ev s))) false false :: ext_list s /\
  do_send NULLPTR (snd (sp_slot (ev s))) false false k = Done false k.
Proof.
  intros E. split; [rewrite sp_complete_list; unfold queued; by rewrite E|]. done.
Qed.
(** A completion that a game thread sends to a full queue is lost. *)
Theorem si_message_lost_when_full s : send_guard (fst (si_slot (ev s))) (kern s) = true ->
  MQ_IS_FULL (fst (si_slot (ev s))) (kern s) = true ->
  exists s', send_si_message true s = Some s' /\ kern s' = kern s /\ ext s' = ext s.
Proof.
  intros Hg Hf. unfold send_si_message, post_event, post_rcp_event, do_send, send_resume. rewrite Hg. rewrite Hf. simpl.
  eexists. split; [done|]. done.
Qed.
End Tasks.
