(* ===== verification/SchedulerTick.v ===== *)
(** Voluntary preemption: ultramodern/src/scheduler_tick.cpp.

    A host thread raises a flag when no game thread has been switched to for a
    while; a game thread that meets the flag at a function entry or a loop's back
    edge takes one message from the host and lets a queued thread run, whatever
    its priority, unless it is waiting for the signal processor, whose signal has
    come.  Times are arguments; the co-simulation build is left out. *)

From Stdlib Require Import ZArith Lia Bool List.
From stdpp Require Import base list gmap relations.
From S2P Require Import Prelude Vec128 Rdram RspMem RspCore GuestMem Kernel KernelSpec Scheduler MesgQueue.
Open Scope Z_scope.

Definition kStuckThresholdMs : Z := 200.
Definition kSpStatusOffset : Z := Z.land (0xA4040010 - 0x80000000) 0x3FFFFFFF.
Definition kSpStatusSignalMask : Z := 0x7F80.
Definition kHardwarePollPriority : Z := 80.
Definition kLoopCheckpointCapacity : Z := 256.

(** [preempt_skips] is the budget that rsp.cpp refills when a display list ends. *)
Record tick_state := MkTick {
  g_should_yield : bool; g_last_switch_ms : Z; g_enabled : bool; preempt_skips : Z }.
Definition set_should_yield (b : bool) (t : tick_state) : tick_state :=
  MkTick b (g_last_switch_ms t) (g_enabled t) (preempt_skips t).
Definition set_skips (n : Z) (t : tick_state) : tick_state :=
  MkTick (g_should_yield t) (g_last_switch_ms t) (g_enabled t) n.
Definition voluntary_preemption_set_enabled (b : bool) (t : tick_state) : tick_state :=
  MkTick (g_should_yield t) (g_last_switch_ms t) b (preempt_skips t).
Definition record_context_switch (now : Z) (t : tick_state) : tick_state :=
  MkTick (g_should_yield t) now (g_enabled t) (preempt_skips t).

(** One round of [monitor_func]. *)
Definition monitor_round (now : Z) (t : tick_state) : tick_state :=
  if negb (g_enabled t) then t
  else if g_last_switch_ms t =? 0 then t
  else if g_should_yield t then t
  else if u64 (now - g_last_switch_ms t) >? kStuckThresholdMs then set_should_yield true t
  else t.

(** [None] of the result is a fault of the host. *)
Definition yield_to_any_queued (s : kstate) : option kstate :=
  if thread_queue_empty running_queue s then Some s
  else let '(next, s) := thread_queue_pop running_queue s in swap_to_thread next s.

(** The signal that a busy loop polls for is there. *)
Definition signal_visible (s : kstate) : bool :=
  negb (Z.land (load 4 kSpStatusOffset (mem s)) kSpStatusSignalMask =? 0).
Definition high_priority_poll (s : kstate) : bool :=
  negb (thread_self s =? NULLPTR) && (t_priority (thread_self s) s >=? kHardwarePollPriority).
(** [recomp_rsp_consume_preempt_skip_budget]. *)
Definition consume_skip (t : tick_state) : bool * tick_state :=
  let '(r, p) := consume_preempt_skip_budget (M:=hostmem) (SpState 0 (preempt_skips t) None) in
  (negb (r =? 0), set_skips (preempt_skip_budget p) t).

Section Tick.
Context {Q : Type} {EQ : ExtQueue Q}.

(** [wait_for_resumed] stamps the time when another thread has been resumed. *)
Definition stamp (now : Z) (before after : kstate) (t : tick_state) : tick_state :=
  if thread_self after =? thread_self before then t else record_context_switch now t.

(** [game] is [is_game_thread()], [ready] says that memory is set up. *)
Definition scheduler_tick (game ready : bool) (now : Z) (t : tick_state) (e : external Q) (s : kstate) : option (tick_state * external Q * kstate) :=
  if negb (g_should_yield t) then
    if negb (external_message_pending e) then Some (t, e, s)
    else if negb game then Some (t, e, s)
    else if negb ready then Some (t, e, s)
    else
      match wait_for_external_message_timed e s with
      | Done e s1 =>
          match check_running_queue s1 with
          | Some s2 => Some (stamp now s1 s2 t, e, s2)
          | None => None
          end
      | _ => None
      end
  else if negb game then Some (t, e, s)
  else if negb ready then Some (t, e, s)
  else
    let t := set_should_yield false t in
    match wait_for_external_message_timed e s with
    | Done e s1 =>
        let swap t := match yield_to_any_queued s1 with
                      | Some s2 => Some (stamp now s1 s2 t, e, s2)
                      | None => None
                      end in
        if signal_visible s1 then
          if high_priority_poll s1 then Some (t, e, s1)
          else let '(skip, t) := consume_skip t in if skip then Some (t, e, s1) else swap t
        else swap t
    | _ => None
    end.
End Tick.

(** ** Loop checkpoints *)

Record LoopCheckpointSlot := MkSlot { ck_pc : Z; ck_thread : Z; ck_thread_id : Z; ck_ms : Z; ck_count : Z }.
Definition no_checkpoint : LoopCheckpointSlot := MkSlot 0 0 0 0 0.
(** [self] is the running thread, [None] without memory. *)
Definition record_loop_checkpoint (pc now : Z) (self : option kstate) (slots : gmap Z LoopCheckpointSlot) : gmap Z LoopCheckpointSlot :=
  if pc =? 0 then slots
  else
    let '(thread, id) :=
      match self with
      | Some s => if thread_self s =? NULLPTR then (0, 0) else (u32 (thread_self s), u32 (t_id (thread_self s) s))
      | None => (0, 0)
      end in
    let idx := if id <? kLoopCheckpointCapacity then id else 0 in
    <[idx := MkSlot pc thread id (u32 now) (u64 (ck_count (default no_checkpoint (slots !! idx)) + 1))]> slots.
Definition ultramodern_loop_checkpoint_get (id : Z) (slots : gmap Z LoopCheckpointSlot) : option LoopCheckpointSlot :=
  if id >=? kLoopCheckpointCapacity then None
  else let slot := default no_checkpoint (slots !! id) in
       if ck_count slot =? 0 then None else Some slot.

(** * What the tick promises *)

Section TickSpec.
Context (is_thread : Z -> Prop) (Lay : threads_layout is_thread).
Context {Q : Type} {EQ : ExtQueue Q}.
Abbreviation sched_ok := (sched_ok is_thread).

(** A scheduler state whose running thread can be resumed. *)
Definition live (s : kstate) (ts : list Z) : Prop := sched_ok s ts /\ t_context (thread_self s) s <> 0.

Lemma yield_spec s ts : live s ts -> exists s' ts', yield_to_any_queued s = Some s' /\ live s' ts' /\
  thread_self s' = hd (thread_self s) ts /\ thread_self s' :: ts' ≡ₚ thread_self s :: ts.
Proof.
  intros [Hs Hc]. unfold yield_to_any_queued. pose proof (sched_queue _ _ _ Hs) as Hq. rewrite (queue_is_empty is_thread Lay s _ ts Hq).
  destruct ts as [|t ts]; [exists s, []; done|].
  destruct (swap_sched_ok is_thread Lay s t ts Hs Hc) as (s' & ts' & E & H1 & H2 & H3 & H4).
  rewrite (pop_unfold is_thread Lay s _ t ts Hq) in *. exists s', ts'. by split; [exact E|split; [split|split]].
Qed.

(** A tick with the yield flag raised and no message from the host clears the flag and keeps the scheduler's state well formed with the same threads. While the signal processor's signal is visible, a thread of high priority, or any thread while the skip budget lasts (one unit each), keeps running with nothing changed; otherwise the head of the running queue runs, whatever its priority. *)
Theorem tick_lets_the_head_run now t (e : external Q) s ts :
  live s ts -> try_dequeue e = None -> g_should_yield t = true -> 0 <= preempt_skips t < 2 ^ 32 ->
  exists t' s' ts', scheduler_tick true true now t e s = Some (t', e, s') /\ live s' ts' /\
  g_should_yield t' = false /\ thread_self s' :: ts' ≡ₚ thread_self s :: ts /\
  if signal_visible s && (high_priority_poll s || negb (preempt_skips t =? 0))
  then s' = s /\ preempt_skips t' = (if high_priority_poll s then preempt_skips t else preempt_skips t - 1)
  else thread_self s' = hd (thread_self s) ts /\ preempt_skips t' = preempt_skips t /\
       (ts <> [] -> g_last_switch_ms t' = now).
Proof.
  intros Hl He Hy Hb. unfold scheduler_tick, wait_for_external_message_timed. rewrite Hy, He. cbn [negb].
  destruct (yield_spec s ts Hl) as (s' & ts' & Ey & Hl' & Hh & Hp).
  assert (forall t0, (ts <> [] -> thread_self s' <> thread_self s) -> exists t1, 
    (match yield_to_any_queued s with Some s2 => Some (stamp now s s2 t0, e, s2) | None => None end) = Some (t1, e, s') /\
    g_should_yield t1 = g_should_yield t0 /\ preempt_skips t1 = preempt_skips t0 /\ (ts <> [] -> g_last_switch_ms t1 = now)) as Hswap.
  { intros t0 Hne. rewrite Ey. eexists. split; [done|]. unfold stamp. destruct (Z.eqb_spec (thread_self s') (thread_self s)) as [E|E]; [|done].
    split; [done|]. split; [done|]. intros Hts. by destruct (Hne Hts). }
  assert (ts <> [] -> thread_self s' <> thread_self s) as Hne.
  { intros Hts. rewrite Hh. destruct ts as [|x ts]; [done|]. simpl. intros ->. destruct Hl as [Hs _].
    apply (sched_self_out _ _ _ Hs). left. }
  destruct (signal_visible s); [destruct (high_priority_poll s)|]; cbn [andb orb].
  - exists (set_should_yield false t), s, ts. done.
  - unfold consume_skip, consume_preempt_skip_budget. cbn [preempt_skip_budget preempt_skips set_should_yield].
    destruct (Z.eqb_spec (preempt_skips t) 0) as [Hz|Hz]; cbn [negb].
    + destruct (Hswap (set_skips (preempt_skips t) (set_should_yield false t)) Hne) as (t1 & E & H1 & H2 & H3).
      exists t1, s', ts'. split; [exact E|]. done.
    + exists (set_skips (preempt_skips t - 1) (set_should_yield false t)), s, ts. split; [|done].
      cbn. rewrite u32_small by (unfold is_u32; lia). done.
  - destruct (Hswap (set_should_yield false t) Hne) as (t1 & E & H1 & H2 & H3). exists t1, s', ts'. split; [exact E|]. done.
Qed.

(** A stuck thread: the monitor looks, then the thread reaches a tick, and so on. *)
Fixpoint rounds (nows : list Z) (t : tick_state) (e : external Q) (s : kstate) : option (tick_state * external Q * kstate) :=
  match nows with
  | [] => Some (t, e, s)
  | now :: nows =>
      match scheduler_tick true true now (monitor_round now t) e s with
      | Some (t, e, s) => rounds nows t e s
      | None => None
      end
  end.

(** C24: A thread that never blocks, below the hardware-poll priority, with another thread
    queued and no message from the host gives way: when the monitor looks more than 200 ms
    after the last switch, once per tick, the head of the running queue runs after at most
    one tick more than the skip budget holds. *)
Theorem stuck_thread_gives_way nows last t (e : external Q) s ts :
  live s ts -> ts <> [] -> try_dequeue e = None -> high_priority_poll s = false ->
  g_enabled t = true -> g_last_switch_ms t = last -> last <> 0 -> 0 <= preempt_skips t < 2 ^ 32 ->
  Forall (fun now => u64 (now - last) > kStuckThresholdMs) nows -> Z.of_nat (length nows) = preempt_skips t + 1 ->
  exists n t' s' ts', (n < length nows)%nat /\ rounds (take (S n) nows) t e s = Some (t', e, s') /\ live s' ts' /\
    thread_self s' = hd NULLPTR ts /\ thread_self s' :: ts' ≡ₚ thread_self s :: ts.
Proof.
  intros Hl Hts He Hp. revert t. induction nows as [|now nows IH]; intros t Hen Hlast Hnz Hb HF Hlen; [simpl in Hlen; lia|].
  apply Forall_cons in HF as [Hnow HF].
  set (t1 := monitor_round now t).
  assert (g_should_yield t1 = true /\ preempt_skips t1 = preempt_skips t /\ g_enabled t1 = true /\ g_last_switch_ms t1 = last) as (H1 & H2 & H3 & H4).
  { unfold t1, monitor_round. rewrite Hen, Hlast, (proj2 (Z.eqb_neq last 0)) by done. cbn [negb].
    destruct (g_should_yield t) eqn:Ey; [done|]. by rewrite (proj2 (Z.gtb_lt _ _)) by lia. }
  destruct (tick_lets_the_head_run now t1 e s ts Hl He H1 ltac:(lia)) as (t' & s' & ts' & E & Hl' & _ & Hperm & Hres).
  destruct (signal_visible s && (high_priority_poll s || negb (preempt_skips t1 =? 0))) eqn:Ec.
  - rewrite Hp in Hres. destruct Hres as [-> Hb']. apply andb_prop in Ec as [_ Ec]. rewrite Hp in Ec. simpl in Ec.
    destruct (Z.eqb_spec (preempt_skips t1) 0) as [|Hne]; [done|]. simpl in Hlen.
    assert (g_enabled t' = true /\ g_last_switch_ms t' = last) as [Hen' Hlast'].
    { revert E. unfold scheduler_tick, wait_for_external_message_timed. rewrite H1, He. cbn [negb].
      destruct (signal_visible s); [|intros E].
      - rewrite Hp. unfold consume_skip, consume_preempt_skip_budget. cbn [preempt_skip_budget preempt_skips set_should_yield].
        rewrite (proj2 (Z.eqb_neq (preempt_skips t1) 0)) by done.
        intros E. change (1 =? 0) with false in E. cbn [negb] in E. cbv beta iota in E. injection E as E. rewrite <- E. done.
      - destruct (yield_to_any_queued s) as [s2|] eqn:Ey; [|done]. injection E as E Es. rewrite <- E, Es.
        unfold stamp. rewrite Z.eqb_refl. done. }
    destruct (IH t' Hen' Hlast' Hnz ltac:(lia) HF ltac:(lia)) as (n & t2 & s2 & ts2 & Hn & E2 & Hl2 & Hh2 & Hp2).
    exists (S n), t2, s2, ts2. split; [simpl; lia|]. split; [|done]. cbn [take rounds]. fold t1. rewrite E. exact E2.
  - destruct Hres as [Hh _]. exists 0%nat, t', s', ts'. split; [simpl; lia|]. split; [cbn [take rounds]; fold t1; by rewrite E|].
    split; [done|]. split; [|done]. rewrite Hh. by destruct ts.
Qed.
End TickSpec.

Theorem loop_checkpoint_roundtrip pc now s slots id : pc <> 0 -> thread_self s <> NULLPTR ->
  u32 (t_id (thread_self s) s) = id -> id < kLoopCheckpointCapacity ->
  let slots' := record_loop_checkpoint pc now (Some s) slots in
  let n := u64 (ck_count (default no_checkpoint (slots !! id)) + 1) in
  (ultramodern_loop_checkpoint_get id slots' = if n =? 0 then None else Some (MkSlot pc (u32 (thread_self s)) id (u32 now) n)) /\
  (forall id', id' <> id -> ultramodern_loop_checkpoint_get id' slots' = ultramodern_loop_checkpoint_get id' slots).
Proof.
  intros Hpc Hself Hid Hlt. unfold record_loop_checkpoint. rewrite (proj2 (Z.eqb_neq pc 0)), (proj2 (Z.eqb_neq (thread_self s) NULLPTR)) by done.
  rewrite Hid, (proj2 (Z.ltb_lt _ _) Hlt). cbv zeta. unfold ultramodern_loop_checkpoint_get. split.
  - rewrite Z.geb_leb, (proj2 (Z.leb_gt _ _)) by lia. rewrite lookup_insert_eq. done.
  - intros id' Hne. by rewrite lookup_insert_ne by done.
Qed.
