(* ===== verification/EventsCosim.v ===== *)
(** Events of the co-simulation build (N64_COSIM) of ultramodern/src/events.cpp and
    timer.cpp: completions are scheduled on a clock of CPU cycles and delivered when
    they are due, by the game thread that notices. *)

From Stdlib Require Import ZArith Lia Bool List.
From stdpp Require Import base list gmap.
From S2P Require Import Prelude Vec128 Rdram RspMem RspCore GuestMem Kernel MesgQueue Events.
Open Scope Z_scope.

Inductive CosimRcpEventKind := SpComplete | DpComplete | ViRetrace | AiEvent.
Record CosimRcpEvent := MkRcp {
  due_cycle : Z; rcp_seq : Z; rcp_gfx_seq : Z; rcp_task_type : Z; rcp_mq : Z; rcp_msg : Z; rcp_kind : CosimRcpEventKind }.
Definition kCosimGfxSpDelay : Z := 512.
Definition kCosimGfxDpDelay : Z := 4096.
Definition kCosimRspSpDelay : Z := 2048.
Definition kCosimCounterPerMs : Z := 46875.
Definition kCosimCounterPerVi : Z := kCosimCounterPerMs * 1000 / 60.

(** Counts by kind, those of SP completions by type as well. *)
Record tallies := MkTallies { n_sp : Z; n_dp : Z; n_vi : Z; n_ai : Z; n_sp_gfx : Z; n_sp_audio : Z; n_sp_other : Z }.
Definition no_tallies : tallies := MkTallies 0 0 0 0 0 0 0.
Definition count_kind (k : CosimRcpEventKind) (task_type : Z) (t : tallies) : tallies :=
  match k with
  | SpComplete =>
      MkTallies (u64 (n_sp t + 1)) (n_dp t) (n_vi t) (n_ai t)
        (if task_type =? M_GFXTASK then u64 (n_sp_gfx t + 1) else n_sp_gfx t)
        (if task_type =? M_GFXTASK then n_sp_audio t else if task_type =? M_AUDTASK then u64 (n_sp_audio t + 1) else n_sp_audio t)
        (if task_type =? M_GFXTASK then n_sp_other t else if task_type =? M_AUDTASK then n_sp_other t else u64 (n_sp_other t + 1))
  | DpComplete => MkTallies (n_sp t) (u64 (n_dp t + 1)) (n_vi t) (n_ai t) (n_sp_gfx t) (n_sp_audio t) (n_sp_other t)
  | ViRetrace => MkTallies (n_sp t) (n_dp t) (u64 (n_vi t + 1)) (n_ai t) (n_sp_gfx t) (n_sp_audio t) (n_sp_other t)
  | AiEvent => MkTallies (n_sp t) (n_dp t) (n_vi t) (u64 (n_ai t + 1)) (n_sp_gfx t) (n_sp_audio t) (n_sp_other t)
  end.

(** The video tokens: requested retraces, their clock, and the tick's own counters. *)
Record vi_tokens := MkTokens {
  tokens : Z; next_vi_cycle : Z; needs_rebase : bool; control_enabled : bool; remaining : Z; dummy_odd : bool }.

Section Cosim.
Context {Q : Type} {EQ : ExtQueue Q} (RO : RdramOps hostmem).
Context (get_rsp_microcode : hostmem -> OSTask -> option (hostmem -> dmem_t -> Z -> RspExitReason * hostmem * dmem_t)).
(** The environment can change the three delays. *)
Context (gfx_sp_delay gfx_dp_delay rsp_sp_delay : Z).

Record cosim := MkCosim {
  base : events Q; rcp_events : list CosimRcpEvent; rcp_next_seq : Z; gfx_next_seq : Z; gfx_rendered_seq : Z;
  cosim_time_ticks : Z; vtok : vi_tokens; scheduled : tallies; delivered : tallies }.
Definition with_base (b : events Q) (c : cosim) : cosim :=
  MkCosim b (rcp_events c) (rcp_next_seq c) (gfx_next_seq c) (gfx_rendered_seq c) (cosim_time_ticks c) (vtok c) (scheduled c) (delivered c).
Definition with_ticks (t : Z) (c : cosim) : cosim :=
  MkCosim (base c) (rcp_events c) (rcp_next_seq c) (gfx_next_seq c) (gfx_rendered_seq c) t (vtok c) (scheduled c) (delivered c).
Definition with_vtok (v : vi_tokens) (c : cosim) : cosim :=
  MkCosim (base c) (rcp_events c) (rcp_next_seq c) (gfx_next_seq c) (gfx_rendered_seq c) (cosim_time_ticks c) v (scheduled c) (delivered c).
Definition with_gfx (next rendered : Z) (c : cosim) : cosim :=
  MkCosim (base c) (rcp_events c) (rcp_next_seq c) next rendered (cosim_time_ticks c) (vtok c) (scheduled c) (delivered c).
Definition with_popped (l : list CosimRcpEvent) (c : cosim) : cosim :=
  MkCosim (base c) l (rcp_next_seq c) (gfx_next_seq c) (gfx_rendered_seq c) (cosim_time_ticks c) (vtok c) (scheduled c) (delivered c).
Definition count_delivered (e : CosimRcpEvent) (c : cosim) : cosim :=
  MkCosim (base c) (rcp_events c) (rcp_next_seq c) (gfx_next_seq c) (gfx_rendered_seq c) (cosim_time_ticks c) (vtok c) (scheduled c)
    (count_kind (rcp_kind e) (rcp_task_type e) (delivered c)).

(** ** The clock *)

(** Reading the clock moves it to the floor that the retraces set. *)
Definition cosim_sync_time_floor (c : cosim) : cosim :=
  with_ticks (Z.max (cosim_time_ticks c) (u64 (total_vis (vit (base c)) * kCosimCounterPerVi))) c.
Definition now (c : cosim) : Z := cosim_time_ticks (cosim_sync_time_floor c).
Definition advance_time_ticks (n : Z) (c : cosim) : cosim :=
  if n =? 0 then c else let c := cosim_sync_time_floor c in with_ticks (u64 (cosim_time_ticks c + n)) c.

(** ** Scheduling *)

Definition push_event (e : CosimRcpEvent) (c : cosim) : cosim :=
  MkCosim (base c) (rcp_events c ++ [e]) (u64 (rcp_next_seq c + 1)) (gfx_next_seq c) (gfx_rendered_seq c) (cosim_time_ticks c) (vtok c)
    (count_kind (rcp_kind e) (rcp_task_type e) (scheduled c)) (delivered c).
Definition schedule_rcp_event (k : CosimRcpEventKind) (task_type delay gfx_seq : Z) (c : cosim) : cosim :=
  let c := cosim_sync_time_floor c in
  push_event (MkRcp (u64 (cosim_time_ticks c + delay)) (rcp_next_seq c) gfx_seq task_type NULLPTR 0 k) c.
Definition schedule_queue_event (k : CosimRcpEventKind) (mq msg delay : Z) (c : cosim) : cosim :=
  if mq =? NULLPTR then c
  else let c := cosim_sync_time_floor c in
       push_event (MkRcp (u64 (cosim_time_ticks c + delay)) (rcp_next_seq c) 0 0 mq msg k) c.

(** ** Delivery *)

Definition earlier (a b : CosimRcpEvent) : bool :=
  (due_cycle a <? due_cycle b) || ((due_cycle a =? due_cycle b) && (rcp_seq a <? rcp_seq b)).
(** The scan over the list; [best] is the index found so far with its event. *)
Fixpoint best_due (now : Z) (i : nat) (l : list CosimRcpEvent) (best : option (nat * CosimRcpEvent)) : option (nat * CosimRcpEvent) :=
  match l with
  | [] => best
  | e :: l =>
      if due_cycle e >? now then best_due now (S i) l best
      else match best with
           | None => best_due now (S i) l (Some (i, e))
           | Some (j, b) => best_due now (S i) l (if earlier e b then Some (i, e) else Some (j, b))
           end
  end.
(** A display processor completion waits for its list to be rendered. *)
Definition blocked (rendered : Z) (e : CosimRcpEvent) : bool :=
  match rcp_kind e with DpComplete => negb (rcp_gfx_seq e =? 0) && (rendered <? rcp_gfx_seq e) | _ => false end.
Definition pop_due_rcp_event (now : Z) (c : cosim) : option (CosimRcpEvent * cosim) :=
  match best_due now 0 (rcp_events c) None with
  | None => None
  | Some (i, e) => if blocked (gfx_rendered_seq c) e then None else Some (e, with_popped (delete i (rcp_events c)) c)
  end.
Definition complete (game : bool) (slot : Z * Z) (task_type : Z) (s : events Q) : option (events Q) :=
  post_event game slot false (mark_complete RO task_type s).
Definition deliver_one (game : bool) (e : CosimRcpEvent) (c : cosim) : option cosim :=
  let s := base c in
  let o :=
    match rcp_kind e with
    | SpComplete =>
        s ← complete game (sp_slot (ev s)) (rcp_task_type e) s; let n := cnt s in
        Some (with_cnt (MkCounters (u64 (g_sp_complete n + 1)) (g_dp_complete n) (g_submit_gfx n) (g_submit_audio n) (g_submit_other n) (g_dl_entry n) (g_dl_exit n)) s)
    | DpComplete =>
        s ← complete game (dp_slot (ev s)) (rcp_task_type e) s; let n := cnt s in
        Some (with_cnt (MkCounters (g_sp_complete n) (u64 (g_dp_complete n + 1)) (g_submit_gfx n) (g_submit_audio n) (g_submit_other n) (g_dl_entry n) (g_dl_exit n)) s)
    | ViRetrace => post_event game (rcp_mq e, rcp_msg e) true s
    | AiEvent => post_event game (rcp_mq e, rcp_msg e) false s
    end in
  s ← o; Some (count_delivered e (with_base s c)).
(** [game] says whether the delivering thread is a game thread; the result is the
    number of events delivered. *)
Fixpoint deliver_due_rcp_events (fuel : nat) (game : bool) (c : cosim) : option (nat * cosim) :=
  match fuel with
  | O => None
  | S fuel =>
      let c := cosim_sync_time_floor c in
      match pop_due_rcp_event (cosim_time_ticks c) c with
      | None => Some (0%nat, c)
      | Some (e, c) =>
          c ← deliver_one game e c;
          '(n, c) ← deliver_due_rcp_events fuel game c; Some (S n, c)
      end
  end.
Definition deliver_all (game : bool) (c : cosim) : option (nat * cosim) :=
  deliver_due_rcp_events (S (length (rcp_events c))) game c.

Definition next_rcp_due (c : cosim) : option Z :=
  match rcp_events c with
  | [] => None
  | e :: l => Some (fst (foldl (fun '(b, q) e => if (due_cycle e <? b) || ((due_cycle e =? b) && (rcp_seq e <? q)) then (due_cycle e, rcp_seq e) else (b, q))
                           (due_cycle e, rcp_seq e) (e :: l)))
  end.
Definition rcp_event_ready (c : cosim) : bool :=
  existsb (fun e => negb (due_cycle e >? now c) && negb (blocked (gfx_rendered_seq c) e)) (rcp_events c).
Definition reset_rcp_events (c : cosim) : cosim := MkCosim (base c) [] 0 0 0 (cosim_time_ticks c) (vtok c) no_tallies no_tallies.
(** The pending events of a kind, and of SP completions by type. *)
Definition pending_tallies (l : list CosimRcpEvent) : tallies :=
  foldl (fun t e => count_kind (rcp_kind e) (rcp_task_type e) t) no_tallies l.

(** ** Retraces on request *)

Definition rebase (c : cosim) : cosim :=
  if needs_rebase (vtok c) then
    let v := vtok c in
    with_vtok (MkTokens (tokens v) kCosimCounterPerVi false (control_enabled v) 1 (dummy_odd v))
      (with_base (with_vit (MkViThread (odd (vit (base c))) (remaining_retraces (vit (base c))) 0) (base c)) c)
  else c.
Definition request_vi (game_started : bool) (count : Z) (c : cosim) : Z * cosim :=
  if (count =? 0) || negb game_started then (0, c)
  else
    let c := rebase c in
    let v := vtok c in
    let room := 0xFFFFFFFF - tokens v in
    let accepted := if count >? room then room else count in
    (accepted, with_vtok (MkTokens (tokens v + accepted) (next_vi_cycle v) (needs_rebase v) (control_enabled v) (remaining v) (dummy_odd v)) c).
Definition reset_vi_counter (c : cosim) : cosim :=
  with_vtok (MkTokens 0 kCosimCounterPerVi true true 1 (dummy_odd (vtok c)))
    (with_base (with_vit (MkViThread (odd (vit (base c))) (remaining_retraces (vit (base c))) 0) (base c)) c).
(** [ultramodern_cosim_advance_vi]: one retrace, its events scheduled for now. *)
Definition advance_vi (c : cosim) : option cosim :=
  let s := base c in
  let s := with_vit (MkViThread (odd (vit s)) (remaining_retraces (vit s)) (u64 (total_vis (vit s) + 1))) s in
  let v := vtok c in
  let '(s, v) :=
    match vi_mode (get_next_state (vi s)) with
    | None => (with_vi (set_next_state (set_dummy_vi (dummy_odd v) (get_next_state (vi s))) (vi s)) s,
               MkTokens (tokens v) (next_vi_cycle v) (needs_rebase v) (control_enabled v) (remaining v) (negb (dummy_odd v)))
    | Some _ => (s, v)
    end in
  let s := with_actions (action_queue s ++ [ScreenUpdateAction (regs (vi s))]) s in
  match update_vi (mem (kern s)) (vi s) with
  | None => None
  | Some x =>
      let s := with_vi x s in
      let cur := get_cur_state x in
      let c := with_vtok v (with_base s c) in
      let r := s32 (remaining v - 1) in
      let c := if r <=? 0 then schedule_queue_event ViRetrace (vi_mq cur) (vi_msg cur) 0 c else c in
      let r := if r <=? 0 then (if retrace_count cur >? 0 then retrace_count cur else 1) else r in
      let v := vtok c in
      let c := with_vtok (MkTokens (tokens v) (next_vi_cycle v) (needs_rebase v) (control_enabled v) r (dummy_odd v)) c in
      Some (schedule_queue_event AiEvent (fst (ai_slot (ev s))) (snd (ai_slot (ev s))) 0 c)
  end.
(** The retrace itself counts as one delivery. *)
Definition advance_due_vi (game_started game allow_time_advance : bool) (c : cosim) : option (nat * cosim) :=
  if negb (control_enabled (vtok c)) || negb game_started then Some (0%nat, c)
  else
    let c := rebase c in
    if tokens (vtok c) =? 0 then Some (0%nat, c)
    else
      let c := cosim_sync_time_floor c in
      let due := next_vi_cycle (vtok c) in
      if (cosim_time_ticks c <? due) && negb allow_time_advance then Some (0%nat, c)
      else
        let c := if cosim_time_ticks c <? due then advance_time_ticks (due - cosim_time_ticks c) c else c in
        let c := cosim_sync_time_floor c in
        let v := vtok c in
        if cosim_time_ticks c <? next_vi_cycle v then Some (0%nat, c)
        else
          let c := with_vtok (MkTokens (tokens v - 1) (u64 (next_vi_cycle v + kCosimCounterPerVi)) (needs_rebase v) (control_enabled v) (remaining v) (dummy_odd v)) c in
          c ← advance_vi c;
          '(n, c) ← deliver_all game c; Some (S n, c).
Definition next_vi_due (game_started : bool) (c : cosim) : option Z :=
  if negb (control_enabled (vtok c)) || negb game_started then None
  else if tokens (vtok c) =? 0 then None
  else Some (if needs_rebase (vtok c) then kCosimCounterPerVi else next_vi_cycle (vtok c)).
Definition vi_due_now (game_started : bool) (c : cosim) : bool :=
  match next_vi_due game_started c with Some due => now c >=? due | None => false end.
Definition rcp_event_due (game_started : bool) (c : cosim) : bool := vi_due_now game_started c || rcp_event_ready c.

(** When nothing is due, the clock jumps to the next event. *)
Definition advance_to_next_rcp_event (game_started game : bool) (c : cosim) : option (nat * cosim) :=
  '(n, c) ← advance_due_vi game_started game false c;
  '(m, c) ← deliver_all game c;
  let d := (n + m)%nat in
  if negb (d =? 0)%nat then Some (d, c)
  else
    let c := cosim_sync_time_floor c in
    match next_rcp_due c, next_vi_due game_started c with
    | None, None => Some (0%nat, c)
    | rcp, Some vi_due =>
        if match rcp with Some r => vi_due <=? r | None => true end then
          let c := if vi_due >? cosim_time_ticks c then advance_time_ticks (vi_due - cosim_time_ticks c) c else c in
          advance_due_vi game_started game false c
        else
          let r := default 0 rcp in
          let c := if r >? cosim_time_ticks c then advance_time_ticks (r - cosim_time_ticks c) c else c in
          deliver_all game c
    | Some r, None =>
        let c := if r >? cosim_time_ticks c then advance_time_ticks (r - cosim_time_ticks c) c else c in
        deliver_all game c
    end.

(** ** Tasks: rendered or run before their completions are scheduled *)

(** The call waits until the graphics thread has rendered the list. *)
Definition submit_rsp_task_cosim (game_started : bool) (p : Z) (c : cosim) : cosim :=
  let s := base c in
  let t := load_task_at p (mem (kern s)) in
  let n := cnt s in
  if task_type t =? M_GFXTASK then
    let s := with_cnt (MkCounters (g_sp_complete n) (g_dp_complete n) (u64 (g_submit_gfx n + 1)) (g_submit_audio n) (g_submit_other n) (u64 (g_dl_entry n + 1)) (u64 (g_dl_exit n + 1))) s in
    let first := game_started && negb (instant_present s) in
    let s := with_rendering None ((if first then [Enable_instant_present] else []) ++ [Send_dl t]) (instant_present s || first) s in
    let seq := u64 (gfx_next_seq c + 1) in
    let c := with_gfx seq (Z.max (gfx_rendered_seq c) seq) (with_base s c) in
    schedule_rcp_event DpComplete (task_type t) gfx_dp_delay seq (schedule_rcp_event SpComplete (task_type t) gfx_sp_delay 0 c)
  else
    let '(_, m, d) := run_task get_rsp_microcode (mem (kern s)) t (dmem s) in
    let s := with_cnt (if task_type t =? M_AUDTASK
                       then MkCounters (g_sp_complete n) (g_dp_complete n) (g_submit_gfx n) (u64 (g_submit_audio n + 1)) (g_submit_other n) (g_dl_entry n) (g_dl_exit n)
                       else MkCounters (g_sp_complete n) (g_dp_complete n) (g_submit_gfx n) (g_submit_audio n) (u64 (g_submit_other n + 1)) (g_dl_entry n) (g_dl_exit n)) s in
    let s := with_sp (sp_status s) m d s in
    schedule_rcp_event SpComplete (task_type (load_task_at p (mem (kern s)))) rsp_sp_delay 0 (with_base s c).
End Cosim.
