(* ===== verification/EventsCosimSpec.v ===== *)
(** Co-simulation: events are delivered when they are due, in the order of their
    times and of their scheduling, and rendering never holds one back. *)

From Stdlib Require Import ZArith Lia Bool List.
From stdpp Require Import base list gmap sorting.
From S2P Require Import Prelude Vec128 Rdram RspMem RspCore GuestMem Kernel MesgQueue MesgQueueSpec Events EventsCosim.
Open Scope Z_scope.

(** [a] may be delivered before [b]. *)
Definition in_order (a b : CosimRcpEvent) : Prop := earlier b a = false.
Lemma earlier_lt a b : earlier a b = true <-> due_cycle a < due_cycle b \/ (due_cycle a = due_cycle b /\ rcp_seq a < rcp_seq b).
Proof. unfold earlier. rewrite orb_true_iff, andb_true_iff, !Z.ltb_lt, Z.eqb_eq. done. Qed.
Lemma in_order_le a b : in_order a b <-> due_cycle a < due_cycle b \/ (due_cycle a = due_cycle b /\ rcp_seq a <= rcp_seq b).
Proof. unfold in_order. rewrite <- not_true_iff_false, earlier_lt. lia. Qed.

Definition best_of (now : Z) (l : list CosimRcpEvent) (best : option (nat * CosimRcpEvent)) : Prop :=
  match best with
  | None => forall x, x ∈ l -> now < due_cycle x
  | Some (j, b) => l !! j = Some b /\ due_cycle b <= now /\ forall x, x ∈ l -> due_cycle x <= now -> in_order b x
  end.
Lemma best_due_spec now l : forall pre best, best_of now pre best -> best_of now (pre ++ l) (best_due now (length pre) l best).
Proof.
  induction l as [|e l IH]; intros pre best Hb; cbn [best_due]; [by rewrite app_nil_r|].
  assert (pre ++ e :: l = (pre ++ [e]) ++ l) as -> by by rewrite <- app_assoc.
  assert (S (length pre) = length (pre ++ [e])) as -> by (rewrite length_app; simpl; lia).
  assert ((pre ++ [e]) !! length pre = Some e) as He by by rewrite list_lookup_middle.
  destruct (Z.gtb_spec (due_cycle e) now) as [Hd|Hd]; [|destruct best as [[j b]|]; [destruct (earlier e b) eqn:E|]]; apply IH; unfold best_of in *.
  - destruct best as [[j b]|].
    + destruct Hb as (Hj & Hn & Hm). split; [by apply lookup_app_l_Some|]. split; [done|].
      intros x [Hx|Hx%list_elem_of_singleton]%elem_of_app Hxn; [by apply Hm|subst; lia].
    + intros x [Hx|Hx%list_elem_of_singleton]%elem_of_app; [by apply Hb|subst; lia].
  - destruct Hb as (Hj & Hn & Hm). split; [done|]. split; [done|]. apply earlier_lt in E.
    intros x [Hx|Hx%list_elem_of_singleton]%elem_of_app Hxn; apply in_order_le; [|subst; lia]. specialize (Hm x Hx Hxn). apply in_order_le in Hm. lia.
  - destruct Hb as (Hj & Hn & Hm). split; [by apply lookup_app_l_Some|]. split; [done|].
    intros x [Hx|Hx%list_elem_of_singleton]%elem_of_app Hxn; [by apply Hm|by subst].
  - split; [done|]. split; [done|]. intros x [Hx|Hx%list_elem_of_singleton]%elem_of_app Hxn; [specialize (Hb x Hx); lia|subst; apply in_order_le; lia].
Qed.
Lemma best_due_best now l : best_of now l (best_due now 0 l None).
Proof. apply (best_due_spec now l [] None). intros x Hx. by apply elem_of_nil in Hx. Qed.

Section Spec.
Context {Q : Type} {EQ : ExtQueue Q} `{!ExtQueueLaws Q} (RO : RdramOps hostmem).
Context (get_rsp_microcode : hostmem -> OSTask -> option (hostmem -> dmem_t -> Z -> RspExitReason * hostmem * dmem_t)).
Context (gfx_sp_delay gfx_dp_delay rsp_sp_delay : Z).
Abbreviation cosim := (cosim (Q:=Q)).
Implicit Types (c : cosim).

(** Delivering posts at most a message: it schedules nothing and takes no time. *)
Definition same_schedule c c' : Prop :=
  rcp_events c' = rcp_events c /\ gfx_rendered_seq c' = gfx_rendered_seq c /\ cosim_time_ticks c' = cosim_time_ticks c /\
  total_vis (vit (base c')) = total_vis (vit (base c)).
(** What handing an event over is. Its message goes to the queue registered for it;
    a completion first marks the task complete in the coprocessor's status. *)
Definition message_of (sl : slots) (e : CosimRcpEvent) : QueuedMessage :=
  match rcp_kind e with
  | SpComplete => Queued (fst (sp_slot sl)) (snd (sp_slot sl)) false false
  | DpComplete => Queued (fst (dp_slot sl)) (snd (dp_slot sl)) false false
  | ViRetrace => Queued (rcp_mq e) (rcp_msg e) false true
  | AiEvent => Queued (rcp_mq e) (rcp_msg e) false false
  end.
Definition marked (e : CosimRcpEvent) (s : events Q) : events Q :=
  match rcp_kind e with SpComplete | DpComplete => mark_complete RO (rcp_task_type e) s | _ => s end.
(** A game thread sends the message to the guest's queue, which takes it unless it
    is full or no queue; any other thread puts it into the external queue. *)
Definition gives (game : bool) (m : QueuedMessage) (s s' : events Q) : Prop :=
  if game then
    do_send (qm_mq m) (qm_mesg m) false false (kern s) =
      Done (send_guard (qm_mq m) (kern s) && negb (MQ_IS_FULL (qm_mq m) (kern s))) (kern s') /\ ext s' = ext s
  else ext_elems (msgs (ext s')) ≡ₚ m :: ext_elems (msgs (ext s)) /\ kern s' = kern s.
Inductive hands_over (game : bool) : list CosimRcpEvent -> events Q -> events Q -> Prop :=
| hands_nothing s : hands_over game [] s s
| hands_event e l s k x n s' : gives game (message_of (ev s) e) (marked e s) (with_cnt n (with_kern k (with_ext x (marked e s)))) ->
    hands_over game l (with_cnt n (with_kern k (with_ext x (marked e s)))) s' -> hands_over game (e :: l) s s'.

Lemma do_send_result mq msg jam k : exists k',
  do_send mq msg jam false k = Done (send_guard mq k && negb (MQ_IS_FULL mq k)) k'.
Proof.
  unfold do_send, send_resume. destruct (send_guard mq k); [|by eexists]. by destruct (MQ_IS_FULL mq k); eexists.
Qed.
Lemma post_event_gives game mq msg b (s : events Q) : exists k x, post_event game (mq, msg) b s = Some (with_kern k (with_ext x s)) /\
  gives game (Queued mq msg false b) s (with_kern k (with_ext x s)).
Proof.
  unfold post_event, post_rcp_event, gives. cbn [fst snd qm_mq qm_mesg]. destruct game.
  - destruct (do_send_result mq msg false (kern s)) as [k ->]. by exists k, (ext s).
  - exists (kern s), (enqueue_external_tagged mq msg false b (ext s)). split; [done|]. split; [|done].
    unfold enqueue_external_tagged. cbn. apply ext_enqueue_elems.
Qed.
Lemma gives_with_cnt game m n (s s' : events Q) : gives game m s s' -> gives game m s (with_cnt n s').
Proof. done. Qed.
Lemma deliver_one_total game e c : exists c', deliver_one RO game e c = Some c' /\ same_schedule c c' /\
  delivered c' = count_kind (rcp_kind e) (rcp_task_type e) (delivered c) /\
  forall l s', hands_over game l (base c') s' -> hands_over game (e :: l) (base c) s'.
Proof.
  set (s := base c). set (m := message_of (ev s) e).
  destruct (post_event_gives game (qm_mq m) (qm_mesg m) (qm_coalescible m) (marked e s)) as (k & x & Ep & Hg).
  assert (Queued (qm_mq m) (qm_mesg m) false (qm_coalescible m) = m) as Em by (unfold m, message_of; by destruct (rcp_kind e)).
  rewrite Em in Hg.
  assert (exists n, deliver_one RO game e c = Some (count_delivered e (with_base (with_cnt n (with_kern k (with_ext x (marked e s)))) c))) as [n ->].
  { unfold deliver_one, complete. fold s. unfold marked, m, message_of in *. destruct (rcp_kind e); cbn [qm_mq qm_mesg qm_coalescible] in Ep;
      try rewrite <- surjective_pairing in Ep; rewrite Ep; cbn; eexists; reflexivity. }
  eexists. split; [reflexivity|]. split; [|split; [done|]].
  - unfold same_schedule, count_delivered, marked. cbn. by destruct (rcp_kind e).
  - intros l s' H. eapply hands_event; [|exact H]. by apply gives_with_cnt.
Qed.

Lemma sync_idem c : cosim_time_ticks (cosim_sync_time_floor c) = now c.
Proof. done. Qed.
Lemma now_of c c' : cosim_time_ticks c' = now c -> total_vis (vit (base c')) = total_vis (vit (base c)) -> now c' = now c.
Proof.
  unfold now, cosim_sync_time_floor. cbn [cosim_time_ticks with_ticks base]. intros -> ->. lia.
Qed.

Lemma deliver_spec fuel game : forall c, (length (rcp_events c) < fuel)%nat -> exists l c',
  deliver_due_rcp_events RO fuel game c = Some (length l, c') /\
  hands_over game l (base c) (base c') /\ delivered c' = foldl (fun t e => count_kind (rcp_kind e) (rcp_task_type e) t) (delivered c) l /\
  l ++ rcp_events c' ≡ₚ rcp_events c /\
  Forall (fun e => due_cycle e <= now c /\ blocked (gfx_rendered_seq c) e = false) l /\ StronglySorted in_order l /\
  (forall x, x ∈ rcp_events c' -> due_cycle x <= now c -> exists b, b ∈ rcp_events c' /\ blocked (gfx_rendered_seq c) b = true /\ in_order b x) /\
  now c' = now c /\ gfx_rendered_seq c' = gfx_rendered_seq c.
Proof.
  induction fuel as [|fuel IH]; intros c Hf; [lia|]. cbn [deliver_due_rcp_events].
  set (c0 := cosim_sync_time_floor c). change (cosim_time_ticks c0) with (now c). unfold pop_due_rcp_event.
  change (rcp_events c0) with (rcp_events c). change (gfx_rendered_seq c0) with (gfx_rendered_seq c).
  pose proof (best_due_best (now c) (rcp_events c)) as Hb. 
  assert (now c0 = now c) as Hn0 by by apply now_of.
  destruct (best_due (now c) 0 (rcp_events c) None) as [[i e]|].
  2:{ exists [], c0. split; [done|]. split; [constructor|]. split; [done|]. split; [done|]. split; [constructor|]. split; [constructor|]. split; [|done].
      intros x Hx Hd. specialize (Hb x Hx). lia. }
  destruct Hb as (Hi & Hd & Hmin). destruct (blocked (gfx_rendered_seq c) e) eqn:Ebl.
  { exists [], c0. split; [done|]. split; [constructor|]. split; [done|]. split; [done|]. split; [constructor|]. split; [constructor|]. split; [|done].
    intros x Hx Hxd. exists e. split; [by eapply list_elem_of_lookup_2|]. split; [done|]. by apply Hmin. }
  set (c1 := with_popped (delete i (rcp_events c)) c0).
  destruct (deliver_one_total game e c1) as (c2 & -> & (He2 & Hr2 & Ht2 & Hv2) & Hc2 & Hh2). simpl.
  assert (now c2 = now c) as Hn2 by (apply now_of; [by rewrite Ht2|by rewrite Hv2]).
  assert (rcp_events c ≡ₚ e :: rcp_events c2) as Hp2.
  { rewrite He2. cbn. by apply delete_Permutation. }
  destruct (IH c2) as (l & c' & E & Hh & Hc & Hp & Hl & Hs & Hrest & Hn & Hr); [apply Permutation_length in Hp2; simpl in Hp2; lia|].
  rewrite E. simpl. exists (e :: l), c'. change (gfx_rendered_seq c1) with (gfx_rendered_seq c) in Hr2. rewrite Hn2, Hr2 in *.
  split; [done|]. split; [exact (Hh2 _ _ Hh)|]. split; [by rewrite Hc, Hc2|]. split; [by rewrite Hp2, <- Hp|]. split; [constructor; [done|exact Hl]|]. split; [|done].
  constructor; [exact Hs|]. rewrite Forall_forall in Hl |- *. intros x Hx. apply Hmin; [|by apply Hl].
  rewrite Hp2. right. rewrite <- Hp. apply elem_of_app. by left.
Qed.

(** * Rendering never holds an event back *)

Definition unblocked c : Prop := Forall (fun e => blocked (gfx_rendered_seq c) e = false) (rcp_events c).
Lemma push_unblocked e c : unblocked c -> blocked (gfx_rendered_seq c) e = false -> unblocked (push_event e c).
Proof. intros Hu He. unfold unblocked, push_event. cbn. apply Forall_app. split; [exact Hu|by constructor]. Qed.
Lemma queue_event_unblocked k mq msg d c : k <> DpComplete -> unblocked c -> unblocked (schedule_queue_event k mq msg d c).
Proof.
  intros Hk Hu. unfold schedule_queue_event. case_match; [done|]. apply push_unblocked; [exact Hu|]. by destruct k.
Qed.
Lemma rendered_unblocked c n r : gfx_rendered_seq c <= r -> unblocked c -> unblocked (with_gfx n r c).
Proof.
  intros Hr Hu. unfold unblocked in *. cbn. eapply Forall_impl; [exact Hu|]. intros e. unfold blocked. destruct (rcp_kind e); try done.
  rewrite !andb_false_iff, !Z.ltb_ge. intros [?|?]; [by left|right; lia].
Qed.
Lemma submit_unblocked started p c : unblocked c -> unblocked (submit_rsp_task_cosim RO get_rsp_microcode gfx_sp_delay gfx_dp_delay rsp_sp_delay started p c).
Proof.
  intros Hu. unfold submit_rsp_task_cosim. destruct (_ =? M_GFXTASK).
  - unfold schedule_rcp_event. apply push_unblocked; [apply push_unblocked; [|done]|].
    + apply (rendered_unblocked c (u64 (gfx_next_seq c + 1)) (Z.max (gfx_rendered_seq c) (u64 (gfx_next_seq c + 1)))); [lia|exact Hu].
    + cbn. apply andb_false_iff. right. apply Z.ltb_ge. lia.
  - destruct (run_task _ _ _ _) as [[b m] d]. unfold schedule_rcp_event. by apply push_unblocked.
Qed.
Lemma advance_vi_unblocked c c' : unblocked c -> advance_vi c = Some c' -> unblocked c'.
Proof.
  intros Hu. unfold advance_vi. destruct (match vi_mode _ with Some _ => _ | None => _ end) as [s v].
  destruct (update_vi _ _) as [x|]; [|done]. intros [= <-]. apply queue_event_unblocked; [done|].
  unfold unblocked. cbn [rcp_events with_vtok gfx_rendered_seq]. 
  match goal with |- context [rcp_events (if ?b then ?x else ?y)] => assert (unblocked (if b then x else y)) as H; [|exact H] end.
  case_match; [|exact Hu]. by apply queue_event_unblocked.
Qed.
Lemma deliver_unblocked game c : unblocked c -> exists n c', deliver_all RO game c = Some (n, c') /\ unblocked c'.
Proof.
  intros Hu. destruct (deliver_spec (S (length (rcp_events c))) game c ltac:(lia)) as (l & c' & E & _ & _ & Hp & _ & _ & _ & _ & Hr).
  exists (length l), c'. split; [exact E|]. unfold unblocked in *. rewrite Hr. rewrite <- Hp in Hu. by apply Forall_app in Hu as [_ ?].
Qed.

Lemma ticks_unblocked n c : unblocked c -> unblocked (advance_time_ticks n c).
Proof. unfold advance_time_ticks. by case_match. Qed.
Lemma ticks_if_unblocked (b : bool) n c : unblocked c -> unblocked (if b then advance_time_ticks n c else c).
Proof. destruct b; [apply ticks_unblocked|done]. Qed.
Lemma rebase_unblocked c : unblocked c -> unblocked (rebase c).
Proof. unfold rebase. by case_match. Qed.
Lemma advance_due_unblocked started game allow c o c' :
  unblocked c -> advance_due_vi RO started game allow c = Some (o, c') -> unblocked c'.
Proof.
  intros Hu. unfold advance_due_vi. apply rebase_unblocked in Hu as Hr. case_match; [by intros [= _ <-]|].
  case_match; [by intros [= _ <-]|]. case_match; [by intros [= _ <-]|].
  match goal with |- context [cosim_sync_time_floor (if ?b then ?x else ?y)] => set (c1 := if b then x else y) end.
  assert (unblocked c1) as Hc1 by by apply ticks_if_unblocked. clearbody c1.
  case_match; [by intros [= _ <-]|].
  match goal with |- context [advance_vi ?x] => destruct (advance_vi x) as [c2|] eqn:E2 end; [|done]. cbn [mbind option_bind].
  assert (unblocked c2) as Hc2 by (eapply advance_vi_unblocked; [|exact E2]; exact Hc1).
  destruct (deliver_unblocked game c2 Hc2) as (m & c3 & -> & Hc3). cbn [mbind option_bind]. by intros [= _ <-].
Qed.
Lemma advance_to_next_unblocked started game c n c' :
  unblocked c -> advance_to_next_rcp_event RO started game c = Some (n, c') -> unblocked c'.
Proof.
  intros Hu. unfold advance_to_next_rcp_event.
  destruct (advance_due_vi RO started game false c) as [[o c1]|] eqn:E1; [|done]. cbn [mbind option_bind].
  destruct (deliver_unblocked game c1 (advance_due_unblocked _ _ _ _ _ _ Hu E1)) as (l & c2 & -> & Hc2). cbn [mbind option_bind].
  assert (forall (b : bool) k m c3, unblocked c3 ->
    deliver_all RO game (if b then advance_time_ticks k c3 else c3) = Some (m, c') -> unblocked c') as Hdel.
  { intros b k m c3 Hc3. destruct (deliver_unblocked game _ (ticks_if_unblocked b k c3 Hc3)) as (l3 & c4 & -> & Hc4). by intros [= _ <-]. }
  case_match; [by intros [= _ <-]|]. set (c3 := cosim_sync_time_floor c2). assert (unblocked c3) as Hc3 by exact Hc2. clearbody c3.
  destruct (next_rcp_due c3) as [r|], (next_vi_due started c3) as [v|]; cbn [default]; cycle 3; [by intros [= _ <-]|..].
  2: by apply Hdel.
  - destruct (v <=? r); [|by apply Hdel].
    match goal with |- context [advance_due_vi ?a1 ?a2 ?a3 ?a4 ?a5] => destruct (advance_due_vi a1 a2 a3 a4 a5) as [[o4 c4]|] eqn:E4 end; [|done]. intros [= _ <-].
    eapply advance_due_unblocked; [|exact E4]. by apply ticks_if_unblocked.
  - match goal with |- context [advance_due_vi ?a1 ?a2 ?a3 ?a4 ?a5] => destruct (advance_due_vi a1 a2 a3 a4 a5) as [[o4 c4]|] eqn:E4 end; [|done]. intros [= _ <-].
    eapply advance_due_unblocked; [|exact E4]. by apply ticks_if_unblocked.
Qed.

(** What the harness, the game and the scheduler do to the state, from a reset on. *)
Inductive reachable : cosim -> Prop :=
  | r_reset c : reachable (reset_rcp_events c)
  | r_vi_counter c : reachable c -> reachable (reset_vi_counter c)
  | r_request started n c : reachable c -> reachable (snd (request_vi started n c))
  | r_submit started p c : reachable c -> reachable (submit_rsp_task_cosim RO get_rsp_microcode gfx_sp_delay gfx_dp_delay rsp_sp_delay started p c)
  | r_time n c : reachable c -> reachable (advance_time_ticks n c)
  | r_vi started game allow c o c' : reachable c -> advance_due_vi RO started game allow c = Some (o, c') -> reachable c'
  | r_deliver game c l c' : reachable c -> deliver_all RO game c = Some (l, c') -> reachable c'
  | r_next started game c n c' : reachable c -> advance_to_next_rcp_event RO started game c = Some (n, c') -> reachable c'
  | r_game s' c : reachable c -> reachable (with_base s' c).
Lemma reachable_unblocked c : reachable c -> unblocked c.
Proof.
  induction 1 as [|c H IH|st n c H IH|st p c H IH|n c H IH|st g a c o c' H IH E|g c l c' H IH E|st g c n c' H IH E|s' c H IH]; try exact IH.
  - constructor.
  - unfold request_vi. case_match; [done|]. by apply rebase_unblocked in IH.
  - by apply submit_unblocked.
  - by apply ticks_unblocked.
  - by eapply advance_due_unblocked.
  - destruct (deliver_unblocked g c IH) as (l2 & c2 & E2 & H2). rewrite E in E2. by injection E2 as _ ->.
  - by eapply advance_to_next_unblocked.
Qed.

(** C27: Co-simulation delivery always ends, takes no time, returns the number of events it
    hands over, and counts each by kind: what it hands over and what stays make up what was
    scheduled. Each is handed over by posting its message once, in order: a game thread
    sends it to the guest's queue, which takes it unless it is full or no queue, another
    thread puts it into the external queue. All are due and wait for no rendering, in the
    order of due times and of scheduling; a due event that stays has one not rendered in
    front. *)
Theorem delivery_in_due_order (game : bool) (c : cosim) :
  exists l c', deliver_all RO game c = Some (length l, c') /\ hands_over game l (base c) (base c') /\
  delivered c' = foldl (fun t e => count_kind (rcp_kind e) (rcp_task_type e) t) (delivered c) l /\
  l ++ rcp_events c' ≡ₚ rcp_events c /\
  Forall (fun e => due_cycle e <= now c /\ blocked (gfx_rendered_seq c) e = false) l /\
  StronglySorted in_order l /\
  (forall x, x ∈ rcp_events c' -> due_cycle x <= now c ->
     exists b, b ∈ rcp_events c' /\ blocked (gfx_rendered_seq c) b = true /\ in_order b x) /\
  now c' = now c.
Proof.
  destruct (deliver_spec (S (length (rcp_events c))) game c ltac:(lia)) as (l & c' & ? & ? & ? & ? & ? & ? & ? & ? & _).
  by exists l, c'.
Qed.

(** Whatever the game, the harness and the scheduler did since the last reset, the poll of the co-simulation build says that an event is ready exactly when the delivery hands one over, and says no after a delivery; every display list counts as rendered before its completion is scheduled. *)
Theorem poll_agrees_with_delivery (game : bool) (c : cosim) (Hc : reachable c) :
  exists n c', deliver_all RO game c = Some (n, c') /\
  (rcp_event_ready c = true <-> n <> 0%nat) /\ rcp_event_ready c' = false.
Proof.
  apply reachable_unblocked in Hc as Hu.
  destruct (deliver_spec (S (length (rcp_events c))) game c ltac:(lia)) as (l & c' & E & _ & _ & Hp & Hl & _ & Hleft & Hn & Hr).
  assert (forall x, x ∈ rcp_events c' -> now c < due_cycle x) as Hnone.
  { intros x Hx. destruct (decide (due_cycle x <= now c)) as [Hd|]; [|lia].
    destruct (Hleft x Hx Hd) as (b & Hb & Hbl & _). unfold unblocked in Hu. rewrite Forall_forall in Hu.
    rewrite (Hu b) in Hbl; [done|]. rewrite <- Hp. apply elem_of_app. by right. }
  exists (length l), c'. split; [exact E|]. unfold rcp_event_ready. split.
  - rewrite existsb_exists. setoid_rewrite andb_true_iff. setoid_rewrite negb_true_iff. split.
    + intros (x & Hx%list_elem_of_In & Hd & _). rewrite <- Hp in Hx. destruct l; [|done].
      specialize (Hnone x Hx). rewrite Z.gtb_ltb, Z.ltb_ge in Hd. lia.
    + destruct l as [|e l]; [done|intros _]. apply Forall_cons in Hl as [[Hd Hb] _]. exists e.
      split; [apply list_elem_of_In; rewrite <- Hp; by left|]. split; [rewrite Z.gtb_ltb; by apply Z.ltb_ge|done].
  - apply not_true_iff_false. rewrite existsb_exists. intros (x & Hx%list_elem_of_In & Hd). apply andb_true_iff in Hd as [Hd%negb_true_iff _].
    specialize (Hnone x Hx). rewrite Z.gtb_ltb, Z.ltb_ge in Hd. lia.
Qed.
End Spec.
