(* ===== verification/SampleEvents.v ===== *)
(** Events at concrete inputs: a game that registers its queues, submits a display
    list and an audio task, and lets the host threads run; preemption on the
    sample guest, where the running thread outranks the queued ones and spins;
    co-simulation, a display list and a retrace delivered as the clock passes. *)

From Stdlib Require Import ZArith Lia Bool List.
From stdpp Require Import base list gmap relations sorting.
From S2P Require Import Prelude Vec128 RspMem Rdram RspCore GuestMem Kernel KernelSpec Scheduler MesgQueue MesgQueueSpec Events EventsSpec SchedulerTick EventsCosim EventsCosimSpec.
Open Scope Z_scope.

(** Guest memory through the macros of the game's code: words in host order. *)
Definition host_ops : RdramOps hostmem :=
  Build_RdramOps hostmem
    (fun a m => s8 (hbyte m (Z.lxor (to_off a) 3))) (fun a v m => <[Z.lxor (to_off a) 3 := u8 v]> m)
    (fun a m => load_s32 (to_off a) m) (fun a v m => store_32 (to_off a) v m).
Definition no_microcode : hostmem -> OSTask -> option (hostmem -> dmem_t -> Z -> RspExitReason * hostmem * dmem_t) := fun _ _ => None.
Definition no_regs : ViRegs := MkRegs 0 0 0 0 0 0 0 0 0 0 0 0 0 0.
Definition no_vi : ViState := MkVi None 0 0 0 0 0 1.
Definition vi_start : vi_context := MkViContext 0 0 (no_vi, no_vi) no_regs no_regs.
(** A display list at 0x80001000 and an audio task at 0x80001040. *)
Definition list_at : Z := s32 0x80001000.
Definition audio_at : Z := s32 0x80001040.
Definition guest_memory : hostmem := <[to_off list_at := 1]> (<[to_off audio_at := 2]> ∅).
Definition events_start : events (list QueuedMessage) :=
  MkEvents vi_start (MkViThread false 1 0) (MkSlots (s32 0x80002000, 1) (s32 0x80002000, 2) (0, 0) (0, 0)) [] [] None false []
    (Ext [] 0) (KState guest_memory 0 0) (0, 0) ∅ (MkCounters 0 0 0 0 0 0 0).

Definition vi_calls : list (hostmem * vi_op) :=
  [(∅, Set_mode list_at); (∅, Swap_buffer audio_at); (∅, Tick); (∅, Black 1); (∅, Special_features 0x41); (∅, Tick); (∅, Tick)].
Lemma vi_double_buffer_refines_witness :
  vi_abs <$> vi_run vi_calls vi_start = spec_run (field vi_start) vi_calls (vi_abs vi_start) /\
  (forall v', vi_run vi_calls vi_start = Some v' -> vi_wf v' /\ field v' = field vi_start).
Proof. apply (vi_double_buffer_refines vi_calls vi_start). left. reflexivity. Defined.
Example black_screen_two_ticks_later :
  option_map (fun v => (VI_H_START_REG (regs v), VI_ORIGIN_REG (regs v), VI_STATUS_REG (regs v))) (vi_run vi_calls vi_start) =
  Some (0, 0x1040, 0x10008).
Proof. vm_compute. reflexivity. Qed.

Definition dithered : ViState := MkVi (Some Dummy_mode) 0 0 0 0 0x10010 1.
Lemma special_features_bits_witness :
  (osViSetSpecialFeatures ∅ 0xA1 dithered = None <-> feature 0xA1 0x80 = true /\ vi_mode dithered = None) /\
  forall x', osViSetSpecialFeatures ∅ 0xA1 dithered = Some x' ->
  x' = set_vi_control (vi_control x') dithered /\
  forall n, 0 <= n -> Z.testbit (vi_control x') n = feature_bit 0xA1 (mode_ctrl ∅ dithered) (vi_control dithered) n.
Proof. apply (special_features_bits ∅ 0xA1 dithered). simpl. lia. Defined.
Example dither_off_restores_antialias : option_map vi_control (osViSetSpecialFeatures ∅ 0xA1 dithered) = Some 0x108.
Proof. reflexivity. Qed.

Definition with_retraces : events (list QueuedMessage) := vi_call (osViSetEvent (s32 0x80002000) 7 2) events_start.
Lemma retrace_event_every_r_ticks_witness : exists s', ticks [1; 2; 3; 5; 8] with_retraces = Some s' /\ registered (s32 0x80002000) 2 s' /\
  Z.of_nat (retraces_posted s') = Z.of_nat (retraces_posted with_retraces) + (Z.of_nat (length [1; 2; 3; 5; 8]) + 2 - 1) / 2 /\
  remaining_retraces (vit s') = 2 - (Z.of_nat (length [1; 2; 3; 5; 8]) + 2 - 1) mod 2.
Proof.
  apply (retrace_event_every_r_ticks (s32 0x80002000) 2 1 [1; 2; 3; 5; 8] with_retraces); [done|lia|lia| |reflexivity].
  split; [by left|]. split; reflexivity.
Defined.
Definition submitted : events (list QueuedMessage) := submit_rsp_task audio_at (submit_rsp_task list_at events_start).
Definition listed : events (list QueuedMessage) :=
  gfx_start host_ops true (SpTaskAction (load_task_at list_at guest_memory)) (with_actions [] submitted).
Definition played : events (list QueuedMessage) := task_round host_ops no_microcode audio_at (with_tasks [] listed).
Definition rendered : events (list QueuedMessage) := gfx_finish host_ops (load_task_at list_at guest_memory) played.
Lemma types_read : task_type (load_task_at list_at guest_memory) = 1 /\ task_type (load_task_at audio_at guest_memory) = 2.
Proof. vm_compute. done. Qed.
Lemma actions_submitted : action_queue submitted = [SpTaskAction (load_task_at list_at guest_memory)].
Proof. vm_compute. reflexivity. Qed.
Lemma tasks_listed : sp_task_queue listed = [Some audio_at].
Proof. vm_compute. reflexivity. Qed.
Lemma rendering_played : rendering played = Some (load_task_at list_at guest_memory).
Proof. vm_compute. reflexivity. Qed.
Lemma sample_slots : sp_slot (ev submitted) = (s32 0x80002000, 1) /\ sp_slot (ev listed) = (s32 0x80002000, 1) /\ dp_slot (ev played) = (s32 0x80002000, 2).
Proof. vm_compute. done. Qed.
Abbreviation sp_report := (Sp_done (queued (s32 0x80002000, 1) false)).
Abbreviation dp_report := (Dp_done (queued (s32 0x80002000, 2) false)).
Definition happenings : list happening :=
  ((((([] ++ [Submitted true]) ++ [Submitted false]) ++ [sp_report]) ++ [sp_report]) ++ [dp_report]).
Lemma sample_run : run host_ops no_microcode events_start happenings rendered.
Proof.
  destruct sample_slots as (H1 & H2 & H3). destruct types_read as [T1 T2].
  pose proof (step_submit host_ops no_microcode list_at events_start) as S1.
  pose proof (step_submit host_ops no_microcode audio_at (submit_rsp_task list_at events_start)) as S2.
  pose proof (step_gfx_start host_ops no_microcode true (SpTaskAction (load_task_at list_at guest_memory)) [] submitted) as S3.
  pose proof (step_task host_ops no_microcode audio_at [] listed) as S4.
  pose proof (step_gfx_finish host_ops no_microcode (load_task_at list_at guest_memory) played rendering_played) as S5.
  rewrite H1 in S3. rewrite H2 in S4. rewrite H3 in S5.
  change (mem (kern events_start)) with guest_memory in S1. rewrite T1 in S1.
  change (mem (kern (submit_rsp_task list_at events_start))) with guest_memory in S2. rewrite T2 in S2.
  unfold happenings. eapply run_snoc; [|exact S5]. eapply run_snoc; [|apply S4; by rewrite tasks_listed].
  eapply run_snoc; [|apply S3; [reflexivity|by rewrite actions_submitted]].
  eapply run_snoc; [|exact S2]. eapply run_snoc; [|exact S1]. apply run_nil.
Qed.
(** Then a thread that yields awaits one message. Guest memory has no queue at the
    registered address: the message is lost. *)
Definition first_message : QueuedMessage := queued (s32 0x80002000, 1) false.
Definition ext_rest : external (list QueuedMessage) := Ext (tl (msgs (ext rendered))) (g_external_pending (ext rendered) - 1).
Definition awaited : events (list QueuedMessage) := with_kern (kern rendered) (with_ext ext_rest rendered).
Definition lost_one : happening := Lost first_message (kern rendered).
Lemma sample_wait : step host_ops no_microcode rendered [lost_one] awaited.
Proof.
  assert (send_guard (s32 0x80002000) (kern rendered) && negb (MQ_IS_FULL (s32 0x80002000) (kern rendered)) = false) as E by (vm_compute; reflexivity).
  pose proof (step_wait host_ops no_microcode first_message ext_rest ext_rest (kern rendered) rendered) as S.
  change (qm_mq first_message) with (s32 0x80002000) in S. rewrite E in S. apply S; vm_compute; reflexivity.
Qed.
Lemma every_task_is_reported_witness :
  let h := happenings ++ [lost_one] in
  tally is_gfx h = (tally is_dp h + tasks_in (action_queue awaited) + match rendering awaited with Some _ => 1 | None => 0 end)%nat /\
  tally is_submit h = (tally is_sp h + tasks_in (action_queue awaited) + jobs_in (sp_task_queue awaited))%nat /\
  posted h ≡ₚ handled Delivered h ++ handled Dropped h ++ (lost h).*1 ++ ext_elems (msgs (ext awaited)) /\
  Forall (fun m => qm_coalescible m = true) (handled Dropped h) /\ Forall refused (lost h) /\
  (quiet awaited -> tally is_sp h = tally is_submit h /\ tally is_dp h = tally is_gfx h) /\
  (forall h' s'', step host_ops no_microcode awaited h' s'' -> handled Delivered h' <> [] ->
    sends (handled Delivered h') (kern awaited) = Some (kern s'')).
Proof.
  intros h. apply (every_task_is_reported host_ops no_microcode events_start h awaited); [done|done|].
  eapply run_snoc; [exact sample_run|exact sample_wait].
Defined.

Lemma host_threads_finish_witness : (3 + work_left rendered = work_left submitted)%nat /\
  ((forall s'', ~ host_step host_ops no_microcode rendered s'') -> 3%nat = work_left submitted /\ quiet rendered /\ action_queue rendered = []).
Proof.
  apply (host_threads_finish host_ops no_microcode submitted 3 rendered).
  eapply nsteps_l; [apply (host_gfx_start host_ops no_microcode true (SpTaskAction (load_task_at list_at guest_memory)) [] submitted); [reflexivity|by rewrite actions_submitted]|].
  eapply nsteps_l; [apply (host_task host_ops no_microcode audio_at [] listed); by rewrite tasks_listed|].
  eapply nsteps_l; [apply (host_gfx_finish host_ops no_microcode (load_task_at list_at guest_memory) played); exact rendering_played|].
  apply nsteps_O.
Defined.

Definition no_messages : external (list QueuedMessage) := Ext [] 0.
Definition flagged : tick_state := MkTick true 1000 true 2.
Definition unflagged : tick_state := MkTick false 1000 true 1.
Lemma sample_live : live sample_thread sample_state [thread_b; thread_c].
Proof. split; [exact sample_sched|]. vm_compute. discriminate. Qed.

Lemma tick_lets_the_head_run_witness : exists t' s' ts',
  scheduler_tick true true 1300 flagged no_messages sample_state = Some (t', no_messages, s') /\ live sample_thread s' ts' /\
  g_should_yield t' = false /\ thread_self s' :: ts' ≡ₚ thread_self sample_state :: [thread_b; thread_c] /\
  if signal_visible sample_state && (high_priority_poll sample_state || negb (preempt_skips flagged =? 0))
  then s' = sample_state /\ preempt_skips t' = (if high_priority_poll sample_state then preempt_skips flagged else preempt_skips flagged - 1)
  else thread_self s' = hd (thread_self sample_state) [thread_b; thread_c] /\ preempt_skips t' = preempt_skips flagged /\
       ([thread_b; thread_c] <> [] -> g_last_switch_ms t' = 1300).
Proof.
  apply (tick_lets_the_head_run sample_thread sample_layout 1300 flagged no_messages sample_state [thread_b; thread_c] sample_live);
    [reflexivity|reflexivity|simpl; lia].
Defined.
Lemma stuck_thread_gives_way_witness : exists n t' s' ts', (n < length [1300; 1600])%nat /\
  rounds (take (S n) [1300; 1600]) unflagged no_messages sample_state = Some (t', no_messages, s') /\ live sample_thread s' ts' /\
  thread_self s' = hd NULLPTR [thread_b; thread_c] /\ thread_self s' :: ts' ≡ₚ thread_self sample_state :: [thread_b; thread_c].
Proof.
  apply (stuck_thread_gives_way sample_thread sample_layout [1300; 1600] 1000 unflagged no_messages sample_state [thread_b; thread_c] sample_live);
    [discriminate|reflexivity|vm_compute; reflexivity|reflexivity|reflexivity|lia|simpl; lia| |reflexivity].
  repeat constructor.
Defined.
Lemma loop_checkpoint_roundtrip_witness :
  let slots' := record_loop_checkpoint 0x80000400 7 (Some sample_state) ∅ in
  let n := u64 (ck_count (default no_checkpoint ((∅ : gmap Z LoopCheckpointSlot) !! u32 (t_id (thread_self sample_state) sample_state))) + 1) in
  (ultramodern_loop_checkpoint_get (u32 (t_id (thread_self sample_state) sample_state)) slots' =
    if n =? 0 then None else Some (MkSlot 0x80000400 (u32 (thread_self sample_state)) (u32 (t_id (thread_self sample_state) sample_state)) (u32 7) n)) /\
  (forall id', id' <> u32 (t_id (thread_self sample_state) sample_state) ->
    ultramodern_loop_checkpoint_get id' slots' = ultramodern_loop_checkpoint_get id' ∅).
Proof.
  apply (loop_checkpoint_roundtrip 0x80000400 7 sample_state ∅ (u32 (t_id (thread_self sample_state) sample_state))); [discriminate|vm_compute; discriminate|reflexivity|vm_compute; reflexivity].
Defined.

Definition cosim_start : cosim (Q := list QueuedMessage) :=
  reset_rcp_events (MkCosim events_start [] 0 0 0 0 (MkTokens 0 kCosimCounterPerVi true true 1 false) no_tallies no_tallies).
(** A display list; then an audio task, and 4600 ticks pass. *)
Definition cosim_listed : cosim :=
  submit_rsp_task_cosim host_ops no_microcode kCosimGfxSpDelay kCosimGfxDpDelay kCosimRspSpDelay true list_at cosim_start.
Definition cosim_later : cosim :=
  advance_time_ticks 4600 (submit_rsp_task_cosim host_ops no_microcode kCosimGfxSpDelay kCosimGfxDpDelay kCosimRspSpDelay true audio_at cosim_listed).

(** The three completions are due and handed over. *)
Example completions_delivered :
  option_map (fun '(n, c) => (n, rcp_events c)) (deliver_all host_ops true cosim_later) = Some (3%nat, []).
Proof. vm_compute. reflexivity. Qed.

Lemma poll_agrees_with_delivery_witness : exists n c',
  deliver_all host_ops true cosim_later = Some (n, c') /\
  (rcp_event_ready cosim_later = true <-> n <> 0%nat) /\ rcp_event_ready c' = false.
Proof.
  apply (poll_agrees_with_delivery host_ops no_microcode kCosimGfxSpDelay kCosimGfxDpDelay kCosimRspSpDelay).
  apply r_time, r_submit, r_submit, r_reset.
Defined.

(** The delivery hands three messages over: both completions of the display list and
    the one of the audio task. *)
Lemma delivery_in_due_order_witness : exists l c', deliver_all host_ops true cosim_later = Some (length l, c') /\
  hands_over host_ops true l (base cosim_later) (base c') /\ length l = 3%nat /\ StronglySorted in_order l.
Proof.
  destruct (delivery_in_due_order host_ops true cosim_later) as (l & c' & E & H & _ & _ & _ & Hs & _).
  exists l, c'. split; [exact E|]. split; [exact H|]. split; [|exact Hs].
  assert (option_map fst (deliver_all host_ops true cosim_later) = Some 3%nat) as E3 by (vm_compute; reflexivity).
  rewrite E in E3. by injection E3.
Defined.

(** What reachability excludes: a list that is not rendered in front of a due
    event. The poll calls for a delivery that hands nothing over. *)
Definition not_rendered : cosim :=
  advance_time_ticks 100 (schedule_rcp_event SpComplete 2 10 0 (schedule_rcp_event DpComplete 1 5 1 cosim_start)).
Example poll_without_delivery :
  (rcp_event_ready not_rendered, option_map fst (deliver_all host_ops true not_rendered)) = (true, Some 0%nat).
Proof. vm_compute. reflexivity. Qed.
