(* ===== verification/Rom.v ===== *)
(** Starting a game: librecomp/src/recomp.cpp and [Version] of game.hpp.

    Versions and their texts; the library of game images: a dump the player picks is
    brought to one byte order, checked and stored, and the stored copy is checked
    again when it is loaded; the game's status; the coprocessor's status register.
    The hash (xxHash) is a parameter; files are a map from paths to contents, and a
    fault says how much of a file that is written reaches the disk. *)

From Stdlib Require Import ZArith Lia Bool List Ascii String.
From stdpp Require Import base list gmap strings.
From S2P Require Import Prelude ModManager.
Open Scope Z_scope.
Open Scope list_scope.

(** * Versions *)

Definition digit (c : ascii) : option Z :=
  let n := Z.of_N (N_of_ascii c) in if (48 <=? n) && (n <=? 57) then Some (n - 48) else None.
(** The digits at the front and what follows them. *)
Fixpoint digits (s : string) : list Z * string :=
  match s with
  | EmptyString => ([], EmptyString)
  | String c s' => match digit c with Some d => let '(l, r) := digits s' in (d :: l, r) | None => ([], s) end
  end.
Definition value (l : list Z) : Z := foldl (fun n d => 10 * n + d) 0 l.
(** [std::from_chars] on a 16-bit unsigned number: [None] is an error code. *)
Definition from_chars (s : string) : option (Z * string) :=
  let '(l, r) := digits s in
  if bool_decide (l = []) then None else if value l >? 0xFFFF then None else Some (value l, r).
(** Before and after the first dot. *)
Fixpoint split_dot (s : string) : option (string * string) :=
  match s with
  | EmptyString => None
  | String c s' =>
      if Ascii.eqb c "."%char then Some (EmptyString, s')
      else '(a, b) ← split_dot s'; Some (String c a, b)
  end.
(** A component that its whole field spells. *)
Definition fully_consumed (s : string) : option Z :=
  '(n, r) ← from_chars s; if bool_decide (r = EmptyString) then Some n else None.
Definition suffix_start (c : ascii) : bool := Ascii.eqb c "+"%char || Ascii.eqb c "-"%char.
Definition from_string (str : string) : option Version :=
  '(f0, rest) ← split_dot str;
  '(f1, f2) ← split_dot rest;
  ma ← fully_consumed f0;
  mi ← fully_consumed f1;
  '(pa, r) ← from_chars f2;
  match r with
  | EmptyString => Some (MkVersion ma mi pa EmptyString)
  | String c _ => if suffix_start c then Some (MkVersion ma mi pa r) else None
  end.

(** [std::to_string] on an [int]: at most ten digits. *)
Definition digit_char (d : Z) : ascii := ascii_of_N (Z.to_N (d + 48)).
Fixpoint decimal (fuel : nat) (n : Z) (acc : string) : string :=
  match fuel with
  | O => acc
  | S fuel => let acc := String (digit_char (n mod 10)) acc in if n <? 10 then acc else decimal fuel (n / 10) acc
  end.
Definition int_to_string (n : Z) : string :=
  if n <? 0 then String "-"%char (decimal 10 (- n) EmptyString) else decimal 10 n EmptyString.
Definition to_string (v : Version) : string :=
  int_to_string (major v) +:+ "." +:+ int_to_string (minor v) +:+ "." +:+ int_to_string (patch v) +:+ suffix v.

(** * Game images *)

(** The fields that these operations read. *)
Record GameEntry := MkGame { rom_hash : Z; internal_name : list Z; game_id : string; is_enabled : bool }.
Inductive RomValidationError := Good | FailedToOpen | NotARom | IncorrectRom | NotYet | IncorrectVersion | OtherError.
Inductive ByteswapType := NotByteswapped | Byteswapped4 | Byteswapped2 | Invalid.

Definition first_rom_bytes : list Z := [0x80; 0x37; 0x12; 0x40].
Definition matches (rom_data : list Z) (a b c d : nat) : bool :=
  bool_decide (take 4 rom_data = [nth a first_rom_bytes 0; nth b first_rom_bytes 0; nth c first_rom_bytes 0; nth d first_rom_bytes 0]).
Definition check_rom_start (rom_data : list Z) : ByteswapType :=
  if (length rom_data <? 4)%nat then Invalid
  else if matches rom_data 0 1 2 3 then NotByteswapped
  else if matches rom_data 3 2 1 0 then Byteswapped4
  else if matches rom_data 1 0 3 2 then Byteswapped2
  else Invalid.
(** The four stores into a word; [index_xor] is at most 3. *)
Definition swap_word (index_xor : nat) (b0 b1 b2 b3 : Z) : list Z :=
  <[Nat.lxor 3 index_xor := b3]> (<[Nat.lxor 2 index_xor := b2]> (<[Nat.lxor 1 index_xor := b1]> (<[Nat.lxor 0 index_xor := b0]> [b0; b1; b2; b3]))).
(** [None]: the last word is read past the end. *)
Fixpoint byteswap_data (index_xor : nat) (rom_data : list Z) : option (list Z) :=
  match rom_data with
  | [] => Some []
  | b0 :: b1 :: b2 :: b3 :: l => l ← byteswap_data index_xor l; Some (swap_word index_xor b0 b1 b2 b3 ++ l)
  | _ => None
  end.
(** The size rounded up to whole words, filled with zeros. *)
Definition resized (rom_data : list Z) : list Z :=
  let n := Z.to_nat (Z.land (Z.of_nat (length rom_data) + 3) (Z.lxor 3 (2 ^ 64 - 1))) in
  rom_data ++ replicate (n - length rom_data) 0.

(** The dump in native order; the inner [None] is no image. *)
Definition unswapped (rom_data : list Z) : option (option (list Z)) :=
  match check_rom_start rom_data with
  | Invalid => Some None
  | Byteswapped2 => d ← byteswap_data 1 rom_data; Some (Some d)
  | Byteswapped4 => d ← byteswap_data 3 rom_data; Some (Some d)
  | NotByteswapped => Some (Some rom_data)
  end.

(** What a write leaves on the disk. *)
Inductive write_result := Not_opened | Written (n : nat).
Abbreviation files := (gmap string (list Z)).

Section Roms.
Context (XXH3_64bits : list Z -> Z) (config_path : string).

Definition check_hash (rom_data : list Z) (expected : Z) : bool := XXH3_64bits rom_data =? expected.
Definition stored_filename (g : GameEntry) : string := game_id g +:+ ".z64".
(** [config_path / stored_filename]. *)
Definition stored_path (g : GameEntry) : string :=
  if bool_decide (config_path = EmptyString) then stored_filename g else config_path +:+ "/" +:+ stored_filename g.
Definition read_file (path : string) (fs : files) : list Z := default [] (fs !! path).
Definition write_file (w : write_result) (path : string) (data : list Z) (fs : files) : bool * files :=
  match w with Not_opened => (false, fs) | Written n => (true, <[path := take n data]> fs) end.

(** The registered games and those with a checked image. *)
Record library := MkLibrary { game_roms : gmap string GameEntry; valid_game_roms : gset string }.
Definition register_game (g : GameEntry) (l : library) : library :=
  MkLibrary (match game_roms l !! game_id g with Some _ => game_roms l | None => <[game_id g := g]> (game_roms l) end) (valid_game_roms l).
Definition is_rom_valid (id : string) (l : library) : bool := bool_decide (id ∈ valid_game_roms l).
Definition check_stored_rom (g : GameEntry) (fs : files) : bool * files :=
  if check_hash (read_file (stored_path g) fs) (rom_hash g) then (true, fs) else (false, delete (stored_path g) fs).
(** The order is that of the hash table. *)
Definition check_all_stored_roms (games : list (string * GameEntry)) (s : library * files) : library * files :=
  foldl (fun '(l, fs) '(id, g) =>
           let '(ok, fs) := check_stored_rom g fs in
           (if ok then MkLibrary (game_roms l) ({[id]} ∪ valid_game_roms l) else l, fs)) s games.
(** The image comes back when it is handed to [set_rom_contents]. *)
Definition load_stored_rom (id : string) (l : library) (fs : files) : option (list Z) * files :=
  match game_roms l !! id with
  | None => (None, fs)
  | Some g =>
      let data := read_file (stored_path g) fs in
      if check_hash data (rom_hash g) then (Some data, fs) else (None, delete (stored_path g) fs)
  end.

(** The name in the header; [None] reads past the end. *)
Definition header_name (len : nat) (rom_data : list Z) : option (list Z) :=
  if (length rom_data <? 0x20 + len)%nat then None else Some (take len (drop 0x20 rom_data)).
Definition wrong_image (g : GameEntry) (rom_data : list Z) : option RomValidationError :=
  name ← header_name (length (internal_name g)) rom_data;
  if bool_decide (name = internal_name g) then Some IncorrectVersion
  else if is_enabled g && (length (internal_name g) =? 19)%nat && bool_decide (header_name 19 rom_data = Some (internal_name g)) then Some NotYet
  else Some IncorrectRom.
Definition select_rom (w : write_result) (rom_path id : string) (l : library) (fs : files) : option (RomValidationError * files) :=
  match game_roms l !! id with
  | None => Some (OtherError, fs)
  | Some g =>
      let rom_data := read_file rom_path fs in
      if bool_decide (rom_data = []) then Some (FailedToOpen, fs)
      else
        match unswapped (resized rom_data) with
        | None => None
        | Some None => Some (NotARom, fs)
        | Some (Some rom_data) =>
            if check_hash rom_data (rom_hash g) then Some (Good, snd (write_file w (stored_path g) rom_data fs))
            else e ← wrong_image g rom_data; Some (e, fs)
        end
  end.
End Roms.

(** * The game's status *)

Inductive GameStatus := None_ | Running | Quit.
Record game_state := MkGameState { game_status : GameStatus; current_game : option string; exited : bool }.
Definition start_game (id : string) (s : game_state) : game_state := MkGameState Running (Some id) (exited s).
Definition is_game_started (s : game_state) : bool := match game_status s with None_ => false | _ => true end.
Definition quit (s : game_state) : game_state :=
  MkGameState (match game_status s with None_ => Quit | st => st end) None true.
(** One call of [wait_for_game_started]: it blocks, throws because no game is
    selected, fails to load the mods and is called again, or ends the loop after
    running the game [id]. *)
Inductive wait_outcome := Blocked | No_current_game | Retry | Done (id : option string).
Definition wait_for_game_started (mods_load : string -> bool) (s : game_state) : wait_outcome * game_state :=
  match game_status s with
  | None_ => (Blocked, s)
  | Quit => (Done None, s)
  | Running =>
      match current_game s with
      | None => (No_current_game, s)
      | Some id => if mods_load id then (Done (Some id), s) else (Retry, MkGameState None_ (current_game s) (exited s))
      end
  end.

(** * The status register of coprocessor 0 *)

Definition FR : Z := 0x04000000.
(** [f_odd_own]: odd single floats have their own registers. *)
Record status_ctx := MkStatus { status_reg : Z; f_odd_own : bool; mips3_float_mode : bool }.
Definition cop0_status_write (value : Z) (c : status_ctx) : status_ctx :=
  let new_sr := u32 value in
  let changed := Z.lxor (status_reg c) new_sr in
  let on := negb (Z.land new_sr FR =? 0) in
  if negb (Z.land changed FR =? 0) then MkStatus new_sr on on else MkStatus new_sr (f_odd_own c) (mips3_float_mode c).
Definition cop0_status_read (c : status_ctx) : Z := u64 (s32 (status_reg c)).
