(* ===== verification/RomSpec.v ===== *)
(** Versions and game images: texts are read back, and every byte order of a dump
    becomes the one image that is loaded. *)

From Stdlib Require Import ZArith Lia Bool List Ascii String.
From stdpp Require Import base list gmap strings.
From S2P Require Import Prelude ModManager Rom.
Open Scope Z_scope.
Open Scope list_scope.

(** * Versions *)

#[local] Arguments String.append !s1 s2 / : simpl nomatch.
Lemma string_app_assoc (a b c : string) : (a +:+ b) +:+ c = a +:+ (b +:+ c).
Proof. induction a as [|x a IH]; [done|]. simpl. by rewrite IH. Qed.
Lemma digit_of_char d : 0 <= d < 10 -> digit (digit_char d) = Some d.
Proof. intros H. assert (d ∈ seqZ 0 10) as Hd by (apply elem_of_seqZ; lia). revert Hd. vm_compute. intros Hd. repeat (apply elem_of_cons in Hd as [->|Hd]; [done|]). by apply elem_of_nil in Hd. Qed.
Lemma value_snoc l d : value (l ++ [d]) = 10 * value l + d.
Proof. unfold value. by rewrite foldl_app. Qed.

Lemma decimal_app fuel : forall n acc, decimal fuel n acc = decimal fuel n EmptyString +:+ acc.
Proof.
  induction fuel as [|fuel IH]; intros n acc; [done|]. simpl. destruct (n <? 10); [done|].
  rewrite (IH _ (String _ acc)), (IH _ (String _ EmptyString)), string_app_assoc. done.
Qed.
Lemma digits_app s l : digits s = (l, EmptyString) -> forall r, digits (s +:+ r) = let '(l2, r2) := digits r in (l ++ l2, r2).
Proof.
  revert l. induction s as [|c s IH]; intros l; simpl; [intros [= <-] r; by destruct (digits r)|].
  destruct (digit c) as [d|]; [|done]. destruct (digits s) as [l1 r1]. intros [= <- ->] r. rewrite (IH l1 eq_refl r). by destruct (digits r).
Qed.
Lemma decimal_spec fuel n : 0 <= n < 10 ^ Z.of_nat fuel -> (0 < fuel)%nat ->
  exists l, l <> [] /\ value l = n /\ digits (decimal fuel n EmptyString) = (l, EmptyString).
Proof.
  revert n. induction fuel as [|fuel IH]; intros n Hn Hf; [lia|]. simpl. destruct (Z.ltb_spec n 10) as [H|H].
  - exists [n]. rewrite Z.mod_small by lia. simpl. rewrite digit_of_char by lia. done.
  - assert (0 < fuel)%nat as Hf'. { destruct fuel; [simpl in Hn; lia|lia]. }
    rewrite Nat2Z.inj_succ, Z.pow_succ_r in Hn by lia.
    destruct (IH (n / 10)) as (l & Hl & Hv & Hd); [split; [apply Z.div_pos; lia|apply Z.div_lt_upper_bound; lia]|done|].
    exists (l ++ [n mod 10]). split; [by destruct l|]. split; [rewrite value_snoc, Hv; pose proof (Z.div_mod n 10); lia|].
    rewrite decimal_app, (digits_app _ _ Hd). simpl. rewrite digit_of_char; [done|]. apply Z.mod_pos_bound. lia.
Qed.
Definition is_u16 (n : Z) : Prop := 0 <= n <= 0xFFFF.
Lemma int_to_string_spec n : is_u16 n -> exists l, l <> [] /\ value l = n /\ digits (int_to_string n) = (l, EmptyString).
Proof.
  intros H. unfold int_to_string. rewrite (proj2 (Z.ltb_ge n 0)) by (unfold is_u16 in H; lia).
  apply decimal_spec; [unfold is_u16 in H|]; lia.
Qed.
Lemma split_dot_digits s : forall l r, digits s = (l, EmptyString) -> split_dot (s +:+ String "."%char r) = Some (s, r).
Proof.
  induction s as [|c s IH]; intros l r H; [done|]. simpl in *. destruct (digit c) as [d|] eqn:Ec; [|done].
  destruct (Ascii.eqb_spec c "."%char) as [->|Hc]; [done|]. destruct (digits s) as [l1 r1]. injection H as _ ->. by rewrite (IH l1 r eq_refl).
Qed.

(** A suffix is empty or starts with a plus or a minus. *)
Definition suffix_ok (s : string) : bool := match s with EmptyString => true | String c _ => suffix_start c end.
Definition version_ok (v : Version) : Prop := is_u16 (major v) /\ is_u16 (minor v) /\ is_u16 (patch v) /\ suffix_ok (suffix v) = true.
Lemma digits_suffix s : suffix_ok s = true -> digits s = ([], s).
Proof.
  destruct s as [|c s]; [done|]. simpl. unfold suffix_start. intros H. assert (digit c = None) as ->; [|done].
  apply orb_true_iff in H as [H|H]; apply Ascii.eqb_eq in H as ->; done.
Qed.
Lemma from_chars_digits s l r : digits s = (l, EmptyString) -> l <> [] -> is_u16 (value l) -> suffix_ok r = true -> from_chars (s +:+ r) = Some (value l, r).
Proof.
  intros Hd Hl Hv Hr. unfold from_chars. rewrite (digits_app s l Hd), (digits_suffix r Hr), app_nil_r.
  rewrite bool_decide_eq_false_2 by done. rewrite Z.gtb_ltb, (proj2 (Z.ltb_ge _ _)); [done|]. unfold is_u16 in Hv. lia.
Qed.
Lemma string_app_nil (s : string) : s +:+ EmptyString = s.
Proof. induction s as [|c s IH]; [done|]. simpl. by rewrite IH. Qed.

Lemma digits_bounds s : Forall (fun d => 0 <= d < 10) (fst (digits s)).
Proof.
  induction s as [|c s IH]; [constructor|]. simpl. destruct (digit c) as [d|] eqn:E; [|constructor].
  destruct (digits s) as [l r]. simpl in *. constructor; [|done]. unfold digit in E. case_match; [|done]. injection E as <-. rewrite andb_true_iff, !Z.leb_le in *. lia.
Qed.
Lemma value_nonneg l : Forall (fun d => 0 <= d < 10) l -> 0 <= value l.
Proof.
  induction l as [|d l IH] using rev_ind; [done|]. intros [H1 H2]%Forall_app. rewrite value_snoc. apply Forall_cons in H2 as [H2 _]. specialize (IH H1). lia.
Qed.
Lemma from_chars_bound s n r : from_chars s = Some (n, r) -> is_u16 n.
Proof.
  unfold from_chars. pose proof (digits_bounds s) as H. destruct (digits s) as [l r1]. simpl in H.
  case_bool_decide; [done|]. case_match eqn:E; [done|]. intros [= <- _]. rewrite Z.gtb_ltb, Z.ltb_ge in E. split; [by apply value_nonneg|lia].
Qed.

Theorem version_text_roundtrip (v : Version) :
  (version_ok v <-> from_string (to_string v) = Some v) /\
  forall s, from_string s = Some v -> version_ok v.
Proof.
  assert (forall s, from_string s = Some v -> version_ok v) as Hok.
  { intros s. unfold from_string, fully_consumed.
    destruct (split_dot s) as [[f0 rest]|]; [|done]. simpl. destruct (split_dot rest) as [[f1 f2]|]; [|done]. simpl.
    destruct (from_chars f0) as [[ma r0]|] eqn:E0; [|done]. simpl. case_bool_decide; [|done]. simpl.
    destruct (from_chars f1) as [[mi r1]|] eqn:E1; [|done]. simpl. case_bool_decide; [|done]. simpl.
    destruct (from_chars f2) as [[pa r2]|] eqn:E2; [|done]. simpl.
    apply from_chars_bound in E0, E1, E2. unfold version_ok. destruct r2 as [|c r2]; [by intros [= <-]|].
    destruct (suffix_start c) eqn:Es; [|done]. intros [= <-]. done. }
  split; [|exact Hok]. split; [|apply Hok]. intros (Hma & Hmi & Hpa & Hs).
  destruct (int_to_string_spec _ Hma) as (l0 & N0 & V0 & D0).
  destruct (int_to_string_spec _ Hmi) as (l1 & N1 & V1 & D1).
  destruct (int_to_string_spec _ Hpa) as (l2 & N2 & V2 & D2).
  unfold from_string, to_string. change ("." +:+ ?x) with (String "."%char x).
  rewrite (split_dot_digits _ _ _ D0). simpl. rewrite (split_dot_digits _ _ _ D1). simpl.
  assert (forall s l n, digits s = (l, EmptyString) -> l <> [] -> value l = n -> is_u16 n -> fully_consumed s = Some n) as Hf.
  { intros s l n D N <- Hn. unfold fully_consumed. rewrite <- (string_app_nil s). by rewrite (from_chars_digits s l EmptyString D N Hn eq_refl). }
  rewrite (Hf _ _ _ D0 N0 V0 Hma). simpl. rewrite (Hf _ _ _ D1 N1 V1 Hmi). simpl.
  rewrite (from_chars_digits _ _ _ D2 N2) by (rewrite ?V2; done). simpl. rewrite V2.
  destruct v as [ma mi pa [|c s]]; simpl in *; [done|by rewrite Hs].
Qed.

(** * Images *)

Lemma byteswap_spec ix : ix = 1%nat \/ ix = 3%nat -> forall d, (length d mod 4 = 0)%nat ->
  exists d', byteswap_data ix d = Some d' /\ byteswap_data ix d' = Some d /\ length d' = length d.
Proof.
  intros Hix d. induction d as [d IH] using (induction_ltof1 _ (@length Z)). unfold ltof in IH.
  destruct d as [|b0 [|b1 [|b2 [|b3 d]]]]; intros Hd; try done; [by exists []|].
  destruct (IH d) as (d' & E & E' & Hl); [simpl; lia|by rewrite <- (Nat.Div0.mod_add (length d) 1 4), Nat.add_comm|].
  cbn [byteswap_data]. rewrite E. eexists. split; [reflexivity|].
  destruct Hix as [-> | ->]; cbn [byteswap_data app swap_word]; simpl; rewrite E'; simpl; by rewrite Hl.
Qed.
Lemma round_up x : 0 <= x < 2 ^ 64 -> Z.land x (Z.lxor 3 (2 ^ 64 - 1)) = 4 * (x / 4).
Proof.
  intros Hx. replace (4 * (x / 4)) with (Z.shiftl (Z.shiftr x 2) 2) by (rewrite Z.shiftl_mul_pow2, Z.shiftr_div_pow2 by lia; change (2 ^ 2) with 4; lia).
  change (Z.lxor 3 (2 ^ 64 - 1)) with (Z.shiftl (Z.ones 62) 2). apply Z.bits_inj'. intros n Hn.
  rewrite Z.land_spec, !Z.shiftl_spec by lia. destruct (Z.ltb_spec n 2) as [H2|H2].
  - rewrite !(Z.testbit_neg_r _ (n - 2)) by lia. by rewrite andb_false_r.
  - rewrite Z.shiftr_spec, Z.testbit_ones_nonneg by lia. replace (n - 2 + 2) with n by lia. destruct (Z.ltb_spec (n - 2) 62) as [H62|H62]; [by rewrite andb_true_r|].
    rewrite andb_false_r. symmetry. rewrite <- (Z.mod_small x (2 ^ 64)) by lia. apply Z.mod_pow2_bits_high. lia.
Qed.
Definition in_memory (d : list Z) : Prop := Z.of_nat (length d) + 3 < 2 ^ 64.
Lemma resized_length d : in_memory d -> (length (resized d) mod 4 = 0)%nat.
Proof.
  intros H. unfold resized. rewrite length_app, length_replicate. unfold in_memory in H. rewrite round_up by lia.
  set (n := length d) in *. assert (Z.of_nat n <= 4 * ((Z.of_nat n + 3) / 4)) as Hle by (pose proof (Z.mod_pos_bound (Z.of_nat n + 3) 4); pose proof (Z.div_mod (Z.of_nat n + 3) 4); lia).
  rewrite Nat.add_comm, Nat.sub_add by lia. rewrite Z2Nat.inj_mul by (try apply Z.div_pos; lia). change (Z.to_nat 4) with 4%nat.
  by rewrite Nat.mul_comm, Nat.Div0.mod_mul.
Qed.
Lemma resized_whole d : in_memory d -> (length d mod 4 = 0)%nat -> resized d = d.
Proof.
  intros H Hd. unfold resized. unfold in_memory in H. rewrite round_up by lia. apply Nat.Div0.mod_divides in Hd as [k Hk].
  replace (Z.of_nat (length d) + 3) with (3 + Z.of_nat k * 4) by lia. rewrite Z.div_add by lia. change (3 / 4) with 0.
  replace (Z.to_nat (4 * (0 + Z.of_nat k))) with (length d) by lia. by rewrite Nat.sub_diag, app_nil_r.
Qed.

Lemma take_four (d : list Z) a b c e : take 4 d = [a; b; c; e] -> exists l, d = a :: b :: c :: e :: l.
Proof. intros H. exists (drop 4 d). rewrite <- (take_drop 4 d) at 1. by rewrite H. Qed.
Lemma rom_start_spec d t : check_rom_start d = t -> t <> Invalid -> exists l,
  d = match t with Byteswapped4 => [0x40; 0x12; 0x37; 0x80] | Byteswapped2 => [0x37; 0x80; 0x40; 0x12] | _ => [0x80; 0x37; 0x12; 0x40] end ++ l.
Proof.
  intros <-. unfold check_rom_start, matches. case_match; [done|].
  repeat case_bool_decide; try done; intros _; by apply take_four.
Qed.
Lemma unswapped_total d : (length d mod 4 = 0)%nat -> exists o, unswapped d = Some o /\
  match o with
  | None => check_rom_start d = Invalid
  | Some d' => check_rom_start d' = NotByteswapped /\ length d' = length d /\ (d' = d \/ byteswap_data 1 d = Some d' \/ byteswap_data 3 d = Some d')
  end.
Proof.
  intros Hd. unfold unswapped. destruct (check_rom_start d) eqn:E; [by exists (Some d); auto 6| | |by exists None].
  - destruct (byteswap_spec 3 ltac:(auto) d Hd) as (d' & E1 & E2 & Hl). rewrite E1. exists (Some d'). split; [done|]. split; [|by auto].
    destruct (rom_start_spec d _ E) as [l ->]; [done|]. cbn [app byteswap_data] in E1.
    destruct (byteswap_data 3 l); [|done]. by injection E1 as <-.
  - destruct (byteswap_spec 1 ltac:(auto) d Hd) as (d' & E1 & E2 & Hl). rewrite E1. exists (Some d'). split; [done|]. split; [|by auto].
    destruct (rom_start_spec d _ E) as [l ->]; [done|]. cbn [app byteswap_data] in E1.
    destruct (byteswap_data 1 l); [|done]. by injection E1 as <-.
Qed.
(** Either swap of a native image is recognised and undone. *)
Lemma unswapped_dump rom d : check_rom_start rom = NotByteswapped -> (length rom mod 4 = 0)%nat ->
  d = rom \/ byteswap_data 1 rom = Some d \/ byteswap_data 3 rom = Some d -> unswapped d = Some (Some rom) /\ length d = length rom.
Proof.
  intros Hn Hl Hd. destruct (rom_start_spec rom _ Hn) as [l El]; [done|].
  destruct Hd as [->|[E|E]]; [by unfold unswapped; rewrite Hn|..].
  - destruct (byteswap_spec 1 ltac:(auto) rom Hl) as (d' & E1 & E2 & Hd). rewrite E in E1. injection E1 as <-. split; [|done].
    unfold unswapped. rewrite E2. rewrite El in E. cbn [app byteswap_data] in E. destruct (byteswap_data 1 l); [|done]. by injection E as <-.
  - destruct (byteswap_spec 3 ltac:(auto) rom Hl) as (d' & E1 & E2 & Hd). rewrite E in E1. injection E1 as <-. split; [|done].
    unfold unswapped. rewrite E2. rewrite El in E. cbn [app byteswap_data] in E. destruct (byteswap_data 3 l); [|done]. by injection E as <-.
Qed.

(** ** Byte orders *)

(** A dump of [rom] whose reader exchanged bytes: the byte of index [i] is found at
    [i xor k]. [k] is 0 in big-endian order, 1 when the bytes of each half-word are
    exchanged, 3 when those of each word are reversed. *)
Definition dumped_as (k : nat) (rom dump : list Z) : Prop :=
  length dump = length rom /\ forall i, (i < length rom)%nat -> dump !! Nat.lxor i k = rom !! i.
Lemma land_low q r : (r < 4)%nat -> Nat.land (q * 2 ^ 2) r = 0%nat.
Proof.
  intros Hr. apply Nat.bits_inj_0. intros n. rewrite Nat.land_spec. destruct (decide (n < 2)%nat) as [Hn|Hn].
  - by rewrite Nat.mul_pow2_bits_low.
  - rewrite <- (Nat.mod_small r (2 ^ 2)) by (simpl; lia). rewrite Nat.mod_pow2_bits_high by lia. apply andb_false_r.
Qed.
Lemma lxor_word q r k : (r < 4)%nat -> (Nat.lxor r k < 4)%nat -> Nat.lxor (q * 2 ^ 2 + r) k = (q * 2 ^ 2 + Nat.lxor r k)%nat.
Proof. intros Hr Hk. rewrite !Nat.add_nocarry_lxor by by apply land_low. apply Nat.lxor_assoc. Qed.
Lemma lxor_next_word i k : k = 0%nat \/ k = 1%nat \/ k = 3%nat -> Nat.lxor (4 + i) k = (4 + Nat.lxor i k)%nat.
Proof.
  intros Hk. pose proof (Nat.div_mod_eq i 4) as Hi. pose proof (Nat.mod_upper_bound i 4 ltac:(lia)) as Hr. set (q := (i / 4)%nat) in *. set (r := (i mod 4)%nat) in *.
  assert (Nat.lxor r k < 4)%nat as Hx.
  { clearbody r. destruct r as [|[|[|[|r]]]]; [| | | |lia]; destruct Hk as [->|[->| ->]]; vm_compute; lia. }
  rewrite Hi. replace (4 + (4 * q + r))%nat with (S q * 2 ^ 2 + r)%nat by (simpl; lia). replace (4 * q + r)%nat with (q * 2 ^ 2 + r)%nat by (simpl; lia).
  rewrite !lxor_word by done. simpl. lia.
Qed.
Lemma dumped_swapped k rom : k = 1%nat \/ k = 3%nat -> forall dump, (length rom mod 4 = 0)%nat -> dumped_as k rom dump -> byteswap_data k rom = Some dump.
Proof.
  intros Hk. induction rom as [rom IH] using (induction_ltof1 _ (@length Z)). unfold ltof in IH. intros dump Hl [Hd Hi].
  destruct rom as [|b0 [|b1 [|b2 [|b3 rom]]]]; try done; [by destruct dump|].
  destruct dump as [|d0 [|d1 [|d2 [|d3 dump]]]]; try done. cbn [byteswap_data].
  rewrite (IH rom) with (dump := dump); [|simpl; lia|by rewrite <- (Nat.Div0.mod_add (length rom) 1 4), Nat.add_comm|].
  - cbn [mbind option_bind]. pose proof (Hi 0%nat ltac:(simpl; lia)) as H0. pose proof (Hi 1%nat ltac:(simpl; lia)) as H1.
    pose proof (Hi 2%nat ltac:(simpl; lia)) as H2. pose proof (Hi 3%nat ltac:(simpl; lia)) as H3.
    destruct Hk as [-> | ->]; cbn in H0, H1, H2, H3; injection H0 as ->; injection H1 as ->; injection H2 as ->; injection H3 as ->; reflexivity.
  - split; [simpl in Hd; lia|]. intros i Hlt. pose proof (Hi (4 + i)%nat ltac:(simpl; lia)) as H4. rewrite lxor_next_word in H4 by tauto. exact H4.
Qed.
Lemma dump_orders k rom dump : k = 0%nat \/ k = 1%nat \/ k = 3%nat -> (length rom mod 4 = 0)%nat -> dumped_as k rom dump ->
  dump = rom \/ byteswap_data 1 rom = Some dump \/ byteswap_data 3 rom = Some dump.
Proof.
  intros [->|[->| ->]] Hl Hd; [left|right; left|right; right]; try (apply dumped_swapped; auto).
  destruct Hd as [Hd Hi]. apply list_eq_same_length with (length rom); [done|done|]. intros i x y Hlt Hx Hy.
  specialize (Hi i Hlt). rewrite Nat.lxor_0_r in Hi. congruence.
Qed.

Section Library.
Context (XXH3_64bits : list Z -> Z) (config_path : string).
Abbreviation select_rom := (select_rom XXH3_64bits config_path).
Abbreviation load_stored_rom := (load_stored_rom XXH3_64bits config_path).
Abbreviation check_stored_rom := (check_stored_rom XXH3_64bits config_path).
Abbreviation stored_path := (stored_path config_path).

(** C38: A ROM chosen by the user as it is, with the bytes of every half-word exchanged or
    with those of every word reversed, is stored in big-endian order; checking and loading
    the stored copy then succeed and give the game's own bytes, and no other file changes. *)
Theorem any_byte_order_is_loaded (l : library) (fs : files) (id rom_path : string) (g : GameEntry) (rom dump : list Z) (k : nat) :
  game_roms l !! id = Some g -> in_memory rom -> (length rom mod 4 = 0)%nat -> check_rom_start rom = NotByteswapped ->
  check_hash XXH3_64bits rom (rom_hash g) = true ->
  k = 0%nat \/ k = 1%nat \/ k = 3%nat -> dumped_as k rom dump -> fs !! rom_path = Some dump ->
  exists fs', select_rom (Written (length rom)) rom_path id l fs = Some (Good, fs') /\
  (forall p, p <> stored_path g -> fs' !! p = fs !! p) /\
  check_stored_rom g fs' = (true, fs') /\ load_stored_rom id l fs' = (Some rom, fs').
Proof.
  intros Hg Hm Hl Hn Hh Hk Hd Hf. destruct (unswapped_dump rom dump Hn Hl (dump_orders k rom dump Hk Hl Hd)) as [Hu Hlen].
  exists (<[stored_path g := rom]> fs). unfold Rom.select_rom, read_file. rewrite Hg, Hf. cbn [default from_option Datatypes.id].
  rewrite bool_decide_eq_false_2; [|intros ->; destruct rom; [by vm_compute in Hn|done]].
  rewrite resized_whole by (unfold in_memory in *; by rewrite Hlen). rewrite Hu, Hh. cbn [write_file snd]. rewrite firstn_all.
  split; [done|]. split; [intros p Hp; by rewrite lookup_insert_ne|].
  unfold Rom.check_stored_rom, Rom.load_stored_rom, read_file. rewrite Hg, lookup_insert_eq. cbn [default from_option Datatypes.id]. by rewrite Hh.
Qed.

(** The name of nineteen bytes that [NotYet] asks for is compared before. *)
Lemma wrong_image_spec g d : (wrong_image g d = None <-> (length d < 0x20 + length (internal_name g))%nat) /\
  forall e, wrong_image g d = Some e -> e = IncorrectVersion \/ e = IncorrectRom.
Proof.
  unfold wrong_image. destruct (header_name (length (internal_name g)) d) as [name|] eqn:E; unfold header_name in E; case_match eqn:Hlt; try done; cbn [mbind option_bind].
  2:{ apply Nat.ltb_lt in Hlt. done. }
  apply Nat.ltb_ge in Hlt. injection E as <-. case_bool_decide as Hname; [split; [split; [done|lia]|intros e [= <-]; by left]|].
  case_match eqn:Ec; [|split; [split; [done|lia]|intros e [= <-]; by right]]. exfalso. apply Hname.
  apply andb_true_iff in Ec as [[_ H19%Nat.eqb_eq]%andb_true_iff Ec%bool_decide_eq_true]. rewrite H19 in *.
  unfold header_name in Ec. case_match; [done|]. by injection Ec.
Qed.

(** A dump of a registered game that starts like an image, in native order. *)
Definition candidate (l : library) (fs : files) (id rom_path : string) (g : GameEntry) (d : list Z) : Prop :=
  game_roms l !! id = Some g /\ read_file rom_path fs <> [] /\ unswapped (resized (read_file rom_path fs)) = Some (Some d).

(** select_rom reads past a dump exactly when its hash fails and it is shorter than the header with the game's internal name; otherwise an error leaves every file alone, and success has the checked ROM handed to write_file, whose result it does not look at. *)
Theorem select_rom_outcomes (w : write_result) (l : library) (fs : files) (id rom_path : string) : in_memory (read_file rom_path fs) ->
  (select_rom w rom_path id l fs = None <-> exists g d, candidate l fs id rom_path g d /\
     check_hash XXH3_64bits d (rom_hash g) = false /\ (length d < 0x20 + length (internal_name g))%nat) /\
  forall e fs', select_rom w rom_path id l fs = Some (e, fs') ->
  e <> NotYet /\ (e <> Good -> fs' = fs) /\
  (e = Good -> exists g d, candidate l fs id rom_path g d /\ check_rom_start d = NotByteswapped /\
     check_hash XXH3_64bits d (rom_hash g) = true /\ fs' = snd (write_file w (stored_path g) d fs)).
Proof.
  intros Hm. unfold Rom.select_rom, candidate. destruct (game_roms l !! id) as [g|].
  2:{ split; [split; [done|intros (g & d & [[=] _] & _)]|]. by intros e fs' [= <- <-]. }
  case_bool_decide as He.
  { split; [split; [done|by intros (g' & d & (_ & ? & _) & _)]|]. by intros e fs' [= <- <-]. }
  destruct (unswapped_total _ (resized_length _ Hm)) as (o & Eu & Ho). rewrite Eu. destruct o as [d|].
  2:{ split; [split; [done|by intros (g' & d & (_ & _ & [=]) & _)]|]. by intros e fs' [= <- <-]. }
  destruct Ho as (Hn & _). destruct (check_hash _ d (rom_hash g)) eqn:Eh.
  { split; [split; [done|intros (g' & d' & ([= <-] & _ & [= <-]) & Eh' & _); by rewrite Eh in Eh']|].
    intros e fs' [= <- <-]. split; [done|]. split; [done|]. intros _. by exists g, d. }
  destruct (wrong_image_spec g d) as [Hnone Hsome]. destruct (wrong_image g d) as [e|] eqn:Ew; cbn [mbind option_bind].
  - split; [split; [done|intros (g' & d' & ([= <-] & _ & [= <-]) & _ & Hlt); by apply Hnone in Hlt]|].
    intros e' fs' [= <- <-]. specialize (Hsome e eq_refl). split; [by destruct Hsome as [-> | ->]|]. split; [done|]. by destruct Hsome as [-> | ->].
  - split; [|done]. split; [intros _; exists g, d|done]. split; [done|]. split; [done|]. by apply Hnone.
Qed.

(** The library after the start: the games whose stored image is intact. *)
Lemma check_all_valid games : forall l fs,
  NoDup (stored_path ∘ snd <$> games) ->
  let '(l', fs') := check_all_stored_roms XXH3_64bits config_path games (l, fs) in
  (forall id, id ∈ valid_game_roms l' <-> id ∈ valid_game_roms l \/
     exists g, (id, g) ∈ games /\ check_hash XXH3_64bits (read_file (stored_path g) fs) (rom_hash g) = true) /\
  game_roms l' = game_roms l /\ (forall p, p ∉ (stored_path ∘ snd <$> games) -> fs' !! p = fs !! p).
Proof.
  unfold check_all_stored_roms. induction games as [|[i g] games IH]; intros l fs Hnd.
  { simpl. split; [|done]. intros id. split; [by left|]. intros [?|(g & H & _)]; [done|by apply elem_of_nil in H]. }
  cbn [foldl]. cbn [fmap list_fmap] in Hnd. apply NoDup_cons in Hnd as [Hg Hnd]. unfold Rom.check_stored_rom.
  assert (forall fs1, (forall p, p <> stored_path g -> fs1 !! p = fs !! p) -> forall id g', (id, g') ∈ games -> read_file (stored_path g') fs1 = read_file (stored_path g') fs) as Hread.
  { intros fs1 H1 id g' Hin. unfold read_file. rewrite H1; [done|]. intros E. apply Hg. apply list_elem_of_fmap. exists (id, g'). split; [symmetry; exact E|done]. }
  destruct (check_hash _ (read_file (stored_path g) fs) (rom_hash g)) eqn:Eh.
  - specialize (IH (MkLibrary (game_roms l) ({[i]} ∪ valid_game_roms l)) fs Hnd). destruct (foldl _ _ games) as [l' fs']. destruct IH as (H1 & H2 & H3).
    split; [|split; [done|intros p Hp; apply H3; set_solver]]. intros id. rewrite H1. cbn [valid_game_roms]. split.
    + intros [[->%elem_of_singleton|H]%elem_of_union|(g' & Hin & Hc)]; [right; exists g; split; [by left|done]|by left|right; exists g'; split; [by right|done]].
    + intros [H|(g' & [[= -> ->]|Hin]%elem_of_cons & Hc)]; [left; set_solver|left; set_solver|right; by exists g'].
  - specialize (IH l (delete (stored_path g) fs) Hnd). destruct (foldl _ _ games) as [l' fs']. destruct IH as (H1 & H2 & H3).
    assert (forall p, p <> stored_path g -> delete (stored_path g) fs !! p = fs !! p) as Hdel by (intros p Hp; by rewrite lookup_delete_ne).
    split; [|split; [done|intros p Hp; rewrite H3 by set_solver; apply Hdel; set_solver]]. intros id. rewrite H1. split.
    + intros [H|(g' & Hin & Hc)]; [by left|]. right. exists g'. split; [by right|]. by rewrite <- (Hread _ Hdel id g' Hin).
    + intros [H|(g' & [[= -> ->]|Hin]%elem_of_cons & Hc)]; [by left|by rewrite Eh in Hc|]. right. exists g'. split; [done|]. by rewrite (Hread _ Hdel id g' Hin).
Qed.
End Library.

(** * The game's status *)

(** Quitting after a game was started and before its thread looks leaves that thread
    without the game's name, which it asks for. *)
Lemma quit_before_the_game_runs mods_load id s :
  fst (wait_for_game_started mods_load (quit (start_game id s))) = No_current_game.
Proof. done. Qed.

(** * The status register *)

Theorem status_follows_writes (l : list Z) (v : Z) :
  let c := foldl (fun c v => cop0_status_write v c) (MkStatus 0 false false) (l ++ [v]) in
  cop0_status_read c = u64 (s32 (u32 v)) /\
  f_odd_own c = Z.testbit (u32 v) 26 /\ mips3_float_mode c = Z.testbit (u32 v) 26.
Proof.
  assert (forall a, negb (Z.land a FR =? 0) = Z.testbit a 26) as Hbit.
  { intros a. change FR with (2 ^ 26). destruct (Z.testbit a 26) eqn:E.
    - apply negb_true_iff, Z.eqb_neq. intros H. apply (f_equal (fun x => Z.testbit x 26)) in H.
      rewrite Z.land_spec, E, Z.pow2_bits_true, Z.bits_0 in H by lia. done.
    - apply negb_false_iff, Z.eqb_eq. apply Z.bits_inj'. intros n Hn. rewrite Z.land_spec, Z.bits_0, Z.pow2_bits_eqb by lia.
      destruct (Z.eqb_spec 26 n) as [<-|]; [by rewrite E|by rewrite andb_false_r]. }
  assert (forall l, let c := foldl (fun c v => cop0_status_write v c) (MkStatus 0 false false) l in
            f_odd_own c = Z.testbit (status_reg c) 26 /\ mips3_float_mode c = Z.testbit (status_reg c) 26) as Hinv.
  { clear l v. intros l. induction l as [|v l IH] using rev_ind; [done|]. rewrite foldl_app. cbn [foldl].
    set (c := foldl _ _ l) in *. unfold cop0_status_write. rewrite !Hbit. destruct IH as [H1 H2].
    rewrite Z.lxor_spec. destruct (xorb (Z.testbit (status_reg c) 26) (Z.testbit (u32 v) 26)) eqn:E; cbn [f_odd_own mips3_float_mode status_reg]; [done|].
    rewrite H1, H2. revert E. by destruct (Z.testbit (status_reg c) 26), (Z.testbit (u32 v) 26). }
  cbv zeta. pose proof (Hinv (l ++ [v])) as H. cbv zeta in H. rewrite foldl_app in *. cbn [foldl] in *. set (c := foldl _ _ l) in *.
  assert (status_reg (cop0_status_write v c) = u32 v) as E by (unfold cop0_status_write; by case_match). rewrite E in H.
  unfold cop0_status_read. by rewrite E.
Qed.
