(* ===== verification/AudioGuard.v ===== *)
(** The guard against voices that play freed samples, and the diagnostics on the
    game's audio: librecomp/src/audio_uaf_protect.cpp.

    A game registers where its synthesizer keeps its voices: two intrusive lists of
    voice structs, and possibly a table of its own. Before it frees a range of
    memory, the voices whose sample lies there are stopped. Two rings record what
    the voices do from one audio frame to the next, and which ADPCM decodes
    continue with another sample's predictor. Guest memory is the host array with
    the bytes of a word swapped; clocks are arguments. *)

From Stdlib Require Import ZArith Lia Bool List.
From stdpp Require Import base list gmap.
From S2P Require Import Prelude Bytes GuestMem Kernel RspMem GbCart EventRing.
Open Scope Z_scope.

(** * Memory *)

Definition kSkipList : Z := 0xFFFFFFFF.
Definition in_rdram_kseg0 (vaddr : Z) : bool := (vaddr >=? 0x80000000) && (vaddr <? 0x80800000).
Definition to_paddr (vaddr : Z) : Z := Z.land vaddr 0x1FFFFFFF.
(** [rdram[paddr ^ 3]] for a 32-bit address. *)
Definition load_u8 (m : hostmem) (paddr : Z) : Z := u8 (hbyte m (Z.lxor (u32 paddr) 3)).
Definition load_be32 (m : hostmem) (p : Z) : Z :=
  load_u8 m p * 2 ^ 24 + load_u8 m (p + 1) * 2 ^ 16 + load_u8 m (p + 2) * 2 ^ 8 + load_u8 m (p + 3).
Definition load_be16 (m : hostmem) (p : Z) : Z := s16 (load_u8 m p * 2 ^ 8 + load_u8 m (p + 1)).
Definition store_u8 (p v : Z) (m : hostmem) : hostmem := <[Z.lxor (u32 p) 3 := u8 v]> m.
Definition store_be32 (p v : Z) (m : hostmem) : hostmem :=
  store_u8 (p + 3) v (store_u8 (p + 2) (v / 2 ^ 8) (store_u8 (p + 1) (v / 2 ^ 16) (store_u8 p (v / 2 ^ 24) m))).

(** * Layouts *)

Record VoiceLayout := MkLayout {
  n_syn_var_vaddr : Z; alloc_list_offset : Z; lame_list_offset : Z; voice_em_motion_offset : Z; voice_dc_table_offset : Z;
  voice_em_motion_stopped_value : Z; max_voice_count : Z; voice_dc_state_offset : Z; voice_dc_sample_offset : Z;
  voice_dc_lastsam_offset : Z; voice_dc_first_offset : Z }.
Record SecondaryVoiceTableLayout := MkTable {
  count_vaddr : Z; array_ptr_vaddr : Z; voice_size : Z; table_max_voice_count : Z; chain_step_count : Z; chain_offsets : list Z;
  silence_field_offset : Z; silence_value : Z }.

(** The synthesizer's address, 0 when it is not there. *)
Definition resolve_synth (layout : option VoiceLayout) (m : hostmem) : Z :=
  match layout with
  | None => 0
  | Some L =>
      if negb (in_rdram_kseg0 (n_syn_var_vaddr L)) then 0
      else let synth_v := load_be32 m (to_paddr (n_syn_var_vaddr L)) in if in_rdram_kseg0 synth_v then synth_v else 0
  end.

(** ** Walking a list *)

Section Walk.
Context {A : Type} (mem_of : A -> hostmem) (visit : Z -> A -> bool * A).
(** [n] nodes are left of the cap; the next link is read after the visit. *)
Fixpoint walk (n : nat) (list_head_v node_v : Z) (silenced : Z) (s : A) : Z * A :=
  if negb (node_v =? list_head_v) && in_rdram_kseg0 node_v then
    match n with
    | O => (silenced, s)
    | S n =>
        let '(hit, s) := visit node_v s in
        walk n list_head_v (load_be32 (mem_of s) (to_paddr node_v)) (if hit then silenced + 1 else silenced) s
    end
  else (silenced, s).
Definition walk_list (synth_v list_offset max_voices : Z) (s : A) : Z * A :=
  if list_offset =? kSkipList then (0, s)
  else
    let list_head_v := u32 (synth_v + list_offset) in
    if negb (in_rdram_kseg0 list_head_v) then (0, s)
    else walk (Z.to_nat max_voices) list_head_v (load_be32 (mem_of s) (to_paddr list_head_v)) 0 s.
End Walk.

(** * Stopping voices *)

Definition em_motion_at (L : VoiceLayout) (voice_v : Z) : Z := u32 (to_paddr voice_v + voice_em_motion_offset L).
Definition dc_table_at (L : VoiceLayout) (voice_v : Z) : Z := u32 (to_paddr voice_v + voice_dc_table_offset L).
Definition stop_voice (L : VoiceLayout) (voice_v : Z) (m : hostmem) : hostmem :=
  store_be32 (em_motion_at L voice_v) (voice_em_motion_stopped_value L) m.
Definition stop_in_range (L : VoiceLayout) (start_vaddr end_vaddr : Z) (voice_v : Z) (m : hostmem) : bool * hostmem :=
  let dc_table := load_be32 m (dc_table_at L voice_v) in
  if (dc_table >=? start_vaddr) && (dc_table <? end_vaddr) then (true, stop_voice L voice_v m) else (false, m).
Definition walk_both (visit : Z -> hostmem -> bool * hostmem) (L : VoiceLayout) (synth_v : Z) (m : hostmem) : Z * hostmem :=
  let '(a, m) := walk_list (fun m => m) visit synth_v (alloc_list_offset L) (max_voice_count L) m in
  let '(b, m) := walk_list (fun m => m) visit synth_v (lame_list_offset L) (max_voice_count L) m in
  (a + b, m).
Definition silence_voices_in_range (layout : option VoiceLayout) (start_vaddr end_vaddr : Z) (m : hostmem) : Z * hostmem :=
  if start_vaddr >=? end_vaddr then (0, m)
  else
    let synth_v := resolve_synth layout m in
    match layout with
    | Some L => if synth_v =? 0 then (-1, m) else walk_both (stop_in_range L start_vaddr end_vaddr) L synth_v m
    | None => (-1, m)
    end.
Definition silence_all_voices (layout : option VoiceLayout) (m : hostmem) : Z * hostmem :=
  let synth_v := resolve_synth layout m in
  match layout with
  | Some L => if synth_v =? 0 then (-1, m) else walk_both (fun v m => (true, stop_voice L v m)) L synth_v m
  | None => (-1, m)
  end.

(** ** The game's own table *)

(** The pointer at the end of the chain of [steps] from [cur_v]; [None] leaves memory. *)
Fixpoint follow_chain (m : hostmem) (steps : list Z) (cur_v : Z) : option Z :=
  match steps with
  | [] => Some cur_v
  | off :: steps =>
      let step_addr := u32 (cur_v + off) in
      if negb (in_rdram_kseg0 step_addr) then None
      else
        let cur_v := load_be32 m (to_paddr step_addr) in
        if negb (bool_decide (steps = [])) && negb (in_rdram_kseg0 cur_v) then None else follow_chain m steps cur_v
  end.
Definition table_voice (L : SecondaryVoiceTableLayout) (array_p i : Z) : Z := u32 (array_p + u32 (i * voice_size L)).
Definition silence_entry (L : SecondaryVoiceTableLayout) (start_vaddr end_vaddr array_p : Z) (s : Z * hostmem) (i : Z) : Z * hostmem :=
  let '(silenced, m) := s in
  let voice_p := table_voice L array_p i in
  match follow_chain m (take (Z.to_nat (chain_step_count L)) (chain_offsets L)) (Z.lor 0x80000000 (Z.land voice_p 0x1FFFFFFF)) with
  | None => (silenced, m)
  | Some cur_v =>
      if (cur_v >=? start_vaddr) && (cur_v <? end_vaddr)
      then (silenced + 1, store_be32 (u32 (voice_p + silence_field_offset L)) (silence_value L) m)
      else (silenced, m)
  end.
Definition silence_secondary_in_range (table : option SecondaryVoiceTableLayout) (start_vaddr end_vaddr : Z) (m : hostmem) : Z * hostmem :=
  if start_vaddr >=? end_vaddr then (0, m)
  else match table with
  | None => (0, m)
  | Some L =>
      if chain_step_count L >? 4 then (-1, m)
      else if negb (in_rdram_kseg0 (count_vaddr L)) || negb (in_rdram_kseg0 (array_ptr_vaddr L)) then (-1, m)
      else
        let count := load_be32 m (to_paddr (count_vaddr L)) in
        if (count =? 0) || (count >? table_max_voice_count L) then (0, m)
        else
          let array_v := load_be32 m (to_paddr (array_ptr_vaddr L)) in
          if negb (in_rdram_kseg0 array_v) then (0, m)
          else foldl (silence_entry L start_vaddr end_vaddr (to_paddr array_v)) (0, m) (seqZ 0 count)
  end.

(** * What the voices do *)

Module VoiceRing.
Inductive Kind := ATTACK | KEY_OFF | REALLOC.
(** [None] in the stamps until the event is in the ring. *)
Record VoiceEvent := MkVoiceEvent {
  voice_ptr : Z; kind : Kind; em_motion : Z; prev_motion : Z; dc_table : Z; prev_table : Z; dc_sample : Z; dc_first : Z;
  dc_lastsam : Z; dc_state : Z; carry0 : Z; carry1 : Z; wt_base : Z; wt_len : Z; wt_type : Z; loop_start : Z; loop_end : Z; loop_count : Z }.
Record stamped := MkStamped { seq : Z; ms : Z; pass : Z; event : VoiceEvent }.
Definition RING_CAP : Z := 16384.
Record PrevState := MkPrev { last_motion : Z; last_dc_table : Z; last_table : Z; prev_first : Z; last_seen_pass : Z }.
Record state := MkState { g_ring : ring stamped; g_prev : gmap Z PrevState; g_pass : Z }.

Definition push (now : Z) (e : VoiceEvent) (s : state) : state :=
  MkState (ring_record u64 RING_CAP (fun n => MkStamped n now (g_pass s) e) (g_ring s)) (g_prev s) (g_pass s).

(** An offset of zero leaves its field out. *)
Definition optional_field (m : hostmem) (vp off : Z) : Z := if off =? 0 then 0 else load_be32 m (u32 (vp + off)).
(** The fields of a voice, before it is classified. *)
Definition read_voice (L : VoiceLayout) (m : hostmem) (voice_v : Z) : VoiceEvent :=
  let vp := to_paddr voice_v in
  let em := load_be32 m (em_motion_at L voice_v) in
  let table := load_be32 m (dc_table_at L voice_v) in
  let st := optional_field m vp (voice_dc_state_offset L) in
  let '(c0, c1) := if in_rdram_kseg0 st then (load_be16 m (to_paddr st + 28), load_be16 m (to_paddr st + 30)) else (0, 0) in
  let wp := to_paddr table in
  let '(base, len, type) := if in_rdram_kseg0 table then (load_be32 m wp, load_be32 m (wp + 4), load_u8 m (wp + 8)) else (0, 0, 0xFF) in
  let loop_v := load_be32 m (wp + 0xC) in
  let lp := to_paddr loop_v in
  let '(ls, le, lc) := if in_rdram_kseg0 table && in_rdram_kseg0 loop_v then (load_be32 m lp, load_be32 m (lp + 4), load_be32 m (lp + 8)) else (0, 0, 0) in
  MkVoiceEvent voice_v ATTACK em 0 table 0 (optional_field m vp (voice_dc_sample_offset L)) (optional_field m vp (voice_dc_first_offset L))
    (s32 (optional_field m vp (voice_dc_lastsam_offset L))) st c0 c1 base len type ls le lc.
Definition classified (k : Kind) (motion table : Z) (e : VoiceEvent) : VoiceEvent :=
  MkVoiceEvent (voice_ptr e) k (em_motion e) motion (dc_table e) table (dc_sample e) (dc_first e) (dc_lastsam e) (dc_state e) (carry0 e) (carry1 e)
    (wt_base e) (wt_len e) (wt_type e) (loop_start e) (loop_end e) (loop_count e).

(** What a voice's change since the last pass amounts to. *)
Definition classify (stopped : Z) (prev : option PrevState) (e : VoiceEvent) : option VoiceEvent :=
  let motion := default stopped (last_motion <$> prev) in
  let last := default 0 (last_table <$> prev) in
  let first := default 0 (prev_first <$> prev) in
  let was_playing := bool_decide (is_Some prev) && negb (motion =? stopped) in
  let is_playing := negb (em_motion e =? stopped) in
  let table_ok := in_rdram_kseg0 (dc_table e) in
  if (dc_first e =? 1) && negb (first =? 1) then Some (classified ATTACK motion last e)
  else if is_playing && table_ok && negb (last =? 0) && negb (dc_table e =? last) && (dc_first e =? 0) then Some (classified REALLOC motion last e)
  else if negb is_playing && was_playing then Some (classified KEY_OFF motion (default 0 (last_dc_table <$> prev)) e)
  else None.
Definition remember (pass : Z) (prev : option PrevState) (e : VoiceEvent) : PrevState :=
  MkPrev (em_motion e) (dc_table e)
    (if in_rdram_kseg0 (dc_table e) && negb (dc_table e =? 0) then dc_table e else default 0 (last_table <$> prev))
    (dc_first e) pass.
Definition push_option (now : Z) (e : option VoiceEvent) (s : state) : state := match e with Some e => push now e s | None => s end.
Definition set_prev (p : gmap Z PrevState) (s : state) : state := MkState (g_ring s) p (g_pass s).
Definition visit_voice (L : VoiceLayout) (m : hostmem) (now voice_v : Z) (s : state) : bool * state :=
  let e := read_voice L m voice_v in
  let prev := g_prev s !! voice_v in
  let s := push_option now (classify (voice_em_motion_stopped_value L) prev e) s in
  (false, set_prev (<[voice_v := remember (g_pass s) prev e]> (g_prev s)) s).

(** A voice that was not met in this pass. *)
Definition vanished (stopped voice_v : Z) (p : PrevState) : option VoiceEvent :=
  if last_motion p =? stopped then None
  else Some (MkVoiceEvent voice_v KEY_OFF stopped (last_motion p) 0 (last_dc_table p) 0 0 0 0 0 0 0 0 0xFF 0 0 0).
Definition sweep_one (stopped now voice_v : Z) (s : state) : state :=
  match g_prev s !! voice_v with
  | None => s
  | Some p =>
      if last_seen_pass p =? g_pass s then s
      else
        let s := push_option now (vanished stopped voice_v p) s in
        if u64 (g_pass s - last_seen_pass p) >? 600 then set_prev (delete voice_v (g_prev s)) s
        else set_prev (<[voice_v := MkPrev stopped (last_dc_table p) (last_table p) (prev_first p) (last_seen_pass p)]> (g_prev s)) s
  end.
(** The sweep follows the order of the hash table. *)
Definition sweep (stopped now : Z) (s : state) : state :=
  foldl (fun s v => sweep_one stopped now v s) s (map_to_list (g_prev s)).*1.
Definition sample_pass (L : VoiceLayout) (m : hostmem) (synth_v now : Z) (s : state) : state :=
  let s := MkState (g_ring s) (g_prev s) (u64 (g_pass s + 1)) in
  let visit := visit_voice L m now in
  let '(_, s) := walk_list (fun _ => m) visit synth_v (alloc_list_offset L) (max_voice_count L) s in
  let '(_, s) := walk_list (fun _ => m) visit synth_v (lame_list_offset L) (max_voice_count L) s in
  sweep (voice_em_motion_stopped_value L) now s.
(** [recomp_voice_events_recent_copy]. *)
Definition recent (cap : Z) (s : state) : list (option stamped) := recent_copy RING_CAP cap (g_ring s).
End VoiceRing.

(** * ADPCM decodes *)

Module AdpcmRing.
Definition A_ADPCM_OP : Z := 1.
Definition A_LOADADPCM_OP : Z := 11.
Definition A_INIT_FLAG : Z := 1.
Record AdpcmEvent := MkAdpcm {
  state : Z; book : Z; prev_book : Z; flags : Z; init : Z; count : Z; suspect : Z }.
Record stamped := MkStamped { seq : Z; ms : Z; frame : Z; event : AdpcmEvent }.
Definition RING_CAP : Z := 16384.
Record ring_state := MkState { g_ring : ring stamped; g_frame : Z; g_last_book : gmap Z Z }.
Definition push (now : Z) (e : AdpcmEvent) (s : ring_state) : ring_state :=
  MkState (ring_record u64 RING_CAP (fun n => MkStamped n now (g_frame s) e) (g_ring s)) (g_frame s) (g_last_book s).

(** A decode with the book loaded before it. *)
Definition decode (w0 w1 cur_book : Z) (last_book : gmap Z Z) : AdpcmEvent :=
  let st := Z.land w0 0x00FFFFFF in
  let fl := Z.land (Z.shiftr w1 28) 0xF in
  let init := if negb (Z.land fl A_INIT_FLAG =? 0) then 1 else 0 in
  let prev := default 0 (last_book !! st) in
  MkAdpcm st cur_book prev fl init (Z.land (Z.shiftr w1 16) 0xFFF)
    (if negb (prev =? 0) && negb (cur_book =? 0) && negb (cur_book =? prev) && (init =? 0) then 1 else 0).
Definition scan_command (now w0 w1 : Z) (x : Z * ring_state) : Z * ring_state :=
  let '(cur_book, s) := x in
  let op := Z.land (Z.shiftr w0 24) 0xFF in
  if op =? A_LOADADPCM_OP then (w1, s)
  else if op =? A_ADPCM_OP then
    let e := decode w0 w1 cur_book (g_last_book s) in
    let s := push now e s in
    (cur_book, if negb (cur_book =? 0) then MkState (g_ring s) (g_frame s) (<[state e := cur_book]> (g_last_book s)) else s)
  else (cur_book, s).
(** The commands of the list that lie in memory. *)
Fixpoint commands (m : hostmem) (n : nat) (p : Z) : list (Z * Z) :=
  match n with
  | O => []
  | S n =>
      if negb (in_rdram_kseg0 (Z.lor 0x80000000 (Z.land (u32 p) 0x1FFFFFFF))) then []
      else (load_be32 m p, load_be32 m (p + 4)) :: commands m n (p + 8)
  end.
Definition scan (m : hostmem) (cmd_vaddr cmd_size_bytes now : Z) (s : ring_state) : ring_state :=
  if negb (in_rdram_kseg0 cmd_vaddr) then s
  else
    let s := MkState (g_ring s) (u64 (g_frame s + 1)) (g_last_book s) in
    let n_cmds := if cmd_size_bytes / 8 >? 8192 then 8192 else cmd_size_bytes / 8 in
    snd (foldl (fun x '(w0, w1) => scan_command now w0 w1 x) (0, s) (commands m (Z.to_nat n_cmds) (to_paddr cmd_vaddr))).
Definition recent (cap : Z) (s : ring_state) : list (option stamped) := recent_copy RING_CAP cap (g_ring s).
End AdpcmRing.

(** [librecomp_audio_voice_ring_sample]. *)
Definition voice_ring_sample (enabled : bool) (layout : option VoiceLayout) (m : hostmem) (cmd_list_vaddr cmd_list_size now : Z)
    (s : VoiceRing.state * AdpcmRing.ring_state) : VoiceRing.state * AdpcmRing.ring_state :=
  if negb enabled then s
  else
    let '(v, a) := s in
    let a := if negb (cmd_list_vaddr =? 0) && negb (cmd_list_size =? 0) then AdpcmRing.scan m cmd_list_vaddr cmd_list_size now a else a in
    let synth_v := resolve_synth layout m in
    match layout with
    | Some L => if synth_v =? 0 then (v, a) else (VoiceRing.sample_pass L m synth_v now v, a)
    | None => (v, a)
    end.
