(* ===== verification/AudioGuardSpec.v ===== *)
(** The audio guard: no voice of the lists plays freed samples after the call, and
    the rings report each voice's change once and each stale predictor. *)

From Stdlib Require Import ZArith Lia Bool List.
From stdpp Require Import base list gmap.
From S2P Require Import Prelude Bytes GuestMem Kernel RspMem GbCart EventRing AudioGuard.
Open Scope Z_scope.

(** * Words of guest memory *)

Lemma load_store_u8 m p q v : load_u8 (store_u8 q v m) p = if decide (u32 q = u32 p) then u8 v else load_u8 m p.
Proof.
  unfold load_u8, store_u8. rewrite hbyte_insert. destruct (decide (u32 q = u32 p)) as [->|N].
  - rewrite decide_True by done. apply u8_small, u8_range.
  - rewrite decide_False; [done|]. by intros E%lxor_inj.
Qed.
(** Four bytes that do not wrap around. *)
Definition word_at (p : Z) : Prop := 0 <= p /\ p + 4 <= 2 ^ 32.
Definition apart (p q : Z) : Prop := p + 4 <= q \/ q + 4 <= p.
Lemma word_bytes p i : word_at p -> 0 <= i < 4 -> u32 (p + i) = p + i.
Proof. intros [? ?] ?. apply u32_small. unfold is_u32. lia. Qed.
Lemma load_store_apart m p q v : word_at p -> word_at q -> apart p q -> load_be32 (store_be32 q v m) p = load_be32 m p.
Proof.
  intros Hp Hq Ha. unfold load_be32, store_be32.
  assert (forall i, 0 <= i < 4 -> load_u8 (store_be32 q v m) (p + i) = load_u8 m (p + i)) as H.
  { intros i Hi. unfold store_be32. rewrite !load_store_u8, (word_bytes p i Hp Hi), (word_bytes q 1), (word_bytes q 2), (word_bytes q 3) by (done || lia).
    rewrite (u32_small q) by (unfold is_u32, word_at in *; lia). unfold apart in Ha. by rewrite !decide_False by lia. }
  unfold store_be32 in H. rewrite (H 1), (H 2), (H 3) by lia. specialize (H 0 ltac:(lia)). rewrite Z.add_0_r in H. by rewrite H.
Qed.
Lemma load_store_word m p v : word_at p -> is_u32 v -> load_be32 (store_be32 p v m) p = v.
Proof.
  intros Hp Hv. unfold load_be32, store_be32. rewrite !load_store_u8, (word_bytes p 1), (word_bytes p 2), (word_bytes p 3) by (done || lia).
  rewrite (u32_small p) by (unfold is_u32, word_at in *; lia).
  unfold is_u32 in Hv. unfold u8. repeat (case_decide; try lia).
  change (2 ^ 24) with 16777216. change (2 ^ 16) with 65536. change (2 ^ 8) with 256. Z.to_euclidean_division_equations; lia.
Qed.

(** * Stopping voices *)

(** The list from [node_v] on: its voices, back to the head. *)
Fixpoint chain (m : hostmem) (list_head_v node_v : Z) (vs : list Z) : Prop :=
  match vs with
  | [] => node_v = list_head_v
  | v :: vs => node_v = v /\ v <> list_head_v /\ in_rdram_kseg0 v = true /\ chain m list_head_v (load_be32 m (to_paddr v)) vs
  end.
Lemma to_paddr_word v : word_at (to_paddr v).
Proof. unfold word_at, to_paddr. change 0x1FFFFFFF with (Z.ones 29). rewrite Z.land_ones by lia. pose proof (Z.mod_pos_bound v (2 ^ 29)). lia. Qed.

Section Stop.
Context (L : VoiceLayout).
Abbreviation em := (em_motion_at L).
Abbreviation dc := (dc_table_at L).

Definition stop_all (vs : list Z) (m : hostmem) : hostmem := foldl (fun m v => stop_voice L v m) m vs.
Lemma stop_all_apart vs m p : word_at p -> (forall v, v ∈ vs -> word_at (em v) /\ apart (em v) p) -> load_be32 (stop_all vs m) p = load_be32 m p.
Proof.
  intros Hp. revert m. induction vs as [|v vs IH]; intros m H; [done|]. unfold stop_all in *. cbn [foldl].
  rewrite IH by (intros w Hw; apply H; by right). destruct (H v) as [Hv Ha]; [by left|]. apply load_store_apart; [done|done|]. unfold apart in *. lia.
Qed.
Lemma stop_all_in vs m v : is_u32 (voice_em_motion_stopped_value L) -> v ∈ vs -> (forall w, w ∈ vs -> word_at (em w) /\ (w <> v -> apart (em w) (em v))) ->
  load_be32 (stop_all vs m) (em v) = voice_em_motion_stopped_value L.
Proof.
  intros Hst. induction vs as [|w vs IH] using rev_ind; intros Hin H; [by apply elem_of_nil in Hin|].
  unfold stop_all. rewrite foldl_app. cbn [foldl]. destruct (decide (w = v)) as [->|N].
  - apply load_store_word; [|done]. apply H. apply elem_of_app. right. by left.
  - destruct (H w) as [Hw Ha]; [apply elem_of_app; right; by left|]. unfold stop_voice. rewrite load_store_apart.
    + apply IH; [apply elem_of_app in Hin as [?|Hin]; [done|apply list_elem_of_singleton in Hin; congruence]|]. intros x Hx. apply H. apply elem_of_app. by left.
    + apply H, Hin.
    + done.
    + specialize (Ha N). unfold apart in *. lia.
Qed.

(** The voices and the lists' heads do not overlap where the guard writes. *)
Definition separate (heads vs : list Z) : Prop :=
  (forall v, v ∈ vs -> word_at (em v) /\ word_at (dc v)) /\
  (forall v w, v ∈ vs -> w ∈ heads ++ vs -> apart (em v) (to_paddr w)) /\
  (forall v w, v ∈ vs -> w ∈ vs -> apart (em v) (dc w) /\ (v <> w -> apart (em v) (em w))).

Context (heads all : list Z) (Sep : separate heads all) (pred : Z -> bool).
(** The visit of a voice whose sample pointer satisfies [pred]. *)
Definition visit_if (voice_v : Z) (m : hostmem) : bool * hostmem :=
  if pred (load_be32 m (dc voice_v)) then (true, stop_voice L voice_v m) else (false, m).
Definition hits (m : hostmem) (vs : list Z) : list Z := filter (fun v => pred (load_be32 m (dc v)) = true) vs.
Definition agrees (m m0 : hostmem) : Prop :=
  (forall w, w ∈ heads ++ all -> load_be32 m (to_paddr w) = load_be32 m0 (to_paddr w)) /\
  (forall w, w ∈ all -> load_be32 m (dc w) = load_be32 m0 (dc w)).
Lemma stop_agrees m m0 v : v ∈ all -> agrees m m0 -> agrees (stop_voice L v m) m0.
Proof.
  destruct Sep as (Hw & Hl & Hd). intros Hv [H1 H2]. split; intros w Hin; unfold stop_voice.
  - rewrite load_store_apart; [by apply H1|apply to_paddr_word|by apply Hw|]. specialize (Hl v w Hv Hin). unfold apart in *. lia.
  - rewrite load_store_apart; [by apply H2|by apply Hw|by apply Hw|]. destruct (Hd v w Hv Hin) as [Ha _]. unfold apart in *. lia.
Qed.
Lemma walk_stops head vs : forall n node k m m0, chain m0 head node vs -> vs ⊆ all -> agrees m m0 -> (length vs <= n)%nat ->
  walk (fun m => m) visit_if n head node k m = (k + Z.of_nat (length (hits m0 vs)), stop_all (hits m0 vs) m) /\ agrees (stop_all (hits m0 vs) m) m0.
Proof.
  induction vs as [|v vs IH]; intros n node k m m0 Hc Hs Ha Hn.
  { simpl in Hc. subst. split; [|done]. unfold stop_all. simpl. rewrite Z.add_0_r. destruct n; cbn [walk]; by rewrite Z.eqb_refl. }
  destruct Hc as (-> & Hv & Hr & Hc). destruct n as [|n]; [simpl in Hn; lia|]. cbn [walk].
  rewrite (proj2 (Z.eqb_neq v head)), Hr by done. cbn [negb andb].
  assert (v ∈ all) as Hin by (apply Hs; by left). destruct Ha as [H1 H2].
  unfold visit_if at 1. rewrite (H2 v Hin). unfold hits. rewrite filter_cons. simpl in Hn.
  destruct (pred (load_be32 m0 (dc v))) eqn:E.
  - rewrite decide_True by done. pose proof (stop_agrees m m0 v Hin (conj H1 H2)) as [H3 H4].
    rewrite (H3 v) by (apply elem_of_app; by right).
    destruct (IH n _ (k + 1) (stop_voice L v m) m0 Hc) as [-> H5]; [set_solver|done|lia|]. split; [|exact H5].
    cbn [length]. f_equal. unfold hits. lia.
  - rewrite decide_False by done. rewrite (H1 v) by (apply elem_of_app; by right). apply IH; [done|set_solver|done|lia].
Qed.
End Stop.

(** A list of the synthesizer, in order, that the walk's cap covers. *)
Definition listed (L : VoiceLayout) (m : hostmem) (synth_v off : Z) (vs : list Z) : Prop :=
  if off =? kSkipList then vs = []
  else in_rdram_kseg0 (u32 (synth_v + off)) = true /\
       chain m (u32 (synth_v + off)) (load_be32 m (to_paddr (u32 (synth_v + off)))) vs /\ Z.of_nat (length vs) <= max_voice_count L.
Definition list_heads (L : VoiceLayout) (synth_v : Z) : list Z := [u32 (synth_v + alloc_list_offset L); u32 (synth_v + lame_list_offset L)].

Lemma walk_list_stops L synth_v off vs all pred m m0 : separate L (list_heads L synth_v) all -> u32 (synth_v + off) ∈ list_heads L synth_v ->
  vs ⊆ all -> listed L m0 synth_v off vs -> agrees L (list_heads L synth_v) all m m0 ->
  walk_list (fun m => m) (visit_if L pred) synth_v off (max_voice_count L) m =
    (Z.of_nat (length (hits L pred m0 vs)), stop_all L (hits L pred m0 vs) m) /\
  agrees L (list_heads L synth_v) all (stop_all L (hits L pred m0 vs) m) m0.
Proof.
  intros Hsep Hh Hs Hl Ha. unfold walk_list, listed in *. destruct (off =? kSkipList); [by subst|]. destruct Hl as (Hr & Hc & Hn).
  rewrite Hr. cbn [negb]. destruct Ha as [H1 H2]. rewrite (H1 (u32 (synth_v + off))) by (apply elem_of_app; by left).
  rewrite <- (Z.add_0_l (Z.of_nat _)). apply (walk_stops L (list_heads L synth_v) all Hsep pred); [done|done|done|lia].
Qed.

(** The samples in a range. *)
Definition in_range (start_vaddr end_vaddr dc_table : Z) : bool := (dc_table >=? start_vaddr) && (dc_table <? end_vaddr).

(** C37: When the guest frees a range of memory, the guard silences every voice on the
    synthesizer's two lists whose sample table lies in it, counts them, and writes no other
    byte. *)
Theorem freed_samples_are_silent (L : VoiceLayout) (start_vaddr end_vaddr synth_v : Z) (alloc lame : list Z) (m : hostmem) :
  start_vaddr < end_vaddr -> resolve_synth (Some L) m = synth_v -> synth_v <> 0 -> is_u32 (voice_em_motion_stopped_value L) ->
  listed L m synth_v (alloc_list_offset L) alloc -> listed L m synth_v (lame_list_offset L) lame ->
  separate L (list_heads L synth_v) (alloc ++ lame) ->
  let playing v := in_range start_vaddr end_vaddr (load_be32 m (dc_table_at L v)) in
  exists m', silence_voices_in_range (Some L) start_vaddr end_vaddr m = (Z.of_nat (length (filter (fun v => playing v = true) (alloc ++ lame))), m') /\
  (forall v, v ∈ alloc ++ lame -> load_be32 m' (em_motion_at L v) =
     if playing v then voice_em_motion_stopped_value L else load_be32 m (em_motion_at L v)) /\
  (forall p, word_at p -> (forall v, v ∈ alloc ++ lame -> playing v = true -> apart (em_motion_at L v) p) -> load_be32 m' p = load_be32 m p).
Proof.
  intros Hse Hsy H0 Hst Ha Hl Hsep playing. set (pr := in_range start_vaddr end_vaddr).
  destruct (walk_list_stops L synth_v (alloc_list_offset L) alloc (alloc ++ lame) pr m m Hsep) as [E1 A1]; [by left|set_solver|done|done|].
  destruct (walk_list_stops L synth_v (lame_list_offset L) lame (alloc ++ lame) pr (stop_all L (hits L pr m alloc) m) m Hsep) as [E2 A2]; [right; by left|set_solver|done|exact A1|].
  exists (stop_all L (hits L pr m (alloc ++ lame)) m).
  assert (forall v, v ∈ hits L pr m (alloc ++ lame) <-> playing v = true /\ v ∈ alloc ++ lame) as Hhits by (intros v; unfold hits; by rewrite list_elem_of_filter).
  destruct Hsep as (Hw & _ & Hd). split; [|split].
  - unfold silence_voices_in_range. rewrite Z.geb_leb, (proj2 (Z.leb_gt _ _)) by done. cbv zeta. rewrite Hsy, (proj2 (Z.eqb_neq _ _)) by done.
    unfold walk_both. change (stop_in_range L start_vaddr end_vaddr) with (visit_if L pr). rewrite E1, E2.
    assert (hits L pr m (alloc ++ lame) = hits L pr m alloc ++ hits L pr m lame) as Ehits by apply filter_app.
    change (filter _ (alloc ++ lame)) with (hits L pr m (alloc ++ lame)). rewrite Ehits. unfold stop_all. rewrite foldl_app, length_app, Nat2Z.inj_add. done.
  - intros v Hv. destruct (playing v) eqn:E.
    + apply stop_all_in; [done|by apply Hhits|]. intros w [_ Hin]%Hhits. split; [by apply Hw|]. by apply Hd.
    + apply stop_all_apart; [by apply Hw|]. intros w [Ew Hin]%Hhits. split; [by apply Hw|]. apply Hd; [done|done|]. intros ->. by rewrite E in Ew.
  - intros p Hp Hap. apply stop_all_apart; [done|]. intros w [Ew Hin]%Hhits. split; [by apply Hw|]. by apply Hap.
Qed.

(** * A pass of the voice ring *)

Section Pass.
Import VoiceRing.
Context (L : VoiceLayout) (m : hostmem) (now : Z).
Abbreviation stopped := (voice_em_motion_stopped_value L).

(** The voices a walk meets. *)
Fixpoint walked (n : nat) (list_head_v node_v : Z) : list Z :=
  if negb (node_v =? list_head_v) && in_rdram_kseg0 node_v then
    match n with O => [] | S n => node_v :: walked n list_head_v (load_be32 m (to_paddr node_v)) end
  else [].
Definition walked_list (synth_v off : Z) : list Z :=
  if off =? kSkipList then []
  else let head := u32 (synth_v + off) in
       if negb (in_rdram_kseg0 head) then [] else walked (Z.to_nat (max_voice_count L)) head (load_be32 m (to_paddr head)).
Definition visited (synth_v : Z) : list Z := walked_list synth_v (alloc_list_offset L) ++ walked_list synth_v (lame_list_offset L).
Definition visit_all (vs : list Z) (s : state) : state := foldl (fun s v => snd (visit_voice L m now v s)) s vs.
Lemma walk_visits n : forall head node k s, snd (walk (fun _ => m) (visit_voice L m now) n head node k s) = visit_all (walked n head node) s.
Proof.
  induction n as [|n IH]; intros head node k s; cbn [walk walked]; destruct (negb (node =? head) && in_rdram_kseg0 node); try done.
  unfold visit_all. cbn [foldl]. destruct (visit_voice L m now node s) as [hit s1] eqn:E. cbn [snd]. apply IH.
Qed.
Lemma walk_list_visits synth off s : snd (walk_list (fun _ => m) (visit_voice L m now) synth off (max_voice_count L) s) = visit_all (walked_list synth off) s.
Proof. unfold walk_list, walked_list. destruct (off =? kSkipList); [done|]. cbv zeta. destruct (negb _); [done|]. apply walk_visits. Qed.

(** The events of a pass in the ring, and those of a voice. *)
Definition record_all (pass : Z) (evs : list VoiceEvent) (r : ring stamped) : ring stamped :=
  foldl (fun r e => ring_record u64 RING_CAP (fun n => MkStamped n now pass e) r) r evs.
Definition of_voice (v : Z) (evs : list VoiceEvent) : list VoiceEvent := filter (fun e => voice_ptr e = v) evs.
Definition events_of (o : option VoiceEvent) : list VoiceEvent := match o with Some e => [e] | None => [] end.
Lemma of_voice_app v a b : of_voice v (a ++ b) = of_voice v a ++ of_voice v b.
Proof. apply filter_app. Qed.
Lemma of_voice_one v w o : (forall e, o = Some e -> voice_ptr e = w) -> of_voice v (events_of o) = if decide (v = w) then events_of o else [].
Proof.
  intros H. destruct o as [e|]; [|by destruct (decide (v = w))]. specialize (H e eq_refl). unfold of_voice, events_of. rewrite filter_cons, filter_nil, H.
  destruct (decide (v = w)) as [->|N]; [by rewrite decide_True|by rewrite decide_False by congruence].
Qed.
Lemma push_option_ring o s : push_option now o s = MkState (record_all (g_pass s) (events_of o) (g_ring s)) (g_prev s) (g_pass s).
Proof. by destruct o, s. Qed.
Lemma record_all_app pass a b r : record_all pass (a ++ b) r = record_all pass b (record_all pass a r).
Proof. apply foldl_app. Qed.

Lemma classify_ptr prev v e : classify stopped prev (read_voice L m v) = Some e -> voice_ptr e = v.
Proof. unfold classify. assert (voice_ptr (read_voice L m v) = v) as Hv by (unfold read_voice; by repeat case_match). repeat case_match; intros [= <-]; exact Hv. Qed.
Lemma vanished_ptr v p e : vanished stopped v p = Some e -> voice_ptr e = v.
Proof. unfold vanished. case_match; [done|]. by intros [= <-]. Qed.
(** Meeting a voice again in a pass changes nothing. *)
Lemma in_rdram_nonzero v : in_rdram_kseg0 v = true -> v <> 0.
Proof. by intros H ->. Qed.
Lemma classify_again pass prev e : classify stopped (Some (remember pass prev e)) e = None.
Proof.
  unfold classify, remember. cbn [fmap option_fmap option_map default from_option id last_motion last_table prev_first last_dc_table].
  destruct (Z.eqb_spec (dc_first e) 1) as [H1|H1]; cbn [negb andb]; destruct (Z.eqb_spec (em_motion e) stopped) as [H2|H2]; cbn [negb andb];
    rewrite ?andb_false_r; try done;
    (destruct (in_rdram_kseg0 (dc_table e)) eqn:Er; [|done]); apply in_rdram_nonzero in Er;
    rewrite (proj2 (Z.eqb_neq (dc_table e) 0)) by done; cbn [negb andb]; rewrite Z.eqb_refl; cbn [negb andb]; by rewrite ?andb_false_r.
Qed.
Lemma remember_again pass prev e : remember pass (Some (remember pass prev e)) e = remember pass prev e.
Proof. unfold remember. f_equal. cbn. by destruct (in_rdram_kseg0 (dc_table e) && negb (dc_table e =? 0)). Qed.

(** The pass so far: what the voices in [vs] have left, from [s0]. *)
Definition met (pass : Z) (s0 : state) (v : Z) : option VoiceEvent * option PrevState :=
  (classify stopped (g_prev s0 !! v) (read_voice L m v), Some (remember pass (g_prev s0 !! v) (read_voice L m v))).
Definition not_met (pass : Z) (s0 : state) (v : Z) : option VoiceEvent * option PrevState :=
  match g_prev s0 !! v with
  | None => (None, None)
  | Some p => (vanished stopped v p,
               if u64 (pass - last_seen_pass p) >? 600 then None else Some (MkPrev stopped (last_dc_table p) (last_table p) (prev_first p) (last_seen_pass p)))
  end.
Definition books (pass : Z) (s0 : state) (left : Z -> option VoiceEvent * option PrevState) (evs : list VoiceEvent) (s : state) : Prop :=
  g_pass s = pass /\ g_ring s = record_all pass evs (g_ring s0) /\
  forall v, of_voice v evs = events_of (fst (left v)) /\ g_prev s !! v = snd (left v).
Definition visits_left (pass : Z) (s0 : state) (vs : list Z) (v : Z) : option VoiceEvent * option PrevState :=
  if decide (v ∈ vs) then met pass s0 v else (None, g_prev s0 !! v).
Lemma visit_books pass s0 vs : g_pass s0 = pass -> exists evs, books pass s0 (visits_left pass s0 vs) evs (visit_all vs s0).
Proof.
  intros Hp. induction vs as [|w vs (evs & H1 & H2 & H3)] using rev_ind.
  { exists []. split; [done|]. split; [done|]. intros v. unfold visits_left. by rewrite decide_False by apply not_elem_of_nil. }
  unfold visit_all in *. rewrite foldl_app. cbn [foldl]. set (s := foldl _ s0 vs) in *. unfold visit_voice. cbn [snd].
  rewrite push_option_ring. cbn [g_prev g_pass set_prev g_ring].
  assert (g_prev s !! w = snd (visits_left pass s0 vs w)) as Hw by apply H3.
  exists (evs ++ events_of (classify stopped (g_prev s !! w) (read_voice L m w))). split; [done|]. rewrite H1. split; [by rewrite record_all_app, H2|].
  intros v. unfold set_prev. cbn [g_prev]. destruct (H3 v) as [H4 H5]. rewrite of_voice_app, H4, (of_voice_one v w) by (intros e; apply classify_ptr).
  unfold visits_left. destruct (decide (v = w)) as [->|N].
  - rewrite lookup_insert_eq, (decide_True (P := w ∈ vs ++ [w])) by (apply elem_of_app; right; by left). rewrite Hw. unfold visits_left.
    destruct (decide (w ∈ vs)) as [Hin|Hin]; [|done]. unfold met. cbn [snd fst]. by rewrite classify_again, remember_again, app_nil_r.
  - rewrite lookup_insert_ne, app_nil_r, H5 by done. unfold visits_left.
    destruct (decide (v ∈ vs)) as [Hin|Hin]; [by rewrite decide_True by (apply elem_of_app; by left)|].
    rewrite decide_False; [done|]. intros [?|E]%elem_of_app; [done|]. by apply list_elem_of_singleton in E.
Qed.

Lemma sweep_books pass s0 vs ks : (forall v p, g_prev s0 !! v = Some p -> last_seen_pass p <> pass) -> NoDup ks -> forall evs s,
  books pass s0 (visits_left pass s0 vs) evs s -> exists evs',
  books pass s0 (fun v => if decide (v ∈ vs) then met pass s0 v else if decide (v ∈ ks) then not_met pass s0 v else (None, g_prev s0 !! v))
    evs' (foldl (fun s v => sweep_one stopped now v s) s ks).
Proof.
  intros Hold Hnd. induction ks as [|k ks IH] using rev_ind; intros evs s Hb; [exists evs; done|].
  apply NoDup_app in Hnd as (Hnd & Hk & _). destruct (IH Hnd evs s Hb) as (evs' & H1 & H2 & H3). rewrite foldl_app. cbn [foldl].
  set (s1 := foldl _ s ks) in *. assert (k ∉ ks) as Hkn by (intros H; apply (Hk k H); by left).
  assert (forall v, v <> k -> (v ∈ ks ++ [k] <-> v ∈ ks)) as Hks by (intros v N; rewrite elem_of_app, list_elem_of_singleton; tauto).
  destruct (H3 k) as [H4 H5]. unfold sweep_one. rewrite H5.
  assert (k ∈ ks ++ [k]) as Hin by (apply elem_of_app; right; by left).
  destruct (decide (k ∈ vs)) as [Hkv|Hkv].
  - cbn [met snd fst]. unfold met. cbn [snd]. cbn [remember last_seen_pass]. rewrite H1, Z.eqb_refl. exists evs'. split; [done|]. split; [done|].
    intros v. destruct (H3 v) as [H6 H7]. rewrite H6, H7. destruct (decide (v ∈ vs)); [done|].
    assert (v <> k) as N by (by intros ->). by rewrite (decide_ext _ _ _ _ (Hks v N)).
  - rewrite decide_False by done. cbn [snd]. destruct (g_prev s0 !! k) as [p|] eqn:Ek.
    2:{ exists evs'. split; [done|]. split; [done|]. intros v. destruct (H3 v) as [H6 H7]. rewrite H6, H7. destruct (decide (v ∈ vs)); [done|].
        destruct (decide (v = k)) as [->|N]; [|by rewrite (decide_ext _ _ _ _ (Hks v N))].
        rewrite decide_False, decide_True by done. unfold not_met. by rewrite Ek. }
    rewrite H1, (proj2 (Z.eqb_neq _ _)) by (by eapply Hold). rewrite push_option_ring. cbn [g_prev g_pass set_prev g_ring].
    exists (evs' ++ events_of (vanished stopped k p)). 
    match goal with |- books _ _ _ _ (if ?b then set_prev ?x ?s2 else set_prev ?y ?s2) =>
      replace (if b then set_prev x s2 else set_prev y s2) with (set_prev (if b then x else y) s2) by (by destruct b) end.
    split; [done|]. split; [cbn [g_ring set_prev]; by rewrite record_all_app, H1, H2|]. cbn [g_prev set_prev].
    intros v. destruct (H3 v) as [H6 H7]. rewrite of_voice_app, H6, (of_voice_one v k) by (intros e; apply vanished_ptr).
    destruct (decide (v = k)) as [->|N].
    + rewrite !decide_False, decide_True by done. unfold not_met. rewrite Ek. cbn [fst snd events_of app].
      split; [done|]. rewrite H1. destruct (u64 (pass - last_seen_pass p) >? 600); [apply lookup_delete_eq|apply lookup_insert_eq].
    + rewrite app_nil_r. rewrite (decide_ext _ _ _ _ (Hks v N)). split; [done|]. rewrite <- H7. rewrite H1. destruct (u64 (pass - last_seen_pass p) >? 600); [by apply lookup_delete_ne|by apply lookup_insert_ne].
Qed.

(** A pass of the voice sampler records for each voice at most one event, an attack, a reallocation or a key-off, told from its state now and at the last pass, however often the lists hold it and in whatever order the table is swept; a voice not met is keyed off once and forgotten after 600 passes. *)
Theorem one_event_per_voice (synth_v : Z) (s : state) : let pass := u64 (g_pass s + 1) in
  (forall v p, g_prev s !! v = Some p -> last_seen_pass p <> pass) ->
  exists evs, g_ring (sample_pass L m synth_v now s) = record_all pass evs (g_ring s) /\
  forall v, of_voice v evs = events_of (fst (if decide (v ∈ visited synth_v) then met pass s v else not_met pass s v)) /\
            g_prev (sample_pass L m synth_v now s) !! v = snd (if decide (v ∈ visited synth_v) then met pass s v else not_met pass s v).
Proof.
  intros pass Hold. set (s0 := MkState (g_ring s) (g_prev s) pass).
  assert (sample_pass L m synth_v now s = sweep stopped now (visit_all (visited synth_v) s0)) as ->.
  { unfold sample_pass, visited, visit_all. cbv zeta. rewrite foldl_app.
    pose proof (walk_list_visits synth_v (alloc_list_offset L) s0) as E1. unfold s0 in E1 at 1. fold pass.
    destruct (walk_list _ _ _ _ _ _) as [k1 s1]. simpl in E1. subst s1.
    pose proof (walk_list_visits synth_v (lame_list_offset L) (visit_all (walked_list synth_v (alloc_list_offset L)) s0)) as E2.
    destruct (walk_list _ _ _ _ _ _) as [k2 s2]. simpl in E2. by subst s2. }
  destruct (visit_books pass s0 (visited synth_v) eq_refl) as (evs & Hb). set (s1 := visit_all (visited synth_v) s0) in *.
  destruct (sweep_books pass s0 (visited synth_v) (map_to_list (g_prev s1)).*1 Hold (NoDup_fst_map_to_list _) evs s1 Hb) as (evs' & _ & H2 & H3).
  exists evs'. split; [exact H2|]. intros v. destruct (H3 v) as [H4 H5]. unfold sweep. rewrite H4, H5.
  destruct (decide (v ∈ visited synth_v)) as [|Hv]; [done|]. destruct (decide (v ∈ (map_to_list (g_prev s1)).*1)) as [|Hn]; [done|].
  assert (g_prev s0 !! v = None) as E.
  { destruct Hb as (_ & _ & Hb). destruct (Hb v) as [_ H]. unfold visits_left in H. rewrite decide_False in H by done. cbn [snd] in H. rewrite <- H.
    apply eq_None_not_Some. intros [p Hp]. apply Hn. apply list_elem_of_fmap. exists (v, p). split; [done|]. by apply elem_of_map_to_list. }
  unfold not_met. change (g_prev s0 !! v) with (g_prev s !! v) in *. by rewrite E.
Qed.
End Pass.

(** * Stale predictors *)

Module AdpcmSpec.
Import AdpcmRing.

(** The decodes of a list of commands: the two words and the book loaded last. *)
Fixpoint decodes (cur_book : Z) (cmds : list (Z * Z)) : list (Z * Z * Z) :=
  match cmds with
  | [] => []
  | (w0, w1) :: cmds =>
      let op := Z.land (Z.shiftr w0 24) 0xFF in
      if op =? A_LOADADPCM_OP then decodes w1 cmds
      else if op =? A_ADPCM_OP then (w0, w1, cur_book) :: decodes cur_book cmds else decodes cur_book cmds
  end.
Definition buffer_of (d : Z * Z * Z) : Z := Z.land (fst (fst d)) 0x00FFFFFF.
(** The last book a state buffer was decoded with, 0 before the first. *)
Definition last_book (ds : list (Z * Z * Z)) (st : Z) : Z :=
  foldl (fun b d => if (buffer_of d =? st) && negb (snd d =? 0) then snd d else b) 0 ds.
(** A decode after a history: it continues with another sample's predictor. *)
Definition stale (ds : list (Z * Z * Z)) (d : Z * Z * Z) : bool :=
  let prev := last_book ds (buffer_of d) in
  negb (prev =? 0) && negb (snd d =? 0) && negb (snd d =? prev) && (Z.land (Z.land (Z.shiftr (snd (fst d)) 28) 0xF) A_INIT_FLAG =? 0).
Definition reported (ds : list (Z * Z * Z)) (d : Z * Z * Z) (e : AdpcmEvent) : Prop :=
  state e = buffer_of d /\ book e = snd d /\ prev_book e = last_book ds (buffer_of d) /\ suspect e = if stale ds d then 1 else 0.

(** The ring holds one event per decode of the history, in order. *)
Definition history (ds : list (Z * Z * Z)) (s : ring_state) : Prop :=
  (forall st, default 0 (g_last_book s !! st) = last_book ds st) /\
  exists h, g_ring s = ring_of u64 RING_CAP h /\ length h = length ds /\
  forall i d, ds !! i = Some d -> exists e, EventRing.stamped h !! i = Some e /\ reported (take i ds) d (event e).
Lemma last_book_snoc ds d st : last_book (ds ++ [d]) st = if (buffer_of d =? st) && negb (snd d =? 0) then snd d else last_book ds st.
Proof. unfold last_book. by rewrite foldl_app. Qed.
Lemma decode_reported ds w0 w1 b lb : default 0 (lb !! Z.land w0 0x00FFFFFF) = last_book ds (Z.land w0 0x00FFFFFF) ->
  reported ds (w0, w1, b) (decode w0 w1 b lb).
Proof.
  intros H. unfold reported, decode, stale, buffer_of. cbn [fst snd state book prev_book suspect]. rewrite H. split; [done|]. split; [done|]. split; [done|].
  destruct (Z.land (Z.land _ _) A_INIT_FLAG =? 0); done.
Qed.
Lemma scan_history now cmds : forall ds cur s, history ds s ->
  history (ds ++ decodes cur cmds) (snd (foldl (fun x '(w0, w1) => scan_command now w0 w1 x) (cur, s) cmds)).
Proof.
  induction cmds as [|[w0 w1] cmds IH]; intros ds cur s Hh; [by rewrite app_nil_r|]. cbn [foldl decodes]. destruct (scan_command now w0 w1 (cur, s)) as [cur1 s1] eqn:E. unfold scan_command in E. revert E.
  destruct (_ =? A_LOADADPCM_OP); [intros [= <- <-]; by apply IH|]. destruct (_ =? A_ADPCM_OP); [|intros [= <- <-]; by apply IH]. intros [= <- <-].
  rewrite (cons_middle (w0, w1, cur)), app_assoc. apply IH. destruct Hh as (Hb & h & Hr & Hlen & He).
  set (e := decode w0 w1 cur (g_last_book s)). assert (reported ds (w0, w1, cur) e) as Hrep by by apply decode_reported.
  split.
  - intros st. rewrite last_book_snoc. cbn [snd fst]. change (buffer_of (w0, w1, cur)) with (state e).
    destruct (Z.eqb_spec cur 0) as [->|N]; cbn [negb]; [rewrite andb_false_r; apply Hb|]. rewrite andb_true_r. cbn [g_last_book].
    destruct (Z.eqb_spec (state e) st) as [<-|Ne]; [by rewrite lookup_insert_eq|]. rewrite lookup_insert_ne by done. apply Hb.
  - exists (h ++ [fun n => MkStamped n now (g_frame s) e]). split; [|split].
    + rewrite ring_of_snoc. destruct (negb (cur =? 0)); cbn [g_ring push]; by rewrite Hr.
    + rewrite !length_app. simpl. lia.
    + intros i d. rewrite stamped_snoc, lookup_app, lookup_app. destruct (ds !! i) as [d'|] eqn:Ed.
      * intros [= <-]. destruct (He i d' Ed) as (e' & E1 & E2). rewrite E1. exists e'. split; [done|]. rewrite take_app_le; [done|]. apply lookup_lt_Some in Ed. lia.
      * intros Hd. apply list_lookup_singleton_Some in Hd as [Hi <-]. apply lookup_ge_None in Ed.
        rewrite (lookup_ge_None_2 (EventRing.stamped h)) by (rewrite stamped_length; lia). rewrite stamped_length.
        assert (i = length ds) as -> by lia. replace (length ds - length h)%nat with 0%nat by lia.
        eexists. split; [done|]. by rewrite take_app_length.
Qed.
End AdpcmSpec.

(** An audio frame: the commands in memory, and where they are. *)
Definition frame_decodes (f : hostmem * Z * Z) : list (Z * Z * Z) :=
  let '(m, cmd_vaddr, size) := f in
  if in_rdram_kseg0 cmd_vaddr then AdpcmSpec.decodes 0 (AdpcmRing.commands m (Z.to_nat (Z.min (size / 8) 8192)) (to_paddr cmd_vaddr)) else [].
Definition scan_frames (frames : list (hostmem * Z * Z * Z)) : AdpcmRing.ring_state :=
  foldl (fun s '(m, cmd_vaddr, size, now) => AdpcmRing.scan m cmd_vaddr size now s) (AdpcmRing.MkState ring_empty 0 ∅) frames.

(** Over any run of command lists the decode ring holds the decodes in order, each with the predictor book loaded last and the one its state buffer was last decoded with, and marks it exactly when the two differ and the decode does not restart the state. *)
Theorem stale_predictors_are_marked (frames : list (hostmem * Z * Z * Z)) :
  AdpcmSpec.history (mjoin (frame_decodes ∘ fst <$> frames)) (scan_frames frames).
Proof.
  unfold scan_frames. induction frames as [|[[[m v] size] now] frames IH] using rev_ind.
  { split; [intros st; cbn [AdpcmRing.g_last_book foldl]; by rewrite lookup_empty|]. exists []. split; [done|]. split; [done|]. intros i d H. by destruct i. }
  rewrite foldl_app, fmap_app, join_app. cbn [foldl fmap list_fmap]. set (s := foldl _ _ frames) in *. cbn [mjoin list_join compose fst]. rewrite app_nil_r.
  unfold AdpcmRing.scan, frame_decodes at 2. destruct (in_rdram_kseg0 v); cbn [negb]; [|by rewrite app_nil_r].
  replace (if size / 8 >? 8192 then 8192 else size / 8) with (Z.min (size / 8) 8192) by (destruct (Z.gtb_spec (size / 8) 8192); lia).
  apply AdpcmSpec.scan_history. exact IH.
Qed.
