(* ===== verification/SampleRom.v ===== *)
(** Versions and game images at concrete inputs.  The audio guard at a concrete
    synthesizer: two voices in one list, one in the other, two of the three on
    samples that are about to be freed. *)

From Stdlib Require Import ZArith Lia Bool List Ascii String.
From stdpp Require Import base list gmap strings.
From S2P Require Import Prelude Bytes GuestMem EventRing ModManager Rom RomSpec AudioGuard AudioGuardSpec.
Open Scope Z_scope.
Open Scope list_scope.

Example versions_read :
  (from_string "1.20.3-beta", from_string "01.2.3", from_string "1.2", from_string "1.2.3x", from_string "70000.0.0") =
  (Some (MkVersion 1 20 3 "-beta"), Some (MkVersion 1 2 3 ""), None, None, None).
Proof. vm_compute. reflexivity. Qed.
(** A version that was never set does not survive its text. *)
Example default_version_is_lost : (to_string (MkVersion (-1) (-1) (-1) ""), from_string "-1.-1.-1") = ("-1.-1.-1"%string, None).
Proof. vm_compute. reflexivity. Qed.

(** A checksum in place of the hash, and a game of twelve words. *)
Definition sum (l : list Z) : Z := foldl Z.add 0 l.
Definition sample_rom : list Z := [0x80; 0x37; 0x12; 0x40] ++ replicate 28 7 ++ [78; 65; 77; 69] ++ replicate 12 9.
Definition sample_game : GameEntry := MkGame (sum sample_rom) [78; 65; 77; 69] "game" true.
Definition sample_library : library := register_game sample_game (MkLibrary ∅ ∅).
Definition halfwords_swapped : list Z := [0x37; 0x80; 0x40; 0x12] ++ replicate 28 7 ++ [65; 78; 69; 77] ++ replicate 12 9.
Lemma halfwords_dumped : dumped_as 1 sample_rom halfwords_swapped.
Proof.
  split; [reflexivity|]. intros i Hi. change (length sample_rom) with 48%nat in Hi.
  assert (forallb (fun i => bool_decide (halfwords_swapped !! Nat.lxor i 1 = sample_rom !! i)) (seq 0 48) = true) as H by (vm_compute; reflexivity).
  rewrite forallb_forall in H. specialize (H i). rewrite in_seq, bool_decide_eq_true in H. apply H. lia.
Qed.

Definition dumped : files := {["dump.v64"%string := halfwords_swapped]}.
Lemma any_byte_order_is_loaded_witness :
  exists fs', select_rom sum "config" (Written (length sample_rom)) "dump.v64" "game" sample_library dumped = Some (Good, fs') /\
  (forall p, p <> stored_path "config" sample_game -> fs' !! p = dumped !! p) /\
  check_stored_rom sum "config" sample_game fs' = (true, fs') /\ load_stored_rom sum "config" "game" sample_library fs' = (Some sample_rom, fs').
Proof.
  apply (any_byte_order_is_loaded sum "config" sample_library dumped "game" "dump.v64" sample_game sample_rom halfwords_swapped 1);
    [vm_compute; reflexivity|vm_compute; reflexivity|reflexivity|vm_compute; reflexivity|vm_compute; reflexivity|right; left; reflexivity|exact halfwords_dumped|apply lookup_singleton_eq].
Defined.

(** Four bytes are enough to reach the header's name. *)
Definition four_bytes : files := {["tiny"%string := [0x80; 0x37; 0x12; 0x40]]}.
Lemma select_rom_outcomes_witness :
  (select_rom sum "config" Not_opened "tiny" "game" sample_library four_bytes = None <->
   exists g d, candidate sample_library four_bytes "game" "tiny" g d /\
     check_hash sum d (rom_hash g) = false /\ (length d < 0x20 + length (internal_name g))%nat) /\
  forall e fs', select_rom sum "config" Not_opened "tiny" "game" sample_library four_bytes = Some (e, fs') ->
  e <> NotYet /\ (e <> Good -> fs' = four_bytes) /\
  (e = Good -> exists g d, candidate sample_library four_bytes "game" "tiny" g d /\ check_rom_start d = NotByteswapped /\
     check_hash sum d (rom_hash g) = true /\ fs' = snd (write_file Not_opened (stored_path "config" g) d four_bytes)).
Proof. apply (select_rom_outcomes sum "config" Not_opened sample_library four_bytes "game" "tiny"). vm_compute. reflexivity. Defined.
Example tiny_dump_reads_past_its_end : select_rom sum "config" Not_opened "tiny" "game" sample_library four_bytes = None.
Proof. vm_compute. reflexivity. Qed.
(** A failed write is reported as success. *)
Example failed_write_is_good :
  select_rom sum "config" Not_opened "rom" "game" sample_library {["rom"%string := sample_rom]} = Some (Good, {["rom"%string := sample_rom]}).
Proof. vm_compute. reflexivity. Qed.

Definition naudio : VoiceLayout := MkLayout 0x80000100 0xC 0x14 0x20 0x10 0 24 0 0 0 0x38.
Definition words (l : list (Z * Z)) (m : hostmem) : hostmem := foldl (fun m '(v, w) => store_be32 (to_paddr v) w m) m l.
Definition synth_memory : hostmem :=
  words [(0x80000100, 0x80000200);
         (0x8000020C, 0x80001000); (0x80001000, 0x80001100); (0x80001100, 0x8000020C);
         (0x80000214, 0x80001200); (0x80001200, 0x80000214);
         (0x80001010, 0x80100010); (0x80001110, 0x80200000); (0x80001210, 0x80100800);
         (0x80001020, 1); (0x80001120, 1); (0x80001220, 1); (0x80001038, 1)] ∅.
Definition freed (v : Z) : bool := in_range 0x80100000 0x80101000 (load_be32 synth_memory (dc_table_at naudio v)).

Ltac each_voice := intros; cbn [app] in *; repeat match goal with
  | H : _ ∈ _ :: _ |- _ => apply elem_of_cons in H as [?|H]
  | H : _ ∈ [] |- _ => by apply elem_of_nil in H
  end; subst.
Ltac no_gt := intros H; discriminate H.
Ltac computed := vm_compute; repeat apply conj; first [no_gt | left; no_gt | right; no_gt | intros N; first [destruct N; reflexivity | left; no_gt | right; no_gt]].
Lemma synth_separate : separate naudio (list_heads naudio 0x80000200) [0x80001000; 0x80001100; 0x80001200].
Proof.
  unfold list_heads. change (u32 (0x80000200 + alloc_list_offset naudio)) with 0x8000020C. change (u32 (0x80000200 + lame_list_offset naudio)) with 0x80000214.
  cbn [app]. unfold apart. split; [|split]; intros v.
  - each_voice; computed.
  - intros w. each_voice; computed.
  - intros w. each_voice; computed.
Qed.
Lemma freed_samples_are_silent_witness :
  exists m', silence_voices_in_range (Some naudio) 0x80100000 0x80101000 synth_memory =
    (Z.of_nat (length (filter (fun v => freed v = true) ([0x80001000; 0x80001100] ++ [0x80001200]))), m') /\
  (forall v, v ∈ [0x80001000; 0x80001100] ++ [0x80001200] -> load_be32 m' (em_motion_at naudio v) =
     if freed v then voice_em_motion_stopped_value naudio else load_be32 synth_memory (em_motion_at naudio v)) /\
  (forall p, word_at p -> (forall v, v ∈ [0x80001000; 0x80001100] ++ [0x80001200] -> freed v = true -> apart (em_motion_at naudio v) p) ->
     load_be32 m' p = load_be32 synth_memory p).
Proof.
  apply (freed_samples_are_silent naudio 0x80100000 0x80101000 0x80000200 [0x80001000; 0x80001100] [0x80001200] synth_memory);
    [lia|vm_compute; reflexivity|lia|unfold is_u32; simpl; lia| | |exact synth_separate].
  - split; [vm_compute; reflexivity|]. split; [|simpl; lia]. vm_compute. repeat split; done.
  - split; [vm_compute; reflexivity|]. split; [|simpl; lia]. vm_compute. repeat split; done.
Defined.
Example two_voices_stopped :
  let '(n, m) := silence_voices_in_range (Some naudio) 0x80100000 0x80101000 synth_memory in
  (n, map (fun v => load_be32 m (em_motion_at naudio v)) [0x80001000; 0x80001100; 0x80001200]) = (2, [0; 1; 0]).
Proof. vm_compute. reflexivity. Qed.

(** The first pass meets three voices; the first is attacked. *)
Definition no_voices : VoiceRing.state := VoiceRing.MkState ring_empty ∅ 0.
Lemma one_event_per_voice_witness :
  exists evs, VoiceRing.g_ring (VoiceRing.sample_pass naudio synth_memory 0x80000200 7 no_voices) = record_all 7 1 evs ring_empty /\
  forall v, of_voice v evs = events_of (fst (if decide (v ∈ visited naudio synth_memory 0x80000200) then met naudio synth_memory 1 no_voices v else not_met naudio 1 no_voices v)) /\
            VoiceRing.g_prev (VoiceRing.sample_pass naudio synth_memory 0x80000200 7 no_voices) !! v =
            snd (if decide (v ∈ visited naudio synth_memory 0x80000200) then met naudio synth_memory 1 no_voices v else not_met naudio 1 no_voices v).
Proof. apply (one_event_per_voice naudio synth_memory 7 0x80000200 no_voices). intros v p H. discriminate H. Defined.
Example one_attack :
  map (option_map (fun e => (VoiceRing.voice_ptr (VoiceRing.event e), VoiceRing.kind (VoiceRing.event e))))
    (VoiceRing.recent 8 (VoiceRing.sample_pass naudio synth_memory 0x80000200 7 no_voices)) = [Some (0x80001000, VoiceRing.ATTACK)].
Proof. vm_compute. reflexivity. Qed.

(** Two frames: a decode with one book, then a decode of the same buffer that
    continues with another. *)
Definition command_memory (book flags : Z) : hostmem :=
  words [(0x80002000, 0x0B000020); (0x80002004, book); (0x80002008, 0x01003000); (0x8000200C, flags)] ∅.
Example second_decode_is_suspect :
  map (option_map (fun e => AdpcmRing.suspect (AdpcmRing.event e)))
    (AdpcmRing.recent 8 (scan_frames [(command_memory 0x5000 0x10000000, 0x80002000, 16, 1); (command_memory 0x6000 0, 0x80002000, 16, 2)])) =
  [Some 0; Some 1].
Proof. vm_compute. reflexivity. Qed.
