(* ===== verification/ModHooks.v ===== *)
(** Mod hooks and events: mod_hooks.cpp and mod_events.cpp.  A hook slot holds
    the functions that mods attach to a function of the game, an event slot
    those that listen to an event.  The functions are run by a parameter that
    may do anything to the rest of the world, run hooks again included. *)

From Stdlib Require Import ZArith Lia Bool List Sorted.
From stdpp Require Import base list option.
From S2P Require Import Prelude Floats Mips ModManager.
Open Scope Z_scope.

(** * The guest context *)

(** The registers in which a function returns; the others as one. *)
Record recomp_context (O : Type) := Ctx { r2 : Z; r3 : Z; f0_fl : Z; f1_fl : Z; others : O }.
Arguments Ctx {O}.
Arguments r2 {O}.
Arguments r3 {O}.
Arguments f0_fl {O}.
Arguments f1_fl {O}.
Arguments others {O}.

(** * The slots *)

Record RegisteredHook (F : Type) := Hook { mod_index : nat; func : F }.
Arguments Hook {F}.
Arguments mod_index {F}.
Arguments func {F}.
Record HookSlot (F : Type) := Slot { hooks : list (RegisteredHook F); is_return_hook : bool }.
Arguments Slot {F}.
Arguments hooks {F}.
Arguments is_return_hook {F}.

(** An index out of a vector's range is undefined. *)
Definition at_index {A} (f : A -> A) (i : nat) (l : list A) : option (list A) := a ← l !! i; Some (<[i := f a]> l).
(** [std::vector::resize]. *)
Definition resize {A} (n : nat) (a : A) (l : list A) : list A := take n l ++ replicate (n - length l) a.
(** The comparison of optional positions: none is below all. *)
Definition opt_ltb (a b : option nat) : bool :=
  match a, b with _, None => false | None, Some _ => true | Some x, Some y => (x <? y)%nat end.

Section Slots.
Context {F : Type}.
(** [std::sort], which may put equivalent elements in any order. *)
Context (std_sort : (RegisteredHook F -> RegisteredHook F -> bool) -> list (RegisteredHook F) -> list (RegisteredHook F)).
Implicit Types (slots : list (HookSlot F)) (events : list (list (RegisteredHook F))).

Definition setup_hooks (num_hook_slots : nat) slots : list (HookSlot F) := resize num_hook_slots (Slot [] false) slots.
Definition set_hook_type (hook_slot_index : nat) (is_return : bool) : list (HookSlot F) -> option (list (HookSlot F)) :=
  at_index (fun s => Slot (hooks s) is_return) hook_slot_index.
Definition register_hook (hook_slot_index mod_index : nat) (callback : F) : list (HookSlot F) -> option (list (HookSlot F)) :=
  at_index (fun s => Slot (hooks s ++ [Hook mod_index callback]) (is_return_hook s)) hook_slot_index.
Definition fires_before (context : ModContext) (reverse : bool) (a b : RegisteredHook F) : bool :=
  let oa := get_mod_order_index (mod_index a) context in
  let ob := get_mod_order_index (mod_index b) context in
  if reverse then opt_ltb ob oa else opt_ltb oa ob.
Definition finish_hook_setup (context : ModContext) slots : list (HookSlot F) :=
  (fun slot => Slot (std_sort (fires_before context (is_return_hook slot)) (hooks slot)) (is_return_hook slot)) <$> slots.
Definition reset_hooks : list (HookSlot F) := [].

Definition setup_events (num_events : nat) events : list (list (RegisteredHook F)) := resize num_events [] events.
Definition register_event_callback (event_index mod_index : nat) (callback : F) :
    list (list (RegisteredHook F)) -> option (list (list (RegisteredHook F))) :=
  at_index (fun l => l ++ [Hook mod_index callback]) event_index.
Definition finish_event_setup (context : ModContext) events : list (list (RegisteredHook F)) :=
  std_sort (fires_before context false) <$> events.
Definition reset_events : list (list (RegisteredHook F)) := [].
End Slots.

(** * Running *)

Section Run.
Context {F W O : Type}.
Implicit Types (ctx : recomp_context O).

(** The world, with the stack of contexts of the hooks in flight, the most
    recent first. *)
Definition hook_state : Type := W * list (recomp_context O).
(** What a guest function does; nothing comes back when the program exits. *)
Definition guest_function : Type := hook_state -> recomp_context O -> option (hook_state * recomp_context O).
Context (call : F -> guest_function).

Definition dispatch_hook (f : F) : guest_function := call f.
Fixpoint run_each (l : list (RegisteredHook F)) : guest_function := fun st ctx =>
  match l with
  | [] => Some (st, ctx)
  | h :: l =>
      '(st, _) ← dispatch_hook (func h) st ctx;
      (* back(): the stack has an element, the saved context. *)
      saved ← head (snd st);
      run_each l st saved
  end.
Definition run_hook (slots : list (HookSlot F)) (hook_slot_index : nat) : guest_function := fun st ctx =>
  match slots !! hook_slot_index with
  | None => None
  | Some slot =>
      '(st, ctx) ← run_each (hooks slot) (fst st, ctx :: snd st) ctx;
      Some ((fst st, tail (snd st)), ctx)
  end.

Definition invoke_listener (f : F) : guest_function := call f.
Fixpoint invoke_each (fired_context : recomp_context O) (l : list (RegisteredHook F)) : guest_function := fun st ctx =>
  match l with
  | [] => Some (st, ctx)
  | h :: l => '(st, _) ← invoke_listener (func h) st ctx; invoke_each fired_context l st fired_context
  end.
Definition recomp_trigger_event (events : list (list (RegisteredHook F))) (event_index : nat) : guest_function := fun st ctx =>
  match events !! event_index with
  | None => None
  | Some listeners => invoke_each ctx listeners st ctx
  end.
End Run.

(** * The value a hooked function returns *)

Section Returns.
Context {W O : Type}.
Abbreviation accessor := (@guest_function W O).

Definition set_r2 (v : Z) (c : recomp_context O) : recomp_context O := Ctx v (r3 c) (f0_fl c) (f1_fl c) (others c).
Definition set_r3 (v : Z) (c : recomp_context O) : recomp_context O := Ctx (r2 c) v (f0_fl c) (f1_fl c) (others c).
Definition set_f0 (v : Z) (c : recomp_context O) : recomp_context O := Ctx (r2 c) (r3 c) v (f1_fl c) (others c).
Definition set_f1 (v : Z) (c : recomp_context O) : recomp_context O := Ctx (r2 c) (r3 c) (f0_fl c) v (others c).
(** [(gpr)(T)v] for each of the types. *)
Definition HOOK_RETURN_R2 (cast : Z -> Z) : accessor := fun st ctx =>
  saved ← head (snd st); Some (st, set_r2 (u64 (cast (r2 saved))) ctx).
Definition recomphook_get_return_s32 : accessor := HOOK_RETURN_R2 s32.
Definition recomphook_get_return_u32 : accessor := HOOK_RETURN_R2 s32.
Definition recomphook_get_return_ptr : accessor := HOOK_RETURN_R2 s32.
Definition recomphook_get_return_s16 : accessor := HOOK_RETURN_R2 s16.
Definition recomphook_get_return_u16 : accessor := HOOK_RETURN_R2 u16.
Definition recomphook_get_return_s8 : accessor := HOOK_RETURN_R2 s8.
Definition recomphook_get_return_u8 : accessor := HOOK_RETURN_R2 u8.
Definition recomphook_get_return_s64 : accessor := fun st ctx =>
  saved ← head (snd st); Some (st, set_r3 (sx32 (r3 saved)) (set_r2 (sx32 (r2 saved)) ctx)).
Definition recomphook_get_return_u64 : accessor := recomphook_get_return_s64.
Definition recomphook_get_return_float : accessor := fun st ctx =>
  saved ← head (snd st); Some (st, set_f0 (f0_fl saved) ctx).
(** [(gpr)(uint8_t)f] as a float: undefined if the value does not fit. *)
Definition through_u8 (bits : Z) : option Z :=
  v ← in_range 0 255 (Z_of_float Truncate (decode binary32 bits)); Some (float_of_Z binary32 (fun _ => 0) v).
Definition recomphook_get_return_double : accessor := fun st ctx =>
  saved ← head (snd st);
  a ← through_u8 (f0_fl saved); b ← through_u8 (f1_fl saved);
  Some (st, set_f1 b (set_f0 a ctx)).
End Returns.
