(* ===== verification/ModHooksSpec.v ===== *)
(** Mod hooks and events: a hook cannot change what the game sees, whatever
    other hooks run inside it, and the mods fire in the order of loading. *)

From Stdlib Require Import ZArith Lia Bool List Sorted.
From stdpp Require Import base list option sorting.
From S2P Require Import Prelude Mips ModManager ModOrder ModHooks.
Open Scope Z_scope.

(** * The stack of contexts *)

Section Transparent.
Context {F W O : Type} (call : F -> @guest_function W O) (slots : list (HookSlot F)) (events : list (list (RegisteredHook F))).

(** One piece of code after another, chosen by what the first leaves. *)
Definition seq (f : @guest_function W O) (g : W -> recomp_context O -> @guest_function W O) : @guest_function W O :=
  fun st ctx => '(st, ctx) ← f st ctx; g (fst st) ctx st ctx.
Definition work (f : W -> recomp_context O -> option (W * recomp_context O)) : @guest_function W O :=
  fun st ctx => '(w, ctx) ← f (fst st) ctx; Some ((w, snd st), ctx).

(** The stack is out of the reach of guest code: it can do anything to the rest
    of the world, choose what to do next by what it finds, ask for the value
    of the hooked function, and call hooked functions and events itself. *)
Inductive guest_code : @guest_function W O -> Prop :=
| Work (f : W -> recomp_context O -> option (W * recomp_context O)) :
    guest_code (work f)
| Asks_r2 cast : guest_code (HOOK_RETURN_R2 cast)
| Asks_s64 : guest_code recomphook_get_return_s64
| Asks_float : guest_code recomphook_get_return_float
| Asks_double : guest_code recomphook_get_return_double
| Then f (g : W -> recomp_context O -> @guest_function W O) : guest_code f -> (forall w ctx, guest_code (g w ctx)) ->
    guest_code (seq f g)
| Hooked i : (forall slot h, slots !! i = Some slot -> h ∈ hooks slot -> guest_code (call (func h))) ->
    guest_code (run_hook call slots i)
| Fires i : (forall l h, events !! i = Some l -> h ∈ l -> guest_code (call (func h))) ->
    guest_code (recomp_trigger_event call events i)
| Same f g : guest_code f -> (forall st ctx, g st ctx = f st ctx) -> guest_code g.

Definition neutral (f : @guest_function W O) : Prop :=
  forall st ctx st' ctx', f st ctx = Some (st', ctx') -> snd st' = snd st.

(** What the functions of a list do to the world, one after the other, each
    called with the context [ctx] over the stack [stk]. *)
Fixpoint effects (stk : list (recomp_context O)) (ctx : recomp_context O) (l : list (RegisteredHook F)) (w : W) : option W :=
  match l with
  | [] => Some w
  | h :: l => '(st, _) ← call (func h) (w, stk) ctx; effects stk ctx l (fst st)
  end.

Lemma run_each_effects l ctx stk : (forall h, h ∈ l -> neutral (call (func h))) -> forall w,
  run_each call l (w, ctx :: stk) ctx = (w' ← effects (ctx :: stk) ctx l w; Some ((w', ctx :: stk), ctx)).
Proof.
  induction l as [|h l IH]; intros Hn w; [done|]. cbn [run_each effects]. unfold dispatch_hook.
  destruct (call (func h) (w, ctx :: stk) ctx) as [[[w1 s1] c1]|] eqn:E; [|done].
  pose proof (Hn h ltac:(constructor) _ _ _ _ E) as Hs. cbn in Hs. subst s1. cbn [mbind option_bind head snd fst].
  apply IH. intros h' Hh. apply Hn. by constructor.
Qed.
Lemma invoke_each_effects l ctx stk : (forall h, h ∈ l -> neutral (call (func h))) -> forall w,
  invoke_each call ctx l (w, stk) ctx = (w' ← effects stk ctx l w; Some ((w', stk), ctx)).
Proof.
  induction l as [|h l IH]; intros Hn w; [done|]. cbn [invoke_each effects]. unfold invoke_listener.
  destruct (call (func h) (w, stk) ctx) as [[[w1 s1] c1]|] eqn:E; [|done].
  pose proof (Hn h ltac:(constructor) _ _ _ _ E) as Hs. cbn in Hs. subst s1. cbn [mbind option_bind fst].
  apply IH. intros h' Hh. apply Hn. by constructor.
Qed.
Lemma run_hook_effects i slot w stk ctx : slots !! i = Some slot -> (forall h, h ∈ hooks slot -> neutral (call (func h))) ->
  run_hook call slots i (w, stk) ctx = (w' ← effects (ctx :: stk) ctx (hooks slot) w; Some ((w', stk), ctx)).
Proof.
  intros E Hn. unfold run_hook. rewrite E. cbn [fst snd]. rewrite run_each_effects by done.
  by destruct (effects _ _ _ _).
Qed.
Lemma trigger_effects i l w stk ctx : events !! i = Some l -> (forall h, h ∈ l -> neutral (call (func h))) ->
  recomp_trigger_event call events i (w, stk) ctx = (w' ← effects stk ctx l w; Some ((w', stk), ctx)).
Proof. intros E Hn. unfold recomp_trigger_event. rewrite E. by apply invoke_each_effects. Qed.

Lemma accessor_neutral (f : @guest_function W O) (g : recomp_context O -> recomp_context O -> option (recomp_context O)) :
  (forall st ctx, f st ctx = (saved ← head (snd st); c ← g saved ctx; Some (st, c))) -> neutral f.
Proof.
  intros E st ctx st' ctx' H. rewrite E in H. destruct (head (snd st)) as [s|]; [|done].
  simpl in H. destruct (g s ctx); simpl in H; congruence.
Qed.
Lemma guest_code_neutral f : guest_code f -> neutral f.
Proof.
  induction 1 as [f|cast| | | |f g Hf IHf Hg IHg|i Hs IH|i Hs IH|f g Hf IH E].
  - intros [w s] ctx st' ctx' H. unfold work in H. cbn [fst snd] in *. destruct (f w ctx) as [[]|]; simpl in H; [|done]. by injection H as <- <-.
  - by apply (accessor_neutral _ (fun s c => Some (set_r2 (u64 (cast (r2 s))) c))).
  - by apply (accessor_neutral _ (fun s c => Some (set_r3 (sx32 (r3 s)) (set_r2 (sx32 (r2 s)) c)))).
  - by apply (accessor_neutral _ (fun s c => Some (set_f0 (f0_fl s) c))).
  - apply (accessor_neutral _ (fun s c => a ← through_u8 (f0_fl s); b ← through_u8 (f1_fl s); Some (set_f1 b (set_f0 a c)))).
    intros st ctx. unfold recomphook_get_return_double. destruct (head (snd st)) as [s|]; [|done]. simpl.
    destruct (through_u8 (f0_fl s)); [|done]. simpl. by destruct (through_u8 (f1_fl s)).
  - intros st ctx st' ctx' H. unfold seq in H. destruct (f st ctx) as [[st1 c1]|] eqn:E; [|done]. simpl in H.
    apply IHg in H. apply IHf in E. congruence.
  - intros [w s] ctx st' ctx' H. destruct (slots !! i) as [slot|] eqn:E; [|by unfold run_hook in H; rewrite E in H].
    rewrite (run_hook_effects i slot) in H by (try done; intros h Hh; by apply (IH slot h)).
    destruct (effects _ _ _ _); simpl in H; [|done]. by injection H as <- <-.
  - intros [w s] ctx st' ctx' H. destruct (events !! i) as [l|] eqn:E; [|by unfold recomp_trigger_event in H; rewrite E in H].
    rewrite (trigger_effects i l) in H by (try done; intros h Hh; by apply (IH l h)).
    destruct (effects _ _ _ _); simpl in H; [|done]. by injection H as <- <-.
  - intros st ctx st' ctx'. rewrite E. apply IH.
Qed.

(** The register [x] holds the low [bits] bits of [v], extended with the sign or
    with zeros. *)
Definition narrowed (signed : bool) (bits v x : Z) : Prop :=
  0 <= x < 2 ^ 64 /\ x mod 2 ^ bits = v mod 2 ^ bits /\
  if signed then x < 2 ^ (bits - 1) \/ 2 ^ 64 - 2 ^ (bits - 1) <= x else x < 2 ^ bits.
Ltac narrow := unfold narrowed, u64; cbn -[Z.modulo Z.lt Z.le]; cbv beta delta [s8 s16 s32 u8 u16] zeta; repeat case_match; Z.to_euclidean_division_equations; lia.
Lemma narrowed_s32 v : narrowed true 32 v (u64 (s32 v)).
Proof. narrow. Qed.
Lemma narrowed_s16 v : narrowed true 16 v (u64 (s16 v)).
Proof. narrow. Qed.
Lemma narrowed_u16 v : narrowed false 16 v (u64 (u16 v)).
Proof. narrow. Qed.
Lemma narrowed_s8 v : narrowed true 8 v (u64 (s8 v)).
Proof. narrow. Qed.
Lemma narrowed_u8 v : narrowed false 8 v (u64 (u8 v)).
Proof. narrow. Qed.
(** What the getters of a 32-, 16- or 8-bit result are to answer. *)
Definition getters : list (@guest_function W O * (bool * Z)) :=
  [(recomphook_get_return_s32, (true, 32)); (recomphook_get_return_u32, (true, 32)); (recomphook_get_return_ptr, (true, 32));
   (recomphook_get_return_s16, (true, 16)); (recomphook_get_return_u16, (false, 16));
   (recomphook_get_return_s8, (true, 8)); (recomphook_get_return_u8, (false, 8))].
Lemma getters_answer g signed bits w saved stk c : (g, (signed, bits)) ∈ getters ->
  exists x, g (w, saved :: stk) c = Some ((w, saved :: stk), set_r2 x c) /\ narrowed signed bits (r2 saved) x.
Proof.
  unfold getters. rewrite !elem_of_cons, elem_of_nil.
  intros [[= -> -> ->]|[[= -> -> ->]|[[= -> -> ->]|[[= -> -> ->]|[[= -> -> ->]|[[= -> -> ->]|[[= -> -> ->]|[]]]]]]]];
    (eexists; split; [reflexivity|]); [apply narrowed_s32..|apply narrowed_s16|apply narrowed_u16|apply narrowed_s8|apply narrowed_u8].
Qed.

(** C33: Running the hooks of a function gives the hooked function its registers back as
    they were, whatever the hooks leave in them, and runs them in order; while a return hook
    runs, the integer getters answer with the returned value's low bits, extended as their
    type says (the unsigned and pointer ones of 32 bits with the sign), the 64-bit ones with
    both words and the float one with the value. The double one answers with what is left of
    each half after a conversion to an 8-bit integer, where that is defined. *)
Theorem hooks_are_transparent i slot w stk ctx :
  slots !! i = Some slot -> (forall h, h ∈ hooks slot -> guest_code (call (func h))) ->
  run_hook call slots i (w, stk) ctx = (w' ← effects (ctx :: stk) ctx (hooks slot) w; Some ((w', stk), ctx)) /\
  (forall f w1 st2 c1 c2, guest_code f -> f (w1, ctx :: stk) c1 = Some (st2, c2) ->
     (forall g signed bits, (g, (signed, bits)) ∈ getters -> exists x, g st2 c2 = Some (st2, set_r2 x c2) /\ narrowed signed bits (r2 ctx) x) /\
     (forall g, g ∈ [recomphook_get_return_s64; recomphook_get_return_u64] -> exists x y,
        g st2 c2 = Some (st2, set_r3 y (set_r2 x c2)) /\ narrowed true 32 (r2 ctx) x /\ narrowed true 32 (r3 ctx) y) /\
     recomphook_get_return_float st2 c2 = Some (st2, set_f0 (f0_fl ctx) c2) /\
     recomphook_get_return_double st2 c2 = (a ← through_u8 (f0_fl ctx); b ← through_u8 (f1_fl ctx); Some (st2, set_f1 b (set_f0 a c2)))).
Proof.
  intros E Hg. split.
  - apply run_hook_effects; [done|]. intros h Hh. by apply guest_code_neutral, Hg.
  - intros f w1 [w2 s2] c1 c2 Hf H. apply guest_code_neutral in Hf. pose proof (Hf _ _ _ _ H) as Hs. cbn in Hs. subst s2.
    split; [intros g signed bits; apply getters_answer|]. split; [|by split].
    intros g [->| ->%list_elem_of_singleton]%elem_of_cons; (eexists _, _; split; [reflexivity|]); split; apply narrowed_s32.
Qed.
End Transparent.

(** * The order *)

(** What [std::sort] asks of a comparison. *)
Record strict_weak {A} (lt : A -> A -> bool) : Prop := {
  sw_irrefl : forall a, lt a a = false;
  sw_trans : forall a b c, lt a b = true -> lt b c = true -> lt a c = true;
  sw_incomp : forall a b c, lt a b = false -> lt b c = false -> lt a c = false }.
Lemma fires_before_strict_weak {F} c r : strict_weak (@fires_before F c r).
Proof.
  assert (strict_weak opt_ltb) as [H1 H2 H3].
  { split; [intros [a|]|intros [a|] [b|] [d|]|intros [a|] [b|] [d|]]; simpl; try done;
      rewrite ?Nat.ltb_lt, ?Nat.ltb_ge; lia. }
  unfold fires_before. destruct r; split; intros *; eauto.
Qed.

Section Order.
Context {F : Type} (std_sort : (RegisteredHook F -> RegisteredHook F -> bool) -> list (RegisteredHook F) -> list (RegisteredHook F)).
(** What [std::sort] promises. *)
Definition sorts : Prop := forall lt l, strict_weak lt ->
  std_sort lt l ≡ₚ l /\ StronglySorted (fun a b => lt b a = false) (std_sort lt l).

(** What mods do to the slots while they are set up. *)
Inductive hook_op := Type_of (i : nat) (is_return : bool) | Registers (i mod_index : nat) (f : F).
Definition apply_op (slots : list (HookSlot F)) (o : hook_op) : option (list (HookSlot F)) :=
  match o with Type_of i b => set_hook_type i b slots | Registers i m f => register_hook i m f slots end.
Fixpoint apply_ops (l : list hook_op) (slots : list (HookSlot F)) : option (list (HookSlot F)) :=
  match l with [] => Some slots | o :: l => slots ← apply_op slots o; apply_ops l slots end.
(** The hooks of a slot, and its kind, by the operations done. *)
Definition hooks_for (i : nat) (l : list hook_op) : list (RegisteredHook F) :=
  omap (fun o => match o with Registers j m f => if decide (j = i) then Some (Hook m f) else None | Type_of _ _ => None end) l.
Definition kind_of (i : nat) (d : bool) (l : list hook_op) : bool :=
  foldl (fun d o => match o with Type_of j b => if decide (j = i) then b else d | Registers _ _ _ => d end) d l.

Lemma apply_op_lookup o slots slots' i slot : apply_op slots o = Some slots' -> slots !! i = Some slot ->
  slots' !! i = Some (Slot (hooks slot ++ hooks_for i [o]) (kind_of i (is_return_hook slot) [o])).
Proof.
  destruct o as [j b|j m f]; cbn [apply_op]; unfold set_hook_type, register_hook, at_index; intros H E;
    (destruct (slots !! j) as [s|] eqn:Ej; [|done]); cbn [mbind option_bind] in H; injection H as <-;
    cbn [hooks_for kind_of omap foldl]; unfold hooks_for; cbn [omap list_omap];
    (destruct (decide (j = i)) as [->|Hne];
      [rewrite list_lookup_insert_eq by (by eapply lookup_lt_Some); assert (s = slot) by congruence; subst s
      |rewrite list_lookup_insert_ne by done; rewrite E]);
    rewrite ?app_nil_r; by destruct slot.
Qed.
Lemma apply_ops_lookup l : forall slots slots' i slot, apply_ops l slots = Some slots' -> slots !! i = Some slot ->
  slots' !! i = Some (Slot (hooks slot ++ hooks_for i l) (kind_of i (is_return_hook slot) l)).
Proof.
  induction l as [|o l IH]; intros slots slots' i slot H E; cbn [apply_ops] in H.
  - injection H as <-. rewrite E. cbn. unfold hooks_for. simpl. rewrite app_nil_r. by destruct slot.
  - destruct (apply_op slots o) as [s1|] eqn:E1; [|done]. cbn [mbind option_bind] in H.
    pose proof (apply_op_lookup _ _ _ _ _ E1 E) as E2. rewrite (IH _ _ _ _ H E2). cbn [hooks is_return_hook].
    rewrite <- app_assoc. unfold hooks_for, kind_of. rewrite <- omap_app, <- foldl_app. done.
Qed.
Lemma setup_hooks_lookup n i : (i < n)%nat -> setup_hooks n (reset_hooks (F := F)) !! i = Some (Slot [] false).
Proof. intros H. unfold setup_hooks, reset_hooks, resize. rewrite take_nil. simpl. rewrite Nat.sub_0_r. by apply lookup_replicate_2. Qed.

Lemma sorted_fires c r l p q a b : sorts -> lookup_ok c -> order_ok c -> (forall h, h ∈ l -> (mod_index h < length (opened_mods c))%nat) ->
  (p < q)%nat -> std_sort (fires_before c r) l !! p = Some a -> std_sort (fires_before c r) l !! q = Some b ->
  exists pa pb, opened_mods_order c !! pa = Some (mod_index a) /\ opened_mods_order c !! pb = Some (mod_index b) /\
    if r then (pb <= pa)%nat else (pa <= pb)%nat.
Proof.
  intros Hs Hl Ho Hb Hpq Ea Eb. destruct (Hs _ l (fires_before_strict_weak c r)) as [Hp Hso].
  assert (forall h p, std_sort (fires_before c r) l !! p = Some h ->
    exists k, get_mod_order_index (mod_index h) c = Some k /\ opened_mods_order c !! k = Some (mod_index h)) as Hk.
  { intros h k Hh. apply list_elem_of_lookup_2 in Hh. rewrite Hp in Hh. apply Hb, (order_ok_bound c Ho), list_elem_of_lookup in Hh as [j Hj].
    exists j. by split; [apply Hl|]. }
  destruct (Hk a p Ea) as (pa & Ga & La), (Hk b q Eb) as (pb & Gb & Lb). exists pa, pb. split; [done|]. split; [done|].
  pose proof (StronglySorted_lookup _ _ Hso p q a b Hpq Ea Eb) as H. cbv beta in H. unfold fires_before in H. rewrite Ga, Gb in H.
  destruct r; by apply Nat.ltb_ge in H.
Qed.

(** After the hook set-up a slot holds exactly the hooks registered for it, in the load order of their mods, or in the reverse order when it is a return hook. *)
Theorem hooks_fire_in_load_order c n l slots :
  sorts -> order_ok c -> lookup_ok c ->
  (forall i m f, Registers i m f ∈ l -> (m < length (opened_mods c))%nat) ->
  apply_ops l (setup_hooks n reset_hooks) = Some slots ->
  forall i, (i < n)%nat -> exists slot, finish_hook_setup std_sort c slots !! i = Some slot /\
    hooks slot ≡ₚ hooks_for i l /\ is_return_hook slot = kind_of i false l /\
    forall p q a b, (p < q)%nat -> hooks slot !! p = Some a -> hooks slot !! q = Some b ->
      exists pa pb, opened_mods_order c !! pa = Some (mod_index a) /\ opened_mods_order c !! pb = Some (mod_index b) /\
        if is_return_hook slot then (pb <= pa)%nat else (pa <= pb)%nat.
Proof.
  intros Hs Ho Hl Hb Ea i Hi. pose proof (apply_ops_lookup _ _ _ _ _ Ea (setup_hooks_lookup n i Hi)) as E. cbn [hooks is_return_hook app] in E.
  unfold finish_hook_setup. rewrite list_lookup_fmap, E. eexists. split; [reflexivity|]. cbn [hooks is_return_hook].
  split; [by apply Hs, fires_before_strict_weak|]. split; [done|]. intros p q a b. apply sorted_fires; try done.
  intros h Hh. unfold hooks_for in Hh. apply list_elem_of_omap in Hh as ([j k|j m f] & Hin & Hh); [done|].
  destruct (decide (j = i)); [|done]. injection Hh as <-. by eapply Hb.
Qed.

Lemma listeners_fire_in_load_order c events i l p q a b :
  sorts -> order_ok c -> lookup_ok c -> events !! i = Some l -> (forall h, h ∈ l -> (mod_index h < length (opened_mods c))%nat) ->
  exists l', finish_event_setup std_sort c events !! i = Some l' /\ l' ≡ₚ l /\
    ((p < q)%nat -> l' !! p = Some a -> l' !! q = Some b ->
     exists pa pb, opened_mods_order c !! pa = Some (mod_index a) /\ opened_mods_order c !! pb = Some (mod_index b) /\ (pa <= pb)%nat).
Proof.
  intros Hs Ho Hl E Hb. unfold finish_event_setup. rewrite list_lookup_fmap, E. eexists. split; [reflexivity|].
  split; [by apply Hs, fires_before_strict_weak|]. by apply sorted_fires.
Qed.
End Order.
