(* ===== verification/ModSections.v ===== *)
(** The code of mods, first pass: librecomp/src/mods.cpp, [init_mod_code] and the
    loop of [load_mods] that calls it.

    The sections of every code mod are copied into guest memory one after the
    other and relocated, its exports and events are indexed, and each function
    that mods hook gets a slot.  Parsing the symbols is a parameter; so are the
    types of N64Recomp, of which the fields that are read are kept. *)

From Stdlib Require Import ZArith Lia Bool List.
From stdpp Require Import base list gmap strings option countable.
From S2P Require Import Prelude Rdram ModManager.
Open Scope Z_scope.

(** * What the symbols hold *)

Module N64Recomp.
Inductive RelocType := R_MIPS_32 | R_MIPS_26 | R_MIPS_other.
Record Reloc := MkReloc { address : Z; target_section : nat; target_section_offset : Z; type : RelocType; reference_symbol : bool }.
Record Section_ := MkSection_ { rom_addr : Z; ram_addr : Z; size : Z; bss_size : Z; fixed_address : bool; relocs : list Reloc }.
Record Function_ := MkFunction_ { name : string; vram : Z; section_index : nat }.
Record ImportSymbol := MkImport { import_name : string; dependency_index : nat }.
Record DependencyEvent := MkDependencyEvent { event_name : string; event_dependency_index : nat }.
Record Callback := MkCallback { dependency_event_index : nat; function_index : nat }.
Record FunctionHook := MkFunctionHook { hook_section_vrom : Z; hook_vram : Z; AtReturn : bool; hook_func_index : nat }.
Record FunctionReplacement := MkReplacement { repl_section_vrom : Z; repl_vram : Z; repl_func_index : nat; Force : bool }.
(** [dependencies]: the names, each at its index. *)
Record Context := MkContext {
  sections : list Section_; functions : list Function_; exported_funcs : list nat; event_symbols : list string;
  dependencies_ordered : list string; import_symbols : list ImportSymbol; dependency_events : list DependencyEvent;
  callbacks : list Callback; hooks : list FunctionHook; replacements : list FunctionReplacement }.
End N64Recomp.

Inductive CodeModLoadError :=
| InternalError | HasSymsButNoBinary | HasBinaryButNoSyms | FailedToParseSyms | MissingDependencyInManifest
| FailedToLoadNativeCode | FailedToLoadNativeLibrary | FailedToFindNativeExport | FailedToRecompile | InvalidReferenceSymbol
| InvalidImport | InvalidCallbackEvent | InvalidFunctionReplacement | HooksUnavailable | InvalidHook | CannotBeHooked
| FailedToFindReplacement | BaseRecompConflict | ModConflict | DuplicateExport | OfflineModHooked
| NoSpecifiedApiVersion | UnsupportedApiVersion.

Record HookDefinition := Def { section_rom : Z; function_vram : Z; at_return : bool }.
#[export] Instance HookDefinition_eq_dec : EqDecision HookDefinition.
Proof. solve_decision. Defined.
#[export] Instance HookDefinition_countable : Countable HookDefinition.
Proof.
  apply (inj_countable' (fun d => (section_rom d, function_vram d, at_return d)) (fun '(s, f, r) => Def s f r)). by intros [].
Defined.

Record mod_files := Files { binary_syms : option (list Z); mod_binary : option (list Z) }.
(** What a [ModHandle] has once its code is in memory. *)
Record mod_code := MkCode {
  recompiler_context : N64Recomp.Context; section_load_addresses : list Z;
  exports_by_name : gmap string nat; events_by_name : gmap string nat }.

Section Sections.
Context {M : Type} `{RdramOps M}.
Import N64Recomp.
(** [parse_mod_symbols], on the symbols and the binary; the names that stand for
    the recompiled game and for the mod itself. *)
Context (parse_mod_symbols : list Z -> list Z -> option Context) (DependencyBaseRecomp DependencySelf : string).

(** * Laying the sections out *)

Fixpoint copy_bytes (a : Z) (l : list Z) (m : M) : M :=
  match l with [] => m | b :: l => copy_bytes (a + 1) l (MEM_B_put a b m) end.
(** A fixed section stays where it is declared; the others follow each other,
    with the bss after the data and a gap.  [None] reads past the end of the
    binary. *)
Definition place_section (binary_data : list Z) (s : Section_) (cur_section_addr : Z) (m : M) : option (Z * Z * M) :=
  if fixed_address s then Some (ram_addr s, cur_section_addr, m)
  else if Z.of_nat (length binary_data) <? rom_addr s + size s then None
  else
    let m := copy_bytes cur_section_addr (take (Z.to_nat (size s)) (drop (Z.to_nat (rom_addr s)) binary_data)) m in
    let bss := s32 (cur_section_addr + size s) in
    let m := copy_bytes bss (replicate (Z.to_nat (bss_size s)) 0) m in
    let next := Z.land (s32 (s32 (bss + bss_size s) + 15)) (-16) in
    Some (u32 cur_section_addr, s32 (next + 0x400), m).
Fixpoint place_sections (binary_data : list Z) (l : list Section_) (cur_section_addr : Z) (m : M) : option (list Z * Z * M) :=
  match l with
  | [] => Some ([], cur_section_addr, m)
  | s :: l =>
      '(a, cur, m) ← place_section binary_data s cur_section_addr m;
      '(addresses, cur, m) ← place_sections binary_data l cur m;
      Some (a :: addresses, cur, m)
  end.

(** * Relocating *)

Definition is_internal (r : Reloc) : bool := match type r with R_MIPS_32 => negb (reference_symbol r) | _ => false end.
(** The word moves with the section it points to; false if there is none. *)
Definition apply_reloc (mod_sections : list Section_) (addresses : list Z) (s : Section_) (loaded_vram : Z) (x : bool * M) (r : Reloc) : bool * M :=
  let '(good, m) := x in
  if negb good then x
  else if is_internal r then
    match mod_sections !! target_section r with
    | None => (false, m)
    | Some target =>
        let reloc_word_addr := s32 (u32 (address r - ram_addr s + loaded_vram)) in
        let reloc_word := u32 (MEM_W reloc_word_addr m) in
        let target_loaded := default 0 (addresses !! target_section r) in
        (true, MEM_W_put reloc_word_addr (s32 (reloc_word + u32 (target_loaded - ram_addr target))) m)
    end
  else x.
Definition relocate_section (mod_sections : list Section_) (addresses : list Z) (x : bool * M) (sl : Section_ * Z) : bool * M :=
  foldl (apply_reloc mod_sections addresses (fst sl) (snd sl)) x (relocs (fst sl)).
Definition relocate (mod_sections : list Section_) (addresses : list Z) (m : M) : bool * M :=
  foldl (relocate_section mod_sections addresses) (true, m) (zip mod_sections addresses).

(** * Names and slots *)

(** The first of a name is kept. *)
Definition index_names (l : list (string * nat)) : gmap string nat := foldl (fun t '(n, i) => emplace n i t) ∅ l.
Definition populate_exports (c : Context) : gmap string nat :=
  index_names (omap (fun i => f ← functions c !! i; Some (name f, i)) (exported_funcs c)).
Definition populate_events (c : Context) : gmap string nat := index_names (imap (fun i n => (n, i)) (event_symbols c)).
Definition num_events (c : Context) : nat := length (event_symbols c).
Definition hook_definition (h : FunctionHook) : HookDefinition := Def (hook_section_vrom h) (hook_vram h) (AtReturn h).
Definition add_hook_slot (slots : gmap HookDefinition nat) (h : FunctionHook) : gmap HookDefinition nat :=
  match slots !! hook_definition h with
  | Some _ => slots
  | None => <[hook_definition h := base.size slots]> slots
  end.

(** * The first pass *)

Record pass_state := MkPass {
  rdram : M; total_events : nat; hook_slots : gmap HookDefinition nat; code_of : gmap nat mod_code;
  base_event_indices : gmap nat nat }.

Definition in_manifest (mf : ModManifest) (id : string) : bool := existsb (fun d => bool_decide (dep_mod_id d = id)) (dependencies mf).
Definition declared (mf : ModManifest) (id : string) : bool :=
  bool_decide (id = DependencyBaseRecomp) || bool_decide (id = DependencySelf) || in_manifest mf id.
Definition set_rdram (m : M) (st : pass_state) : pass_state :=
  MkPass m (total_events st) (hook_slots st) (code_of st) (base_event_indices st).
(** The memory used, or the error, and the state; [None] is a read past the end
    of the binary. *)
Definition init_mod_code (hooks_available : bool) (i : nat) (mf : ModManifest) (f : mod_files) (load_address : Z) (st : pass_state) :
    option ((Z + CodeModLoadError) * pass_state) :=
  match binary_syms f, mod_binary f with
  | Some _, None => Some (inr HasSymsButNoBinary, st)
  | None, Some _ => Some (inr HasBinaryButNoSyms, st)
  | syms, binary =>
      let binary_data := default [] binary in
      match parse_mod_symbols (default [] syms) binary_data with
      | None => Some (inr FailedToParseSyms, st)
      | Some c =>
          if negb hooks_available && negb (bool_decide (hooks c = [])) then Some (inr HooksUnavailable, st)
          else if negb (forallb (declared mf) (dependencies_ordered c)) then Some (inr MissingDependencyInManifest, st)
          else
            '(addresses, cur, m) ← place_sections binary_data (sections c) load_address (rdram st);
            let '(good, m) := relocate (sections c) addresses m in
            if negb good then Some (inr FailedToParseSyms, set_rdram m st)
            else
              let code := MkCode c addresses (populate_exports c) (populate_events c) in
              Some (inl (u32 (cur - load_address)),
                MkPass m (total_events st + num_events c) (foldl add_hook_slot (hook_slots st) (hooks c))
                  (<[i := code]> (code_of st)) (base_event_indices st))
      end
  end.

(** One mod of the loop: an error is kept, and the next mod is tried. *)
Record pass_result := Result { errors : list (string * CodeModLoadError); next_address : Z; ram_used : Z; state : pass_state }.
Definition init_one (hooks_available : bool) (acc : option pass_result) (m : nat * ModManifest * mod_files) : option pass_result :=
  r ← acc;
  let '(i, mf, f) := m in
  '(x, st) ← init_mod_code hooks_available i mf f (next_address r) (state r);
  match x with
  | inr e => Some (Result (errors r ++ [(mod_id mf, e)]) (next_address r) (ram_used r) st)
  | inl used =>
      Some (Result (errors r) (s32 (next_address r + used)) (u32 (ram_used r + used))
        (MkPass (rdram st) (total_events st) (hook_slots st) (code_of st) (<[i := total_events (state r)]> (base_event_indices st))))
  end.
Definition first_pass (hooks_available : bool) (load_address : Z) (l : list (nat * ModManifest * mod_files)) (st : pass_state) : option pass_result :=
  foldl (init_one hooks_available) (Some (Result [] load_address 0 st)) l.
End Sections.
Arguments MkPass {M}.
Arguments rdram {M}.
Arguments total_events {M}.
Arguments hook_slots {M}.
Arguments code_of {M}.
Arguments base_event_indices {M}.
Arguments Result {M}.
Arguments errors {M}.
Arguments next_address {M}.
Arguments ram_used {M}.
Arguments state {M}.
