(* ===== verification/ModSectionsSpec.v ===== *)
(** The code of mods, first pass: sections lie apart, hold what the binary holds,
    and their pointers follow the sections they point to. *)

From Stdlib Require Import ZArith Lia ZifyBool Bool List.
From stdpp Require Import base list gmap strings option.
From S2P Require Import Prelude Rdram ModManager ModSections.
Import N64Recomp.
Open Scope Z_scope.

Definition sizes_ok (s : Section_) : Prop := 0 <= size s /\ 0 <= bss_size s /\ 0 <= rom_addr s.
(** Where the next section goes when addresses do not overflow. *)
Definition room (cur : Z) (s : Section_) : Z :=
  if fixed_address s then cur else 16 * ((cur + size s + bss_size s + 15) / 16) + 0x400.
Definition end_of (l : list Section_) (cur : Z) : Z := foldl room cur l.

Lemma land_minus16 x : Z.land x (-16) = 16 * (x / 16).
Proof.
  change (-16) with (Z.lnot (Z.ones 4)). rewrite <- Z.ldiff_land, Z.ldiff_ones_r by lia.
  rewrite Z.shiftl_mul_pow2, Z.shiftr_div_pow2 by lia. change (2 ^ 4) with 16. lia.
Qed.
Lemma room_bounds cur s : sizes_ok s -> cur <= room cur s.
Proof. intros (H1 & H2 & _). unfold room. destruct (fixed_address s); [lia|]. zlia. Qed.
Lemma room_after cur s : sizes_ok s -> fixed_address s = false -> cur + size s + bss_size s + 0x400 <= room cur s /\ room cur s mod 16 = 0.
Proof. intros (H1 & H2 & _) E. unfold room. rewrite E. split; zlia. Qed.
Lemma end_of_bounds l : Forall sizes_ok l -> forall cur, cur <= end_of l cur.
Proof.
  induction 1 as [|s l Hs Hl IH]; intros cur; [simpl; unfold end_of; simpl; lia|].
  unfold end_of in *. cbn [foldl]. pose proof (room_bounds cur s Hs). pose proof (IH (room cur s)). lia.
Qed.
Lemma end_of_app l1 l2 cur : end_of (l1 ++ l2) cur = end_of l2 (end_of l1 cur).
Proof. apply foldl_app. Qed.
Lemma end_of_take l k s cur : Forall sizes_ok l -> l !! k = Some s -> fixed_address s = false ->
  end_of (take k l) cur + size s + bss_size s + 0x400 <= end_of (take (S k) l) cur /\ end_of (take (S k) l) cur <= end_of l cur.
Proof.
  intros Hl E Ef. rewrite (take_S_r _ _ _ E), end_of_app. split.
  - apply room_after; [by eapply Forall_lookup_1|done].
  - rewrite <- (take_drop (S k) l) at 2. rewrite (take_S_r _ _ _ E), !end_of_app. apply end_of_bounds. by apply Forall_drop.
Qed.
Lemma end_of_take_le l k j cur : Forall sizes_ok l -> (k <= j)%nat -> end_of (take k l) cur <= end_of (take j l) cur.
Proof.
  intros Hl Hk. replace (take k l) with (take k (take j l)) by (rewrite take_take; f_equal; lia).
  rewrite <- (take_drop k (take j l)) at 2. rewrite end_of_app. apply end_of_bounds. by apply Forall_drop, Forall_take.
Qed.
Lemma end_of_aligned l : forall cur, cur mod 16 = 0 -> end_of l cur mod 16 = 0.
Proof.
  induction l as [|s l IH]; intros cur H; [done|]. apply IH. unfold room. destruct (fixed_address s); [done|]. zlia.
Qed.

Lemma if_true {A} (b : bool) (x y : A) : b = true -> (if b then x else y) = x.
Proof. by intros ->. Qed.
Lemma if_false {A} (b : bool) (x y : A) : b = false -> (if b then x else y) = y.
Proof. by intros ->. Qed.

Section Spec.
Context {M : Type} `{RL : RdramLaws M}.
Implicit Types (m : M) (binary : list Z) (l : list Section_).

Definition rb (x : Z) m : Z := u8 (MEM_B x m).
Lemma copy_bytes_get bytes : forall a x m, rb x (copy_bytes a bytes m) =
  if (a <=? x) && (x <? a + Z.of_nat (length bytes)) then u8 (nth (Z.to_nat (x - a)) bytes 0) else rb x m.
Proof.
  induction bytes as [|b bytes IH]; intros a x m; cbn [copy_bytes length].
  - destruct ((a <=? x) && (x <? a + Z.of_nat 0)) eqn:E; [lia|done].
  - rewrite IH. unfold rb. rewrite mem_b_put. destruct (decide (a = x)) as [->|Hne].
    + destruct ((x + 1 <=? x) && _) eqn:E1; [lia|]. destruct ((x <=? x) && _) eqn:E2; [|lia].
      rewrite Z.sub_diag. simpl. apply u8_of_s8.
    + destruct ((a + 1 <=? x) && (x <? a + 1 + Z.of_nat (length bytes))) eqn:E1, ((a <=? x) && (x <? a + Z.of_nat (S (length bytes)))) eqn:E2; try lia; try done.
      replace (Z.to_nat (x - a)) with (S (Z.to_nat (x - (a + 1)))) by lia. done.
Qed.

(** * One section *)

Definition bin_byte binary (k : Z) : Z := u8 (nth (Z.to_nat k) binary 0).
Lemma place_section_spec binary s cur m a cur' m' : sizes_ok s -> -2147483648 <= cur -> room cur s < 2147483648 ->
  place_section binary s cur m = Some (a, cur', m') ->
  cur' = room cur s /\ a = (if fixed_address s then ram_addr s else u32 cur) /\
  (forall x, (fixed_address s = true \/ ~ cur <= x < cur + size s + bss_size s) -> rb x m' = rb x m) /\
  (fixed_address s = false -> rom_addr s + size s <= Z.of_nat (length binary) /\
    (forall k, 0 <= k < size s -> rb (cur + k) m' = bin_byte binary (rom_addr s + k)) /\
    (forall k, 0 <= k < bss_size s -> rb (cur + size s + k) m' = 0)).
Proof.
  intros (H1 & H2 & H3) Hc Hr. unfold place_section, room in *. destruct (fixed_address s); [intros [= <- <- <-]; by repeat split|].
  destruct (Z.of_nat (length binary) <? rom_addr s + size s) eqn:Eb; [done|]. intros [= <- <- <-].
  assert (length (take (Z.to_nat (size s)) (drop (Z.to_nat (rom_addr s)) binary)) = Z.to_nat (size s)) as El
    by (rewrite length_take, length_drop; lia).
  assert (s32 (cur + size s) = cur + size s) as E1 by (apply s32_small; unfold is_s32; zlia). rewrite E1.
  assert (s32 (cur + size s + bss_size s) = cur + size s + bss_size s) as E2 by (apply s32_small; unfold is_s32; zlia). rewrite E2.
  assert (s32 (cur + size s + bss_size s + 15) = cur + size s + bss_size s + 15) as E3 by (apply s32_small; unfold is_s32; zlia). rewrite E3.
  rewrite land_minus16. split; [apply s32_small; unfold is_s32; zlia|]. split; [done|]. split.
  - intros x [|Hx]; [done|]. rewrite !copy_bytes_get, length_replicate, El, !if_false by lia. done.
  - intros _. split; [lia|]. split; intros k Hk; rewrite !copy_bytes_get, length_replicate, El.
    + rewrite if_false, if_true by lia. unfold bin_byte. replace (cur + k - cur) with k by lia.
      rewrite !nth_lookup, lookup_take_lt, lookup_drop by lia. do 3 f_equal. lia.
    + rewrite if_true by lia. rewrite nth_lookup, lookup_replicate_2 by lia. done.
Qed.

(** * All sections *)

(** Section [s] at [a]: its data, except the bytes that [skip] says, and its bss. *)
Definition holds binary (s : Section_) (a : Z) (skip : Z -> Prop) m : Prop :=
  (forall k, 0 <= k < size s -> ~ skip (a + k) -> rb (a + k) m = bin_byte binary (rom_addr s + k)) /\
  (forall k, 0 <= k < bss_size s -> ~ skip (a + size s + k) -> rb (a + size s + k) m = 0).
Lemma place_sections_spec binary l : Forall sizes_ok l -> forall cur m addresses cur' m',
  -2147483648 <= cur -> end_of l cur < 2147483648 -> place_sections binary l cur m = Some (addresses, cur', m') ->
  cur' = end_of l cur /\ length addresses = length l /\
  (forall x, ~ cur <= x < end_of l cur -> rb x m' = rb x m) /\
  forall k s, l !! k = Some s ->
    addresses !! k = Some (if fixed_address s then ram_addr s else u32 (end_of (take k l) cur)) /\
    (fixed_address s = false -> rom_addr s + size s <= Z.of_nat (length binary) /\
      holds binary s (end_of (take k l) cur) (fun _ => False) m').
Proof.
  induction 1 as [|s l Hs Hl IH]; intros cur m addresses cur' m' Hc He E; cbn [place_sections] in E.
  { injection E as <- <- <-. split; [done|]. split; [done|]. split; [done|]. by intros [|k] s. }
  change (end_of (s :: l) cur) with (end_of l (room cur s)) in *.
  pose proof (room_bounds cur s Hs) as Hb. pose proof (end_of_bounds l Hl (room cur s)) as Hb2.
  destruct (place_section binary s cur m) as [[[a c1] m1]|] eqn:E1; [|done]. cbn [mbind option_bind] in E.
  destruct (place_section_spec _ _ _ _ _ _ _ Hs Hc ltac:(lia) E1) as (-> & Ea & Hf & Hh).
  destruct (place_sections binary l (room cur s) m1) as [[[al c2] m2]|] eqn:E2; [|done]. cbn [mbind option_bind] in E.
  injection E as <- <- <-. destruct (IH (room cur s) _ _ _ _ ltac:(lia) He E2) as (-> & El & Hf2 & Hh2).
  split; [done|]. split; [simpl; lia|]. split.
  - intros x Hx. rewrite Hf2 by lia. apply Hf. destruct (fixed_address s) eqn:Ef; [by left|right].
    destruct (room_after cur s Hs Ef). lia.
  - intros [|k] s0 Ek; cbn [take lookup list_lookup] in *; [injection Ek as <-|].
    + change (end_of [] cur) with cur. split; [by rewrite Ea|]. intros Ef. destruct (Hh Ef) as (Hr & Hd & Hz). split; [done|].
      destruct (room_after cur s Hs Ef). destruct Hs as (? & ? & ?).
      split; intros k Hk _; rewrite Hf2 by lia; [by apply Hd|by apply Hz].
    + apply Hh2. done.
Qed.

(** * Relocations *)

Definition word (a : Z) m : Z := u32 (MEM_W a m).
Definition bin_word binary (k : Z) : Z :=
  bin_byte binary k * 16777216 + bin_byte binary (k + 1) * 65536 + bin_byte binary (k + 2) * 256 + bin_byte binary (k + 3).
Lemma word_from_bytes a m : a mod 4 = 0 -> word a m = rb a m * 16777216 + rb (a + 1) m * 65536 + rb (a + 2) m * 256 + rb (a + 3) m.
Proof. apply mem_w_bytes. Qed.
Lemma word_same a m m' : a mod 4 = 0 -> (forall x, a <= x < a + 4 -> rb x m' = rb x m) -> word a m' = word a m.
Proof. intros Ha Hx. rewrite !word_from_bytes by done. rewrite !Hx by lia. done. Qed.
Lemma word_put a v m : word a (MEM_W_put a v m) = u32 v.
Proof. unfold word. by rewrite mem_w_put, u32_s32. Qed.
Lemma rb_put_word a v m x : a mod 4 = 0 -> ~ a <= x < a + 4 -> rb x (MEM_W_put a v m) = rb x m.
Proof. intros Ha Hx. unfold rb. by rewrite mem_w_put_other. Qed.

(** Words that are moved, and by how much. *)
Definition add_word m (u : Z * Z) : M := MEM_W_put (fst u) (s32 (word (fst u) m + snd u)) m.
Definition words_ok (us : list (Z * Z)) : Prop := NoDup us.*1 /\ forall u, u ∈ us -> fst u mod 4 = 0.
Lemma words_ok_cons u us : words_ok (u :: us) -> fst u mod 4 = 0 /\ words_ok us /\ forall v, v ∈ us -> fst v <> fst u.
Proof.
  intros [Hd Ha]. cbn in Hd. apply list.NoDup_cons in Hd as [Hn Hd]. split; [apply Ha; constructor|]. split.
  - split; [done|]. intros v Hv. apply Ha. by constructor.
  - intros v Hv E. apply Hn. rewrite <- E. by apply list_elem_of_fmap_2.
Qed.
Lemma add_words_rb us : words_ok us -> forall m x, (forall u, u ∈ us -> ~ fst u <= x < fst u + 4) -> rb x (foldl add_word m us) = rb x m.
Proof.
  induction us as [|u us IH]; intros Hw m x Hx; [done|]. apply words_ok_cons in Hw as (Ha & Hw & Hn). cbn [foldl].
  rewrite IH by (try done; intros v Hv; apply Hx; by constructor). apply rb_put_word; [done|]. apply Hx. constructor.
Qed.
Lemma add_words_word us : words_ok us -> forall m u, u ∈ us -> word (fst u) (foldl add_word m us) = u32 (word (fst u) m + snd u).
Proof.
  induction us as [|v us IH]; intros Hw m u Hu; [by apply elem_of_nil in Hu|].
  pose proof Hw as [_ Hal]. apply words_ok_cons in Hw as (Ha & Hw & Hn). cbn [foldl]. apply elem_of_cons in Hu as [->|Hu].
  - rewrite (word_same _ (add_word m v)); [|done|].
    + unfold add_word. by rewrite word_put, u32_s32.
    + intros x Hx. apply add_words_rb; [done|]. intros w Hu. pose proof (Hn w Hu). destruct Hw as [_ Hw]. specialize (Hw w Hu). zlia.
  - rewrite IH by done. f_equal. f_equal. apply word_same; [apply Hal; by constructor|].
    intros x Hx. apply rb_put_word; [done|]. pose proof (Hn u Hu). destruct Hw as [_ Hw]. specialize (Hw u Hu). zlia.
Qed.

Section Mod.
Context (l : list Section_) (addresses : list Z).

(** What relocations ask of the symbols: their words are words of the section's
    data, each moved once, and they point to sections that exist. *)
Definition reloc_ok (s : Section_) (r : Reloc) : Prop :=
  is_internal r = true -> (target_section r < length l)%nat /\ fixed_address s = false /\
  0 <= address r - ram_addr s /\ address r - ram_addr s + 4 <= size s /\ (address r - ram_addr s) mod 4 = 0.
Definition relocs_ok (s : Section_) : Prop :=
  (forall r, r ∈ relocs s -> reloc_ok s r) /\ NoDup (address <$> filter (fun r => is_internal r = true) (relocs s)).

Definition shift (r : Reloc) : Z :=
  u32 (default 0 (addresses !! target_section r) - ram_addr (default (MkSection_ 0 0 0 0 true []) (l !! target_section r))).
Definition updates (s : Section_) (loaded : Z) : list (Z * Z) :=
  (fun r => (s32 (u32 (address r - ram_addr s + loaded)), shift r)) <$> filter (fun r => is_internal r = true) (relocs s).
Lemma relocate_section_updates s loaded m : (forall r, r ∈ relocs s -> reloc_ok s r) ->
  relocate_section l addresses (true, m) (s, loaded) = (true, foldl add_word m (updates s loaded)).
Proof.
  unfold relocate_section, updates. cbn [fst snd]. generalize (relocs s). intros rs. revert m.
  induction rs as [|r rs IH]; intros m Hr; [done|]. cbn [foldl]. unfold apply_reloc at 2. cbn [negb].
  rewrite filter_cons. destruct (is_internal r) eqn:Ei.
  - rewrite decide_True by done. destruct (Hr r ltac:(constructor) Ei) as (Ht & _). apply lookup_lt_is_Some in Ht as [t Ht].
    rewrite Ht. rewrite IH by (intros; apply Hr; by constructor). rewrite fmap_cons. cbn [foldl]. do 2 f_equal.
    unfold add_word, shift, word. by rewrite Ht.
  - rewrite decide_False by done. apply IH. intros; apply Hr. by constructor.
Qed.
Definition all_updates (zs : list (Section_ * Z)) : list (Z * Z) := mjoin ((fun sl => updates (fst sl) (snd sl)) <$> zs).
Lemma relocate_updates zs : (forall s a r, (s, a) ∈ zs -> r ∈ relocs s -> reloc_ok s r) -> forall m,
  foldl (relocate_section l addresses) (true, m) zs = (true, foldl add_word m (all_updates zs)).
Proof.
  induction zs as [|[s a] zs IH]; intros Hz m; [done|]. unfold all_updates. cbn [fmap list_fmap mjoin list_join foldl fst snd].
  rewrite foldl_app, relocate_section_updates by (intros r; apply (Hz s a); constructor).
  apply IH. intros s' a' r Hs. apply (Hz s' a'). by constructor.
Qed.

Lemma reloc_address s a r : reloc_ok s r -> is_internal r = true -> -2147483648 <= a -> a + size s < 2147483648 ->
  s32 (u32 (address r - ram_addr s + u32 a)) = a + (address r - ram_addr s).
Proof.
  intros Hr Hi Ha Hb. destruct (Hr Hi) as (_ & _ & H1 & H2 & _).
  replace (u32 (address r - ram_addr s + u32 a)) with (u32 (a + (address r - ram_addr s)))
    by (unfold u32; rewrite Zplus_mod_idemp_r; f_equal; lia).
  rewrite s32_u32. apply s32_small. unfold is_s32. lia.
Qed.
Lemma updates_spec s a : relocs_ok s -> -2147483648 <= a -> a + size s < 2147483648 -> a mod 4 = 0 ->
  words_ok (updates s (u32 a)) /\ forall u, u ∈ updates s (u32 a) -> a <= fst u /\ fst u + 4 <= a + size s.
Proof.
  intros [Hr Hd] Ha Hb Hm.
  assert (forall r, r ∈ filter (fun r => is_internal r = true) (relocs s) ->
    s32 (u32 (address r - ram_addr s + u32 a)) = a + (address r - ram_addr s) /\
    0 <= address r - ram_addr s /\ address r - ram_addr s + 4 <= size s /\ (address r - ram_addr s) mod 4 = 0) as Hx.
  { intros r [Hi Hin]%list_elem_of_filter. split; [by apply reloc_address; [apply Hr| | |]|]. by destruct (Hr r Hin Hi) as (_ & _ & ? & ? & ?). }
  unfold updates. split; [split|].
  - rewrite <- list_fmap_compose. revert Hx Hd. generalize (filter (fun r => is_internal r = true) (relocs s)). intros rs Hx.
    induction rs as [|r rs IH]; intros Hd; [constructor|]. cbn in Hd |- *. apply list.NoDup_cons in Hd as [Hn Hd]. apply list.NoDup_cons.
    split; [|apply IH; [intros; apply Hx; by constructor|done]]. intros (r' & E & Hr')%list_elem_of_fmap. apply Hn. apply list_elem_of_fmap.
    exists r'. split; [|done]. destruct (Hx r ltac:(constructor)) as (E1 & _), (Hx r' ltac:(by constructor)) as (E2 & _). cbn in E. lia.
  - intros u (r & -> & Hin)%list_elem_of_fmap. destruct (Hx r Hin) as (E & ? & ? & ?). cbn [fst]. rewrite E. zlia.
  - intros u (r & -> & Hin)%list_elem_of_fmap. destruct (Hx r Hin) as (E & ? & ? & ?). cbn [fst]. rewrite E. lia.
Qed.
Lemma updates_fixed s loaded : relocs_ok s -> fixed_address s = true -> updates s loaded = [].
Proof.
  intros [Hr _] Ef. unfold updates. replace (filter _ (relocs s)) with (@nil Reloc); [done|].
  symmetry. apply elem_of_nil_inv. intros r [Hi Hin]%list_elem_of_filter. destruct (Hr r Hin Hi) as (_ & E & _). congruence.
Qed.
(** The addresses that sections laid out from [cur] get. *)
Definition addresses_from (l' : list Section_) (cur : Z) (as' : list Z) : Prop :=
  length as' = length l' /\ forall k s, l' !! k = Some s -> as' !! k = Some (if fixed_address s then ram_addr s else u32 (end_of (take k l') cur)).
Lemma addresses_from_cons s l' cur a as' : addresses_from (s :: l') cur (a :: as') ->
  a = (if fixed_address s then ram_addr s else u32 cur) /\ addresses_from l' (room cur s) as'.
Proof.
  intros [El Hk]. split; [|split; [simpl in El; lia|]].
  - specialize (Hk 0%nat s eq_refl). by injection Hk.
  - intros k s' E. exact (Hk (S k) s' E).
Qed.
Lemma all_updates_spec l' : Forall sizes_ok l' -> Forall relocs_ok l' -> forall cur as', addresses_from l' cur as' ->
  -2147483648 <= cur -> end_of l' cur < 2147483648 -> cur mod 16 = 0 ->
  words_ok (all_updates (zip l' as')) /\ forall u, u ∈ all_updates (zip l' as') -> cur <= fst u /\ fst u + 4 <= end_of l' cur.
Proof.
  induction 1 as [|s l' Hs Hl IH]; intros Hr cur as' Ha Hc He Hm.
  { unfold all_updates. cbn. split; [split; [constructor|]|]; intros u Hu; by apply elem_of_nil in Hu. }
  destruct as' as [|a as']; [by destruct Ha|]. apply addresses_from_cons in Ha as [-> Ha]. inversion_clear Hr as [|? ? Hrs Hrl].
  change (end_of (s :: l') cur) with (end_of l' (room cur s)) in *. pose proof (room_bounds cur s Hs). pose proof (end_of_bounds l' Hl (room cur s)).
  destruct (IH Hrl (room cur s) as' Ha ltac:(lia) He) as [[Hd Hal] Hb].
  { exact (end_of_aligned [s] cur Hm). }
  unfold all_updates in *. cbn [zip zip_with fmap list_fmap mjoin list_join fst snd].
  destruct (fixed_address s) eqn:Ef.
  { rewrite updates_fixed by done. split; [done|]. intros u Hu. pose proof (Hb u Hu). unfold room in *. rewrite Ef in *. lia. }
  destruct (room_after cur s Hs Ef) as [Hroom _]. destruct Hs as (? & ? & ?).
  destruct (updates_spec s cur Hrs ltac:(lia) ltac:(lia) ltac:(zlia)) as [[Hd1 Hal1] Hb1].
  split; [split|].
  - rewrite fmap_app. apply list.NoDup_app. split; [done|]. split; [|done].
    intros x (u & -> & Hu)%list_elem_of_fmap (v & E & Hv)%list_elem_of_fmap. pose proof (Hb1 u Hu). pose proof (Hb v Hv). lia.
  - intros u [Hu|Hu]%elem_of_app; [by apply Hal1|by apply Hal].
  - intros u [Hu|Hu]%elem_of_app; [pose proof (Hb1 u Hu)|pose proof (Hb u Hu)]; lia.
Qed.

Lemma elem_all_updates l' as' u : u ∈ all_updates (zip l' as') <->
  exists k s a r, l' !! k = Some s /\ as' !! k = Some a /\ r ∈ relocs s /\ is_internal r = true /\
    u = (s32 (u32 (address r - ram_addr s + a)), shift r).
Proof.
  unfold all_updates. rewrite list_elem_of_join. split.
  - intros (us & Hu & ([s a] & -> & Hz)%list_elem_of_fmap). apply list_elem_of_lookup in Hz as [k Hk].
    apply lookup_zip_Some in Hk as [Hk1 Hk2]. cbn [fst snd] in Hu. apply list_elem_of_fmap in Hu as (r & -> & [Hi Hin]%list_elem_of_filter).
    by exists k, s, a, r.
  - intros (k & s & a & r & Hk1 & Hk2 & Hin & Hi & ->). exists (updates s a). split.
    + apply list_elem_of_fmap. exists r. split; [done|]. by apply list_elem_of_filter.
    + apply list_elem_of_fmap. exists (s, a). split; [done|]. apply (list_elem_of_lookup_2 _ k). by apply lookup_zip_Some.
Qed.

(** The bytes that relocations move, and what is in memory once a mod is loaded
    from [base] on: data, bss and moved words. *)
Definition relocated (base x : Z) : Prop :=
  exists k s r, l !! k = Some s /\ r ∈ relocs s /\ is_internal r = true /\
    let a := end_of (take k l) base + (address r - ram_addr s) in a <= x < a + 4.
Definition loaded_at binary (base : Z) m : Prop :=
  forall k s, l !! k = Some s -> fixed_address s = false ->
    let a := end_of (take k l) base in
    addresses !! k = Some (u32 a) /\ holds binary s a (relocated base) m /\
    forall r, r ∈ relocs s -> is_internal r = true ->
      exists t ta, l !! target_section r = Some t /\ addresses !! target_section r = Some ta /\
        word (a + (address r - ram_addr s)) m = u32 (bin_word binary (rom_addr s + (address r - ram_addr s)) + (ta - ram_addr t)).

Hypothesis Hsizes : Forall sizes_ok l.
Hypothesis Hrelocs : Forall relocs_ok l.

Lemma section_within base k s : l !! k = Some s -> fixed_address s = false ->
  base <= end_of (take k l) base /\ end_of (take k l) base + size s + bss_size s + 0x400 <= end_of l base.
Proof.
  intros E Ef. destruct (end_of_take l k s base Hsizes E Ef). pose proof (end_of_bounds (take k l) (Forall_take _ _ _ Hsizes) base). lia.
Qed.
Lemma reloc_nonfixed k s r : l !! k = Some s -> r ∈ relocs s -> is_internal r = true -> reloc_ok s r /\ fixed_address s = false.
Proof.
  intros E Hin Hi. destruct (Forall_lookup_1 _ _ _ _ Hrelocs E) as [Hr _]. split; [by apply Hr|]. by destruct (Hr r Hin Hi) as (_ & ? & _).
Qed.
Lemma loaded_at_frame binary base m m' : base mod 16 = 0 ->
  (forall x, base <= x < end_of l base -> rb x m' = rb x m) -> loaded_at binary base m -> loaded_at binary base m'.
Proof.
  intros Hm Hf Hl k s E Ef. destruct (Hl k s E Ef) as (H1 & [H2 H3] & H4). destruct (section_within base k s E Ef).
  destruct (Forall_lookup_1 _ _ _ _ Hsizes E) as (? & ? & ?).
  split; [done|]. split; [split; intros j Hj Hs; rewrite Hf by lia; [by apply H2|by apply H3]|].
  intros r Hin Hi. destruct (H4 r Hin Hi) as (t & ta & Et & Eta & Ew). exists t, ta. split; [done|]. split; [done|].
  destruct (reloc_nonfixed k s r E Hin Hi) as [Hr _]. destruct (Hr Hi) as (_ & _ & ? & ? & ?).
  pose proof (end_of_aligned (take k l) base Hm). rewrite <- Ew. apply word_same; [zlia|]. intros x Hx. apply Hf. lia.
Qed.

Lemma mod_loaded binary base m cur m1 good m2 :
  -2147483648 <= base -> end_of l base < 2147483648 -> base mod 16 = 0 ->
  place_sections binary l base m = Some (addresses, cur, m1) -> relocate l addresses m1 = (good, m2) ->
  good = true /\ cur = end_of l base /\ length addresses = length l /\ loaded_at binary base m2 /\
  forall x, ~ base <= x < end_of l base -> rb x m2 = rb x m.
Proof.
  intros Hb He Hm Ep Er. destruct (place_sections_spec _ _ Hsizes _ _ _ _ _ Hb He Ep) as (-> & El & Hf & Hk).
  assert (addresses_from l base addresses) as Ha by (split; [done|]; intros k s E; by apply Hk).
  destruct (all_updates_spec l Hsizes Hrelocs base addresses Ha Hb He Hm) as [Hw Hin].
  unfold relocate in Er. rewrite relocate_updates in Er.
  2:{ intros s a r Hs Hr. apply list_elem_of_lookup in Hs as [k Hs]. apply lookup_zip_Some in Hs as [Hs _].
      intros Hi. by apply (reloc_nonfixed k s r Hs Hr Hi). }
  injection Er as <- <-. split; [done|]. split; [done|]. split; [done|]. split.
  2:{ intros x Hx. rewrite add_words_rb; [by apply Hf|done|]. intros u Hu. pose proof (Hin u Hu). lia. }
  assert (forall k s r, l !! k = Some s -> r ∈ relocs s -> is_internal r = true ->
    (end_of (take k l) base + (address r - ram_addr s), shift r) ∈ all_updates (zip l addresses)) as Hmem.
  { intros k s r E Hr Hi. destruct (reloc_nonfixed k s r E Hr Hi) as [Hro Ef]. apply elem_all_updates. exists k, s, (u32 (end_of (take k l) base)), r.
    destruct (Hk k s E) as [Hak _]. rewrite Ef in Hak. split; [done|]. split; [done|]. split; [done|]. split; [done|].
    destruct (section_within base k s E Ef). destruct (Forall_lookup_1 _ _ _ _ Hsizes E) as (? & ? & ?). rewrite reloc_address; [done|done|done|lia|lia]. }
  intros k s E Ef. destruct (Hk k s E) as [Hak Hh]. rewrite Ef in Hak. destruct (Hh Ef) as (_ & H1 & H2). split; [done|]. split.
  - assert (forall x, ~ relocated base x -> rb x (foldl add_word m1 (all_updates (zip l addresses))) = rb x m1) as Hrb.
    { intros x Hx. apply add_words_rb; [done|]. intros u Hu Hux. apply Hx. apply elem_all_updates in Hu as (j & s' & a & r & Ej & Eaj & Hr & Hi & ->).
      exists j, s', r. split; [done|]. split; [done|]. split; [done|]. cbn [fst] in Hux.
      destruct (reloc_nonfixed j s' r Ej Hr Hi) as [Hro Ef']. destruct (Hk j s' Ej) as [Haj _]. rewrite Ef' in Haj.
      assert (a = u32 (end_of (take j l) base)) as -> by congruence.
      destruct (section_within base j s' Ej Ef'). destruct (Forall_lookup_1 _ _ _ _ Hsizes Ej) as (? & ? & ?).
      rewrite reloc_address in Hux by (try done; lia). done. }
    split; intros j Hj Hs; rewrite Hrb by done; [by apply H1; [|intros []]|by apply H2; [|intros []]].
  - intros r Hr Hi. pose proof (Hmem k s r E Hr Hi) as Hu. pose proof (add_words_word _ Hw m1 _ Hu) as Ew. cbn [fst snd] in Ew.
    destruct (reloc_nonfixed k s r E Hr Hi) as [Hro _]. destruct (Hro Hi) as (Ht & _ & Hr1 & Hr2 & Hr3).
    apply lookup_lt_is_Some in Ht as [t Et]. destruct (Hk _ t Et) as [Hta _]. eexists t, _. split; [done|]. split; [exact Hta|].
    rewrite Ew. unfold shift. rewrite Et, Hta. cbn [default from_option Datatypes.id].
    unfold u32 at 1 2. rewrite Zplus_mod_idemp_r. change (?x mod 4294967296) with (u32 x). do 2 f_equal.
    pose proof (end_of_aligned (take k l) base Hm). rewrite word_from_bytes by zlia. unfold bin_word.
    set (o := address r - ram_addr s) in *. rewrite <- !Z.add_assoc. rewrite !H1 by (try (intros []); lia). done.
Qed.
End Mod.

(** * The pass *)

Section Pass.
Context (parse_mod_symbols : list Z -> list Z -> option Context) (DependencyBaseRecomp DependencySelf : string) (hooks_available : bool).
Abbreviation run := (foldl (init_one parse_mod_symbols DependencyBaseRecomp DependencySelf hooks_available)).
Abbreviation a_mod := (nat * ModManifest * mod_files)%type.

Definition binary_of (f : mod_files) : list Z := default [] (mod_binary f).
Definition parsed (m : a_mod) : option Context := parse_mod_symbols (default [] (binary_syms (snd m))) (binary_of (snd m)).
Definition symbols_ok (c : Context) : Prop := Forall sizes_ok (sections c) /\ Forall (relocs_ok (sections c)) (sections c).
Definition ends (base : Z) (cs : list Context) : Z := foldl (fun a c => end_of (sections c) a) base cs.
Definition events_before (n : nat) (cs : list Context) : nat := foldl (fun n c => (n + num_events c)%nat) n cs.

Lemma ends_bounds cs : Forall symbols_ok cs -> forall base, base <= ends base cs.
Proof.
  induction 1 as [|c cs [Hc _] Hcs IH]; intros base; [unfold ends; simpl; lia|]. unfold ends in *. cbn [foldl].
  pose proof (end_of_bounds _ Hc base). pose proof (IH (end_of (sections c) base)). lia.
Qed.
Lemma init_mod_code_inv i mf f base (st st' : pass_state (M := M)) used :
  init_mod_code parse_mod_symbols DependencyBaseRecomp DependencySelf hooks_available i mf f base st = Some (inl used, st') ->
  exists c addresses cur m1 m2, parsed (i, mf, f) = Some c /\
    place_sections (binary_of f) (sections c) base (rdram st) = Some (addresses, cur, m1) /\
    relocate (sections c) addresses m1 = (true, m2) /\ used = u32 (cur - base) /\
    st' = MkPass m2 (total_events st + num_events c) (foldl add_hook_slot (hook_slots st) (hooks c))
            (<[i := MkCode c addresses (populate_exports c) (populate_events c)]> (code_of st)) (base_event_indices st).
Proof.
  unfold init_mod_code, parsed, binary_of. cbn [snd]. destruct (binary_syms f) as [sy|], (mod_binary f) as [b|]; try done;
    (destruct (parse_mod_symbols _ _) as [c|]; [|done]);
    (destruct (negb hooks_available && _); [done|]); (destruct (negb _); [done|]);
    (destruct (place_sections _ _ _ _) as [[[addresses cur] m1]|] eqn:Ep; [|done]); cbn [mbind option_bind];
    (destruct (relocate _ _ _) as [good m2] eqn:Er); (destruct good; [|done]);
    intros [= <- <-]; by eexists _, _, _, _, _.
Qed.
Lemma init_one_none (l : list a_mod) : run None l = None.
Proof. by induction l. Qed.
Lemma run_errors (l : list a_mod) : forall r0 r : pass_result (M := M), run (Some r0) l = Some r -> errors r = [] -> errors r0 = [].
Proof.
  induction l as [|[[i mf] f] l IH]; intros r0 r E Er; [by injection E as <-|]. cbn [foldl] in E.
  unfold init_one at 2 in E. cbn [mbind option_bind] in E.
  destruct (init_mod_code _ _ _ _ _ _ _ _ _) as [[[used|e] st]|]; cbn [mbind option_bind] in E; [| |by rewrite init_one_none in E].
  - exact (IH _ _ E Er).
  - pose proof (IH _ _ E Er) as H1. cbn in H1. by destruct (errors r0).
Qed.

(** The state after the pass from the state before it. *)
Definition pass_done (l : list a_mod) (cs : list Context) (r0 r : pass_result (M := M)) : Prop :=
  let base := next_address r0 in
  next_address r = ends base cs /\ ram_used r = u32 (ram_used r0 + (ends base cs - base)) /\
  total_events (state r) = events_before (total_events (state r0)) cs /\
  hook_slots (state r) = foldl (fun s c => foldl add_hook_slot s (hooks c)) (hook_slots (state r0)) cs /\
  (forall x, ~ base <= x < ends base cs -> rb x (rdram (state r)) = rb x (rdram (state r0))) /\
  (forall i, i ∉ ((fun x : a_mod => fst (fst x)) <$> l) ->
     code_of (state r) !! i = code_of (state r0) !! i /\ base_event_indices (state r) !! i = base_event_indices (state r0) !! i) /\
  forall k i mf f c, l !! k = Some (i, mf, f) -> cs !! k = Some c ->
    exists code, code_of (state r) !! i = Some code /\ recompiler_context code = c /\
      events_by_name code = populate_events c /\ exports_by_name code = populate_exports c /\
      base_event_indices (state r) !! i = Some (events_before (total_events (state r0)) (take k cs)) /\
      length (section_load_addresses code) = length (sections c) /\
      loaded_at (sections c) (section_load_addresses code) (binary_of f) (ends base (take k cs)) (rdram (state r)).

Lemma run_loads (l : list a_mod) cs : Forall2 (fun (x : a_mod) c => parsed x = Some c) l cs -> forall r0 r : pass_result (M := M),
  NoDup ((fun x : a_mod => fst (fst x)) <$> l) -> Forall symbols_ok cs ->
  is_u32 (ram_used r0) -> -2147483648 <= next_address r0 -> next_address r0 mod 16 = 0 -> ends (next_address r0) cs < 2147483648 ->
  run (Some r0) l = Some r -> errors r = [] -> pass_done l cs r0 r.
Proof.
  induction 1 as [|[[i mf] f] c l cs Hp Hl IH]; intros r0 r Hd Hs Hu Hb Hm He E Er.
  { injection E as <-. unfold pass_done, ends, events_before. cbn [foldl].
    split; [done|]. split; [rewrite Z.sub_diag, Z.add_0_r; symmetry; by apply u32_small|]. by repeat (split; [done|]). }
  cbn in Hd. apply list.NoDup_cons in Hd as [Hi Hd]. inversion_clear Hs as [|? ? [Hsz Hrl] Hcs]. cbn [foldl] in E.
  unfold init_one at 2 in E. cbn [mbind option_bind] in E.
  destruct (init_mod_code _ _ _ _ i mf f (next_address r0) (state r0)) as [[[used|e] st]|] eqn:Ei; cbn [mbind option_bind] in E;
    [| |by rewrite init_one_none in E].
  2:{ pose proof (run_errors _ _ _ E Er) as H1. cbn in H1. by destruct (errors r0). }
  apply init_mod_code_inv in Ei as (c' & addresses & cur & m1 & m2 & Ep & Epl & Erl & -> & ->).
  assert (c' = c) as -> by congruence. set (base := next_address r0) in *.
  change (ends base (c :: cs)) with (ends (end_of (sections c) base) cs) in *.
  pose proof (end_of_bounds _ Hsz base) as Hb1. pose proof (ends_bounds cs Hcs (end_of (sections c) base)) as Hb2.
  destruct (mod_loaded (sections c) addresses Hsz Hrl _ _ _ _ _ _ _ Hb ltac:(lia) Hm Epl Erl) as (_ & -> & Hlen & Hload & Hfr).
  assert (u32 (end_of (sections c) base - base) = end_of (sections c) base - base) as Eu by (apply u32_small; unfold is_u32; lia).
  rewrite Eu in E. replace (base + (end_of (sections c) base - base)) with (end_of (sections c) base) in E by lia.
  assert (s32 (end_of (sections c) base) = end_of (sections c) base) as Es by (apply s32_small; unfold is_s32; lia). rewrite Es in E.
  apply IH in E; [|done|done|apply u32_range|cbn; lia|cbn; by apply end_of_aligned|done|done].
  destruct E as (E1 & E2 & E3 & E4 & E5 & E6 & E7). cbn [next_address ram_used state rdram total_events hook_slots code_of base_event_indices] in *.
  unfold pass_done. change (ends (next_address r0) (c :: cs)) with (ends (end_of (sections c) base) cs). fold base.
  split; [done|]. split.
  { rewrite E2. unfold u32. rewrite Zplus_mod_idemp_l. f_equal. lia. }
  split; [done|]. split; [done|]. split.
  { intros y Hy. rewrite E5 by lia. apply Hfr. lia. }
  split.
  { intros j Hj. cbn in Hj. apply not_elem_of_cons in Hj as [Hne Hj]. destruct (E6 j Hj) as [-> ->]. by rewrite !lookup_insert_ne. }
  intros [|k] i' mf' f' c' Ek Ec; cbn in Ek, Ec.
  - injection Ek as <- <- <-. injection Ec as <-. destruct (E6 i Hi) as [-> ->]. rewrite !lookup_insert_eq. eexists. split; [done|].
    repeat (split; [done|]). eapply loaded_at_frame; [done|done|done| |exact Hload]. intros y Hy.
    change (base <= y < end_of (sections c) base) in Hy. apply E5. lia.
  - exact (E7 k i' mf' f' c' Ek Ec).
Qed.
Lemma run_parsed (l : list a_mod) : forall r0 r : pass_result (M := M), run (Some r0) l = Some r -> errors r = [] ->
  exists cs, Forall2 (fun (x : a_mod) c => parsed x = Some c) l cs.
Proof.
  induction l as [|[[i mf] f] l IH]; intros r0 r E Er; [by exists []|]. cbn [foldl] in E.
  unfold init_one at 2 in E. cbn [mbind option_bind] in E.
  destruct (init_mod_code _ _ _ _ _ _ _ _ _) as [[[used|e] st]|] eqn:Ei; cbn [mbind option_bind] in E; [| |by rewrite init_one_none in E].
  - apply init_mod_code_inv in Ei as (c & _ & _ & _ & _ & Ep & _). destruct (IH _ _ E Er) as [cs Hcs]. exists (c :: cs). by constructor.
  - pose proof (run_errors _ _ _ E Er) as H1. cbn in H1. by destruct (errors r0).
Qed.

(** Section [p] of mod [k], and where it goes. *)
Definition section_at (cs : list Context) (k p : nat) : option Section_ := c ← cs !! k; sections c !! p.
Definition place (base : Z) (cs : list Context) (k p : nat) : Z :=
  end_of (take p (from_option sections [] (cs !! k))) (ends base (take k cs)).
Lemma ends_app cs1 cs2 base : ends base (cs1 ++ cs2) = ends (ends base cs1) cs2.
Proof. apply foldl_app. Qed.
Lemma ends_take_S cs k c base : cs !! k = Some c -> ends base (take (S k) cs) = end_of (sections c) (ends base (take k cs)).
Proof. intros E. by rewrite (take_S_r _ _ _ E), ends_app. Qed.
Lemma ends_take_le cs k j base : Forall symbols_ok cs -> (k <= j)%nat -> ends base (take k cs) <= ends base (take j cs).
Proof.
  intros Hl Hk. replace (take k cs) with (take k (take j cs)) by (rewrite take_take; f_equal; lia).
  rewrite <- (take_drop k (take j cs)) at 2. rewrite ends_app. apply ends_bounds. by apply Forall_drop, Forall_take.
Qed.
Lemma places_apart cs base k p s k' p' s' : Forall symbols_ok cs -> section_at cs k p = Some s -> fixed_address s = false ->
  section_at cs k' p' = Some s' -> (k < k')%nat \/ k = k' /\ (p < p')%nat ->
  place base cs k p + size s + bss_size s + 0x400 <= place base cs k' p'.
Proof.
  unfold section_at, place. intros Hc E Ef E' Hlt. destruct (cs !! k) as [c|] eqn:Ek; [|done]. destruct (cs !! k') as [c'|] eqn:Ek'; [|done].
  cbn [mbind option_bind from_option] in *. destruct (Forall_lookup_1 _ _ _ _ Hc Ek) as [Hz _]. destruct (Forall_lookup_1 _ _ _ _ Hc Ek') as [Hz' _].
  destruct (end_of_take (sections c) p s (ends base (take k cs)) Hz E Ef) as [H1 H2]. destruct Hlt as [Hlt|[-> Hlt]].
  - pose proof (end_of_bounds (take p' (sections c')) (Forall_take _ _ _ Hz') (ends base (take k' cs))).
    pose proof (ends_take_le cs (S k) k' base Hc ltac:(lia)) as H3. rewrite (ends_take_S _ _ _ _ Ek) in H3. lia.
  - assert (c' = c) as -> by congruence. pose proof (end_of_take_le (sections c) (S p) p' (ends base (take k' cs)) Hz ltac:(lia)). lia.
Qed.

(** The first pass puts the sections of all code mods one after another in guest memory, aligned and never overlapping, with each section's bytes there and each internal relocation moved by the distance its target moved, writes nothing below or above them, and fills the tables of events, exports and hook slots, numbered in order. *)
Theorem code_mods_are_loaded (l : list a_mod) base (st : pass_state (M := M)) r :
  NoDup ((fun x : a_mod => fst (fst x)) <$> l) -> (forall (x : a_mod) c, x ∈ l -> parsed x = Some c -> symbols_ok c) ->
  -2147483648 <= base -> base mod 16 = 0 ->
  first_pass parse_mod_symbols DependencyBaseRecomp DependencySelf hooks_available base l st = Some r -> errors r = [] ->
  exists cs, Forall2 (fun (x : a_mod) c => parsed x = Some c) l cs /\
    (ends base cs < 2147483648 ->
     pass_done l cs (Result [] base 0 st) r /\
     forall k p s k' p' s', section_at cs k p = Some s -> fixed_address s = false -> section_at cs k' p' = Some s' ->
       (k < k')%nat \/ k = k' /\ (p < p')%nat -> place base cs k p + size s + bss_size s + 0x400 <= place base cs k' p').
Proof.
  intros Hd Hs Hb Hm E Er. unfold first_pass in E. destruct (run_parsed _ _ _ E Er) as [cs Hcs]. exists cs. split; [done|]. intros He.
  assert (Forall symbols_ok cs) as Hok.
  { apply Forall_lookup_2. intros k c Ec. destruct (Forall2_lookup_r _ _ _ _ _ Hcs Ec) as (x & Ex & Hp).
    apply (Hs x c); [by eapply list_elem_of_lookup_2|done]. }
  split; [by apply run_loads; try done; unfold is_u32; cbn; lia|]. intros *. by apply places_apart.
Qed.
End Pass.
End Spec.
