(* ===== verification/ModLink.v ===== *)
(** The code of mods, second and third pass: librecomp/src/mods.cpp,
    [load_mod_code], [resolve_code_dependencies], [regenerate_with_hooks] and
    [unload_mods].

    Each mod's functions are recompiled and published at their addresses; then its
    imports are bound, its callbacks and hooks registered, and the functions it
    replaces are overwritten by a jump to the replacement, the original bytes kept.
    A hooked function that no mod replaces is recompiled with its hooks and
    overwritten as well, and there its bytes are not kept.  Functions are host addresses and the host's code is an array of bytes.  The
    recompiler, the shims and shared libraries are parameters. *)

From Stdlib Require Import ZArith Lia Bool List.
From stdpp Require Import base list gmap strings option.
From S2P Require Import Prelude GuestMem Overlays ModManager ModHooks Rom ModSections.
Open Scope Z_scope.

Record PatchData := MkPatch { replaced_bytes : list Z; patch_mod_id : string }.
(** A shared library: its version (0xFFFFFFFF when it has none), its symbols. *)
Record dll := MkDll { dll_api_version : Z; symbols : gmap string Z }.
(** A mod's code, once it is loaded: [get_function_handle], and what is left to resolve. *)
Record code_handle := MkHandle { recompiled : list Z; reference_jumps : list (nat * Z); handle_base_event_index : nat }.

Record link_state := MkLink {
  code_handles : gmap nat code_handle; native_library_exports : gmap nat (gmap string Z); func_map : gmap Z Z;
  imported : gmap (nat * nat) Z; section_addresses : gmap nat (list Z); processed_hook_slots : list bool;
  hook_table : list (HookSlot Z); event_table : list (list (RegisteredHook Z));
  patched_funcs : gmap Z PatchData; host : hostmem }.

(** * Actions

    An error stops the mod at hand; [None] is undefined behaviour. *)

Definition action (A : Type) : Type := link_state -> option ((A + CodeModLoadError) * link_state).
Definition ret {A} (a : A) : action A := fun s => Some (inl a, s).
Definition fail {A} (e : CodeModLoadError) : action A := fun s => Some (inr e, s).
Definition undefined {A} : action A := fun _ => None.
Definition get {A} (f : link_state -> A) : action A := fun s => Some (inl (f s), s).
Definition modify (f : link_state -> link_state) : action unit := fun s => Some (inl tt, f s).
Definition bind {A B} (m : action A) (k : A -> action B) : action B := fun s =>
  match m s with
  | None => None
  | Some (inr e, s) => Some (inr e, s)
  | Some (inl a, s) => k a s
  end.
Declare Scope action_scope.
Delimit Scope action_scope with action.
Notation "x <- m ;; k" := (bind m (fun x => k)) (at level 100, m at next level, right associativity) : action_scope.
Notation "m ;; k" := (bind m (fun _ => k)) (at level 100, right associativity) : action_scope.
(** [f] on each element in order. *)
Fixpoint each {A} (f : A -> action unit) (l : list A) : action unit :=
  match l with [] => ret tt | a :: l => bind (f a) (fun _ => each f l) end.
Definition checked {A} (o : option A) : action A := match o with Some a => ret a | None => undefined end.
Definition required {A} (e : CodeModLoadError) (o : option A) : action A := match o with Some a => ret a | None => fail e end.
Definition guard (e : CodeModLoadError) (b : bool) : action unit := if b then ret tt else fail e.

Definition set_code_handle (i : nat) (h : code_handle) (s : link_state) : link_state :=
  MkLink (<[i := h]> (code_handles s)) (native_library_exports s) (func_map s) (imported s) (section_addresses s) (processed_hook_slots s) (hook_table s) (event_table s) (patched_funcs s) (host s).
Definition reset_code_handle (i : nat) (s : link_state) : link_state :=
  MkLink (delete i (code_handles s)) (native_library_exports s) (func_map s) (imported s) (section_addresses s) (processed_hook_slots s) (hook_table s) (event_table s) (patched_funcs s) (host s).
Definition set_native_exports (i : nat) (t : gmap string Z) (s : link_state) : link_state :=
  MkLink (code_handles s) (<[i := t]> (native_library_exports s)) (func_map s) (imported s) (section_addresses s) (processed_hook_slots s) (hook_table s) (event_table s) (patched_funcs s) (host s).
Definition add_loaded_function (ram f : Z) (s : link_state) : link_state :=
  MkLink (code_handles s) (native_library_exports s) (<[ram := f]> (func_map s)) (imported s) (section_addresses s) (processed_hook_slots s) (hook_table s) (event_table s) (patched_funcs s) (host s).
Definition set_imported_function (i import_index : nat) (f : Z) (s : link_state) : link_state :=
  MkLink (code_handles s) (native_library_exports s) (func_map s) (<[(i, import_index) := f]> (imported s)) (section_addresses s) (processed_hook_slots s) (hook_table s) (event_table s) (patched_funcs s) (host s).
Definition set_section_addresses (i : nat) (l : list Z) (s : link_state) : link_state :=
  MkLink (code_handles s) (native_library_exports s) (func_map s) (imported s) (<[i := l]> (section_addresses s)) (processed_hook_slots s) (hook_table s) (event_table s) (patched_funcs s) (host s).
Definition set_processed (l : list bool) (s : link_state) : link_state :=
  MkLink (code_handles s) (native_library_exports s) (func_map s) (imported s) (section_addresses s) l (hook_table s) (event_table s) (patched_funcs s) (host s).
Definition set_hook_table (t : list (HookSlot Z)) (s : link_state) : link_state :=
  MkLink (code_handles s) (native_library_exports s) (func_map s) (imported s) (section_addresses s) (processed_hook_slots s) t (event_table s) (patched_funcs s) (host s).
Definition set_event_table (t : list (list (RegisteredHook Z))) (s : link_state) : link_state :=
  MkLink (code_handles s) (native_library_exports s) (func_map s) (imported s) (section_addresses s) (processed_hook_slots s) (hook_table s) t (patched_funcs s) (host s).
Definition set_patched (p : gmap Z PatchData) (h : hostmem) (s : link_state) : link_state :=
  MkLink (code_handles s) (native_library_exports s) (func_map s) (imported s) (section_addresses s) (processed_hook_slots s) (hook_table s) (event_table s) p h.

(** * Patching *)

Inductive architecture := X86_64 | ARM64.
Fixpoint write_bytes (a : Z) (l : list Z) (m : hostmem) : hostmem :=
  match l with [] => m | b :: l => write_bytes (a + 1) l (<[a := u8 b]> m) end.
Fixpoint le_bytes (n : nat) (v : Z) : list Z := match n with O => [] | S n => u8 v :: le_bytes n (v / 256) end.
(** A jump to [dest]: [movabs rax, dest; jmp rax], or [ldr x2, 8; br x2; dest]. *)
Definition trampoline (arch : architecture) (dest : Z) : list Z :=
  match arch with
  | X86_64 => [0x48; 0xB8] ++ le_bytes 8 dest ++ [0xFF; 0xE0]
  | ARM64 => [0x42; 0x00; 0x00; 0x58; 0x40; 0x00; 0x1F; 0xD6] ++ le_bytes 8 dest
  end.
Definition patch_func (arch : architecture) (target_func replacement_func : Z) (m : hostmem) : hostmem :=
  write_bytes target_func (trampoline arch replacement_func) m.
Definition unpatch_func (target_func : Z) (data : PatchData) (m : hostmem) : hostmem :=
  write_bytes target_func (replaced_bytes data) m.
Definition bytes_at (n : nat) (a : Z) (m : hostmem) : list Z := (fun k => hbyte m (a + Z.of_nat k)) <$> seq 0 n.

(** * Regenerated functions *)

(** A hook with its slot. *)
Abbreviation hook_at := (HookDefinition * nat)%type.
Record RelocEntry := MkRelocEntry { reloc_offset : Z; reloc_target_section_offset : Z; reloc_target_section : nat; reloc_type : Z }.
Record RegeneratedSection := MkRegenSection {
  regen_rom_addr : Z; regen_ram_addr : Z; original_index : nat; first_func_index : nat; first_reloc_index : nat; relocatable : bool }.
Record RegeneratedFunction := MkRegenFunction { section_offset : Z; func_size : Z }.
(** [RegeneratedReloc] has the fields of [RelocEntry]. *)
Record RegeneratedList := MkRegenList {
  regen_sections : list RegeneratedSection; regen_functions : list RegeneratedFunction; regen_relocs : list RelocEntry;
  func_ptrs : list (option Z); entry_func_hooks : gmap Z nat; return_func_hooks : gmap Z nat;
  patched_hooks : list ((nat * nat) * hook_at) }.
Definition no_regen : RegeneratedList := MkRegenList [] [] [] [] ∅ ∅ [].

(** What the recompiler is given: [context_from_regenerated_list]. The index of
    functions by address follows from their list. *)
Record HookReloc := MkHookReloc { hook_address : Z; hook_target_offset : Z; hook_symbol_index : Z; hook_target_section : nat; hook_type : Z }.
Record HookFunction := MkHookFunction { hook_vram : Z; hook_rom : Z; words : list Z; hook_section_index : nat }.
Record HookSection := MkHookSection {
  hook_rom_addr : Z; hook_ram_addr : Z; hook_relocatable : bool; section_functions : list nat; hook_relocs : list HookReloc }.
Record HookContext := MkHookContext { hook_sections : list HookSection; hook_functions : list HookFunction }.

(** [n] words of the image as the host reads them; past its end is undefined. *)
Definition host_words (rom : list Z) (a n : Z) : option (list Z) :=
  if Z.of_nat (length rom) <? a + 4 * n then None
  else Some ((fun k => foldr (fun b v => b + 256 * v) 0 (take 4 (drop (Z.to_nat a + 4 * k) rom))) <$> seq 0 (Z.to_nat n)).
(** The functions or relocations of section [k] end where those of the next one begin. *)
Definition list_end (first : RegeneratedSection -> nat) (total k : nat) (r : RegeneratedList) : nat :=
  from_option first total (regen_sections r !! S k).
Definition hook_function (r : RegeneratedList) (rom : list Z) (k : nat) (s : RegeneratedSection) (function_index : nat) : option HookFunction :=
  f ← regen_functions r !! function_index;
  let a := u32 (regen_rom_addr s + section_offset f) in
  w ← host_words rom a (func_size f / 4);
  Some (MkHookFunction (u32 (regen_ram_addr s + section_offset f)) a w k).
Definition hook_reloc (section_event : nat) (s : RegeneratedSection) (e : RelocEntry) : HookReloc :=
  MkHookReloc (u32 (reloc_offset e + regen_ram_addr s)) (reloc_target_section_offset e)
    (if (reloc_target_section e =? section_event)%nat then reloc_target_section_offset e else 0) (reloc_target_section e) (reloc_type e).
Definition hook_section (section_event : nat) (r : RegeneratedList) (rom : list Z) (k : nat) (s : RegeneratedSection) : option (HookSection * list HookFunction) :=
  let fs := seq (first_func_index s) (list_end first_func_index (length (regen_functions r)) k r - first_func_index s) in
  let n := (list_end first_reloc_index (length (regen_relocs r)) k r - first_reloc_index s)%nat in
  l ← mapM (hook_function r rom k s) fs;
  Some (MkHookSection (regen_rom_addr s) (regen_ram_addr s) (relocatable s) fs
          (hook_reloc section_event s <$> take n (drop (first_reloc_index s) (regen_relocs r))), l).
Definition context_from_regenerated_list (section_event : nat) (r : RegeneratedList) (rom : list Z) : option HookContext :=
  l ← mapM (fun ks => hook_section section_event r rom (fst ks) (snd ks)) (imap pair (regen_sections r));
  Some (MkHookContext (fst <$> l) (mjoin (snd <$> l))).

(** [build_regen_list] between two hooks: the section and the function at hand, the
    relocations ahead, whether the patches of the game override the function. *)
Record regen_cursor := MkCursor {
  cur_section_rom : Z; cur_section_vram : Z; cur_section_index : option nat; cur_section_relocs : list RelocEntry;
  cur_function_vram : Z; cur_base_patched : option (nat * nat); regenlist : RegeneratedList }.
Definition regen_start : regen_cursor := MkCursor 0xFFFFFFFF 0xFFFFFFFF None [] 0xFFFFFFFF None no_regen.
Fixpoint drop_while {A} (f : A -> bool) (l : list A) : list A := match l with a :: l' => if f a then drop_while f l' else l | [] => [] end.
Fixpoint take_while {A} (f : A -> bool) (l : list A) : list A := match l with a :: l' => if f a then a :: take_while f l' else [] | [] => [] end.

Section Link.
(** The context, and what the first pass left. *)
Context (arch : architecture) (context : ModContext) (code_of : gmap nat mod_code) (hook_slots : gmap HookDefinition nat)
  (base_event_indices : gmap nat nat) (DependencyBaseRecomp DependencySelf : string).
(** The game's sections and tables (overlays.cpp). *)
Context (code_sections : list (SectionTableEntry Z)) (code_sections_by_rom : gmap Z nat) (section_absolute : nat)
  (manual_patch_symbols_by_vram : gmap Z Z) (base_exports ext_base_exports : gmap string Z)
  (base_events : gmap string nat) (base_patched_funcs : gmap Z (nat * nat)).
(** The recompiler, by mod and hooked functions; the library of an offline mod, if
    it can be opened; a mod's native libraries; the shim of an extended export
    or of an unmet import. *)
Context (recompile : nat -> gmap nat nat -> gmap nat nat -> option (list Z * list (nat * Z)))
  (is_offline : nat -> bool) (offline_library : nat -> option dll) (is_regular_reference_section : nat -> bool)
  (native_libraries : nat -> list (option dll * list string)) (shim_of_export : Z -> nat -> Z) (shim_of_unmet : Z -> Z).
Import N64Recomp.
Open Scope action_scope.

Definition code_at (i : nat) : action mod_code := checked (code_of !! i).
Definition get_function_handle (i func_index : nat) : action Z :=
  h <- get (fun s => code_handles s !! i);; h <- checked h;; checked (recompiled h !! func_index).

(** * The second pass *)

Definition validate_api_version (api_version : Z) : option CodeModLoadError :=
  if api_version =? 1 then None
  else if api_version =? 0xFFFFFFFF then Some NoSpecifiedApiVersion else Some UnsupportedApiVersion.
Definition check_api_version (api_version : Z) : action unit :=
  match validate_api_version api_version with None => ret tt | Some e => fail e end.

(** The slots of a function's hooks go with its replacement. *)
Definition mark_processed (slot : nat) : action unit :=
  l <- get processed_hook_slots;;
  match l !! slot with None => undefined | Some _ => modify (set_processed (<[slot := true]> l)) end.
Definition take_hooks (at_return : bool) (table : gmap nat nat) (r : FunctionReplacement) : action (gmap nat nat) :=
  match hook_slots !! Def (repl_section_vrom r) (repl_vram r) at_return with
  | None => ret table
  | Some slot => mark_processed slot;; ret (match table !! repl_func_index r with Some _ => table | None => <[repl_func_index r := slot]> table end)
  end.
Fixpoint replaced_hooks (l : list FunctionReplacement) (entry return_ : gmap nat nat) : action (gmap nat nat * gmap nat nat) :=
  match l with
  | [] => ret (entry, return_)
  | r :: l => entry <- take_hooks false entry r;; return_ <- take_hooks true return_ r;; replaced_hooks l entry return_
  end.

(** [DynamicLibraryCodeHandle]: every function by its name, and fixed names. *)
Definition well_known : list string :=
  ["imported_funcs"; "reference_symbol_funcs"; "base_event_index"; "recomp_trigger_event"; "get_function"; "cop0_status_write";
   "cop0_status_read"; "switch_error"; "do_break"; "reference_section_addresses"; "section_addresses"]%string.
Definition function_symbol (i : nat) (f : Function_) : string :=
  if bool_decide (name f = ""%string) then ("mod_func_" +:+ int_to_string (Z.of_nat i))%string else name f.
Definition library_jumps (c : Context) : list (nat * Z) :=
  omap (fun r => match type r with
                 | R_MIPS_26 => if reference_symbol r && is_regular_reference_section (target_section r)
                                then Some (target_section r, target_section_offset r) else None
                 | _ => None
                 end) (mjoin (relocs <$> sections c)).
Definition library_handle (d : dll) (c : Context) (base_event_index : nat) : option code_handle :=
  fs ← mapM (fun s => symbols d !! s) (imap function_symbol (functions c));
  if forallb (fun s => bool_decide (is_Some (symbols d !! s))) well_known
  then Some (MkHandle fs (library_jumps c) base_event_index) else None.

Definition load_native_library (i : nat) (lib : option dll * list string) : action unit :=
  d <- required FailedToLoadNativeLibrary (fst lib);;
  check_api_version (dll_api_version d);;
  modify (set_native_exports i ∅);;
  each (fun export_name =>
    t <- get (fun s => default ∅ (native_library_exports s !! i));;
    guard DuplicateExport (bool_decide (t !! export_name = None));;
    f <- required FailedToFindNativeExport (symbols d !! export_name);;
    modify (set_native_exports i (<[export_name := f]> t))) (snd lib).

Definition publish (i : nat) (c : mod_code) (fi : nat * Function_) : action unit :=
  let '(func_index, f) := fi in
  match sections (recompiler_context c) !! section_index f with
  | None => fail FailedToParseSyms
  | Some s =>
      loaded <- checked (section_load_addresses c !! section_index f);;
      h <- get_function_handle i func_index;;
      modify (add_loaded_function (s32 (u32 (vram f - ram_addr s + loaded))) h)
  end.

Definition make_handle (i : nat) (c : Context) (entry return_ : gmap nat nat) : action unit :=
  let base_event_index := default 0%nat (base_event_indices !! i) in
  if is_offline i then
    guard OfflineModHooked (bool_decide (entry = ∅) && bool_decide (return_ = ∅));;
    modify (reset_code_handle i);;
    d <- required FailedToLoadNativeCode (offline_library i);;
    h <- required FailedToLoadNativeCode (library_handle d c base_event_index);;
    modify (set_code_handle i h);;
    check_api_version (dll_api_version d)
  else
    modify (reset_code_handle i);;
    r <- required FailedToRecompile (recompile i entry return_);;
    modify (set_code_handle i (MkHandle (fst r) (snd r) base_event_index)).
Definition load_mod_code (i : nat) : action unit :=
  c <- code_at i;;
  hooked <- replaced_hooks (replacements (recompiler_context c)) ∅ ∅;;
  make_handle i (recompiler_context c) (fst hooked) (snd hooked);;
  each (load_native_library i) (native_libraries i);;
  each (publish i c) (imap pair (functions (recompiler_context c))).

(** * The third pass *)

(** ** Imports *)

Definition get_func_by_section_rom_function_vram (section_rom function_vram : Z) : option Z :=
  i ← code_sections_by_rom !! section_rom;
  get_func_by_section_index_function_offset code_sections section_absolute manual_patch_symbols_by_vram i
    (u32 (function_vram - Overlays.ram_addr (sec code_sections i))).
Definition populate_reference_symbols (i : nat) : action unit :=
  h <- get (fun s => code_handles s !! i);;
  h <- checked h;;
  each (fun '(section, offset) =>
    guard InvalidReferenceSymbol
      (bool_decide (is_Some (get_func_by_section_index_function_offset code_sections section_absolute manual_patch_symbols_by_vram section offset))))
    (reference_jumps h).

(** The code's own exports come before those of its native libraries. *)
Definition get_export_function (i : nat) (export_name : string) : action (option Z) :=
  match c ← code_of !! i; exports_by_name c !! export_name with
  | Some func_index => h <- get_function_handle i func_index;; ret (Some h)
  | None => t <- get (fun s => default ∅ (native_library_exports s !! i));; ret (t !! export_name)
  end.
Definition shim_argument (import_index mod_index : nat) : Z :=
  Z.lor (Z.shiftl (Z.land (Z.of_nat import_index) 0xFFFFFFFF) 32) (Z.land (Z.of_nat mod_index) 0xFFFFFFFF).
(** The mod and the import that [unmet_dependency_handler] names. *)
Definition unpack_shim_argument (arg : Z) : Z * Z := (Z.land arg 0xFFFFFFFF, Z.land (Z.shiftr arg 32) 0xFFFFFFFF).
Definition manifest_dependency (i : nat) (id : string) : option Dependency :=
  m ← opened_mods context !! i; find (fun d => bool_decide (dep_mod_id d = id)) (dependencies (manifest m)).
Definition find_import (i import_index : nat) (dependency_id imported_name : string) : action (option Z) :=
  if bool_decide (dependency_id = DependencyBaseRecomp) then
    ret (match base_exports !! imported_name with
         | Some f => Some f
         | None => (fun f => shim_of_export f i) <$> ext_base_exports !! imported_name
         end)
  else if bool_decide (dependency_id = DependencySelf) then get_export_function i imported_name
  else match loaded_mods_by_id context !! dependency_id with
       | Some j => get_export_function j imported_name
       | None =>
           match manifest_dependency i dependency_id with
           | Some _ => ret (Some (shim_of_unmet (shim_argument import_index i)))
           | None => fail InternalError
           end
       end.
Definition bind_import (i : nat) (c : Context) (x : nat * ImportSymbol) : action unit :=
  let '(import_index, imported_func) := x in
  dependency_id <- checked (dependencies_ordered c !! dependency_index imported_func);;
  f <- find_import i import_index dependency_id (import_name imported_func);;
  f <- required InvalidImport f;;
  modify (set_imported_function i import_index f).

(** ** Events and hooks *)

Definition get_global_event_index (i : nat) (event_name : string) : action (option nat) :=
  match c ← code_of !! i; events_by_name c !! event_name with
  | None => ret None
  | Some local => h <- get (fun s => code_handles s !! i);; h <- checked h;; ret (Some (handle_base_event_index h + local)%nat)
  end.
(** The event, or whether it may be missing. *)
Definition find_event (i : nat) (dependency_id event_name : string) : action (option nat * bool) :=
  if bool_decide (dependency_id = DependencyBaseRecomp) then ret (base_events !! event_name, false)
  else if bool_decide (dependency_id = DependencySelf) then e <- get_global_event_index i event_name;; ret (e, false)
  else match loaded_mods_by_id context !! dependency_id with
       | None => if from_option optional false (manifest_dependency i dependency_id) then ret (None, true) else fail InternalError
       | Some j => e <- get_global_event_index j event_name;; ret (e, false)
       end.
Definition add_callback (i : nat) (c : Context) (callback : Callback) : action unit :=
  dependency_event <- checked (dependency_events c !! dependency_event_index callback);;
  dependency_id <- checked (dependencies_ordered c !! event_dependency_index dependency_event);;
  func <- get_function_handle i (function_index callback);;
  found <- find_event i dependency_id (event_name dependency_event);;
  match found with
  | (Some event_index, _) =>
      t <- get event_table;; t <- checked (register_event_callback event_index i func t);; modify (set_event_table t)
  | (None, optional) => guard InvalidCallbackEvent optional
  end.
Definition add_hook (i : nat) (h : FunctionHook) : action unit :=
  slot <- required InternalError (hook_slots !! hook_definition h);;
  func <- get_function_handle i (hook_func_index h);;
  t <- get hook_table;; t <- checked (register_hook slot i func t);; modify (set_hook_table t).

(** ** Replacements *)

Definition replace_function (i : nat) (r : FunctionReplacement) : action unit :=
  to_replace <- required InvalidFunctionReplacement (get_func_by_section_rom_function_vram (repl_section_vrom r) (repl_vram r));;
  guard BaseRecompConflict (Force r || bool_decide (base_patched_funcs !! to_replace = None));;
  patched <- get patched_funcs;;
  guard ModConflict (bool_decide (patched !! to_replace = None));;
  m <- get host;;
  id <- checked (mod_id ∘ manifest <$> opened_mods context !! i);;
  replacement <- get_function_handle i (repl_func_index r);;
  modify (set_patched (<[to_replace := MkPatch (bytes_at 16 to_replace m) id]> patched) (patch_func arch to_replace replacement m)).

(** Imports, callbacks, hooks and the sections' addresses. *)
Definition link_names (i : nat) (c : mod_code) : action unit :=
  populate_reference_symbols i;;
  each (bind_import i (recompiler_context c)) (imap pair (import_symbols (recompiler_context c)));;
  each (add_callback i (recompiler_context c)) (callbacks (recompiler_context c));;
  each (add_hook i) (hooks (recompiler_context c));;
  modify (set_section_addresses i (section_load_addresses c)).
Definition resolve_code_dependencies (i : nat) : action unit :=
  c <- code_at i;;
  link_names i c;;
  each (replace_function i) (replacements (recompiler_context c)).

(** * The passes together *)

(** One pass over the mods: an error is kept, and the next mod is tried. *)
Definition pass_step (f : nat -> action unit) (acc : option (list (nat * CodeModLoadError) * link_state)) (i : nat) :
    option (list (nat * CodeModLoadError) * link_state) :=
  '(errors, s) ← acc;
  '(x, s) ← f i s;
  Some (match x with inl _ => errors | inr e => errors ++ [(i, e)] end, s).
Definition run_pass (f : nat -> action unit) (l : list nat) (s : link_state) : option (list (nat * CodeModLoadError) * link_state) :=
  foldl (pass_step f) (Some ([], s)) l.
Definition unpatch_all (patched : list (Z * PatchData)) (m : hostmem) : hostmem :=
  foldl (fun m '(f, d) => unpatch_func f d m) m patched.
(** [unload_mods]: the functions come back in the order of the hash table. *)
Definition unload (s : link_state) : link_state :=
  MkLink (code_handles s) (native_library_exports s) (func_map s) (imported s) (section_addresses s) [] reset_hooks reset_events ∅
    (unpatch_all (map_to_list (patched_funcs s)) (host s)).
(** The second and third pass, after room is made for the events and the hooks. *)
Definition link_mods (num_events : nat) (l : list nat) (s : link_state) : option (list (nat * CodeModLoadError) * link_state) :=
  let n := base.size hook_slots in
  let s := set_processed (replicate n false) (set_hook_table (setup_hooks n (hook_table s)) (set_event_table (setup_events num_events (event_table s)) s)) in
  '(errors, s) ← run_pass load_mod_code l s;
  match errors with
  | _ :: _ => Some (errors, unload s)
  | [] =>
      '(errors, s) ← run_pass resolve_code_dependencies l s;
      match errors with _ :: _ => Some (errors, unload s) | [] => Some ([], s) end
  end.
(** * Hooked functions *)

(** The tables that a list is built from: those of the game, or of its patches. *)
Context (section_relocs : nat -> list RelocEntry) (patch_code_sections : list (SectionTableEntry Z))
  (patch_code_sections_by_rom : gmap Z nat) (patch_relocs : nat -> list RelocEntry).
(** The images; the recompiler on functions, their hooks and the sections they come
    from; the two calls of [std::sort]. *)
Context (section_event : nat) (decompressed_rom patch_binary : list Z)
  (live_generator : HookContext -> gmap Z nat -> gmap Z nat -> list nat -> option (list Z * list (nat * Z)))
  (sort_hooks : list hook_at -> list hook_at)
  (std_sort : (RegisteredHook Z -> RegisteredHook Z -> bool) -> list (RegisteredHook Z) -> list (RegisteredHook Z)).

Definition regen_table (patched : bool) : list (SectionTableEntry Z) := if patched then patch_code_sections else code_sections.
Definition regen_by_rom (patched : bool) : gmap Z nat := if patched then patch_code_sections_by_rom else code_sections_by_rom.
Definition regen_section_relocs (patched : bool) (i : nat) : list RelocEntry := if patched then patch_relocs i else section_relocs i.
Definition start_section (patched : bool) (def : HookDefinition) (c : regen_cursor) : action regen_cursor :=
  if section_rom def =? cur_section_rom c then ret c
  else
    i <- required InvalidHook (regen_by_rom patched !! section_rom def);;
    s <- checked (regen_table patched !! i);;
    let rs := regen_section_relocs patched i in
    let r := regenlist c in
    ret (MkCursor (section_rom def) (Overlays.ram_addr s) (Some i) rs 0xFFFFFFFF (cur_base_patched c)
      (MkRegenList (regen_sections r ++ [MkRegenSection (section_rom def) (Overlays.ram_addr s) i (length (regen_functions r)) (length (regen_relocs r))
                                           (negb patched && negb (length rs =? 0)%nat)])
        (regen_functions r) (regen_relocs r) (func_ptrs r) (entry_func_hooks r) (return_func_hooks r) (patched_hooks r))).
Definition overridden (patched : bool) (e : FuncEntry Z) : option (nat * nat) :=
  if patched then None else f ← Overlays.func e; base_patched_funcs !! f.
Definition start_function (patched : bool) (def : HookDefinition) (c : regen_cursor) : action regen_cursor :=
  if function_vram def =? cur_function_vram c then ret c
  else
    let off := u32 (function_vram def - cur_section_vram c) in
    e <- required InvalidHook (i ← cur_section_index c; get_func_entry_by_section_index_function_offset (regen_table patched) i off);;
    guard CannotBeHooked (negb (Overlays.rom_size e =? 0));;
    let base := overridden patched e in
    let r := regenlist c in
    let ahead := drop_while (fun x => reloc_offset x <? off) (cur_section_relocs c) in
    let inside x := reloc_offset x <? off + Overlays.rom_size e in
    let added := bool_decide (base = None) in
    ret (MkCursor (cur_section_rom c) (cur_section_vram c) (cur_section_index c) (drop_while inside ahead) (function_vram def) base
      (MkRegenList (regen_sections r)
        (if added then regen_functions r ++ [MkRegenFunction off (Overlays.rom_size e)] else regen_functions r)
        (regen_relocs r ++ take_while inside ahead)
        (if added then func_ptrs r ++ [Overlays.func e] else func_ptrs r)
        (entry_func_hooks r) (return_func_hooks r) (patched_hooks r))).
Definition attach_hook (h : hook_at) (c : regen_cursor) : regen_cursor :=
  let r := regenlist c in
  let func_index := u64 (Z.of_nat (length (regen_functions r)) - 1) in
  MkCursor (cur_section_rom c) (cur_section_vram c) (cur_section_index c) (cur_section_relocs c) (cur_function_vram c) (cur_base_patched c)
    match cur_base_patched c with
    | Some b => MkRegenList (regen_sections r) (regen_functions r) (regen_relocs r) (func_ptrs r) (entry_func_hooks r) (return_func_hooks r) (patched_hooks r ++ [(b, h)])
    | None =>
        MkRegenList (regen_sections r) (regen_functions r) (regen_relocs r) (func_ptrs r)
          (if at_return (fst h) then entry_func_hooks r else <[func_index := snd h]> (entry_func_hooks r))
          (if at_return (fst h) then <[func_index := snd h]> (return_func_hooks r) else return_func_hooks r) (patched_hooks r)
    end.
Fixpoint regen_each (patched : bool) (l : list hook_at) (c : regen_cursor) : action regen_cursor :=
  match l with
  | [] => ret c
  | h :: l =>
      c <- start_section patched (fst h) c;;
      c <- start_function patched (fst h) c;;
      regen_each patched l (attach_hook h c)
  end.
Definition build_regen_list (patched : bool) (l : list hook_at) : action RegeneratedList :=
  c <- regen_each patched l regen_start;; ret (regenlist c).

Definition redirect (handles : list Z) (kp : nat * option Z) : action unit :=
  target <- checked (snd kp);; dest <- checked (handles !! fst kp);;
  modify (fun s => set_patched (patched_funcs s) (patch_func arch target dest (host s)) s).
(** [None] is the null handle: nothing has been redirected. *)
Definition apply_regenlist (r : RegeneratedList) (rom : list Z) : action (option (list Z)) :=
  c <- checked (context_from_regenerated_list section_event r rom);;
  match live_generator c (entry_func_hooks r) (return_func_hooks r) (original_index <$> regen_sections r) with
  | None => ret None
  | Some (handles, jumps) =>
      if forallb (fun j => bool_decide (is_Some (get_func_by_section_index_function_offset code_sections section_absolute manual_patch_symbols_by_vram (fst j) (snd j)))) jumps
      then each (redirect handles) (imap pair (func_ptrs r));; ret (Some handles)
      else ret None
  end.
(** A hook of a function that the game's patches override, in terms of the patches. *)
Definition patched_hook (x : (nat * nat) * hook_at) : option hook_at :=
  let '((ps, fi), (def, slot)) := x in
  s ← patch_code_sections !! ps; e ← Overlays.funcs s !! fi;
  Some (Def (Overlays.rom_addr s) (u32 (Overlays.ram_addr s + Overlays.offset e)) (at_return def), slot).
(** [regenerated_code_handle] and [base_patched_code_handle]. *)
Definition regenerate_with_hooks (l : list hook_at) : action (option (list Z) * option (list Z)) :=
  r <- build_regen_list false l;;
  regenerated <- (if bool_decide (regen_functions r = []) then ret None
                  else h <- apply_regenlist r decompressed_rom;; h <- required InternalError h;; ret (Some h));;
  if bool_decide (patched_hooks r = []) then ret (regenerated, None)
  else
    hs <- checked (mapM patched_hook (patched_hooks r));;
    r <- build_regen_list true (sort_hooks hs);;
    h <- apply_regenlist r patch_binary;; h <- required InternalError h;; ret (regenerated, Some h).

(** The hooks whose slots no replacement has taken. *)
Definition unprocessed_hooks (s : link_state) : option (list hook_at) :=
  l ← mapM (fun h : hook_at => b ← processed_hook_slots s !! snd h; Some (b, h)) (map_to_list hook_slots);
  Some (snd <$> filter (fun x => fst x = false) l).
Definition set_hook_types : action unit :=
  each (fun h : hook_at => t <- get hook_table;; t <- checked (set_hook_type (snd h) (at_return (fst h)) t);; modify (set_hook_table t)) (map_to_list hook_slots).
Definition regenerate : action unit :=
  l <- get unprocessed_hooks;; l <- checked l;;
  set_hook_types;;
  if bool_decide (l = []) then ret tt else bind (regenerate_with_hooks (sort_hooks l)) (fun _ => ret tt).
Definition finish_setup : action unit :=
  modify (fun s => set_hook_table (finish_hook_setup std_sort context (hook_table s)) (set_event_table (finish_event_setup std_sort context (event_table s)) s)).

(** The passes, and the hooked functions of the game after them; the error of the
    regeneration names no mod. *)
Definition load_code (num_events : nat) (l : list nat) (s : link_state) : option (list (option nat * CodeModLoadError) * link_state) :=
  '(errors, s) ← link_mods num_events l s;
  match errors with
  | _ :: _ => Some (prod_map Some id <$> errors, s)
  | [] =>
      '(x, s) ← regenerate s;
      match x with
      | inr e => Some ([(None, e)], unload s)
      | inl _ => '(_, s) ← finish_setup s; Some ([], s)
      end
  end.
End Link.
