(* ===== verification/ModLinkSpec.v ===== *)
(** The code of mods, second and third pass: whatever the mods do, unloading them
    gives the host's code back. *)

From Stdlib Require Import ZArith Lia ZifyBool Bool List.
From stdpp Require Import base list gmap strings option.
From S2P Require Import Prelude GuestMem Overlays ModManager ModHooks ModSections ModLink.
Import N64Recomp.
Open Scope Z_scope.

(** * What actions preserve *)

(** Whether the action ends well or in an error, [P] holds after it; in [Q] what
    it returns. *)
Definition leads {A} (P : link_state -> Prop) (a : action A) (Q : A -> link_state -> Prop) : Prop :=
  forall s x s', P s -> a s = Some (x, s') -> P s' /\ forall v, x = inl v -> Q v s'.
Definition keeps {A} (P : link_state -> Prop) (a : action A) : Prop := leads P a (fun _ _ => True).

Create HintDb keeps.
Section Keeps.
Context (P : link_state -> Prop).
Lemma keeps_ret {A} (a : A) : keeps P (ret a).
Proof. intros s x s' H [= <- <-]. done. Qed.
Lemma keeps_fail {A} e : keeps P (fail (A := A) e).
Proof. intros s x s' H [= <- <-]. done. Qed.
Lemma keeps_undefined {A} : keeps P (undefined (A := A)).
Proof. by intros s x s' H E. Qed.
Lemma keeps_get {A} (f : link_state -> A) : keeps P (get f).
Proof. intros s x s' H [= <- <-]. done. Qed.
Lemma keeps_modify f : (forall s, P s -> P (f s)) -> keeps P (modify f).
Proof. intros Hf s x s' H [= <- <-]. split; [by apply Hf|done]. Qed.
Lemma keeps_bind {A B} (m : action A) (k : A -> action B) : keeps P m -> (forall a, keeps P (k a)) -> keeps P (bind m k).
Proof.
  intros Hm Hk s x s' H E. unfold bind in E. destruct (m s) as [[[a|e] s1]|] eqn:E1; [| |done].
  - destruct (Hm _ _ _ H E1) as [H1 _]. by destruct (Hk a _ _ _ H1 E).
  - injection E as <- <-. split; [|done]. by destruct (Hm _ _ _ H E1).
Qed.
Lemma keeps_each {A} (f : A -> action unit) l : (forall a, keeps P (f a)) -> keeps P (each f l).
Proof. intros Hf. induction l as [|a l IH]; [apply keeps_ret|]. by apply keeps_bind. Qed.
Lemma keeps_checked {A} (o : option A) : keeps P (checked o).
Proof. destruct o; [apply keeps_ret|apply keeps_undefined]. Qed.
Lemma keeps_required {A} e (o : option A) : keeps P (required e o).
Proof. destruct o; [apply keeps_ret|apply keeps_fail]. Qed.
Lemma keeps_guard e b : keeps P (guard e b).
Proof. destruct b; [apply keeps_ret|apply keeps_fail]. Qed.
End Keeps.
#[export] Hint Resolve keeps_ret keeps_fail keeps_undefined keeps_get keeps_checked keeps_required keeps_guard : keeps.
(** Goes through an action; state changes are left when nothing says they preserve [P]. *)
Ltac keeps_step :=
  match goal with
  | |- keeps _ (bind _ _) => apply keeps_bind; [|intros ?]
  | |- keeps _ (each _ _) => apply keeps_each; intros ?
  | |- keeps _ (modify _) => apply keeps_modify
  | |- keeps _ (match ?x with _ => _ end) => destruct x
  | |- keeps _ _ => solve [auto with keeps]
  end.
Ltac keeps_auto := repeat keeps_step.

(** * Windows of host memory *)

Lemma write_bytes_get l : forall a m x, Forall is_u8 l -> hbyte (write_bytes a l m) x =
  if (a <=? x) && (x <? a + Z.of_nat (length l)) then nth (Z.to_nat (x - a)) l 0 else hbyte m x.
Proof.
  induction l as [|b l IH]; intros a m x Hl; cbn [write_bytes length].
  - replace (_ && _) with false by lia. done.
  - inversion_clear Hl as [|? ? Hb Hl']. rewrite IH by done. destruct (decide (x = a)) as [->|Hne].
    + replace ((a + 1 <=? a) && _) with false by lia. replace ((a <=? a) && _) with true by lia. rewrite Z.sub_diag.
      rewrite hbyte_insert, decide_True by done. cbn. by apply u8_small.
    + rewrite hbyte_insert, decide_False by done.
      destruct ((a + 1 <=? x) && (x <? a + 1 + Z.of_nat (length l))) eqn:E1.
      * replace ((a <=? x) && _) with true by lia. replace (Z.to_nat (x - a)) with (S (Z.to_nat (x - (a + 1)))) by lia. done.
      * replace ((a <=? x) && _) with false by lia. done.
Qed.
Lemma le_bytes_u8 n v : Forall is_u8 (le_bytes n v).
Proof. revert v. induction n as [|n IH]; intros v; [constructor|]. constructor; [apply u8_range|apply IH]. Qed.
Lemma length_le_bytes n v : length (le_bytes n v) = n.
Proof. revert v. induction n as [|n IH]; intros v; [done|]. cbn. by rewrite IH. Qed.
Lemma trampoline_u8 arch dest : Forall is_u8 (trampoline arch dest).
Proof.
  destruct arch; cbn [trampoline]; rewrite ?Forall_app; repeat split; try apply le_bytes_u8;
    repeat (constructor; [unfold is_u8; lia|]); constructor.
Qed.
Lemma length_trampoline arch dest : (length (trampoline arch dest) <= 16)%nat.
Proof. destruct arch; cbn [trampoline]; rewrite ?length_app, !length_le_bytes; cbn; lia. Qed.
Lemma length_bytes_at n a m : length (bytes_at n a m) = n.
Proof. unfold bytes_at. by rewrite length_fmap, length_seq. Qed.

(** [x] lies in the 16 bytes of [f]. *)
Definition in_window (f x : Z) : Prop := f <= x < f + 16.
Definition apart (f g : Z) : Prop := f = g \/ f + 16 <= g \/ g + 16 <= f.
Definition bytes_ok (m : hostmem) : Prop := forall x, is_u8 (hbyte m x).

(** Where the functions that mods replace are patched, the bytes of [m0] are kept;
    elsewhere they are as they were, the functions of [lost] excepted. *)
Definition saved (targets lost : Z -> Prop) (m0 : hostmem) (s : link_state) : Prop :=
  (forall f d, patched_funcs s !! f = Some d -> targets f /\ replaced_bytes d = bytes_at 16 f m0) /\
  (forall x, (forall f, is_Some (patched_funcs s !! f) -> ~ in_window f x) -> (forall f, lost f -> ~ in_window f x) -> hbyte (host s) x = hbyte m0 x).
Abbreviation nowhere := (fun _ : Z => False).
Lemma saved_weaken targets lost m0 s : saved targets nowhere m0 s -> saved targets lost m0 s.
Proof. intros [H1 H2]. split; [done|]. intros x Hx _. by apply H2. Qed.

Lemma bytes_at_u8 n a m : bytes_ok m -> Forall is_u8 (bytes_at n a m).
Proof. intros Hm. unfold bytes_at. apply Forall_fmap, Forall_forall. intros k _. apply Hm. Qed.
Lemma bytes_at_nth n a m k : (k < n)%nat -> nth k (bytes_at n a m) 0 = hbyte m (a + Z.of_nat k).
Proof. intros Hk. rewrite nth_lookup. unfold bytes_at. rewrite list_lookup_fmap, lookup_seq_lt by done. done. Qed.
Lemma unpatch_get f d m0 m x : bytes_ok m0 -> replaced_bytes d = bytes_at 16 f m0 ->
  hbyte (unpatch_func f d m) x = if (f <=? x) && (x <? f + 16) then hbyte m0 x else hbyte m x.
Proof.
  intros Hm E. unfold unpatch_func. rewrite E, write_bytes_get by (by apply bytes_at_u8). rewrite length_bytes_at.
  destruct ((f <=? x) && (x <? f + 16)) eqn:Ex; replace (Z.of_nat 16) with 16 by done; rewrite Ex; [|done].
  rewrite bytes_at_nth by lia. f_equal. lia.
Qed.
Lemma unpatch_all_get l m0 : bytes_ok m0 -> (forall f d, (f, d) ∈ l -> replaced_bytes d = bytes_at 16 f m0) -> forall m x,
  ((exists f d, (f, d) ∈ l /\ in_window f x) \/ hbyte m x = hbyte m0 x) -> hbyte (unpatch_all l m) x = hbyte m0 x.
Proof.
  intros Hm. induction l as [|[f d] l IH]; intros Hl m x Hx; cbn [unpatch_all foldl].
  - destruct Hx as [(f & d & Hin & _)|]; [by apply elem_of_nil in Hin|done].
  - apply IH; [intros; apply Hl; by constructor|]. rewrite (unpatch_get f d m0) by (try done; apply Hl; constructor).
    destruct ((f <=? x) && (x <? f + 16)) eqn:Ex; [by right|]. destruct Hx as [(g & d' & Hin & Hg)|]; [|by right].
    apply elem_of_cons in Hin as [[= -> ->]|Hin]; [unfold in_window in Hg; lia|]. left. by exists g, d'.
Qed.
Lemma unload_saved targets lost m0 s : bytes_ok m0 -> saved targets lost m0 s -> forall x,
  (exists f, is_Some (patched_funcs s !! f) /\ in_window f x) \/ (forall f, lost f -> ~ in_window f x) -> hbyte (host (unload s)) x = hbyte m0 x.
Proof.
  intros Hm [H1 H2] x Hx. cbn [unload host]. apply unpatch_all_get; [done| |].
  - intros f d Hin%elem_of_map_to_list. by apply H1.
  - destruct (decide (Exists (fun fd : Z * PatchData => in_window (fst fd) x) (map_to_list (patched_funcs s)))) as [He|He].
    + left. apply list.Exists_exists in He as ([f d] & Hin & Hw). by exists f, d.
    + assert (forall f, is_Some (patched_funcs s !! f) -> ~ in_window f x) as Hn.
      { intros f [d Hd] Hw. apply He. apply list.Exists_exists. exists (f, d). split; [by apply elem_of_map_to_list|done]. }
      right. apply H2; [done|]. destruct Hx as [(f & Hf & Hw)|Hx]; [|done]. by destruct (Hn f Hf).
Qed.

Lemma saved_patch targets m0 s arch f dest id : (forall f g, targets f -> targets g -> apart f g) -> saved targets nowhere m0 s ->
  targets f -> patched_funcs s !! f = None ->
  saved targets nowhere m0 (set_patched (<[f := MkPatch (bytes_at 16 f (host s)) id]> (patched_funcs s)) (patch_func arch f dest (host s)) s).
Proof.
  intros Ha [H1 H2] Hf Hn. split; cbn [patched_funcs set_patched host].
  - intros g d. destruct (decide (g = f)) as [->|Hne].
    + rewrite lookup_insert_eq. intros [= <-]. split; [done|]. cbn [replaced_bytes]. unfold bytes_at. apply list_fmap_ext.
      intros k j Hk. apply lookup_seq in Hk as [-> Hk]. apply H2; [|by intros g Hg]. intros g [d Hg] Hw. destruct (H1 g d Hg) as [Hg' _].
      destruct (Ha f g Hf Hg') as [->|Hap]; [congruence|]. unfold in_window in Hw. lia.
    + rewrite lookup_insert_ne by done. apply H1.
  - intros x Hx _. unfold patch_func. rewrite write_bytes_get by apply trampoline_u8.
    pose proof (length_trampoline arch dest). assert (~ in_window f x) as Hw.
    { apply Hx. rewrite lookup_insert_eq. by eexists. }
    unfold in_window in Hw. replace (_ && _) with false by lia. apply H2; [|by intros g Hg]. intros g Hg. destruct (decide (g = f)) as [->|Hne]; [by rewrite Hn in Hg; destruct Hg|].
    apply Hx. by rewrite lookup_insert_ne.
Qed.

(** * The passes *)

Section Link.
Context (arch : architecture) (context : ModContext) (code_of : gmap nat mod_code) (hook_slots : gmap HookDefinition nat)
  (base_event_indices : gmap nat nat) (DependencyBaseRecomp DependencySelf : string).
Context (code_sections : list (SectionTableEntry Z)) (code_sections_by_rom : gmap Z nat) (section_absolute : nat)
  (manual_patch_symbols_by_vram : gmap Z Z) (base_exports ext_base_exports : gmap string Z)
  (base_events : gmap string nat) (base_patched_funcs : gmap Z (nat * nat)).
Context (recompile : nat -> gmap nat nat -> gmap nat nat -> option (list Z * list (nat * Z)))
  (is_offline : nat -> bool) (offline_library : nat -> option dll) (is_regular_reference_section : nat -> bool)
  (native_libraries : nat -> list (option dll * list string)) (shim_of_export : Z -> nat -> Z) (shim_of_unmet : Z -> Z).
Abbreviation target_of := (get_func_by_section_rom_function_vram code_sections code_sections_by_rom section_absolute manual_patch_symbols_by_vram).
Abbreviation load := (load_mod_code code_of hook_slots base_event_indices recompile is_offline offline_library is_regular_reference_section native_libraries).
Abbreviation replace := (replace_function arch context code_sections code_sections_by_rom section_absolute manual_patch_symbols_by_vram base_patched_funcs).
Abbreviation resolve := (resolve_code_dependencies arch context code_of hook_slots DependencyBaseRecomp DependencySelf code_sections
  code_sections_by_rom section_absolute manual_patch_symbols_by_vram base_exports ext_base_exports base_events base_patched_funcs shim_of_export shim_of_unmet).
Abbreviation names := (link_names context code_of hook_slots DependencyBaseRecomp DependencySelf code_sections
  section_absolute manual_patch_symbols_by_vram base_exports ext_base_exports base_events shim_of_export shim_of_unmet).
Abbreviation link := (link_mods arch context code_of hook_slots base_event_indices DependencyBaseRecomp DependencySelf code_sections
  code_sections_by_rom section_absolute manual_patch_symbols_by_vram base_exports ext_base_exports base_events base_patched_funcs
  recompile is_offline offline_library is_regular_reference_section native_libraries shim_of_export shim_of_unmet).

Definition is_target (f : Z) : Prop := exists rom vram, target_of rom vram = Some f.
Lemma get_function_handle_inv i k s x s' : get_function_handle i k s = Some (x, s') ->
  s' = s /\ exists h f, code_handles s !! i = Some h /\ recompiled h !! k = Some f /\ x = inl f.
Proof.
  unfold get_function_handle, bind, get, checked, ret, undefined. cbn. destruct (code_handles s !! i) as [h|] eqn:E; [|done].
  destruct (recompiled h !! k) as [f|] eqn:Ef; [|done]. intros [= <- <-]. split; [done|]. by exists h, f.
Qed.
Lemma replace_inv i r s x s' : replace i r s = Some (x, s') ->
  (s' = s /\ exists e, x = inr e) \/
  exists f g id, x = inl tt /\ target_of (repl_section_vrom r) (repl_vram r) = Some f /\
    (Force r = true \/ base_patched_funcs !! f = None) /\ patched_funcs s !! f = None /\
    mod_id ∘ manifest <$> opened_mods context !! i = Some id /\
    get_function_handle i (repl_func_index r) s = Some (inl g, s) /\
    s' = set_patched (<[f := MkPatch (bytes_at 16 f (host s)) id]> (patched_funcs s)) (patch_func arch f g (host s)) s.
Proof.
  cbv [replace_function bind required guard get checked modify ret fail undefined].
  destruct (target_of _ _) as [f|] eqn:Ef; cbn beta iota; [|intros [= <- <-]; left; eauto].
  destruct (Force r || bool_decide (base_patched_funcs !! f = None)) eqn:Eb; cbn beta iota; [|intros [= <- <-]; left; eauto].
  destruct (bool_decide (patched_funcs s !! f = None)) eqn:Ep; cbn beta iota; [apply bool_decide_eq_true in Ep|intros [= <- <-]; left; eauto].
  destruct (mod_id ∘ manifest <$> opened_mods context !! i) as [id|] eqn:Ei; cbn beta iota; [|done].
  destruct (get_function_handle i (repl_func_index r) s) as [[x0 s0]|] eqn:Eh; cbn beta iota; [|done].
  pose proof (get_function_handle_inv _ _ _ _ _ Eh) as (-> & h & g & _ & _ & ->). cbn beta iota. intros [= <- <-].
  right. exists f, g, id. split; [done|]. split; [done|]. split; [|by repeat (split; [done|])].
  apply orb_true_iff in Eb as [->|Eb]; [by left|right; by apply bool_decide_eq_true in Eb].
Qed.

(** ** What the second pass and most of the third leave alone *)

Section Host.
Context (P : link_state -> Prop).
(** [P] only looks at the host's code and what is saved of it. *)
Hypothesis HP : forall s s', host s' = host s -> patched_funcs s' = patched_funcs s -> P s -> P s'.
Lemma load_keeps i : keeps P (load i).
Proof.
  unfold load_mod_code, code_at, make_handle, load_native_library, publish, check_api_version, get_function_handle.
  assert (forall l e r, keeps P (replaced_hooks hook_slots l e r)) as Hr.
  { induction l as [|x l IH]; intros e r; cbn [replaced_hooks]; [apply keeps_ret|]. unfold take_hooks, mark_processed.
    keeps_auto; try (intros s0 Hs0; by apply (HP s0)). }
  keeps_auto; try (intros s0 Hs0; by apply (HP s0)); try apply Hr.
Qed.
End Host.
Section Names.
Context (P : link_state -> Prop).
Hypothesis HP : forall s s', host s' = host s -> patched_funcs s' = patched_funcs s -> code_handles s' = code_handles s -> P s -> P s'.
Lemma find_import_keeps i k d n :
  keeps P (find_import context code_of DependencyBaseRecomp DependencySelf base_exports ext_base_exports shim_of_export shim_of_unmet i k d n).
Proof. unfold find_import, get_export_function, get_function_handle. keeps_auto. Qed.
Lemma find_event_keeps i d n : keeps P (find_event context code_of DependencyBaseRecomp DependencySelf base_events i d n).
Proof. unfold find_event, get_global_event_index. keeps_auto. Qed.
#[local] Hint Resolve find_import_keeps find_event_keeps : keeps.
Lemma link_names_keeps i c : keeps P (names i c).
Proof.
  unfold link_names, populate_reference_symbols, bind_import, add_callback, add_hook, get_function_handle.
  keeps_auto; intros s0 Hs0; by apply (HP s0).
Qed.
Lemma resolve_keeps i : (forall r, keeps P (replace i r)) -> keeps P (resolve i).
Proof.
  intros Hr. unfold resolve_code_dependencies, code_at. apply keeps_bind; [auto with keeps|intros c].
  apply keeps_bind; [apply link_names_keeps|intros _]. by apply keeps_each.
Qed.
End Names.
Lemma pass_none f l : foldl (pass_step f) None l = None.
Proof. by induction l. Qed.
Lemma run_pass_keeps (P : link_state -> Prop) f l : (forall i, keeps P (f i)) -> forall e0 s e s', P s ->
  foldl (pass_step f) (Some (e0, s)) l = Some (e, s') -> P s'.
Proof.
  intros Hf. induction l as [|i l IH]; intros e0 s e s' H E; cbn [foldl] in E; [by injection E as <- <-|].
  unfold pass_step at 2 in E. cbn [mbind option_bind] in E.
  destruct (f i s) as [[x s1]|] eqn:E1; cbn [mbind option_bind] in E; [|by rewrite pass_none in E].
  destruct (Hf i _ _ _ H E1) as [H1 _]. exact (IH _ _ _ _ H1 E).
Qed.

(** * The host's code *)

Hypothesis targets_apart : forall f g, is_target f -> is_target g -> apart f g.

Lemma saved_same lost m0 s s' : host s' = host s -> patched_funcs s' = patched_funcs s -> saved is_target lost m0 s -> saved is_target lost m0 s'.
Proof. intros E1 E2 [H1 H2]. unfold saved. by rewrite E1, E2. Qed.
Lemma replace_keeps m0 i r : keeps (saved is_target nowhere m0) (replace i r).
Proof.
  intros s x s' H E. apply replace_inv in E as [(-> & e & ->)|(f & g & id & -> & Ef & _ & Ep & _ & _ & ->)]; [done|].
  split; [|done]. apply saved_patch; try done. by eexists _, _.
Qed.

(** The second and third pass alone. *)
Lemma link_saved num_events l s errors s' : bytes_ok (host s) -> patched_funcs s = ∅ -> link num_events l s = Some (errors, s') ->
  match errors with
  | [] => saved is_target nowhere (host s) s'
  | _ => exists s1, saved is_target nowhere (host s) s1 /\ s' = unload s1
  end.
Proof.
  intros Hm Hp. unfold link_mods. cbv zeta.
  match goal with |- context [run_pass load l ?s1] => set (s0 := s1) end.
  assert (saved is_target nowhere (host s) s0) as H0.
  { split; cbn; rewrite Hp; [intros f d Hd; by rewrite lookup_empty in Hd|done]. }
  pose proof (saved_same nowhere (host s)) as HP. pose proof (fun i => load_keeps _ HP i) as Hload. pose proof (fun i => resolve_keeps _ (fun s s' H1 H2 _ => HP s s' H1 H2) i (replace_keeps _ i)) as Hres.
  destruct (run_pass load l s0) as [[e1 s1]|] eqn:E1; [|done]. cbn [mbind option_bind].
  pose proof (run_pass_keeps _ load l Hload _ _ _ _ H0 E1) as H1. destruct e1 as [|? ?]; [|intros [= <- <-]; by exists s1].
  destruct (run_pass resolve l s1) as [[e2 s2]|] eqn:E2; [|done]. cbn [mbind option_bind].
  pose proof (run_pass_keeps _ resolve l Hres _ _ _ _ H1 E2) as H2. by destruct e2 as [|? ?]; intros [= <- <-]; [|exists s2].
Qed.

(** * The replacements *)

(** A replacement of mod [i] that is in force: [f] jumps to the mod's function, its
    own bytes are kept under the mod's name, and it was free to be replaced. *)
Definition in_force (s : link_state) (ir : nat * FunctionReplacement) (f : Z) : Prop :=
  target_of (repl_section_vrom (snd ir)) (repl_vram (snd ir)) = Some f /\
  (Force (snd ir) = true \/ base_patched_funcs !! f = None) /\
  exists h g d, code_handles s !! fst ir = Some h /\ recompiled h !! repl_func_index (snd ir) = Some g /\
    bytes_at (length (trampoline arch g)) f (host s) = trampoline arch g /\
    patched_funcs s !! f = Some d /\ mod_id ∘ manifest <$> opened_mods context !! fst ir = Some (patch_mod_id d).
(** All of them, each with a function of its own. *)
Definition all_in_force (done : list (nat * FunctionReplacement)) (s : link_state) : Prop :=
  exists fs, Forall2 (in_force s) done fs /\ NoDup fs /\ forall f, is_Some (patched_funcs s !! f) <-> f ∈ fs.

Lemma bytes_at_ext n a m m' : (forall x, a <= x < a + Z.of_nat n -> hbyte m' x = hbyte m x) -> bytes_at n a m' = bytes_at n a m.
Proof. intros H. unfold bytes_at. apply list_fmap_ext. intros k j Hk. apply lookup_seq in Hk as [-> Hk]. apply H. lia. Qed.
Lemma patch_bytes f g m : bytes_at (length (trampoline arch g)) f (patch_func arch f g m) = trampoline arch g.
Proof.
  apply list_eq. intros k. unfold bytes_at. rewrite list_lookup_fmap. destruct (decide (k < length (trampoline arch g))%nat) as [Hk|Hk].
  - rewrite lookup_seq_lt by done. cbn [fmap option_fmap option_map]. unfold patch_func. rewrite write_bytes_get by apply trampoline_u8.
    replace (_ && _) with true by lia. replace (Z.to_nat (f + Z.of_nat (0 + k) - f)) with k by lia. rewrite nth_lookup.
    destruct (lookup_lt_is_Some_2 _ _ Hk) as [b Hb]. by rewrite Hb.
  - rewrite lookup_seq_ge by lia. cbn. symmetry. apply lookup_ge_None. lia.
Qed.
Lemma patch_frame f g f' n m : apart f f' -> f <> f' -> (n <= 16)%nat -> bytes_at n f' (patch_func arch f g m) = bytes_at n f' m.
Proof.
  intros Ha Hne Hn. apply bytes_at_ext. intros x Hx. unfold patch_func. rewrite write_bytes_get by apply trampoline_u8.
  pose proof (length_trampoline arch g). destruct Ha as [|Ha]; [done|]. replace (_ && _) with false by lia. done.
Qed.
Lemma all_in_force_replace done i r s s' : all_in_force done s -> replace i r s = Some (inl tt, s') -> all_in_force (done ++ [(i, r)]) s'.
Proof.
  intros (fs & Hf & Hd & Hp) E. apply replace_inv in E as [(_ & e & [=])|(f & g & id & _ & Et & Eb & Ep & Ei & Eh & ->)].
  apply get_function_handle_inv in Eh as (_ & h & g' & Eh & Eg & [= <-]).
  assert (f ∉ fs) as Hn by (rewrite <- Hp, Ep; by intros [? [=]]). exists (fs ++ [f]). split; [|split].
  - apply Forall2_app; [|constructor; [|constructor]].
    + eapply Forall2_impl; [|exact Hf]. intros [j r'] f' (H1 & H2 & h' & g' & d & H3 & H4 & H5 & H6 & H7).
      split; [done|]. split; [done|]. exists h', g', d. cbn [code_handles set_patched host patched_funcs fst snd]. split; [done|]. split; [done|].
      assert (f <> f') as Hne by (intros ->; cbn in H6; congruence). split; [|by rewrite lookup_insert_ne].
      rewrite patch_frame; [done|apply targets_apart; by eexists _, _|done|apply length_trampoline].
    + split; [done|]. split; [done|]. exists h, g, (MkPatch (bytes_at 16 f (host s)) id). cbn [code_handles set_patched host patched_funcs fst snd].
      rewrite lookup_insert_eq. split; [done|]. split; [done|]. split; [apply patch_bytes|done].
  - apply list.NoDup_app. split; [done|]. split; [|repeat constructor; by intros ?%elem_of_nil]. intros x Hx Hx'%list_elem_of_singleton. by subst x.
  - intros x. cbn [patched_funcs set_patched]. rewrite elem_of_app, list_elem_of_singleton, <- Hp. destruct (decide (f = x)) as [->|Hne].
    + rewrite lookup_insert_eq. split; [by right|by eexists].
    + rewrite lookup_insert_ne by done. split; [by left|intros [?| ->]; done].
Qed.

(** What holds at the end of an action that ends well. *)
Lemma each_done {A} (f : A -> action unit) (I : list A -> link_state -> Prop) :
  (forall done a s s', I done s -> f a s = Some (inl tt, s') -> I (done ++ [a]) s') ->
  forall l done s s', I done s -> each f l s = Some (inl tt, s') -> I (done ++ l) s'.
Proof.
  intros Hf. induction l as [|a l IH]; intros done s s' H E; cbn [each] in E.
  - injection E as <-. by rewrite app_nil_r.
  - unfold bind in E. destruct (f a s) as [[[[]|e] s1]|] eqn:E1; [|done|done].
    pose proof (IH (done ++ [a]) s1 s' (Hf _ _ _ _ H E1) E) as H1. by rewrite <- app_assoc in H1.
Qed.
Lemma pass_done (f : nat -> action unit) (I : list nat -> link_state -> Prop) :
  (forall done i s s', I done s -> f i s = Some (inl tt, s') -> I (done ++ [i]) s') ->
  forall l e done s s', I done s -> foldl (pass_step f) (Some (e, s)) l = Some ([], s') -> I (done ++ l) s' /\ e = [].
Proof.
  intros Hf. induction l as [|i l IH]; intros e done s s' H E; cbn [foldl] in E.
  - injection E as -> <-. by rewrite app_nil_r.
  - unfold pass_step at 2 in E. cbn [mbind option_bind] in E. destruct (f i s) as [[[[]|er] s1]|] eqn:E1; cbn [mbind option_bind] in E.
    + destruct (IH e (done ++ [i]) s1 s' (Hf _ _ _ _ H E1) E) as [H1 ->]. by rewrite <- app_assoc in H1.
    + exfalso. assert (forall l e s, e <> [] -> foldl (pass_step f) (Some (e, s)) l = Some ([], s') -> False) as Hne.
      { clear. induction l as [|i l IH]; intros e s He E; cbn [foldl] in E; [by injection E|].
        unfold pass_step at 2 in E. cbn [mbind option_bind] in E. destruct (f i s) as [[x s1]|]; cbn [mbind option_bind] in E; [|by rewrite pass_none in E].
        eapply (IH _ s1); [|exact E]. destruct x; [done|]. by destruct e. }
      eapply (Hne l _ s1); [|exact E]. by destruct e.
    + by rewrite pass_none in E.
Qed.

(** The replacements that mods ask for, in the order of loading. *)
Definition asked (l : list nat) : list (nat * FunctionReplacement) :=
  mjoin ((fun i => pair i <$> from_option (fun c => replacements (recompiler_context c)) [] (code_of !! i)) <$> l).
Lemma asked_app l1 l2 : asked (l1 ++ l2) = asked l1 ++ asked l2.
Proof. unfold asked. by rewrite fmap_app, join_app. Qed.
Lemma resolve_in_force done i s s' : all_in_force done s -> resolve i s = Some (inl tt, s') -> all_in_force (done ++ asked [i]) s'.
Proof.
  unfold resolve_code_dependencies, code_at, bind at 1, checked. unfold asked. cbn [fmap list_fmap mjoin list_join]. rewrite app_nil_r.
  intros H E. destruct (code_of !! i) as [c|] eqn:Ec; [|done]. cbn [ret] in E. unfold ret, bind in E.
  destruct (names i c s) as [[[[]|e] s1]|] eqn:E1; [|done|done].
  assert (all_in_force done s1) as H1.
  { eapply (link_names_keeps (all_in_force done)); [|exact H|exact E1]. clear. intros s s' Eh Ep Ec (fs & Hf & Hd & Hi). exists fs.
    unfold in_force in *. by rewrite Eh, Ep, Ec. }
  cbn [from_option]. revert H1 E. generalize (replacements (recompiler_context c)). intros rs H1 E.
  assert (all_in_force (done ++ (pair i <$> ([] : list FunctionReplacement))) s1) as H2 by (cbn; by rewrite app_nil_r).
  pose proof (each_done (replace i) (fun rs s => all_in_force (done ++ (pair i <$> rs)) s)) as Hev. cbv beta in Hev.
  eapply (Hev _ rs []); [exact H2|exact E]. Unshelve.
  intros rs' a s2 s3 H2' E3. rewrite fmap_app, app_assoc. by apply (all_in_force_replace _ i a s2).
Qed.

Lemma link_in_force num_events l s s' :
  patched_funcs s = ∅ -> link num_events l s = Some ([], s') -> all_in_force (asked l) s'.
Proof.
  intros Hp. unfold link_mods. cbv zeta.
  match goal with |- context [run_pass load l ?s1] => set (s0 := s1) end.
  assert (patched_funcs s0 = ∅) as H0 by done. clearbody s0.
  destruct (run_pass load l s0) as [[e1 s1]|] eqn:E1; [|done]. cbn [mbind option_bind].
  pose proof (run_pass_keeps (fun s => patched_funcs s = ∅) load l (load_keeps (fun s => patched_funcs s = ∅) (fun s2 s3 _ E H => eq_trans E H)) _ _ _ _ H0 E1) as H1.
  destruct e1; [|done]. destruct (run_pass resolve l s1) as [[e2 s2]|] eqn:E2; [|done]. cbn [mbind option_bind].
  destruct e2; [|done]. intros [= <-]. unfold run_pass in E2.
  destruct (pass_done resolve (fun done => all_in_force (asked done))) with (l := l) (e := @nil (nat * CodeModLoadError)) (done := @nil nat) (s := s1) (s' := s2)
    as [H _]; [| |exact E2|exact H].
  - intros done i s3 s4 H E. rewrite asked_app. by apply (resolve_in_force _ i s3).
  - exists []. split; [constructor|]. split; [constructor|]. intros f. rewrite H1, lookup_empty. split; [by intros [? [=]]|by intros ?%elem_of_nil].
Qed.

(** * Hooked functions *)

Context (section_relocs : nat -> list RelocEntry) (patch_code_sections : list (SectionTableEntry Z))
  (patch_code_sections_by_rom : gmap Z nat) (patch_relocs : nat -> list RelocEntry).
Context (section_event : nat) (decompressed_rom patch_binary : list Z)
  (live_generator : HookContext -> gmap Z nat -> gmap Z nat -> list nat -> option (list Z * list (nat * Z)))
  (sort_hooks : list hook_at -> list hook_at)
  (std_sort : (RegisteredHook Z -> RegisteredHook Z -> bool) -> list (RegisteredHook Z) -> list (RegisteredHook Z)).
Hypothesis sort_perm : forall l, sort_hooks l ≡ₚ l.
Abbreviation table := (regen_table code_sections patch_code_sections).
Abbreviation by_rom := (regen_by_rom code_sections_by_rom patch_code_sections_by_rom).
Abbreviation begin_section := (start_section code_sections code_sections_by_rom section_relocs patch_code_sections patch_code_sections_by_rom patch_relocs).
Abbreviation begin_function := (start_function code_sections base_patched_funcs patch_code_sections).
Abbreviation regen_list := (regen_each code_sections code_sections_by_rom base_patched_funcs section_relocs patch_code_sections patch_code_sections_by_rom patch_relocs).
Abbreviation build := (build_regen_list code_sections code_sections_by_rom base_patched_funcs section_relocs patch_code_sections patch_code_sections_by_rom patch_relocs).
Abbreviation apply := (apply_regenlist arch code_sections section_absolute manual_patch_symbols_by_vram section_event live_generator).
Abbreviation hooked := (regenerate_with_hooks arch code_sections code_sections_by_rom section_absolute manual_patch_symbols_by_vram base_patched_funcs
  section_relocs patch_code_sections patch_code_sections_by_rom patch_relocs section_event decompressed_rom patch_binary live_generator sort_hooks).
Abbreviation regen := (regenerate arch hook_slots code_sections code_sections_by_rom section_absolute manual_patch_symbols_by_vram base_patched_funcs
  section_relocs patch_code_sections patch_code_sections_by_rom patch_relocs section_event decompressed_rom patch_binary live_generator sort_hooks).
Abbreviation load_all := (load_code arch context code_of hook_slots base_event_indices DependencyBaseRecomp DependencySelf code_sections
  code_sections_by_rom section_absolute manual_patch_symbols_by_vram base_exports ext_base_exports base_events base_patched_funcs
  recompile is_offline offline_library is_regular_reference_section native_libraries shim_of_export shim_of_unmet
  section_relocs patch_code_sections patch_code_sections_by_rom patch_relocs section_event decompressed_rom patch_binary live_generator sort_hooks std_sort).

(** [p] is the function at an address of a section, of the game or of its patches. *)
Definition entry_at (patched : bool) (rom vram : Z) (p : Z) : Prop := exists i s e,
  by_rom patched !! rom = Some i /\ table patched !! i = Some s /\
  get_func_entry_by_section_index_function_offset (table patched) i (u32 (vram - Overlays.ram_addr s)) = Some e /\ Overlays.func e = Some p.
Definition overridden_at (d : HookDefinition) (b : nat * nat) : Prop :=
  exists p, entry_at false (section_rom d) (function_vram d) p /\ base_patched_funcs !! p = Some b.
(** The function that is regenerated for a hook: the hooked one, or the one of the
    game's patches that stands for it. *)
Definition redirected (d : HookDefinition) (p : Z) : Prop :=
  entry_at false (section_rom d) (function_vram d) p \/
  exists ps fi s e, overridden_at d (ps, fi) /\ patch_code_sections !! ps = Some s /\ Overlays.funcs s !! fi = Some e /\
    entry_at true (Overlays.rom_addr s) (u32 (Overlays.ram_addr s + Overlays.offset e)) p.

(** ** What is regenerated *)

Definition listed (patched : bool) (ds : list HookDefinition) (r : RegeneratedList) : Prop :=
  (forall p, Some p ∈ func_ptrs r -> exists d, d ∈ ds /\ entry_at patched (section_rom d) (function_vram d) p) /\
  (forall b h, (b, h) ∈ patched_hooks r -> exists d, d ∈ ds /\ overridden_at d b).
Record cursor_ok (patched : bool) (ds : list HookDefinition) (c : regen_cursor) : Prop := {
  at_section : forall i, cur_section_index c = Some i -> exists s, by_rom patched !! cur_section_rom c = Some i /\ table patched !! i = Some s /\
    cur_section_vram c = Overlays.ram_addr s;
  at_patch : forall b, cur_base_patched c = Some b -> exists d, d ∈ ds /\ overridden_at d b;
  at_list : listed patched ds (regenlist c) }.
Lemma bind_inv {A B} (m : action A) (k : A -> action B) s x s' : bind m k s = Some (x, s') ->
  (exists e, x = inr e /\ m s = Some (inr e, s')) \/ exists a s1, m s = Some (inl a, s1) /\ k a s1 = Some (x, s').
Proof. unfold bind. destruct (m s) as [[[a|e] s1]|]; [|intros [= <- <-]; left; eauto|done]. intros E. right. eauto. Qed.
Lemma checked_inv {A} (o : option A) s x s' : checked o s = Some (x, s') -> s' = s /\ exists a, o = Some a /\ x = inl a.
Proof. destruct o as [a|]; [|done]. intros [= <- <-]. eauto. Qed.
Lemma required_inv {A} e (o : option A) s x s' : required e o s = Some (x, s') -> s' = s /\ match o with Some a => x = inl a | None => x = inr e end.
Proof. by destruct o; intros [= <- <-]. Qed.
Lemma guard_inv e b s x s' : guard e b s = Some (x, s') -> s' = s /\ x = if b then inl tt else inr e.
Proof. by destruct b; intros [= <- <-]. Qed.
Lemma start_section_ok patched ds d c s x s' : begin_section patched d c s = Some (x, s') -> cursor_ok patched ds c ->
  s' = s /\ forall c', x = inl c' -> cursor_ok patched ds c' /\ cur_section_rom c' = section_rom d.
Proof.
  intros E Hc. unfold start_section in E. destruct (Z.eqb_spec (section_rom d) (cur_section_rom c)) as [Eq|_].
  { injection E as <- <-. split; [done|]. by intros c' [= <-]. }
  apply bind_inv in E as [(e & -> & E)|(i & s1 & E1 & E)]; [by apply required_inv in E as [-> _]|].
  apply required_inv in E1 as [-> E1]. destruct (by_rom patched !! section_rom d) as [i'|] eqn:Ei; [injection E1 as <-|done].
  apply bind_inv in E as [(e & -> & E)|(sec & s1 & E1 & E)]; [by apply checked_inv in E as (-> & ? & _ & [=])|].
  apply checked_inv in E1 as (-> & sec' & Es & [= <-]). injection E as <- <-. split; [done|]. intros c' [= <-].
  split; [|done]. destruct Hc as [_ H2 H3]. split; [|exact H2|exact H3]. cbn. intros j [= <-]. by exists sec.
Qed.
Lemma start_function_ok patched ds d c s x s' : begin_function patched d c s = Some (x, s') -> cursor_ok patched ds c ->
  cur_section_rom c = section_rom d -> d ∈ ds -> s' = s /\ forall c', x = inl c' -> cursor_ok patched ds c'.
Proof.
  intros E Hc Hr Hd. unfold start_function in E. destruct (function_vram d =? cur_function_vram c).
  { injection E as <- <-. split; [done|]. by intros c' [= <-]. }
  apply bind_inv in E as [(e & -> & E)|(e & s1 & E1 & E)]; [by apply required_inv in E as [-> _]|].
  apply required_inv in E1 as [-> E1]. destruct (_ ≫= _) as [e'|] eqn:Ee in E1; [injection E1 as <-|done].
  apply bind_inv in E as [(er & -> & E)|([] & s1 & E1 & E)]; [by apply guard_inv in E as [-> _]|].
  apply guard_inv in E1 as [-> _]. injection E as <- <-. split; [done|]. intros c' [= <-].
  destruct Hc as [H1 H2 [H3 H4]]. destruct (cur_section_index c) as [i|] eqn:Ei; [|done]. cbn in Ee.
  destruct (H1 i eq_refl) as (sec & Hi & Hs & Hv). rewrite Hr in Hi. rewrite Hv in Ee.
  assert (forall p, Overlays.func e = Some p -> entry_at patched (section_rom d) (function_vram d) p) as Hentry by (intros p Hp; by exists i, sec, e).
  split; cbn [cur_section_index cur_section_rom cur_section_vram cur_base_patched regenlist].
  - intros j [= <-]. rewrite Hr. by exists sec.
  - intros b Hb. exists d. split; [done|]. unfold overridden in Hb. destruct patched; [done|].
    destruct (Overlays.func e) as [p|] eqn:Ep; [|done]. exists p. split; [by apply Hentry|done].
  - split; [|exact H4]. cbn [func_ptrs]. case_bool_decide; [|exact H3]. intros p [Hp|Hp%list_elem_of_singleton]%elem_of_app; [by apply H3|].
    exists d. split; [done|]. by apply Hentry.
Qed.
Lemma attach_hook_ok patched ds h c : cursor_ok patched ds c -> cursor_ok patched ds (attach_hook h c).
Proof.
  intros [H1 H2 [H3 H4]]. split; [exact H1|exact H2|]. unfold attach_hook. cbn [regenlist].
  destruct (cur_base_patched c) as [b|] eqn:Eb; [|by split]. split; [exact H3|]. cbn [patched_hooks].
  intros b' h' [Hb|[= -> ->]%list_elem_of_singleton]%elem_of_app; [by apply (H4 b' h')|by apply H2].
Qed.
Lemma regen_each_ok patched ds l : forall c s x s', (forall h, h ∈ l -> fst h ∈ ds) -> regen_list patched l c s = Some (x, s') -> cursor_ok patched ds c ->
  s' = s /\ forall c', x = inl c' -> cursor_ok patched ds c'.
Proof.
  induction l as [|h l IH]; intros c s x s' Hl E Hc; cbn [regen_each] in E; [injection E as <- <-; by split; [|intros c' [= <-]]|].
  apply bind_inv in E as [(e & -> & E)|(c1 & s1 & E1 & E)]; [by apply (start_section_ok _ ds) in E as [-> _]|].
  apply (start_section_ok _ ds) in E1 as [-> E1]; [|done]. destruct (E1 c1 eq_refl) as [H1 Hr].
  assert (fst h ∈ ds) as Hh by (apply Hl; constructor).
  apply bind_inv in E as [(e & -> & E)|(c2 & s1 & E2 & E)]; [by apply (start_function_ok _ ds) in E as [-> _]|].
  apply (start_function_ok _ ds) in E2 as [-> E2]; [|done..]. apply (IH (attach_hook h c2) s x s'); [intros h' Hh'; apply Hl; by constructor|exact E|].
  by apply attach_hook_ok, E2.
Qed.
Lemma build_ok patched l s x s' : build patched l s = Some (x, s') -> s' = s /\ forall r, x = inl r -> listed patched (fst <$> l) r.
Proof.
  intros E. apply bind_inv in E as [(e & -> & E)|(c & s1 & E1 & E)].
  - apply (regen_each_ok _ (fst <$> l)) in E as [-> _]; [done| |]; [intros h Hh; by apply list_elem_of_fmap_2|].
    split; [done..|]. split; [intros p Hp; by apply elem_of_nil in Hp|intros b h Hb; by apply elem_of_nil in Hb].
  - injection E as <- <-. apply (regen_each_ok _ (fst <$> l)) in E1 as [-> H]; [|intros h Hh; by apply list_elem_of_fmap_2|].
    + split; [done|]. intros r [= <-]. by destruct (H c eq_refl).
    + split; [done..|]. split; [intros p Hp; by apply elem_of_nil in Hp|intros b h Hb; by apply elem_of_nil in Hb].
Qed.

(** ** What regenerating keeps *)

Lemma keeps_each_in (P : link_state -> Prop) {A} (f : A -> action unit) l : (forall a, a ∈ l -> keeps P (f a)) -> keeps P (each f l).
Proof.
  induction l as [|a l IH]; intros H; [apply keeps_ret|]. cbn [each]. apply keeps_bind; [apply H; constructor|intros _].
  apply IH. intros b Hb. apply H. by constructor.
Qed.
(** An action that does not change the state, with what it returns. *)
Lemma keeps_pure {A B} (P : link_state -> Prop) (m : action A) (k : A -> action B) (R : A -> Prop) :
  (forall s x s', m s = Some (x, s') -> s' = s /\ forall a, x = inl a -> R a) -> (forall a, R a -> keeps P (k a)) -> keeps P (bind m k).
Proof.
  intros Hm Hk s x s' H E. apply bind_inv in E as [(e & -> & E)|(a & s1 & E1 & E)]; [by apply Hm in E as [-> _]|].
  apply Hm in E1 as [-> E1]. exact (Hk a (E1 a eq_refl) s x s' H E).
Qed.
Lemma keeps_checked_bind {A B} (P : link_state -> Prop) (o : option A) (k : A -> action B) : (forall a, o = Some a -> keeps P (k a)) -> keeps P (bind (checked o) k).
Proof. intros Hk. apply (keeps_pure _ _ _ (fun a => o = Some a)); [|exact Hk]. intros s x s' (-> & a & Ea & ->)%checked_inv. by split; [|intros ? [= <-]]. Qed.
Lemma imap_pair_in {A} (l : list A) k a : (k, a) ∈ imap pair l -> a ∈ l.
Proof.
  intros (j & Hj)%list_elem_of_lookup. rewrite list_lookup_imap in Hj. destruct (l !! j) as [b|] eqn:E; [|done]. injection Hj as _ ->.
  by eapply list_elem_of_lookup_2.
Qed.
Section Redirect.
Context (P : link_state -> Prop).
Hypothesis Htable : forall t e s, P s -> P (set_hook_table t (set_event_table e s)).
Definition takes_jump (p : Z) : Prop := forall dest s, P s -> P (set_patched (patched_funcs s) (patch_func arch p dest (host s)) s).
Lemma apply_keeps r rom : (forall p, Some p ∈ func_ptrs r -> takes_jump p) -> keeps P (apply r rom).
Proof.
  intros Hp. unfold apply_regenlist. apply keeps_bind; [auto with keeps|intros c]. destruct (live_generator _ _ _ _) as [[hs js]|]; [|auto with keeps].
  case_match; [|auto with keeps]. apply keeps_bind; [|auto with keeps]. apply keeps_each_in. intros [k p] Hk%imap_pair_in.
  unfold redirect. apply keeps_checked_bind. cbn [fst snd]. intros q ->. apply keeps_checked_bind. intros dest _. apply keeps_modify. by apply Hp.
Qed.
Lemma hooked_keeps l : (forall d p, d ∈ fst <$> l -> redirected d p -> takes_jump p) -> keeps P (hooked l).
Proof.
  intros Hl. unfold regenerate_with_hooks.
  apply (keeps_pure _ _ _ (listed false (fst <$> l))); [apply build_ok|]. intros r [Hr Hpr]. apply keeps_bind.
  { case_bool_decide; [auto with keeps|]. apply keeps_bind; [|intros ?; keeps_auto]. apply apply_keeps. intros p (d & Hd & Hp)%Hr. apply (Hl d); [done|by left]. }
  intros g. case_bool_decide; [auto with keeps|]. apply keeps_checked_bind. intros hs Ehs.
  apply (keeps_pure _ _ _ (listed true (fst <$> sort_hooks hs))); [apply build_ok|]. intros r' [Hr' _]. apply keeps_bind; [|intros ?; keeps_auto].
  apply apply_keeps. intros p (d & Hd & Hp)%Hr'. apply list_elem_of_fmap in Hd as (h & -> & Hh). rewrite (sort_perm hs) in Hh.
  apply mapM_Some in Ehs. apply list_elem_of_lookup in Hh as [k Hk]. destruct (Forall2_lookup_r _ _ _ _ _ Ehs Hk) as ([[ps fi] [d0 slot]] & Hx & E).
  cbn in E. destruct (patch_code_sections !! ps) as [sec|] eqn:Es; [|done]. cbn in E. destruct (Overlays.funcs sec !! fi) as [e|] eqn:Ee; [|done]. injection E as <-.
  destruct (Hpr (ps, fi) (d0, slot)) as (d1 & Hd1 & Hb); [by eapply list_elem_of_lookup_2|]. apply (Hl d1); [done|]. right. by exists ps, fi, sec, e.
Qed.
Lemma regen_keeps s x s' : P s -> regen s = Some (x, s') ->
  (forall d slot p, hook_slots !! d = Some slot -> processed_hook_slots s !! slot = Some false -> redirected d p -> takes_jump p) -> P s'.
Proof.
  intros H E Hj. unfold regenerate in E. apply bind_inv in E as [(e & _ & [=])|(o & s1 & [= <- <-] & E)].
  apply bind_inv in E as [(e & -> & E)|(l & s1 & E1 & E)]; [by apply checked_inv in E as (-> & _)|]. apply checked_inv in E1 as (-> & l' & El & [= <-]).
  assert (forall d, d ∈ fst <$> l -> exists slot, hook_slots !! d = Some slot /\ processed_hook_slots s !! slot = Some false) as Hl.
  { intros d Hd. unfold unprocessed_hooks in El. destruct (mapM _ _) as [bl|] eqn:Em in El; [|done]. injection El as <-. apply mapM_Some in Em.
    rewrite <- list_fmap_compose in Hd. apply list_elem_of_fmap in Hd as ([b [d' slot]] & -> & Hd). apply list_elem_of_filter in Hd as [Hf Hd]. cbn in Hf. subst b.
    apply list_elem_of_lookup in Hd as [k Hk]. destruct (Forall2_lookup_r _ _ _ _ _ Em Hk) as ([d0 s0] & Hx & Eh). cbn in Eh.
    destruct (processed_hook_slots s !! s0) as [b|] eqn:Eb; [|done]. injection Eh as -> -> ->. exists slot. split; [|done].
    apply elem_of_map_to_list. by eapply list_elem_of_lookup_2. }
  assert (keeps P (set_hook_types hook_slots)) as Ht.
  { unfold set_hook_types. apply keeps_each. intros h. keeps_auto. intros s1 Hs1. exact (Htable a0 (event_table s1) s1 Hs1). }
  apply bind_inv in E as [(e & -> & E)|([] & s1 & E1 & E)]; [by apply (Ht _ _ _ H) in E as [? _]|]. apply (Ht _ _ _ H) in E1 as [H1 _].
  case_bool_decide; [by injection E as _ <-|]. assert (keeps P (hooked (sort_hooks l))) as Hk.
  { apply hooked_keeps. intros d p Hd. rewrite (sort_perm l) in Hd. destruct (Hl d Hd) as (slot & Hs1 & Hs2). by apply (Hj d slot). }
  apply bind_inv in E as [(e & -> & E)|(g & s2 & E2 & E)]; [by apply (Hk _ _ _ H1) in E as [? _]|]. apply (Hk _ _ _ H1) in E2 as [? _]. by injection E as _ <-.
Qed.
End Redirect.

(** * A whole load *)

(** The functions that some hook has regenerated. *)
Definition is_hooked (p : Z) : Prop := exists d slot, hook_slots !! d = Some slot /\ redirected d p.
Lemma saved_redirect m0 p : is_hooked p -> takes_jump (saved is_target is_hooked m0) p.
Proof.
  intros Hp dest s [H1 H2]. split; [exact H1|]. intros x Hx Hn. cbn [host set_patched]. unfold patch_func. rewrite write_bytes_get by apply trampoline_u8.
  pose proof (length_trampoline arch dest). pose proof (Hn p Hp) as Hw. unfold in_window in Hw. replace (_ && _) with false by lia. by apply H2.
Qed.

(** C30: However the active mods patch functions, hooks and events, unloading them leaves
    every byte of the program's code as it was before the load, except in hooked functions
    that no mod replaced, whose regenerated jumps the program does not undo; the lists of
    patches, hooks and events are then empty. A load that fails while linking has undone all
    of its patches itself, one that fails while regenerating all but such jumps. *)
Theorem unload_restores_the_host num_events l s errors s' :
  bytes_ok (host s) -> patched_funcs s = ∅ -> load_all num_events l s = Some (errors, s') ->
  (errors = [] -> forall x, (exists f, is_Some (patched_funcs s' !! f) /\ in_window f x) \/ (forall f, is_hooked f -> ~ in_window f x) ->
    hbyte (host (unload s')) x = hbyte (host s) x) /\
  (errors <> [] -> patched_funcs s' = ∅ /\ hook_table s' = [] /\ event_table s' = [] /\
    forall x, (forall f, is_hooked f -> ~ in_window f x) -> hbyte (host s') x = hbyte (host s) x) /\
  (forall i e, (Some i, e) ∈ errors -> forall x, hbyte (host s') x = hbyte (host s) x).
Proof.
  intros Hm Hp E. unfold load_code in E. destruct (link num_events l s) as [[[|e0 es] s1]|] eqn:E1; [| |done]; cbn [mbind option_bind] in E.
  2:{ apply link_saved in E1 as (s2 & H2 & ->); [|done..]. injection E as <- <-. split; [done|].
      assert (forall x, hbyte (host (unload s2)) x = hbyte (host s) x) as H by (intros x; apply (unload_saved _ _ _ _ Hm H2); right; by intros f Hf).
      split; [intros _; by repeat split|done]. }
  apply link_saved in E1 as H1; [|done..]. apply (saved_weaken _ is_hooked) in H1.
  destruct (regen s1) as [[x s2]|] eqn:E2; [|done]. cbn [mbind option_bind] in E.
  assert (saved is_target is_hooked (host s) s2) as H2.
  { eapply regen_keeps; [|exact H1|exact E2|].
    - intros t e s3 H3. by apply (saved_same is_hooked (host s) s3).
    - intros d slot p Hd _ Hr. apply saved_redirect. by exists d, slot. }
  destruct x as [[]|e]; injection E as <- <-.
  - split; [|split; [done|by intros i e ?%elem_of_nil]]. intros _ x Hx. exact (unload_saved _ _ _ _ Hm H2 x Hx).
  - split; [done|]. split; [|by intros i e' Hin%list_elem_of_singleton]. intros _. split; [done|]. split; [done|]. split; [done|].
    intros x Hx. apply (unload_saved _ _ _ _ Hm H2). by right.
Qed.

(** ** Jumps *)

Definition le_value (l : list Z) : Z := foldr (fun b v => b + 256 * v) 0 l.
(** Where the instructions at [a] jump: x86-64's [movabs rax, imm64; jmp rax];
    AArch64's [ldr xt, pc + imm19; br xt]. *)
Definition jump_target (m : hostmem) (a : Z) : option Z :=
  match arch with
  | X86_64 =>
      if bool_decide (bytes_at 2 a m = [0x48; 0xB8]) && bool_decide (bytes_at 2 (a + 10) m = [0xFF; 0xE0])
      then Some (le_value (bytes_at 8 (a + 2) m)) else None
  | ARM64 =>
      let ldr := le_value (bytes_at 4 a m) in
      let br := le_value (bytes_at 4 (a + 4) m) in
      let imm19 := Z.land (Z.shiftr ldr 5) 0x7FFFF in
      if (Z.shiftr ldr 24 =? 0x58) && (br =? Z.lor 0xD61F0000 (Z.shiftl (Z.land ldr 31) 5))
      then Some (le_value (bytes_at 8 (a + 4 * (if imm19 <? 0x40000 then imm19 else imm19 - 0x80000)) m)) else None
  end.
Lemma le_value_bytes n v : le_value (le_bytes n v) = v mod 2 ^ (8 * Z.of_nat n).
Proof.
  revert v. induction n as [|n IH]; intros v; [cbn; by rewrite Z.mod_1_r|]. cbn [le_bytes le_value foldr]. fold (le_value (le_bytes n (v / 256))). rewrite IH.
  unfold u8. replace (2 ^ (8 * Z.of_nat (S n))) with (256 * 2 ^ (8 * Z.of_nat n)) by (rewrite Nat2Z.inj_succ, Z.mul_succ_r, Z.pow_add_r by lia; lia).
  rewrite Z.rem_mul_r by lia. done.
Qed.
Lemma bytes_at_sub n k j f a m l : bytes_at n f m = l -> a = f + Z.of_nat k -> (k + j <= n)%nat -> bytes_at j a m = take j (drop k l).
Proof.
  intros <- -> Hk. unfold bytes_at. apply list_eq. intros i. destruct (decide (i < j)%nat) as [Hi|Hi].
  - rewrite lookup_take_lt, lookup_drop, !list_lookup_fmap, !lookup_seq_lt by lia. cbn. do 2 f_equal. lia.
  - rewrite lookup_take_ge by lia. rewrite list_lookup_fmap, lookup_seq_ge by lia. done.
Qed.
Lemma trampoline_jumps f g m : bytes_at (length (trampoline arch g)) f m = trampoline arch g -> jump_target m f = Some (u64 g).
Proof.
  assert (le_value (le_bytes 8 g) = u64 g) as Hg by apply le_value_bytes. unfold jump_target.
  destruct arch; cbn [trampoline]; rewrite !length_app, length_le_bytes; cbn [length Nat.add]; intros H.
  - rewrite (bytes_at_sub _ 0 2 f f _ _ H), (bytes_at_sub _ 10 2 f _ _ _ H), (bytes_at_sub _ 2 8 f _ _ _ H) by lia.
    by rewrite <- Hg.
  - rewrite (bytes_at_sub _ 0 4 f f _ _ H), (bytes_at_sub _ 4 4 f _ _ _ H) by lia.
    transitivity (Some (le_value (bytes_at 8 (f + 8) m))); [reflexivity|]. rewrite (bytes_at_sub _ 8 8 f _ _ _ H) by lia. by rewrite <- Hg.
Qed.

(** ** Slots of replaced functions *)

Definition processed_for (s : link_state) (ir : nat * FunctionReplacement) : Prop := forall b slot,
  hook_slots !! Def (repl_section_vrom (snd ir)) (repl_vram (snd ir)) b = Some slot -> processed_hook_slots s !! slot = Some true.
Definition stays_processed (s s' : link_state) : Prop := forall k, processed_hook_slots s !! k = Some true -> processed_hook_slots s' !! k = Some true.
Lemma take_hooks_processed b t r s x s' : take_hooks hook_slots b t r s = Some (inl x, s') ->
  stays_processed s s' /\ forall slot, hook_slots !! Def (repl_section_vrom r) (repl_vram r) b = Some slot -> processed_hook_slots s' !! slot = Some true.
Proof.
  unfold take_hooks. destruct (hook_slots !! _) as [slot|]; [|intros [= _ <-]; by split; [intros k|]]. unfold mark_processed, bind, get, ret, modify, undefined.
  destruct (processed_hook_slots s !! slot) as [b0|] eqn:E; [|done]. intros [= _ <-].
  assert ((slot < length (processed_hook_slots s))%nat) as Hl by by apply lookup_lt_Some in E. split.
  - intros k Hk. cbn. destruct (decide (k = slot)) as [->|Hne]; [by rewrite list_lookup_insert_eq|by rewrite list_lookup_insert_ne].
  - intros slot' [= <-]. cbn. by rewrite list_lookup_insert_eq.
Qed.
Lemma replaced_hooks_processed i rs : forall e t s x s', replaced_hooks hook_slots rs e t s = Some (inl x, s') ->
  stays_processed s s' /\ Forall (processed_for s') (pair i <$> rs).
Proof.
  induction rs as [|r rs IH]; intros e t s x s' E; cbn [replaced_hooks] in E; [injection E as _ <-; split; [by intros k|apply Forall_nil_2]|].
  apply bind_inv in E as [(er & [=] & _)|(e1 & s1 & E1 & E)]. apply bind_inv in E as [(er & [=] & _)|(t1 & s2 & E2 & E)].
  apply take_hooks_processed in E1 as [M1 H1]. apply take_hooks_processed in E2 as [M2 H2]. destruct (IH _ _ _ _ _ E) as [M3 H3].
  split; [intros k Hk; by apply M3, M2, M1|]. constructor; [|exact H3]. intros [] slot Hs; [by apply M3, H2|by apply M3, M2, H1].
Qed.
Lemma load_processed done i s s' : Forall (processed_for s) (asked done) -> load i s = Some (inl tt, s') -> Forall (processed_for s') (asked (done ++ [i])).
Proof.
  intros H E. unfold load_mod_code in E. apply bind_inv in E as [(er & [=] & _)|(c & s1 & E1 & E)].
  apply checked_inv in E1 as (-> & c' & Ec & [= <-]). apply bind_inv in E as [(er & [=] & _)|(h & s1 & E1 & E)].
  apply (replaced_hooks_processed i) in E1 as [M1 H1].
  assert (processed_hook_slots s' = processed_hook_slots s1) as Hs.
  { assert (keeps (fun s2 => processed_hook_slots s2 = processed_hook_slots s1)
      (bind (make_handle base_event_indices recompile is_offline offline_library is_regular_reference_section i (recompiler_context c) (fst h) (snd h)) (fun _ =>
       bind (each (load_native_library i) (native_libraries i)) (fun _ => each (publish i c) (imap pair (functions (recompiler_context c))))))) as Hk.
    { unfold make_handle, load_native_library, publish, check_api_version, get_function_handle. keeps_auto; intros s2 Hs2; exact Hs2. }
    by apply (Hk s1 _ s' eq_refl E). }
  rewrite asked_app, Forall_app. split.
  - eapply Forall_impl; [|exact H]. intros ir Hir b slot Hd. rewrite Hs. by apply M1, (Hir b).
  - unfold asked. cbn [fmap list_fmap mjoin list_join]. rewrite Ec, app_nil_r. cbn [from_option]. eapply Forall_impl; [|exact H1].
    intros ir Hir b slot Hd. rewrite Hs. by apply (Hir b).
Qed.
Lemma link_processed num_events l s s' : link num_events l s = Some ([], s') -> Forall (processed_for s') (asked l).
Proof.
  unfold link_mods. cbv zeta. match goal with |- context [run_pass load l ?s1] => generalize s1 end. intros s0.
  destruct (run_pass load l s0) as [[e1 s1]|] eqn:E1; [|done]. cbn [mbind option_bind]. destruct e1; [|done].
  destruct (pass_done load (fun done s => Forall (processed_for s) (asked done)) (fun done i s2 s3 => load_processed done i s2 s3) l [] [] s0 s1) as [H1 _];
    [by apply Forall_nil_2|exact E1|].
  destruct (run_pass resolve l s1) as [[e2 s2]|] eqn:E2; [|done]. cbn [mbind option_bind]. destruct e2; [|done]. intros [= <-].
  eapply (run_pass_keeps (fun s => Forall (processed_for s) (asked l)) resolve l); [|exact H1|exact E2]. intros i.
  unfold resolve_code_dependencies, code_at, link_names, populate_reference_symbols, bind_import, add_callback, add_hook, replace_function, get_function_handle.
  pose proof find_import_keeps as Hi. pose proof find_event_keeps as He. keeps_auto; try apply Hi; try apply He; intros s3 H3; exact H3.
Qed.

(** ** Replacements *)

Lemma Forall2_impl_in {A B} (P Q : A -> B -> Prop) l l' : Forall2 P l l' -> (forall a b, a ∈ l -> P a b -> Q a b) -> Forall2 Q l l'.
Proof. induction 1 as [|a b l l' Hab Hl IH]; intros H; constructor; [apply H; [constructor|done]|]. apply IH. intros ? ? ?. apply H. by constructor. Qed.

(** A function asked to be replaced jumps to the mod's, is recorded under the mod's
    name, and no mod took it over another or, without asking for it, over the game's patches. *)
Definition takes_effect (s : link_state) (ir : nat * FunctionReplacement) (f : Z) : Prop :=
  target_of (repl_section_vrom (snd ir)) (repl_vram (snd ir)) = Some f /\
  (Force (snd ir) = true \/ base_patched_funcs !! f = None) /\
  exists h g d, code_handles s !! fst ir = Some h /\ recompiled h !! repl_func_index (snd ir) = Some g /\
    jump_target (host s) f = Some (u64 g) /\
    patched_funcs s !! f = Some d /\ mod_id ∘ manifest <$> opened_mods context !! fst ir = Some (patch_mod_id d).
(** C31: After a load without errors every function a mod asked to replace, by its section
    and address, starts with the instructions of a jump to exactly the mod's function,
    recorded under the mod's name; each has one replacement and no others are recorded; and
    neither another mod nor the regeneration of hooked functions, whose slots the
    replacements took, has overwritten it. *)
Theorem replacements_take_effect num_events l s s' :
  (forall f p, is_target f -> is_hooked p -> apart f p) ->
  (forall d p ir, is_Some (hook_slots !! d) -> redirected d p -> ir ∈ asked l -> target_of (repl_section_vrom (snd ir)) (repl_vram (snd ir)) = Some p ->
    section_rom d = repl_section_vrom (snd ir) /\ function_vram d = repl_vram (snd ir)) ->
  patched_funcs s = ∅ -> load_all num_events l s = Some ([], s') ->
  exists fs, Forall2 (takes_effect s') (asked l) fs /\ NoDup fs /\ forall f, is_Some (patched_funcs s' !! f) <-> f ∈ fs.
Proof.
  intros Hap Hone Hp E. unfold load_code in E. destruct (link num_events l s) as [[[|e0 es] s1]|] eqn:E1; [| |done]; cbn [mbind option_bind] in E; [|done].
  apply link_in_force in E1 as H1; [|done]. apply link_processed in E1 as Hpr. rewrite Forall_forall in Hpr.
  destruct (regen s1) as [[[[]|e] s2]|] eqn:E2; [|done..]. injection E as <-.
  assert (all_in_force (asked l) s2) as (fs & Hf & Hd & Hi).
  { eapply (regen_keeps (all_in_force (asked l))); [|exact H1|exact E2|]; [by intros t e s3 H3|].
    intros d slot p Hs Hu Hr dest s3 (fs & Hf & Hd & Hi). exists fs. split; [|by split].
    apply (Forall2_impl_in (in_force s3)); [exact Hf|]. intros ir f Hin (Ht & Hb & h & g & dd & Hh & Hg & Hj & Hpd & Hid).
    split; [done|]. split; [done|]. exists h, g, dd. split; [done|]. split; [done|]. split; [|done]. cbn [host set_patched].
    rewrite patch_frame; [done| | |apply length_trampoline].
    - destruct (Hap f p) as [->|?]; [by eexists _, _|by exists d, slot|by left|right; lia].
    - intros ->. destruct (Hone d f ir) as [Hr1 Hr2]; [by eexists|done|done|done|].
      pose proof (Hpr ir (proj1 (list_elem_of_In _ _) Hin) (at_return d) slot) as Hx. rewrite <- Hr1, <- Hr2 in Hx. destruct d as [dr dv db]. cbn in Hx. rewrite Hx in Hu by done. done. }
  exists fs. split; [|by split]. eapply Forall2_impl; [|exact Hf]. intros ir f (Ht & Hb & h & g & d & Hh & Hg & Hj & Hpd & Hid).
  split; [done|]. split; [done|]. exists h, g, d. split; [done|]. split; [done|]. split; [|done]. by apply trampoline_jumps.
Qed.
End Link.
