(* ===== verification/ModLinkSafe.v ===== *)
(** The code of mods: what the first pass leaves is enough for the others.  Slots
    and events are never out of range, whatever mods are loaded. *)

From Stdlib Require Import ZArith Lia ZifyBool Bool List.
From stdpp Require Import base list gmap strings option.
From S2P Require Import Prelude GuestMem Overlays ModManager ModHooks Rdram ModSections ModSectionsSpec ModLink ModLinkSpec.
Import N64Recomp.
Open Scope Z_scope.

(** * The numbers of the slots *)

Definition numbered (slots : gmap HookDefinition nat) : Prop :=
  (forall d k, slots !! d = Some k -> (k < base.size slots)%nat) /\
  (forall d d' k, slots !! d = Some k -> slots !! d' = Some k -> d = d').
Lemma add_hook_slot_numbered slots h : numbered slots -> numbered (add_hook_slot slots h) /\ is_Some (add_hook_slot slots h !! hook_definition h).
Proof.
  intros [H1 H2]. unfold add_hook_slot. destruct (slots !! hook_definition h) as [k|] eqn:E; [split; [done|by eexists]|].
  split; [|rewrite lookup_insert_eq; by eexists]. assert (base.size (<[hook_definition h := base.size slots]> slots) = S (base.size slots)) as Es by by apply map_size_insert_None.
  split; rewrite ?Es.
  - intros d k. destruct (decide (d = hook_definition h)) as [->|Hne]; [rewrite lookup_insert_eq; intros [= <-]; lia|].
    rewrite lookup_insert_ne by done. intros Hk. pose proof (H1 _ _ Hk). lia.
  - intros d d' k. destruct (decide (d = hook_definition h)) as [->|Hne], (decide (d' = hook_definition h)) as [->|Hne'];
      rewrite ?lookup_insert_eq, ?lookup_insert_ne by done; [done| | |apply H2].
    + intros [= <-] Hk. pose proof (H1 _ _ Hk). lia.
    + intros Hk [= <-]. pose proof (H1 _ _ Hk). lia.
Qed.
Lemma add_hook_slot_mono slots h d : is_Some (slots !! d) -> is_Some (add_hook_slot slots h !! d).
Proof.
  intros H. unfold add_hook_slot. destruct (slots !! hook_definition h); [done|]. by destruct (decide (d = hook_definition h)) as [->|Hne];
    [rewrite lookup_insert_eq|rewrite lookup_insert_ne].
Qed.
Lemma add_hook_slots_numbered hs : forall slots, numbered slots -> numbered (foldl add_hook_slot slots hs) /\
  (forall d, is_Some (slots !! d) -> is_Some (foldl add_hook_slot slots hs !! d)) /\
  (forall h, h ∈ hs -> is_Some (foldl add_hook_slot slots hs !! hook_definition h)).
Proof.
  induction hs as [|h hs IH]; intros slots Hn; cbn [foldl]; [split; [done|]; split; [done|by intros h ?%elem_of_nil]|].
  destruct (add_hook_slot_numbered slots h Hn) as [Hn' Hh]. destruct (IH _ Hn') as (H1 & H2 & H3). split; [done|]. split.
  - intros d Hd. by apply H2, add_hook_slot_mono.
  - intros h' [->|Hin]%elem_of_cons; [by apply H2|by apply H3].
Qed.
Lemma all_hook_slots_numbered cs : forall slots, numbered slots ->
  let slots' := foldl (fun s c => foldl add_hook_slot s (hooks c)) slots cs in
  numbered slots' /\ (forall d, is_Some (slots !! d) -> is_Some (slots' !! d)) /\
  forall c h, c ∈ cs -> h ∈ hooks c -> is_Some (slots' !! hook_definition h).
Proof.
  induction cs as [|c cs IH]; intros slots Hn; cbn [foldl]; [split; [done|]; split; [done|by intros c h ?%elem_of_nil]|].
  destruct (add_hook_slots_numbered (hooks c) slots Hn) as (H1 & H2 & H3). destruct (IH _ H1) as (H4 & H5 & H6). cbv zeta in *. split; [done|]. split.
  - intros d Hd. by apply H5, H2.
  - intros c' h [->|Hin]%elem_of_cons Hh; [by apply H5, H3|by apply (H6 c')].
Qed.

(** * Actions that are always defined

    From [P] the action is defined and leads to [Q], or in an error to [E]. *)
Definition safe {A} (P : link_state -> Prop) (a : action A) (Q : A -> link_state -> Prop) (E : link_state -> Prop) : Prop :=
  forall s, P s -> exists x s', a s = Some (x, s') /\ match x with inl v => Q v s' | inr _ => E s' end.
Lemma safe_bind {A B} (P : link_state -> Prop) (m : action A) (k : A -> action B) Q R E :
  safe P m Q E -> (forall v, safe (Q v) (k v) R E) -> safe P (bind m k) R E.
Proof.
  intros Hm Hk s H. destruct (Hm s H) as ([v|e] & s1 & E1 & H1); unfold bind; rewrite E1.
  - exact (Hk v s1 H1).
  - by exists (inr e), s1.
Qed.
Lemma safe_ret {A} (P : link_state -> Prop) (v : A) (Q : A -> link_state -> Prop) E : (forall s, P s -> Q v s) -> safe P (ret v) Q E.
Proof. intros H s Hs. exists (inl v), s. by split; [|apply H]. Qed.
Lemma safe_fail {A} (P : link_state -> Prop) e (Q : A -> link_state -> Prop) (E : link_state -> Prop) : (forall s, P s -> E s) -> safe P (fail e) Q E.
Proof. intros H s Hs. exists (inr e), s. by split; [|apply H]. Qed.
Lemma safe_get {A} (P : link_state -> Prop) (f : link_state -> A) E : safe P (get f) (fun v s => P s /\ v = f s) E.
Proof. intros s Hs. by exists (inl (f s)), s. Qed.
Lemma safe_modify (P : link_state -> Prop) f (Q : unit -> link_state -> Prop) E : (forall s, P s -> Q tt (f s)) -> safe P (modify f) Q E.
Proof. intros H s Hs. exists (inl tt), (f s). by split; [|apply H]. Qed.
Lemma safe_checked {A} (P : link_state -> Prop) (o : option A) (Q : A -> link_state -> Prop) E :
  (forall s, P s -> exists v, o = Some v /\ Q v s) -> safe P (checked o) Q E.
Proof. intros H s Hs. destruct (H s Hs) as (v & -> & Hv). by exists (inl v), s. Qed.
Lemma safe_required {A} (P : link_state -> Prop) e (o : option A) (E : link_state -> Prop) : (forall s, P s -> E s) ->
  safe P (required e o) (fun v s => P s /\ o = Some v) E.
Proof. intros H s Hs. destruct o as [v|]; [by exists (inl v), s|]. exists (inr e), s. by split; [|apply H]. Qed.
Lemma safe_guard (P : link_state -> Prop) e b (E : link_state -> Prop) : (forall s, P s -> E s) -> safe P (guard e b) (fun _ s => P s /\ b = true) E.
Proof. intros H s Hs. destruct b; [by exists (inl tt), s|]. exists (inr e), s. by split; [|apply H]. Qed.
Lemma safe_each {A} (P : link_state -> Prop) (f : A -> action unit) l E : (forall a, a ∈ l -> safe P (f a) (fun _ => P) E) -> safe P (each f l) (fun _ => P) E.
Proof.
  induction l as [|a l IH]; intros H; cbn [each]; [by apply safe_ret|]. apply (safe_bind _ _ _ (fun _ => P)); [apply H; constructor|].
  intros _. apply IH. intros b Hb. apply H. by constructor.
Qed.
Lemma safe_conseq {A} (P P' : link_state -> Prop) (a : action A) (Q Q' : A -> link_state -> Prop) (E E' : link_state -> Prop) :
  (forall s, P s -> P' s) -> (forall v s, Q' v s -> Q v s) -> (forall s, E' s -> E s) -> safe P' a Q' E' -> safe P a Q E.
Proof.
  intros HP HQ HE H s Hs. destruct (H s (HP s Hs)) as ([v|e] & s' & E1 & H1); [exists (inl v)|exists (inr e)]; exists s'; auto.
Qed.

(** * Errors that do not occur *)

Definition avoids {A} (e : CodeModLoadError) (a : action A) : Prop := forall s x s', a s = Some (x, s') -> x <> inr e.
Lemma avoids_bind {A B} e (m : action A) (k : A -> action B) : avoids e m -> (forall a, avoids e (k a)) -> avoids e (bind m k).
Proof.
  intros Hm Hk s x s' E. unfold bind in E. destruct (m s) as [[[a|e1] s1]|] eqn:E1; [by apply (Hk a s1 x s')| |done].
  injection E as <- <-. intros [= ->]. by apply (Hm s _ s1) in E1.
Qed.
Lemma avoids_ret {A} e (a : A) : avoids e (ret a).
Proof. by intros s x s' [= <- _]. Qed.
Lemma avoids_get {A} e (f : link_state -> A) : avoids e (get f).
Proof. by intros s x s' [= <- _]. Qed.
Lemma avoids_modify e f : avoids e (modify f).
Proof. by intros s x s' [= <- _]. Qed.
Lemma avoids_undefined {A} e : avoids e (undefined (A := A)).
Proof. by intros s x s' E. Qed.
Lemma avoids_checked {A} e (o : option A) : avoids e (checked o).
Proof. destruct o; [apply avoids_ret|apply avoids_undefined]. Qed.
Lemma avoids_fail {A} e e' : e' <> e -> avoids e (fail (A := A) e').
Proof. intros Hne s x s' [= <- _] E. by injection E. Qed.
Lemma avoids_required {A} e e' (o : option A) : e' <> e -> avoids e (required e' o).
Proof. intros Hne. destruct o; [apply avoids_ret|by apply avoids_fail]. Qed.
Lemma avoids_guard e e' b : e' <> e -> avoids e (guard e' b).
Proof. intros Hne. destruct b; [apply avoids_ret|by apply avoids_fail]. Qed.
Lemma avoids_each {A} e (f : A -> action unit) l : (forall a, a ∈ l -> avoids e (f a)) -> avoids e (each f l).
Proof.
  induction l as [|a l IH]; intros H; [apply avoids_ret|]. cbn [each]. apply avoids_bind; [apply H; constructor|intros _].
  apply IH. intros b Hb. apply H. by constructor.
Qed.
Create HintDb avoids.
#[export] Hint Resolve avoids_ret avoids_get avoids_modify avoids_undefined avoids_checked : avoids.
Ltac avoids_step :=
  match goal with
  | |- avoids _ (bind _ _) => apply avoids_bind; [|intros ?]
  | |- avoids _ (each _ _) => apply avoids_each; intros ? ?
  | |- avoids _ (required _ _) => apply avoids_required; discriminate
  | |- avoids _ (guard _ _) => apply avoids_guard; discriminate
  | |- avoids _ (fail _) => apply avoids_fail; discriminate
  | |- avoids _ (match ?x with _ => _ end) => destruct x
  | |- avoids _ _ => solve [auto with avoids]
  end.
Ltac avoids_auto := repeat avoids_step.
Lemma pass_avoids e (f : nat -> action unit) l : (forall i, i ∈ l -> avoids e (f i)) -> forall acc s errors s',
  foldl (pass_step f) (Some (acc, s)) l = Some (errors, s') -> (forall i, (i, e) ∉ acc) -> forall i, (i, e) ∉ errors.
Proof.
  induction l as [|j l IH]; intros Hf acc s errors s' E Hacc; cbn [foldl] in E; [by injection E as <- _|].
  unfold pass_step at 2 in E. cbn [mbind option_bind] in E. destruct (f j s) as [[x s1]|] eqn:E1; cbn [mbind option_bind] in E; [|by rewrite pass_none in E].
  apply (IH ltac:(intros; apply Hf; by constructor) _ _ _ _ E). intros i. destruct x as [|e1]; [apply Hacc|].
  intros [Hi|[= -> ->]%list_elem_of_singleton]%elem_of_app; [by apply (Hacc i)|]. by apply (Hf j ltac:(constructor)) in E1.
Qed.

(** A part of what holds. *)
Ltac first_part := let s := fresh in let Hs := fresh in intros s Hs; repeat (first [exact Hs | destruct Hs as [Hs _]]).

Section Link.
Context (arch : architecture) (context : ModContext) (code_of : gmap nat mod_code) (hook_slots : gmap HookDefinition nat)
  (base_event_indices : gmap nat nat) (DependencyBaseRecomp DependencySelf : string).
Context (code_sections : list (SectionTableEntry Z)) (code_sections_by_rom : gmap Z nat) (section_absolute : nat)
  (manual_patch_symbols_by_vram : gmap Z Z) (base_exports ext_base_exports : gmap string Z)
  (base_events : gmap string nat) (base_patched_funcs : gmap Z (nat * nat)).
Context (recompile : nat -> gmap nat nat -> gmap nat nat -> option (list Z * list (nat * Z)))
  (is_offline : nat -> bool) (offline_library : nat -> option dll) (is_regular_reference_section : nat -> bool)
  (native_libraries : nat -> list (option dll * list string)) (shim_of_export : Z -> nat -> Z) (shim_of_unmet : Z -> Z).
Abbreviation load := (load_mod_code code_of hook_slots base_event_indices recompile is_offline offline_library is_regular_reference_section native_libraries).
Abbreviation replace := (replace_function arch context code_sections code_sections_by_rom section_absolute manual_patch_symbols_by_vram base_patched_funcs).
Abbreviation resolve := (resolve_code_dependencies arch context code_of hook_slots DependencyBaseRecomp DependencySelf code_sections
  code_sections_by_rom section_absolute manual_patch_symbols_by_vram base_exports ext_base_exports base_events base_patched_funcs shim_of_export shim_of_unmet).
Abbreviation names := (link_names context code_of hook_slots DependencyBaseRecomp DependencySelf code_sections
  section_absolute manual_patch_symbols_by_vram base_exports ext_base_exports base_events shim_of_export shim_of_unmet).
Abbreviation link := (link_mods arch context code_of hook_slots base_event_indices DependencyBaseRecomp DependencySelf code_sections
  code_sections_by_rom section_absolute manual_patch_symbols_by_vram base_exports ext_base_exports base_events base_patched_funcs
  recompile is_offline offline_library is_regular_reference_section native_libraries shim_of_export shim_of_unmet).

(** ** What is asked of the symbols and of the recompiler *)

Definition num_functions (c : mod_code) : nat := length (functions (recompiler_context c)).
(** The indices of a mod's symbols stay in its tables. *)
Record indices_ok (i : nat) (c : mod_code) : Prop := {
  ok_addresses : length (section_load_addresses c) = length (sections (recompiler_context c));
  ok_callbacks : forall cb, cb ∈ callbacks (recompiler_context c) -> (function_index cb < num_functions c)%nat /\
    exists e, dependency_events (recompiler_context c) !! dependency_event_index cb = Some e /\
      (event_dependency_index e < length (dependencies_ordered (recompiler_context c)))%nat;
  ok_imports : forall im, im ∈ import_symbols (recompiler_context c) -> (dependency_index im < length (dependencies_ordered (recompiler_context c)))%nat;
  ok_hooks : forall h, h ∈ hooks (recompiler_context c) -> (hook_func_index h < num_functions c)%nat;
  ok_replacements : forall r, r ∈ replacements (recompiler_context c) -> (repl_func_index r < num_functions c)%nat;
  ok_exports : forall n k, exports_by_name c !! n = Some k -> (k < num_functions c)%nat;
  ok_events : forall n k, events_by_name c !! n = Some k -> (k < num_events (recompiler_context c))%nat;
  ok_opened : is_Some (opened_mods context !! i) }.

Context (total : nat) (l : list nat).
Hypothesis Hcode : forall i, i ∈ l <-> is_Some (code_of !! i).
Hypothesis Hok : forall i c, code_of !! i = Some c -> indices_ok i c.
Hypothesis Hevents : forall i c, code_of !! i = Some c -> (default 0 (base_event_indices !! i) + num_events (recompiler_context c) <= total)%nat.
Hypothesis Hbase : forall n e, base_events !! n = Some e -> (e < total)%nat.
Hypothesis Hslots : numbered hook_slots.
Hypothesis Hrecompile : forall i e r fs js c, recompile i e r = Some (fs, js) -> code_of !! i = Some c -> length fs = num_functions c.

(** ** The tables *)

Record tables_ok (s : link_state) : Prop := {
  len_processed : length (processed_hook_slots s) = base.size hook_slots;
  len_hooks : length (hook_table s) = base.size hook_slots;
  len_events : length (event_table s) = total;
  handles_ok : forall i h, code_handles s !! i = Some h -> exists c, code_of !! i = Some c /\
    length (recompiled h) = num_functions c /\ handle_base_event_index h = default 0%nat (base_event_indices !! i) }.
Definition ready (done : list nat) (s : link_state) : Prop := tables_ok s /\ forall i, i ∈ done -> is_Some (code_handles s !! i).
(** A change of state that leaves the tables and the handles as they are. *)
Lemma ready_same done s s' : length (processed_hook_slots s') = length (processed_hook_slots s) -> length (hook_table s') = length (hook_table s) ->
  length (event_table s') = length (event_table s) -> code_handles s' = code_handles s -> ready done s -> ready done s'.
Proof. intros E1 E2 E3 E4 [[H1 H2 H3 H4] H5]. split; [split|]; rewrite ?E1, ?E2, ?E3, ?E4; done. Qed.
Lemma ready_tables done s : ready done s -> tables_ok s.
Proof. by intros [H _]. Qed.

Lemma handle_safe done i c k E : code_of !! i = Some c -> (k < num_functions c)%nat -> i ∈ done ->
  safe (ready done) (get_function_handle i k) (fun _ => ready done) E.
Proof.
  intros Ec Hk Hi s [Ht Hh]. destruct (Hh i Hi) as [h Eh]. destruct (handles_ok s Ht i h Eh) as (c' & Ec' & El & _).
  assert (c' = c) as -> by congruence. destruct (lookup_lt_is_Some_2 (recompiled h) k) as [f Ef]; [lia|].
  exists (inl f), s. split; [|done]. cbv [get_function_handle bind get checked ret undefined]. by rewrite Eh, Ef.
Qed.
Lemma ready_fail done s : ready done s -> tables_ok s.
Proof. by intros [H _]. Qed.

(** ** The second pass *)

Lemma mark_processed_safe done d k : hook_slots !! d = Some k -> safe (ready done) (mark_processed k) (fun _ => ready done) tables_ok.
Proof.
  intros Ek s Hs. pose proof Hs as [Ht _]. pose proof (proj1 Hslots _ _ Ek) as Hk. rewrite <- (len_processed s Ht) in Hk.
  destruct (lookup_lt_is_Some_2 _ _ Hk) as [b Eb]. eexists (inl tt), _. cbv [mark_processed bind get modify]. rewrite Eb. split; [reflexivity|].
  eapply ready_same; [..|exact Hs]; [by cbn; rewrite length_insert|done|done|done].
Qed.
Lemma take_hooks_safe done b t r : safe (ready done) (take_hooks hook_slots b t r) (fun _ => ready done) tables_ok.
Proof.
  unfold take_hooks. destruct (hook_slots !! _) as [k|] eqn:Ek; [|by apply safe_ret].
  eapply safe_bind; [by eapply mark_processed_safe|]. intros ?; cbv beta. by apply safe_ret.
Qed.
Lemma replaced_hooks_safe done rs : forall e r, safe (ready done) (replaced_hooks hook_slots rs e r) (fun _ => ready done) tables_ok.
Proof.
  induction rs as [|x rs IH]; intros e r; cbn [replaced_hooks]; [by apply safe_ret|].
  eapply safe_bind; [apply take_hooks_safe|]. intros e'. eapply safe_bind; [apply take_hooks_safe|]. intros r'. apply IH.
Qed.
Lemma reset_safe done i : i ∉ done -> safe (ready done) (modify (reset_code_handle i)) (fun _ => ready done) tables_ok.
Proof.
  intros Hi. apply safe_modify. intros s [[H1 H2 H3 H4] H5]. split; [split; try done|].
  - intros j h. cbn. intros [_ Hj]%lookup_delete_Some. by apply H4.
  - intros j Hj. cbn. rewrite lookup_delete_ne; [by apply H5|]. intros ->. done.
Qed.
Lemma set_handle_safe done i c h : code_of !! i = Some c -> length (recompiled h) = num_functions c ->
  handle_base_event_index h = default 0%nat (base_event_indices !! i) ->
  safe (ready done) (modify (set_code_handle i h)) (fun _ => ready (done ++ [i])) tables_ok.
Proof.
  intros Ec El Eb. apply safe_modify. intros s [[H1 H2 H3 H4] H5]. split; [split; try done|]; cbn.
  - intros j h'. destruct (decide (j = i)) as [->|Hne]; [rewrite lookup_insert_eq; intros [= <-]; by exists c|rewrite lookup_insert_ne by done; apply H4].
  - intros j [Hj|Hj%list_elem_of_singleton]%elem_of_app.
    + destruct (decide (j = i)) as [->|Hne]; [rewrite lookup_insert_eq; by eexists|rewrite lookup_insert_ne by done; by apply H5].
    + subst j. rewrite lookup_insert_eq. by eexists.
Qed.
Lemma library_handle_ok d c b h : library_handle is_regular_reference_section d (recompiler_context c) b = Some h ->
  length (recompiled h) = num_functions c /\ handle_base_event_index h = b.
Proof.
  unfold library_handle. destruct (mapM _ _) as [fs|] eqn:E; [|done]. cbn [mbind option_bind]. destruct (forallb _ _); [|done]. intros [= <-]. cbn.
  split; [|done]. apply length_mapM in E. rewrite <- E. apply length_imap.
Qed.
Lemma make_handle_safe done i c e r : code_of !! i = Some c -> i ∉ done ->
  safe (ready done) (make_handle base_event_indices recompile is_offline offline_library is_regular_reference_section i (recompiler_context c) e r)
    (fun _ => ready (done ++ [i])) tables_ok.
Proof.
  intros Ec Hi. unfold make_handle. destruct (is_offline i).
  - eapply safe_bind; [apply safe_guard, ready_tables|]. intros ?; cbv beta. eapply safe_bind.
    { eapply safe_conseq; [| | |by apply (reset_safe done)]; [by intros s [? _]|by intros ? ? H; exact H|done]. }
    intros ?; cbv beta. eapply safe_bind; [apply safe_required, ready_tables|]. intros d. eapply safe_bind; [apply safe_required; by intros s [[? _] _]|].
    intros h. cbv beta. intros s ([Hs _] & Eh). apply library_handle_ok in Eh as [E1 E2]. revert s Hs.
    eapply safe_bind; [by apply (set_handle_safe done i c)|]. intros ?; cbv beta. unfold check_api_version. destruct (validate_api_version _); [by apply safe_fail, ready_tables|by apply safe_ret].
  - eapply safe_bind; [by apply reset_safe|]. intros ?; cbv beta. eapply safe_bind; [apply safe_required, ready_tables|]. intros [fs js] s [Hs E].
    revert s Hs. apply (set_handle_safe done i c); [done|cbn; by eapply Hrecompile|done].
Qed.
Lemma check_api_version_safe P v (E : link_state -> Prop) : (forall s, P s -> E s) -> safe P (check_api_version v) (fun _ => P) E.
Proof. intros H. unfold check_api_version. destruct (validate_api_version v); [by apply safe_fail|by apply safe_ret]. Qed.
Lemma native_exports_safe done i t : safe (ready done) (modify (set_native_exports i t)) (fun _ => ready done) tables_ok.
Proof. apply safe_modify. intros s. by apply ready_same. Qed.
Lemma load_native_library_safe done i lib : safe (ready done) (load_native_library i lib) (fun _ => ready done) tables_ok.
Proof.
  unfold load_native_library. eapply safe_bind; [apply safe_required, ready_tables|]. intros d; cbv beta.
  eapply (safe_conseq _ (ready done)); [by intros s [? _]|by intros ? s Hs; exact Hs|by intros s Hs; exact Hs|].
  eapply safe_bind; [apply check_api_version_safe, ready_tables|]. intros ?; cbv beta.
  eapply safe_bind; [apply native_exports_safe|]. intros ?; cbv beta. apply safe_each. intros x Hx.
  eapply safe_bind; [apply safe_get|]. intros t; cbv beta.
  eapply (safe_conseq _ (ready done)); [by intros s [? _]|by intros ? s Hs; exact Hs|by intros s Hs; exact Hs|].
  eapply safe_bind; [apply safe_guard, ready_tables|]. intros ?; cbv beta.
  eapply safe_bind; [apply safe_required; by intros s [[? _] _]|]. intros f; cbv beta.
  eapply (safe_conseq _ (ready done)); [by intros s [[? _] _]|by intros ? s Hs; exact Hs|by intros s Hs; exact Hs|]. apply native_exports_safe.
Qed.
Lemma publish_safe done i c x : code_of !! i = Some c -> i ∈ done -> (fst x < num_functions c)%nat ->
  safe (ready done) (publish i c x) (fun _ => ready done) tables_ok.
Proof.
  destruct x as [k f]. intros Ec Hi Hk. unfold publish. destruct (sections (recompiler_context c) !! section_index f) as [sc|] eqn:Es; [|apply safe_fail, ready_tables].
  eapply safe_bind.
  { apply (safe_checked _ _ (fun _ => ready done)). intros s Hs. apply lookup_lt_Some in Es. rewrite <- (ok_addresses i c (Hok i c Ec)) in Es.
    destruct (lookup_lt_is_Some_2 _ _ Es) as [a Ea]. by exists a. }
  intros a; cbv beta. eapply safe_bind; [by apply (handle_safe done i c)|]. intros h; cbv beta. apply safe_modify. intros s. by apply ready_same.
Qed.
Lemma load_safe done i : i ∈ l -> i ∉ done -> safe (ready done) (load i) (fun _ => ready (done ++ [i])) tables_ok.
Proof.
  intros Hi Hn. apply Hcode in Hi as [c Ec]. assert (i ∈ done ++ [i]) as Hin by (apply elem_of_app; right; by apply list_elem_of_singleton).
  unfold load_mod_code. eapply safe_bind.
  { apply (safe_checked _ _ (fun v s => ready done s /\ v = c)). intros s Hs. by exists c. }
  intros c'; cbv beta. intros s [Hs ->]. revert s Hs. change (safe (ready done) (hooked <- replaced_hooks hook_slots (replacements (recompiler_context c)) ∅ ∅;;
    make_handle base_event_indices recompile is_offline offline_library is_regular_reference_section i (recompiler_context c) (fst hooked) (snd hooked);;
    each (load_native_library i) (native_libraries i);;
    each (publish i c) (imap pair (functions (recompiler_context c))))%action (fun _ => ready (done ++ [i])) tables_ok).
  eapply safe_bind; [apply replaced_hooks_safe|]. intros hk; cbv beta. eapply safe_bind; [by apply (make_handle_safe done i c)|]. intros ?; cbv beta.
  eapply safe_bind; [apply safe_each; intros x _; apply load_native_library_safe|]. intros ?; cbv beta. apply safe_each. intros x Hx.
  apply (publish_safe _ i c); [done|done|]. apply list_elem_of_lookup in Hx as [k Hx]. rewrite list_lookup_imap in Hx.
  destruct (functions (recompiler_context c) !! k) eqn:Ek; [|done]. injection Hx as <-. by apply lookup_lt_Some in Ek.
Qed.

(** ** The third pass *)

Lemma event_index_safe i n : i ∈ l -> forall s, ready l s -> exists e, get_global_event_index code_of i n s = Some (inl e, s) /\ forall k, e = Some k -> (k < total)%nat.
Proof.
  intros Hi s [Ht Hh]. unfold get_global_event_index. apply Hcode in Hi as Hc. destruct Hc as [c Ec]. rewrite Ec. cbn [mbind option_bind].
  destruct (events_by_name c !! n) as [k|] eqn:Ek; [|by exists None]. destruct (Hh i Hi) as [h Eh].
  exists (Some (handle_base_event_index h + k)%nat). cbv [bind get checked ret undefined]. rewrite Eh. split; [done|]. intros k' [= <-].
  destruct (handles_ok s Ht i h Eh) as (c' & Ec' & _ & ->). assert (c' = c) as -> by congruence.
  pose proof (ok_events i c (Hok i c Ec) n k Ek). pose proof (Hevents i c Ec). lia.
Qed.
Lemma find_event_safe i d n : i ∈ l ->
  safe (ready l) (find_event context code_of DependencyBaseRecomp DependencySelf base_events i d n)
    (fun v s => ready l s /\ forall k, fst v = Some k -> (k < total)%nat) (ready l).
Proof.
  intros Hi. unfold find_event. case_bool_decide; [apply safe_ret; intros s Hs; split; [done|]; cbn; intros k Hk; by eapply Hbase|].
  assert (forall j, safe (ready l) (e <- get_global_event_index code_of j n;; ret (e, false))%action
    (fun v s => ready l s /\ forall k, fst v = Some k -> (k < total)%nat) (ready l)) as Hg.
  { intros j s Hs. destruct (code_of !! j) as [c|] eqn:Ec.
    - assert (j ∈ l) as Hjl by (apply Hcode; by eexists). destruct (event_index_safe j n Hjl s Hs) as (e & Ee & Hk). exists (inl (e, false)), s. unfold bind. rewrite Ee. done.
    - exists (inl (None, false)), s. unfold get_global_event_index. rewrite Ec. done. }
  case_bool_decide; [by apply Hg|]. destruct (loaded_mods_by_id context !! d) as [j|] eqn:Ej; [by apply Hg|].
  destruct (from_option _ _ _); [by apply safe_ret|by apply safe_fail].
Qed.

Lemma get_export_safe i n : safe (ready l) (get_export_function code_of i n) (fun _ => ready l) (ready l).
Proof.
  unfold get_export_function. destruct (code_of !! i) as [c|] eqn:Ec; cbn [mbind option_bind].
  - destruct (exports_by_name c !! n) as [k|] eqn:Ek.
    + eapply safe_bind; [apply (handle_safe l i c); [done|by apply (ok_exports i c (Hok i c Ec) n)|apply Hcode; by eexists]|].
      intros h; cbv beta. by apply safe_ret.
    + eapply safe_bind; [apply safe_get|]. intros t; cbv beta. apply safe_ret. by intros s [? _].
  - eapply safe_bind; [apply safe_get|]. intros t; cbv beta. apply safe_ret. by intros s [? _].
Qed.
Lemma find_import_safe i k d n : safe (ready l)
  (find_import context code_of DependencyBaseRecomp DependencySelf base_exports ext_base_exports shim_of_export shim_of_unmet i k d n) (fun _ => ready l) (ready l).
Proof.
  unfold find_import. case_bool_decide; [by apply safe_ret|]. case_bool_decide; [apply get_export_safe|].
  destruct (loaded_mods_by_id context !! d); [apply get_export_safe|]. destruct (manifest_dependency _ _ _); [by apply safe_ret|by apply safe_fail].
Qed.
Lemma bind_import_safe i c x : code_of !! i = Some c -> snd x ∈ import_symbols (recompiler_context c) ->
  safe (ready l) (bind_import context code_of DependencyBaseRecomp DependencySelf base_exports ext_base_exports shim_of_export shim_of_unmet i (recompiler_context c) x)
    (fun _ => ready l) (ready l).
Proof.
  destruct x as [k im]. intros Ec Hin. unfold bind_import. eapply safe_bind.
  { apply (safe_checked _ _ (fun _ => ready l)). intros s Hs. destruct (lookup_lt_is_Some_2 _ _ (ok_imports i c (Hok i c Ec) im Hin)) as [d Ed]. by exists d. }
  intros d; cbv beta. eapply safe_bind; [apply find_import_safe|]. intros f; cbv beta. eapply safe_bind; [by apply safe_required|].
  intros g; cbv beta. apply safe_modify. intros s [Hs _]. revert Hs. by apply ready_same.
Qed.
Lemma add_callback_safe i c cb : code_of !! i = Some c -> cb ∈ callbacks (recompiler_context c) ->
  safe (ready l) (add_callback context code_of DependencyBaseRecomp DependencySelf base_events i (recompiler_context c) cb) (fun _ => ready l) (ready l).
Proof.
  intros Ec Hin. assert (i ∈ l) as Hi by (apply Hcode; by eexists). destruct (ok_callbacks i c (Hok i c Ec) cb Hin) as (Hf & e & Ee & He).
  unfold add_callback. eapply safe_bind; [apply (safe_checked _ _ (fun v s => ready l s /\ v = e)); intros s Hs; by exists e|].
  intros e' s [Hs ->]. revert s Hs. destruct (lookup_lt_is_Some_2 _ _ He) as [d Ed].
  eapply safe_bind; [apply (safe_checked _ _ (fun _ => ready l)); intros s Hs; by exists d|]. intros d'; cbv beta.
  eapply safe_bind; [by apply (handle_safe l i c)|]. intros h; cbv beta. eapply safe_bind; [by apply find_event_safe|].
  intros [[k|] o]; cbv beta; cbn [fst].
  - intros s [Hs Hk]. pose proof (Hk k eq_refl) as Hlt. pose proof Hs as [Ht _]. rewrite <- (len_events s Ht) in Hlt.
    destruct (lookup_lt_is_Some_2 _ _ Hlt) as [ls Els]. eexists (inl tt), _. cbv [bind get checked ret modify undefined register_event_callback at_index].
    rewrite Els. cbn [mbind option_bind]. split; [reflexivity|]. revert Hs. apply ready_same; try done. cbn. by rewrite length_insert.
  - eapply safe_conseq; [| | |by apply (safe_guard (ready l))]; [by intros s [? _]|by intros ? s [? _]|done].
Qed.
Lemma add_hook_safe i c h : code_of !! i = Some c -> h ∈ hooks (recompiler_context c) ->
  safe (ready l) (add_hook hook_slots i h) (fun _ => ready l) (ready l).
Proof.
  intros Ec Hin. assert (i ∈ l) as Hi by (apply Hcode; by eexists). unfold add_hook.
  eapply safe_bind; [by apply safe_required|]. intros k s [Hs Ek]. revert s Hs.
  eapply safe_bind; [apply (handle_safe l i c); [done|by apply (ok_hooks i c (Hok i c Ec))|done]|]. intros f s Hs. pose proof Hs as [Ht _].
  pose proof (proj1 Hslots _ _ Ek) as Hk. rewrite <- (len_hooks s Ht) in Hk. destruct (lookup_lt_is_Some_2 _ _ Hk) as [sl Esl].
  eexists (inl tt), _. cbv [bind get checked ret modify undefined register_hook at_index]. rewrite Esl. cbn [mbind option_bind]. split; [reflexivity|].
  revert Hs. apply ready_same; try done. cbn. by rewrite length_insert.
Qed.
Lemma replace_safe i c r : code_of !! i = Some c -> r ∈ replacements (recompiler_context c) -> safe (ready l) (replace i r) (fun _ => ready l) (ready l).
Proof.
  intros Ec Hin. assert (i ∈ l) as Hi by (apply Hcode; by eexists). unfold replace_function.
  eapply safe_bind; [by apply safe_required|]. intros f; cbv beta. eapply safe_bind; [apply safe_guard; first_part|].
  intros ?; cbv beta. eapply (safe_conseq _ (ready l)); [first_part|by intros ? s Hs; exact Hs|by intros s Hs; exact Hs|].
  eapply safe_bind; [apply safe_get|]. intros p; cbv beta. eapply safe_bind; [apply safe_guard; first_part|]. intros ?; cbv beta.
  eapply (safe_conseq _ (ready l)); [first_part|by intros ? s Hs; exact Hs|by intros s Hs; exact Hs|].
  eapply safe_bind; [apply safe_get|]. intros m; cbv beta. destruct (ok_opened i c (Hok i c Ec)) as [mh Emh].
  eapply safe_bind; [apply (safe_checked _ _ (fun _ => ready l)); intros s [Hs _]; rewrite Emh; by eexists|]. intros id; cbv beta.
  eapply safe_bind; [apply (handle_safe l i c); [done|by apply (ok_replacements i c (Hok i c Ec))|done]|]. intros g; cbv beta.
  apply safe_modify. intros s. by apply ready_same.
Qed.
Lemma populate_safe i : i ∈ l -> safe (ready l) (populate_reference_symbols code_sections section_absolute manual_patch_symbols_by_vram i) (fun _ => ready l) (ready l).
Proof.
  intros Hi. unfold populate_reference_symbols. eapply safe_bind; [apply safe_get|]. intros h; cbv beta.
  eapply safe_bind.
  { apply (safe_checked _ _ (fun _ => ready l)). intros s [Hs ->]. destruct Hs as [Ht Hh]. destruct (Hh i Hi) as [h' Eh]. by exists h'. }
  intros h'; cbv beta. apply safe_each. intros [a b] _. eapply safe_conseq; [| | |by apply (safe_guard (ready l))]; [done|by intros ? s [? _]|done].
Qed.
Lemma elem_imap_pair {A} (xs : list A) x : x ∈ imap pair xs -> snd x ∈ xs.
Proof.
  intros Hx. apply list_elem_of_lookup in Hx as [k Hx]. rewrite list_lookup_imap in Hx. destruct (xs !! k) eqn:Ek; [|done].
  injection Hx as <-. by eapply list_elem_of_lookup_2.
Qed.
Lemma resolve_safe i : i ∈ l -> safe (ready l) (resolve i) (fun _ => ready l) (ready l).
Proof.
  intros Hi. pose proof Hi as Hc. apply Hcode in Hc as [c Ec]. unfold resolve_code_dependencies. eapply safe_bind.
  { apply (safe_checked _ _ (fun v s => ready l s /\ v = c)). intros s Hs. by exists c. }
  intros c' s [Hs ->]. revert s Hs. eapply safe_bind; [|intros ?; cbv beta; apply safe_each; intros r Hr; by apply (replace_safe i c)].
  unfold link_names. eapply safe_bind; [by apply populate_safe|]. intros ?; cbv beta.
  eapply safe_bind; [apply safe_each; intros x Hx; apply (bind_import_safe i c); [done|by apply elem_imap_pair]|]. intros ?; cbv beta.
  eapply safe_bind; [apply safe_each; intros x Hx; by apply (add_callback_safe i c)|]. intros ?; cbv beta.
  eapply safe_bind; [apply safe_each; intros x Hx; by apply (add_hook_safe i c)|]. intros ?; cbv beta.
  apply safe_modify. intros s. by apply ready_same.
Qed.

(** ** Together *)

Lemma load_pass_safe l' : forall done e s, (forall i, i ∈ l' -> i ∈ l) -> NoDup (done ++ l') -> tables_ok s -> (e = [] -> ready done s) ->
  exists e' s', foldl (pass_step load) (Some (e, s)) l' = Some (e', s') /\ (e' = [] -> ready (done ++ l') s').
Proof.
  induction l' as [|i l' IH]; intros done e s Hl Hd Ht Hr; cbn [foldl].
  { exists e, s. split; [done|]. by rewrite app_nil_r. }
  assert (i ∈ l) as Hi by (apply Hl; constructor). unfold pass_step at 2. cbn [mbind option_bind].
  replace (done ++ i :: l') with ((done ++ [i]) ++ l') in * by by rewrite <- app_assoc.
  assert (i ∉ done) as Hn.
  { intros Hin. rewrite <- app_assoc in Hd. apply list.NoDup_app in Hd as (_ & Hd & _). apply (Hd i Hin). constructor. }
  destruct e as [|e0 e].
  - destruct (load_safe done i Hi Hn s (Hr eq_refl)) as (x & s1 & -> & H1). cbn [mbind option_bind]. apply IH; [intros; apply Hl; by constructor|done| |].
    + destruct x; [by destruct H1|done].
    + by destruct x.
  - destruct (load_safe [] i Hi ltac:(by intros ?%elem_of_nil) s) as (x & s1 & -> & H1); [split; [done|by intros ? ?%elem_of_nil]|].
    cbn [mbind option_bind]. apply IH; [intros; apply Hl; by constructor|done| |].
    + destruct x; [by destruct H1|done].
    + by destruct x.
Qed.
Lemma resolve_pass_safe l' : (forall i, i ∈ l' -> i ∈ l) -> forall e s, ready l s ->
  exists e' s', foldl (pass_step resolve) (Some (e, s)) l' = Some (e', s').
Proof.
  intros Hl. induction l' as [|i l' IH]; intros e s Hs; cbn [foldl]; [by exists e, s|].
  unfold pass_step at 2. cbn [mbind option_bind]. destruct (resolve_safe i (Hl i ltac:(constructor)) s Hs) as (x & s1 & -> & H1). cbn [mbind option_bind].
  apply IH; [intros; apply Hl; by constructor|]. by destruct x.
Qed.
Lemma link_defined s : NoDup l -> (length (hook_table s) <= base.size hook_slots)%nat -> (length (event_table s) <= total)%nat -> code_handles s = ∅ ->
  exists errors s', link total l s = Some (errors, s').
Proof.
  intros Hd Hh He Hc. unfold link_mods. cbv zeta. match goal with |- context [run_pass load l ?s1] => set (s0 := s1) end.
  assert (forall A (a : A) n xs, (length xs <= n)%nat -> length (resize n a xs) = n) as Hr.
  { intros A a n xs Hx. unfold resize. rewrite length_app, length_take, length_replicate. lia. }
  assert (tables_ok s0) as H0.
  { split; cbn; [apply length_replicate|by apply Hr|by apply Hr|]. rewrite Hc. intros i h Hi. by rewrite lookup_empty in Hi. }
  destruct (load_pass_safe l [] [] s0 ltac:(done) Hd H0) as (e1 & s1 & E1 & H1); [intros _; split; [done|by intros ? ?%elem_of_nil]|].
  unfold run_pass. rewrite E1. cbn [mbind option_bind]. destruct e1; [|by eexists _, _].
  destruct (resolve_pass_safe l ltac:(done) [] s1 (H1 eq_refl)) as (e2 & s2 & ->). cbn [mbind option_bind]. destruct e2; by eexists _, _.
Qed.

(** ** Dependencies that the manifest declares *)

(** The names a mod's symbols depend on are declared, and its required dependencies
    are loaded. *)
Definition dependencies_ok (i : nat) (c : Context) : Prop := exists m, opened_mods context !! i = Some m /\
  (forall id, id ∈ dependencies_ordered c -> id = DependencyBaseRecomp \/ id = DependencySelf \/ in_manifest (manifest m) id = true) /\
  (forall d, d ∈ dependencies (manifest m) -> optional d = false -> is_Some (loaded_mods_by_id context !! dep_mod_id d)).
Lemma manifest_dependency_found i c id : dependencies_ok i c -> id ∈ dependencies_ordered c -> id <> DependencyBaseRecomp -> id <> DependencySelf ->
  loaded_mods_by_id context !! id = None -> exists d, manifest_dependency context i id = Some d /\ optional d = true.
Proof.
  intros (m & Em & Hd & Hreq) Hid Hb Hs Hl. destruct (Hd id Hid) as [|[|Hin]]; [done..|]. unfold manifest_dependency. rewrite Em. cbn [mbind option_bind].
  destruct (find _ _) as [d|] eqn:Ef.
  - apply find_some in Ef as [Hdin Heq%bool_decide_eq_true]. exists d. split; [done|]. destruct (optional d) eqn:Eo; [done|].
    destruct (Hreq d) as [x Hx]; [by apply list_elem_of_In|done|]. rewrite Heq, Hl in Hx. done.
  - unfold in_manifest in Hin. apply existsb_exists in Hin as (d & Hdin & Heq). by rewrite (find_none _ _ Ef d Hdin) in Heq.
Qed.
Hypothesis Hdeps : forall i c, code_of !! i = Some c -> dependencies_ok i (recompiler_context c).
Hypothesis Hhooked : forall i c h, code_of !! i = Some c -> h ∈ hooks (recompiler_context c) -> is_Some (hook_slots !! hook_definition h).
Lemma check_api_avoids v : avoids InternalError (check_api_version v).
Proof. unfold check_api_version, validate_api_version. destruct (v =? 1); [auto with avoids|]. by destruct (v =? 0xFFFFFFFF); apply avoids_fail. Qed.
#[local] Hint Resolve check_api_avoids : avoids.
Lemma load_avoids i : avoids InternalError (load i).
Proof.
  unfold load_mod_code, code_at, make_handle, load_native_library, publish, get_function_handle.
  assert (forall l e r, avoids InternalError (replaced_hooks hook_slots l e r)) as Hr.
  { induction l0 as [|x l0 IH]; intros e r; cbn [replaced_hooks]; [apply avoids_ret|]. unfold take_hooks, mark_processed. avoids_auto. }
  avoids_auto.
Qed.
Lemma get_export_avoids i n : avoids InternalError (get_export_function code_of i n).
Proof. unfold get_export_function, get_function_handle. avoids_auto. Qed.
Lemma get_event_avoids i n : avoids InternalError (get_global_event_index code_of i n).
Proof. unfold get_global_event_index. avoids_auto. Qed.
Lemma find_import_avoids i c k id n : dependencies_ok i c -> id ∈ dependencies_ordered c ->
  avoids InternalError (find_import context code_of DependencyBaseRecomp DependencySelf base_exports ext_base_exports shim_of_export shim_of_unmet i k id n).
Proof.
  intros Hd Hid. unfold find_import. case_bool_decide as Hb; [auto with avoids|]. case_bool_decide as Hs; [apply get_export_avoids|].
  destruct (loaded_mods_by_id context !! id) eqn:El; [apply get_export_avoids|].
  destruct (manifest_dependency_found i c id Hd Hid Hb Hs El) as (d & -> & _). auto with avoids.
Qed.
Lemma find_event_avoids i c id n : dependencies_ok i c -> id ∈ dependencies_ordered c ->
  avoids InternalError (find_event context code_of DependencyBaseRecomp DependencySelf base_events i id n).
Proof.
  intros Hd Hid. unfold find_event. case_bool_decide as Hb; [auto with avoids|]. pose proof get_event_avoids as Hg.
  case_bool_decide as Hs; [avoids_auto; apply Hg|]. destruct (loaded_mods_by_id context !! id) eqn:El; [avoids_auto; apply Hg|].
  destruct (manifest_dependency_found i c id Hd Hid Hb Hs El) as (d & -> & Ho). cbn [from_option]. rewrite Ho. auto with avoids.
Qed.
Lemma checked_avoids {A B} e (o : option A) (k : A -> action B) : (forall a, o = Some a -> avoids e (k a)) -> avoids e (bind (checked o) k).
Proof. intros Hk s x s' E. unfold bind, checked in E. destruct o as [a|]; [|done]. by apply (Hk a eq_refl s x s'). Qed.
Lemma resolve_avoids i : avoids InternalError (resolve i).
Proof.
  unfold resolve_code_dependencies, code_at. apply checked_avoids. intros c Ec. pose proof (Hdeps i c Ec) as Hd.
  unfold link_names, populate_reference_symbols, add_hook, replace_function, get_function_handle.
  repeat (apply avoids_bind; [|intros _]); try (avoids_auto; fail).
  - apply avoids_each. intros [k im] _. unfold bind_import. apply checked_avoids. intros id Hid. apply avoids_bind; [|intros ?; avoids_auto].
    apply (find_import_avoids i (recompiler_context c)); [done|]. by eapply list_elem_of_lookup_2.
  - apply avoids_each. intros cb _. unfold add_callback, get_function_handle. apply avoids_bind; [auto with avoids|]. intros e. apply checked_avoids. intros id Hid.
    apply avoids_bind; [avoids_auto|intros func]. apply avoids_bind; [|intros [[]]; avoids_auto].
    apply (find_event_avoids i (recompiler_context c)); [done|]. by eapply list_elem_of_lookup_2.
  - apply avoids_each. intros h Hh. destruct (Hhooked i c h Ec Hh) as [slot ->]. cbn [required]. avoids_auto.
Qed.
Lemma link_avoids l' s errors s' : link total l' s = Some (errors, s') -> forall i, (i, InternalError) ∉ errors.
Proof.
  unfold link_mods. cbv zeta. match goal with |- context [run_pass load l' ?s1] => generalize s1 end. intros s0. unfold run_pass.
  destruct (foldl (pass_step load) _ l') as [[e1 s1]|] eqn:E1; [|done]. cbn [mbind option_bind].
  pose proof (pass_avoids InternalError load l' (fun i _ => load_avoids i) _ _ _ _ E1 (fun i => not_elem_of_nil _)) as H1. destruct e1; [|by intros [= <- _]].
  destruct (foldl (pass_step resolve) _ l') as [[e2 s2]|] eqn:E2; [|done]. cbn [mbind option_bind].
  pose proof (pass_avoids InternalError resolve l' (fun i _ => resolve_avoids i) _ _ _ _ E2 (fun i => not_elem_of_nil _)) as H2. by destruct e2; intros [= <- _].
Qed.
End Link.

(** * The passes together *)

(** The indices in a mod's symbols are indices of its tables. *)
Record context_ok (c : Context) : Prop := {
  cok_callbacks : forall cb, cb ∈ callbacks c -> (function_index cb < length (functions c))%nat /\
    exists e, dependency_events c !! dependency_event_index cb = Some e /\ (event_dependency_index e < length (dependencies_ordered c))%nat;
  cok_imports : forall im, im ∈ import_symbols c -> (dependency_index im < length (dependencies_ordered c))%nat;
  cok_hooks : forall h, h ∈ hooks c -> (hook_func_index h < length (functions c))%nat;
  cok_replacements : forall r, r ∈ replacements c -> (repl_func_index r < length (functions c))%nat }.

Lemma index_names_elem l : forall t n k, foldl (fun t '(n, i) => emplace n i t) t l !! n = Some k -> t !! n = Some k \/ (n, k) ∈ l.
Proof.
  induction l as [|[n0 k0] l IH]; intros t n k H; cbn [foldl] in H; [by left|]. apply IH in H as [H|H]; [|right; by constructor].
  unfold emplace in H. destruct (t !! n0) eqn:E; [by left|]. destruct (decide (n = n0)) as [->|Hne].
  - rewrite lookup_insert_eq in H. injection H as <-. right. constructor.
  - rewrite lookup_insert_ne in H by done. by left.
Qed.
Lemma populate_events_bound c n k : populate_events c !! n = Some k -> (k < num_events c)%nat.
Proof.
  intros H. apply index_names_elem in H as [H|H]; [by rewrite lookup_empty in H|]. apply list_elem_of_lookup in H as [j H].
  rewrite list_lookup_imap in H. destruct (event_symbols c !! j) eqn:E; [|done]. injection H as _ <-. by apply lookup_lt_Some in E.
Qed.
Lemma populate_exports_bound c n k : populate_exports c !! n = Some k -> (k < length (functions c))%nat.
Proof.
  intros H. apply index_names_elem in H as [H|H]; [by rewrite lookup_empty in H|]. apply list_elem_of_omap in H as (j & _ & H).
  destruct (functions c !! j) eqn:E; [|done]. injection H as _ <-. by apply lookup_lt_Some in E.
Qed.
Lemma events_before_le n cs : (n <= events_before n cs)%nat.
Proof. revert n. induction cs as [|c cs IH]; intros n; [done|]. unfold events_before in *. cbn [foldl]. pose proof (IH (n + num_events c)%nat). lia. Qed.
Lemma events_before_S n cs k c : cs !! k = Some c -> (events_before n (take k cs) + num_events c <= events_before n cs)%nat.
Proof.
  intros E. rewrite <- (take_drop (S k) cs) at 2. rewrite (take_S_r _ _ _ E). unfold events_before. rewrite !foldl_app. cbn [foldl].
  apply events_before_le.
Qed.
Lemma empty_numbered : numbered ∅.
Proof. split; [intros d k H|intros d d' k H]; by rewrite lookup_empty in H. Qed.

Section Whole.
Context {M : Type} `{RL : RdramLaws M}.
Context (arch : architecture) (context : ModContext) (parse_mod_symbols : list Z -> list Z -> option Context)
  (DependencyBaseRecomp DependencySelf : string) (hooks_available : bool).
Context (code_sections : list (SectionTableEntry Z)) (code_sections_by_rom : gmap Z nat) (section_absolute : nat)
  (manual_patch_symbols_by_vram : gmap Z Z) (base_exports ext_base_exports : gmap string Z)
  (base_events : gmap string nat) (base_patched_funcs : gmap Z (nat * nat)).
Context (recompile : nat -> gmap nat nat -> gmap nat nat -> option (list Z * list (nat * Z)))
  (is_offline : nat -> bool) (offline_library : nat -> option dll) (is_regular_reference_section : nat -> bool)
  (native_libraries : nat -> list (option dll * list string)) (shim_of_export : Z -> nat -> Z) (shim_of_unmet : Z -> Z).

Abbreviation a_mod := (nat * ModManifest * mod_files)%type.
Abbreviation index_of := (fun x : a_mod => fst (fst x)).
Abbreviation link_after := (fun r : pass_result (M := M) => link_mods arch context (code_of (state r)) (hook_slots (state r)) (base_event_indices (state r))
  DependencyBaseRecomp DependencySelf code_sections code_sections_by_rom section_absolute manual_patch_symbols_by_vram base_exports ext_base_exports
  base_events base_patched_funcs recompile is_offline offline_library is_regular_reference_section native_libraries shim_of_export shim_of_unmet
  (total_events (state r))).

(** The code a mod has passed the check of its names against its manifest. *)
Definition all_declared (l : list a_mod) (st : pass_state (M := M)) : Prop := forall i c, code_of st !! i = Some c ->
  exists mf f, (i, mf, f) ∈ l /\ forallb (declared DependencyBaseRecomp DependencySelf mf) (dependencies_ordered (recompiler_context c)) = true.
Lemma init_mod_code_declared l i mf f a st x st' : (i, mf, f) ∈ l ->
  init_mod_code parse_mod_symbols DependencyBaseRecomp DependencySelf hooks_available i mf f a st = Some (x, st') -> all_declared l st -> all_declared l st'.
Proof.
  intros Hin E Hst. unfold init_mod_code in E. destruct (binary_syms f), (mod_binary f); try (by injection E as _ <-).
  all: destruct (parse_mod_symbols _ _) as [c|]; [|by injection E as _ <-].
  all: destruct (_ && _); [by injection E as _ <-|]; destruct (forallb _ _) eqn:Ed; cbn [negb] in E; [|by injection E as _ <-].
  all: destruct (place_sections _ _ _ _) as [[[addresses cur] m]|]; [|done]; cbn [mbind option_bind] in E; destruct (relocate _ _ _) as [good m'].
  all: destruct good; cbn [negb] in E; injection E as _ <-; [|exact Hst].
  all: intros j c'; cbn [code_of]; destruct (decide (j = i)) as [->|Hne]; [|rewrite lookup_insert_ne by done; apply Hst].
  all: rewrite lookup_insert_eq; intros [= <-]; by exists mf, f.
Qed.
Lemma first_pass_declared l base st r : all_declared l st ->
  first_pass parse_mod_symbols DependencyBaseRecomp DependencySelf hooks_available base l st = Some r -> all_declared l (state r).
Proof.
  intros Hst. unfold first_pass. assert (forall l', (forall x, x ∈ l' -> x ∈ l) -> forall r0, all_declared l (state r0) ->
    foldl (init_one parse_mod_symbols DependencyBaseRecomp DependencySelf hooks_available) (Some r0) l' = Some r -> all_declared l (state r)) as Hf.
  { induction l' as [|[[i mf] f] l' IH]; intros Hl r0 H0 E; cbn [foldl] in E; [by injection E as <-|].
    unfold init_one at 2 in E. cbn [mbind option_bind] in E.
    destruct (init_mod_code _ _ _ _ _ _ _ _ _) as [[x st1]|] eqn:E1; cbn [mbind option_bind] in E.
    - apply (init_mod_code_declared l) in E1; [|apply Hl; constructor|done].
      destruct x as [used|e]; (eapply IH; [| |exact E]; [intros y Hy; apply Hl; by constructor|exact E1]).
    - assert (forall l2, foldl (init_one parse_mod_symbols DependencyBaseRecomp DependencySelf hooks_available) None l2 = None) as Hn by by induction l2.
      by rewrite Hn in E. }
  by apply Hf.
Qed.

(** C32: If the parser hands out indices inside its own tables, the recompiler answers one
    function for each, and the required dependencies are loaded, then after a first pass
    without errors linking is defined: no slot, event, handle or mod it looks up is out of
    range. It also never reports an internal error: every name the code depends on is loaded
    or optional in the manifest, and every hook has its slot. *)
Theorem loading_code_is_defined (l : list a_mod) cs base (m : M) num_base_events r s :
  NoDup (index_of <$> l) -> Forall2 (fun x c => parsed parse_mod_symbols x = Some c) l cs ->
  Forall symbols_ok cs -> Forall context_ok cs -> -2147483648 <= base -> base mod 16 = 0 -> ends base cs < 2147483648 ->
  (forall i mf f, (i, mf, f) ∈ l -> exists m, opened_mods context !! i = Some m /\ manifest m = mf /\
    forall d, d ∈ dependencies mf -> optional d = false -> is_Some (loaded_mods_by_id context !! dep_mod_id d)) ->
  (forall n e, base_events !! n = Some e -> (e < num_base_events)%nat) ->
  (forall k x c e rt fs js, l !! k = Some x -> cs !! k = Some c -> recompile (index_of x) e rt = Some (fs, js) -> length fs = length (functions c)) ->
  first_pass parse_mod_symbols DependencyBaseRecomp DependencySelf hooks_available base l (MkPass m num_base_events ∅ ∅ ∅) = Some r -> errors r = [] ->
  hook_table s = [] -> event_table s = [] -> code_handles s = ∅ ->
  exists errors s', link_after r (index_of <$> l) s = Some (errors, s') /\ forall i, (i, InternalError) ∉ errors.
Proof.
  intros Hd Hp Hs Hc Hb Hm He Ho Hbe Hre E Er Eh Eev Ech. unfold first_pass in E.
  pose proof (run_loads _ _ _ _ l cs Hp (Result [] base 0 (MkPass m num_base_events ∅ ∅ ∅)) r Hd Hs ltac:(cbn; unfold is_u32; lia) Hb Hm He E Er) as (_ & _ & Et & Esl & _ & Hout & Hin).
  cbn [state total_events hook_slots code_of base_event_indices] in *.
  destruct (all_hook_slots_numbered cs ∅ empty_numbered) as (Hn & _ & Hall). rewrite <- Esl in Hn, Hall.
  pose proof (first_pass_declared l base (MkPass m num_base_events ∅ ∅ ∅) r (fun i c Hi => ltac:(cbn [code_of] in Hi; by rewrite lookup_empty in Hi)) E) as Hdecl.
  assert (forall i c, code_of (state r) !! i = Some c -> exists k mf f x, l !! k = Some (i, mf, f) /\ cs !! k = Some x /\ recompiler_context c = x /\
    events_by_name c = populate_events x /\ exports_by_name c = populate_exports x /\ base_event_indices (state r) !! i = Some (events_before num_base_events (take k cs)) /\
    length (section_load_addresses c) = length (sections x)) as Hcode.
  { intros i c Ec. destruct (decide (i ∈ index_of <$> l)) as [Hi|Hi]; [|destruct (Hout i Hi) as [E1 _]; rewrite Ec, lookup_empty in E1; done].
    apply list_elem_of_fmap in Hi as ([[i' mf] f] & -> & Hi). apply list_elem_of_lookup in Hi as [k Hk]. cbn in Ec |- *.
    destruct (Forall2_lookup_l _ _ _ _ _ Hp Hk) as (x & Ex & _). destruct (Hin k i' mf f x Hk Ex) as (c' & E1 & E2 & E3 & E4 & E5 & E6 & _).
    assert (c' = c) as -> by congruence. by exists k, mf, f, x. }
  assert (forall i c, code_of (state r) !! i = Some c -> dependencies_ok context DependencyBaseRecomp DependencySelf i (recompiler_context c)) as Hdeps.
  { intros i c Ec. destruct (Hdecl i c Ec) as (mf & f & Hin' & Hf). destruct (Ho i mf f Hin') as (mo & Em & <- & Hreq). exists mo. split; [done|]. split; [|done].
    intros id Hid. rewrite forallb_forall in Hf. specialize (Hf id (proj1 (list_elem_of_In _ _) Hid)). unfold declared in Hf.
    rewrite !orb_true_iff, !bool_decide_eq_true in Hf. tauto. }
  assert (forall i c h, code_of (state r) !! i = Some c -> h ∈ hooks (recompiler_context c) -> is_Some (hook_slots (state r) !! hook_definition h)) as Hhooked.
  { intros i c h Ec Hh. destruct (Hcode i c Ec) as (k & mf & f & x & _ & Hk & Ex & _). rewrite Ex in Hh. apply (Hall x); [by eapply list_elem_of_lookup_2|done]. }
  assert (forall e s', link_after r (index_of <$> l) s = Some (e, s') -> forall i, (i, InternalError) ∉ e) as Hav.
  { intros e s' El. by eapply link_avoids. }
  cut (exists errors s', link_after r (index_of <$> l) s = Some (errors, s')); [intros (e & s' & El); exists e, s'; split; [exact El|by apply (Hav e s')]|].
  cbv beta. rewrite Et. apply link_defined; try done.
  - intros i. split.
    + intros Hi. apply list_elem_of_fmap in Hi as ([[i' mf] f] & -> & Hi). apply list_elem_of_lookup in Hi as [k Hk].
      destruct (Forall2_lookup_l _ _ _ _ _ Hp Hk) as (x & Ex & _). destruct (Hin k i' mf f x Hk Ex) as (c' & E1 & _). by exists c'.
    + intros [c Ec]. destruct (Hcode i c Ec) as (k & mf & f & x & Hk & _). apply list_elem_of_fmap. exists (i, mf, f). split; [done|by eapply list_elem_of_lookup_2].
  - intros i c Ec. destruct (Hcode i c Ec) as (k & mf & f & x & Hk & Ex & E2 & E3 & E4 & _ & E6). destruct (Forall_lookup_1 _ _ _ _ Hc Ex) as [H1 H2 H3 H4].
    split; unfold num_functions; rewrite ?E2, ?E3, ?E4; try done.
    + intros n j. apply populate_exports_bound.
    + intros n j. apply populate_events_bound.
    + destruct (Ho i mf f) as (mo & -> & _); [by eapply list_elem_of_lookup_2|done].
  - intros i c Ec. destruct (Hcode i c Ec) as (k & mf & f & x & Hk & Ex & E2 & _ & _ & E5 & _). rewrite E5, E2. by apply events_before_S.
  - intros n e Hn'. pose proof (Hbe n e Hn'). pose proof (events_before_le num_base_events cs). lia.
  - intros i e rt fs js c Hr Ec. destruct (Hcode i c Ec) as (k & mf & f & x & Hk & Ex & E2 & _). unfold num_functions. rewrite E2. by apply (Hre k (i, mf, f) x e rt fs js).
  - rewrite Eh. cbn. lia.
  - rewrite Eev. cbn. lia.
Qed.
End Whole.
