(* ===== verification/SampleModCode.v ===== *)
(** Mod hooks and events on concrete slots, mods and functions.  The code of mods
    on two concrete mods: the second imports a function of the first, listens to
    its event, hooks a function of the game and replaces another. *)

From Stdlib Require Import ZArith Lia Bool List Sorted.
From stdpp Require Import base list option gmap strings sorting.
From S2P Require Import Prelude Rdram Mips GuestMem Overlays ModManager ModOrder ModHooks ModHooksSpec ModSections ModSectionsSpec ModLink ModLinkSpec ModLinkSafe.
Open Scope Z_scope.

(** * Hooks *)

Definition ctx_of (a : Z) : recomp_context unit := Ctx a 0 0 0 tt.
(** Function 0 writes down the result register and destroys it; function 1 asks
    for the value of the hooked function after a call of a hooked function, and
    writes it down; function 2 calls the hooked function of slot 1. *)
Definition writes : @guest_function (list Z) unit :=
  fun st ctx => '(w, ctx) ← Some (fst st ++ [r2 ctx], set_r2 99 ctx); Some ((w, snd st), ctx).
Definition call0 (f : nat) : @guest_function (list Z) unit := writes.
Definition sample_slots : list (HookSlot nat) :=
  [Slot [Hook 0%nat 1%nat; Hook 1%nat 0%nat] true; Slot [Hook 0%nat 0%nat] false].
Definition asks : @guest_function (list Z) unit := fun st ctx =>
  '(st, ctx) ← run_hook call0 sample_slots 1 st (set_r2 7 ctx);
  '(st, ctx) ← recomphook_get_return_s16 st ctx; writes st ctx.
Definition sample_call (f : nat) : @guest_function (list Z) unit := match f with 1%nat => asks | _ => writes end.

Example hooked_call_seen : run_hook sample_call sample_slots 0 ([], []) (ctx_of 70000) =
  Some (([7; 4464; 70000], []), ctx_of 70000).
Proof. reflexivity. Qed.
Example no_such_slot : run_hook sample_call sample_slots 5 ([], []) (ctx_of 0) = None.
Proof. reflexivity. Qed.
(** The double accessor: 2.5 (binary32 0x40200000) comes back as 2.0, and the
    low half of the double 1.0 as 0. *)
Example double_is_truncated : through_u8 0x40200000 = Some 0x40000000 /\ through_u8 0 = Some 0 /\ through_u8 0xBF800000 = None.
Proof. vm_compute. repeat split. Qed.

Lemma writes_is_guest_code call slots events : @guest_code nat (list Z) unit call slots events writes.
Proof. exact (Work _ _ _ (fun w ctx => Some (w ++ [r2 ctx], set_r2 99 ctx))). Defined.
Lemma asks_is_guest_code : guest_code sample_call sample_slots [] asks.
Proof.
  apply (Same _ _ _ (seq (seq (work (fun w ctx => Some (w, set_r2 7 ctx))) (fun _ _ => run_hook sample_call sample_slots 1))
    (fun _ _ => seq recomphook_get_return_s16 (fun _ _ => writes)))); [|by intros [w s] ctx].
  apply Then; [apply Then; [apply Work|]|]; intros w ctx.
  - apply Hooked. intros slot h E Hh. injection E as <-. apply list_elem_of_singleton in Hh. subst h. apply writes_is_guest_code.
  - apply Then; [apply Asks_r2|]. intros ? ?. apply writes_is_guest_code.
Defined.

Lemma hooks_are_transparent_witness :
  run_hook sample_call sample_slots 0 ([], []) (ctx_of 70000) = Some (([7; 4464; 70000], []), ctx_of 70000).
Proof.
  assert (forall h, h ∈ [Hook 0%nat 1%nat; Hook 1%nat 0%nat] -> guest_code sample_call sample_slots [] (sample_call (func h))) as Hg.
  { intros h Hh. apply elem_of_cons in Hh as [->|Hh]; [exact asks_is_guest_code|].
    apply list_elem_of_singleton in Hh. subst h. apply writes_is_guest_code. }
  exact (proj1 (hooks_are_transparent sample_call sample_slots [] 0 _ [] [] (ctx_of 70000) eq_refl Hg)).
Defined.

(** * The order *)

(** An insertion sort. *)
Section Sort.
Context {A : Type}.
Fixpoint insert (lt : A -> A -> bool) (a : A) (l : list A) : list A :=
  match l with [] => [a] | b :: l' => if lt b a then b :: insert lt a l' else a :: l end.
Definition insertion_sort (lt : A -> A -> bool) (l : list A) : list A := foldr (insert lt) [] l.
Lemma insert_perm lt a l : insert lt a l ≡ₚ a :: l.
Proof. induction l as [|b l IH]; simpl; [done|]. destruct (lt b a); [|done]. rewrite IH. constructor. Qed.
Lemma insert_sorted lt a l : strict_weak lt -> StronglySorted (fun a b => lt b a = false) l ->
  StronglySorted (fun a b => lt b a = false) (insert lt a l).
Proof.
  intros Hw. induction 1 as [|b l Hs IH Hb]; simpl; [by repeat constructor|]. destruct (lt b a) eqn:E.
  - constructor; [done|]. rewrite insert_perm. constructor; [|done].
    destruct (lt a b) eqn:E2; [|done]. pose proof (sw_trans _ Hw _ _ _ E E2) as H. by rewrite (sw_irrefl _ Hw) in H.
  - constructor; [by constructor|]. constructor; [done|]. eapply Forall_impl; [exact Hb|]. intros x Hx. exact (sw_incomp _ Hw x b a Hx E).
Qed.
End Sort.
Lemma insertion_sort_sorts : @sorts nat insertion_sort.
Proof.
  intros lt l Hw. induction l as [|a l [IH1 IH2]]; [split; [done|constructor]|].
  split; [cbn; by rewrite insert_perm, IH1|exact (insert_sorted lt a _ Hw IH2)].
Qed.

(** Three mods, loaded in the order 2, 0, 1. *)
Definition sample_mod : ModHandle := MkMod (MkManifest "m" [] (MkVersion 1 0 0 "") (MkVersion 1 0 0 "") false) [] [0%nat] true.
Definition ordered_mods : ModContext :=
  rebuild_mod_order_lookup (MkContext [sample_mod; sample_mod; sample_mod] ∅ [2; 0; 1]%nat [] ∅ ∅ ∅ ∅ None [] 0).
Definition sample_ops : list (@hook_op nat) :=
  [Registers 0 0 10; Registers 0 1 11; Registers 1 1 12; Registers 0 2 13; Registers 1 2 14; Type_of 1 true]%nat.
Definition sample_registered : list (HookSlot nat) :=
  default [] (apply_ops sample_ops (setup_hooks 2 (reset_hooks (F := nat)))).

Example hooks_in_order : map (fun s => map func (hooks s)) (finish_hook_setup insertion_sort ordered_mods sample_registered) =
  [[13; 10; 11]; [12; 14]]%nat.
Proof. vm_compute. reflexivity. Qed.

Lemma sample_order_ok : order_ok ordered_mods.
Proof. change ([2; 0; 1]%nat ≡ₚ [0; 1; 2]%nat). exact (Permutation_app_comm [2]%nat [0; 1]%nat). Defined.
Lemma hooks_fire_in_load_order_witness : exists slot, finish_hook_setup insertion_sort ordered_mods sample_registered !! 1%nat = Some slot /\
  is_return_hook slot = true.
Proof.
  destruct (hooks_fire_in_load_order insertion_sort ordered_mods 2 sample_ops sample_registered insertion_sort_sorts
    sample_order_ok (rebuild_lookup_ok _ sample_order_ok)) with (i := 1%nat) as (slot & E & _ & Er & _).
  - intros i m f H. change (length (opened_mods ordered_mods)) with 3%nat. set_unfold in H.
    repeat (destruct H as [H|H]; [injection H as _ -> _; lia || discriminate H|]). by destruct H.
  - reflexivity.
  - lia.
  - exists slot. split; [exact E|]. rewrite Er. reflexivity.
Defined.

(** * Two code mods *)

Import N64Recomp.
Open Scope string_scope.

(** The word at 4 of the first section points to the second one. *)
Definition context_a : Context := N64Recomp.MkContext
  [MkSection_ 0 0x1000 8 4 false [MkReloc 0x1004 1 0 R_MIPS_32 false]; MkSection_ 8 0x2000 4 0 false []]
  [MkFunction_ "fa" 0x1000 0; MkFunction_ "ga" 0x2000 1] [0%nat] ["event"] ["*"] [MkImport "log" 0] [] [] [MkFunctionHook 0x100 0x80000000 true 1] [].
Definition context_b : Context := N64Recomp.MkContext
  [MkSection_ 0 0x1000 4 0 false []] [MkFunction_ "fb" 0x1000 0] [] [] ["a"] [MkImport "fa" 0] [MkDependencyEvent "event" 0] [MkCallback 0 0]
  [MkFunctionHook 0x100 0x80000000 true 0] [MkReplacement 0x100 0x80000040 0 false].
Definition sample_parse (syms binary : list Z) : option Context := match syms with [0] => Some context_a | [1] => Some context_b | _ => None end.
Definition manifest_a : ModManifest := MkManifest "a" [] (MkVersion 1 0 0 "") (MkVersion 1 0 0 "") false.
Definition manifest_b : ModManifest := MkManifest "b" [MkDependency "a" (MkVersion 1 0 0 "") false] (MkVersion 1 0 0 "") (MkVersion 1 0 0 "") false.
Definition sample_mods : list (nat * ModManifest * mod_files) :=
  [(0%nat, manifest_a, Files (Some [0]) (Some [1; 2; 3; 4; 0; 0; 0x20; 2; 9; 9; 9; 9])); (1%nat, manifest_b, Files (Some [1]) (Some [5; 6; 7; 8]))].
Definition sample_context : ModContext :=
  ModManager.MkContext [MkMod manifest_a [] [0%nat] true; MkMod manifest_b [] [0%nat] true] {["a" := 0%nat; "b" := 1%nat]} [0; 1]%nat [] ∅ ∅
    {["a" := 0%nat; "b" := 1%nat]} ∅ (Some 0%nat) [] 0.
Definition sample_base : Z := -2130706432.

Definition sample_result : pass_result (M := bytemap) :=
  default (Result [("", InternalError)] 0 0 (MkPass ∅ 0 ∅ ∅ ∅)) (first_pass sample_parse "*" "." true sample_base sample_mods (MkPass ∅ 2 ∅ ∅ ∅)).
Example first_pass_runs : first_pass sample_parse "*" "." true sample_base sample_mods (MkPass (∅ : bytemap) 2 ∅ ∅ ∅) = Some sample_result /\
  errors sample_result = [] /\ next_address sample_result = sample_base + 16 + 1024 + 16 + 1024 + 16 + 1024.
Proof. vm_compute. repeat split. Qed.
(** 0x2002 has become the address of the second section, plus two. *)
Example pointer_moved : u32 (MEM_W (sample_base + 4) (rdram (state sample_result))) = u32 (sample_base + 16 + 1024 + 2).
Proof. vm_compute. reflexivity. Qed.

Lemma sample_parsed : Forall2 (fun x c => parsed sample_parse x = Some c) sample_mods [context_a; context_b].
Proof. repeat constructor. Defined.
Lemma no_relocs_ok l s : relocs s = [] -> relocs_ok l s.
Proof. intros E. unfold relocs_ok. rewrite E. split; [intros r Hr; by apply elem_of_nil in Hr|apply NoDup_nil_2]. Defined.
Lemma sample_symbols_ok : Forall symbols_ok [context_a; context_b].
Proof.
  constructor; [|constructor; [|constructor]]; (split; [repeat constructor; cbn; lia|]); (constructor; [|try (constructor; [|constructor])]).
  - split; cbn.
    + intros r Hr. apply list_elem_of_singleton in Hr. subst r. intros _. cbn. split; [lia|]. split; [done|]. split; [lia|]. split; [lia|done].
    + apply NoDup_singleton.
  - by apply no_relocs_ok.
  - by apply no_relocs_ok.
  - constructor.
Defined.
Lemma sample_nodup : NoDup ((fun x : nat * ModManifest * mod_files => fst (fst x)) <$> sample_mods).
Proof. cbn. repeat constructor; set_solver. Defined.

Lemma code_mods_are_loaded_witness : exists cs, Forall2 (fun x c => parsed sample_parse x = Some c) sample_mods cs.
Proof.
  destruct (code_mods_are_loaded sample_parse "*" "." true sample_mods sample_base (MkPass (∅ : bytemap) 2 ∅ ∅ ∅) sample_result) as (cs & H & _).
  - exact sample_nodup.
  - intros x c Hx E. apply elem_of_cons in Hx as [->|Hx].
    + injection E as <-. exact (Forall_inv sample_symbols_ok).
    + apply list_elem_of_singleton in Hx. subst x. injection E as <-. exact (Forall_inv (Forall_inv_tail sample_symbols_ok)).
  - unfold sample_base. lia.
  - reflexivity.
  - vm_compute. reflexivity.
  - vm_compute. reflexivity.
  - exists cs. exact H.
Defined.

(** * Linking *)

Definition sample_sections : list (SectionTableEntry Z) :=
  [Overlays.MkSection 0x100 0x80000000 0x100 [MkFunc (Some 0x10000) 0 0x40; MkFunc (Some 0x10040) 0x40 0x40] 0 0 0xFFFFFFFF].
Definition sample_by_rom : gmap Z nat := {[0x100 := 0%nat]}.
Definition sample_exports : gmap string Z := {["log" := 0x20000]}.
Definition sample_recompile (i : nat) (_ _ : gmap nat nat) : option (list Z * list (nat * Z)) :=
  Some (match i with O => [0x30000; 0x30100] | _ => [0x40000] end, [(0%nat, 0x40)]).
Definition no_link : link_state := MkLink ∅ ∅ ∅ ∅ ∅ [] [] [] ∅ ∅.
Abbreviation sample_link := (link_mods X86_64 sample_context (code_of (state sample_result)) (hook_slots (state sample_result)) (base_event_indices (state sample_result))
  "*" "." sample_sections sample_by_rom 9 ∅ sample_exports ∅ ∅ ∅ sample_recompile (fun _ => false) (fun _ => None) (fun _ => true)
  (fun _ => []) (fun f _ => f) (fun a => a)).
Definition sample_linked : link_state := from_option snd no_link (sample_link 3 [0; 1]%nat no_link).
Example link_runs : sample_link 3 [0; 1]%nat no_link = Some ([], sample_linked) /\
  imported sample_linked !! (1%nat, 0%nat) = Some 0x30000 /\ event_table sample_linked = [[]; []; [Hook 1%nat 0x40000]] /\
  map ModHooks.hooks (hook_table sample_linked) = [[Hook 0%nat 0x30100; Hook 1%nat 0x40000]] /\
  bytes_at 12 0x10040 (host sample_linked) = [0x48; 0xB8; 0; 0; 4; 0; 0; 0; 0; 0; 0xFF; 0xE0].
Proof. vm_compute. repeat split. Qed.

(** The hooked function at 0x10000, which no mod replaces, is regenerated at 0x50000. *)
Abbreviation sample_load := (load_code X86_64 sample_context (code_of (state sample_result)) (hook_slots (state sample_result)) (base_event_indices (state sample_result))
  "*" "." sample_sections sample_by_rom 9 ∅ sample_exports ∅ ∅ ∅ sample_recompile (fun _ => false) (fun _ => None) (fun _ => true)
  (fun _ => []) (fun f _ => f) (fun a => a) (fun _ => []) [] ∅ (fun _ => []) 99 (replicate 0x200 0) [] (fun _ _ _ _ => Some ([0x50000], []))
  (fun l => l) insertion_sort).
Definition sample_loaded : link_state := from_option snd no_link (sample_load 3 [0; 1]%nat no_link).
Lemma load_runs : sample_load 3 [0; 1]%nat no_link = Some ([], sample_loaded).
Proof. vm_compute. reflexivity. Qed.
Example loaded_jumps : jump_target X86_64 (host sample_loaded) 0x10040 = Some 0x40000 /\ jump_target X86_64 (host sample_loaded) 0x10000 = Some 0x50000.
Proof. vm_compute. split; reflexivity. Qed.
(** Unloading gives the replaced function back, but not the hooked one. *)
Example regenerated_hook_stays : jump_target X86_64 (host (unload sample_loaded)) 0x10040 = None /\
  jump_target X86_64 (host (unload sample_loaded)) 0x10000 = Some 0x50000 /\ patched_funcs (unload sample_loaded) = ∅.
Proof. vm_compute. repeat split. Qed.

Lemma sample_entry o e : get_func_entry_by_section_index_function_offset sample_sections 0 o = Some e ->
  (o = 0 /\ Overlays.func e = Some 0x10000) \/ (o = 0x40 /\ Overlays.func e = Some 0x10040).
Proof.
  unfold get_func_entry_by_section_index_function_offset. cbn [length sample_sections Nat.leb].
  change (Overlays.size (sec sample_sections 0)) with 0x100. change (Overlays.funcs (sec sample_sections 0)) with [MkFunc (Some 0x10000) 0 0x40; MkFunc (Some 0x10040) 0x40 0x40].
  destruct (o >=? 0x100); [done|]. cbn [find offset]. destruct (Z.eqb_spec 0 o) as [<-|]; [intros [= <-]; by left|].
  destruct (Z.eqb_spec 0x40 o) as [<-|]; [intros [= <-]; by right|done].
Qed.
Lemma sample_target f : is_target sample_sections sample_by_rom 9 ∅ f -> f = 0x10000 \/ f = 0x10040.
Proof.
  intros (rom & vram & E). unfold get_func_by_section_rom_function_vram, sample_by_rom in E.
  destruct (decide (rom = 0x100)) as [->|Hne]; [|by rewrite lookup_singleton_ne in E].
  rewrite lookup_singleton_eq in E. cbn [mbind option_bind] in E.
  unfold get_func_by_section_index_function_offset in E. destruct (get_func_entry_by_section_index_function_offset _ _ _) as [e|] eqn:Ee; [|done].
  apply sample_entry in Ee as [[_ Ee]|[_ Ee]]; rewrite Ee in E; injection E as <-; [by left|by right].
Qed.
Lemma sample_targets_apart f g : is_target sample_sections sample_by_rom 9 ∅ f -> is_target sample_sections sample_by_rom 9 ∅ g -> apart f g.
Proof. intros Hf%sample_target Hg%sample_target. unfold apart. lia. Qed.
Lemma sample_slots_hooked : map_to_list (hook_slots (state sample_result)) = [(Def 0x100 0x80000000 true, 0%nat)].
Proof. vm_compute. reflexivity. Qed.
Abbreviation sample_redirected := (redirected sample_sections sample_by_rom ∅ [] ∅).
Lemma sample_hooked d slot p : hook_slots (state sample_result) !! d = Some slot -> sample_redirected d p -> d = Def 0x100 0x80000000 true /\ p = 0x10000.
Proof.
  intros Hd%elem_of_map_to_list Hr. rewrite sample_slots_hooked in Hd. apply list_elem_of_singleton in Hd. injection Hd as -> ->. split; [done|].
  destruct Hr as [(i & s & e & Hi & Hs & He & Hp)|(ps & fi & s & e & (q & _ & Hq) & _)]; [|by rewrite lookup_empty in Hq].
  change (sample_by_rom !! 0x100 = Some i) in Hi. unfold sample_by_rom in Hi. rewrite lookup_singleton_eq in Hi. injection Hi as <-. injection Hs as <-.
  apply sample_entry in He as [[_ He]|[He _]]; [congruence|]. vm_compute in He. discriminate He.
Qed.
Lemma host_bytes_ok : bytes_ok (host no_link).
Proof. intros x. change (is_u8 (hbyte ∅ x)); unfold hbyte; rewrite lookup_empty. unfold is_u8. cbn. lia. Qed.

Lemma unload_restores_the_host_witness :
  patched_funcs sample_loaded <> ∅ /\ hbyte (host (unload sample_loaded)) 0x10040 = hbyte ∅ 0x10040.
Proof.
  split; [intros E; apply (f_equal base.size) in E; vm_compute in E; discriminate E|].
  refine (proj1 (unload_restores_the_host X86_64 sample_context (code_of (state sample_result)) (hook_slots (state sample_result)) (base_event_indices (state sample_result))
    "*" "." sample_sections sample_by_rom 9 ∅ sample_exports ∅ ∅ ∅ sample_recompile (fun _ => false) (fun _ => None) (fun _ => true)
    (fun _ => []) (fun f _ => f) (fun a => a) sample_targets_apart (fun _ => []) [] ∅ (fun _ => []) 99 (replicate 0x200 0) [] (fun _ _ _ _ => Some ([0x50000], []))
    (fun l => l) insertion_sort (fun l => reflexivity l) 3 [0; 1]%nat no_link [] sample_loaded host_bytes_ok eq_refl load_runs) eq_refl 0x10040 _).
  left. exists 0x10040. split; [|unfold in_window; lia]. apply elem_of_dom. apply (bool_decide_unpack _). vm_compute. exact I.
Defined.
Lemma replacements_take_effect_witness : exists fs, NoDup fs /\ forall f, is_Some (patched_funcs sample_loaded !! f) <-> f ∈ fs.
Proof.
  destruct (replacements_take_effect X86_64 sample_context (code_of (state sample_result)) (hook_slots (state sample_result)) (base_event_indices (state sample_result))
    "*" "." sample_sections sample_by_rom 9 ∅ sample_exports ∅ ∅ ∅ sample_recompile (fun _ => false) (fun _ => None) (fun _ => true)
    (fun _ => []) (fun f _ => f) (fun a => a) sample_targets_apart (fun _ => []) [] ∅ (fun _ => []) 99 (replicate 0x200 0) [] (fun _ _ _ _ => Some ([0x50000], []))
    (fun l => l) insertion_sort (fun l => reflexivity l) 3 [0; 1]%nat no_link sample_loaded) as (fs & _ & Hd & H).
  - intros f p Hf (d & slot & Hd & Hr). apply sample_target in Hf. destruct (sample_hooked d slot p Hd Hr) as [_ ->]. unfold apart. lia.
  - intros d p ir [slot Hd] Hr Hin Ht. destruct (sample_hooked d slot p Hd Hr) as [_ ->]. exfalso.
    change (ir ∈ [(1%nat, MkReplacement 0x100 0x80000040 0 false)]) in Hin. apply list_elem_of_singleton in Hin. subst ir. vm_compute in Ht. discriminate Ht.
  - reflexivity.
  - exact load_runs.
  - exists fs. split; [exact Hd|exact H].
Defined.

Lemma sample_context_ok : Forall context_ok [context_a; context_b].
Proof.
  constructor; [|constructor; [|constructor]]; split; cbn; intros x Hx; try (by apply elem_of_nil in Hx); apply list_elem_of_singleton in Hx; subst x; cbn; try lia.
  split; [lia|]. eexists. split; [reflexivity|]. cbn. lia.
Defined.
Lemma sample_dependencies i mf f : (i, mf, f) ∈ sample_mods -> exists m, opened_mods sample_context !! i = Some m /\ manifest m = mf /\
  forall d, d ∈ dependencies mf -> optional d = false -> is_Some (loaded_mods_by_id sample_context !! dep_mod_id d).
Proof.
  intros [Hx|Hx%list_elem_of_singleton]%elem_of_cons; injection Hx as -> -> ->; (eexists; split; [reflexivity|]; split; [reflexivity|]); intros d Hd _.
  - by apply elem_of_nil in Hd.
  - apply list_elem_of_singleton in Hd. subst d. by exists 0%nat.
Defined.
Lemma loading_code_is_defined_witness : exists errors s', sample_link (total_events (state sample_result)) [0; 1]%nat no_link = Some (errors, s') /\
  forall i, (i, InternalError) ∉ errors.
Proof.
  refine (loading_code_is_defined X86_64 sample_context sample_parse "*" "." true sample_sections sample_by_rom 9 ∅ sample_exports ∅ ∅ ∅
    sample_recompile (fun _ => false) (fun _ => None) (fun _ => true) (fun _ => []) (fun f _ => f) (fun a => a)
    sample_mods [context_a; context_b] sample_base (∅ : bytemap) 2 sample_result no_link
    sample_nodup sample_parsed sample_symbols_ok sample_context_ok _ eq_refl _ sample_dependencies _ _ _ _ eq_refl eq_refl eq_refl).
  - unfold sample_base. lia.
  - vm_compute. reflexivity.
  - intros n e He. by rewrite lookup_empty in He.
  - intros [|[|k]] x c e rt fs js Hx Hc; [| |done]; injection Hx as <-; injection Hc as <-; cbn; intros [= <- <-]; reflexivity.
  - vm_compute. reflexivity.
  - vm_compute. reflexivity.
Defined.

(** A second native library takes the place of the first one's exports. *)
Example second_library_hides_the_first :
  (fun s => native_library_exports s !! 0%nat) ∘ snd <$>
  each (load_native_library 0) [(Some (MkDll 1 {["first" := 1]}), ["first"]); (Some (MkDll 1 {["second" := 2]}), ["second"])] no_link =
  Some (Some {["second" := 2]}).
Proof. vm_compute. reflexivity. Qed.
(** What the shim of an unmet import reports. *)
Example shim_argument_read_back : unpack_shim_argument (shim_argument 7 3) = (3, 7).
Proof. reflexivity. Qed.
