(* ===== verification/ModFiles.v ===== *)
(** Mod files: librecomp/src/mod_manifest.cpp, and the parts of mods.cpp and
    mod_config_api.cpp that scan the mod folder and keep the values of the options
    that mods declare.

    A manifest is parsed field by field, and the first field that is wrong is
    reported.  Archives, the check of mod ids and the texts of JSON are parameters;
    the disk and its backups are those of Files.  Directory listings and hash maps
    come in an order the host chooses; thumbnails of mods are kept, and the mutexes
    left out. *)

From Stdlib Require Import ZArith Lia Bool List String Ascii.
From stdpp Require Import base list gmap strings.
From S2P Require Import Prelude Floats Json Files ModSections Rom ModManager.
Open Scope Z_scope.
Open Scope list_scope.

(** * Errors *)

Inductive ModOpenError :=
  | DoesNotExist | NotAFileOrFolder | FileError | InvalidZip | NoManifest | FailedToParseManifest | InvalidManifestSchema
  | IncorrectManifestFieldType | MissingConfigSchemaField | IncorrectConfigSchemaType | InvalidConfigSchemaDefault
  | InvalidVersionString | InvalidMinimumRecompVersionString | InvalidDependencyString | MissingManifestField | DuplicateMod | WrongGame.
#[export] Instance ModOpenError_eq_dec : EqDecision ModOpenError.
Proof. solve_decision. Defined.

(** A result, or the error with its parameter. *)
Definition outcome (A : Type) : Type := (ModOpenError * string) + A.
Definition error {A} (e : ModOpenError) (param : string) : outcome A := inl (e, param).
Definition and_then {A B} (m : outcome A) (k : A -> outcome B) : outcome B := match m with inl e => inl e | inr a => k a end.
Declare Scope outcome_scope.
Delimit Scope outcome_scope with outcome.
Notation "'let!' x := m 'in' k" := (and_then m (fun x => k)) (at level 10, x name, m at level 100, k at level 200, only parsing) : outcome_scope.
Open Scope outcome_scope.
(** A loop that returns at the first error. *)
Fixpoint each {A B} (f : A -> outcome B) (l : list A) : outcome (list B) :=
  match l with [] => inr [] | a :: l => let! b := f a in let! bs := each f l in inr (b :: bs) end.

(** * The schema of options *)

Inductive ConfigOptionType := Type_enum | Type_number | Type_string.
Definition config_option_type_names (s : string) : option ConfigOptionType :=
  if bool_decide (s = "Enum"%string) then Some Type_enum
  else if bool_decide (s = "Number"%string) then Some Type_number
  else if bool_decide (s = "String"%string) then Some Type_string else None.
(** Numbers are binary64 patterns; an enumeration's default is its index. *)
Record ConfigOptionNumber := MkNumber { min : Z; max : Z; step : Z; precision : Z; percent : bool; default_number : Z }.
Inductive ConfigOptionVariant :=
  | Option_enum (options : list string) (default_index : Z) | Option_number (n : ConfigOptionNumber) | Option_string (default_text : string).
Record ConfigOption := MkOption { option_id : string; option_name : string; option_description : string; variant : ConfigOptionVariant }.
Record ConfigSchema := MkSchema { options : list ConfigOption; options_by_id : gmap string nat }.
Definition no_options : ConfigSchema := MkSchema [] ∅.

(** [get_ptr] on a value, and on every element of an array. *)
Definition extract_array {A} (get : json -> option A) (v : json) : option (list A) := l ← get_array v; mapM get l.

Definition read_required_schema_string (object : json) (key : string) : outcome string :=
  match json_find key object with
  | None => error MissingConfigSchemaField key
  | Some v => match get_string v with None => error IncorrectConfigSchemaType key | Some s => inr s end
  end.
(** A field that may be absent, and then keeps its value. *)
Definition read_schema_field {A} (get : json -> option A) (object : json) (key : string) (absent : A) : outcome A :=
  match json_find key object with
  | None => inr absent
  | Some v => match get v with None => error IncorrectConfigSchemaType key | Some a => inr a end
  end.
Definition index_of (s : string) (l : list string) : option Z := (fun ix => Z.of_nat (fst ix)) <$> list_find (fun x => x = s) l.

Definition parse_enum_option (option_json : json) : outcome ConfigOptionVariant :=
  let! opts := read_schema_field (extract_array get_string) option_json "options" [] in
  match json_find "default" option_json with
  | None => inr (Option_enum opts 0)
  | Some v =>
      match get_string v with
      | None => error IncorrectConfigSchemaType "default"
      | Some s =>
          match index_of s opts with None => error InvalidConfigSchemaDefault "default" | Some i => inr (Option_enum opts (u32 i)) end
      end
  end.
Definition parse_string_option (option_json : json) : outcome ConfigOptionVariant :=
  let! s := read_schema_field get_string option_json "default" EmptyString in inr (Option_string s).

Section ModFiles.
Context (nan_of : list Z -> Z) (validate_mod_id : string -> bool).
Definition parse_number_option (option_json : json) : outcome ConfigOptionVariant :=
  let read key := read_schema_field (get_double nan_of) option_json key 0 in
  let! lo := read "min"%string in
  let! hi := read "max"%string in
  let! st := read "step"%string in
  let! pr := read_schema_field get_int64 option_json "precision" 0 in
  let! pc := read_schema_field get_bool option_json "percent" false in
  let! df := read "default"%string in
  inr (Option_number (MkNumber lo hi st (s32 pr) pc df)).
Definition parse_config_schema_option (option_json : json) : outcome ConfigOption :=
  let! id := read_required_schema_string option_json "id" in
  let! name := read_required_schema_string option_json "name" in
  let! description := read_schema_field get_string option_json "description" EmptyString in
  let! type_string := read_required_schema_string option_json "type" in
  let! v :=
    match config_option_type_names type_string with
    | None => error IncorrectConfigSchemaType "type"
    | Some Type_enum => parse_enum_option option_json
    | Some Type_number => parse_number_option option_json
    | Some Type_string => parse_string_option option_json
    end in
  inr (MkOption id name description v).
(** [emplace] of each id with its position: the first of two keeps it. *)
Definition index_ids (ids : list string) : gmap string nat := foldl (fun m '(i, id) => emplace id i m) ∅ (imap pair ids).
Definition schema_of (l : list ConfigOption) : ConfigSchema := MkSchema l (index_ids (option_id <$> l)).

(** * The manifest *)

(** What [ModManager.ModManifest] does not keep. *)
Record manifest_file := MkManifestFile {
  core : ModManifest; mod_root_path : string; manifest_game_ids : list string; display_name : string; description : string;
  short_description : string; authors : list string; dependencies_by_id : gmap string nat; config_schema : ConfigSchema;
  native_libraries : list (string * list string) }.

(** A missing key is an error unless there is a value for it. *)
Definition read_field {A} (get : json -> option A) (data : json) (key : string) (fallback : option A) : outcome A :=
  match json_find key data with
  | None => match fallback with None => error MissingManifestField key | Some a => inr a end
  | Some v => match get v with None => error IncorrectManifestFieldType key | Some a => inr a end
  end.
Definition read_version_field (data : json) (key : string) (parse_failure_error : ModOpenError) : outcome Version :=
  let! raw := read_field get_string data key None in
  match from_string raw with None => error parse_failure_error raw | Some v => inr v end.
Definition read_array_field {A} (get : json -> option A) (data : json) (key : string) (required : bool) : outcome (list A) :=
  read_field (extract_array get) data key (if required then None else Some []).

Fixpoint split_colon (s : string) : option (string * string) :=
  match s with
  | EmptyString => None
  | String c s' => if Ascii.eqb c ":"%char then Some (EmptyString, s') else '(a, b) ← split_colon s'; Some (String c a, b)
  end.
Definition parse_dependency (text : string) : option (string * Version) :=
  match split_colon text with
  | None => if validate_mod_id text then Some (text, MkVersion 0 0 0 EmptyString) else None
  | Some (id, v) => if validate_mod_id id then v ← from_string v; Some (id, v) else None
  end.
Definition read_dependency_list (data : json) (key : string) (is_optional : bool) : outcome (list Dependency) :=
  let! raw := read_array_field get_string data key false in
  each (fun entry => match parse_dependency entry with
                     | None => error InvalidDependencyString entry
                     | Some (id, v) => inr (MkDependency id v is_optional)
                     end) raw.

Definition read_native_libraries (data : json) : outcome (list (string * list string)) :=
  match json_find "native_libraries" data with
  | None => inr []
  | Some v =>
      match get_object v with
      | None => error IncorrectManifestFieldType "native_libraries"
      | Some items =>
          each (fun '(name, exports) =>
            match extract_array get_string exports with
            | None => error IncorrectManifestFieldType "native_libraries"
            | Some l => inr (name, l)
            end) items
      end
  end.
Definition read_config_schema (data : json) : outcome ConfigSchema :=
  match json_find "config_schema" data with
  | None => inr no_options
  | Some v =>
      match get_object v with
      | None => error IncorrectManifestFieldType "config_schema"
      | Some _ =>
          match json_find "options" v with
          | None => error MissingConfigSchemaField "options"
          | Some o =>
              match get_array o with
              | None => error IncorrectManifestFieldType "options"
              | Some l => let! opts := each parse_config_schema_option l in inr (schema_of opts)
              end
          end
      end
  end.
Definition parse_manifest_json (root : string) (j : json) : outcome manifest_file :=
  let! game_id := read_field get_string j "game_id" None in
  let! id := read_field get_string j "id" None in
  let! name := read_field get_string j "display_name" None in
  let! descr := read_field get_string j "description" (Some EmptyString) in
  let! short := read_field get_string j "short_description" (Some EmptyString) in
  let! v := read_version_field j "version" InvalidVersionString in
  let! auth := read_array_field get_string j "authors" true in
  let! least := read_version_field j "minimum_recomp_version" InvalidMinimumRecompVersionString in
  let! on := read_field get_bool j "enabled_by_default" (Some true) in
  let! deps := read_dependency_list j "dependencies" false in
  let! opt_deps := read_dependency_list j "optional_dependencies" true in
  let! libs := read_native_libraries j in
  let! schema := read_config_schema j in
  inr (MkManifestFile (MkManifest id (deps ++ opt_deps) v least on) root [game_id] name descr short auth
         (index_ids (dep_mod_id <$> (deps ++ opt_deps))) schema libs).
Definition parse_manifest `{JsonText} (root : string) (manifest_data : list Z) : outcome manifest_file :=
  match json_parse manifest_data with
  | None => error FailedToParseManifest EmptyString
  | Some j => match get_object j with None => error InvalidManifestSchema EmptyString | Some _ => parse_manifest_json root j end
  end.

(** * The values of options *)

(** Not set is [Monostate], an enumeration's value its index. *)
Inductive ConfigValueVariant := Monostate | Value_u32 (n : Z) | Value_double (bits : Z) | Value_string (s : string).
Abbreviation ConfigStorage := (gmap string ConfigValueVariant).

Definition option_at (schema : ConfigSchema) (id : string) : option ConfigOption := i ← options_by_id schema !! id; options schema !! i.
(** The stored JSON value of an option, and the JSON value that is stored; printing
    a value of another type throws, and an index past the list is undefined. *)
Definition read_value (v : json) (o : ConfigOptionVariant) : option ConfigValueVariant :=
  match o with
  | Option_enum opts _ => s ← get_string v; i ← index_of s opts; Some (Value_u32 (u32 i))
  | Option_number _ => Value_double <$> get_double nan_of v
  | Option_string _ => Value_string <$> get_string v
  end.
Definition write_value (v : ConfigValueVariant) (o : ConfigOptionVariant) : option json :=
  match o, v with
  | Option_enum opts _, Value_u32 i => JString <$> opts !! Z.to_nat i
  | Option_number _, Value_double b => Some (JFloat b)
  | Option_string _, Value_string s => Some (JString s)
  | _, _ => None
  end.
(** The walk is over the schema, so a repeated id is read for each of its options. *)
Definition load_option (storage_json : json) (storage : ConfigStorage) (o : ConfigOption) : ConfigStorage :=
  match (v ← json_find (option_id o) storage_json; read_value v (variant o)) with
  | Some v => <[option_id o := v]> storage
  | None => storage
  end.

Section Storage.
Context `{JsonText}.

(** [decode_json_file], [read_json_with_backups]. *)
Definition decode_json_file (path : string) (d : disk) : option json :=
  match d !! path ≫= json_read with
  | Some j => Some j
  | None => open_input_backup_file path d ≫= json_read
  end.
Definition load_mod_config_storage (path expected_mod_id : string) (schema : ConfigSchema) (d : disk) : bool * ConfigStorage :=
  match decode_json_file path d with
  | None => (false, ∅)
  | Some config_json =>
      match json_find "mod_id" config_json ≫= get_string with
      | None => (false, ∅)
      | Some stored_mod_id =>
          if negb (bool_decide (stored_mod_id = expected_mod_id)) then (false, ∅)
          else match json_find "storage" config_json with
               | Some (JObject l) => (true, foldl (load_option (JObject l)) ∅ (options schema))
               | _ => (false, ∅)
               end
      end
  end.
(** Writing a document through the temporary file; errors of the stream are not
    looked at. *)
Definition write_json (faults : io_faults) (path : string) (j : json) : io bool :=
  let* good := open_output_file_with_backup faults path in
  if negb good then ret false
  else
    let* _ := tell (Append (with_temp path) <$> upto (write_stops faults) (json_dump j)) in
    finalize_output_file_with_backup faults path.
Definition store_value (schema : ConfigSchema) (kv : string * ConfigValueVariant) (acc : option (list (string * json))) : option (list (string * json)) :=
  match option_at schema (fst kv) with
  | None => acc
  | Some o => j ← write_value (snd kv) (variant o); l ← acc; Some ((fst kv, j) :: l)
  end.
Definition stored_members (schema : ConfigSchema) (storage : ConfigStorage) : option (list (string * json)) :=
  foldr (store_value schema) (Some []) (map_to_list storage).
(** A member that is never assigned stays null. *)
Context (project_version : Version).
Definition config_json (mod_id : string) (mod_version : Version) (schema : ConfigSchema) (storage : ConfigStorage) : option json :=
  l ← stored_members schema storage;
  Some (JObject [("mod_id", JString mod_id); ("mod_version", JString (to_string mod_version));
                 ("recomp_version", JString (to_string project_version)); ("storage", match l with [] => JNull | _ => JObject l end)]%string).
Definition save_mod_config_storage (faults : io_faults) (path mod_id : string) (mod_version : Version) (schema : ConfigSchema)
    (storage : ConfigStorage) : option (io bool) :=
  j ← config_json mod_id mod_version schema storage; Some (write_json faults path j).

Definition string_array (l : list string) : json := JArray (JString <$> l).
Definition parse_mods_config (path : string) (d : disk) : bool * (gset string * list string) :=
  match decode_json_file path d with
  | None => (false, (∅, []))
  | Some config_json =>
      let strings key := default [] (json_find key config_json ≫= extract_array get_string) in
      (true, (list_to_set (strings "enabled_mods"%string), strings "mod_order"%string))
  end.
Definition mods_config_json (enabled : gset string) (mod_order : list string) : json :=
  JObject [("enabled_mods", string_array (elements enabled)); ("mod_order", string_array mod_order)]%string.
Definition save_mods_config (faults : io_faults) (path : string) (enabled : gset string) (mod_order : list string) : io bool :=
  write_json faults path (mods_config_json enabled mod_order).

(** * Files of a mod *)

Fixpoint split_last (c : ascii) (s : string) : option (string * string) :=
  match s with
  | EmptyString => None
  | String x s' =>
      match split_last c s' with
      | Some (a, b) => Some (String x a, b)
      | None => if Ascii.eqb x c then Some (EmptyString, s') else None
      end
  end.
(** [std::filesystem::path], with slashes: [filename], [stem], [extension] and the
    join, in which an absolute path replaces what is before it. *)
Definition filename (p : string) : string := match split_last "/"%char p with Some (_, f) => f | None => p end.
Definition stem (p : string) : string :=
  let f := filename p in
  if bool_decide (f = ".."%string) then f
  else match split_last "."%char f with Some (EmptyString, _) | None => f | Some (a, _) => a end.
Definition extension (p : string) : string :=
  let f := filename p in
  if bool_decide (f = ".."%string) then EmptyString
  else match split_last "."%char f with Some (EmptyString, _) | None => EmptyString | Some (_, e) => String "." e end.
Definition path_join (dir p : string) : string :=
  match p with
  | String "/"%char _ => p
  | _ => match dir with
         | EmptyString => p
         | _ => match split_last "/"%char dir with Some (_, EmptyString) => dir +:+ p | _ => dir +:+ String "/" p end
         end
  end.

(** What the host answers about a path; a file that cannot be opened has no
    contents, and [Stat_failed] is an error after the path was found. *)
Inductive path_status := Missing | Stat_failed | Regular (contents : option (list Z)) | Directory | Special.
Context (host : string -> path_status).
(** The reader of archives (miniz): where a file is, its size, its contents. *)
Record archive := MkArchive { locate_file : string -> option nat; file_size : nat -> option Z; extract : nat -> Z -> option (list Z) }.
Context (mz_reader : list Z -> option archive).

Record ModFileHandle := MkHandle { read_file : string -> option (list Z); file_exists : string -> bool }.
Definition zip_handle (a : archive) : ModFileHandle :=
  MkHandle (fun f => i ← locate_file a f; n ← file_size a i; extract a i n) (fun f => bool_decide (is_Some (locate_file a f))).
Definition loose_handle (root_path : string) : ModFileHandle :=
  MkHandle (fun f => match host (path_join root_path f) with Regular c => c | _ => None end)
    (fun f => match host (path_join root_path f) with Regular _ => true | _ => false end).
Definition ZipModFileHandle (bytes : option (list Z)) : outcome ModFileHandle :=
  match bytes with
  | None => error FileError EmptyString
  | Some b => match mz_reader b with None => error InvalidZip EmptyString | Some a => inr (zip_handle a) end
  end.
(** The errors found are replaced by success. *)
Definition LooseModFileHandle (root_path : string) : outcome ModFileHandle := inr (loose_handle root_path).

(** * Opening mods *)

Record mod_entry := MkEntry { entry_file : manifest_file; config_storage : ConfigStorage; thumbnail : option (list Z) }.
Inductive config_request := Queue_end | Queue_save | Queue_save_mod (mod_id : string).
(** The entries are those of [opened_mods] of the context, in its order. *)
Record mod_files := MkModFiles {
  context : ModContext; entries : list mod_entry; mod_ids : gset string; opened_mods_by_filename : gmap string nat;
  mod_configuration_thread_queue : list config_request }.
Definition close_mods_files (s : mod_files) : mod_files :=
  MkModFiles (close_mods (context s)) [] ∅ ∅ (mod_configuration_thread_queue s).
Definition add_opened_file (content_types : list ModContentType) (e : mod_entry) (games types : list nat) (s : mod_files) : mod_files :=
  MkModFiles (add_opened_mod content_types (core (entry_file e)) games types (context s)) (entries s ++ [e]) (mod_ids s)
    (emplace (filename (mod_root_path (entry_file e))) (length (entries s)) (opened_mods_by_filename s)) (mod_configuration_thread_queue s).

(** Content types by their number, with the file that marks each. *)
Context (content_types : list ModContentType) (content_filenames : list string) (mod_config_directory : string).
(** The manifest of a mod without one. *)
Definition default_manifest (root : string) (games : list string) : manifest_file :=
  MkManifestFile (MkManifest (stem root) [] (MkVersion 0 0 0 EmptyString) (MkVersion 0 0 0 EmptyString) true) root games (stem root)
    EmptyString EmptyString ["Unknown"%string] ∅ no_options [].
Definition known_games (c : ModContext) : list string := (map_to_list (mod_game_ids c)).*1.
Definition read_manifest (h : ModFileHandle) (root : string) (requires_manifest : bool) (c : ModContext) : outcome manifest_file :=
  match read_file h "mod.json" with
  | None => if requires_manifest then error NoManifest EmptyString else inr (default_manifest root (known_games c))
  | Some data => parse_manifest root data
  end.
Definition detect_content_types (h : ModFileHandle) (supported : list nat) : list nat :=
  let scanned := match supported with [] => seq 0 (length content_filenames) | _ => supported end in
  filter (fun t => match content_filenames !! t with Some f => file_exists h f | None => false end = true) scanned.
Definition read_thumbnail (h : ModFileHandle) : option (list Z) :=
  match read_file h "thumb.dds" with Some t => Some t | None => read_file h "thumb.png" end.
Definition config_path (id : string) : string := path_join mod_config_directory (id +:+ ".json").
(** The id is taken before the games are looked up. *)
Definition open_mod_from_manifest (d : disk) (h : ModFileHandle) (root : string) (supported : list nat) (requires_manifest : bool)
    (s : mod_files) : outcome unit * mod_files :=
  match read_manifest h root requires_manifest (context s) with
  | inl e => (inl e, s)
  | inr m =>
      let id := mod_id (core m) in
      if decide (id ∈ mod_ids s) then (error DuplicateMod id, s)
      else
        let s := MkModFiles (context s) (entries s) ({[id]} ∪ mod_ids s) (opened_mods_by_filename s) (mod_configuration_thread_queue s) in
        match each (fun g => match mod_game_ids (context s) !! g with None => error WrongGame g | Some i => inr i end) (manifest_game_ids m) with
        | inl e => (inl e, s)
        | inr games =>
            let storage := snd (load_mod_config_storage (config_path id) id (config_schema m) d) in
            (inr tt, add_opened_file content_types (MkEntry m storage (read_thumbnail h)) games (detect_content_types h supported) s)
        end
  end.
Definition open_handle (path : string) : outcome ModFileHandle :=
  match host path with
  | Missing => error DoesNotExist EmptyString
  | Stat_failed => error FileError EmptyString
  | Regular bytes => ZipModFileHandle bytes
  | Directory => LooseModFileHandle path
  | Special => error NotAFileOrFolder EmptyString
  end.
Definition open_mod_from_path (d : disk) (path : string) (supported : list nat) (requires_manifest : bool) (s : mod_files) : outcome unit * mod_files :=
  match open_handle path with
  | inl e => (inl e, s)
  | inr h => open_mod_from_manifest d h path supported requires_manifest s
  end.
Definition open_mod_from_memory (d : disk) (mod_bytes : list Z) (supported : list nat) (requires_manifest : bool) (s : mod_files) : outcome unit * mod_files :=
  match mz_reader mod_bytes with
  | None => (error InvalidZip EmptyString, s)
  | Some a => open_mod_from_manifest d (zip_handle a) EmptyString supported requires_manifest s
  end.

(** ** The mod folder *)

(** What a listing says of an entry; errors come with the path or the embedded id. *)
Inductive dir_entry := Entry_file (path : string) | Entry_directory (path : string) | Entry_other (path : string).
Record ModContainerType := MkContainer { supported_content_types : list nat; container_requires_manifest : bool }.
Definition register_container_type (n_content_types : nat) (ext : string) (types : list nat) (requires_manifest : bool)
    (containers : gmap string ModContainerType) : bool * gmap string ModContainerType :=
  if negb (forallb (fun t => (t <? n_content_types)%nat) types) then (false, containers)
  else if bool_decide (is_Some (split_last "."%char ext)) then (false, containers)
  else match containers !! String "." ext with
       | Some _ => (false, containers)
       | None => (true, <[String "." ext := MkContainer types requires_manifest]> containers)
       end.
(** The arguments an entry is opened with, if it is a mod. *)
Definition container_of (containers : gmap string ModContainerType) (e : dir_entry) : option (string * list nat * bool) :=
  match e with
  | Entry_file p => t ← containers !! extension p; Some (p, supported_content_types t, container_requires_manifest t)
  | Entry_directory p => Some (p, [], true)
  | Entry_other _ => None
  end.
Definition open_error (what : string) (r : outcome unit) : list (string * ModOpenError * string) :=
  match r with inl (e, p) => [(what, e, p)] | inr _ => [] end.
Definition scan_entry (d : disk) (containers : gmap string ModContainerType)
    (acc : list (string * ModOpenError * string) * mod_files) (e : dir_entry) : list (string * ModOpenError * string) * mod_files :=
  let '(errors, s) := acc in
  match container_of containers e with
  | None => acc
  | Some (p, types, requires_manifest) =>
      let '(r, s) := open_mod_from_path d p types requires_manifest s in (errors ++ open_error p r, s)
  end.
Definition scan_embedded (d : disk) (acc : list (string * ModOpenError * string) * mod_files) (m : string * list Z) :
    list (string * ModOpenError * string) * mod_files :=
  let '(errors, s) := acc in
  match opened_mods_by_id (context s) !! fst m with
  | Some _ => acc
  | None => let '(r, s) := open_mod_from_memory d (snd m) [] true s in (errors ++ open_error (fst m) r, s)
  end.
Definition scan_mod_folder (d : disk) (containers : gmap string ModContainerType) (listing : list dir_entry)
    (embedded_mod_bytes : list (string * list Z)) (s : mod_files) : list (string * ModOpenError * string) * mod_files :=
  foldl (scan_embedded d) (foldl (scan_entry d containers) ([], close_mods_files s) listing) embedded_mod_bytes.

(** ** Setting and reading options *)

Definition accepts (o : ConfigOptionVariant) (v : ConfigValueVariant) : bool :=
  match o, v with
  | Option_enum opts _, Value_u32 n => n <? Z.of_nat (length opts)
  | Option_number _, Value_double _ => true
  | Option_string _, Value_string _ => true
  | _, _ => false
  end.
Definition set_value (id : string) (v : ConfigValueVariant) (e : mod_entry) : mod_entry :=
  match option_at (config_schema (entry_file e)) id with
  | Some o => if accepts (variant o) v then MkEntry (entry_file e) (<[id := v]> (config_storage e)) (thumbnail e) else e
  | None => e
  end.
Definition set_mod_config_value (mod_index : nat) (id : string) (v : ConfigValueVariant) (s : mod_files) : mod_files :=
  match entries s !! mod_index with
  | None => s
  | Some e =>
      MkModFiles (context s) (<[mod_index := set_value id v e]> (entries s)) (mod_ids s) (opened_mods_by_filename s)
        (mod_configuration_thread_queue s ++ [Queue_save_mod (mod_id (core (entry_file e)))])
  end.
Definition set_mod_config_value_by_id (id option_id : string) (v : ConfigValueVariant) (s : mod_files) : mod_files :=
  match opened_mods_by_id (context s) !! id with Some i => set_mod_config_value i option_id v s | None => s end.
Definition default_value (o : ConfigOptionVariant) : ConfigValueVariant :=
  match o with
  | Option_enum _ i => Value_u32 i
  | Option_number n => Value_double (default_number n)
  | Option_string t => Value_string t
  end.
Definition value_of (id : string) (e : mod_entry) : ConfigValueVariant :=
  match config_storage e !! id with
  | Some v => v
  | None => match option_at (config_schema (entry_file e)) id with Some o => default_value (variant o) | None => Monostate end
  end.
Definition get_mod_config_value (mod_index : nat) (id : string) (s : mod_files) : ConfigValueVariant :=
  match entries s !! mod_index with Some e => value_of id e | None => Monostate end.
Definition get_mod_config_value_by_id (id option_id : string) (s : mod_files) : ConfigValueVariant :=
  match opened_mods_by_id (context s) !! id with Some i => get_mod_config_value i option_id s | None => Monostate end.
Definition get_mod_config_schema (id : string) (s : mod_files) : ConfigSchema :=
  match opened_mods_by_id (context s) !! id ≫= (fun i => entries s !! i) with
  | Some e => config_schema (entry_file e)
  | None => no_options
  end.

(** mod_config_api.cpp: the answers to the guest.  A double outside of the signed
    words has no defined conversion; a string is copied to the guest's heap. *)
Definition recomp_get_config_u32 (v : ConfigValueVariant) : option Z :=
  match v with
  | Value_u32 n => Some n
  | Value_double b => u32 <$> int32_of_float Floats.Truncate (decode binary64 b)
  | _ => Some 0
  end.
Definition recomp_get_config_double (v : ConfigValueVariant) : Z :=
  match v with Value_u32 n => float_of_Z binary64 nan_of n | Value_double b => b | _ => 0 end.
Definition recomp_get_config_string (v : ConfigValueVariant) : option string := match v with Value_string s => Some s | _ => None end.

(** ** The thread that saves *)

(** Requests are gathered until none comes for a second; what a mod's file gets is
    copied under the locks, and written without them. *)
Record config_thread := MkConfigThread {
  pending_mods : gset string; pending_mod_storage : gmap string ConfigStorage; pending_mod_schema : gmap string ConfigSchema;
  pending_mod_version : gmap string Version; pending_config_save : bool; active : bool }.
Definition idle_thread : config_thread := MkConfigThread ∅ ∅ ∅ ∅ false true.
Definition handle_variant (t : config_thread) (r : config_request) : config_thread :=
  match r with
  | Queue_end => MkConfigThread (pending_mods t) (pending_mod_storage t) (pending_mod_schema t) (pending_mod_version t) (pending_config_save t) false
  | Queue_save => MkConfigThread (pending_mods t) (pending_mod_storage t) (pending_mod_schema t) (pending_mod_version t) true (active t)
  | Queue_save_mod id =>
      MkConfigThread ({[id]} ∪ pending_mods t) (pending_mod_storage t) (pending_mod_schema t) (pending_mod_version t) (pending_config_save t) (active t)
  end.
(** The queue is drained until a request ends the thread. *)
Fixpoint drain_requests (t : config_thread) (l : list config_request) : config_thread * list config_request :=
  match l with
  | [] => (t, [])
  | r :: l => if active t then drain_requests (handle_variant t r) l else (t, r :: l)
  end.
Definition snapshot_mod (s : mod_files) (t : config_thread) (id : string) : config_thread :=
  match opened_mods_by_id (context s) !! id ≫= (fun i => entries s !! i) with
  | None => t
  | Some e =>
      MkConfigThread (pending_mods t) (<[id := config_storage e]> (pending_mod_storage t))
        (<[id := config_schema (entry_file e)]> (pending_mod_schema t)) (<[id := version (core (entry_file e))]> (pending_mod_version t))
        (pending_config_save t) (active t)
  end.
Definition snapshot_mods (s : mod_files) (t : config_thread) : config_thread := foldl (snapshot_mod s) t (elements (pending_mods t)).
(** A mod without a snapshot is written with empty tables. *)
Definition write_mod (faults : io_faults) (t : config_thread) (id : string) : option (io bool) :=
  save_mod_config_storage faults (config_path id) id (default (MkVersion 0 0 0 EmptyString) (pending_mod_version t !! id))
    (default no_options (pending_mod_schema t !! id)) (default ∅ (pending_mod_storage t !! id)).
Fixpoint write_mods (faults : string -> io_faults) (t : config_thread) (ids : list string) (d : disk) : option disk :=
  match ids with
  | [] => Some d
  | id :: ids => w ← write_mod (faults id) t id; write_mods faults t ids (final w d)
  end.
Definition clear_pending_mods (t : config_thread) : config_thread :=
  MkConfigThread ∅ (pending_mod_storage t) (pending_mod_schema t) (pending_mod_version t) (pending_config_save t) (active t).
Definition clear_pending_save (t : config_thread) : config_thread :=
  MkConfigThread (pending_mods t) (pending_mod_storage t) (pending_mod_schema t) (pending_mod_version t) false (active t).
Context (mods_config_path : string).
Definition current_mod_order (c : ModContext) : list string :=
  omap (fun i => (fun m => mod_id (manifest m)) <$> opened_mods c !! i) (opened_mods_order c).
(** A round of the loop: the queue, the mods as they are when their locks are
    taken, the writes.  [None]: printing a value throws, which ends the program. *)
Definition thread_round (faults : string -> io_faults) (s : mod_files) (t : config_thread) (d : disk) :
    option (mod_files * config_thread * disk) :=
  let '(t, queue) := drain_requests t (mod_configuration_thread_queue s) in
  let s := MkModFiles (context s) (entries s) (mod_ids s) (opened_mods_by_filename s) queue in
  '(t, d) ← (if active t && negb (bool_decide (pending_mods t = ∅))
             then let t := snapshot_mods s t in d ← write_mods faults t (elements (pending_mods t)) d; Some (clear_pending_mods t, d)
             else Some (t, d));
  if active t && pending_config_save t
  then Some (s, clear_pending_save t,
             final (save_mods_config (faults mods_config_path) mods_config_path (enabled_mods (context s)) (current_mod_order (context s))) d)
  else Some (s, t, d).
End Storage.
End ModFiles.

(** * Texts of errors *)

Definition ModOpenError_to_string (e : ModOpenError) : string :=
  match e with
  | DoesNotExist => "Mod does not exist"
  | NotAFileOrFolder => "Mod is not a file or folder"
  | FileError => "Error reading mod file(s)"
  | InvalidZip => "Mod is an invalid zip file"
  | NoManifest => "Mod is missing a mod.json"
  | FailedToParseManifest => "Failed to parse mod's mod.json"
  | InvalidManifestSchema => "Mod's mod.json has an invalid schema"
  | IncorrectManifestFieldType => "Incorrect type for field in mod.json"
  | MissingConfigSchemaField => "Missing required field in config schema in mod.json"
  | IncorrectConfigSchemaType => "Incorrect type for field in config schema in mod.json"
  | InvalidConfigSchemaDefault => "Invalid default for option in config schema in mod.json"
  | InvalidVersionString => "Invalid version string in mod.json"
  | InvalidMinimumRecompVersionString => "Invalid minimum recomp version string in mod.json"
  | InvalidDependencyString => "Invalid dependency string in mod.json"
  | MissingManifestField => "Missing required field in mod.json"
  | DuplicateMod => "Duplicate mod found"
  | WrongGame => "Mod is for a different game"
  end.
Definition CodeModLoadError_to_string (e : CodeModLoadError) : string :=
  match e with
  | InternalError => "Code mod loading internal error"
  | HasSymsButNoBinary => "Mod has a symbol file but no binary file"
  | HasBinaryButNoSyms => "Mod has a binary file but no symbol file"
  | FailedToParseSyms => "Failed to parse mod symbol file"
  | MissingDependencyInManifest => "Dependency is present in mod symbols but not in the manifest"
  | FailedToLoadNativeCode => "Failed to load offline mod library"
  | FailedToLoadNativeLibrary => "Failed to load mod library"
  | FailedToFindNativeExport => "Failed to find native export"
  | FailedToRecompile => "Failed to recompile mod"
  | InvalidReferenceSymbol => "Reference symbol does not exist"
  | InvalidImport => "Imported function not found"
  | InvalidCallbackEvent => "Event for callback not found"
  | InvalidFunctionReplacement => "Function to be replaced does not exist"
  | HooksUnavailable => "Function hooks are currently unavailable in this project"
  | InvalidHook => "Function to be hooked does not exist"
  | CannotBeHooked => "Function is not hookable"
  | FailedToFindReplacement => "Failed to find replacement function"
  | BaseRecompConflict => "Attempted to replace a function that's been patched by the base recomp"
  | ModConflict => "Conflicts with other mod"
  | DuplicateExport => "Duplicate exports in mod"
  | OfflineModHooked => "Offline recompiled mod has a function hooked by another mod"
  | NoSpecifiedApiVersion => "Mod DLL does not specify an API version"
  | UnsupportedApiVersion => "Mod DLL has an unsupported API version"
  end.
