(* ===== verification/ModFilesSpec.v ===== *)
(** Mod files: what a rejected manifest is told, that an accepted one can be written
    down again, which mods a scan opens, and that the values of options keep their
    types, survive a crash and come back. *)

From Stdlib Require Import ZArith Lia Bool List String Ascii.
From stdpp Require Import base list gmap strings fin_sets.
From S2P Require Import Prelude Floats Json Save Files FilesSpec ModSections Rom RomSpec ModManager ModOrder ModFiles.
Open Scope Z_scope.
Open Scope list_scope.

#[export] Instance config_request_eq_dec : EqDecision config_request.
Proof. solve_decision. Defined.

(** * Outcomes *)

Lemma and_then_ok {A B} (m : outcome A) (k : A -> outcome B) b : and_then m k = inr b <-> exists a, m = inr a /\ k a = inr b.
Proof. destruct m as [e|a]; cbn; [split; [done|by intros (? & ? & _)]|]. split; [by exists a|by intros (? & [= <-] & ?)]. Qed.
Lemma and_then_error {A B} (m : outcome A) (k : A -> outcome B) e : and_then m k = inl e <-> m = inl e \/ exists a, m = inr a /\ k a = inl e.
Proof.
  destruct m as [e'|a]; cbn; split.
  - intros [= ->]. by left.
  - intros [[= ->]|(? & ? & _)]; done.
  - intros E. right. by exists a.
  - by intros [?|(? & [= <-] & ?)].
Qed.
(** The steps of a chain that gave a result, or of one that gave an error. *)
Ltac outcome_ok H := repeat (let a := fresh "a" in let E := fresh "E" in apply and_then_ok in H as (a & E & H)).
Ltac outcome_error H := repeat (apply and_then_error in H as [H|(? & _ & H)]; [|]).
Lemma chain_error {A B} (m : outcome A) (k : A -> outcome B) e (P : Prop) :
  and_then m k = inl e -> (m = inl e -> P) -> (forall a, k a = inl e -> P) -> P.
Proof. intros [E|(a & _ & E)]%and_then_error H1 H2; eauto. Qed.
Lemma each_ok {A B} (f : A -> outcome B) l bs : each f l = inr bs <-> Forall2 (fun a b => f a = inr b) l bs.
Proof.
  revert bs. induction l as [|a l IH]; intros bs; cbn [each].
  - split; [intros [= <-]; constructor|]. by intros ->%Forall2_nil_inv_l.
  - rewrite and_then_ok. split.
    + intros (b & Hb & (cs & Hc & [= <-])%and_then_ok). constructor; [done|by apply IH].
    + intros (b & cs & Hb & Hc & ->)%Forall2_cons_inv_l. exists b. split; [done|]. apply and_then_ok. exists cs. split; [by apply IH|done].
Qed.
Lemma each_error {A B} (f : A -> outcome B) l e : each f l = inl e -> exists a, a ∈ l /\ f a = inl e.
Proof.
  induction l as [|a l IH]; [done|]. cbn [each]. intros [E|(b & _ & [E|(bs & _ & [=])]%and_then_error)]%and_then_error.
  - exists a. split; [left|done].
  - destruct (IH E) as (c & Hc & Ec). exists c. split; [by right|done].
Qed.
Lemma extract_array_ok {A} (get : json -> option A) v l : extract_array get v = Some l <->
  exists js, v = JArray js /\ Forall2 (fun j a => get j = Some a) js l.
Proof.
  unfold extract_array. rewrite bind_Some. split.
  - intros (js & E1 & E2). destruct v; try done. injection E1 as ->. exists js. split; [done|]. by apply mapM_Some in E2.
  - intros (js & -> & E2). exists js. split; [done|]. by apply mapM_Some.
Qed.
Lemma extract_strings l : extract_array get_string (string_array l) = Some l.
Proof. apply extract_array_ok. eexists. split; [reflexivity|]. apply Forall2_fmap_l. induction l; constructor; done. Qed.

(** * Errors of a manifest *)

Section Manifest.
Context (nan_of : list Z -> Z) (validate_mod_id : string -> bool).
Abbreviation parse_option := (parse_config_schema_option nan_of).
Abbreviation dependency := (parse_dependency validate_mod_id).
Abbreviation parse := (parse_manifest_json nan_of validate_mod_id).

Definition text_keys : list string := ["game_id"; "id"; "display_name"; "description"; "short_description"; "version"; "minimum_recomp_version"]%string.
Definition list_keys : list string := ["authors"; "dependencies"; "optional_dependencies"]%string.
Definition required_keys : list string := ["game_id"; "id"; "display_name"; "version"; "authors"; "minimum_recomp_version"]%string.
(** The type of each field. *)
Definition is_string_array (v : json) : bool := bool_decide (is_Some (extract_array get_string v)).
Definition field_type (key : string) (v : json) : bool :=
  if bool_decide (key ∈ text_keys) then bool_decide (is_Some (get_string v))
  else if bool_decide (key ∈ list_keys) then is_string_array v
  else if bool_decide (key = "enabled_by_default"%string) then bool_decide (is_Some (get_bool v))
  else if bool_decide (key = "native_libraries"%string) then match v with JObject l => forallb (fun kv => is_string_array (snd kv)) l | _ => false end
  else if bool_decide (key = "config_schema"%string) then bool_decide (is_Some (get_object v))
  else true.
(** What is said of an option: its type decides the types of the others. *)
Definition option_kind (o : json) : option ConfigOptionType := (json_find "type" o ≫= get_string) ≫= config_option_type_names.
Definition is_text (v : json) : bool := bool_decide (is_Some (get_string v)).
Definition is_number (v : json) : bool := bool_decide (is_Some (get_double nan_of v)).
Definition kind_field_type (kind : option ConfigOptionType) (key : string) (v : json) : bool :=
  match kind with
  | None => negb (bool_decide (key = "type"%string))
  | Some Type_enum => if bool_decide (key = "options"%string) then is_string_array v else if bool_decide (key = "default"%string) then is_text v else true
  | Some Type_number =>
      if bool_decide (key ∈ ["min"; "max"; "step"; "default"]%string) then is_number v
      else if bool_decide (key = "precision"%string) then bool_decide (is_Some (get_int64 v))
      else if bool_decide (key = "percent"%string) then bool_decide (is_Some (get_bool v)) else true
  | Some Type_string => if bool_decide (key = "default"%string) then is_text v else true
  end.
Definition option_field_type (kind : option ConfigOptionType) (key : string) (v : json) : bool :=
  if bool_decide (key ∈ ["id"; "name"; "description"]%string) then is_text v else kind_field_type kind key v.
Definition explains_option (o : json) (e : ModOpenError) (p : string) : Prop :=
  match e with
  | MissingConfigSchemaField => p ∈ ["id"; "name"; "type"]%string /\ json_find p o = None
  | IncorrectConfigSchemaType => exists v, json_find p o = Some v /\ option_field_type (option_kind o) p v = false
  | InvalidConfigSchemaDefault => p = "default"%string /\ option_kind o = Some Type_enum /\ exists s opts,
      json_find "default" o = Some (JString s) /\ (s ∉ opts) /\
      match json_find "options" o with Some v => extract_array get_string v = Some opts | None => opts = [] end
  | _ => False
  end.
(** What an error with its parameter says of a manifest. *)
Definition explains (j : json) (e : ModOpenError) (p : string) : Prop :=
  match e with
  | MissingManifestField => p ∈ required_keys /\ json_find p j = None
  | IncorrectManifestFieldType =>
      (exists v, json_find p j = Some v /\ field_type p v = false) \/
      p = "options"%string /\ exists s v, json_find "config_schema" j = Some s /\ json_find "options" s = Some v /\ get_array v = None
  | InvalidVersionString => json_find "version" j = Some (JString p) /\ from_string p = None
  | InvalidMinimumRecompVersionString => json_find "minimum_recomp_version" j = Some (JString p) /\ from_string p = None
  | InvalidDependencyString => dependency p = None /\ exists key l, (key = "dependencies" \/ key = "optional_dependencies")%string /\
      json_find key j = Some (JArray l) /\ JString p ∈ l
  | MissingConfigSchemaField | IncorrectConfigSchemaType | InvalidConfigSchemaDefault =>
      exists s, json_find "config_schema" j = Some s /\
        (e = MissingConfigSchemaField /\ p = "options"%string /\ json_find "options" s = None \/
         exists l o, json_find "options" s = Some (JArray l) /\ o ∈ l /\ explains_option o e p)
  | _ => False
  end.

Lemma schema_string_error o key e p : key ∈ ["id"; "name"; "type"]%string ->
  (forall v, get_string v = None -> json_find key o = Some v -> option_field_type (option_kind o) key v = false) ->
  read_required_schema_string o key = inl (e, p) -> explains_option o e p.
Proof.
  intros Hk Ht. unfold read_required_schema_string. destruct (json_find key o) as [v|] eqn:Ek.
  - destruct (get_string v) eqn:Ev; [done|]. intros [= <- <-]. exists v. auto.
  - intros [= <- <-]. done.
Qed.
Lemma schema_string_ok o key a : read_required_schema_string o key = inr a -> json_find key o ≫= get_string = Some a.
Proof. unfold read_required_schema_string. destruct (json_find key o) as [v|]; [|done]. cbn. by destruct (get_string v); intros [= ->]. Qed.
Lemma schema_field_error {A} (get : json -> option A) o key absent e p :
  (forall v, get v = None -> option_field_type (option_kind o) key v = false) ->
  read_schema_field get o key absent = inl (e, p) -> explains_option o e p.
Proof.
  intros Ht. unfold read_schema_field. destruct (json_find key o) as [v|] eqn:Ek; [|done].
  destruct (get v) eqn:Ev; [done|]. intros [= <- <-]. exists v. auto.
Qed.
Lemma index_of_none s l : index_of s l = None <-> s ∉ l.
Proof.
  unfold index_of. rewrite fmap_None, list_find_None, list.Forall_forall. split; [intros H Hs; by apply (H s)|by intros H x Hx ->].
Qed.
Lemma enum_error o e p : option_kind o = Some Type_enum -> parse_enum_option o = inl (e, p) -> explains_option o e p.
Proof.
  intros Hk. unfold parse_enum_option. intros [E|(opts & Eo & E)]%and_then_error.
  - revert E. apply schema_field_error. intros v Ev. rewrite Hk. change (is_string_array v = false). unfold is_string_array. by rewrite Ev.
  - destruct (json_find "default" o) as [v|] eqn:Ed; [|done]. destruct (get_string v) as [s|] eqn:Ev.
    + destruct (index_of s opts) eqn:Ei; [done|]. injection E as <- <-. apply index_of_none in Ei. destruct v; try done. injection Ev as ->.
      split; [done|]. split; [done|]. exists s, opts. split; [done|]. split; [done|]. unfold read_schema_field in Eo.
      destruct (json_find "options" o) as [w|]; [|by injection Eo as <-].
      destruct (extract_array get_string w); [by injection Eo as ->|done].
    + injection E as <- <-. exists v. split; [done|]. rewrite Hk. change (is_text v = false). unfold is_text. by rewrite Ev.
Qed.
Lemma number_error o e p : option_kind o = Some Type_number -> parse_number_option nan_of o = inl (e, p) -> explains_option o e p.
Proof.
  intros Hk. assert (forall key, key ∈ ["min"; "max"; "step"; "default"]%string -> forall v, get_double nan_of v = None ->
    option_field_type (option_kind o) key v = false) as Hn.
  { intros key Hin v Ev. rewrite Hk. assert (is_number v = false) as Ht by (unfold is_number; by rewrite Ev).
    repeat (apply elem_of_cons in Hin as [-> |Hin]; [exact Ht|]). by apply elem_of_nil in Hin. }
  unfold parse_number_option.
  intros [E|(lo & _ & [E|(hi & _ & [E|(st & _ & [E|(pr & _ & [E|(pc & _ & [E|(df & _ & E)]%and_then_error)]%and_then_error)]%and_then_error
    )]%and_then_error)]%and_then_error)]%and_then_error; [..|done]; revert E; apply schema_field_error;
    try (apply Hn; compute_done); intros v Ev; rewrite Hk.
  - change (bool_decide (is_Some (get_int64 v)) = false). by rewrite Ev.
  - change (bool_decide (is_Some (get_bool v)) = false). by rewrite Ev.
Qed.
Lemma string_error o e p : option_kind o = Some Type_string -> parse_string_option o = inl (e, p) -> explains_option o e p.
Proof.
  intros Hk. unfold parse_string_option. intros [E|(s & _ & [=])]%and_then_error. revert E. apply schema_field_error.
  intros v Ev. rewrite Hk. change (is_text v = false). unfold is_text. by rewrite Ev.
Qed.
Lemma parse_option_error o e p : parse_option o = inl (e, p) -> explains_option o e p.
Proof.
  assert (forall key, key ∈ ["id"; "name"; "description"]%string -> forall v, get_string v = None ->
    option_field_type (option_kind o) key v = false) as Htext.
  { intros key Hk v Ev. unfold option_field_type, is_text. rewrite bool_decide_true by done. by rewrite Ev. }
  unfold parse_config_schema_option.
  intros [E|(id & _ & [E|(name & _ & [E|(descr & _ & [E|(kind & Et & [E|(v & _ & [=])]%and_then_error)]%and_then_error)]%and_then_error
    )]%and_then_error)]%and_then_error.
  - revert E. apply schema_string_error; [compute_done|]. intros v Ev _. apply Htext; [compute_done|done].
  - revert E. apply schema_string_error; [compute_done|]. intros v Ev _. apply Htext; [compute_done|done].
  - revert E. apply schema_field_error. apply Htext. compute_done.
  - revert E. apply schema_string_error; [compute_done|]. intros v Ev Ek. unfold option_kind. rewrite Ek. cbn [mbind option_bind]. by rewrite Ev.
  - apply schema_string_ok in Et. assert (option_kind o = config_option_type_names kind) as Hk by (unfold option_kind; by rewrite Et).
    destruct (config_option_type_names kind) as [[| |]|] eqn:Ec.
    + by apply enum_error.
    + by apply number_error.
    + by apply string_error.
    + injection E as <- <-. destruct (json_find "type" o) as [v|] eqn:Ek; [|done]. exists v. split; [done|]. by rewrite Hk.
Qed.

Lemma read_field_error {A} (get : json -> option A) j key fallback e p : read_field get j key fallback = inl (e, p) -> p = key /\
  (e = MissingManifestField /\ json_find key j = None /\ fallback = None \/
   e = IncorrectManifestFieldType /\ exists v, json_find key j = Some v /\ get v = None).
Proof.
  unfold read_field. destruct (json_find key j) as [v|].
  - destruct (get v) eqn:Eg; [done|]. intros [= <- <-]. split; [done|]. right. split; [done|by exists v].
  - destruct fallback; [done|]. intros [= <- <-]. split; [done|by left].
Qed.
Lemma read_field_ok {A} (get : json -> option A) j key fallback a : read_field get j key fallback = inr a ->
  match json_find key j with Some v => get v = Some a | None => fallback = Some a end.
Proof. unfold read_field. destruct (json_find key j) as [v|]; [by destruct (get v); intros [= ->]|by destruct fallback; intros [= ->]]. Qed.
Lemma text_type key v : key ∈ text_keys -> get_string v = None -> field_type key v = false.
Proof. intros Hk E. unfold field_type. rewrite bool_decide_true by done. by rewrite E. Qed.
Lemma list_type key v : key ∈ list_keys -> extract_array get_string v = None -> field_type key v = false.
Proof.
  intros Hk E. assert (is_string_array v = false) as Ht by (unfold is_string_array; by rewrite E).
  repeat (apply elem_of_cons in Hk as [-> |Hk]; [exact Ht|]). by apply elem_of_nil in Hk.
Qed.
(** A field with its type, required or not. *)
Lemma field_error {A} (get : json -> option A) j key fallback e p :
  (fallback = None -> key ∈ required_keys) -> (forall v, get v = None -> field_type key v = false) ->
  read_field get j key fallback = inl (e, p) -> explains j e p.
Proof.
  intros Hr Ht H. apply read_field_error in H as [-> [(-> & E & Hf)|(-> & v & E & Eg)]]; [by split; [apply Hr|]|].
  left. exists v. split; [done|by apply Ht].
Qed.
Lemma version_error j key f e p : key ∈ required_keys -> (forall v, get_string v = None -> field_type key v = false) ->
  (forall raw, json_find key j = Some (JString raw) -> from_string raw = None -> explains j f raw) ->
  read_version_field j key f = inl (e, p) -> explains j e p.
Proof.
  intros Hk Ht Hf. unfold read_version_field. intros [E|(raw & Er & E)]%and_then_error; [by apply (field_error get_string j key None)|].
  apply read_field_ok in Er. destruct (json_find key j) as [v|] eqn:Ek; [|done]. destruct v; try done. injection Er as ->.
  destruct (from_string raw) eqn:Ev; [done|]. injection E as <- <-. by apply Hf.
Qed.
Lemma dependency_error j key b e p : (key = "dependencies" \/ key = "optional_dependencies")%string ->
  read_dependency_list validate_mod_id j key b = inl (e, p) -> explains j e p.
Proof.
  intros Hk. unfold read_dependency_list, read_array_field. intros [E|(raw & Er & E)]%and_then_error.
  - apply (field_error (extract_array get_string) j key (Some [])); [done| |done]. intros v.
    apply list_type. destruct Hk as [-> | ->]; compute_done.
  - apply each_error in E as (entry & Hin & E). destruct (dependency entry) as [[id v]|] eqn:Ed; [done|]. injection E as <- <-. split; [done|].
    apply read_field_ok in Er. destruct (json_find key j) as [v|] eqn:Ek; [|injection Er as <-; by apply elem_of_nil in Hin].
    apply extract_array_ok in Er as (js & -> & HF). exists key, js. split; [done|]. split; [done|].
    apply list_elem_of_lookup in Hin as [i Hi]. destruct (Forall2_lookup_r _ _ _ _ _ HF Hi) as (x & Hx & Ex). destruct x; try done. injection Ex as ->.
    by apply list_elem_of_lookup_2 in Hx.
Qed.

(** What an accepted manifest has. *)
Lemma field_typed {A} (get : json -> option A) j key fallback a v :
  json_find key j = Some v -> read_field get j key fallback = inr a -> bool_decide (is_Some (get v)) = true.
Proof. intros Hv H. apply read_field_ok in H. rewrite Hv in H. by rewrite H. Qed.
Lemma field_present {A} (get : json -> option A) j key a : read_field get j key None = inr a -> is_Some (json_find key j).
Proof. intros H. apply read_field_ok in H. by destruct (json_find key j). Qed.
Lemma version_ok_field j key f v : read_version_field j key f = inr v ->
  exists raw, read_field get_string j key None = inr raw /\ json_find key j = Some (JString raw) /\ from_string raw = Some v.
Proof.
  intros H. unfold read_version_field in H. outcome_ok H. destruct (from_string a) as [w|] eqn:E0; [|done]. injection H as ->.
  exists a. split; [done|]. apply read_field_ok in E. destruct (json_find key j) as [u|]; [|done]. destruct u; try done. by injection E as ->.
Qed.
Lemma dependency_list_ok j key b l : read_dependency_list validate_mod_id j key b = inr l ->
  exists raw, read_field (extract_array get_string) j key (Some []) = inr raw /\
    Forall2 (fun e d => dependency e = Some (dep_mod_id d, dep_version d) /\ optional d = b) raw l.
Proof.
  intros H. unfold read_dependency_list in H. outcome_ok H. exists a. split; [done|]. apply each_ok in H.
  eapply Forall2_impl; [exact H|]. intros e d He. cbn beta in He. destruct (dependency e) as [[id v]|]; [by injection He as <-|done].
Qed.
Lemma schema_field_typed {A} (get : json -> option A) o key absent a v :
  json_find key o = Some v -> read_schema_field get o key absent = inr a -> bool_decide (is_Some (get v)) = true.
Proof. unfold read_schema_field. intros Hv H. rewrite Hv in H. by destruct (get v). Qed.
Lemma kind_typed o w kind key v : option_kind o = Some kind ->
  match kind with Type_enum => parse_enum_option o | Type_number => parse_number_option nan_of o | Type_string => parse_string_option o end = inr w ->
  json_find key o = Some v -> kind_field_type (Some kind) key v = true.
Proof.
  intros Hk H Hv. destruct kind; cbn [kind_field_type]; unfold is_string_array, is_number, is_text.
  - unfold parse_enum_option in H. outcome_ok H. case_bool_decide as K; [subst; by eapply schema_field_typed|].
    case_bool_decide as K'; [subst|done]. rewrite Hv in H. by destruct (get_string v).
  - unfold parse_number_option in H. cbv beta zeta in H. outcome_ok H. case_bool_decide as K.
    { repeat (apply elem_of_cons in K as [-> |K]; [by eapply schema_field_typed|]). by apply elem_of_nil in K. }
    case_bool_decide; [subst; by eapply schema_field_typed|]. case_bool_decide; [subst; by eapply schema_field_typed|done].
  - unfold parse_string_option in H. outcome_ok H. case_bool_decide; [subst; by eapply schema_field_typed|done].
Qed.
Lemma enum_default o w s opts : parse_enum_option o = inr w -> json_find "default" o = Some (JString s) ->
  match json_find "options" o with Some v => extract_array get_string v = Some opts | None => opts = [] end -> s ∈ opts.
Proof.
  intros H Hd Ho. unfold parse_enum_option, read_schema_field in H. rewrite Hd in H.
  assert (is_Some (index_of s opts)) as [i Hi].
  { destruct (json_find "options" o) as [v|]; [rewrite Ho in H|subst]; cbn in H; by destruct (index_of s _). }
  destruct (decide (s ∈ opts)) as [|N]; [done|]. by apply index_of_none in N as E; rewrite Hi in E.
Qed.
Lemma option_accepted o co e p : parse_option o = inr co -> ~ explains_option o e p.
Proof.
  intros H. unfold parse_config_schema_option in H. outcome_ok H. pose proof (schema_string_ok _ _ _ E) as Eid.
  pose proof (schema_string_ok _ _ _ E0) as Ename. pose proof (schema_string_ok _ _ _ E2) as Etype.
  assert (option_kind o = config_option_type_names a2) as Hk by (unfold option_kind; by rewrite Etype).
  destruct (config_option_type_names a2) as [kind|]; [|done]. destruct e; try (by intros []).
  - intros [K F]. repeat (apply elem_of_cons in K as [-> |K]; [by rewrite F in *|]). by apply elem_of_nil in K.
  - intros (v & Hv & F). rewrite Hk in F. unfold option_field_type in F. case_bool_decide as K.
    + unfold is_text in F. repeat (apply elem_of_cons in K as [-> |K]); [| | |by apply elem_of_nil in K].
      * rewrite Hv in Eid. cbn in Eid. by rewrite Eid in F.
      * rewrite Hv in Ename. cbn in Ename. by rewrite Ename in F.
      * by rewrite (schema_field_typed _ _ _ _ _ _ Hv E1) in F.
    + rewrite (kind_typed o a3 kind p v Hk) in F; [done|by destruct kind|done].
  - intros (_ & K & s & opts & Hd & Hn & Ho). rewrite Hk in K. injection K as ->. apply Hn. by eapply enum_default.
Qed.
Lemma native_libraries_ok j l v : read_native_libraries j = inr l -> json_find "native_libraries" j = Some v ->
  field_type "native_libraries" v = true.
Proof.
  intros H Hv. unfold read_native_libraries in H. rewrite Hv in H.
  destruct v as [items| | | | | | |]; try done. change (forallb (fun kv : string * json => is_string_array (snd kv)) items = true).
  cbn [get_object] in H. apply each_ok in H. apply forallb_forall. intros [name exports] Hin%list_elem_of_In.
  apply list_elem_of_lookup in Hin as [i Hi]. destruct (Forall2_lookup_l _ _ _ _ _ H Hi) as (r & _ & Hr). cbn [snd].
  unfold is_string_array. by destruct (extract_array get_string exports).
Qed.
Lemma config_schema_ok j c v : read_config_schema nan_of j = inr c -> json_find "config_schema" j = Some v ->
  exists l opts, v = JObject l /\ json_find "options" v = Some (JArray opts) /\ Forall2 (fun o co => parse_option o = inr co) opts (options c).
Proof.
  intros H Hv. unfold read_config_schema in H. rewrite Hv in H. destruct v as [l| | | | | | |]; try done. cbn [get_object] in H.
  destruct (json_find "options" (JObject l)) as [o|] eqn:Eo; [|done]. destruct (get_array o) as [opts|] eqn:Ea; [|done]. destruct o; try done. injection Ea as ->.
  outcome_ok H. injection H as <-. exists l, opts. split; [done|]. split; [done|]. by apply each_ok in E.
Qed.
Ltac typed_keys K := repeat (apply elem_of_cons in K as [-> |K]; [by eapply field_typed|]); by apply elem_of_nil in K.
Lemma manifest_typed root j m key v : parse root j = inr m -> json_find key j = Some v -> field_type key v = true.
Proof.
  intros H Hv. unfold parse_manifest_json in H. outcome_ok H.
  repeat match goal with E : read_version_field _ _ _ = inr _ |- _ => apply version_ok_field in E as (? & E & _) end.
  repeat match goal with E : read_dependency_list _ _ _ _ = inr _ |- _ => apply dependency_list_ok in E as (? & E & _) end.
  unfold read_array_field in *. unfold field_type. case_bool_decide as K; [typed_keys K|]. unfold is_string_array at 1.
  case_bool_decide as K1; [typed_keys K1|]. case_bool_decide as K2; [subst key; by eapply field_typed|].
  case_bool_decide as K3; [subst key; by eapply native_libraries_ok|]. case_bool_decide as K4; [|done]. subst key.
  eapply config_schema_ok in Hv as (l & opts & -> & _); done.
Qed.
Lemma schema_accepted j c e p : read_config_schema nan_of j = inr c ->
  ~ exists s, json_find "config_schema" j = Some s /\
      (e = MissingConfigSchemaField /\ p = "options"%string /\ json_find "options" s = None \/
       exists l o, json_find "options" s = Some (JArray l) /\ o ∈ l /\ explains_option o e p).
Proof.
  intros H (s & Hs & D). eapply config_schema_ok in Hs as (ms & opts & -> & Ho & HF); [|exact H].
  destruct D as [(_ & _ & N)|(l & o & Ho' & Hin & Ex)]; [by rewrite Ho in N|]. rewrite Ho in Ho'. injection Ho' as <-.
  apply list_elem_of_lookup in Hin as [i Hi]. destruct (Forall2_lookup_l _ _ _ _ _ HF Hi) as (co & _ & Hc). by apply (option_accepted o co e p).
Qed.
Lemma dependency_accepted j key b l js p : read_dependency_list validate_mod_id j key b = inr l ->
  json_find key j = Some (JArray js) -> JString p ∈ js -> dependency p <> None.
Proof.
  intros H Hl Hin. apply dependency_list_ok in H as (raw & E & HF). apply read_field_ok in E. rewrite Hl in E.
  apply extract_array_ok in E as (js' & [= <-] & HG). apply list_elem_of_lookup in Hin as [i Hi].
  destruct (Forall2_lookup_l _ _ _ _ _ HG Hi) as (a & Ha & [= <-]). destruct (Forall2_lookup_l _ _ _ _ _ HF Ha) as (dep & _ & -> & _). done.
Qed.
(** The first defect the parser meets is what it reports. *)
Lemma schema_error j e p : read_config_schema nan_of j = inl (e, p) -> explains j e p.
Proof.
  unfold read_config_schema. destruct (json_find "config_schema" j) as [s|] eqn:Es; [|done].
  destruct s as [l| | | | | | |]; try (intros [= <- <-]; left; eexists; by split). cbn [get_object].
  destruct (json_find "options" (JObject l)) as [o|] eqn:Eo.
  2: { intros [= <- <-]. exists (JObject l). split; [done|]. by left. }
  destruct (get_array o) as [opts|] eqn:Ea.
  2: { intros [= <- <-]. right. split; [done|]. by exists (JObject l), o. }
  destruct o; try done. injection Ea as ->. intros [E|(cs & _ & [=])]%and_then_error. apply each_error in E as (co & Hin & E).
  apply parse_option_error in E. assert (e = MissingConfigSchemaField \/ e = IncorrectConfigSchemaType \/ e = InvalidConfigSchemaDefault) as He by
    (destruct e; try (by destruct E); auto).
  destruct He as [-> |[-> | ->]]; (exists (JObject l); split; [done|right; by exists opts, co]).
Qed.
Lemma native_libraries_error j e p : read_native_libraries j = inl (e, p) -> explains j e p.
Proof.
  unfold read_native_libraries. destruct (json_find "native_libraries" j) as [v|] eqn:Ev; [|done].
  assert (field_type "native_libraries" v = false -> explains j IncorrectManifestFieldType "native_libraries") as Hx by (intros F; left; by exists v).
  destruct v as [l| | | | | | |]; try (intros [= <- <-]; by apply Hx). cbn [get_object]. intros E. apply each_error in E as ([name exports] & Hin & E).
  destruct (extract_array get_string exports) eqn:Ee; [done|]. injection E as <- <-. apply Hx.
  change (forallb (fun kv : string * json => is_string_array (snd kv)) l = false). apply not_true_iff_false. rewrite forallb_forall.
  intros F. apply list_elem_of_In, F in Hin. unfold is_string_array in Hin. cbn [snd] in Hin. by rewrite Ee in Hin.
Qed.
Lemma manifest_error root j e p : parse root j = inl (e, p) -> explains j e p.
Proof.
  unfold parse_manifest_json. intros H.
  repeat (apply (chain_error _ _ _ _ H); clear H; [|intros ? H]); try done;
    try (apply field_error; [intros _; compute_done|intros v; apply text_type; compute_done]);
    try (apply field_error; [done|intros v; apply text_type; compute_done]);
    try (apply version_error; [compute_done|intros v; apply text_type; compute_done|intros raw; by split]).
  - apply field_error; [intros _; compute_done|intros v; apply list_type; compute_done].
  - apply field_error; [done|]. intros v Ev. change (bool_decide (is_Some (get_bool v)) = false). by rewrite Ev.
  - apply dependency_error. by left.
  - apply dependency_error. by right.
  - apply native_libraries_error.
  - apply schema_error.
Qed.
(** Every defect of a manifest is one the parser meets. *)
Lemma manifest_accepted root j m e p : parse root j = inr m -> ~ explains j e p.
Proof.
  intros H. pose proof (fun key v => manifest_typed root j m key v H) as Ht. unfold parse_manifest_json in H. outcome_ok H.
  repeat match goal with E : read_version_field _ _ _ = inr _ |- _ => apply version_ok_field in E as (? & E & ? & ?) end.
  destruct e; try (by intros []).
  - intros [(v & Hv & F)|(-> & s & v & Hs & Ho & Ha)]; [by rewrite (Ht _ _ Hv) in F|].
    eapply config_schema_ok in Hs as (l & opts & -> & Ho' & _); [|done]. rewrite Ho in Ho'. by injection Ho' as ->.
  - by apply (schema_accepted j a11).
  - by apply (schema_accepted j a11).
  - by apply (schema_accepted j a11).
  - intros [Hv F]. congruence.
  - intros [Hv F]. congruence.
  - intros (F & key & l & K & Hl & Hin). destruct K as [-> | ->].
    + by eapply (dependency_accepted j "dependencies" false).
    + by eapply (dependency_accepted j "optional_dependencies" true).
  - intros [K F]. unfold read_array_field in *.
    repeat (apply elem_of_cons in K as [-> |K]; [apply (eq_None_not_Some (json_find _ j)) in F; apply F; by eapply field_present|]). by apply elem_of_nil in K.
Qed.

(** C10: A manifest is rejected with an error that says what is wrong with it, the missing
    or mistyped field, the version, dependency or default that cannot be read, and it is
    accepted exactly when nothing is wrong with it. *)
Theorem manifest_errors_are_explained root j :
  (forall e p, parse root j = inl (e, p) -> explains j e p) /\
  ((exists m, parse root j = inr m) <-> forall e p, ~ explains j e p).
Proof.
  assert (forall e p, parse root j = inl (e, p) -> explains j e p) as He by apply manifest_error.
  split; [exact He|]. split; [intros [m Hm] e p; by apply (manifest_accepted root j m)|].
  intros Hn. destruct (parse root j) as [[e p]|m] eqn:E; [|by exists m]. by destruct (Hn e p (He e p eq_refl)).
Qed.
End Manifest.

(** * Values of options *)

Lemma index_of_some s l i : index_of s l = Some i <-> exists n, i = Z.of_nat n /\ l !! n = Some s /\ forall k x, l !! k = Some x -> (k < n)%nat -> x <> s.
Proof.
  unfold index_of. rewrite fmap_Some. split.
  - intros ([n x] & (Hn & -> & Hf)%list_find_Some & ->). by exists n.
  - intros (n & -> & Hn & Hf). exists (n, s). split; [|done]. by apply list_find_Some.
Qed.
Lemma index_of_lookup l n s : NoDup l -> l !! n = Some s -> index_of s l = Some (Z.of_nat n).
Proof.
  intros Hd Hn. apply index_of_some. exists n. split; [done|]. split; [done|]. intros k x Hk Hlt ->.
  pose proof (NoDup_lookup _ _ _ _ Hd Hn Hk). lia.
Qed.

(** Numbering ids keeps the first of each. *)
Lemma foldl_emplace l : forall (m : gmap string nat) id i, foldl (fun m '(i, id) => emplace id i m) m l !! id = Some i ->
  m !! id = Some i \/ (i, id) ∈ l.
Proof.
  induction l as [|[k x] l IH]; intros m id i; [by left|]. cbn [foldl]. intros [H|H]%IH; [|right; by right]. unfold emplace in H.
  destruct (m !! x) eqn:E; [by left|]. destruct (decide (x = id)) as [->|N]; [|rewrite lookup_insert_ne in H by done; by left].
  rewrite lookup_insert_eq in H. injection H as ->. right. left.
Qed.
Lemma foldl_emplace_some l : forall (m : gmap string nat) id, is_Some (m !! id) \/ id ∈ l.*2 ->
  is_Some (foldl (fun m '(i, id) => emplace id i m) m l !! id).
Proof.
  induction l as [|[k x] l IH]; intros m id H; [destruct H as [H|H%elem_of_nil]; done|]. cbn [foldl]. apply IH.
  cbn [fmap list_fmap snd] in H. unfold emplace. rewrite elem_of_cons in H. destruct (m !! x) as [y|] eqn:E.
  - destruct H as [H|[-> |H]]; [by left|by left; rewrite E|by right].
  - destruct (decide (id = x)) as [->|N]; [left; by rewrite lookup_insert_eq|]. rewrite lookup_insert_ne by done.
    destruct H as [H|[? |H]]; [by left|done|by right].
Qed.
Lemma imap_pair_lookup {A} (l : list A) i x : (i, x) ∈ imap pair l <-> l !! i = Some x.
Proof.
  rewrite elem_of_lookup_imap. split; [by intros (k & y & [= -> ->] & H)|]. intros H. by exists i, x.
Qed.
Lemma index_ids_lookup ids id i : index_ids ids !! id = Some i -> ids !! i = Some id.
Proof. intros [H|H]%foldl_emplace; [by rewrite lookup_empty in H|]. by apply imap_pair_lookup. Qed.
Lemma index_ids_some ids id : id ∈ ids -> is_Some (index_ids ids !! id).
Proof.
  intros [i Hi]%list_elem_of_lookup. apply foldl_emplace_some. right. apply list_elem_of_fmap. exists (i, id). split; [done|].
  by apply imap_pair_lookup.
Qed.

(** The schemas that manifests have. *)
Definition schema_ok (c : ConfigSchema) : Prop := options_by_id c = index_ids (option_id <$> options c).
Definition distinct_options (c : ConfigSchema) : Prop := NoDup (option_id <$> options c).
(** Each name of an enumeration stands for one value of a word. *)
Definition distinct_names (c : ConfigSchema) : Prop := forall o opts i, o ∈ options c -> variant o = Option_enum opts i ->
  NoDup opts /\ Z.of_nat (length opts) < 2 ^ 32.
Lemma option_at_some c id o : schema_ok c -> option_at c id = Some o -> o ∈ options c /\ option_id o = id.
Proof.
  unfold option_at. intros Hc (i & Hi & Ho)%bind_Some. rewrite Hc in Hi. apply index_ids_lookup in Hi.
  rewrite list_lookup_fmap, Ho in Hi. injection Hi as <-. split; [by apply list_elem_of_lookup_2 in Ho|done].
Qed.
Lemma option_at_of c o : schema_ok c -> distinct_options c -> o ∈ options c -> option_at c (option_id o) = Some o.
Proof.
  intros Hc Hd Ho. destruct (index_ids_some (option_id <$> options c) (option_id o)) as [i Hi]; [by apply list_elem_of_fmap_2|].
  unfold option_at. rewrite Hc, Hi. cbn [mbind option_bind]. apply index_ids_lookup in Hi. apply list_elem_of_lookup in Ho as [k Hk].
  replace i with k; [done|]. eapply NoDup_lookup; [exact Hd| |exact Hi]. by rewrite list_lookup_fmap, Hk.
Qed.

Abbreviation ConfigStorage := (gmap string ConfigValueVariant).
Section Values.
Context (nan_of : list Z -> Z).
(** A value an option can have; enumerations are words. *)
Definition value_ok (o : ConfigOptionVariant) (v : ConfigValueVariant) : bool :=
  accepts o v && match v with Value_u32 n => 0 <=? n | _ => true end.
Definition storage_ok (c : ConfigSchema) (storage : ConfigStorage) : Prop :=
  forall id v, storage !! id = Some v -> exists o, option_at c id = Some o /\ value_ok (variant o) v = true.
(** JSON has no text for an infinity, nor for what is not a number. *)
Definition lasting (v : ConfigValueVariant) : bool := match v with Value_double b => finite b | _ => true end.

Lemma write_value_ok o v : value_ok o v = true -> is_Some (write_value v o).
Proof.
  unfold value_ok. destruct o, v; try done. cbn [accepts write_value]. intros [H1%Z.ltb_lt H2%Z.leb_le]%andb_true_iff.
  apply fmap_is_Some, lookup_lt_is_Some. lia.
Qed.
Lemma read_written o v j : value_ok o v = true -> (forall opts i, o = Option_enum opts i -> NoDup opts /\ Z.of_nat (length opts) < 2 ^ 32) ->
  write_value v o = Some j -> read_value nan_of (as_written j) o = if lasting v then Some v else None.
Proof.
  unfold value_ok. destruct o as [opts i|n|t], v; try done; cbn [accepts write_value lasting].
  - intros [H1%Z.ltb_lt H2%Z.leb_le]%andb_true_iff He. destruct (He opts i eq_refl) as [Hd Hl]. intros (s & Hs & ->)%fmap_Some.
    cbn [as_written read_value get_string mbind option_bind]. rewrite (index_of_lookup _ _ _ Hd Hs). cbn [mbind option_bind].
    rewrite Z2Nat.id by lia. unfold u32. rewrite Z.mod_small by lia. done.
  - intros _ _ [= <-]. cbn [as_written]. by destruct (finite bits).
  - intros _ _ [= <-]. done.
Qed.
Lemma stored_members_are c l : (forall id v, (id, v) ∈ l -> exists o, option_at c id = Some o /\ value_ok (variant o) v = true) ->
  exists ms, foldr (store_value c) (Some []) l = Some ms /\
    Forall2 (fun kv m => fst m = fst kv /\ exists o, option_at c (fst kv) = Some o /\ write_value (snd kv) (variant o) = Some (snd m)) l ms.
Proof.
  induction l as [|[id v] l IH]; intros H; [exists []; split; [done|constructor]|]. destruct IH as (ms & E & HF); [intros id' v' Hin; apply H; by right|].
  destruct (H id v) as (o & Ho & Hv); [left|]. destruct (write_value_ok _ _ Hv) as [j Hj]. exists ((id, j) :: ms).
  cbn [foldr]. unfold store_value at 1. cbn [fst snd]. rewrite Ho, Hj, E. split; [done|]. constructor; [|done]. split; [done|]. by exists o.
Qed.
(** The members a storage is printed as. *)
Lemma stored_members_ok c storage : storage_ok c storage -> exists ms, stored_members c storage = Some ms /\ NoDup ms.*1 /\
  (forall id j, (id, j) ∈ ms <-> exists v o, storage !! id = Some v /\ option_at c id = Some o /\ write_value v (variant o) = Some j).
Proof.
  intros H. destruct (stored_members_are c (map_to_list storage)) as (ms & E & HF).
  { intros id v Hin%elem_of_map_to_list. by apply H. }
  exists ms. split; [exact E|]. split.
  - assert (ms.*1 = (map_to_list storage).*1) as ->; [|apply NoDup_fst_map_to_list]. clear E.
    induction HF as [|kv m l l' [Hk _] _ IH]; [done|]. cbn. by rewrite Hk, IH.
  - intros id j. split.
    + intros [i Hi]%list_elem_of_lookup. destruct (Forall2_lookup_r _ _ _ _ _ HF Hi) as ([id' v] & Hkv & Hk & o & Ho & Hj). cbn in Hk, Ho, Hj. subst id'.
      apply list_elem_of_lookup_2, elem_of_map_to_list in Hkv. by exists v, o.
    + intros (v & o & Hv & Ho & Hj). apply elem_of_map_to_list, list_elem_of_lookup in Hv as [i Hi].
      destruct (Forall2_lookup_l _ _ _ _ _ HF Hi) as ([id' j'] & Hm & Hk & o' & Ho' & Hj'). cbn in Hk, Ho', Hj'. subst id'.
      rewrite Ho in Ho'. injection Ho' as <-. rewrite Hj in Hj'. injection Hj' as <-. by apply list_elem_of_lookup_2 in Hm.
Qed.
(** Reading back: each option is looked up once. *)
Lemma load_others l js : forall m id, id ∉ option_id <$> l -> foldl (load_option nan_of js) m l !! id = m !! id.
Proof.
  induction l as [|o l IH]; intros m id Hid; [done|]. cbn [fmap list_fmap] in Hid. apply not_elem_of_cons in Hid as [N Hid].
  cbn [foldl]. rewrite IH by done. unfold load_option. destruct (v ← _; _); [by rewrite lookup_insert_ne by done|done].
Qed.
Lemma load_one l js : forall m o, NoDup (option_id <$> l) -> o ∈ l -> m !! option_id o = None ->
  foldl (load_option nan_of js) m l !! option_id o = (v ← json_find (option_id o) js; read_value nan_of v (variant o)).
Proof.
  induction l as [|o' l IH]; intros m o Hd Ho Hm; [by apply elem_of_nil in Ho|]. cbn [fmap list_fmap] in Hd. apply list.NoDup_cons in Hd as [Hn Hd].
  cbn [foldl]. apply elem_of_cons in Ho as [->|Ho].
  - rewrite load_others by done. unfold load_option. destruct (v ← _; _); [apply lookup_insert_eq|done].
  - apply IH; [done|done|]. unfold load_option. destruct (v ← json_find (option_id o') _; _); [|done]. rewrite lookup_insert_ne; [done|].
    intros E. apply Hn. rewrite E. by apply list_elem_of_fmap_2.
Qed.
End Values.

(** * Files of values *)

Section Saved.
Context (nan_of : list Z -> Z) `{JsonText} (project_version : Version).
(** What comes back of a storage. *)
Definition kept (storage : ConfigStorage) : ConfigStorage := filter (fun kv => lasting (snd kv) = true) storage.

Lemma kept_lookup storage id : kept storage !! id = (v ← storage !! id; if lasting v then Some v else None).
Proof.
  unfold kept. rewrite map_lookup_filter. destruct (storage !! id) as [v|]; [|done]. cbn [mbind option_bind snd].
  destruct (lasting v) eqn:E; [by rewrite option_guard_True|by rewrite option_guard_False by congruence].
Qed.
Lemma config_is_loaded id v c storage : schema_ok c -> distinct_options c -> distinct_names c -> storage_ok c storage ->
  exists j, config_json project_version id v c storage = Some j /\
    forall path d, decode_json_file path d = Some (as_written j) -> snd (load_mod_config_storage nan_of path id c d) = kept storage.
Proof.
  intros Hc Hd Hn Hs. destruct (stored_members_ok c storage Hs) as (ms & E & Hnd & Hms). unfold config_json. rewrite E. cbn [mbind option_bind].
  eexists. split; [reflexivity|]. intros path d Hdec. unfold load_mod_config_storage. rewrite Hdec, !find_as_written.
  change (json_find "mod_id" _) with (Some (JString id)). change (json_find "storage" _) with (Some (match ms with [] => JNull | _ => JObject ms end)).
  cbn [fmap option_fmap option_map as_written mbind option_bind get_string]. rewrite bool_decide_true by done. cbn [negb].
  destruct ms as [|m ms'] eqn:Em.
  - cbn [as_written snd]. symmetry. apply map_eq. intros k. rewrite kept_lookup, lookup_empty. destruct (storage !! k) as [w|] eqn:Ek; [|done].
    destruct (Hs k w Ek) as (o & Ho & Hv). destruct (write_value_ok _ _ Hv) as [j Hj].
    assert ((k, j) ∈ @nil (string * json)) as Hin by (apply Hms; by exists w, o). by apply elem_of_nil in Hin.
  - rewrite <- Em in *. clear m ms' Em. change (as_written (JObject ms)) with (JObject (map (fun kv => (fst kv, as_written (snd kv))) ms)). cbn [snd].
    apply map_eq. intros k. rewrite kept_lookup. destruct (decide (k ∈ option_id <$> options c)) as [Hk|Hk].
    + apply list_elem_of_fmap in Hk as (o & -> & Ho). rewrite load_one by (done || apply lookup_empty).
      change (JObject (map _ ms)) with (as_written (JObject ms)). rewrite find_as_written. pose proof (option_at_of c o Hc Hd Ho) as Hat.
      destruct (storage !! option_id o) as [w|] eqn:Ek.
      * destruct (Hs _ _ Ek) as (o' & Ho' & Hv). rewrite Hat in Ho'. injection Ho' as <-. destruct (write_value_ok _ _ Hv) as [j Hj].
        rewrite (find_member _ j) by (done || apply Hms; by exists w, o). cbn [fmap option_fmap option_map mbind option_bind].
        apply (read_written nan_of _ _ _ Hv); [|exact Hj]. intros opts i Hvar. by eapply Hn.
      * rewrite find_no_member; [done|]. intros ([k j] & Hkj & Hin)%list_elem_of_fmap. cbn in Hkj. subst k.
        apply Hms in Hin as (w & o' & Hw & _). by rewrite Ek in Hw.
    + rewrite load_others, lookup_empty by done. destruct (storage !! k) as [w|] eqn:Ek; [|done]. destruct (Hs _ _ Ek) as (o & Ho & _).
      apply option_at_some in Ho as [Ho <-]; [|done]. destruct Hk. by apply list_elem_of_fmap_2.
Qed.

(** Wherever the writing of a document stops, the old one or the new one is read. *)
Lemma interrupted_document faults p old new d n : d !! p = Some (json_dump old) -> well_printed old -> well_printed new ->
  let d' := run_ops (take n (snd (write_json faults p new d))) d in
  decode_json_file p d' = Some (as_written old) \/ decode_json_file p d' = Some (as_written new).
Proof.
  intros Hp [Ho _] [Hn Hs]. pose proof (update_always faults p (json_dump new) (json_dump old) d Hp n) as [E|(Eb & k & E)];
    change (update_save_file faults p (json_dump new)) with (write_json faults p new) in *; unfold decode_json_file; rewrite E; cbn [mbind option_bind].
  - left. by rewrite Ho.
  - assert (exists k', take k (written faults (json_dump new)) = take k' (json_dump new)) as [k' ->].
    { unfold written. destruct (write_stops faults) as [w|]; cbn [upto]; [|by exists k]. exists (Nat.min k w). by rewrite take_take. }
    destruct (decide (k' < length (json_dump new))%nat) as [L|L].
    + rewrite (Hs k' L). left. unfold open_input_backup_file. rewrite Eb. cbn [mbind option_bind]. by rewrite Ho.
    + rewrite take_ge by lia. rewrite Hn. by right.
Qed.
(** C13: Wherever saving the values of a mod crashes or fails, the values that were saved
    before, or the new ones, are loaded at the next start. *)
Theorem options_survive_crashes faults d path id v0 v c old new w n :
  schema_ok c -> distinct_options c -> distinct_names c -> storage_ok c old -> storage_ok c new ->
  save_mod_config_storage project_version faults path id v c new = Some w ->
  (forall j, config_json project_version id v0 c old = Some j -> d !! path = Some (json_dump j) /\ well_printed j) ->
  (forall j, config_json project_version id v c new = Some j -> well_printed j) ->
  let loaded := snd (load_mod_config_storage nan_of path id c (run_ops (take n (snd (w d))) d)) in
  loaded = kept old \/ loaded = kept new.
Proof.
  intros Hc Hd Hn Ho Hw Hsave Hold Hnew loaded. destruct (config_is_loaded id v0 c old) as (jo & Eo & Lo); try done.
  destruct (config_is_loaded id v c new) as (jn & En & Ln); try done. unfold save_mod_config_storage in Hsave. rewrite En in Hsave. injection Hsave as <-.
  destruct (Hold jo Eo) as [Hp Wo]. destruct (interrupted_document faults path jo jn d n Hp Wo (Hnew jn En)) as [E|E].
  - left. by apply Lo.
  - right. by apply Ln.
Qed.

(** ** A round of the thread that saves *)

Lemma write_json_done p j d : let d' := final (write_json no_faults p j) d in
  d' !! p = Some (json_dump j) /\ forall q, q <> p -> q <> with_backup p -> q <> with_temp p -> d' !! q = d !! q.
Proof.
  pose proof (update_done no_faults p (json_dump j) d eq_refl eq_refl eq_refl) as U.
  change (update_save_file no_faults p (json_dump j)) with (write_json no_faults p j) in U. unfold run_io in U.
  destruct U as (_ & U1 & _ & _ & U2). done.
Qed.

Lemma app_suffix a : forall b s t : string, String.length s = String.length t -> (a +:+ s) = (b +:+ t) -> s = t.
Proof.
  induction a as [|x a IH]; intros [|y b] s t L E; try done.
  - change (s = String y b +:+ t) in E. subst s. exfalso. change (String y b +:+ t) with (String y (b +:+ t)) in L. cbn [String.length] in L. rewrite length_append in L. lia.
  - exfalso. change (String x a +:+ s = t) in E. subst t. change (String x a +:+ s) with (String x (a +:+ s)) in L. cbn [String.length] in L. rewrite length_append in L. lia.
  - injection E as -> E. by apply (IH b).
Qed.
Definition is_json_path (p : string) : Prop := exists x, p = (x +:+ ".json").
Lemma string_append_assoc a b c : (a +:+ b +:+ c) = ((a +:+ b) +:+ c).
Proof. induction a as [|x a IH]; [done|]. change (String x (a +:+ b +:+ c) = String x ((a +:+ b) +:+ c)). by rewrite IH. Qed.
Lemma json_path_apart p q : is_json_path p -> with_temp q <> p /\ with_backup q <> p.
Proof.
  intros [x ->]. unfold with_temp, with_backup. split; intros E.
  - apply app_suffix in E; done.
  - change ".json"%string with ("." +:+ "json")%string in E. rewrite string_append_assoc in E. apply app_suffix in E; done.
Qed.
Context (mod_config_directory mods_config_path : string).
Abbreviation path_of := (config_path mod_config_directory).
Abbreviation round := (thread_round project_version mod_config_directory mods_config_path).
Lemma path_join_ends dir p : exists x, path_join dir p = (x +:+ p).
Proof.
  assert (exists x, p = (x +:+ p)) as H0 by by exists EmptyString.
  assert (exists x, match dir with EmptyString => p | _ =>
    match split_last "/"%char dir with Some (_, EmptyString) => dir +:+ p | _ => dir +:+ String "/" p end end = (x +:+ p)) as H1.
  { destruct dir as [|c dir]; [exact H0|]. destruct (split_last _ _) as [[a [|y b]]|]; [by exists (String c dir)|..];
      exists (String c dir +:+ "/"); by rewrite <- string_append_assoc. }
  unfold path_join. destruct p as [|x p]; [exact H1|]. destruct (ascii_dec x "/"%char) as [->|N]; [exact H0|].
  destruct x as [[] [] [] [] [] [] [] []]; first [exact H1|exact H0].
Qed.
Lemma path_is_json id : is_json_path (path_of id).
Proof. destruct (path_join_ends mod_config_directory (id +:+ ".json")) as [x E]. exists (x +:+ id). unfold config_path. rewrite E. apply string_append_assoc. Qed.

(** What the queue leaves pending. *)
Lemma drained l : forall t, active t = true -> Queue_end ∉ l ->
  exists t', drain_requests t l = (t', []) /\ active t' = true /\
    (forall id, id ∈ pending_mods t' <-> Queue_save_mod id ∈ l \/ id ∈ pending_mods t) /\
    (pending_config_save t' = true <-> Queue_save ∈ l \/ pending_config_save t = true) /\
    pending_mod_storage t' = pending_mod_storage t /\ pending_mod_schema t' = pending_mod_schema t /\ pending_mod_version t' = pending_mod_version t.
Proof.
  induction l as [|r l IH]; intros t Ha Hq.
  - exists t. split; [done|]. split; [done|]. split; [|split; [|done]]; intros; rewrite elem_of_nil; tauto.
  - apply not_elem_of_cons in Hq as [Hr Hq]. cbn [drain_requests]. rewrite Ha. destruct (IH (handle_variant t r)) as (t' & E & Ha' & Hp & Hc & Hs); [by destruct r|done|].
    exists t'. split; [exact E|]. split; [exact Ha'|]. split; [|split; [|by destruct r]].
    + intros id. rewrite Hp, elem_of_cons. destruct r; cbn [handle_variant pending_mods]; [done| |];
        [|rewrite elem_of_union, elem_of_singleton]; split; intros; destruct_or?; simplify_eq; auto.
    + rewrite Hc, elem_of_cons. destruct r; cbn [handle_variant pending_config_save]; [done| |]; split; intros; destruct_or?; simplify_eq; auto.
Qed.

Definition entry_of (s : mod_files) (id : string) : option mod_entry := opened_mods_by_id (context s) !! id ≫= (fun i => entries s !! i).
(** A snapshot has the mods that are open; of the others, an older one. *)
Definition snapshot_of (t : config_thread) (id : string) : ConfigStorage * ConfigSchema * Version :=
  (default ∅ (pending_mod_storage t !! id), default no_options (pending_mod_schema t !! id), default (MkVersion 0 0 0 EmptyString) (pending_mod_version t !! id)).
Lemma snapshot_mod_other s t k id : id <> k \/ entry_of s k = None -> snapshot_of (snapshot_mod s t k) id = snapshot_of t id.
Proof.
  unfold snapshot_mod. change (_ !! k ≫= _) with (entry_of s k). destruct (entry_of s k) as [e|]; [|done]. intros [N|?]; [|done].
  unfold snapshot_of. cbn. by rewrite !lookup_insert_ne by done.
Qed.
Lemma snapshot_mod_eq s t id e : entry_of s id = Some e ->
  snapshot_of (snapshot_mod s t id) id = (config_storage e, config_schema (entry_file e), version (core (entry_file e))).
Proof.
  intros E. unfold snapshot_mod. change (_ !! id ≫= _) with (entry_of s id). rewrite E. unfold snapshot_of. cbn. by rewrite !lookup_insert_eq.
Qed.
Lemma snapshot_mod_keeps s t id : pending_mods (snapshot_mod s t id) = pending_mods t /\
  pending_config_save (snapshot_mod s t id) = pending_config_save t /\ active (snapshot_mod s t id) = active t.
Proof. unfold snapshot_mod. by destruct (_ ≫= _). Qed.
Lemma snapshots_keep s l : forall t, let t' := foldl (snapshot_mod s) t l in
  pending_mods t' = pending_mods t /\ pending_config_save t' = pending_config_save t /\ active t' = active t.
Proof.
  induction l as [|k l IH]; intros t; [done|]. cbn [foldl]. destruct (IH (snapshot_mod s t k)) as (E1 & E2 & E3).
  destruct (snapshot_mod_keeps s t k) as (F1 & F2 & F3). cbn zeta. by rewrite E1, E2, E3.
Qed.
Lemma snapshots_are s l id : forall t, snapshot_of (foldl (snapshot_mod s) t l) id =
  match entry_of s id with
  | Some e => if bool_decide (id ∈ l) then (config_storage e, config_schema (entry_file e), version (core (entry_file e))) else snapshot_of t id
  | None => snapshot_of t id
  end.
Proof.
  induction l as [|k l IH]; intros t; [by destruct (entry_of s id)|]. cbn [foldl]. rewrite IH. destruct (entry_of s id) as [e|] eqn:E.
  - destruct (decide (id = k)) as [->|N].
    + rewrite (bool_decide_true (k ∈ k :: l)) by left. case_bool_decide; [done|]. by apply snapshot_mod_eq.
    + rewrite snapshot_mod_other by by left. by rewrite (bool_decide_ext (id ∈ k :: l) (id ∈ l)) by (rewrite elem_of_cons; naive_solver).
  - destruct (decide (id = k)) as [->|N]; apply snapshot_mod_other; auto.
Qed.

(** No snapshot and no open mod has a value its options cannot have. *)
Definition thread_ok (t : config_thread) : Prop := forall id, storage_ok (snapshot_of t id).1.2 (snapshot_of t id).1.1.
Definition entries_ok (s : mod_files) : Prop := forall e, e ∈ entries s -> storage_ok (config_schema (entry_file e)) (config_storage e).
Lemma entry_of_elem s id e : entry_of s id = Some e -> e ∈ entries s.
Proof. intros (i & _ & Hi)%bind_Some. by apply list_elem_of_lookup_2 in Hi. Qed.
Lemma snapshots_ok s l t : entries_ok s -> thread_ok t -> thread_ok (foldl (snapshot_mod s) t l).
Proof.
  intros Hs Ht id. rewrite snapshots_are. destruct (entry_of s id) as [e|] eqn:E; [|apply Ht]. case_bool_decide; [|apply Ht].
  apply Hs. by eapply entry_of_elem.
Qed.
(** The document written for a mod. *)
Definition document (t : config_thread) (id : string) : option json :=
  config_json project_version id (snapshot_of t id).2 (snapshot_of t id).1.2 (snapshot_of t id).1.1.
Lemma write_mod_is faults t id : thread_ok t -> exists j, document t id = Some j /\
  write_mod project_version mod_config_directory faults t id = Some (write_json faults (path_of id) j).
Proof.
  intros Ht. destruct (stored_members_ok _ _ (Ht id)) as (ms & E & _). unfold write_mod, save_mod_config_storage, document, config_json in *.
  unfold snapshot_of in *. cbn [fst snd] in *. rewrite E. cbn [mbind option_bind]. by eexists.
Qed.
Lemma write_mods_defined faults t ids : thread_ok t -> forall d, is_Some (write_mods project_version mod_config_directory faults t ids d).
Proof.
  intros Ht. induction ids as [|id ids IH]; intros d; [done|]. cbn [write_mods]. destruct (write_mod_is (faults id) t id Ht) as (j & _ & ->). apply IH.
Qed.
Lemma write_mods_other t ids q : thread_ok t -> is_json_path q -> (forall k, k ∈ ids -> path_of k <> q) -> forall d d',
  write_mods project_version mod_config_directory (fun _ => no_faults) t ids d = Some d' -> d' !! q = d !! q.
Proof.
  intros Ht Hq. induction ids as [|id ids IH]; intros Hne d d'; [by intros [= ->]|]. cbn [write_mods].
  destruct (write_mod_is no_faults t id Ht) as (j & _ & ->). cbn [mbind option_bind]. intros E. rewrite (IH (fun k Hk => Hne k ltac:(by right)) _ _ E).
  destruct (write_json_done (path_of id) j d) as [_ Hd]. destruct (json_path_apart q (path_of id) Hq).
  apply Hd; [intros ->; by apply (Hne id); [left|]|done..].
Qed.
Lemma write_mods_writes t ids id j : thread_ok t -> NoDup ids -> id ∈ ids -> (forall k, k ∈ ids -> k <> id -> path_of k <> path_of id) ->
  document t id = Some j -> forall d d', write_mods project_version mod_config_directory (fun _ => no_faults) t ids d = Some d' ->
  d' !! path_of id = Some (json_dump j).
Proof.
  intros Ht. induction ids as [|k ids IH]; intros Hnd Hin Hne Hj d d'; [by apply elem_of_nil in Hin|]. apply list.NoDup_cons in Hnd as [Hk Hnd].
  cbn [write_mods]. destruct (write_mod_is no_faults t k Ht) as (j' & Ej & ->). cbn [mbind option_bind]. intros E.
  destruct (decide (k = id)) as [->|N].
  - rewrite Hj in Ej. injection Ej as <-. rewrite (write_mods_other t ids (path_of id) Ht (path_is_json id)) with (2 := E).
    + apply write_json_done.
    + intros k Hin'. apply Hne; [by right|]. by intros ->.
  - apply elem_of_cons in Hin as [->|Hin]; [done|]. apply (IH Hnd Hin) with (3 := E); [|done]. intros k' Hk'. apply Hne. by right.
Qed.
Lemma mod_list_is_read enabled order path d : decode_json_file path d = Some (as_written (mods_config_json enabled order)) ->
  parse_mods_config path d = (true, (enabled, order)).
Proof.
  intros E. unfold parse_mods_config. rewrite E, !find_as_written.
  assert (forall l, extract_array get_string (as_written (string_array l)) = Some l) as Hl.
  { intros l. transitivity (extract_array get_string (string_array l)); [|apply extract_strings]. f_equal. unfold string_array. cbn [as_written].
    f_equal. by induction l as [|x l IH]; [|cbn; rewrite IH]. }
  change (json_find "enabled_mods" _) with (Some (string_array (elements enabled))). change (json_find "mod_order" _) with (Some (string_array order)).
  cbn [fmap option_fmap option_map mbind option_bind]. rewrite !Hl. cbn [default from_option]. unfold id. by rewrite list_to_set_elements_L.
Qed.

(** A round that no request ends: what it leaves pending and what it writes. *)
Definition list_is_saved (s : mod_files) (t : config_thread) : bool :=
  bool_decide (Queue_save ∈ mod_configuration_thread_queue s) || pending_config_save t.
Definition list_document (s : mod_files) : json := mods_config_json (enabled_mods (context s)) (current_mod_order (context s)).
Lemma round_writes faults s t d : active t = true -> Queue_end ∉ mod_configuration_thread_queue s -> entries_ok s -> thread_ok t ->
  exists t1 d1 s' t', thread_ok t1 /\
    (forall id, id ∈ pending_mods t1 <-> Queue_save_mod id ∈ mod_configuration_thread_queue s \/ id ∈ pending_mods t) /\
    (forall id e, id ∈ pending_mods t1 -> entry_of s id = Some e ->
      snapshot_of t1 id = (config_storage e, config_schema (entry_file e), version (core (entry_file e)))) /\
    write_mods project_version mod_config_directory faults t1 (elements (pending_mods t1)) d = Some d1 /\
    round faults s t d = Some (s', t', if list_is_saved s t then final (write_json (faults mods_config_path) mods_config_path (list_document s)) d1 else d1) /\
    s' = MkModFiles (context s) (entries s) (mod_ids s) (opened_mods_by_filename s) [] /\
    pending_mods t' = ∅ /\ pending_config_save t' = false /\ active t' = true /\ thread_ok t'.
Proof.
  intros Ha Hq He Ht. destruct (drained _ t Ha Hq) as (t0 & E & Ha0 & Hp & Hc & Hs1 & Hs2 & Hs3).
  assert (thread_ok t0) as Ht0 by (intros id; unfold snapshot_of; rewrite Hs1, Hs2, Hs3; apply Ht).
  set (t1 := snapshot_mods s t0). destruct (snapshots_keep s (elements (pending_mods t0)) t0) as (Ep & Ec & Ea).
  change (foldl (snapshot_mod s) t0 (elements (pending_mods t0))) with t1 in Ep, Ec, Ea.
  assert (thread_ok t1) as Ht1 by by apply snapshots_ok.
  destruct (write_mods_defined faults t1 (elements (pending_mods t1)) Ht1 d) as [d1 E1].
  assert (pending_config_save t1 = list_is_saved s t) as Hsave.
  { rewrite Ec. apply eq_true_iff_eq. rewrite Hc. unfold list_is_saved. by rewrite orb_true_iff, bool_decide_eq_true. }
  exists t1, d1, (MkModFiles (context s) (entries s) (mod_ids s) (opened_mods_by_filename s) []), (clear_pending_save (clear_pending_mods t1)).
  split; [done|]. split; [by rewrite Ep|]. split.
  { intros id e Hid Hent. unfold t1, snapshot_mods. rewrite snapshots_are, Hent, bool_decide_true; [done|]. by rewrite elem_of_elements, <- Ep. }
  split; [done|]. split; [|repeat split; [cbn; by rewrite Ea|exact Ht1]].
  unfold thread_round. rewrite E, Ha0. cbn [andb].
  change (context (MkModFiles (context s) (entries s) (mod_ids s) (opened_mods_by_filename s) [])) with (context s).
  change (snapshot_mods _ t0) with t1.
  assert ((if negb (bool_decide (pending_mods t0 = ∅)) then d0 ← write_mods project_version mod_config_directory faults t1 (elements (pending_mods t1)) d;
    Some (clear_pending_mods t1, d0) else Some (t0, d)) = Some (clear_pending_mods t1, d1)) as ->.
  { case_bool_decide as Hemp; cbn [negb]; [|by rewrite E1]. rewrite Ep, Hemp, elements_empty in E1.
    cbn [write_mods] in E1. injection E1 as ->. assert (t1 = t0) as -> by (unfold t1, snapshot_mods; by rewrite Hemp, elements_empty).
    destruct t0. cbn in Hemp. by rewrite Hemp. }
  cbn [mbind option_bind]. change (active (clear_pending_mods t1)) with (active t1). change (pending_config_save (clear_pending_mods t1)) with (pending_config_save t1).
  rewrite Ea, Ha0, Hsave. cbn [andb]. destruct (list_is_saved s t) eqn:El; [done|]. do 3 f_equal. unfold clear_pending_save.
  destruct t1. cbn in *. by rewrite Hsave.
Qed.

(** C14: A round of the saving thread that no request ends returns, and after it the file of
    every open mod whose saving was requested loads the values the mod has, infinities and
    values that are no number apart; and the list of mods, if it was to be saved, is read
    back with its order. *)
Theorem saved_options_are_restored s t d :
  active t = true -> Queue_end ∉ mod_configuration_thread_queue s -> entries_ok s -> thread_ok t ->
  is_json_path mods_config_path -> (forall id, path_of id <> mods_config_path) ->
  exists s' t' d', round (fun _ => no_faults) s t d = Some (s', t', d') /\ entries_ok s' /\ thread_ok t' /\
    (forall id e, Queue_save_mod id ∈ mod_configuration_thread_queue s \/ id ∈ pending_mods t -> entry_of s id = Some e ->
      let c := config_schema (entry_file e) in
      schema_ok c -> distinct_options c -> distinct_names c ->
      (forall id', Queue_save_mod id' ∈ mod_configuration_thread_queue s \/ id' ∈ pending_mods t -> id' <> id -> path_of id' <> path_of id) ->
      (forall j, config_json project_version id (version (core (entry_file e))) c (config_storage e) = Some j -> well_printed j) ->
      snd (load_mod_config_storage nan_of (path_of id) id c d') = kept (config_storage e)) /\
    (list_is_saved s t = true -> well_printed (list_document s) ->
      parse_mods_config mods_config_path d' = (true, (enabled_mods (context s), current_mod_order (context s)))).
Proof.
  intros Ha Hq He Ht Hj Hne. destruct (round_writes (fun _ => no_faults) s t d Ha Hq He Ht) as (t1 & d1 & s' & t' & Ht1 & Hp & Hsn & E1 & E & Hs' & _ & _ & _ & Ht').
  exists s', t', (if list_is_saved s t then final (write_json no_faults mods_config_path (list_document s)) d1 else d1).
  split; [exact E|]. split; [by subst s'|]. split; [done|]. split.
  - intros id e Hid Hent c Hc Hd Hn Hap Hw. destruct (config_is_loaded id (version (core (entry_file e))) c (config_storage e)) as (j & Ej & Hl); try done.
    { apply He. by eapply entry_of_elem. }
    apply Hl. assert (d1 !! path_of id = Some (json_dump j)) as Hd1.
    { eapply (write_mods_writes t1 (elements (pending_mods t1))); [exact Ht1|apply NoDup_elements|by rewrite elem_of_elements, Hp| | |exact E1].
      - intros k Hk. rewrite elem_of_elements in Hk. by apply Hap, Hp.
      - unfold document. rewrite (Hsn id e); [done|by apply Hp|done]. }
    destruct (Hw j Ej) as [Hr _]. unfold decode_json_file. destruct (list_is_saved s t); [|by rewrite Hd1; cbn; rewrite Hr].
    destruct (write_json_done mods_config_path (list_document s) d1) as [_ Hoth]. destruct (json_path_apart (path_of id) mods_config_path (path_is_json id)).
    rewrite Hoth by (apply Hne || done). rewrite Hd1. cbn [mbind option_bind]. by rewrite Hr.
  - intros -> [Hr _]. apply mod_list_is_read. unfold decode_json_file.
    destruct (write_json_done mods_config_path (list_document s) d1) as [-> _]. cbn [mbind option_bind]. unfold list_document in Hr |- *. by rewrite Hr.
Qed.
End Saved.

(** * Opening mods *)

Section Opening.
Context (nan_of : list Z -> Z) (validate_mod_id : string -> bool) `{JsonText}.
Context (host : string -> path_status) (mz_reader : list Z -> option archive).
Context (content_types : list ModContentType) (content_filenames : list string) (mod_config_directory : string).
Abbreviation manifest_of := (read_manifest nan_of validate_mod_id).
Abbreviation open_manifest := (open_mod_from_manifest nan_of validate_mod_id content_types content_filenames mod_config_directory).
Abbreviation open_path := (open_mod_from_path nan_of validate_mod_id host mz_reader content_types content_filenames mod_config_directory).
Abbreviation open_memory := (open_mod_from_memory nan_of validate_mod_id mz_reader content_types content_filenames mod_config_directory).
Abbreviation scan := (scan_mod_folder nan_of validate_mod_id host mz_reader content_types content_filenames mod_config_directory).

Definition entry_id (e : mod_entry) : string := mod_id (core (entry_file e)).
(** Values fit the options when no two options share an id. *)
Definition entry_ok (e : mod_entry) : Prop :=
  let c := config_schema (entry_file e) in schema_ok c /\ (distinct_options c -> storage_ok c (config_storage e)).
Record files_ok (s : mod_files) : Prop := {
  ok_parallel : (fun e => core (entry_file e)) <$> entries s = manifest <$> opened_mods (context s);
  ok_ids : ids_ok (context s);
  ok_order : order_ok (context s);
  ok_distinct : NoDup (entry_id <$> entries s);
  ok_taken : forall e, e ∈ entries s -> entry_id e ∈ mod_ids s;
  ok_games : forall m g, m ∈ opened_mods (context s) -> g ∈ game_indices m -> exists name, mod_game_ids (context s) !! name = Some g;
  ok_entries : Forall entry_ok (entries s) }.

Lemma read_value_ok o j v : read_value nan_of j o = Some v -> value_ok o v = true.
Proof.
  destruct o as [opts i|n|t]; cbn [read_value]; [|by intros (b & _ & ->)%fmap_Some..].
  intros (s & _ & (k & Hk & [= <-])%bind_Some)%bind_Some. apply index_of_some in Hk as (n & -> & Hn & _). apply lookup_lt_Some in Hn.
  unfold value_ok. cbn [accepts]. pose proof (Z.mod_pos_bound (Z.of_nat n) 4294967296 ltac:(lia)). pose proof (Z.mod_le (Z.of_nat n) 4294967296 ltac:(lia) ltac:(lia)).
  unfold u32. apply andb_true_iff. rewrite Z.ltb_lt, Z.leb_le. lia.
Qed.
Lemma loaded_values_ok c js : schema_ok c -> distinct_options c -> storage_ok c (foldl (load_option nan_of js) ∅ (options c)).
Proof.
  intros Hc Hd id v Hv. destruct (decide (id ∈ option_id <$> options c)) as [Hin|N]; [|by rewrite load_others, lookup_empty in Hv].
  apply list_elem_of_fmap in Hin as (o & -> & Ho). rewrite load_one in Hv by (done || apply lookup_empty). exists o.
  split; [by apply option_at_of|]. apply bind_Some in Hv as (j & _ & Hj). by eapply read_value_ok.
Qed.
Lemma load_storage_ok path id c d : schema_ok c -> distinct_options c -> storage_ok c (snd (load_mod_config_storage nan_of path id c d)).
Proof.
  intros Hc Hd. assert (storage_ok c ∅) as H0 by (intros k v Hk; by rewrite lookup_empty in Hk).
  unfold load_mod_config_storage. destruct (decode_json_file path d) as [j|]; [|done]. destruct (_ ≫= get_string); [|done].
  destruct (negb _); [done|]. destruct (json_find "storage" j) as [[l| | | | | | |]|]; try done. by apply loaded_values_ok.
Qed.
Lemma parsed_schema_ok root j m : parse_manifest_json nan_of validate_mod_id root j = inr m ->
  schema_ok (config_schema m) /\ mod_root_path m = root /\ length (manifest_game_ids m) = 1%nat.
Proof.
  intros Hm. unfold parse_manifest_json in Hm. outcome_ok Hm. injection Hm as <-. cbn. split; [|done].
  unfold read_config_schema in *. destruct (json_find "config_schema" j) as [v|]; [|by injection E11 as <-].
  destruct (get_object v); [|done]. destruct (json_find "options" v) as [o|]; [|done]. destruct (get_array o); [|done].
  outcome_ok E11. by injection E11 as <-.
Qed.
Lemma manifest_schema_ok h root b c m : manifest_of h root b c = inr m -> schema_ok (config_schema m) /\ mod_root_path m = root.
Proof.
  unfold read_manifest. destruct (read_file h "mod.json") as [data|].
  - unfold parse_manifest. destruct (json_parse data) as [j|]; [|done]. destruct (get_object j); [|done].
    intros Hm%parsed_schema_ok. tauto.
  - destruct b; [done|]. by intros [= <-].
Qed.

Definition take_id (id : string) (s : mod_files) : mod_files :=
  MkModFiles (context s) (entries s) ({[id]} ∪ mod_ids s) (opened_mods_by_filename s) (mod_configuration_thread_queue s).
Lemma take_id_ok id s : files_ok s -> files_ok (take_id id s).
Proof. intros []. constructor; try done. intros e He. apply elem_of_union_r. by auto. Qed.
Lemma add_opened_file_ok e games types s : files_ok s -> entry_ok e -> entry_id e ∉ entry_id <$> entries s -> entry_id e ∈ mod_ids s ->
  (forall g, g ∈ games -> exists name, mod_game_ids (context s) !! name = Some g) -> files_ok (add_opened_file content_types e games types s).
Proof.
  intros [] He Hn Hin Hg. destruct (add_opened_mod_ok content_types (core (entry_file e)) games types (context s)) as [Hi Ho]; [done..|].
  constructor; cbn [context entries mod_ids add_opened_file]; try done.
  - rewrite fmap_app, ok_parallel0. cbn [add_opened_mod opened_mods]. by rewrite fmap_app.
  - rewrite fmap_app. apply list.NoDup_app. split; [done|]. split; [|apply NoDup_singleton]. intros x Hx Hx'. apply list_elem_of_singleton in Hx' as ->. done.
  - intros e' [He'|He']%elem_of_app; [by auto|]. by apply list_elem_of_singleton in He' as ->.
  - intros m g. cbn [add_opened_mod opened_mods mod_game_ids]. intros [Hm|Hm]%elem_of_app; [by apply ok_games0|].
    apply list_elem_of_singleton in Hm as ->. apply Hg.
  - apply Forall_app_2; [done|]. by constructor.
Qed.
(** An opening adds one mod from its path, or tells the error and adds none. *)
Definition opens (root : string) (s : mod_files) (r : outcome unit * mod_files) : Prop :=
  match fst r with
  | inr tt => exists e, entries (snd r) = entries s ++ [e] /\ mod_root_path (entry_file e) = root
  | inl _ => entries (snd r) = entries s
  end.
Lemma open_manifest_ok d h root supported b s : files_ok s ->
  files_ok (snd (open_manifest d h root supported b s)) /\ opens root s (open_manifest d h root supported b s).
Proof.
  intros Hs. unfold open_mod_from_manifest, opens. destruct (manifest_of h root b (context s)) as [e|m] eqn:Em; [done|].
  apply manifest_schema_ok in Em as [Hc Hr]. destruct (decide _) as [|Nin]; [done|].
  change (MkModFiles (context s) _ _ _ _) with (take_id (mod_id (core m)) s).
  destruct (each _ (manifest_game_ids m)) as [e|games] eqn:Eg; cbn [fst snd]; [split; [by apply take_id_ok|done]|].
  set (e := MkEntry m _ _). split; [|by exists e].
  apply add_opened_file_ok; [by apply take_id_ok| | | |].
  - split; [done|]. by apply load_storage_ok.
  - intros (e' & E & He')%list_elem_of_fmap. apply Nin. change (mod_id (core m)) with (entry_id e). rewrite E. by apply (ok_taken s Hs).
  - apply elem_of_union_l, elem_of_singleton. done.
  - intros g Hg. apply each_ok in Eg. apply list_elem_of_lookup in Hg as [k Hk]. destruct (Forall2_lookup_r _ _ _ _ _ Eg Hk) as (name & _ & E).
    exists name. cbn in E |- *. destruct (mod_game_ids (context s) !! name); [|done]. by injection E as ->.
Qed.
Lemma open_path_ok d path supported b s : files_ok s -> files_ok (snd (open_path d path supported b s)) /\ opens path s (open_path d path supported b s).
Proof.
  intros Hs. unfold open_mod_from_path. destruct (open_handle host mz_reader path) as [e|h]; [done|]. by apply open_manifest_ok.
Qed.
Lemma open_memory_ok d bytes supported b s : files_ok s ->
  files_ok (snd (open_memory d bytes supported b s)) /\ opens EmptyString s (open_memory d bytes supported b s).
Proof. intros Hs. unfold open_mod_from_memory. destruct (mz_reader bytes) as [a|]; [|done]. by apply open_manifest_ok. Qed.
Lemma close_files_ok s : files_ok (close_mods_files s).
Proof.
  constructor; cbn; try done.
  - split; [intros id i Hi; cbn in Hi; by rewrite lookup_empty in Hi|intros m Hm; by apply elem_of_nil in Hm].
  - unfold order_ok. done.
  - apply NoDup_nil_2.
  - intros e He. by apply elem_of_nil in He.
  - intros m g Hm. by apply elem_of_nil in Hm.
Qed.

(** ** The scan *)

Abbreviation scanned := (list (string * ModOpenError * string) * mod_files)%type.
Abbreviation step_entry := (scan_entry nan_of validate_mod_id host mz_reader content_types content_filenames mod_config_directory).
Abbreviation step_embedded := (scan_embedded nan_of validate_mod_id mz_reader content_types content_filenames mod_config_directory).

(** What a scan looks at: the entries of the folder, then the embedded mods. *)
Inductive source := Listed (x : dir_entry) | Embedded (id : string) (bytes : list Z).
Definition scan_source d containers (a : scanned) (x : source) : scanned :=
  match x with Listed e => step_entry d containers a e | Embedded id bytes => step_embedded d a (id, bytes) end.
Definition sources (listing : list dir_entry) (embedded : list (string * list Z)) : list source :=
  (Listed <$> listing) ++ ((fun m => Embedded (fst m) (snd m)) <$> embedded).
Lemma scan_sources d containers listing embedded s :
  scan d containers listing embedded s = foldl (scan_source d containers) ([], close_mods_files s) (sources listing embedded).
Proof.
  unfold scan_mod_folder, sources. rewrite foldl_app, !foldl_fmap. reflexivity.
Qed.

(** The files of a source, where they are, whether they must have a manifest, and the
    name that its errors are told under; [None] is what is not a mod. *)
Definition source_of containers (x : source) : option (outcome ModFileHandle * string * bool * string) :=
  match x with
  | Listed e => '(p, _, b) ← container_of containers e; Some (open_handle host mz_reader p, p, b, p)
  | Embedded id bytes =>
      Some (match mz_reader bytes with Some a => inr (zip_handle a) | None => error InvalidZip EmptyString end, EmptyString, true, id)
  end.
(** The manifest a source has, or the error that keeps it from having one. *)
Definition manifest_in c (h : outcome ModFileHandle) root b : outcome manifest_file := let! h := h in manifest_of h root b c.
Definition has_manifest containers c (x : source) (m : manifest_file) : Prop :=
  exists h root b name, source_of containers x = Some (h, root, b, name) /\ manifest_in c h root b = inr m.
Definition id_of (m : manifest_file) : string := mod_id (core m).
Definition opened_as (m : manifest_file) (a : scanned) : Prop := exists e, e ∈ entries (snd a) /\ entry_file e = m.
(** What becomes of a source that follows the sources [before]. *)
Definition accounted containers c (before : list source) (x : source) (a : scanned) : Prop :=
  match source_of containers x with
  | None => True
  | Some (h, root, b, name) =>
      match manifest_in c h root b with
      | inl (err, param) => (name, err, param) ∈ fst a
      | inr m =>
          opened_as m a \/
          ((name, DuplicateMod, id_of m) ∈ fst a /\ exists y m', y ∈ before /\ has_manifest containers c y m' /\ id_of m' = id_of m) \/
          (exists g, (name, WrongGame, g) ∈ fst a /\ g ∈ manifest_game_ids m /\ mod_game_ids c !! g = None)
      end
  end \/
  match x with Embedded id _ => id ∈ entry_id <$> entries (snd a) | Listed _ => False end.

Definition grows (a a' : scanned) : Prop :=
  (forall x, x ∈ fst a -> x ∈ fst a') /\ (forall e, e ∈ entries (snd a) -> e ∈ entries (snd a')).
Lemma grows_trans a b c : grows a b -> grows b c -> grows a c.
Proof. intros [? ?] [? ?]. split; auto. Qed.
Lemma grows_accounted containers c before x a a' : grows a a' -> accounted containers c before x a -> accounted containers c before x a'.
Proof.
  intros [G1 G2] [HA|HA]; [left|right].
  - destruct (source_of containers x) as [[[[h root] b] name]|]; [|done]. destruct (manifest_in c h root b) as [[err param]|m]; [by apply G1|].
    destruct HA as [(e & He & E)|[(HA & D)|(g & HA & D)]]; [left; exists e; auto|right; left; auto|right; right; exists g; auto].
  - destruct x as [e|id bytes]; [done|]. apply list_elem_of_fmap in HA as (e & -> & He). apply list_elem_of_fmap. exists e. auto.
Qed.
(** What a scan keeps: every mod that is open has its manifest from a source it has
    looked at, and so has every id that is taken. *)
Record scan_inv containers c (before : list source) (a : scanned) : Prop := {
  scan_files : files_ok (snd a);
  scan_games : mod_game_ids (context (snd a)) = mod_game_ids c;
  scan_taken : forall id, id ∈ mod_ids (snd a) -> exists y m, y ∈ before /\ has_manifest containers c y m /\ id_of m = id;
  scan_opened : forall e, e ∈ entries (snd a) -> exists y, y ∈ before /\ has_manifest containers c y (entry_file e) }.

Lemma manifest_games h root b c c' : mod_game_ids c = mod_game_ids c' -> manifest_of h root b c = manifest_of h root b c'.
Proof. intros E. unfold read_manifest, known_games. by rewrite E. Qed.

(** One opening: what it does to the tables, and its answer. *)
Lemma open_manifest_does d h root supported b s m : manifest_of h root b (context s) = inr m ->
  let r := open_manifest d h root supported b s in
  (id_of m ∈ mod_ids s /\ r = (error DuplicateMod (id_of m), s)) \/
  (snd r = take_id (id_of m) s /\ exists g, fst r = error WrongGame g /\ g ∈ manifest_game_ids m /\ mod_game_ids (context s) !! g = None) \/
  (fst r = inr tt /\ mod_ids (snd r) = {[id_of m]} ∪ mod_ids s /\ mod_game_ids (context (snd r)) = mod_game_ids (context s) /\
   exists e, entries (snd r) = entries s ++ [e] /\ entry_file e = m).
Proof.
  intros Em. unfold open_mod_from_manifest. rewrite Em. fold (id_of m). destruct (decide _) as [D|D]; cbn zeta; [by left|right].
  destruct (each _ (manifest_game_ids m)) as [x|games] eqn:Eg.
  - left. split; [done|]. apply each_error in Eg as (g & Hg & E). exists g. cbn beta in E. cbn [context] in E. destruct (mod_game_ids (context s) !! g) eqn:E2; [discriminate E|].
    by injection E as <-.
  - right. split; [done|]. split; [done|]. split; [done|]. by eexists.
Qed.
Lemma opening_step containers c before x h root supported b name s d errors :
  source_of containers x = Some (h, root, b, name) -> scan_inv containers c before (errors, s) ->
  let r := match h with inl e => (inl e, s) | inr h => open_manifest d h root supported b s end in
  let a' : scanned := (errors ++ open_error name (fst r), snd r) in
  scan_inv containers c (before ++ [x]) a' /\ grows (errors, s) a' /\ accounted containers c before x a'.
Proof.
  intros Ex [Hf Hg Ht Ho]. cbn [fst snd] in Hf, Hg, Ht, Ho. unfold accounted. rewrite Ex. cbn zeta.
  assert (Hb : forall y, y ∈ before -> y ∈ before ++ [x]) by (intros; apply elem_of_app; by left).
  assert (Hx : x ∈ before ++ [x]) by (apply elem_of_app; right; by apply list_elem_of_singleton).
  assert (Herr : forall err param, (name, err, param) ∈ errors ++ [(name, err, param)]) by (intros; apply elem_of_app; right; by apply list_elem_of_singleton).
  assert (Hkeep : forall y, y ∈ errors -> forall l, y ∈ errors ++ l) by (intros; apply elem_of_app; by left).
  assert (Hsame : forall r' : outcome unit, scan_inv containers c (before ++ [x]) (errors ++ open_error name r', s)).
  { intros r'. constructor; cbn [fst snd]; [done|done| |].
    - intros id (y & m & Hy & HM)%Ht. exists y, m. auto.
    - intros e (y & Hy & HM)%Ho. exists y. auto. }
  destruct h as [[err param]|h]; [split; [apply Hsame|]; split; [by split; [intros; apply Hkeep|]|left; apply Herr]|].
  unfold manifest_in. cbn [and_then]. rewrite <- (manifest_games h root b (context s) c Hg).
  destruct (manifest_of h root b (context s)) as [[err param]|m] eqn:Em.
  { unfold open_mod_from_manifest. rewrite Em. split; [apply Hsame|]. split; [by split; [intros; apply Hkeep|]|left; apply Herr]. }
  assert (Hm : has_manifest containers c x m).
  { exists (inr h), root, b, name. split; [done|]. unfold manifest_in. cbn [and_then]. by rewrite <- (manifest_games h root b (context s) c Hg). }
  pose proof (open_manifest_ok d h root supported b s Hf) as [Hf' _]. pose proof (open_manifest_does d h root supported b s m Em) as Hr. cbn zeta in Hr.
  destruct (open_manifest d h root supported b s) as [r s']. cbn [fst snd] in *.
  destruct Hr as [(Hin & E)|[(Hs & g & Hr & Hg' & Hn)|(Hr & Hi & Hg' & e & He & Hem)]].
  - injection E as -> ->. split; [apply Hsame|]. split; [by split; [intros; apply Hkeep|]|]. left. right. left. split; [apply Herr|by apply Ht].
  - subst r s'. split; [|split; [by split; [intros; apply Hkeep|]|]].
    + constructor; cbn [fst snd take_id context mod_ids entries]; [done|done| |].
      * intros id [->%elem_of_singleton|(y & m' & Hy & HM)%Ht]%elem_of_union; [by exists x, m|exists y, m'; auto].
      * intros e (y & Hy & HM)%Ho. exists y. auto.
    + left. right. right. exists g. split; [apply Herr|]. split; [done|]. by rewrite <- Hg.
  - subst r. split; [|split].
    + constructor; cbn [fst snd]; [done|by rewrite Hg'| |].
      * rewrite Hi. intros id [->%elem_of_singleton|(y & m' & Hy & HM)%Ht]%elem_of_union; [by exists x, m|exists y, m'; auto].
      * rewrite He. intros e' [(y & Hy & HM)%Ho| ->%list_elem_of_singleton]%elem_of_app; [exists y; auto|]. exists x. by rewrite Hem.
    + split; cbn [fst snd]; [intros; by apply Hkeep|]. rewrite He. intros e' He'. apply elem_of_app. by left.
    + left. left. exists e. cbn [snd]. rewrite He. split; [apply elem_of_app; right; by apply list_elem_of_singleton|done].
Qed.
Lemma opened_id s id i : files_ok s -> opened_mods_by_id (context s) !! id = Some i -> id ∈ entry_id <$> entries s.
Proof.
  intros [] Hi. destruct ok_ids0 as [Hids _]. destruct (Hids id i Hi) as (m & Hm & <-).
  pose proof (list_lookup_fmap manifest (opened_mods (context s)) i) as E. rewrite <- ok_parallel0, Hm, list_lookup_fmap in E.
  destruct (entries s !! i) as [e|] eqn:Ee; [|done]. injection E as E. apply list_elem_of_fmap. exists e.
  split; [unfold entry_id; by rewrite E|by apply list_elem_of_lookup_2 in Ee].
Qed.
Lemma scan_inv_skip containers c before x a : scan_inv containers c before a -> scan_inv containers c (before ++ [x]) a.
Proof.
  intros [Hf Hg Ht Ho]. constructor; [done|done| |].
  - intros id (y & m & Hy & HM)%Ht. exists y, m. split; [apply elem_of_app; by left|done].
  - intros e (y & Hy & HM)%Ho. exists y. split; [apply elem_of_app; by left|done].
Qed.
Lemma scan_source_step d containers c before a x : scan_inv containers c before a ->
  let a' := scan_source d containers a x in
  scan_inv containers c (before ++ [x]) a' /\ grows a a' /\ accounted containers c before x a'.
Proof.
  intros Hi. destruct a as [errors s]. destruct x as [e|id bytes]; cbn [scan_source].
  - unfold scan_entry. destruct (container_of containers e) as [[[p types] b]|] eqn:E.
    + assert (Ex : source_of containers (Listed e) = Some (open_handle host mz_reader p, p, b, p)) by (cbn [source_of]; by rewrite E).
      pose proof (opening_step containers c before (Listed e) _ p types b p s d errors Ex Hi) as St. unfold open_mod_from_path.
      destruct (match open_handle host mz_reader p with inl e => _ | inr h => _ end) as [r s']. exact St.
    + split; [by apply scan_inv_skip|]. split; [by split|]. unfold accounted. cbn [source_of]. rewrite E. by left.
  - unfold scan_embedded. cbn [fst snd]. destruct (opened_mods_by_id (context s) !! id) as [i|] eqn:E.
    + split; [by apply scan_inv_skip|]. split; [by split|]. right. eapply opened_id; [apply Hi|done].
    + pose proof (opening_step containers c before (Embedded id bytes) _ EmptyString [] true id s d errors eq_refl Hi) as St.
      unfold open_mod_from_memory. destruct (mz_reader bytes) as [ar|]; [|exact St].
      destruct (open_manifest d (zip_handle ar) EmptyString [] true s) as [r s']. exact St.
Qed.
Lemma scan_all d containers c l : forall before a, scan_inv containers c before a ->
  let a' := foldl (scan_source d containers) a l in
  scan_inv containers c (before ++ l) a' /\ grows a a' /\
  forall pre x post, l = pre ++ x :: post -> accounted containers c (before ++ pre) x a'.
Proof.
  induction l as [|y l IH]; intros before a Hi.
  - cbn [foldl]. rewrite app_nil_r. split; [done|]. split; [by split|]. intros [|? pre] x post [=].
  - cbn [foldl]. destruct (scan_source_step d containers c before a y Hi) as (H1 & H2 & H3).
    destruct (IH (before ++ [y]) _ H1) as (I1 & I2 & I3). rewrite <- app_assoc in I1. split; [exact I1|]. split; [by eapply grows_trans|].
    intros [|z pre] x post [= -> El]; [rewrite app_nil_r; by eapply grows_accounted|].
    specialize (I3 pre x post El). by rewrite <- app_assoc in I3.
Qed.

Lemma scan_accounts d containers listing embedded s :
  scan_inv containers (context s) (sources listing embedded) (scan d containers listing embedded s) /\
  forall before x after, sources listing embedded = before ++ x :: after ->
    accounted containers (context s) before x (scan d containers listing embedded s).
Proof.
  rewrite scan_sources. assert (H0 : scan_inv containers (context s) [] ([], close_mods_files s)).
  { constructor; [apply close_files_ok|done|intros id Hid; by apply elem_of_empty in Hid|intros e He; by apply elem_of_nil in He]. }
  by destruct (scan_all d containers (context s) (sources listing embedded) [] _ H0) as (H1 & _ & H3).
Qed.

(** C11: Whatever was open before, after a scan of the mod folder every file and folder that
    is a mod and every embedded mod is open with exactly its manifest, or is told under its
    name the error of its reading, that an earlier one has its id, or that it is for no
    registered game; an embedded mod is passed over only when a mod with its id is open.
    Nothing else is open, ids name the mods that have them, and no two open mods share one. *)
Theorem scan_accounts_for_every_mod d containers listing embedded s :
  let '(errors, s') := scan d containers listing embedded s in
  files_ok s' /\
  (forall before x after, sources listing embedded = before ++ x :: after -> accounted containers (context s) before x (errors, s')) /\
  (forall e, e ∈ entries s' -> exists x, x ∈ sources listing embedded /\ has_manifest containers (context s) x (entry_file e)).
Proof.
  destruct (scan_accounts d containers listing embedded s) as [H1 H3].
  destruct (scan d containers listing embedded s) as [errors s']. split; [apply H1|]. split; [exact H3|]. apply H1.
Qed.

(** ** Values over any sequence of calls *)

Lemma scan_ok d containers listing embedded s : files_ok (snd (scan d containers listing embedded s)).
Proof. apply (scan_accounts d containers listing embedded s). Qed.
Lemma set_value_file id v e : entry_file (set_value id v e) = entry_file e.
Proof. unfold set_value. destruct (option_at _ _); [|done]. by destruct (accepts _ _). Qed.
(** Enumerations are set to words. *)
Definition word_value (v : ConfigValueVariant) : Prop := match v with Value_u32 n => 0 <= n | _ => True end.
Lemma set_value_ok id v e : word_value v -> entry_ok e -> entry_ok (set_value id v e).
Proof.
  intros Hw [Hc Hs]. unfold entry_ok. rewrite set_value_file. split; [done|]. intros Hd k w. unfold set_value.
  destruct (option_at (config_schema (entry_file e)) id) as [o|] eqn:Eo; [|by apply Hs]. destruct (accepts (variant o) v) eqn:Ea; [|by apply Hs].
  cbn [config_storage]. intros [[<- <-]|[_ Hk]]%lookup_insert_Some; [|by apply Hs]. exists o. split; [done|]. unfold value_ok. rewrite Ea.
  by destruct v; [..|]; cbn in *; [|apply Z.leb_le|..].
Qed.
Lemma set_files_ok i id v s : word_value v -> files_ok s -> files_ok (set_mod_config_value i id v s).
Proof.
  intros Hw Hs. unfold set_mod_config_value. destruct (entries s !! i) as [e|] eqn:Ee; [|done].
  assert (forall (B : Type) (f : manifest_file -> B), (fun e => f (entry_file e)) <$> <[i:=set_value id v e]> (entries s) = (fun e => f (entry_file e)) <$> entries s) as Hsame.
  { intros B f. rewrite list_fmap_insert, set_value_file. apply list_insert_id. by rewrite list_lookup_fmap, Ee. }
  assert (entry_id <$> <[i:=set_value id v e]> (entries s) = entry_id <$> entries s) as Hids by exact (Hsame _ (fun m => mod_id (core m))).
  destruct Hs. constructor; cbn [context entries mod_ids]; try done.
  - by rewrite (Hsame _ core).
  - by rewrite Hids.
  - intros e' He'. apply (list_elem_of_fmap_2 entry_id) in He'. rewrite Hids in He'. apply list_elem_of_fmap in He' as (e'' & E & He''). rewrite E.
    by apply ok_taken0.
  - apply list.Forall_insert; [done|]. apply set_value_ok; [done|]. by eapply list.Forall_lookup_1.
Qed.

Context (project_version : Version) (mods_config_path : string).
Definition all_distinct (s : mod_files) : Prop := forall e, e ∈ entries s -> distinct_options (config_schema (entry_file e)).
Definition request (r : config_request) (s : mod_files) : mod_files :=
  MkModFiles (context s) (entries s) (mod_ids s) (opened_mods_by_filename s) (mod_configuration_thread_queue s ++ [r]).
(** The calls of the game and the rounds of the thread, whatever is on the disk; in
    the mods that are opened no two options share an id. *)
Inductive files_step : mod_files * config_thread -> mod_files * config_thread -> Prop :=
  | Step_scan d containers listing embedded s t : all_distinct (snd (scan d containers listing embedded s)) ->
      files_step (s, t) (snd (scan d containers listing embedded s), t)
  | Step_open d path types b s t : all_distinct (snd (open_path d path types b s)) -> files_step (s, t) (snd (open_path d path types b s), t)
  | Step_close s t : files_step (s, t) (close_mods_files s, t)
  | Step_set i id v s t : word_value v -> files_step (s, t) (set_mod_config_value i id v s, t)
  | Step_request r s t : files_step (s, t) (request r s, t)
  | Step_round faults d s t s' t' d' : thread_round project_version mod_config_directory mods_config_path faults s t d = Some (s', t', d') ->
      files_step (s, t) (s', t').
Definition system_ok (st : mod_files * config_thread) : Prop := files_ok (fst st) /\ all_distinct (fst st) /\ thread_ok (snd st).
Lemma system_entries_ok s t : system_ok (s, t) -> entries_ok s.
Proof. intros ([] & Hd & _) e He. cbn [fst] in *. pose proof (proj1 (list.Forall_forall _ _) ok_entries0 e He) as [_ Hs]. by apply Hs, Hd. Qed.
Lemma same_files_ok s q : files_ok s -> files_ok (MkModFiles (context s) (entries s) (mod_ids s) (opened_mods_by_filename s) q).
Proof. intros []. by constructor. Qed.
Lemma set_distinct i id v s : all_distinct s -> all_distinct (set_mod_config_value i id v s).
Proof.
  intros Hd e. unfold set_mod_config_value. destruct (entries s !! i) as [e0|] eqn:E; [|apply Hd]. cbn [entries]. intros [k Hk]%list_elem_of_lookup.
  apply list_lookup_insert_Some in Hk as [(<- & <- & _)|[_ Hk]]; [|by eapply Hd, list_elem_of_lookup_2].
  rewrite set_value_file. by eapply Hd, list_elem_of_lookup_2.
Qed.
Lemma drain_keeps l id : forall t, snapshot_of (fst (drain_requests t l)) id = snapshot_of t id.
Proof. induction l as [|r l IH]; intros t; [done|]. cbn [drain_requests]. destruct (active t); [|done]. rewrite IH. by destruct r. Qed.
(** A round returns, and changes the queue of the mods only. *)
Lemma round_defined faults s t d : entries_ok s -> thread_ok t -> exists q t' d',
  thread_round project_version mod_config_directory mods_config_path faults s t d =
    Some (MkModFiles (context s) (entries s) (mod_ids s) (opened_mods_by_filename s) q, t', d') /\ thread_ok t'.
Proof.
  intros He Ht. unfold thread_round. pose proof (fun id => drain_keeps (mod_configuration_thread_queue s) id t) as Hk.
  destruct (drain_requests t _) as [t0 q]. cbn [fst] in Hk. assert (thread_ok t0) as Ht0 by (intros id; rewrite Hk; apply Ht).
  set (s' := MkModFiles _ _ _ _ q). assert (thread_ok (snapshot_mods s' t0)) as Ht1 by by apply snapshots_ok.
  destruct (write_mods_defined project_version mod_config_directory faults _ (elements (pending_mods (snapshot_mods s' t0))) Ht1 d) as [d1 E1].
  destruct (active t0 && negb _); cbn [mbind option_bind].
  - rewrite E1. cbn [mbind option_bind]. destruct (active _ && _); (do 3 eexists; split; [reflexivity|]); exact Ht1.
  - destruct (active _ && _); (do 3 eexists; split; [reflexivity|]); exact Ht0.
Qed.
Lemma files_step_ok a b : files_step a b -> system_ok a -> system_ok b.
Proof.
  intros [d containers listing embedded s t Hd|d path types b' s t Hd|s t|i id v s t Hw|r s t|faults d s t s' t' d' E] Hok;
    pose proof Hok as (Hs & Ha & Ht); cbn [fst snd] in *.
  - split; [apply scan_ok|done].
  - split; [by apply open_path_ok|done].
  - split; [apply close_files_ok|]. split; [intros e He; by apply elem_of_nil in He|done].
  - split; [by apply set_files_ok|]. split; [by apply set_distinct|done].
  - split; [by apply same_files_ok|done].
  - destruct (round_defined faults s t d) as (q & t1 & d1 & E1 & Ht1); [by apply (system_entries_ok s t)|done|].
    rewrite E in E1. injection E1 as -> -> ->. split; [by apply same_files_ok|done].
Qed.
Lemma steps_ok a b : rtc files_step a b -> system_ok a -> system_ok b.
Proof. induction 1 as [|a b c Hab _ IH]; [done|]. intros Ha. apply IH. by eapply files_step_ok. Qed.
Lemma start_ok s : system_ok (close_mods_files s, idle_thread).
Proof.
  split; [apply close_files_ok|]. split; [intros e He; by apply elem_of_nil in He|]. intros id k v Hk. cbn in Hk. by rewrite lookup_empty in Hk.
Qed.
(** The type of a value is its option's. *)
Definition has_type (o : ConfigOptionVariant) (v : ConfigValueVariant) : bool :=
  match o, v with Option_enum _ _, Value_u32 _ | Option_number _, Value_double _ | Option_string _, Value_string _ => true | _, _ => false end.
Lemma value_has_type o v : value_ok o v = true -> has_type o v = true.
Proof. by destruct o, v. Qed.
Lemma default_has_type o : has_type o (default_value o) = true.
Proof. by destruct o. Qed.
Lemma value_of_set id v e k : value_of k (set_value id v e) =
  match option_at (config_schema (entry_file e)) id with
  | Some o => if accepts (variant o) v && bool_decide (k = id) then v else value_of k e
  | None => value_of k e
  end.
Proof.
  unfold set_value. destruct (option_at _ id) as [o|]; [|done]. destruct (accepts (variant o) v); [|done]. cbn [andb].
  unfold value_of. cbn [config_storage entry_file]. case_bool_decide as E; [subst; by rewrite lookup_insert_eq|by rewrite lookup_insert_ne].
Qed.

(** C12: Over any calls and rounds of the saving thread, the value of an option has the type
    of the option, and of what is no option there is none; setting a value that the option
    accepts is what is read from then on, and nothing else changes; and the next round
    returns: no value that is kept is of a type its option cannot write. In the mods that
    are opened no two options share an id. *)
Theorem options_keep_their_types s0 s t : rtc files_step (close_mods_files s0, idle_thread) (s, t) ->
  (forall i e id, entries s !! i = Some e ->
    match option_at (config_schema (entry_file e)) id with
    | Some o => has_type (variant o) (get_mod_config_value i id s) = true
    | None => get_mod_config_value i id s = Monostate
    end) /\
  (forall i e id v j k, entries s !! i = Some e -> get_mod_config_value j k (set_mod_config_value i id v s) =
    match option_at (config_schema (entry_file e)) id with
    | Some o => if accepts (variant o) v && bool_decide (j = i /\ k = id) then v else get_mod_config_value j k s
    | None => get_mod_config_value j k s
    end) /\
  forall faults d, is_Some (thread_round project_version mod_config_directory mods_config_path faults s t d).
Proof.
  intros Hr. assert (system_ok (s, t)) as Hok by (eapply steps_ok; [exact Hr|apply start_ok]).
  pose proof (system_entries_ok s t Hok) as He. split; [|split].
  - intros i e id Hi. unfold get_mod_config_value, value_of. rewrite Hi. specialize (He e (list_elem_of_lookup_2 _ _ _ Hi) id).
    destruct (config_storage e !! id) as [v|].
    + destruct (He v eq_refl) as (o & -> & Hv). by apply value_has_type.
    + destruct (option_at _ id) as [o|]; [apply default_has_type|done].
  - intros i e id v j k Hi. unfold get_mod_config_value, set_mod_config_value. rewrite Hi. cbn [entries].
    destruct (decide (j = i)) as [->|N].
    + rewrite list_lookup_insert_eq by (by eapply lookup_lt_Some). rewrite value_of_set, Hi. destruct (option_at _ id) as [o|]; [|done].
      by rewrite (bool_decide_ext (i = i /\ k = id) (k = id)) by tauto.
    + rewrite list_lookup_insert_ne by done. destruct (option_at _ id) as [o|]; [|done].
      rewrite (bool_decide_false (j = i /\ k = id)) by tauto. by rewrite andb_false_r.
  - intros faults d. destruct (round_defined faults s t d He) as (q & t' & d' & -> & _); [|done]. apply Hok.
Qed.
End Opening.

(** * Writing a manifest down *)

(** The text of a manifest, field by field. *)
Section Printing.
Context (nan_of : list Z -> Z) (validate_mod_id : string -> bool).
Abbreviation parse := (parse_manifest_json nan_of validate_mod_id).
Definition kind_members (v : ConfigOptionVariant) : list (string * json) :=
  match v with
  | Option_enum opts i =>
      [("type", JString "Enum"); ("options", string_array opts)]%string ++ match opts !! Z.to_nat i with Some s => [("default"%string, JString s)] | None => [] end
  | Option_number n =>
      [("type", JString "Number"); ("min", JFloat (min n)); ("max", JFloat (max n)); ("step", JFloat (step n)); ("precision", JInteger (precision n));
       ("percent", JBool (percent n)); ("default", JFloat (default_number n))]%string
  | Option_string t => [("type", JString "String"); ("default", JString t)]%string
  end.
Definition option_json (o : ConfigOption) : json :=
  JObject ([("id", JString (option_id o)); ("name", JString (option_name o)); ("description", JString (option_description o))]%string ++ kind_members (variant o)).
Definition dependency_text (d : Dependency) : string := dep_mod_id d +:+ String ":" (to_string (dep_version d)).
Definition dependency_texts (is_optional : bool) (m : ModManifest) : json :=
  string_array (dependency_text <$> filter (fun d => optional d = is_optional) (dependencies m)).
Definition manifest_json (m : manifest_file) : json :=
  JObject [("game_id", JString (hd EmptyString (manifest_game_ids m))); ("id", JString (mod_id (core m))); ("display_name", JString (display_name m));
           ("description", JString (description m)); ("short_description", JString (short_description m)); ("version", JString (to_string (version (core m))));
           ("authors", string_array (authors m)); ("minimum_recomp_version", JString (to_string (minimum_recomp_version (core m))));
           ("enabled_by_default", JBool (enabled_by_default (core m))); ("dependencies", dependency_texts false (core m));
           ("optional_dependencies", dependency_texts true (core m));
           ("native_libraries", JObject ((fun l => (fst l, string_array (snd l))) <$> native_libraries m));
           ("config_schema", JObject [("options"%string, JArray (option_json <$> options (config_schema m)))])]%string.

(** The options that a schema can hold; enumerations have fewer names than a word
    has values. *)
Definition option_wf (o : ConfigOption) : Prop :=
  match variant o with
  | Option_enum opts i => match opts !! Z.to_nat i with Some s => index_of s opts = Some i /\ u32 i = i | None => i = 0 end
  | Option_number n => precision n = s32 (precision n)
  | Option_string _ => True
  end.
Lemma parsed_option_wf j o : parse_config_schema_option nan_of j = inr o ->
  (forall opts i, variant o = Option_enum opts i -> Z.of_nat (length opts) < 2 ^ 32) -> option_wf o.
Proof.
  intros Hp Hl. unfold parse_config_schema_option in Hp. outcome_ok Hp. injection Hp as <-. unfold option_wf. cbn [variant] in *.
  destruct (config_option_type_names _) as [[]|]; [..|done].
  - unfold parse_enum_option in E3. outcome_ok E3. destruct (json_find "default" j) as [v|].
    + destruct (get_string v) as [s|]; [|done]. destruct (index_of s a4) as [i|] eqn:Ei; [|done]. injection E3 as <-. specialize (Hl _ _ eq_refl).
      pose proof Ei as (n & -> & Hn & _)%index_of_some. pose proof (lookup_lt_Some _ _ _ Hn).
      assert (u32 (Z.of_nat n) = Z.of_nat n) as -> by (unfold u32; apply Z.mod_small; lia). rewrite Nat2Z.id, Hn. split; [done|].
      unfold u32. apply Z.mod_small. lia.
    + injection E3 as <-. destruct a4 as [|s opts]; [done|]. change ((s :: opts) !! Z.to_nat 0) with (Some s). split; [|done].
      apply index_of_some. exists 0%nat. split; [done|]. split; [done|]. intros k x _ Hk. lia.
  - unfold parse_number_option in E3. cbv beta zeta in E3. outcome_ok E3. injection E3 as <-. cbn [precision]. symmetry. apply s32_small, s32_range.
  - unfold parse_string_option in E3. outcome_ok E3. by injection E3 as <-.
Qed.
Lemma enum_again id name descr opts i : option_wf (MkOption id name descr (Option_enum opts i)) ->
  parse_enum_option (option_json (MkOption id name descr (Option_enum opts i))) = inr (Option_enum opts i).
Proof.
  unfold option_wf, option_json, kind_members. cbn [variant option_id option_name option_description]. intros Hi.
  assert (forall j, json_find "options" j = Some (string_array opts) -> read_schema_field (extract_array get_string) j "options" [] = inr opts) as Ho.
  { intros j Hj. unfold read_schema_field. by rewrite Hj, extract_strings. }
  unfold parse_enum_option. destruct (opts !! Z.to_nat i) as [s|]; (rewrite Ho by reflexivity); cbn [and_then].
  - destruct Hi as [Hi Hu]. change (json_find "default" _) with (Some (JString s)). cbn [get_string]. by rewrite Hi, Hu.
  - change (json_find "default" _) with (@None json). by rewrite Hi.
Qed.
Lemma option_again o : option_wf o -> parse_config_schema_option nan_of (option_json o) = inr o.
Proof.
  destruct o as [id name descr v]. intros Hw.
  transitivity (and_then (match v with
      | Option_enum _ _ => parse_enum_option (option_json (MkOption id name descr v))
      | Option_number _ => parse_number_option nan_of (option_json (MkOption id name descr v))
      | Option_string _ => parse_string_option (option_json (MkOption id name descr v))
      end) (fun v => inr (MkOption id name descr v))).
  { destruct v as [opts i| |]; [|reflexivity..]. unfold option_json, kind_members. cbn [variant]. by destruct (opts !! Z.to_nat i). }
  destruct v as [opts i|[lo hi st pr pc df]|t]; [by rewrite enum_again|..|reflexivity].
  unfold option_wf in Hw. cbn [variant precision] in Hw.
  transitivity (inr (A := ModOpenError * string) (MkOption id name descr (Option_number (MkNumber lo hi st (s32 pr) pc df)))); [reflexivity|by rewrite <- Hw].
Qed.

(** *** Dependencies *)

Lemma split_colon_app a s : split_colon a = None -> split_colon (a +:+ String ":" s) = Some (a, s).
Proof.
  induction a as [|c a IH]; intros Ha; [done|]. cbn [split_colon] in Ha. change (String c a +:+ String ":" s) with (String c (a +:+ String ":" s)).
  cbn [split_colon]. destruct (Ascii.eqb c ":"); [done|]. rewrite IH by (by destruct (split_colon a) as [[]|]). done.
Qed.
Lemma split_colon_first t : forall a s, split_colon t = Some (a, s) -> split_colon a = None.
Proof.
  induction t as [|c t IH]; intros a s; [done|]. cbn [split_colon]. destruct (Ascii.eqb c ":") eqn:Ec; [by intros [= <- _]|].
  intros ([a' s'] & Et & [= <- <-])%bind_Some. cbn [split_colon]. by rewrite Ec, (IH _ _ Et).
Qed.
Lemma version_again t v : from_string t = Some v -> from_string (to_string v) = Some v.
Proof. intros Ev. destruct (version_text_roundtrip v) as [E Hs]. by apply E, (Hs t). Qed.
(** Versions and dependencies as a manifest can say them. *)
Definition version_wf (v : Version) : Prop := from_string (to_string v) = Some v.
Definition dependency_wf (d : Dependency) : Prop :=
  split_colon (dep_mod_id d) = None /\ validate_mod_id (dep_mod_id d) = true /\ version_wf (dep_version d).
Lemma parsed_dependency t d b : parse_dependency validate_mod_id t = Some (dep_mod_id d, dep_version d) -> optional d = b -> dependency_wf d /\ optional d = b.
Proof.
  intros Hp Hb. split; [|done]. unfold parse_dependency in Hp. unfold dependency_wf. destruct (split_colon t) as [[a w]|] eqn:Et.
  - destruct (validate_mod_id a) eqn:Ea; [|done]. apply bind_Some in Hp as (v' & Ev & [= -> ->]). split; [by eapply split_colon_first|]. split; [done|].
    by eapply version_again.
  - destruct (validate_mod_id t) eqn:Ea; [|done]. injection Hp as <- <-. by split.
Qed.
Lemma dependencies_again j key b l : json_find key j = Some (string_array (dependency_text <$> l)) ->
  Forall (fun d => dependency_wf d /\ optional d = b) l ->
  read_dependency_list validate_mod_id j key b = inr l.
Proof.
  intros Hj Hl. unfold read_dependency_list, read_array_field, read_field. rewrite Hj, extract_strings. cbn [and_then]. apply each_ok.
  apply Forall2_fmap_l. clear Hj. induction Hl as [|d l [(Hs & Hv & Ht) Hb] _ IH]; [constructor|]. constructor; [|exact IH]. unfold compose, dependency_text.
  unfold parse_dependency. rewrite split_colon_app, Hv by done. rewrite Ht. destruct d. cbn in Hb |- *. by rewrite Hb.
Qed.
Lemma parsed_dependencies j key b l : read_dependency_list validate_mod_id j key b = inr l ->
  Forall (fun d => dependency_wf d /\ optional d = b) l.
Proof.
  intros Hl. apply dependency_list_ok in Hl as (raw & _ & HF). induction HF as [|t d raw l (Ht & Hb) _ IH]; [constructor|]. constructor; [|exact IH].
  by eapply parsed_dependency.
Qed.
Lemma filter_same (P : Dependency -> Prop) `{forall d, Decision (P d)} l : Forall P l -> filter P l = l.
Proof. induction 1 as [|d l Hd _ IH]; [done|]. by rewrite filter_cons_True, IH. Qed.
Lemma filter_none (P : Dependency -> Prop) `{forall d, Decision (P d)} l : Forall (fun d => ~ P d) l -> filter P l = [].
Proof. induction 1 as [|d l Hd _ IH]; [done|]. by rewrite filter_cons_False, IH. Qed.

Lemma version_field_again j key f v : json_find key j = Some (JString (to_string v)) -> version_wf v -> read_version_field j key f = inr v.
Proof. intros Hj Hv. unfold read_version_field, read_field. rewrite Hj. cbn [get_string and_then]. by rewrite Hv. Qed.
Lemma strings_field_again j key b l : json_find key j = Some (string_array l) -> read_array_field get_string j key b = inr l.
Proof. intros Hj. unfold read_array_field, read_field. by rewrite Hj, extract_strings. Qed.
Lemma native_libraries_again j l : json_find "native_libraries" j = Some (JObject ((fun x => (fst x, string_array (snd x))) <$> l)) ->
  read_native_libraries j = inr l.
Proof.
  intros Hj. unfold read_native_libraries. rewrite Hj. cbn [get_object]. apply each_ok, Forall2_fmap_l. clear Hj.
  induction l as [|[name exports] l IH]; [constructor|]. constructor; [|exact IH]. unfold compose. cbn [fst snd]. by rewrite extract_strings.
Qed.
Lemma config_schema_again j c : json_find "config_schema" j = Some (JObject [("options"%string, JArray (option_json <$> options c))]) ->
  schema_ok c -> Forall option_wf (options c) -> read_config_schema nan_of j = inr c.
Proof.
  intros Hj Hc Hw. unfold read_config_schema. rewrite Hj. cbn [get_object]. change (json_find "options" _) with (Some (JArray (option_json <$> options c))).
  cbn [get_array]. assert (each (parse_config_schema_option nan_of) (option_json <$> options c) = inr (options c)) as ->.
  { apply each_ok, Forall2_fmap_l. clear Hj Hc. induction Hw as [|o l Ho _ IH]; [constructor|]. constructor; [by apply option_again|exact IH]. }
  cbn [and_then]. unfold schema_of. rewrite <- Hc. by destruct c.
Qed.
Lemma schema_parsed j c : read_config_schema nan_of j = inr c -> Forall (fun o => exists x, parse_config_schema_option nan_of x = inr o) (options c).
Proof.
  intros Hc. destruct (json_find "config_schema" j) as [v|] eqn:Ev.
  - pose proof Hc as Hc'. eapply config_schema_ok in Hc' as (l & os & _ & _ & HF); [|exact Ev]. clear - HF.
    induction HF as [|x o os l Hx _ IH]; [constructor|]. constructor; [by exists x|done].
  - unfold read_config_schema in Hc. rewrite Ev in Hc. injection Hc as <-. constructor.
Qed.

(** The manifests that a file can hold: any texts, one game, versions and dependencies
    that can be said, the required ones first, and options as above. *)
Record manifest_wf (root : string) (m : manifest_file) : Prop := {
  wf_root : mod_root_path m = root;
  wf_game : exists g, manifest_game_ids m = [g];
  wf_versions : version_wf (version (core m)) /\ version_wf (minimum_recomp_version (core m));
  wf_dependencies : Forall dependency_wf (dependencies (core m));
  wf_order : dependencies (core m) = filter (fun d => optional d = false) (dependencies (core m)) ++ filter (fun d => optional d = true) (dependencies (core m));
  wf_index : dependencies_by_id m = index_ids (dep_mod_id <$> dependencies (core m));
  wf_schema : schema_ok (config_schema m);
  wf_options : Forall option_wf (options (config_schema m)) }.
Lemma parsed_wf root j m : parse root j = inr m ->
  (forall o opts i, o ∈ options (config_schema m) -> variant o = Option_enum opts i -> Z.of_nat (length opts) < 2 ^ 32) ->
  manifest_wf root m.
Proof.
  intros Hm Hl. pose proof (parsed_schema_ok nan_of validate_mod_id root j m Hm) as (Hc & Hr & _).
  unfold parse_manifest_json in Hm. outcome_ok Hm. apply version_ok_field in E4 as (v & _ & _ & Hv). apply version_ok_field in E6 as (w & _ & _ & Hw).
  apply parsed_dependencies in E8, E9. injection Hm as <-.
  assert (Hf : forall b l l', Forall (fun d => dependency_wf d /\ optional d = b) l -> Forall (fun d => dependency_wf d /\ optional d = negb b) l' ->
    filter (fun d => optional d = b) l = l /\ filter (fun d => optional d = b) l' = []).
  { intros b l l' Hb Hb'. split; [apply filter_same|apply filter_none]; (eapply list.Forall_impl; [eassumption|]); intros d [_ Hd]; [done|].
    rewrite Hd. by destruct b. }
  destruct (Hf false a8 a9 E8 E9) as [F1 F2]. destruct (Hf true a9 a8 E9 E8) as [F3 F4].
  constructor; cbn [mod_root_path manifest_game_ids core version minimum_recomp_version dependencies dependencies_by_id config_schema] in *; try done.
  - by eexists.
  - split; by eapply version_again.
  - apply Forall_app_2; (eapply list.Forall_impl; [eassumption|]); by intros d [Hd _].
  - by rewrite !filter_app, F1, F2, F3, F4, app_nil_r.
  - apply schema_parsed in E11. apply list.Forall_forall. intros o Ho. destruct (proj1 (list.Forall_forall _ _) E11 o Ho) as [x Hx].
    eapply parsed_option_wf; [exact Hx|]. intros opts i. by apply Hl.
Qed.

(** C15: Every well-formed manifest, with any texts, names, versions, dependencies and
    options, written down as JSON is accepted and read back as itself; and every manifest
    that is accepted is well-formed, so nothing of it is lost when it is written down and
    read again. *)
Theorem accepted_manifest_roundtrip root m :
  (manifest_wf root m -> parse root (manifest_json m) = inr m) /\
  (forall j, parse root j = inr m ->
    (forall o opts i, o ∈ options (config_schema m) -> variant o = Option_enum opts i -> Z.of_nat (length opts) < 2 ^ 32) ->
    manifest_wf root m).
Proof.
  split; [|intros j; apply parsed_wf]. intros [Hr [g Hg] [Hv Hw] Hd Ho Hi Hs Hopts].
  set (req := filter (fun d => optional d = false) (dependencies (core m))) in *. set (opt := filter (fun d => optional d = true) (dependencies (core m))) in *.
  assert (Forall (fun d => dependency_wf d /\ optional d = false) req /\ Forall (fun d => dependency_wf d /\ optional d = true) opt) as [D8 D9].
  { split; apply list.Forall_forall; intros d [Hd1 Hd2]%list_elem_of_filter; (split; [exact (proj1 (list.Forall_forall _ _) Hd d Hd2)|exact Hd1]). }
  assert (json_find "dependencies" (manifest_json m) = Some (string_array (dependency_text <$> req))) as J8 by reflexivity.
  assert (json_find "optional_dependencies" (manifest_json m) = Some (string_array (dependency_text <$> opt))) as J9 by reflexivity.
  unfold parse_manifest_json.
  repeat (apply and_then_ok; eexists; split; [first [reflexivity|by apply version_field_again|by apply strings_field_again
    |by apply dependencies_again|by apply native_libraries_again|by apply config_schema_again]|]).
  rewrite <- Ho, <- Hi. destruct m as [[id deps v w on] r gs name descr short auth by_id schema libs]. cbn in Hg, Hr |- *. by subst r gs.
Qed.
End Printing.
