(* ===== verification/SampleMods.v ===== *)
(** Concrete mods on which the theorems about mods apply: three mods that need each
    other in a circle, a fourth that needs an older one, and a saved order.  Then a
    mod folder with manifests, whose options are set, saved and read back. *)

From Stdlib Require Import ZArith Lia Bool List String Ascii.
From stdpp Require Import base list gmap strings sorting relations fin_sets.
From S2P Require Import Prelude Floats Json Files FilesSpec ModSections Rom ModManager ModManagerSpec ModOrder ModFiles ModFilesSpec.
Open Scope Z_scope.

Definition ver (a b c : Z) : Version := MkVersion a b c "".
Definition needs (id : string) (least : Version) : Dependency := MkDependency id least false.
Definition mod_of (id : string) (ds : list Dependency) : ModManifest := MkManifest id ds (ver 1 2 0) (ver 1 0 0) false.
Definition types : list ModContentType := [MkContentType true true true true].
Definition no_mods : ModContext := MkContext [] ∅ [] [] ∅ ∅ ∅ ∅ None [] 0.
Definition four_mods : ModContext :=
  foldl (fun c m => add_opened_mod types m [0%nat] [0%nat] c) (register_game "game" no_mods)
    [mod_of "a" [needs "b" (ver 1 0 0)]; mod_of "b" [needs "c" (ver 1 2 0)]; mod_of "c" [needs "a" (ver 0 9 9)];
     mod_of "d" [MkDependency "a" (ver 1 1 9) true]].

Lemma four_mods_exact : auto_exact four_mods.
Proof. intros d. split; [intros H; by apply elem_of_empty in H|]. intros (r & H & _). by apply elem_of_empty in H. Qed.
Lemma four_mods_ok : ids_ok four_mods /\ order_ok four_mods.
Proof.
  assert (forall m games tys c, ids_ok c /\ order_ok c ->
    ids_ok (add_opened_mod types m games tys c) /\ order_ok (add_opened_mod types m games tys c)) as H.
  { intros m games tys c [? ?]. by apply add_opened_mod_ok. }
  unfold four_mods. cbn [foldl]. do 4 apply H. split; [split|].
  - intros id i Hi. vm_compute in Hi. done.
  - intros m Hm. by apply elem_of_nil in Hm.
  - unfold order_ok. done.
Qed.

Definition requests : list (string * bool * bool) :=
  [("d", true, true); ("a", true, true); ("x", true, false); ("d", false, true)].
Lemma toggles_keep_required_witness :
  exists c', toggle_all types requests four_mods = Some c' /\ auto_exact c' /\
  (forall id, is_mod_enabled id c' = true <-> id ∈ toggled_all requests four_mods) /\
  (forall d, is_mod_auto_enabled d c' = true <->
    exists r, is_mod_enabled r c' = true /\ tc (requires four_mods) r d).
Proof. apply (toggles_keep_required types requests four_mods four_mods_exact). Defined.
Example a_needs_itself_through_the_others :
  (c ← toggle_all types requests four_mods; Some (elements (enabled_mods c), elements (auto_enabled_mods c))) =
  Some (["a"%string], ["c"; "a"; "b"]%string).
Proof. vm_compute. reflexivity. Qed.
Lemma move_is_shown : forall j, (j < length (opened_mods four_mods))%nat -> shown "game" four_mods j = true.
Proof. intros j Hj. repeat (destruct j as [|j]; [reflexivity|]). simpl in Hj. lia. Qed.
Lemma set_mod_index_moves_witness : let c' := set_mod_index types "game" "a" 2 four_mods in
  order_ok c' /\ lookup_ok c' /\
  get_mod_order_index 0 c' = Some (2 `min` (length (opened_mods four_mods) - 1))%nat /\
  filter (fun j => j <> 0%nat) (opened_mods_order c') = filter (fun j => j <> 0%nat) (opened_mods_order four_mods).
Proof.
  apply (set_mod_index_moves types "game" "a" 2 four_mods 0); [apply four_mods_ok|reflexivity|simpl; lia|exact move_is_shown].
Defined.

Lemma load_mods_config_restores_witness : exists c',
  load_mods_config types {["b"%string]} ["c"; "a"]%string four_mods = Some c' /\ auto_exact c' /\ order_ok c' /\ lookup_ok c' /\
  enabled_mods c' = list_to_set (picked four_mods {["b"%string]} ["c"; "a"]%string) ∪ enabled_mods four_mods /\
  forall a b, (a < length (opened_mods four_mods))%nat -> (b < length (opened_mods four_mods))%nat ->
    (is_known four_mods ["c"; "a"]%string a = false -> is_known four_mods ["c"; "a"]%string b = false -> (a < b)%nat -> before c' a b) /\
    (is_known four_mods ["c"; "a"]%string a = false -> forall pb, saved_at four_mods ["c"; "a"]%string b pb -> before c' a b) /\
    (forall pa pb, saved_at four_mods ["c"; "a"]%string a pa -> saved_at four_mods ["c"; "a"]%string b pb -> (pa < pb)%nat -> before c' a b).
Proof.
  apply (load_mods_config_restores types {["b"%string]} ["c"; "a"]%string four_mods); [apply four_mods_ok|exact four_mods_exact|reflexivity].
Defined.
Example saved_order_restored :
  (c ← load_mods_config types {["b"%string]} ["c"; "a"]%string four_mods; Some (opened_mods_order c)) = Some [1; 3; 2; 0]%nat.
Proof. vm_compute. reflexivity. Qed.

(** With "a" enabled, and what it needs with it, the load succeeds. *)
Definition ready : ModContext := set_enabled {["a"%string]} {["b"%string; "c"%string]} four_mods.
Lemma load_succeeds_iff_requirements_met_witness :
  let '(errors, c') := load_phases types (ver 1 0 0) false "game" ready in
  (errors = [] <-> requirements_met (ver 1 0 0) ready 0) /\
  (errors = [] -> forall i m, i ∈ active_mods 0 ready -> opened_mods c' !! i = Some m ->
    (dependencies (manifest m) <> [] -> runtime_toggleable m = false) /\
    forall d, d ∈ dependencies (manifest m) -> optional d = false ->
      (exists j m', loaded_mods_by_id c' !! dep_mod_id d = Some j /\ opened_mods c' !! j = Some m' /\
        runtime_toggleable m' = false) /\
      (find (fun d' => bool_decide (dep_mod_id d' = dep_mod_id d)) (dependencies (manifest m)) = Some d ->
       is_dependency_met m (dep_mod_id d) c' = Found)) /\
  (errors <> [] -> loaded_mods_by_id c' = ∅ /\ active_game c' = None).
Proof. apply (load_succeeds_iff_requirements_met types (ver 1 0 0) "game" 0 ready); reflexivity. Defined.
Example loads_ready : fst (load_phases types (ver 1 0 0) false "game" ready) = [].
Proof. vm_compute. reflexivity. Qed.
Example older_dependency_is_an_error :
  fst (load_phases types (ver 1 0 0) false "game" (set_enabled {["b"%string]} ∅ four_mods)) = [("b"%string, MissingDependency "c")].
Proof. vm_compute. reflexivity. Qed.
(** In the view of the game, where the second mod is hidden, the first mod is asked
    to go to position one and stays first. *)
Example hidden_neighbour_spoils_move : place (fun i => negb (i =? 1)%nat) 0 1 [0; 1; 2]%nat = [1; 0; 2]%nat.
Proof. reflexivity. Qed.

(** * Mod files *)

(** Enough of JSON for the documents below: objects, arrays, texts without escapes,
    and null for the rest. *)
Definition bytes_of (s : string) : list Z := (fun c => Z.of_N (N_of_ascii c)) <$> list_ascii_of_string s.
Fixpoint commas (l : list (list Z)) : list Z := match l with [] => [] | [x] => x | x :: l => x ++ 44 :: commas l end.
Fixpoint dump (j : json) : list Z :=
  match j with
  | JString s => 34 :: bytes_of s ++ [34]
  | JObject l => 123 :: commas (map (fun kv => 34 :: bytes_of (fst kv) ++ 34 :: 58 :: dump (snd kv)) l) ++ [125]
  | JArray l => 91 :: commas (map dump l) ++ [93]
  | _ => [110]
  end.
Fixpoint read_text (l : list Z) : option (string * list Z) :=
  match l with
  | [] => None
  | b :: r => if b =? 34 then Some (EmptyString, r) else '(s, r) ← read_text r; Some (String (ascii_of_N (Z.to_N b)) s, r)
  end.
Fixpoint read_json (fuel : nat) (l : list Z) : option (json * list Z) :=
  match fuel with
  | O => None
  | S fuel =>
      match l with
      | 34 :: r => '(s, r) ← read_text r; Some (JString s, r)
      | 110 :: r => Some (JNull, r)
      | 123 :: 125 :: r => Some (JObject [], r)
      | 123 :: r => '(ms, r) ← read_members fuel r; Some (JObject ms, r)
      | 91 :: 93 :: r => Some (JArray [], r)
      | 91 :: r => '(xs, r) ← read_elements fuel r; Some (JArray xs, r)
      | _ => None
      end
  end
with read_members (fuel : nat) (l : list Z) : option (list (string * json) * list Z) :=
  match fuel, l with
  | S fuel, 34 :: r =>
      '(k, r) ← read_text r;
      match r with
      | 58 :: r =>
          '(v, r) ← read_json fuel r;
          match r with
          | 44 :: r => '(ms, r) ← read_members fuel r; Some ((k, v) :: ms, r)
          | 125 :: r => Some ([(k, v)], r)
          | _ => None
          end
      | _ => None
      end
  | _, _ => None
  end
with read_elements (fuel : nat) (l : list Z) : option (list json * list Z) :=
  match fuel with
  | O => None
  | S fuel =>
      '(v, r) ← read_json fuel l;
      match r with
      | 44 :: r => '(xs, r) ← read_elements fuel r; Some (v :: xs, r)
      | 93 :: r => Some ([v], r)
      | _ => None
      end
  end.
Definition read_first (l : list Z) : option json := fst <$> read_json (S (length l)) l.
#[local] Instance sample_text : JsonText :=
  {| json_parse l := match read_json (S (length l)) l with Some (j, []) => Some j | _ => None end; json_read := read_first; json_dump := dump |}.

Definition nan0 (l : list Z) : Z := 0.
Fixpoint plain_id (s : string) : bool :=
  match s with EmptyString => true | String c s => negb (Ascii.eqb c " ") && negb (Ascii.eqb c ":") && plain_id s end.
(** A mod of the game with two options, and one of another game. *)
Definition colour_manifest (game id : string) : json :=
  JObject [("game_id", JString game); ("id", JString id); ("display_name", JString "Colours"); ("version", JString "1.2.0"); ("authors", string_array ["a"]);
             ("description", JString "Changes colours"); ("short_description", JString "Colours");
           ("minimum_recomp_version", JString "1.0.0"); ("dependencies", string_array ["base:0.9.1"; "tools"]);
           ("config_schema", JObject [("options", JArray
             [JObject [("id", JString "hue"); ("name", JString "Hue"); ("type", JString "Enum"); ("options", string_array ["red"; "green"]); ("default", JString "green")];
              JObject [("id", JString "title"); ("name", JString "Title"); ("type", JString "String")]])])]%string.
Definition parsed_colours : outcome manifest_file := parse_manifest_json nan0 plain_id "mods/colours" (colour_manifest "game" "colours").
Definition few_names (o : ConfigOption) : bool := match variant o with Option_enum opts _ => Z.of_nat (length opts) <? 2 ^ 32 | _ => true end.
Lemma colours_parsed : match parsed_colours with
  | inr m => bool_decide (description m = "Changes colours"%string) && forallb few_names (options (config_schema m))
  | inl _ => false
  end = true.
Proof. vm_compute. reflexivity. Qed.
Lemma accepted_manifest_roundtrip_witness : exists m, parsed_colours = inr m /\ description m = "Changes colours"%string /\
  parse_manifest_json nan0 plain_id "mods/colours" (manifest_json m) = inr m.
Proof.
  pose proof colours_parsed as H. destruct parsed_colours as [|m] eqn:E; [discriminate H|]. apply andb_prop in H as [Hd Hl]. exists m. split; [reflexivity|]. split; [by apply bool_decide_eq_true in Hd|].
  destruct (accepted_manifest_roundtrip nan0 plain_id "mods/colours" m) as [R A]. apply R, (A _ E).
  intros o opts i Ho Ev. rewrite forallb_forall in Hl. specialize (Hl o (proj1 (list_elem_of_In _ _) Ho)). unfold few_names in Hl. rewrite Ev in Hl. by apply Z.ltb_lt.
Defined.
Example error_is_explained : parse_manifest_json nan0 plain_id "" (JObject [("game_id", JString "game"); ("id", JNull)]%string) =
  inl (IncorrectManifestFieldType, "id"%string).
Proof. reflexivity. Qed.

(** The mod folder, with the second mod for another game. *)
Definition sample_host (p : string) : path_status :=
  if bool_decide (p ∈ ["mods/colours"; "mods/away"; "mods/hats"]%string) then Directory
  else if bool_decide (p = "mods/colours/mod.json"%string) then Regular (Some (dump (colour_manifest "game" "colours")))
  else if bool_decide (p = "mods/away/mod.json"%string) then Regular (Some (dump (colour_manifest "elsewhere" "hats")))
  else if bool_decide (p = "mods/hats/mod.json"%string) then Regular (Some (dump (colour_manifest "game" "hats")))
  else Missing.
Definition sample_scan (d : disk) (listing : list dir_entry) :=
  scan_mod_folder nan0 plain_id sample_host (fun _ => None) types ["code.bin"%string] "cfg/mod_config" d ∅ listing []
    (MkModFiles (register_game "game" no_mods) [] ∅ ∅ []).
Definition colours_open : mod_files := snd (sample_scan ∅ [Entry_directory "mods/colours"]).
Definition colours_set : mod_files :=
  set_mod_config_value 0 "title" (Value_string "dawn") (set_mod_config_value 0 "hue" (Value_u32 0) (request Queue_save colours_open)).
Abbreviation sample_step := (files_step nan0 plain_id sample_host (fun _ => None) types ["code.bin"%string] "cfg/mod_config" (ver 1 0 0) "cfg/mods.json").
Abbreviation sample_round := (thread_round (ver 1 0 0) "cfg/mod_config" "cfg/mods.json").

Lemma colours_distinct : all_distinct colours_open.
Proof.
  assert ((fun e => option_id <$> options (config_schema (entry_file e))) <$> entries colours_open = [["hue"; "title"]%string]) as E by (vm_compute; reflexivity).
  intros e He. unfold distinct_options. apply (list_elem_of_fmap_2 (fun e => option_id <$> options (config_schema (entry_file e)))) in He.
  rewrite E in He. apply list_elem_of_singleton in He as ->. repeat (apply NoDup_cons_2; [compute_done|]). apply NoDup_nil_2.
Qed.
Lemma colours_steps : rtc sample_step (close_mods_files (MkModFiles (register_game "game" no_mods) [] ∅ ∅ []), idle_thread) (colours_set, idle_thread).
Proof.
  apply rtc_l with (colours_open, idle_thread); [apply (Step_scan _ _ _ _ _ _ _ _ _ ∅ ∅ [Entry_directory "mods/colours"] []), colours_distinct|].
  apply rtc_l with (request Queue_save colours_open, idle_thread); [apply Step_request|].
  apply rtc_l with (set_mod_config_value 0 "hue" (Value_u32 0) (request Queue_save colours_open), idle_thread); [by apply Step_set|].
  by apply rtc_once, Step_set.
Qed.
Lemma options_keep_their_types_witness :
  (forall i e id, entries colours_set !! i = Some e ->
    match option_at (config_schema (entry_file e)) id with
    | Some o => has_type (variant o) (get_mod_config_value i id colours_set) = true
    | None => get_mod_config_value i id colours_set = Monostate
    end) /\
  (forall i e id v j k, entries colours_set !! i = Some e -> get_mod_config_value j k (set_mod_config_value i id v colours_set) =
    match option_at (config_schema (entry_file e)) id with
    | Some o => if accepts (variant o) v && bool_decide (j = i /\ k = id) then v else get_mod_config_value j k colours_set
    | None => get_mod_config_value j k colours_set
    end) /\
  forall faults d, is_Some (sample_round faults colours_set idle_thread d).
Proof. exact (options_keep_their_types _ _ _ _ _ _ _ _ _ _ _ _ colours_steps). Defined.
Example colours_values : (fun id => get_mod_config_value 0 id colours_set) <$> ["hue"; "title"; "size"]%string =
  [Value_u32 0; Value_string "dawn"; Monostate].
Proof. vm_compute. reflexivity. Qed.
Example default_values : (fun id => get_mod_config_value 0 id colours_open) <$> ["hue"; "title"]%string = [Value_u32 1; Value_string ""].
Proof. vm_compute. reflexivity. Qed.

(** A document is read back whole and no part of its text is. *)
Definition printed_well (j : json) : bool :=
  forallb (fun n => negb (bool_decide (is_Some (read_first (take n (dump j)))))) (seq 0 (length (dump j))).
Lemma printed_well_ok j : read_first (dump j) = Some (as_written j) -> printed_well j = true -> well_printed j.
Proof.
  intros Hr Hp. split; [exact Hr|]. intros n Hn. change (read_first (take n (dump j)) = None). unfold printed_well in Hp. rewrite forallb_forall in Hp.
  specialize (Hp n). rewrite in_seq in Hp. specialize (Hp ltac:(change json_dump with dump in Hn; lia)).
  apply negb_true_iff, bool_decide_eq_false, eq_None_not_Some in Hp. exact Hp.
Qed.
Lemma colours_path_apart id : config_path "cfg/mod_config" id <> "cfg/mods.json"%string.
Proof.
  unfold config_path, path_join. destruct (id +:+ ".json")%string as [|c p]; [discriminate|].
  destruct c as [[] [] [] [] [] [] [] []]; discriminate.
Qed.

Definition colours_document (hue title : string) : json :=
  JObject [("mod_id", JString "colours"); ("mod_version", JString "1.2.0"); ("recomp_version", JString "1.0.0");
           ("storage", JObject [("title", JString title); ("hue", JString hue)])]%string.
Definition colours_entry : option mod_entry := entry_of colours_set "colours".
Example colours_written : (e ← colours_entry; config_json (ver 1 0 0) "colours" (version (core (entry_file e))) (config_schema (entry_file e)) (config_storage e)) =
  Some (colours_document "red" "dawn").
Proof. vm_compute. reflexivity. Qed.
Example colours_kinds : (e ← colours_entry; Some (variant <$> options (config_schema (entry_file e)))) =
  Some [Option_enum ["red"; "green"]%string 1; Option_string ""].
Proof. vm_compute. reflexivity. Qed.
Example colours_kept : (e ← colours_entry; Some (kept (config_storage e))) = Some (<["hue"%string := Value_u32 0]> {["title"%string := Value_string "dawn"]}).
Proof. vm_compute. reflexivity. Qed.
Lemma colours_names e : colours_entry = Some e -> distinct_names (config_schema (entry_file e)).
Proof.
  intros E o opts i Ho Hv. pose proof colours_kinds as K. rewrite E in K. cbn [mbind option_bind] in K. injection K as K.
  apply (list_elem_of_fmap_2 variant) in Ho. rewrite K, Hv in Ho. apply elem_of_cons in Ho as [[= -> ->]|Ho].
  - split; [|reflexivity]. repeat (apply NoDup_cons_2; [compute_done|]). apply NoDup_nil_2.
  - by apply list_elem_of_singleton in Ho.
Qed.
Lemma colours_ok : system_ok (colours_set, idle_thread).
Proof. eapply steps_ok; [exact colours_steps|apply start_ok]. Qed.
Lemma colours_queue : mod_configuration_thread_queue colours_set = [Queue_save; Queue_save_mod "colours"; Queue_save_mod "colours"].
Proof. vm_compute. reflexivity. Qed.
Lemma colours_pending id : Queue_save_mod id ∈ mod_configuration_thread_queue colours_set \/ id ∈ pending_mods idle_thread -> id = "colours"%string.
Proof.
  rewrite colours_queue. change (pending_mods idle_thread) with (∅ : gset string). set_solver.
Qed.
Lemma document_printed hue title : (hue, title) ∈ [("red", "dawn"); ("green", "dusk")]%string -> well_printed (colours_document hue title).
Proof. rewrite !elem_of_cons, elem_of_nil. intros [[= -> ->]|[[= -> ->]|[]]]; (apply printed_well_ok; [vm_compute; reflexivity|vm_compute; reflexivity]). Qed.
Lemma saved_options_are_restored_witness : exists s' t' d' e,
  sample_round (fun _ => no_faults) colours_set idle_thread ∅ = Some (s', t', d') /\ colours_entry = Some e /\
  snd (load_mod_config_storage nan0 (config_path "cfg/mod_config" "colours") "colours" (config_schema (entry_file e)) d') = kept (config_storage e) /\
  parse_mods_config "cfg/mods.json" d' = (true, (∅, ["colours"%string])).
Proof.
  destruct (saved_options_are_restored nan0 (ver 1 0 0) "cfg/mod_config" "cfg/mods.json" colours_set idle_thread ∅) as (s' & t' & d' & E & _ & _ & Hm & Hl).
  - reflexivity.
  - rewrite colours_queue. clear. set_solver.
  - apply system_entries_ok with idle_thread. exact colours_ok.
  - apply colours_ok.
  - by exists "cfg/mods"%string.
  - exact colours_path_apart.
  - pose proof colours_written as W. destruct colours_entry as [e|] eqn:Ee; [|done]. cbn [mbind option_bind] in W.
    pose proof colours_ok as (Hf & Hd & _). pose proof (entry_of_elem _ _ _ Ee) as Hin.
    exists s', t', d', e. split; [exact E|]. split; [done|]. split.
    + apply Hm; [left; rewrite colours_queue; right; left|exact Ee|..].
      * by apply (proj1 (list.Forall_forall _ _) (ok_entries _ Hf) e Hin).
      * by apply Hd.
      * by apply colours_names.
      * intros id Hid N. destruct (N (colours_pending id Hid)).
      * intros j Ej. rewrite W in Ej. injection Ej as <-. apply document_printed. left.
    + rewrite Hl; [vm_compute; reflexivity..|]. apply printed_well_ok; vm_compute; reflexivity.
Defined.

(** Values saved earlier, and new ones whose saving is cut short. *)
Definition colours_path : string := config_path "cfg/mod_config" "colours".
Definition earlier_values : gmap string ConfigValueVariant := <["hue"%string := Value_u32 1]> {["title"%string := Value_string "dusk"]}.
Definition earlier_disk : disk := {[colours_path := dump (colours_document "green" "dusk")]}.
Example earlier_written : (e ← colours_entry; config_json (ver 1 0 0) "colours" (ver 1 2 0) (config_schema (entry_file e)) earlier_values) =
  Some (colours_document "green" "dusk").
Proof. vm_compute. reflexivity. Qed.
Example colours_options : (e ← colours_entry;
    Some (variant <$> option_at (config_schema (entry_file e)) "hue", variant <$> option_at (config_schema (entry_file e)) "title")) =
  Some (Some (Option_enum ["red"; "green"]%string 1), Some (Option_string "")).
Proof. vm_compute. reflexivity. Qed.
Lemma earlier_ok e : colours_entry = Some e -> storage_ok (config_schema (entry_file e)) earlier_values.
Proof.
  intros E id v Hv. pose proof colours_options as K. rewrite E in K. cbn [mbind option_bind] in K. injection K as K1 K2.
  apply fmap_Some in K1 as (o1 & E1 & V1). apply fmap_Some in K2 as (o2 & E2 & V2).
  unfold earlier_values in Hv. apply lookup_insert_Some in Hv as [[<- <-]|[_ [<- <-]%lookup_singleton_Some]].
  - exists o1. split; [exact E1|]. by rewrite <- V1.
  - exists o2. split; [exact E2|]. by rewrite <- V2.
Qed.
Lemma options_survive_crashes_witness : exists e w, colours_entry = Some e /\
  save_mod_config_storage (ver 1 0 0) no_faults colours_path "colours" (version (core (entry_file e))) (config_schema (entry_file e)) (config_storage e) = Some w /\
  forall n, let loaded := snd (load_mod_config_storage nan0 colours_path "colours" (config_schema (entry_file e)) (run_ops (take n (snd (w earlier_disk))) earlier_disk)) in
    loaded = kept earlier_values \/ loaded = kept (config_storage e).
Proof.
  pose proof colours_written as W. pose proof earlier_written as P. destruct colours_entry as [e|] eqn:Ee; [|clear - W; done]. cbn [mbind option_bind] in W, P.
  pose proof colours_ok as (Hf & Hd & _). pose proof (entry_of_elem _ _ _ Ee) as Hin.
  assert (save_mod_config_storage (ver 1 0 0) no_faults colours_path "colours" (version (core (entry_file e))) (config_schema (entry_file e)) (config_storage e) =
    Some (write_json no_faults colours_path (colours_document "red" "dawn"))) as Hw by (unfold save_mod_config_storage; by rewrite W).
  eexists e, _. split; [reflexivity|]. split; [exact Hw|]. intros n.
  apply (options_survive_crashes nan0 (ver 1 0 0) no_faults earlier_disk colours_path "colours" (ver 1 2 0) (version (core (entry_file e))) _ _ _ _ n);
    [|by apply Hd|by apply colours_names|by apply earlier_ok|by apply (system_entries_ok _ _ colours_ok)|exact Hw|..].
  - by apply (proj1 (list.Forall_forall _ _) (ok_entries _ Hf) e Hin).
  - intros j Ej. rewrite P in Ej. injection Ej as <-. split; [vm_compute; reflexivity|]. apply document_printed. right. left.
  - intros j Ej. rewrite W in Ej. injection Ej as <-. apply document_printed. left.
Defined.

(** The id of a mod for another game stays taken: a mod of this game that has it is
    told to be a duplicate. *)
Example wrong_game_takes_the_id : fst (sample_scan ∅ [Entry_directory "mods/away"; Entry_directory "mods/hats"]) =
  [("mods/away", WrongGame, "elsewhere"); ("mods/hats", DuplicateMod, "hats")]%string.
Proof. vm_compute. reflexivity. Qed.
Example right_game_opens : fst (sample_scan ∅ [Entry_directory "mods/hats"; Entry_directory "mods/away"]) = [("mods/away", DuplicateMod, "hats")]%string.
Proof. vm_compute. reflexivity. Qed.
(** Values that were set and not saved yet are lost when the mods are scanned again. *)
Definition colours_rescanned : mod_files :=
  snd (scan_mod_folder nan0 plain_id sample_host (fun _ => None) types ["code.bin"%string] "cfg/mod_config" ∅ ∅ [Entry_directory "mods/colours"] [] colours_set).
Example rescan_loses_values : get_mod_config_value_by_id "colours" "hue" colours_set = Value_u32 0 /\
  get_mod_config_value_by_id "colours" "hue" colours_rescanned = Value_u32 1 /\
  ('(_, _, d) ← sample_round (fun _ => no_faults) colours_rescanned idle_thread ∅; d !! colours_path ≫= read_first) =
    Some (JObject [("mod_id", JString "colours"); ("mod_version", JString "1.2.0"); ("recomp_version", JString "1.0.0"); ("storage", JNull)])%string.
Proof. vm_compute. split; [|split]; reflexivity. Qed.
(** Two options share an id: what the second reads is printed as the first, which
    throws. *)
Definition twice : ConfigSchema := schema_of [MkOption "hue" "Hue" "" (Option_enum ["red"%string] 0); MkOption "hue" "Hue" "" (Option_string "")].
Definition twice_disk : disk := {["cfg/mod_config/t.json"%string :=
  dump (JObject [("mod_id", JString "t"); ("storage", JObject [("hue"%string, JString "blue")])]%string)]}.
Example repeated_option_throws :
  config_json (ver 1 0 0) "t" (ver 1 0 0) twice (snd (load_mod_config_storage nan0 "cfg/mod_config/t.json" "t" twice twice_disk)) = None.
Proof. vm_compute. reflexivity. Qed.
(** The request to end overtakes the ones to save. *)
Example last_values_are_not_saved : (option_map (fun '(_, _, d) => d) (sample_round (fun _ => no_faults) (request Queue_end colours_set) idle_thread ∅)) = Some ∅.
Proof. vm_compute. reflexivity. Qed.
(** Ids are paths, and one that is absolute leaves the directory. *)
Example id_leaves_the_directory : config_path "cfg/mod_config" "/tmp/x" = "/tmp/x.json"%string /\ config_path "cfg/mod_config" "../mods" = "cfg/mod_config/../mods.json"%string.
Proof. split; reflexivity. Qed.
