(* ===== verification/Tiers.v ===== *)
(** Missing functions: librecomp/src/overlays.cpp, what runs when a guest address
    has no recompiled function.

    [get_function] then gives the caller a trampoline, which tries in turn: the
    recompiled function around the address, a compilation of the code in guest
    memory, native code that was compiled for these very bytes and agreed with the
    interpreter often enough, and the interpreter; if none can run the function the
    program aborts.

    Recompiled and compiled code, the interpreter's loop, the finder of function
    bounds and the compiler are parameters.  The world is what one game thread
    sees; [trail] is a history of the fragment tier that the code does not keep,
    written where it updates its counters.  Printing and the dumps are left out. *)

From Stdlib Require Import ZArith Lia Bool List String Ascii.
From stdpp Require Import base list gmap strings.
From S2P Require Import Prelude Floats Json GuestMem Rdram Overlays Fragments.
Open Scope Z_scope.
Open Scope list_scope.

(** * Data *)

(** What this file uses of the register context. *)
Record recomp_context (X : Type) := Context_ {
  gpr : list Z; fpr_u64 : list Z; hi : Z; lo : Z;
  dispatch_entry_target : Z; dispatch_entry_rejected : Z; dispatch_entry_rejected_target : Z; rest : X }.
Arguments Context_ {X}.
Arguments gpr {X}.
Arguments fpr_u64 {X}.
Arguments hi {X}.
Arguments lo {X}.
Arguments dispatch_entry_target {X}.
Arguments dispatch_entry_rejected {X}.
Arguments dispatch_entry_rejected_target {X}.
Arguments rest {X}.

(** librecomp/include/librecomp/sections.h. *)
Inductive RelocEntryType := R_MIPS_NONE | R_MIPS_16 | R_MIPS_32 | R_MIPS_REL32 | R_MIPS_26 | R_MIPS_HI16 | R_MIPS_LO16 | R_MIPS_GPREL16.
Record RelocEntry := MkRelocEntry { reloc_offset : Z; target_section_offset : Z; target_section : Z; reloc_type : RelocEntryType }.

Inductive match_kind := Match_none | Match_runtime | Match_link.
Inductive classification := Unknown | No_sections | Pointer_site | Code_entry | Outside_loaded.
Record LookupCapture := MkCapture {
  missed_addr : Z; hit_count : Z; kind : match_kind; section_index : nat; link_base : Z; runtime_base : Z; section_size : Z;
  offset_in_section : Z; capture_hash : Z; capture_pattern_id : Z; load_order : Z; offset_is_known_func : bool;
  reloc : option RelocEntry; class : classification }.

Inductive InterpReason := REASON_REJECT | REASON_DEVICE | REASON_FRAG | REASON_FLOOR.
Record InterpFallback := MkFallback {
  reason : InterpReason; chronic_logged : bool; first_frame : Z; last_frame : Z; distinct_frames : Z; fallback_hits : Z }.
(** A line of interp_fallbacks.jsonl. *)
Inductive interp_event := New | Chronic.
Record log_line := MkLine { line_event : interp_event; line_addr : Z; line_fallback : InterpFallback }.

Record FragmentCandidate (F : Type) := MkCandidate {
  cand_addr : Z; content_hash : Z; code_lo : Z; code_len : Z; fn : option F; diff_passes : Z; device_touch : bool; blacklisted : bool }.
Arguments MkCandidate {F}.
Arguments cand_addr {F}.
Arguments content_hash {F}.
Arguments code_lo {F}.
Arguments code_len {F}.
Arguments fn {F}.
Arguments diff_passes {F}.
Arguments device_touch {F}.
Arguments blacklisted {F}.
Definition with_fn {F} (f : option F) (c : FragmentCandidate F) : FragmentCandidate F :=
  MkCandidate (cand_addr c) (content_hash c) (code_lo c) (code_len c) f (diff_passes c) (device_touch c) (blacklisted c).
Definition with_passes {F} (n : Z) (c : FragmentCandidate F) : FragmentCandidate F :=
  MkCandidate (cand_addr c) (content_hash c) (code_lo c) (code_len c) (fn c) n (device_touch c) (blacklisted c).
Definition pinned {F} (c : FragmentCandidate F) : FragmentCandidate F :=
  MkCandidate (cand_addr c) (content_hash c) (code_lo c) (code_len c) (fn c) (diff_passes c) true (blacklisted c).

Record ShadowDiffOutcome := Outcome { interp_ok : bool; outcome_device_touch : bool; ran_native : bool; clean : bool }.

(** The counters. *)
Inductive counter := Static_hits | Lookup_misses | Self_heals | Self_heal_misses | Dispatch_entry_rejects | Jit_compiles | Jit_failures
  | Interp_runs | Frag_candidates | Frag_reloaded | Frag_diff_clean | Frag_diff_diverge | Frag_device_touch | Frag_promoted | Frag_native_runs.
#[export] Instance counter_eq_dec : EqDecision counter.
Proof. solve_decision. Defined.

(** What happened to the candidate of an address and a content. *)
Inductive frag_event := Diffed (addr hash : Z) (clean : bool) | Pinned (addr hash : Z) | Ran_native (addr hash : Z).

(** * Texts *)

(** [%0nX]. *)
Definition hex_digit (d : Z) : ascii := ascii_of_N (Z.to_N (if d <? 10 then 48 + d else 55 + d)).
Fixpoint hex_digits (n : nat) (v : Z) : string :=
  match n with O => EmptyString | S k => String (hex_digit (v / 16 ^ Z.of_nat k mod 16)) (hex_digits k v) end.

(** [strtoull(s, nullptr, 0)]. *)
Definition digit_value (c : ascii) : Z :=
  let n := Z.of_N (N_of_ascii c) in
  if (48 <=? n) && (n <=? 57) then n - 48 else if (65 <=? n) && (n <=? 90) then n - 55 else if (97 <=? n) && (n <=? 122) then n - 87 else 99.
Fixpoint read_digits (base acc : Z) (s : string) : Z :=
  match s with
  | String c s' => let d := digit_value c in if d <? base then read_digits base (acc * base + d) s' else acc
  | EmptyString => acc
  end.
Definition is_space (c : ascii) : bool := let n := N_of_ascii c in ((n =? 32) || ((9 <=? n) && (n <=? 13)))%N.
Fixpoint skip_spaces (s : string) : string :=
  match s with String c s' => if is_space c then skip_spaces s' else s | EmptyString => s end.
Definition read_magnitude (s : string) : Z :=
  match s with
  | String "0"%char (String ("x" | "X")%char (String c _ as h)) => if digit_value c <? 16 then read_digits 16 0 h else 0
  | String "0"%char s' => read_digits 8 0 s'
  | _ => read_digits 10 0 s
  end.
Definition strtoull (s : string) : Z :=
  let clamp v := Z.min v (2 ^ 64 - 1) in
  match skip_spaces s with
  | String "-"%char s' => let v := read_magnitude s' in if v <? 2 ^ 64 then u64 (- v) else 2 ^ 64 - 1
  | String "+"%char s' => clamp (read_magnitude s')
  | s' => clamp (read_magnitude s')
  end.

(** * The environment's switches *)

Record settings := MkSettings {
  jit_tier_enabled : bool; frag_jit_enabled : bool; frag_native_enabled : bool; frag_cache_enabled : bool;
  interp_enabled : bool; interp_discovery_enabled : bool; frag_diff_budget : Z }.
Definition starts_with (cs : list ascii) (v : option string) : bool :=
  match v with Some (String c _) => bool_decide (c ∈ cs) | _ => false end.
(** [strtoul] reads base ten. *)
Definition read_settings (strtoul : string -> Z) (getenv : string -> option string) : settings :=
  let off name := starts_with ["0"; "n"; "N"; "f"; "F"]%char (getenv name) in
  let b := from_option (fun v => u32 (strtoul v)) 0 (getenv "PSR_FRAG_DIFF_BUDGET") in
  MkSettings (negb (off "PSR_JIT_TIER")) (negb (off "PSR_FRAG_JIT")) (negb (off "PSR_FRAG_NATIVE"))
    (negb (starts_with ["0"]%char (getenv "PSR_FRAG_CACHE")))
    (negb (starts_with ["0"; "n"; "N"]%char (getenv "PSR_INTERP_TIER")))
    (starts_with ["1"; "y"; "Y"]%char (getenv "PSR_INTERP_DISCOVERY"))
    (if b =? 0 then 8 else b).

(** * The code of a function in guest memory *)

(** [rdram[(paddr + i) ^ 3]] from the physical address of [addr] on. *)
Definition guest_byte (m : hostmem) (p : Z) : Z := u8 (hbyte m (Z.lxor (u32 p) 3)).
Definition code_bytes (m : hostmem) (addr len : Z) : list Z := (fun i => guest_byte m (Z.land addr 0x1FFFFFFF + i)) <$> seqZ 0 len.
Definition fragment_live_code_hash (m : hostmem) (addr len : Z) : Z := fnv1a_64 (code_bytes m addr len).

Definition code_word (m : hostmem) (addr off : Z) : Z :=
  foldl (fun w b => Z.lor (u32 (Z.shiftl w 8)) (guest_byte m (u32 (Z.land addr 0x1FFFFFFF + off) + b))) 0 (seqZ 0 4).
Definition leaves_function (code_lo code_len off w : Z) : bool :=
  let op := Z.shiftr w 26 in
  let fn := Z.land w 0x3F in
  let tgt := Z.lor (Z.land (u32 (code_lo + off)) 0xF0000000) (Z.shiftl (Z.land w 0x03FFFFFF) 2) in
  (op =? 0x03) || ((op =? 0x02) && ((tgt <? code_lo) || (tgt >=? u32 (code_lo + code_len))))
  || ((op =? 0x00) && ((fn =? 0x09) || ((fn =? 0x08) && negb (Z.land (Z.shiftr w 21) 0x1F =? 31)))).
Definition fragment_is_safe_leaf (m : hostmem) (code_lo code_len : Z) : bool :=
  forallb (fun k => negb (leaves_function code_lo code_len (4 * k) (code_word m code_lo (4 * k)))) (seqZ 0 (code_len / 4)).

(** * Snapshots of the first 8 MiB *)

Definition RAM : Z := 0x800000.
Definition in_ram (p : Z) : bool := (0 <=? p) && (p <? RAM).
(** [memcpy(dst, src, RAM)] and [memcmp(a, b, RAM) == 0]. *)
Definition copy_ram (src dst : hostmem) : hostmem :=
  filter (fun kv : Z * Z => in_ram (fst kv) = true) src ∪ filter (fun kv : Z * Z => in_ram (fst kv) = false) dst.
Definition ram_equal (a b : hostmem) : bool :=
  forallb (fun kv : Z * Z => negb (in_ram (fst kv)) || (hbyte a (fst kv) =? hbyte b (fst kv))) (map_to_list a ++ map_to_list b).

Definition shadow_regs_equal {X} (a b : recomp_context X) : bool :=
  forallb (fun i => nth i (gpr a) 0 =? nth i (gpr b) 0) (seq 1 31) &&
  forallb (fun i => nth i (fpr_u64 a) 0 =? nth i (fpr_u64 b) 0) (seq 0 32) && (hi a =? hi b) && (lo a =? lo b).

(** * The world of one game thread *)

Record telemetry := MkTelemetry {
  counts : counter -> Z; g_interp_fb : gmap Z InterpFallback; interp_log : list log_line; g_lookup_captures : gmap Z LookupCapture }.
Record thread_locals := MkThread {
  g_self_heal_addr : Z; g_reject_interp_depth : Z; t_shadow_active : bool; t_shadow_touched_native : bool }.
(** [g_jit_entries] as the functions kept alive; [fragment_manifest] is the list
    of candidates in coverage/fragment_manifest.json. *)
Record fragment_tier (F : Type) := MkTier {
  g_jit_entries : list F; g_evicted_funcs : gmap Z F; g_frag_cands : gmap Z (list (FragmentCandidate F));
  fragment_manifest : option (list (FragmentCandidate F)); trail : list frag_event }.
Arguments MkTier {F}.
Arguments g_jit_entries {F}.
Arguments g_evicted_funcs {F}.
Arguments g_frag_cands {F}.
Arguments fragment_manifest {F}.
Arguments trail {F}.
(** [host] is what else recompiled code can change: devices, other threads, memory
    outside [rdram]. *)
Record world (F H X : Type) := MkWorld {
  ctx : recomp_context X; rdram : hostmem; overlays : overlay_state F; host : H;
  tier : fragment_tier F; stats : telemetry; thread : thread_locals }.
Arguments MkWorld {F H X}.
Arguments ctx {F H X}.
Arguments rdram {F H X}.
Arguments overlays {F H X}.
Arguments host {F H X}.
Arguments tier {F H X}.
Arguments stats {F H X}.
Arguments thread {F H X}.

(** Which tier ran the function. *)
Inductive served := Self_healed | Reject_interpreted | Jit_compiled | Restored | Native | Validated (o : ShadowDiffOutcome) | Device_pinned
  | Floor | Discovered.
Inductive callee (F : Type) := Recompiled (f : F) | Trampoline.
Arguments Recompiled {F}.
Arguments Trampoline {F}.

(** The comparison of compiled with recompiled code; the recompiled function of an
    entry is the one of the map, so never null. *)
Inductive AbState := PendingCompile | Armed | Skip.
Record AbEntry (F : Type) := MkAb { static_fn : F; tcc_fn : option F; ab_state : AbState; runs : Z; diverge : Z }.
Arguments MkAb {F}.
Arguments static_fn {F}.
Arguments tcc_fn {F}.
Arguments ab_state {F}.
Arguments runs {F}.
Arguments diverge {F}.
Record ab_tools (F : Type) := MkAbTools {
  g_ab_entries : gmap Z (AbEntry F); g_ab_armed_count : Z; g_ab_total_runs : Z; g_ab_total_clean : Z; g_ab_total_diverge : Z;
  g_ab_compile_fail : Z; g_ab_nonleaf_skip : Z }.
Arguments MkAbTools {F}.
Arguments g_ab_entries {F}.
Arguments g_ab_armed_count {F}.
Arguments g_ab_total_runs {F}.
Arguments g_ab_total_clean {F}.
Arguments g_ab_total_diverge {F}.
Arguments g_ab_compile_fail {F}.
Arguments g_ab_nonleaf_skip {F}.

Section Tiers.
Context {F H X : Type}.
Abbreviation world := (world F H X).
Abbreviation candidate := (FragmentCandidate F).
Abbreviation tier_t := (fragment_tier F).

Definition set_ctx (c : recomp_context X) (w : world) : world := MkWorld c (rdram w) (overlays w) (host w) (tier w) (stats w) (thread w).
Definition set_rdram (m : hostmem) (w : world) : world := MkWorld (ctx w) m (overlays w) (host w) (tier w) (stats w) (thread w).
Definition set_overlays (s : overlay_state F) (w : world) : world := MkWorld (ctx w) (rdram w) s (host w) (tier w) (stats w) (thread w).
Definition set_tier (t : tier_t) (w : world) : world := MkWorld (ctx w) (rdram w) (overlays w) (host w) t (stats w) (thread w).
Definition set_stats (t : telemetry) (w : world) : world := MkWorld (ctx w) (rdram w) (overlays w) (host w) (tier w) t (thread w).
Definition set_thread (t : thread_locals) (w : world) : world := MkWorld (ctx w) (rdram w) (overlays w) (host w) (tier w) (stats w) t.

Definition set_cands (c : gmap Z (list candidate)) (t : tier_t) : tier_t :=
  MkTier (g_jit_entries t) (g_evicted_funcs t) c (fragment_manifest t) (trail t).
Definition set_evicted (e : gmap Z F) (t : tier_t) : tier_t :=
  MkTier (g_jit_entries t) e (g_frag_cands t) (fragment_manifest t) (trail t).
Definition set_trail (tr : list frag_event) (t : tier_t) : tier_t :=
  MkTier (g_jit_entries t) (g_evicted_funcs t) (g_frag_cands t) (fragment_manifest t) tr.
Definition record_event (e : frag_event) (w : world) : world := set_tier (set_trail (trail (tier w) ++ [e]) (tier w)) w.

Definition bump (c : counter) (w : world) : world :=
  let s := stats w in
  set_stats (MkTelemetry (fun d => if decide (d = c) then u64 (counts s d + 1) else counts s d) (g_interp_fb s) (interp_log s) (g_lookup_captures s)) w.

Definition set_active (b : bool) (w : world) : world :=
  let t := thread w in set_thread (MkThread (g_self_heal_addr t) (g_reject_interp_depth t) b (t_shadow_touched_native t)) w.
Definition set_touched (b : bool) (w : world) : world :=
  let t := thread w in set_thread (MkThread (g_self_heal_addr t) (g_reject_interp_depth t) (t_shadow_active t) b) w.
Definition set_reject_depth (d : Z) (w : world) : world :=
  let t := thread w in set_thread (MkThread (g_self_heal_addr t) d (t_shadow_active t) (t_shadow_touched_native t)) w.
Definition set_self_heal_addr (a : Z) (w : world) : world :=
  let t := thread w in set_thread (MkThread a (g_reject_interp_depth t) (t_shadow_active t) (t_shadow_touched_native t)) w.

(** * Accounting *)

(** The frame counter is another thread's; [N64_INTERP_CHRONIC_FRAMES] is 30. *)
Context (total_vis : H -> Z).
Definition note_interp_fallback (addr : Z) (r : InterpReason) (w : world) : world :=
  let w := bump Interp_runs w in
  let s := stats w in
  let frame := total_vis (host w) in
  let '(fb, lines) :=
    match g_interp_fb s !! addr with
    | None => let fb := MkFallback r false frame frame 1 1 in (fb, [MkLine New addr fb])
    | Some fb =>
        let distinct := if frame =? last_frame fb then distinct_frames fb else u64 (distinct_frames fb + 1) in
        let chronic := negb (chronic_logged fb) && (frame >=? u64 (first_frame fb + 30)) in
        let fb := MkFallback (reason fb) (chronic_logged fb || chronic) (first_frame fb) frame distinct (u64 (fallback_hits fb + 1)) in
        (fb, if chronic then [MkLine Chronic addr fb] else [])
    end in
  set_stats (MkTelemetry (counts s) (<[addr := fb]> (g_interp_fb s)) (interp_log s ++ lines) (g_lookup_captures s)) w.

Context (code_sections : list (SectionTableEntry F)) (section_relocs : nat -> list RelocEntry).
Abbreviation sec := (Overlays.sec code_sections).

Definition classify_at (addr : Z) (w : world) (l : LoadedSection) : option LookupCapture :=
  let i := section_table_index l in
  let e := sec i in
  let runtime := u32 (loaded_ram_addr l) in
  let inside base := (base <=? addr) && (addr <? u32 (base + size e)) in
  if negb (inside runtime) && negb (inside (ram_addr e)) then None
  else
    let off := if inside runtime then addr - runtime else addr - ram_addr e in
    let r := find (fun r => reloc_offset r =? off) (section_relocs i) in
    Some (MkCapture addr 0 (if inside runtime then Match_runtime else Match_link) i (ram_addr e) runtime (size e) off
      (Overlays.content_hash e) (original_pattern_id e) (get_load_order i (overlays w)) (existsb (fun f => offset f =? off) (funcs e))
      r (if r is Some _ then Pointer_site else Code_entry)).
Definition no_capture (addr : Z) (c : classification) : LookupCapture :=
  MkCapture addr 0 Match_none 0 0 0 0 0 0 0xFFFFFFFF 0 false None c.
Definition classify_lookup_capture (addr : Z) (w : world) : LookupCapture :=
  match code_sections with
  | [] => no_capture addr No_sections
  | _ => default (no_capture addr Outside_loaded) (first_some (classify_at addr w) (loaded_sections (overlays w)))
  end.
Definition hit (c : LookupCapture) : LookupCapture :=
  MkCapture (missed_addr c) (u64 (hit_count c + 1)) (kind c) (section_index c) (link_base c) (runtime_base c) (section_size c)
    (offset_in_section c) (capture_hash c) (capture_pattern_id c) (load_order c) (offset_is_known_func c) (reloc c) (class c).
Definition capture_miss (addr : Z) (w : world) : world :=
  let s := stats w in
  let c := hit (default (classify_lookup_capture addr w) (g_lookup_captures s !! addr)) in
  set_stats (MkTelemetry (counts s) (g_interp_fb s) (interp_log s) (<[addr := c]> (g_lookup_captures s))) w.

Context (cfg : settings).
Definition recomp_capture_interp_target (addr : Z) (w : world) : world :=
  if negb (interp_discovery_enabled cfg) then w
  else match func_map (overlays w) !! s32 addr with Some _ => w | None => capture_miss addr w end.

(** [get_function]; the trampoline finds the address in [g_self_heal_addr]. *)
Definition get_function (addr : Z) (w : world) : callee F * world :=
  match func_map (overlays w) !! addr with
  | Some f => (Recompiled f, bump Static_hits w)
  | None => (Trampoline, set_self_heal_addr (u32 addr) (capture_miss (u32 addr) (bump Lookup_misses w)))
  end.

(** * The recompiled function around an address *)

Definition addr_in_resident_static_section (addr : Z) : bool :=
  existsb (fun e => negb (is_synthetic_addr (ram_addr e)) && (0x80000000 <=? ram_addr e) && (ram_addr e <? 0x80800000) &&
    (ram_addr e <=? addr) && (addr <? u32 (ram_addr e + size e))) code_sections.

Definition enclosing_base (addr : Z) (l : LoadedSection) : option (Z * Z) :=
  let e := sec (section_table_index l) in
  let runtime := u32 (loaded_ram_addr l) in
  let link := if is_synthetic_addr (ram_addr e) then default (ram_addr e) (section_original_fragment_base e) else ram_addr e in
  let inside base := (base <=? addr) && (addr <? u32 (base + size e)) in
  if inside link then Some (link, link) else if inside runtime then Some (runtime, link)
  else if inside (ram_addr e) then Some (ram_addr e, link) else None.
Definition enclosing_in (addr : Z) (l : LoadedSection) : option (F * Z * Z) :=
  '(base, link) ← enclosing_base addr l;
  let off := addr - base in
  first_some (fun fe => f ← func fe;
    if (offset fe <=? off) && (off <? u32 (offset fe + rom_size fe)) then Some (f, u32 (link + off), u32 (link + offset fe)) else None)
    (funcs (sec (section_table_index l))).
Definition find_resident_enclosing_function (addr : Z) (w : world) : option (F * Z * Z) :=
  first_some (enclosing_in addr) (loaded_sections (overlays w)).

(** * Compilation *)

(** [N64Recomp::discover_function_bounds] on a window of code, and the compiler on
    the words of the function: no result when it fails, faults, or is abandoned
    because it takes too long. *)
Context (discover_function_bounds : list Z -> Z -> option Z) (codegen_function : list Z -> Z -> option F).

Definition function_window (addr : Z) : Z :=
  let pbase := Z.land addr 0x1FFFFFFF in if pbase + 0x8000 >? RAM then RAM - pbase else 0x8000.
Definition discover (addr : Z) (m : hostmem) : option Z :=
  let window := function_window addr in
  if window <? 8 then None
  else
    size ← discover_function_bounds (code_bytes m addr window) addr;
    if (size >=? 8) && (Z.land size 3 =? 0) && (size <=? window) then Some size else None.
Fixpoint words_of (l : list Z) : list Z :=
  match l with
  | b0 :: b1 :: b2 :: b3 :: l => Z.lor (Z.lor b0 (Z.shiftl b1 8)) (Z.lor (Z.shiftl b2 16) (Z.shiftl b3 24)) :: words_of l
  | _ => []
  end.
(** The function compiled and kept, and its size. *)
Definition jit_compile_function (vram : Z) (register_in_map : bool) (w : world) : option (F * Z) * world :=
  if (vram <? 0x80000000) || (vram >=? 0x80800000) then (None, w)
  else
    match (size ← discover vram (rdram w); f ← codegen_function (words_of (code_bytes (rdram w) vram size)) vram; Some (f, size)) with
    | None => (None, w)
    | Some (f, size) =>
        let t := tier w in
        let w := set_tier (MkTier (g_jit_entries t ++ [f]) (g_evicted_funcs t) (g_frag_cands t) (fragment_manifest t) (trail t)) w in
        let w := if register_in_map then set_overlays (set_map (<[s32 vram := f]> (func_map (overlays w))) (overlays w)) w else w in
        (Some (f, size), w)
    end.

(** * Running guest code

    [guest f handler] is a recompiled or compiled function, which calls back for
    every function it looks up; [interp native capture] is the loop of
    mips_interp.cpp, which runs an address unless [native] does and reports the
    others to [capture].  [None]: the program aborts, or does not come back. *)
Context (guest : F -> (Z -> world -> option world) -> world -> option world).
Context (interp : (Z -> world -> option (option world)) -> (Z -> world -> world) -> Z -> world -> option (bool * world)).

Section Trampoline.
(** What a function does, its own lookups included. *)
Context (call : F -> world -> option world).

(** The interpreter asks [recomp_lookup_function_or_null], and notes a native call
    during a shadow diff. *)
Definition native_call (target : Z) (w : world) : option (option world) :=
  f ← func_map (overlays w) !! s32 target;
  Some (call f (if t_shadow_active (thread w) then set_touched true w else w)).
Definition recomp_interpret_function (start_pc : Z) (w : world) : option (bool * world) :=
  interp native_call recomp_capture_interp_target start_pc w.

(** A tier either serves the function or passes the world on. *)
Abbreviation attempt := (option (option served * world)).
Definition pass_on (w : world) : attempt := Some (None, w).
Definition serve (s : served) (w : world) : attempt := Some (Some s, w).
Definition or_else (a : attempt) (k : world -> attempt) : attempt :=
  '(r, w) ← a; match r with Some s => serve s w | None => k w end.

Definition with_dispatch (target rejected rejected_target : Z) (c : recomp_context X) : recomp_context X :=
  Context_ (gpr c) (fpr_u64 c) (hi c) (lo c) target rejected rejected_target (rest c).
Definition kMaxRejectInterpDepth : Z := 96.

(** Tier 2: the function around the address, entered at the address; if it has no
    label there, the interpreter. *)
Definition reject_interpret (addr saved : Z) (w : world) : attempt :=
  let w := bump Dispatch_entry_rejects (set_ctx (with_dispatch saved 0 0 (ctx w)) w) in
  let d := g_reject_interp_depth (thread w) in
  if d <? kMaxRejectInterpDepth then
    '(ok, w) ← recomp_interpret_function addr (set_reject_depth (d + 1) w);
    let w := set_reject_depth (g_reject_interp_depth (thread w) - 1) w in
    if (ok : bool) then serve Reject_interpreted (note_interp_fallback addr REASON_REJECT w) else pass_on w
  else pass_on w.
Definition self_heal (w : world) : attempt :=
  let addr := g_self_heal_addr (thread w) in
  match find_resident_enclosing_function addr w with
  | None => pass_on w
  | Some (f, link_target, func_start_link) =>
      let w := bump Self_heals w in
      let saved := dispatch_entry_target (ctx w) in
      let target := if link_target =? func_start_link then 0 else link_target in
      w ← call f (set_ctx (with_dispatch target 0 0 (ctx w)) w);
      if negb (dispatch_entry_rejected (ctx w) =? 0) then reject_interpret addr saved w
      else serve Self_healed (set_ctx (with_dispatch saved (dispatch_entry_rejected (ctx w)) (dispatch_entry_rejected_target (ctx w)) (ctx w)) w)
  end.

(** Tier 3: compile the function, in a static section only. *)
Definition jit_tier (w : world) : attempt :=
  let addr := g_self_heal_addr (thread w) in
  if jit_tier_enabled cfg && addr_in_resident_static_section addr then
    match jit_compile_function addr true w with
    | (Some (f, _), w) => w ← call f (bump Jit_compiles w); serve Jit_compiled w
    | (None, w) => pass_on (bump Jit_failures w)
    end
  else pass_on w.
(** A function that the eviction test took out of the map goes back. *)
Definition restore_evicted (w : world) : attempt :=
  let key := s32 (g_self_heal_addr (thread w)) in
  match g_evicted_funcs (tier w) !! key with
  | None => pass_on w
  | Some f =>
      let w := set_overlays (set_map (<[key := f]> (func_map (overlays w))) (overlays w)) w in
      let w := set_tier (set_evicted (delete key (g_evicted_funcs (tier w))) (tier w)) w in
      w ← call f w; serve Restored w
  end.

(** ** Tier 4: native code keyed by content *)

Definition run_shadow_diff (addr : Z) (f : F) (w : world) : option (ShadowDiffOutcome * world) :=
  let ctx0 := ctx w in
  let ram0 := rdram w in
  '(ok, w) ← recomp_interpret_function addr (set_active true (set_touched false w));
  let w := set_active false w in
  let restore c m w := set_rdram (copy_ram m (rdram w)) (set_ctx c w) in
  if negb (ok : bool) then Some (Outcome false false false false, restore ctx0 ram0 w)
  else if t_shadow_touched_native (thread w) then Some (Outcome true true false false, w)
  else
    let ctxI := ctx w in
    let ramI := rdram w in
    w ← call f (restore ctx0 ram0 w);
    Some (Outcome true false true (shadow_regs_equal (ctx w) ctxI && ram_equal (rdram w) ramI), restore ctxI ramI w).

(** The first candidate with a content in the chain of an address. *)
Fixpoint update_first (h : Z) (g : candidate -> candidate) (l : list candidate) : list candidate :=
  match l with
  | [] => []
  | c :: l => if content_hash c =? h then g c :: l else c :: update_first h g l
  end.
Definition chain (faddr : Z) (w : world) : list candidate := default [] (g_frag_cands (tier w) !! faddr).
Definition cand_of (faddr h : Z) (w : world) : option candidate := find (fun c => content_hash c =? h) (chain faddr w).
Definition update_cand (faddr h : Z) (g : candidate -> candidate) (w : world) : world :=
  match g_frag_cands (tier w) !! faddr with
  | None => w
  | Some l => set_tier (set_cands (<[faddr := update_first h g l]> (g_frag_cands (tier w))) (tier w)) w
  end.
Definition pin (faddr h : Z) (w : world) : world :=
  match cand_of faddr h w with
  | None => w
  | Some c => update_cand faddr h pinned (record_event (Pinned faddr h) (if device_touch c then w else bump Frag_device_touch w))
  end.
Definition frag_apply_diff_outcome (faddr h : Z) (o : ShadowDiffOutcome) (w : world) : world :=
  match cand_of faddr h w with
  | None => w
  | Some c =>
      if outcome_device_touch o then pin faddr h w
      else if negb (ran_native o) then w
      else
        let w := record_event (Diffed faddr h (clean o)) w in
        if clean o then
          let w := bump Frag_diff_clean w in
          if diff_passes c <? frag_diff_budget cfg then
            let w := update_cand faddr h (with_passes (diff_passes c + 1)) w in
            if diff_passes c + 1 =? frag_diff_budget cfg then bump Frag_promoted w else w
          else w
        else update_cand faddr h (with_passes 0) (bump Frag_diff_diverge w)
  end.

Definition matches (m : hostmem) (c : candidate) : bool :=
  (code_len c >? 0) && (fragment_live_code_hash m (code_lo c) (code_len c) =? content_hash c).
Definition live_candidate (faddr : Z) (w : world) : option candidate := find (matches (rdram w)) (chain faddr w).
Definition persist_fragment_manifest (w : world) : world :=
  if negb (frag_cache_enabled cfg) then w
  else let t := tier w in
    set_tier (MkTier (g_jit_entries t) (g_evicted_funcs t) (g_frag_cands t) (Some (mjoin (map_to_list (g_frag_cands t)).*2)) (trail t)) w.

(** New content: its bounds, its native code if it is a leaf, its place in the chain. *)
Definition new_candidate (faddr : Z) (w : world) : option candidate * world :=
  match discover faddr (rdram w) with
  | None => (None, w)
  | Some size =>
      let c := MkCandidate faddr (fragment_live_code_hash (rdram w) faddr size) faddr size None 0 false false in
      let '(c, w) :=
        if negb (frag_native_enabled cfg) then (c, w)
        else if fragment_is_safe_leaf (rdram w) faddr size then
          let '(r, w) := jit_compile_function faddr false w in (with_fn (fst <$> r) c, w)
        else (pinned c, w) in
      let w := set_tier (set_cands (<[faddr := chain faddr w ++ [c]]> (g_frag_cands (tier w))) (tier w)) w in
      let w := bump Frag_candidates (persist_fragment_manifest w) in
      (Some c, if device_touch c then bump Frag_device_touch w else w)
  end.
(** Known content without native code. *)
Definition compile_candidate (faddr : Z) (c : candidate) (w : world) : candidate * world :=
  if fragment_is_safe_leaf (rdram w) (code_lo c) (code_len c) then
    match jit_compile_function faddr false w with
    | (Some (f, _), w) => (with_fn (Some f) c, update_cand faddr (content_hash c) (with_fn (Some f)) w)
    | (None, w) => (c, w)
    end
  else (pinned c, pin faddr (content_hash c) w).
Definition candidate_for (faddr : Z) (w : world) : option candidate * world :=
  match live_candidate faddr w with
  | None => new_candidate faddr w
  | Some c =>
      if frag_native_enabled cfg && bool_decide (fn c = None) && negb (device_touch c) && negb (blacklisted c) && (code_len c >? 0)
      then let '(c, w) := compile_candidate faddr c w in (Some c, w) else (Some c, w)
  end.

Definition run_candidate (faddr : Z) (c : candidate) (w : world) : attempt :=
  if device_touch c || blacklisted c then
    '(ok, w) ← recomp_interpret_function faddr w;
    if (ok : bool) then serve Device_pinned (note_interp_fallback faddr REASON_DEVICE w) else pass_on w
  else
    match fn c with
    | None => pass_on w
    | Some f =>
        if diff_passes c >=? frag_diff_budget cfg then
          w ← call f (record_event (Ran_native faddr (content_hash c)) w); serve Native (bump Frag_native_runs w)
        else
          '(o, w) ← run_shadow_diff faddr f w;
          if interp_ok o
          then serve (Validated o) (note_interp_fallback faddr REASON_FRAG (frag_apply_diff_outcome faddr (content_hash c) o w))
          else pass_on w
    end.
Definition fragment_tier_step (w : world) : attempt :=
  let faddr := g_self_heal_addr (thread w) in
  if frag_jit_enabled cfg && negb (t_shadow_active (thread w)) && (0x80000000 <=? faddr) && (faddr <? 0x80800000)
     && negb (addr_in_resident_static_section faddr) then
    let '(c, w) := candidate_for faddr w in
    match c with
    | Some c => if frag_native_enabled cfg then run_candidate faddr c w else pass_on w
    | None => pass_on w
    end
  else pass_on w.

(** Tier 5: the interpreter. *)
Definition interpreter_floor (w : world) : attempt :=
  if interp_enabled cfg then
    '(ok, w) ← recomp_interpret_function (g_self_heal_addr (thread w)) w;
    if (ok : bool) then serve Floor (note_interp_fallback (g_self_heal_addr (thread w)) REASON_FLOOR w) else pass_on w
  else pass_on w.

(** [g_last_lookup_miss_addr] is shared by the threads; with one thread it is the
    address of the last miss. *)
Definition unhandled_lookup_trampoline (w : world) : option (served * world) :=
  '(r, w) ← or_else (self_heal w) (fun w =>
    or_else (jit_tier (bump Self_heal_misses w)) (fun w =>
    or_else (restore_evicted w) (fun w =>
    or_else (fragment_tier_step w) interpreter_floor)));
  match r with
  | Some s => Some (s, w)
  | None => if interp_discovery_enabled cfg then Some (Discovered, recomp_capture_interp_target (g_self_heal_addr (thread w)) w) else None
  end.
End Trampoline.

(** A call of an address as recompiled code makes it, calls nested up to [n] deep. *)
Fixpoint dispatch (n : nat) (addr : Z) (w : world) : option world :=
  match n with
  | O => None
  | S n =>
      let run f := guest f (dispatch n) in
      match get_function addr w with
      | (Recompiled f, w) => run f w
      | (Trampoline, w) => snd <$> unhandled_lookup_trampoline run w
      end
  end.

(** [recomp_debug_jit_evict_all_resident]. *)
Definition evict_all_resident (w : world) : world :=
  let resident (kv : Z * F) := (0x80000000 <=? u32 (fst kv)) && (u32 (fst kv) <? 0x80800000) in
  let m := func_map (overlays w) in
  set_tier (set_evicted (filter (fun kv => resident kv = true) m ∪ g_evicted_funcs (tier w)) (tier w))
    (set_overlays (set_map (filter (fun kv => resident kv = false) m) (overlays w)) w).

(** * The manifest *)

(** [load_fragment_manifest], on the value the text of the file stands for; [None]
    for a file that is missing or is not JSON.  A value of a wrong type where a
    version is expected throws, and the file is ignored; the conversion of a float
    that is no unsigned number is not defined, and ignores it too. *)
Definition version_is (key : string) (n : Z) (j : json) : bool :=
  match json_find key j with
  | None => n =? 0
  | Some (JUnsigned v | JInteger v) => u32 v =? n
  | Some (JFloat b) => match Z_of_float Truncate (decode binary64 b) with Some v => v =? n | None => false end
  | Some (JBool b) => b2z b =? n
  | Some _ => false
  end.
Definition get_u64 (key : string) (def : Z) (e : json) : Z :=
  match json_find key e with
  | Some (JString s) => strtoull s
  | Some (JUnsigned v | JInteger v) => u64 v
  | _ => def
  end.
Definition read_candidate (e : json) : candidate :=
  let addr := u32 (get_u64 "addr" 0 e) in
  MkCandidate addr (get_u64 "content_hash" 0 e) (u32 (get_u64 "code_lo" addr e)) (u32 (get_u64 "code_len" 0 e)) None 0 false false.
Definition load_entry (cs : gmap Z (list candidate)) (e : json) : gmap Z (list candidate) :=
  match e with
  | JObject _ =>
      let c := read_candidate e in
      if (cand_addr c =? 0) || (code_len c =? 0) || (content_hash c =? 0) then cs
      else
        let l := default [] (cs !! cand_addr c) in
        if existsb (fun d => content_hash d =? content_hash c) l then cs else <[cand_addr c := l ++ [c]]> cs
  | _ => cs
  end.
Context (arch_abi : string).
Definition is_current (j : json) : bool :=
  version_is "format_ver" 1 j && version_is "codegen_ver" 1 j &&
  match json_find "arch_abi" j with Some (JString s) => bool_decide (s = arch_abi) | _ => false end.
Definition load_fragment_manifest (file : option json) (cs : gmap Z (list candidate)) : gmap Z (list candidate) :=
  if negb (frag_jit_enabled cfg) || negb (frag_cache_enabled cfg) then cs
  else match file with
       | Some (JObject l) =>
           if negb (is_current (JObject l)) then cs
           else match json_find "candidates" (JObject l) with Some (JArray es) => foldl load_entry cs es | _ => cs end
       | _ => cs
       end.
(** The file that [persist_fragment_manifest] writes for its candidates. *)
Definition manifest_entry (c : candidate) : json :=
  JObject [("addr", JString ("0x" ++ hex_digits 8 (cand_addr c))); ("content_hash", JString ("0x" ++ hex_digits 16 (content_hash c)));
           ("code_lo", JString ("0x" ++ hex_digits 8 (code_lo c))); ("code_len", JUnsigned (code_len c))]%string.
Definition manifest_json (l : list candidate) : json :=
  JObject [("format_ver", JUnsigned 1); ("codegen_ver", JUnsigned 1); ("arch_abi", JString arch_abi); ("candidates", JArray (manifest_entry <$> l))]%string.

(** * The comparison of compiled with recompiled code (PSR_TCC_DEV_TOOLS)

    Its tables are apart from the world: while a comparison runs, nested calls are
    not intercepted. *)
Context (tcc_ab_func_cap tcc_ab_per_func : Z).
Definition no_ab : ab_tools F := MkAbTools ∅ 0 0 0 0 0 0.
Definition set_entry (vram : Z) (e : AbEntry F) (t : ab_tools F) : ab_tools F :=
  MkAbTools (<[vram := e]> (g_ab_entries t)) (g_ab_armed_count t) (g_ab_total_runs t) (g_ab_total_clean t) (g_ab_total_diverge t)
    (g_ab_compile_fail t) (g_ab_nonleaf_skip t).
Definition count_failure (leaf : bool) (t : ab_tools F) : ab_tools F :=
  MkAbTools (g_ab_entries t) (g_ab_armed_count t) (g_ab_total_runs t) (g_ab_total_clean t) (g_ab_total_diverge t)
    (if leaf then g_ab_compile_fail t else u64 (g_ab_compile_fail t + 1)) (if leaf then u64 (g_ab_nonleaf_skip t + 1) else g_ab_nonleaf_skip t).
Definition count_run (clean : bool) (t : ab_tools F) : ab_tools F :=
  MkAbTools (g_ab_entries t) (g_ab_armed_count t) (u64 (g_ab_total_runs t + 1)) (if clean then u64 (g_ab_total_clean t + 1) else g_ab_total_clean t)
    (if clean then g_ab_total_diverge t else u64 (g_ab_total_diverge t + 1)) (g_ab_compile_fail t) (g_ab_nonleaf_skip t).

(** The twin to run with this call, compiled at the first one. *)
Definition ab_twin (vram : Z) (e : AbEntry F) (t : ab_tools F) (w : world) : option F * ab_tools F * world :=
  match ab_state e with
  | PendingCompile =>
      match jit_compile_function vram false w with
      | (None, w) => (None, count_failure false (set_entry vram (MkAb (static_fn e) (tcc_fn e) Skip (runs e) (diverge e)) t), w)
      | (Some (f, size), w) =>
          if fragment_is_safe_leaf (rdram w) vram size
          then (Some f, set_entry vram (MkAb (static_fn e) (Some f) Armed (u32 (runs e + 1)) (diverge e)) t, w)
          else (None, count_failure true (set_entry vram (MkAb (static_fn e) (tcc_fn e) Skip (runs e) (diverge e)) t), w)
      end
  | Armed =>
      if runs e <? tcc_ab_per_func
      then (tcc_fn e, set_entry vram (MkAb (static_fn e) (tcc_fn e) Armed (u32 (runs e + 1)) (diverge e)) t, w) else (None, t, w)
  | Skip => (None, t, w)
  end.
Definition tcc_ab_run (call : F -> world -> option world) (vram : Z) (t : ab_tools F) (w : world) : option (ab_tools F * world) :=
  match g_ab_entries t !! vram with
  | None => Some (t, w)
  | Some e =>
      let '(twin, t, w) := ab_twin vram e t w in
      match twin with
      | None => w ← call (static_fn e) w; Some (t, w)
      | Some twin =>
          let ctx0 := ctx w in
          let ram0 := rdram w in
          wS ← call (static_fn e) w;
          wT ← call twin (set_rdram (copy_ram ram0 (rdram wS)) (set_ctx ctx0 wS));
          let clean := shadow_regs_equal (ctx wT) (ctx wS) && ram_equal (rdram wT) (rdram wS) in
          let t := if clean then t
                   else match g_ab_entries t !! vram with
                        | Some e => set_entry vram (MkAb (static_fn e) (tcc_fn e) (ab_state e) (runs e) (u32 (diverge e + 1))) t
                        | None => t
                        end in
          Some (count_run clean t, set_rdram (copy_ram (rdram wS) (rdram wT)) (set_ctx (ctx wS) wT))
      end
  end.
(** Whether a dispatch of [f] at [vram] goes through the comparison. *)
Definition tcc_ab_intercept (vram : Z) (f : F) (t : ab_tools F) : bool * ab_tools F :=
  match g_ab_entries t !! vram with
  | None =>
      if g_ab_armed_count t >=? tcc_ab_func_cap then (false, t)
      else (true, set_entry vram (MkAb f None PendingCompile 0 0)
              (MkAbTools (g_ab_entries t) (u32 (g_ab_armed_count t + 1)) (g_ab_total_runs t) (g_ab_total_clean t) (g_ab_total_diverge t)
                (g_ab_compile_fail t) (g_ab_nonleaf_skip t)))
  | Some e =>
      match ab_state e with
      | Skip => (false, t)
      | Armed => (negb (runs e >=? tcc_ab_per_func), t)
      | PendingCompile => (true, t)
      end
  end.
End Tiers.
