(* ===== verification/TiersSpec.v ===== *)
(** Missing functions: the native code of a fragment has no effect until it has
    agreed with the interpreter often enough, and runs only on the bytes it was
    compiled for; what the telemetry of the interpreter says. *)

From Stdlib Require Import ZArith Lia Bool List String Ascii.
From stdpp Require Import base list gmap strings.
From S2P Require Import Prelude Json GuestMem Rdram Overlays Fragments Tiers.
Open Scope Z_scope.
Open Scope list_scope.

(** * Snapshots *)

Lemma copy_ram_byte src dst p : hbyte (copy_ram src dst) p = if in_ram p then hbyte src p else hbyte dst p.
Proof.
  unfold hbyte, copy_ram. rewrite lookup_union, !map_lookup_filter. cbn [fst].
  destruct (src !! p) as [x|], (dst !! p) as [y|]; cbn; destruct (in_ram p); cbn; done.
Qed.
(** What a snapshot holds of a memory is all that matters of it. *)
Lemma copy_ram_self m m' : (forall p, in_ram p = false -> m' !! p = m !! p) -> copy_ram m m' = m.
Proof.
  intros E. apply map_eq. intros p. unfold copy_ram. rewrite lookup_union, !map_lookup_filter. cbn [fst].
  destruct (in_ram p) eqn:Ep; [|rewrite E by done]; destruct (m !! p), (m' !! p); cbn; done.
Qed.
Lemma copy_ram_outside src dst p : in_ram p = false -> copy_ram src dst !! p = dst !! p.
Proof.
  intros E. unfold copy_ram. rewrite lookup_union, !map_lookup_filter. cbn [fst]. rewrite E. destruct (src !! p), (dst !! p); done.
Qed.
Lemma ram_equal_spec a b : ram_equal a b = true <-> forall p, in_ram p = true -> hbyte a p = hbyte b p.
Proof.
  unfold ram_equal. rewrite forallb_forall. split.
  - intros E p Hp. destruct (a !! p) as [x|] eqn:Ea.
    + specialize (E (p, x)). cbn [fst] in E. rewrite Hp in E. apply Z.eqb_eq, E, list_elem_of_In, elem_of_app. left. by apply elem_of_map_to_list.
    + destruct (b !! p) as [y|] eqn:Eb; [|unfold hbyte; by rewrite Ea, Eb].
      specialize (E (p, y)). cbn [fst] in E. rewrite Hp in E. apply Z.eqb_eq, E, list_elem_of_In, elem_of_app. right. by apply elem_of_map_to_list.
  - intros E [p x] _. cbn [fst]. destruct (in_ram p) eqn:Hp; [|done]. cbn. by apply Z.eqb_eq, E.
Qed.

(** Registers the comparison looks at. *)
Definition same_registers {X} (a b : recomp_context X) : Prop :=
  (forall i, (1 <= i < 32)%nat -> nth i (gpr a) 0 = nth i (gpr b) 0) /\
  (forall i, (i < 32)%nat -> nth i (fpr_u64 a) 0 = nth i (fpr_u64 b) 0) /\ hi a = hi b /\ lo a = lo b.
Lemma forallb_seq_eqb (f g : nat -> Z) n k :
  forallb (fun i => f i =? g i) (seq n k) = true <-> forall i, (n <= i < n + k)%nat -> f i = g i.
Proof.
  rewrite forallb_forall. split; intros E i Hi.
  - apply Z.eqb_eq, E, in_seq. lia.
  - apply in_seq in Hi. by apply Z.eqb_eq, E.
Qed.
Lemma shadow_regs_equal_spec {X} (a b : recomp_context X) : shadow_regs_equal a b = true <-> same_registers a b.
Proof.
  unfold shadow_regs_equal, same_registers. rewrite !andb_true_iff, !Z.eqb_eq, !forallb_seq_eqb. split.
  - intros [[[H1 H2] H3] H4]. repeat split; intros; [apply H1|apply H2| |]; lia || done.
  - intros (H1 & H2 & H3 & H4). repeat split; intros; [apply H1|apply H2| |]; lia || done.
Qed.

(** * The chain of an address *)

Section Chain.
Context {F : Type}.
Abbreviation candidate := (FragmentCandidate F).
Definition keeps_hash (g : candidate -> candidate) : Prop := forall c, content_hash (g c) = content_hash c.
Abbreviation with_hash h := (find (fun c : candidate => content_hash c =? h)).

Lemma update_first_find h g l : keeps_hash g -> forall h',
  with_hash h' (update_first h g l) = if h' =? h then g <$> with_hash h l else with_hash h' l.
Proof.
  intros Hg h'. induction l as [|c l IH]; [by destruct (h' =? h)|]. cbn [update_first find].
  destruct (Z.eqb_spec (content_hash c) h) as [Ec|Ec]; cbn [find].
  - rewrite Hg, Ec, Z.eqb_sym. by destruct (h' =? h).
  - rewrite IH. destruct (Z.eqb_spec h' h) as [E|]; [|done]. rewrite E. by rewrite (proj2 (Z.eqb_neq _ _) Ec).
Qed.
Lemma update_first_elem h g l c : c ∈ update_first h g l -> c ∈ l \/ exists c0, with_hash h l = Some c0 /\ c = g c0.
Proof.
  induction l as [|d l IH]; [by left|]. cbn [update_first find]. destruct (content_hash d =? h).
  - intros [->|H]%elem_of_cons; [right; by eexists|left; by right].
  - intros [->|H]%elem_of_cons; [left; by left|]. destruct (IH H) as [?|?]; [left; by right|by right].
Qed.
Lemma find_hash l h c : with_hash h l = Some c -> c ∈ l /\ content_hash c = h.
Proof. intros H. apply find_some in H as [H1 H2%Z.eqb_eq]. split; [by apply list_elem_of_In|done]. Qed.
Lemma find_hash_none l h : with_hash h l = None -> forall c, c ∈ l -> content_hash c <> h.
Proof.
  intros H c Hc E. apply list_elem_of_In in Hc. pose proof (find_none _ _ H c Hc) as N. cbn beta in N. by rewrite E, Z.eqb_refl in N.
Qed.
(** Only the first candidate of a content has passed a diff. *)
Fixpoint first_only (l : list candidate) : Prop :=
  match l with
  | [] => True
  | c :: l => (forall d, d ∈ l -> content_hash d = content_hash c -> diff_passes d <= 0) /\ first_only l
  end.
Lemma first_only_find l c : first_only l -> c ∈ l -> 0 < diff_passes c -> with_hash (content_hash c) l = Some c.
Proof.
  induction l as [|d l IH]; intros Hl Hc Hp; [by apply elem_of_nil in Hc|]. destruct Hl as [Hd Hl]. cbn [find].
  destruct (Z.eqb_spec (content_hash d) (content_hash c)) as [E|E].
  - apply elem_of_cons in Hc as [->|Hc]; [done|]. specialize (Hd c Hc (eq_sym E)). lia.
  - apply elem_of_cons in Hc as [->|Hc]; [done|]. by apply IH.
Qed.
Lemma first_only_update h g l : keeps_hash g -> first_only l -> first_only (update_first h g l).
Proof.
  intros Hg. induction l as [|c l IH]; [done|]. intros [Hc Hl]. cbn [update_first]. destruct (Z.eqb_spec (content_hash c) h) as [E|E].
  - split; [|done]. intros d Hd. rewrite Hg. by apply Hc.
  - split; [|by apply IH]. intros d Hd Ed. apply update_first_elem in Hd as [Hd|(c0 & E0 & ->)]; [by apply Hc|].
    rewrite Hg in Ed. apply find_hash in E0 as [_ E0]. by destruct E; rewrite <- Ed, E0.
Qed.
Lemma first_only_snoc l c : first_only l -> diff_passes c <= 0 -> first_only (l ++ [c]).
Proof.
  induction l as [|d l IH]; intros Hl Hc; [by split; [intros ? ?%elem_of_nil|]|]. destruct Hl as [Hd Hl]. split; [|by apply IH].
  intros e [He|He%list_elem_of_singleton]%elem_of_app; [by apply Hd|by subst e].
Qed.
End Chain.

(** * What recompiled code and the interpreter may do *)

Section Confined.
Context {F H X : Type}.
Abbreviation world := (world F H X).
Context (total_vis : H -> Z) (code_sections : list (SectionTableEntry F)) (section_relocs : nat -> list RelocEntry) (cfg : settings).
Context (discover_function_bounds : list Z -> Z -> option Z) (codegen_function : list Z -> Z -> option F).
Context (guest : F -> (Z -> world -> option world) -> world -> option world).
Context (interp : (Z -> world -> option (option world)) -> (Z -> world -> world) -> Z -> world -> option (bool * world)).
Abbreviation capture := (recomp_capture_interp_target code_sections section_relocs cfg).
Abbreviation interpret := (recomp_interpret_function code_sections section_relocs cfg interp).
Abbreviation trampoline := (unhandled_lookup_trampoline total_vis code_sections section_relocs cfg discover_function_bounds codegen_function interp).
Abbreviation dispatch_n := (dispatch total_vis code_sections section_relocs cfg discover_function_bounds codegen_function guest interp).
Abbreviation fragment_step := (fragment_tier_step total_vis code_sections section_relocs cfg discover_function_bounds codegen_function interp).
Abbreviation note := (note_interp_fallback total_vis).
Abbreviation compile := (jit_compile_function discover_function_bounds codegen_function).

(** The registers, the memory, the overlays and the host of [w] replaced. *)
Definition outside (c : recomp_context X) (m : hostmem) (s : overlay_state F) (h : H) (w : world) : world :=
  MkWorld c m s h (tier w) (stats w) (thread w).

(** Recompiled code changes what is outside of this file's tables, and reaches them
    only by looking functions up; the interpreter changes registers and memory, and
    reaches the rest by native calls and captures.  Stated for every preorder. *)
Definition guest_confined : Prop := forall R : world -> world -> Prop, PreOrder R ->
  (forall w c m s h, R w (outside c m s h w)) ->
  forall f handler w w', (forall a w w', handler a w = Some w' -> R w w') -> guest f handler w = Some w' -> R w w'.
Definition interp_confined : Prop := forall R : world -> world -> Prop, PreOrder R ->
  (forall w c m, R w (set_rdram m (set_ctx c w))) ->
  forall native cap pc w b w', (forall a w, R w (cap a w)) -> (forall a w w', native a w = Some (Some w') -> R w w') ->
  interp native cap pc w = Some (b, w') -> R w w'.

Section Reach.
Context (R : world -> world -> Prop) {PR : PreOrder R}.
(** What every step but those of the fragment tier does. *)
Record respected : Prop := {
  r_outside : forall w c m s h, R w (outside c m s h w);
  r_stats : forall w t, R w (set_stats t w);
  r_addr : forall w a, R w (set_self_heal_addr a w);
  r_depth : forall w d, R w (set_reject_depth d w);
  r_touched : forall w, t_shadow_active (thread w) = true -> R w (set_touched true w);
  r_jit : forall w a b, R w (snd (compile a b w));
  r_evicted : forall w e, R w (set_tier (set_evicted e (tier w)) w) }.
Context (HR : respected) (Hi : interp_confined).

Lemma r_bump w c : R w (bump c w).
Proof. apply (r_stats HR). Qed.
Lemma r_ctx w c : R w (set_ctx c w).
Proof. apply (r_outside HR w c (rdram w) (overlays w) (host w)). Qed.
Lemma r_overlays w s : R w (set_overlays s w).
Proof. apply (r_outside HR w (ctx w) (rdram w) s (host w)). Qed.
Lemma r_note w a r : R w (note a r w).
Proof.
  unfold note_interp_fallback. etransitivity; [apply (r_bump w Interp_runs)|]. destruct (match g_interp_fb _ !! a with None => _ | Some _ => _ end) as [fb lines].
  apply (r_stats HR).
Qed.
Lemma r_capture a w : R w (capture a w).
Proof. unfold recomp_capture_interp_target. destruct (negb _); [reflexivity|]. destruct (func_map _ !! _); [reflexivity|apply (r_stats HR)]. Qed.
Lemma r_get_function a w : R w (snd (get_function code_sections section_relocs a w)).
Proof.
  unfold get_function. destruct (func_map _ !! a); [apply r_bump|]. cbn [snd].
  etransitivity; [apply (r_bump w Lookup_misses)|]. etransitivity; [|apply (r_addr HR)]. apply (r_stats HR).
Qed.

Section Call.
Context (call : F -> world -> option world) (Hc : forall f w w', call f w = Some w' -> R w w').
Lemma r_interpret pc w b w' : interpret call pc w = Some (b, w') -> R w w'.
Proof.
  apply (Hi R PR (fun w c m => r_outside HR w c m (overlays w) (host w))); [intros a w0; apply r_capture|].
  intros a w0 w1. unfold native_call. destruct (func_map (overlays w0) !! s32 a) as [f|]; [|done]. cbn [mbind option_bind]. intros [= E].
  destruct (t_shadow_active (thread w0)) eqn:Ea; [|by apply Hc in E]. etransitivity; [by apply (r_touched HR)|by apply Hc in E].
Qed.
Abbreviation related a := (forall w r w', a w = Some (r, w') -> R w w').
Lemma r_or_else w (a : option (option served * world)) k r w' :
  (forall r w1, a = Some (r, w1) -> R w w1) -> related k -> or_else a k = Some (r, w') -> R w w'.
Proof.
  intros Ha Hk. unfold or_else. destruct a as [[[s|] w1]|] eqn:Ea; [| |done]; cbn [mbind option_bind].
  - intros [= _ <-]. by apply (Ha (Some s)).
  - intros E. etransitivity; [by apply (Ha None)|by apply (Hk _ r)].
Qed.
Lemma r_self_heal : related (self_heal total_vis code_sections section_relocs cfg interp call).
Proof.
  intros w r w'. unfold self_heal. destruct (find_resident_enclosing_function _ _ w) as [[[f tgt] start]|]; [|intros [= _ <-]; reflexivity].
  intros E. apply bind_Some in E as (w1 & E1 & E). assert (R w w1) as H1.
  { etransitivity; [apply (r_bump w Self_heals)|]. etransitivity; [apply r_ctx|]. by apply Hc in E1. }
  etransitivity; [exact H1|]. clear E1 H1. destruct (negb _); [|injection E as _ <-; apply r_ctx].
  unfold reject_interpret in E. etransitivity; [apply r_ctx|]. etransitivity; [apply (r_bump _ Dispatch_entry_rejects)|].
  destruct (_ <? _); [|injection E as _ <-; reflexivity]. apply bind_Some in E as ([ok w2] & E2 & E).
  apply r_interpret in E2. etransitivity; [apply (r_depth HR)|]. etransitivity; [exact E2|]. etransitivity; [apply (r_depth HR)|].
  destruct ok; injection E as _ <-; [apply r_note|reflexivity].
Qed.
Lemma r_jit_tier : related (jit_tier code_sections cfg discover_function_bounds codegen_function call).
Proof.
  intros w r w'. unfold jit_tier. destruct (_ && _); [|intros [= _ <-]; reflexivity].
  pose proof (r_jit HR w (g_self_heal_addr (thread w)) true) as Hj. destruct (compile _ true w) as [[[f n]|] w1]; cbn [snd] in Hj.
  - intros E. apply bind_Some in E as (w2 & E2 & [= _ <-]). etransitivity; [exact Hj|]. etransitivity; [apply (r_bump _ Jit_compiles)|]. by apply Hc in E2.
  - intros [= _ <-]. etransitivity; [exact Hj|]. apply (r_bump _ Jit_failures).
Qed.
Lemma r_restore_evicted : related (restore_evicted call).
Proof.
  intros w r w'. unfold restore_evicted. destruct (g_evicted_funcs _ !! _); [|intros [= _ <-]; reflexivity].
  intros E. apply bind_Some in E as (w2 & E2 & [= _ <-]). apply Hc in E2. etransitivity; [apply r_overlays|]. etransitivity; [apply (r_evicted HR)|]. exact E2.
Qed.
Lemma r_floor : related (interpreter_floor total_vis code_sections section_relocs cfg interp call).
Proof.
  intros w r w'. unfold interpreter_floor. destruct (interp_enabled cfg); [|intros [= _ <-]; reflexivity].
  intros E. apply bind_Some in E as ([ok w1] & E1 & E). apply r_interpret in E1. etransitivity; [exact E1|].
  destruct ok; injection E as _ <-; [apply r_note|reflexivity].
Qed.
Lemma r_trampoline : related (fragment_step call) -> forall w s w', trampoline call w = Some (s, w') -> R w w'.
Proof.
  intros Hf w s w' E. unfold unhandled_lookup_trampoline in E. apply bind_Some in E as ([r w1] & E1 & E).
  assert (R w w1) as H1.
  { revert E1. apply r_or_else; [apply r_self_heal|]. intros w2 r2 w2'. apply r_or_else; [|].
    { intros r3 w3 E3. etransitivity; [apply (r_bump w2 Self_heal_misses)|]. by apply r_jit_tier in E3. }
    intros w3 r3 w3'. apply r_or_else; [apply r_restore_evicted|]. intros w4 r4 w4'. apply r_or_else; [apply Hf|apply r_floor]. }
  etransitivity; [exact H1|]. destruct r; [by injection E as _ <-|]. destruct (interp_discovery_enabled cfg); [|done].
  injection E as _ <-. apply r_capture.
Qed.
End Call.

Context (Hg : guest_confined).
Lemma r_dispatch : (forall call, (forall f w w', call f w = Some w' -> R w w') -> forall w r w', fragment_step call w = Some (r, w') -> R w w') ->
  forall n a w w', dispatch_n n a w = Some w' -> R w w'.
Proof.
  intros Hf n. induction n as [|n IH]; intros a w w' E; [done|]. cbn [dispatch] in E.
  assert (forall f w w', guest f (dispatch_n n) w = Some w' -> R w w') as Hc.
  { intros f w0 w0'. apply (Hg R PR (r_outside HR)). exact IH. }
  pose proof (r_get_function a w) as H1. destruct (get_function _ _ a w) as [[f|] w1]; cbn [snd] in H1.
  - etransitivity; [exact H1|by apply Hc in E].
  - apply fmap_Some in E as ([s w2] & E2 & ->). etransitivity; [exact H1|]. apply (r_trampoline _ Hc (Hf _ Hc)) in E2. exact E2.
Qed.
End Reach.

(** * Shadow diffs *)

Context (Hi : interp_confined) (Hg : guest_confined).

(** While a diff is active it stays so, and a native call that was noted stays noted. *)
Definition stays_active (w w' : world) : Prop :=
  t_shadow_active (thread w) = true ->
  t_shadow_active (thread w') = true /\ (t_shadow_touched_native (thread w) = true -> t_shadow_touched_native (thread w') = true).
#[local] Instance stays_active_preorder : PreOrder stays_active.
Proof. split; [by intros w|]. intros w1 w2 w3 H1 H2 Ha. destruct (H1 Ha) as [Ha2 H3]. destruct (H2 Ha2) as [Ha3 H4]. auto. Qed.
Lemma compile_thread a b (w : world) : thread (snd (compile a b w)) = thread w.
Proof.
  unfold jit_compile_function. destruct (_ || _); [done|]. destruct (mbind _ _) as [[f n]|]; [|done]. by destruct b.
Qed.
Lemma stays_active_respected : respected stays_active.
Proof.
  split; try (by intros). intros w a b Ha. by rewrite compile_thread.
Qed.
Lemma fragment_step_active call w : t_shadow_active (thread w) = true -> fragment_step call w = Some (None, w).
Proof. intros Ha. unfold fragment_tier_step. by rewrite Ha, andb_false_r. Qed.
Lemma dispatch_stays_active n a w w' : dispatch_n n a w = Some w' -> stays_active w w'.
Proof.
  apply (r_dispatch stays_active stays_active_respected Hi Hg). intros call Hc w0 r w1 E Ha.
  rewrite fragment_step_active in E by done. injection E as _ <-. auto.
Qed.
Lemma guest_stays_active n f w w' : guest f (dispatch_n n) w = Some w' -> stays_active w w'.
Proof. apply (Hg stays_active _ (r_outside _ stays_active_respected)). apply dispatch_stays_active. Qed.

(** What the interpreter leaves alone when no native call is noted. *)
Definition untouched_so_far (w w' : world) : Prop :=
  t_shadow_active (thread w) = true ->
  t_shadow_active (thread w') = true /\
  (t_shadow_touched_native (thread w') = false ->
   t_shadow_touched_native (thread w) = false /\ host w' = host w /\ overlays w' = overlays w /\ tier w' = tier w).
#[local] Instance untouched_preorder : PreOrder untouched_so_far.
Proof.
  split; [by intros w|]. intros w1 w2 w3 H1 H2 Ha. destruct (H1 Ha) as [Ha2 H3]. destruct (H2 Ha2) as [Ha3 H4]. split; [done|].
  intros Ht. destruct (H4 Ht) as (T2 & E1 & E2 & E3). destruct (H3 T2) as (T1 & E4 & E5 & E6). by rewrite E1, E2, E3.
Qed.
Lemma interpret_untouched n pc w b w' : interpret (fun f => guest f (dispatch_n n)) pc w = Some (b, w') -> untouched_so_far w w'.
Proof.
  apply (Hi untouched_so_far _ (fun w c m Ha => conj Ha (fun Ht => conj Ht (conj eq_refl (conj eq_refl eq_refl))))).
  - intros a w0 Ha. unfold recomp_capture_interp_target. destruct (negb _); [done|]. by destruct (func_map _ !! _).
  - intros a w0 w1 E Ha. unfold native_call in E. destruct (func_map (overlays w0) !! s32 a) as [f|]; [|done]. cbn [mbind option_bind] in E.
    injection E as E. rewrite Ha in E. apply guest_stays_active in E. destruct (E Ha) as [Ha1 H1]. split; [done|]. by rewrite (H1 eq_refl).
Qed.

(** What recompiled code sees of two worlds is the same. *)
Definition same_guest (w w' : world) : Prop :=
  ctx w = ctx w' /\ (forall p, in_ram p = true -> hbyte (rdram w) p = hbyte (rdram w') p) /\ host w = host w' /\ overlays w = overlays w'.
Definition armed (w : world) : world := set_active true (set_touched false w).

Lemma shadow_diff_result n addr f w o w' : run_shadow_diff code_sections section_relocs cfg interp (fun f => guest f (dispatch_n n)) addr f w = Some (o, w') ->
  interp_ok o = true ->
  exists wI, interpret (fun f => guest f (dispatch_n n)) addr (armed w) = Some (true, wI) /\
    ctx w' = ctx wI /\ (forall p, in_ram p = true -> hbyte (rdram w') p = hbyte (rdram wI) p) /\
    outcome_device_touch o = t_shadow_touched_native (thread wI) /\
    if outcome_device_touch o then same_guest w' wI
    else exists w0 wN, same_guest w0 w /\ guest f (dispatch_n n) w0 = Some wN /\ ran_native o = true /\
      (clean o = true <-> same_registers (ctx wN) (ctx wI) /\ forall p, in_ram p = true -> hbyte (rdram wN) p = hbyte (rdram wI) p) /\
      host w' = host wN /\ overlays w' = overlays wN.
Proof.
  unfold run_shadow_diff. intros E Ho. apply bind_Some in E as ([ok wI] & EI & E). exists wI.
  destruct ok; [|injection E as <- <-; done]. split; [exact EI|].
  destruct (t_shadow_touched_native (thread wI)) eqn:Et; [cbn in E; rewrite Et in E; injection E as <- <-; by repeat split|].
  apply interpret_untouched in EI. destruct (EI eq_refl) as [_ EI']. destruct (EI' Et) as (_ & E1 & E2 & _).
  cbn in E. rewrite Et in E. apply bind_Some in E as (wN & EN & [= <- <-]). cbn [outcome_device_touch ran_native clean].
  split; [done|]. split; [intros p Hp; cbn; by rewrite copy_ram_byte, Hp|]. split; [done|].
  eexists _, wN. split; [|split; [exact EN|]].
  - split; [done|]. split; [|done]. intros p Hp. cbn. by rewrite copy_ram_byte, Hp.
  - split; [done|]. split; [|done]. by rewrite andb_true_iff, shadow_regs_equal_spec, ram_equal_spec.
Qed.

(** ** Candidates are kept outside what recompiled code sees *)

Definition apart_from_guest (w w' : world) : Prop :=
  ctx w' = ctx w /\ rdram w' = rdram w /\ host w' = host w /\ overlays w' = overlays w /\ thread w' = thread w.
#[local] Instance apart_preorder : PreOrder apart_from_guest.
Proof. split; [by intros w|]. intros w1 w2 w3 (A1 & A2 & A3 & A4 & A5) (B1 & B2 & B3 & B4 & B5). unfold apart_from_guest. by rewrite B1, B2, B3, B4, B5. Qed.
Lemma apart_compile a w : apart_from_guest w (snd (compile a false w)).
Proof. unfold jit_compile_function. destruct (_ || _); [done|]. by destruct (mbind _ _) as [[f n]|]. Qed.
Lemma apart_update a h g w : apart_from_guest w (update_cand a h g w).
Proof. unfold update_cand. by destruct (g_frag_cands _ !! a). Qed.
Lemma apart_pin a h w : apart_from_guest w (pin a h w).
Proof. unfold pin. destruct (cand_of a h w); [|done]. etransitivity; [|apply apart_update]. by destruct (device_touch _). Qed.
Lemma apart_apply a h o w : apart_from_guest w (frag_apply_diff_outcome cfg a h o w).
Proof.
  unfold frag_apply_diff_outcome. destruct (cand_of a h w) as [c|]; [|done]. destruct (outcome_device_touch o); [apply apart_pin|].
  destruct (negb _); [done|]. destruct (clean o); [|by etransitivity; [|apply apart_update]].
  destruct (_ <? _); [|done]. destruct (_ =? _); (etransitivity; [|first [apply apart_update|etransitivity; [apply apart_update|done]]]; done).
Qed.
Lemma apart_persist w : apart_from_guest w (persist_fragment_manifest cfg w).
Proof. unfold persist_fragment_manifest. by destruct (negb _). Qed.
Abbreviation candidate_for := (candidate_for cfg discover_function_bounds codegen_function).
Lemma apart_candidate_for a w : apart_from_guest w (snd (candidate_for a w)).
Proof.
  unfold Tiers.candidate_for. destruct (live_candidate a w) as [c|].
  - destruct (_ && _); [|done]. unfold compile_candidate. pose proof (apart_compile a w) as Hc.
    destruct (fragment_is_safe_leaf _ _ _); [|apply apart_pin].
    destruct (compile a false w) as [[[f n]|] w1]; [|exact Hc]. etransitivity; [exact Hc|apply apart_update].
  - unfold new_candidate. destruct (discover _ a _) as [size|]; [|done]. pose proof (apart_compile a w) as Hc.
    assert (forall c w1, apart_from_guest w w1 -> let w2 := set_tier (set_cands (<[a := chain a w1 ++ [c]]> (g_frag_cands (tier w1))) (tier w1)) w1 in
      apart_from_guest w (snd (Some c, if device_touch c then bump Frag_device_touch (bump Frag_candidates (persist_fragment_manifest cfg w2)) else bump Frag_candidates (persist_fragment_manifest cfg w2)))) as K.
    { intros c w1 H1. etransitivity; [exact H1|]. cbn [snd]. pose proof (apart_persist (set_tier (set_cands (<[a := chain a w1 ++ [c]]> (g_frag_cands (tier w1))) (tier w1)) w1)) as H2.
      destruct (device_touch c); exact H2. }
    destruct (negb (frag_native_enabled cfg)); [by apply K|]. destruct (fragment_is_safe_leaf _ _ _); [|by apply K].
    destruct (compile a false w) as [r w1]. by apply K.
Qed.

(** C7: A dispatch that validates native code leaves registers and memory as the interpreter
    does from the same state; the native code runs from that state too, counts as clean
    exactly when the registers and memory it leaves are the interpreter's, and when the
    interpreter made a native call it does not run at all. *)
Theorem unvalidated_code_has_no_effect n w o w' :
  fragment_step (fun f => guest f (dispatch_n n)) w = Some (Some (Validated o), w') ->
  exists w1 wI, same_guest w1 w /\ interpret (fun f => guest f (dispatch_n n)) (g_self_heal_addr (thread w)) w1 = Some (true, wI) /\
    ctx w' = ctx wI /\ (forall p, in_ram p = true -> hbyte (rdram w') p = hbyte (rdram wI) p) /\
    if outcome_device_touch o then same_guest w' wI
    else exists f w0 wN, same_guest w0 w /\ guest f (dispatch_n n) w0 = Some wN /\
      (clean o = true <-> same_registers (ctx wN) (ctx wI) /\ forall p, in_ram p = true -> hbyte (rdram wN) p = hbyte (rdram wI) p) /\
      host w' = host wN /\ overlays w' = overlays wN.
Proof.
  unfold fragment_tier_step. destruct (_ && _); [|done]. pose proof (apart_candidate_for (g_self_heal_addr (thread w)) w) as Hw.
  destruct (candidate_for _ w) as [[c|] w1]; [|done]. cbn [snd] in Hw. destruct Hw as (C1 & C2 & C3 & C4 & C5). destruct (frag_native_enabled cfg); [|done].
  unfold run_candidate. destruct (_ || _); [intros E; apply bind_Some in E as ([ok w2] & _ & E); by destruct ok|].
  destruct (fn c) as [f|]; [|done]. destruct (_ >=? _); [intros E; apply bind_Some in E as (w2 & _ & E); done|].
  intros E. apply bind_Some in E as ([o' w2] & E2 & E). destruct (interp_ok o') eqn:Ho; [|done]. injection E as -> <-.
  apply shadow_diff_result in E2 as (wI & EI & H1 & H2 & _ & H3); [|done]. exists (armed w1), wI.
  assert (same_guest w1 w) as Hs by (unfold same_guest; rewrite C1, C2, C3, C4; done).
  destruct (apart_apply (g_self_heal_addr (thread w)) (content_hash c) o w2) as (B1 & B2 & B3 & B4 & _).
  set (w3 := frag_apply_diff_outcome _ _ _ _ _) in *.
  assert (apart_from_guest w3 (note (g_self_heal_addr (thread w)) REASON_FRAG w3)) as (D1 & D2 & D3 & D4 & _).
  { unfold note_interp_fallback. by destruct (match g_interp_fb _ !! _ with None => _ | Some _ => _ end). }
  rewrite D1, D2, B1, B2. repeat (split; [done|]). unfold same_guest at 1. rewrite D1, D2, D3, D4, B1, B2, B3, B4.
  destruct (outcome_device_touch o); [exact H3|]. destruct H3 as (w0 & wN & G1 & G2 & _ & G3 & G4 & G5).
  exists f, w0, wN. split; [|done]. destruct G1 as (A1 & A2 & A3 & A4). destruct Hs as (S1 & S2 & S3 & S4). unfold same_guest.
  rewrite A1, A3, A4, S1, S3, S4. repeat split. intros p Hp. by rewrite A2, S2.
Qed.

(** * Trust is earned *)

(** Clean diffs of a content at an address since the last that diverged. *)
Definition event_of (e : frag_event) : Z * Z :=
  match e with Diffed a h _ => (a, h) | Pinned a h => (a, h) | Ran_native a h => (a, h) end.
Definition count_diff (a h : Z) (n : Z) (e : frag_event) : Z :=
  match e with Diffed a' h' c => if (a' =? a) && (h' =? h) then if c then n + 1 else 0 else n | _ => n end.
Definition streak (a h : Z) (tr : list frag_event) : Z := foldl (count_diff a h) 0 tr.
Lemma streak_snoc a h tr e : streak a h (tr ++ [e]) = count_diff a h (streak a h tr) e.
Proof. unfold streak. by rewrite foldl_app. Qed.
Lemma streak_nonneg a h tr : 0 <= streak a h tr.
Proof. induction tr as [|e tr IH] using rev_ind; [done|]. rewrite streak_snoc. destruct e; cbn; try lia. destruct (_ && _), clean; lia. Qed.

Abbreviation candidate := (FragmentCandidate F).
Abbreviation cands := (gmap Z (list candidate)).
Definition chain_in (a : Z) (cs : cands) : list candidate := default [] (cs !! a).
Definition cand_in (a h : Z) (cs : cands) : option candidate := find (fun c => content_hash c =? h) (chain_in a cs).
(** Native code for an address and a content: compiled from what was there when some
    of its bytes had the content's hash and were a leaf. *)
Definition compiled_from (a h : Z) (f : F) : Prop :=
  exists m lo len size, 0 < len /\ fragment_live_code_hash m lo len = h /\ fragment_is_safe_leaf m lo len = true /\
    discover discover_function_bounds a m = Some size /\ codegen_function (words_of (code_bytes m a size)) a = Some f.
Definition trusted (tr : list frag_event) (a h : Z) (o : option candidate) : Prop :=
  match o with
  | Some c => diff_passes c = Z.min (frag_diff_budget cfg) (streak a h tr) /\ (Pinned a h ∈ tr -> device_touch c = true)
  | None => streak a h tr = 0 /\ Pinned a h ∉ tr
  end.
Record earned (cs : cands) (tr : list frag_event) : Prop := {
  e_trusted : forall a h, trusted tr a h (cand_in a h cs);
  e_first : forall a, first_only (chain_in a cs);
  e_native : forall i a h, tr !! i = Some (Ran_native a h) ->
    frag_diff_budget cfg <= streak a h (take i tr) /\ Pinned a h ∉ take i tr;
  e_compiled : forall a c f, c ∈ chain_in a cs -> fn c = Some f -> compiled_from a (content_hash c) f }.

Lemma chain_insert a l cs a' : chain_in a' (<[a := l]> cs) = if decide (a' = a) then l else chain_in a' cs.
Proof. unfold chain_in. destruct (decide (a' = a)) as [->|]; [by rewrite lookup_insert_eq|by rewrite lookup_insert_ne]. Qed.
Lemma trusted_other tr e a h o : (a, h) <> event_of e -> trusted tr a h o -> trusted (tr ++ [e]) a h o.
Proof.
  intros Hne. unfold trusted. rewrite streak_snoc.
  assert (count_diff a h (streak a h tr) e = streak a h tr) as ->.
  { destruct e as [a' h' c| |]; cbn; [|done|done]. destruct (_ && _) eqn:E; [|done]. exfalso. apply Hne. cbn. f_equal; lia. }
  assert (Pinned a h ∈ tr ++ [e] <-> Pinned a h ∈ tr) as Hp.
  { rewrite elem_of_app, list_elem_of_singleton. split; [|by left]. intros [?|<-]; [done|by destruct (Hne eq_refl)]. }
  destruct o; rewrite Hp; done.
Qed.
Lemma native_snoc tr e : (forall i a h, tr !! i = Some (Ran_native a h) -> frag_diff_budget cfg <= streak a h (take i tr) /\ Pinned a h ∉ take i tr) ->
  (forall a h, e = Ran_native a h -> frag_diff_budget cfg <= streak a h tr /\ Pinned a h ∉ tr) ->
  forall i a h, (tr ++ [e]) !! i = Some (Ran_native a h) -> frag_diff_budget cfg <= streak a h (take i (tr ++ [e])) /\ Pinned a h ∉ take i (tr ++ [e]).
Proof.
  intros H1 H2 i a h E. apply lookup_snoc_Some in E as [[Hlt E]|[-> E]].
  - rewrite take_app_le by lia. by apply H1.
  - rewrite take_app_length. by apply H2.
Qed.

(** Running native code that has earned it. *)
Lemma earned_native cs tr a h c : earned cs tr -> cand_in a h cs = Some c -> device_touch c = false -> frag_diff_budget cfg <= diff_passes c ->
  earned cs (tr ++ [Ran_native a h]).
Proof.
  intros [H1 H2 H3 H4] Ec Ed Hb. split; [|exact H2| |exact H4].
  - intros a' h'. pose proof (H1 a' h') as H5. destruct (cand_in a' h' cs) as [d|]; cbn [trusted] in *; rewrite streak_snoc; cbn;
      rewrite elem_of_app, list_elem_of_singleton; destruct H5 as [H5 H6]; (split; [done|]); [intros [?|?]; by auto|intros [?|?]; by auto].
  - apply native_snoc; [exact H3|]. intros a' h' [= <- <-]. pose proof (H1 a h) as H5. rewrite Ec in H5. destruct H5 as [H5 H6].
    split; [lia|]. intros Hp. rewrite H6 in Ed by done. done.
Qed.
(** An event about a content that changes no candidate. *)
Lemma earned_event cs tr a h e : earned cs tr -> event_of e = (a, h) -> (forall a' h', e <> Ran_native a' h') ->
  trusted (tr ++ [e]) a h (cand_in a h cs) -> earned cs (tr ++ [e]).
Proof.
  intros [H1 H2 H3 H4] He Hn Ht. split; [|exact H2| |exact H4].
  - intros a' h'. destruct (decide ((a', h') = (a, h))) as [[= -> ->]|Hne]; [exact Ht|]. apply trusted_other; [congruence|apply H1].
  - apply native_snoc; [exact H3|]. intros a' h' E. by apply Hn in E.
Qed.
(** Updating the candidate of a content, with at most one event about it. *)
Lemma earned_update cs tr a h l g c tr' : earned cs tr -> cs !! a = Some l -> keeps_hash g -> cand_in a h cs = Some c ->
  tr' = tr \/ (exists e, tr' = tr ++ [e] /\ event_of e = (a, h) /\ forall a' h', e <> Ran_native a' h') ->
  trusted tr' a h (Some (g c)) -> (forall f, fn (g c) = Some f -> compiled_from a h f) ->
  earned (<[a := update_first h g l]> cs) tr'.
Proof.
  intros [H1 H2 H3 H4] El Hk Ec Htr Ht Hf.
  assert (chain_in a cs = l) as Hl by (unfold chain_in; by rewrite El).
  assert (forall a' h', cand_in a' h' (<[a := update_first h g l]> cs) = if decide ((a', h') = (a, h)) then Some (g c) else cand_in a' h' cs) as Hfind.
  { intros a' h'. unfold cand_in. rewrite chain_insert. destruct (decide (a' = a)) as [->|Hne]; [|by rewrite decide_False by congruence].
    rewrite (update_first_find h g l Hk). rewrite <- Hl. destruct (Z.eqb_spec h' h) as [->|Hh].
    - rewrite decide_True by done. unfold cand_in in Ec. by rewrite Ec.
    - by rewrite decide_False by congruence. }
  assert (forall a' c', c' ∈ chain_in a' (<[a := update_first h g l]> cs) -> c' ∈ chain_in a' cs \/ a' = a /\ c' = g c) as Helem.
  { intros a' c'. rewrite chain_insert. destruct (decide (a' = a)) as [->|]; [|by left]. intros Hin. apply update_first_elem in Hin.
    rewrite <- Hl in Hin. destruct Hin as [?|(c0 & E0 & ->)]; [by left|]. right. unfold cand_in in Ec. rewrite Ec in E0. by injection E0 as <-. }
  apply find_hash in Ec as Hch. destruct Hch as [_ Hch]. split.
  - intros a' h'. rewrite Hfind. destruct (decide _) as [[= -> ->]|Hne]; [exact Ht|].
    destruct Htr as [->|(e & -> & He & _)]; [apply H1|]. apply trusted_other; [congruence|apply H1].
  - intros a'. rewrite chain_insert. destruct (decide (a' = a)) as [->|]; [|apply H2]. apply first_only_update; [done|]. rewrite <- Hl. apply H2.
  - destruct Htr as [->|(e & -> & _ & He)]; [exact H3|]. apply native_snoc; [exact H3|]. intros a' h' E. by apply He in E.
  - intros a' c' f Hin E. destruct (Helem _ _ Hin) as [Hold|[-> ->]]; [by apply H4|]. rewrite Hk, Hch. by apply Hf.
Qed.

Lemma compile_result a b (w : world) f size w' : compile a b w = (Some (f, size), w') ->
  discover discover_function_bounds a (rdram w) = Some size /\ codegen_function (words_of (code_bytes (rdram w) a size)) a = Some f.
Proof.
  unfold jit_compile_function. destruct (_ || _); [done|]. destruct (discover _ a (rdram w)) as [n|]; [|done]. cbn [mbind option_bind].
  destruct (codegen_function _ a) as [g|] eqn:E; [|done]. cbn [mbind option_bind]. intros [= -> -> _]. done.
Qed.
Lemma compile_tier a b (w : world) : g_frag_cands (tier (snd (compile a b w))) = g_frag_cands (tier w) /\ trail (tier (snd (compile a b w))) = trail (tier w).
Proof. unfold jit_compile_function. destruct (_ || _); [done|]. destruct (mbind _ _) as [[f n]|]; [|done]. by destruct b. Qed.

Context (Hbudget : 0 < frag_diff_budget cfg).
Definition earned_in (w : world) : Prop := earned (g_frag_cands (tier w)) (trail (tier w)).
Definition stays_earned (w w' : world) : Prop := earned_in w -> earned_in w'.
#[local] Instance stays_earned_preorder : PreOrder stays_earned.
Proof. split; [by intros w H0|]. intros w1 w2 w3 H1 H2 H3. by apply H2, H1. Qed.
Lemma stays_earned_same w w' : g_frag_cands (tier w') = g_frag_cands (tier w) -> trail (tier w') = trail (tier w) -> stays_earned w w'.
Proof. intros E1 E2 H1. unfold earned_in. by rewrite E1, E2. Qed.
Lemma stays_earned_respected : respected stays_earned.
Proof. split; intros; apply stays_earned_same; first [done|apply compile_tier]. Qed.

(** A candidate as the dispatch sees it is the first of its content once it has passed. *)
Definition seen (a : Z) (c : candidate) (w : world) : Prop :=
  (0 < diff_passes c -> cand_in a (content_hash c) (g_frag_cands (tier w)) = Some c) /\
  forall f, fn c = Some f -> compiled_from a (content_hash c) f.
Lemma cand_chain a h (w : world) c : cand_of a h w = Some c -> exists l, g_frag_cands (tier w) !! a = Some l.
Proof. unfold cand_of, chain. destruct (g_frag_cands (tier w) !! a) as [l|]; [by eexists|done]. Qed.
Lemma earned_in_update w a h g c tr' : earned_in w -> keeps_hash g -> cand_of a h w = Some c ->
  tr' = trail (tier w) \/ (exists e, tr' = trail (tier w) ++ [e] /\ event_of e = (a, h) /\ forall a' h', e <> Ran_native a' h') ->
  trusted tr' a h (Some (g c)) -> (forall f, fn (g c) = Some f -> compiled_from a h f) ->
  earned (g_frag_cands (tier (update_cand a h g w))) tr'.
Proof.
  intros H1 Hk Ec Htr Ht Hf. destruct (cand_chain _ _ _ _ Ec) as [l El]. unfold update_cand. rewrite El. cbn [tier set_tier set_cands g_frag_cands].
  by apply (earned_update _ _ a h l g c tr' H1).
Qed.
Lemma cand_compiled w a h c f : earned_in w -> cand_of a h w = Some c -> fn c = Some f -> compiled_from a h f.
Proof. intros H1 Ec Ef. apply find_hash in Ec as [Hin <-]. by apply (e_compiled _ _ H1 a c f). Qed.
Lemma earned_pin a h w : stays_earned w (pin a h w).
Proof.
  intros H1. unfold pin. destruct (cand_of a h w) as [c|] eqn:Ec; [|done]. unfold earned_in.
  set (w1 := record_event (Pinned a h) (if device_touch c then w else bump Frag_device_touch w)).
  assert (g_frag_cands (tier w1) = g_frag_cands (tier w) /\ trail (tier w1) = trail (tier w) ++ [Pinned a h]) as [E1 E2] by (by unfold w1; destruct (device_touch c)).
  assert (tier (update_cand a h pinned w1) = set_cands (g_frag_cands (tier (update_cand a h pinned w))) (tier w1)) as ->.
  { unfold update_cand. rewrite E1. destruct (g_frag_cands (tier w) !! a); cbn [tier set_tier set_cands g_frag_cands]; [done|]. rewrite <- E1. by destruct (tier w1). }
  cbn [g_frag_cands trail set_cands]. rewrite E2. apply (earned_in_update w a h pinned c); [done|done|done| | |].
  - right. eexists. split; [reflexivity|done].
  - pose proof (e_trusted _ _ H1 a h) as Ht. change (cand_in a h (g_frag_cands (tier w))) with (cand_of a h w) in Ht. rewrite Ec in Ht.
    destruct Ht as [Ht _]. split; [by rewrite streak_snoc|done].
  - intros f E. by apply (cand_compiled w a h c).
Qed.
Lemma earned_apply a h o w : stays_earned w (frag_apply_diff_outcome cfg a h o w).
Proof.
  intros H1. unfold frag_apply_diff_outcome. destruct (cand_of a h w) as [c|] eqn:Ec; [|done].
  destruct (outcome_device_touch o); [by apply earned_pin|]. destruct (negb (ran_native o)); [done|].
  pose proof (e_trusted _ _ H1 a h) as Ht. change (cand_in a h (g_frag_cands (tier w))) with (cand_of a h w) in Ht. rewrite Ec in Ht.
  destruct Ht as [Ht Hd]. set (e := Diffed a h (clean o)).
  assert (streak a h (trail (tier w) ++ [e]) = if clean o then streak a h (trail (tier w)) + 1 else 0) as Es.
  { rewrite streak_snoc. unfold e. cbn. by rewrite !Z.eqb_refl. }
  assert (forall g, keeps_hash g -> trusted (trail (tier w) ++ [e]) a h (Some (g c)) -> (forall f, fn (g c) = Some f -> fn c = Some f) ->
    earned (g_frag_cands (tier (update_cand a h g w))) (trail (tier w) ++ [e])) as K.
  { intros g Hk Hg' Hf. apply (earned_in_update w a h g c); [done|done|done| |done|intros f E; by apply (cand_compiled w a h c), Hf].
    right. exists e. split; [done|]. by split. }
  assert (forall n, (forall x, x = n -> x = Z.min (frag_diff_budget cfg) (streak a h (trail (tier w) ++ [e]))) ->
    earned (g_frag_cands (tier (update_cand a h (with_passes n) w))) (trail (tier w) ++ [e])) as Kn.
  { intros n Hn. apply K; [by intros ?| |done]. split; [by apply Hn|]. intros Hp. apply Hd. apply elem_of_app in Hp as [?|Hp]; [done|].
    by apply list_elem_of_singleton in Hp. }
  assert (forall n w1, tier w1 = set_trail (trail (tier w) ++ [e]) (tier w) ->
     earned_in (update_cand a h (with_passes n) w1) <-> earned (g_frag_cands (tier (update_cand a h (with_passes n) w))) (trail (tier w) ++ [e])) as Kw.
  { intros n w1 E. unfold earned_in, update_cand. rewrite E. cbn [set_trail g_frag_cands]. destruct (g_frag_cands (tier w) !! a); [|by rewrite E].
    done. }
  pose proof (streak_nonneg a h (trail (tier w))) as Hs.
  destruct (clean o) eqn:Eo.
  - destruct (Z.ltb_spec (diff_passes c) (frag_diff_budget cfg)) as [Hlt|Hge].
    + assert (earned_in (update_cand a h (with_passes (diff_passes c + 1)) (bump Frag_diff_clean (record_event e w)))) as K1.
      { apply Kw; [done|]. apply Kn. intros x ->. rewrite Es. lia. }
      unfold e in K1. by destruct (_ =? _).
    + apply (earned_event (g_frag_cands (tier w)) (trail (tier w)) a h (Diffed a h true)); [exact H1|done|done|].
      change (cand_in a h (g_frag_cands (tier w))) with (cand_of a h w). rewrite Ec. split; [unfold e in Es; rewrite Es; lia|]. intros Hp. apply Hd. apply elem_of_app in Hp as [?|Hp]; [done|]. by apply list_elem_of_singleton in Hp.
  - apply Kw; [done|]. apply Kn. intros x ->. rewrite Es. lia.
Qed.
Lemma find_app {A} (g : A -> bool) l1 l2 : find g (l1 ++ l2) = match find g l1 with Some x => Some x | None => find g l2 end.
Proof. induction l1 as [|x l1 IH]; [done|]. cbn. by destruct (g x). Qed.
(** A new candidate, which has passed no diff. *)
Lemma earned_push cs tr a c : earned cs tr -> diff_passes c = 0 -> (forall f, fn c = Some f -> compiled_from a (content_hash c) f) ->
  earned (<[a := chain_in a cs ++ [c]]> cs) tr.
Proof.
  intros [H1 H2 H3 H4] Hp Hf. split; [| |exact H3|].
  - intros a' h'. unfold cand_in. rewrite chain_insert. destruct (decide (a' = a)) as [->|]; [|apply H1].
    rewrite find_app. pose proof (H1 a h') as Ht. unfold cand_in in Ht. destruct (find _ (chain_in a cs)); [exact Ht|]. cbn [find].
    destruct (content_hash c =? h'); [|exact Ht]. destruct Ht as [Ht1 Ht2]. split; [rewrite Hp, Ht1; lia|]. by intros ?.
  - intros a'. rewrite chain_insert. destruct (decide (a' = a)) as [->|]; [|apply H2]. apply first_only_snoc; [apply H2|lia].
  - intros a' c' f. rewrite chain_insert. destruct (decide (a' = a)) as [->|]; [|apply H4]. intros [Hin|Hin]%elem_of_app; [by apply H4|].
    apply list_elem_of_singleton in Hin. subst c'. apply Hf.
Qed.
Lemma persist_cands (w : world) : g_frag_cands (tier (persist_fragment_manifest cfg w)) = g_frag_cands (tier w) /\ trail (tier (persist_fragment_manifest cfg w)) = trail (tier w).
Proof. unfold persist_fragment_manifest. by destruct (negb _). Qed.

(** Native code just compiled for live bytes. *)
Lemma compiled_now a lo len (w : world) f size w1 : 0 < len -> fragment_is_safe_leaf (rdram w) lo len = true -> compile a false w = (Some (f, size), w1) ->
  compiled_from a (fragment_live_code_hash (rdram w) lo len) f.
Proof. intros Hl Hs E. apply compile_result in E as [E1 E2]. exists (rdram w), lo, len, size. by repeat (split; [done|]). Qed.
Lemma discover_size a m n : discover discover_function_bounds a m = Some n -> 8 <= n.
Proof.
  unfold discover. destruct (_ <? 8); [done|]. destruct (discover_function_bounds _ _) as [k|]; [|done]. cbn [mbind option_bind].
  destruct (_ && _) eqn:E; [|done]. intros [= ->]. lia.
Qed.

Lemma earned_new a w : earned_in w -> let '(o, w1) := new_candidate cfg discover_function_bounds codegen_function a w in
  earned_in w1 /\ forall c, o = Some c -> diff_passes c = 0 /\ forall f, fn c = Some f -> compiled_from a (content_hash c) f.
Proof.
  intros H1. unfold new_candidate. destruct (discover _ a (rdram w)) as [size|] eqn:Ed; [|by split]. apply discover_size in Ed.
  set (c0 := MkCandidate a (fragment_live_code_hash (rdram w) a size) a size None 0 false false).
  assert (forall c w1, earned_in w1 -> diff_passes c = 0 -> (forall f, fn c = Some f -> compiled_from a (content_hash c) f) ->
    let w2 := bump Frag_candidates (persist_fragment_manifest cfg (set_tier (set_cands (<[a := chain a w1 ++ [c]]> (g_frag_cands (tier w1))) (tier w1)) w1)) in
    earned_in (if device_touch c then bump Frag_device_touch w2 else w2) /\
    forall c', Some c = Some c' -> diff_passes c' = 0 /\ forall f, fn c' = Some f -> compiled_from a (content_hash c') f) as K.
  { intros c w1 Hw Hp Hf w2. split; [|by intros c' [= <-]]. assert (earned_in w2) as H2; [|by destruct (device_touch c)].
    unfold earned_in, w2. set (w3 := set_tier _ _). destruct (persist_cands w3) as [E1 E2]. 
    change (earned (g_frag_cands (tier (persist_fragment_manifest cfg w3))) (trail (tier (persist_fragment_manifest cfg w3)))).
    rewrite E1, E2. by apply (earned_push (g_frag_cands (tier w1)) (trail (tier w1)) a c). }
  destruct (negb (frag_native_enabled cfg)); [by apply K|]. destruct (fragment_is_safe_leaf (rdram w) a size) eqn:Es; [|by apply K].
  pose proof (r_jit _ stays_earned_respected w a false H1) as H2. destruct (compile a false w) as [[[f n]|] w1] eqn:Ec; cbn [snd] in H2; [|by apply K].
  apply K; [exact H2|done|]. intros f' [= <-]. apply (compiled_now a a size w f n w1); [lia|done|done].
Qed.
Lemma seen_of_chain a c w : earned_in w -> c ∈ chain_in a (g_frag_cands (tier w)) -> seen a c w.
Proof.
  intros H1 Hc. split; [intros Hp; by apply first_only_find; [apply (e_first _ _ H1)| |]|]. intros f. by apply (e_compiled _ _ H1).
Qed.
Lemma update_cand_find a h g (w : world) c : keeps_hash g -> cand_of a h w = Some c -> cand_of a h (update_cand a h g w) = Some (g c).
Proof.
  intros Hk Ec. destruct (cand_chain _ _ _ _ Ec) as [l El]. unfold update_cand. rewrite El. unfold cand_of, chain in *. rewrite El in Ec.
  cbn [tier set_tier set_cands g_frag_cands]. rewrite lookup_insert_eq. cbn [default from_option id]. rewrite (update_first_find h g l Hk), Z.eqb_refl.
  cbn in Ec. by rewrite Ec.
Qed.
Lemma earned_candidate_for a w : earned_in w -> let '(o, w1) := candidate_for a w in
  earned_in w1 /\ forall c, o = Some c -> seen a c w1.
Proof.
  intros H1. unfold Tiers.candidate_for. destruct (live_candidate a w) as [c|] eqn:El.
  2: { pose proof (earned_new a w H1) as H2. destruct (new_candidate _ _ _ a w) as [o w1]. destruct H2 as [H2 H3]. split; [done|].
       intros c E. destruct (H3 c E) as [E1 E2]. split; [lia|done]. }
  apply find_some in El as [Hin Hm]. apply list_elem_of_In in Hin. pose proof (seen_of_chain a c w H1 Hin) as [Hs1 Hs2].
  destruct (_ && _); [|by split; [done|intros ? [= <-]]]. unfold compile_candidate.
  destruct (fragment_is_safe_leaf (rdram w) (code_lo c) (code_len c)) eqn:Es.
  - pose proof (r_jit _ stays_earned_respected w a false H1) as H2. destruct (compile_tier a false w) as [E1 E2].
    destruct (compile a false w) as [[[f n]|] w1] eqn:Ec; cbn [snd] in H2, E1, E2.
    2: { split; [done|]. intros ? [= <-]. split; [by rewrite E1|done]. }
    assert (compiled_from a (content_hash c) f) as Hf.
    { unfold matches in Hm. apply andb_true_iff in Hm as [Hm1 Hm2%Z.eqb_eq]. rewrite <- Hm2. apply (compiled_now a _ _ w f n w1); [lia|done|done]. }
    destruct (cand_in a (content_hash c) (g_frag_cands (tier w1))) as [c0|] eqn:E0.
    2: { apply (find_hash_none _ _) with (c := c) in E0; [done|]. rewrite E1. exact Hin. }
    assert (earned_in (update_cand a (content_hash c) (with_fn (Some f)) w1)) as H3.
    { assert (trail (tier (update_cand a (content_hash c) (with_fn (Some f)) w1)) = trail (tier w1)) as Et
        by (unfold update_cand; by destruct (g_frag_cands (tier w1) !! a)).
      unfold earned_in at 1. rewrite Et. apply (earned_in_update w1 a _ _ c0); [done|by intros ?|exact E0|by left| |by intros f' [= <-]].
      pose proof (e_trusted _ _ H2 a (content_hash c)) as Ht. rewrite E0 in Ht. exact Ht. }
    split; [done|]. intros ? [= <-]. split; [|by intros f' [= <-]]. intros Hp.
    assert (c0 = c) as ->. { pose proof (Hs1 Hp) as E3. rewrite <- E1, E0 in E3. by injection E3. }
    change (cand_of a (content_hash c) (update_cand a (content_hash c) (with_fn (Some f)) w1) = Some (with_fn (Some f) c)).
    by apply update_cand_find; [intros ?|].
  - split; [by apply earned_pin|]. intros ? [= <-]. split; [|exact Hs2]. intros Hp. specialize (Hs1 Hp).
    change (cand_of a (content_hash c) (pin a (content_hash c) w) = Some (pinned c)). unfold pin.
    change (cand_of a (content_hash c) w = Some c) in Hs1. rewrite Hs1. apply update_cand_find; [by intros ?|]. by destruct (device_touch c).
Qed.

Section Call.
Context (call : F -> world -> option world) (Hcall : forall f w w', call f w = Some w' -> stays_earned w w').
Lemma earned_diff a f w o w' : run_shadow_diff code_sections section_relocs cfg interp call a f w = Some (o, w') -> stays_earned w w'.
Proof.
  unfold run_shadow_diff. intros E. apply bind_Some in E as ([ok w1] & E1 & E).
  apply (r_interpret _ stays_earned_respected Hi call Hcall) in E1. assert (stays_earned w w1) as H1 by exact E1.
  destruct (negb ok); [injection E as _ <-; exact H1|]. cbn in E. destruct (t_shadow_touched_native (thread w1)); [injection E as _ <-; exact H1|].
  apply bind_Some in E as (w2 & E2 & [= _ <-]). apply Hcall in E2. intros H2. apply E2. apply H1, H2.
Qed.
Lemma earned_run a c w r w' : seen a c w ->
  run_candidate total_vis code_sections section_relocs cfg interp call a c w = Some (r, w') -> stays_earned w w'.
Proof.
  intros [Hs _]. unfold run_candidate. intros E.
  assert (forall r0 w0, stays_earned w0 (note a r0 w0)) as Hn by (intros r0 w0; apply (r_note _ stays_earned_respected)).
  destruct (device_touch c || blacklisted c) eqn:Ed.
  - apply bind_Some in E as ([ok w1] & E1 & E). apply (r_interpret _ stays_earned_respected Hi call Hcall) in E1.
    etransitivity; [exact E1|]. destruct ok; injection E as _ <-; [apply Hn|done].
  - destruct (fn c) as [f|]; [|by injection E as _ <-]. apply orb_false_iff in Ed as [Ed _]. destruct (_ >=? _) eqn:Eb.
    + apply bind_Some in E as (w1 & E1 & [= _ <-]). apply Hcall in E1. intros H1. apply E1.
      apply (earned_native (g_frag_cands (tier w)) (trail (tier w)) a (content_hash c) c); [exact H1|apply Hs; lia|done|lia].
    + apply bind_Some in E as ([o w1] & E1 & E). apply earned_diff in E1. etransitivity; [exact E1|].
      destruct (interp_ok o); injection E as _ <-; [|done]. etransitivity; [apply (earned_apply a (content_hash c) o)|].
      apply Hn.
Qed.
Lemma earned_fragment_step w r w' : fragment_step call w = Some (r, w') -> stays_earned w w'.
Proof.
  unfold fragment_tier_step. destruct (_ && _); [|by intros [= _ <-]]. intros E H1.
  pose proof (earned_candidate_for (g_self_heal_addr (thread w)) w H1) as H2. destruct (candidate_for _ w) as [[c|] w1]; destruct H2 as [H2 H3].
  - destruct (frag_native_enabled cfg); [|by injection E as _ <-]. by apply (earned_run _ _ _ _ _ (H3 c eq_refl) E).
  - by injection E as _ <-.
Qed.
End Call.

Lemma earned_dispatch n addr w w' : dispatch_n n addr w = Some w' -> stays_earned w w'.
Proof. apply (r_dispatch _ stays_earned_respected Hi Hg). intros call Hc w0 r w0'. by apply earned_fragment_step. Qed.

(** The start of a session: candidates come from the manifest only, without native
    code and without a history. *)
Definition fresh (w : world) : Prop :=
  trail (tier w) = [] /\ forall a c, c ∈ chain a w -> diff_passes c = 0 /\ fn c = None.
Lemma fresh_earned w : fresh w -> earned_in w.
Proof.
  intros [Et Hc]. unfold earned_in. rewrite Et. split.
  - intros a h. destruct (cand_in a h (g_frag_cands (tier w))) as [c|] eqn:E; [|by split; [|apply not_elem_of_nil]].
    apply find_hash in E as [Hin _]. split; [rewrite (proj1 (Hc a c Hin)); cbn; lia|]. by intros ?%elem_of_nil.
  - intros a. specialize (Hc a). unfold chain, chain_in in *. revert Hc. generalize (default [] (g_frag_cands (tier w) !! a)). intros l Hc.
    induction l as [|c l IH]; [done|]. split; [|apply IH; intros d Hd; apply Hc; by right]. intros d Hd _. rewrite (proj1 (Hc d ltac:(by right))). lia.
  - intros i a h E. by rewrite lookup_nil in E.
  - intros a c f Hin Ef. by rewrite (proj2 (Hc a c Hin)) in Ef.
Qed.
(** A step of the session: a call, or what happens outside. *)
Definition session_step (w w' : world) : Prop :=
  (exists n addr, dispatch_n n addr w = Some w') \/ exists c m s h, w' = outside c m s h w.

(** C6: From a session that starts with the candidates of the manifest, however functions
    are called and whatever happens outside, the fragment tier runs native code only when,
    since the last diff of that address and content that diverged, at least the budget of
    diffs came out clean and none ever made a native call; the code was compiled from guest
    memory whose bytes have the content's hash, and the counter of a content is its streak,
    up to the budget. *)
Theorem native_code_is_validated w w' : fresh w -> rtc session_step w w' ->
  (forall i a h, trail (tier w') !! i = Some (Ran_native a h) ->
     frag_diff_budget cfg <= streak a h (take i (trail (tier w'))) /\ Pinned a h ∉ take i (trail (tier w'))) /\
  (forall a c f, c ∈ chain a w' -> fn c = Some f -> compiled_from a (content_hash c) f) /\
  forall a h c, cand_of a h w' = Some c -> diff_passes c = Z.min (frag_diff_budget cfg) (streak a h (trail (tier w'))).
Proof.
  intros Hf Hr. assert (earned_in w') as [H1 _ H3 H4].
  { apply fresh_earned in Hf. induction Hr as [|w w1 w2 [(n & a & E)|(c & m & s & h & ->)] _ IH]; [done| |by apply IH].
    apply IH. by apply (earned_dispatch n a w). }
  split; [exact H3|]. split; [exact H4|]. intros a h c E. specialize (H1 a h). change (cand_in a h (g_frag_cands (tier w'))) with (cand_of a h w') in H1.
  rewrite E in H1. apply H1.
Qed.

(** * When the program aborts *)

Lemma or_else_none a (k : world -> option (option served * world)) : or_else a k = None ->
  a = None \/ exists w, a = Some (None, w) /\ k w = None.
Proof. unfold or_else. destruct a as [[[s|] w]|]; cbn [mbind option_bind]; [done|right; by eexists|by left]. Qed.
Lemma or_else_pass a (k : world -> option (option served * world)) w : or_else a k = Some (None, w) -> exists w1, a = Some (None, w1) /\ k w1 = Some (None, w).
Proof. unfold or_else. destruct a as [[[s|] w1]|]; cbn [mbind option_bind]; [done|by eexists|done]. Qed.

(** C8: If recompiled code and the interpreter come back, a call of a missing function
    aborts only outside a discovery sweep, and then the interpreter is switched off or has
    reported that it could not run a function. *)
Theorem abort_needs_a_stuck_interpreter call w :
  (forall f w1, is_Some (call f w1)) -> (forall pc w1, is_Some (interpret call pc w1)) ->
  unhandled_lookup_trampoline total_vis code_sections section_relocs cfg discover_function_bounds codegen_function interp call w = None ->
  interp_discovery_enabled cfg = false /\
  (interp_enabled cfg = true -> exists w1 w2, interpret call (g_self_heal_addr (thread w1)) w1 = Some (false, w2)).
Proof.
  intros Hc Hint E.
  assert (forall f w1, call f w1 = None -> False) as Hc' by (intros f w1 E1; destruct (Hc f w1) as [? E2]; by rewrite E1 in E2).
  assert (forall pc w1, interpret call pc w1 = None -> False) as Hi' by (intros pc w1 E1; destruct (Hint pc w1) as [? E2]; by rewrite E1 in E2).
  assert (forall A B (m : option A) (k : A -> option B), (m = None -> False) -> (m ≫= k) = None -> exists x, m = Some x /\ k x = None) as Hb.
  { intros A B m k Hm E1. destruct m as [x|]; [by exists x|by destruct Hm]. }
  assert (forall w1, self_heal total_vis code_sections section_relocs cfg interp call w1 = None -> False) as H1.
  { intros w1 E1. unfold self_heal in E1. destruct (find_resident_enclosing_function _ _ w1) as [[[f t] st]|]; [|done].
    apply Hb in E1 as (w2 & _ & E1); [|apply Hc']. destruct (negb _); [|done]. unfold reject_interpret in E1. destruct (_ <? _); [|done].
    apply Hb in E1 as ([ok w3] & _ & E1); [|apply Hi']. by destruct ok. }
  assert (forall w1, jit_tier code_sections cfg discover_function_bounds codegen_function call w1 = None -> False) as H2.
  { intros w1 E1. unfold jit_tier in E1. destruct (_ && _); [|done]. destruct (compile _ true w1) as [[[f n]|] w2]; [|done].
    apply Hb in E1 as (w3 & _ & E1); [done|apply Hc']. }
  assert (forall w1, restore_evicted call w1 = None -> False) as H3.
  { intros w1 E1. unfold restore_evicted in E1. destruct (g_evicted_funcs _ !! _); [|done]. apply Hb in E1 as (w3 & _ & E1); [done|apply Hc']. }
  assert (forall a f w1, run_shadow_diff code_sections section_relocs cfg interp call a f w1 = None -> False) as H4.
  { intros a f w1 E1. unfold run_shadow_diff in E1. apply Hb in E1 as ([ok w2] & _ & E1); [|apply Hi']. destruct (negb ok); [done|].
    destruct (t_shadow_touched_native _); [done|]. apply Hb in E1 as (w3 & _ & E1); [done|apply Hc']. }
  assert (forall w1, fragment_step call w1 = None -> False) as H5.
  { intros w1 E1. unfold fragment_tier_step in E1. destruct (_ && _); [|done]. destruct (candidate_for _ w1) as [[c|] w2]; [|done].
    destruct (frag_native_enabled cfg); [|done]. unfold run_candidate in E1. destruct (_ || _).
    - apply Hb in E1 as ([ok w3] & _ & E1); [|apply Hi']. by destruct ok.
    - destruct (fn c); [|done]. destruct (_ >=? _).
      + apply Hb in E1 as (w3 & _ & E1); [done|apply Hc'].
      + apply Hb in E1 as ([o w3] & _ & E1); [|apply H4]. by destruct (interp_ok o). }
  unfold unhandled_lookup_trampoline in E. destruct (or_else (self_heal _ _ _ _ _ _ w) _) as [[r w9]|] eqn:Eo; cbn [mbind option_bind] in E.
  - destruct r; [done|]. destruct (interp_discovery_enabled cfg); [done|]. split; [done|]. intros Hen.
    apply or_else_pass in Eo as (w1 & _ & Eo). apply or_else_pass in Eo as (w2 & _ & Eo). apply or_else_pass in Eo as (w3 & _ & Eo).
    apply or_else_pass in Eo as (w4 & _ & Eo). unfold interpreter_floor in Eo. rewrite Hen in Eo. apply bind_Some in Eo as ([ok w5] & E5 & Eo).
    destruct ok; [done|]. by exists w4, w5.
  - exfalso. apply or_else_none in Eo as [Eo|(w1 & _ & Eo)]; [by apply H1 in Eo|]. apply or_else_none in Eo as [Eo|(w2 & _ & Eo)]; [by apply H2 in Eo|].
    apply or_else_none in Eo as [Eo|(w3 & _ & Eo)]; [by apply H3 in Eo|]. apply or_else_none in Eo as [Eo|(w4 & _ & Eo)]; [by apply H5 in Eo|].
    unfold interpreter_floor in Eo. destruct (interp_enabled cfg); [|done]. apply Hb in Eo as ([ok w5] & _ & Eo); [|apply Hi']. by destruct ok.
Qed.

(** * The comparison of compiled with recompiled code *)

Context (func_cap per_func : Z).
Abbreviation twin_of := (ab_twin discover_function_bounds codegen_function per_func).
Abbreviation compare := (tcc_ab_run discover_function_bounds codegen_function per_func).
Lemma ab_twin_world vram e t (w : world) : apart_from_guest w (snd (twin_of vram e t w)).
Proof.
  unfold ab_twin. destruct (ab_state e); [|by destruct (_ <? _)|done]. pose proof (apart_compile vram w) as Hc.
  destruct (compile vram false w) as [[[f n]|] w1]; [|exact Hc]. by destruct (fragment_is_safe_leaf _ _ _).
Qed.

(** C9: A call that the development build runs through the comparison of compiled with
    recompiled code leaves the registers and memory that the recompiled function leaves from
    the same state, whatever the compiled twin does; without a twin it is just that call. *)
Theorem comparison_is_transparent call vram t (w : world) t' w' e : g_ab_entries t !! vram = Some e -> compare call vram t w = Some (t', w') ->
  exists w0 wS, same_guest w0 w /\ call (static_fn e) w0 = Some wS /\ ctx w' = ctx wS /\
    (forall p, in_ram p = true -> hbyte (rdram w') p = hbyte (rdram wS) p) /\
    (fst (fst (twin_of vram e t w)) = None -> w' = wS).
Proof.
  intros Ee. unfold tcc_ab_run. rewrite Ee. pose proof (ab_twin_world vram e t w) as (C1 & C2 & C3 & C4 & _).
  destruct (twin_of vram e t w) as [[twin t1] w1]. cbn [fst snd] in *. destruct twin as [twin|]; intros E.
  - apply bind_Some in E as (wS & ES & E). apply bind_Some in E as (wT & ET & [= _ <-]). exists w1, wS.
    split; [by unfold same_guest; rewrite C1, C2, C3, C4|]. split; [done|]. split; [done|]. split; [|done]. intros p Hp. cbn. by rewrite copy_ram_byte, Hp.
  - apply bind_Some in E as (wS & ES & [= _ <-]). exists w1, wS. split; [by unfold same_guest; rewrite C1, C2, C3, C4|]. done.
Qed.

(** The caps hold: no more functions than allowed, each compared no more often. *)
Definition within_caps (t : ab_tools F) : Prop :=
  g_ab_armed_count t = Z.of_nat (base.size (g_ab_entries t)) /\ g_ab_armed_count t <= func_cap /\
  forall v e, g_ab_entries t !! v = Some e -> 0 <= runs e <= per_func /\ (ab_state e = PendingCompile -> runs e = 0).
Lemma within_caps_set t v e e' : within_caps t -> g_ab_entries t !! v = Some e -> 0 <= runs e' <= per_func ->
  (ab_state e' = PendingCompile -> runs e' = 0) -> within_caps (set_entry v e' t).
Proof.
  intros (H1 & H2 & H3) Ee Hr Hp. split; [|split; [done|]].
  - cbn. rewrite map_size_insert, Ee. done.
  - intros v' d. cbn. destruct (decide (v = v')) as [->|]; [rewrite lookup_insert_eq; by intros [= <-]|rewrite lookup_insert_ne by done; apply H3].
Qed.
Lemma intercept_within_caps v f t : 0 <= func_cap < 2 ^ 32 -> 0 <= per_func -> within_caps t -> within_caps (snd (tcc_ab_intercept func_cap per_func v f t)).
Proof.
  intros Hcap Hper Ht. unfold tcc_ab_intercept. destruct (g_ab_entries t !! v) as [e|] eqn:Ee; [by destruct (ab_state e)|].
  destruct (_ >=? _) eqn:E; [done|]. destruct Ht as (H1 & H2 & H3). cbn [snd]. split; [|split].
  - cbn. rewrite map_size_insert, Ee. unfold u32. rewrite Z.mod_small; lia.
  - cbn. unfold u32. rewrite Z.mod_small; lia.
  - intros v' d. cbn. destruct (decide (v = v')) as [->|]; [rewrite lookup_insert_eq; intros [= <-]; cbn; lia|rewrite lookup_insert_ne by done; apply H3].
Qed.
Lemma compare_within_caps call v t (w : world) t' w' : 1 <= per_func < 2 ^ 32 -> within_caps t -> compare call v t w = Some (t', w') -> within_caps t'.
Proof.
  intros Hper Ht. unfold tcc_ab_run. destruct (g_ab_entries t !! v) as [e|] eqn:Ee; [|by intros [= <- _]].
  assert (within_caps (snd (fst (twin_of v e t w)))) as H1.
  { pose proof (proj2 (proj2 Ht) v e Ee) as [Hr Hp]. unfold ab_twin. destruct (ab_state e) eqn:Es; [|destruct (_ <? _) eqn:El; [|done]|done].
    - specialize (Hp eq_refl). destruct (compile v false w) as [[[f n]|] w1]; [|by apply (within_caps_set t v e)].
      destruct (fragment_is_safe_leaf _ _ _); apply (within_caps_set t v e); try done. cbn [runs]. rewrite Hp. change (0 <= 1 <= per_func). lia.
    - apply (within_caps_set t v e); [done|done| |done]. cbn. unfold u32. rewrite Z.mod_small; lia. }
  destruct (twin_of v e t w) as [[twin t1] w1]. cbn [fst snd] in *. destruct twin as [twin|]; intros E.
  - apply bind_Some in E as (wS & _ & E). apply bind_Some in E as (wT & _ & [= <- _]).
    assert (forall b t2, within_caps t2 -> within_caps (count_run b t2)) as Hc by done. apply Hc.
    destruct (_ && _); [done|]. destruct (g_ab_entries t1 !! v) as [d|] eqn:Ed; [|done]. destruct (proj2 (proj2 H1) v d Ed).
    by apply (within_caps_set t1 v d).
  - by apply bind_Some in E as (wS & _ & [= <- _]).
Qed.
End Confined.

(** * The interpreter's log *)

Section Notes.
Context {F H X : Type} (total_vis : H -> Z).
Abbreviation world := (world F H X).
Definition note_at (w : world) (n : Z * InterpReason * H) : world :=
  let '(a, r, h) := n in note_interp_fallback total_vis a r (outside (ctx w) (rdram w) (overlays w) h w).
(** The frames of the notes on an address. *)
Definition frames_of (a : Z) (ns : list (Z * InterpReason * H)) : list Z :=
  (fun n => total_vis (snd n)) <$> filter (fun n => n.1.1 = a) ns.
Definition late (f0 : Z) (fs : list Z) : bool := existsb (fun f => f >=? u64 (f0 + 30)) fs.
Definition lines_of (a : Z) (w : world) : list interp_event := line_event <$> filter (fun l => line_addr l = a) (interp_log (stats w)).

Lemma frames_snoc a ns b r h : frames_of a (ns ++ [(b, r, h)]) = frames_of a ns ++ if decide (b = a) then [total_vis h] else [].
Proof. unfold frames_of. rewrite filter_app, fmap_app, filter_cons, filter_nil. cbn [fst]. by destruct (decide (b = a)). Qed.
Lemma note_effect a r (w : world) : let frame := total_vis (host w) in let w' := note_interp_fallback total_vis a r w in
  exists fb ls, g_interp_fb (stats w') = <[a := fb]> (g_interp_fb (stats w)) /\
    (forall b, lines_of b w' = lines_of b w ++ if decide (a = b) then ls else []) /\ last_frame fb = frame /\
    match g_interp_fb (stats w) !! a with
    | None => first_frame fb = frame /\ chronic_logged fb = false /\ fallback_hits fb = 1 /\ ls = [New]
    | Some fb0 => first_frame fb = first_frame fb0 /\ fallback_hits fb = u64 (fallback_hits fb0 + 1) /\
        let late := frame >=? u64 (first_frame fb0 + 30) in
        chronic_logged fb = chronic_logged fb0 || late /\ ls = if negb (chronic_logged fb0) && late then [Chronic] else []
    end.
Proof.
  intros frame w'. unfold w', note_interp_fallback. cbn [stats bump set_stats g_interp_fb host].
  assert (forall b ls c m cs, (forall l, l ∈ ls -> line_addr l = a) ->
    lines_of b (set_stats (MkTelemetry c m (interp_log (stats w) ++ ls) cs) w) = lines_of b w ++ if decide (a = b) then line_event <$> ls else []) as K.
  { intros b ls c m cs Hls. unfold lines_of. cbn. rewrite filter_app, fmap_app. f_equal. clear -Hls. induction ls as [|l ls IH]; [by destruct (decide _)|].
    rewrite filter_cons, (Hls l) by (by left).
    assert (line_event <$> filter (fun l => line_addr l = b) ls = if decide (a = b) then line_event <$> ls else []) as IH' by (apply IH; intros; apply Hls; by right).
    destruct (decide (a = b)); cbn; by rewrite <- ?IH'. }
  destruct (g_interp_fb (stats w) !! a) as [fb0|]; eexists _, _; (split; [reflexivity|]; split; [intros b; apply (K b); intros l|]).
  - destruct (_ && _); [intros ->%list_elem_of_singleton; done|by intros ?%elem_of_nil].
  - split; [done|]. split; [done|]. split; [done|]. cbn [chronic_logged]. split; [by destruct (chronic_logged fb0), (_ >=? _)|by destruct (_ && _)].
  - by intros ->%list_elem_of_singleton.
  - done.
Qed.
Lemma late_app f0 fs gs : late f0 (fs ++ gs) = late f0 fs || late f0 gs.
Proof. apply existsb_app. Qed.

(** C: the log. *)
Theorem at_most_two_lines (w : world) ns a : g_interp_fb (stats w) = ∅ -> interp_log (stats w) = [] ->
  let w' := foldl note_at w ns in
  match frames_of a ns with
  | [] => g_interp_fb (stats w') !! a = None /\ lines_of a w' = []
  | f0 :: fs => lines_of a w' = New :: (if late f0 fs then [Chronic] else []) /\
      exists fb, g_interp_fb (stats w') !! a = Some fb /\ first_frame fb = f0 /\ chronic_logged fb = late f0 fs /\
        fallback_hits fb = u64 (Z.of_nat (S (length fs))) /\ last_frame fb = List.last fs f0
  end.
Proof.
  intros E1 E2. cbn zeta. induction ns as [|[[b r] h] ns IH] using rev_ind; [cbn; unfold lines_of; by rewrite E1, E2|].
  rewrite foldl_app, frames_snoc. cbn [foldl]. set (w' := foldl note_at w ns) in *. unfold note_at.
  destruct (note_effect b r (outside (ctx w') (rdram w') (overlays w') h w')) as (fb & ls & Em & El & Ef & Ec).
  set (w2 := note_interp_fallback _ _ _ _) in *. cbn [host outside stats] in *. change (forall b0, lines_of b0 w2 = lines_of b0 w' ++ if decide (b = b0) then ls else []) in El.
  rewrite Em, El. destruct (decide (b = a)) as [->|Hne]; [|by rewrite !app_nil_r, lookup_insert_ne]. rewrite lookup_insert_eq.
  destruct (frames_of a ns) as [|f0 fs]; cbn [app].
  - destruct IH as [Ea El0]. rewrite Ea in Ec. destruct Ec as (E3 & E4 & E5 & ->). rewrite El0. split; [done|]. by exists fb.
  - destruct IH as (El0 & fb0 & Ea & E3 & E4 & E5 & E6). rewrite Ea in Ec. destruct Ec as (E7 & E8 & E9 & ->). rewrite El0, late_app. cbn [late existsb].
    rewrite orb_false_r. rewrite E3, E4 in *. split; [by destruct (late f0 fs), (_ >=? _)|].
    exists fb. rewrite E7, E8, E9, Ef, E5, length_app, last_last. cbn [length]. repeat split. unfold u64. zlia.
Qed.
End Notes.

(** * The manifest *)

Section Manifest.
Context {F : Type}.
Abbreviation candidate := (FragmentCandidate F).

Lemma digit_of_hex d : 0 <= d < 16 -> digit_value (hex_digit d) = d.
Proof.
  intros Hd. assert (forallb (fun d => digit_value (hex_digit d) =? d) (seqZ 0 16) = true) as E by (vm_compute; reflexivity).
  rewrite forallb_forall in E. apply Z.eqb_eq, E, list_elem_of_In, elem_of_seqZ. lia.
Qed.
Lemma read_hex n v acc : read_digits 16 acc (hex_digits n v) = acc * 16 ^ Z.of_nat n + v mod 16 ^ Z.of_nat n.
Proof.
  revert acc. induction n as [|n IH]; intros acc; cbn [hex_digits read_digits]; [rewrite Z.mod_1_r; lia|].
  rewrite digit_of_hex by (apply Z.mod_pos_bound; lia). rewrite (proj2 (Z.ltb_lt _ _)) by (apply Z.mod_pos_bound; lia).
  rewrite IH. replace (Z.of_nat (S n)) with (Z.of_nat n + 1) by lia. rewrite Z.pow_add_r, Z.pow_1_r by lia.
  rewrite (Z.rem_mul_r v (16 ^ Z.of_nat n) 16) by lia. lia.
Qed.
Lemma strtoull_hex n v : 0 <= v < 16 ^ Z.of_nat (S n) -> v < 2 ^ 64 -> strtoull ("0x" ++ hex_digits (S n) v) = v.
Proof.
  intros Hv Hmax. change (strtoull ("0x" ++ hex_digits (S n) v)) with (Z.min (read_magnitude ("0x" ++ hex_digits (S n) v)) (2 ^ 64 - 1)).
  assert (read_magnitude ("0x" ++ hex_digits (S n) v) = v) as ->; [|lia].
  change (read_magnitude ("0x" ++ hex_digits (S n) v))
    with (if digit_value (hex_digit (v / 16 ^ Z.of_nat n mod 16)) <? 16 then read_digits 16 0 (hex_digits (S n) v) else 0).
  rewrite digit_of_hex by (apply Z.mod_pos_bound; lia). rewrite (proj2 (Z.ltb_lt _ _)) by (apply Z.mod_pos_bound; lia).
  rewrite read_hex, Z.mod_small by done. lia.
Qed.

(** Candidates that the file can hold: none of the three numbers it needs is zero. *)
Definition storable (c : candidate) : Prop :=
  0 < cand_addr c < 2 ^ 32 /\ 0 <= code_lo c < 2 ^ 32 /\ 0 < code_len c < 2 ^ 32 /\ 0 < content_hash c < 2 ^ 64.
Definition reloaded (c : candidate) : candidate :=
  MkCandidate (cand_addr c) (content_hash c) (code_lo c) (code_len c) None 0 false false.
Lemma read_manifest_entry c : storable c -> read_candidate (manifest_entry c) = reloaded c.
Proof.
  intros (H1 & H2 & H3 & H4). unfold read_candidate, get_u64.
  change (json_find "addr" (manifest_entry c)) with (Some (JString ("0x" ++ hex_digits 8 (cand_addr c)))).
  change (json_find "content_hash" (manifest_entry c)) with (Some (JString ("0x" ++ hex_digits 16 (content_hash c)))).
  change (json_find "code_lo" (manifest_entry c)) with (Some (JString ("0x" ++ hex_digits 8 (code_lo c)))).
  change (json_find "code_len" (manifest_entry c)) with (Some (JUnsigned (code_len c))).
  cbv beta iota zeta. rewrite !strtoull_hex by (cbn; lia). unfold reloaded. rewrite !u32_small by (unfold is_u32; lia). f_equal.
  unfold u64. rewrite Z.mod_small by lia. apply u32_small. unfold is_u32. lia.
Qed.

(** The candidates of a list in the chains of their addresses. *)
Definition at_address (a : Z) (l : list candidate) : list candidate := filter (fun c => cand_addr c = a) l.
Lemma at_own_address a l : (forall c, c ∈ l -> cand_addr c = a) -> at_address a l = l.
Proof.
  unfold at_address. induction l as [|c l IH]; intros Hl; [done|]. rewrite filter_cons, decide_True by (apply Hl; by left). f_equal.
  apply IH. intros d Hd. apply Hl. by right.
Qed.
Lemma at_other_address a k l : (forall c, c ∈ l -> cand_addr c = k) -> a <> k -> at_address a l = [].
Proof.
  unfold at_address. induction l as [|c l IH]; intros Hl Hne; [done|]. rewrite filter_cons, decide_False by (rewrite (Hl c) by (by left); congruence).
  apply IH; [|done]. intros d Hd. apply Hl. by right.
Qed.
Lemma load_entries l : forall cs : gmap Z (list candidate),
  Forall storable l -> NoDup ((fun c => (cand_addr c, content_hash c)) <$> l) ->
  (forall c d, c ∈ l -> d ∈ default [] (cs !! cand_addr c) -> content_hash d <> content_hash c) ->
  forall a, default [] (foldl load_entry cs (manifest_entry <$> l) !! a) = default [] (cs !! a) ++ (reloaded <$> at_address a l).
Proof.
  induction l as [|c l IH]; intros cs Hs Hd Hn a; [by rewrite app_nil_r|]. apply list.Forall_cons in Hs as [Hc Hs]. cbn [fmap list_fmap] in Hd.
  apply list.NoDup_cons in Hd as [Hc2 Hd].
  cbn [fmap list_fmap foldl].
  assert (load_entry cs (manifest_entry c) = <[cand_addr c := default [] (cs !! cand_addr c) ++ [reloaded c]]> cs) as ->.
  { change (load_entry cs (manifest_entry c)) with (let r := read_candidate (manifest_entry c) in
      if (cand_addr r =? 0) || (code_len r =? 0) || (content_hash r =? 0) then cs
      else let l := default [] (cs !! cand_addr r) in
        if existsb (fun d => content_hash d =? content_hash r) l then cs else <[cand_addr r := l ++ [r]]> cs).
    rewrite read_manifest_entry by done. destruct Hc as (H1 & _ & H3 & H4). cbn [cand_addr code_len content_hash reloaded]. cbv zeta.
    replace (_ || _) with false by (symmetry; rewrite !orb_false_iff, !Z.eqb_neq; lia).
    destruct (existsb _ _) eqn:E; [|done]. apply existsb_exists in E as (d & Hd1 & Hd2%Z.eqb_eq). apply list_elem_of_In in Hd1.
    by destruct (Hn c d (ltac:(by left)) Hd1). }
  rewrite IH; [|done|done|].
  - unfold at_address. rewrite filter_cons. destruct (decide (a = cand_addr c)) as [->|Hne].
    + rewrite lookup_insert_eq, decide_True by done. cbn. by rewrite <- app_assoc.
    + rewrite lookup_insert_ne, decide_False by congruence. done.
  - intros d e Hin He. destruct (decide (cand_addr c = cand_addr d)) as [Ea|Hne].
    + rewrite <- Ea, lookup_insert_eq in He. cbn [default from_option id] in He. apply elem_of_app in He as [He|He].
      * rewrite Ea in He. by apply (Hn d e); [right|].
      * apply list_elem_of_singleton in He. subst e. cbn [content_hash reloaded]. intros Eh. apply Hc2, list_elem_of_fmap. exists d. by rewrite Ea, Eh.
    + rewrite lookup_insert_ne in He by done. apply (Hn d e); [by right|done].
Qed.
(** What the chains of a session are: each under its address, one of a content. *)
Definition well_keyed (cs : gmap Z (list candidate)) : Prop :=
  forall a l, cs !! a = Some l -> NoDup (content_hash <$> l) /\ forall c, c ∈ l -> cand_addr c = a /\ storable c.
Lemma concat_at_address (kvs : list (Z * list candidate)) a : NoDup kvs.*1 -> (forall k l, (k, l) ∈ kvs -> forall c, c ∈ l -> cand_addr c = k) ->
  at_address a (mjoin kvs.*2) = default [] ((list_to_map kvs : gmap Z (list candidate)) !! a).
Proof.
  induction kvs as [|[k l] kvs IH]; intros Hd Hk; [done|]. cbn [fmap list_fmap fst snd] in Hd. apply list.NoDup_cons in Hd as [Hn Hd].
  change (mjoin ((k, l) :: kvs).*2) with (l ++ mjoin kvs.*2). unfold at_address in *. rewrite filter_app, IH; [|done|intros k' l' Hin; apply Hk; by right].
  cbn [list_to_map foldr fst snd]. change (filter (fun c => cand_addr c = a) l) with (at_address a l).
  assert (forall c, c ∈ l -> cand_addr c = k) as Hl by (apply (Hk k l); by left). destruct (decide (a = k)) as [->|Hne].
  - rewrite lookup_insert_eq, not_elem_of_list_to_map_1, at_own_address by done. apply app_nil_r.
  - by rewrite lookup_insert_ne, (at_other_address a k l) by done.
Qed.

Lemma pairs_distinct (kvs : list (Z * list candidate)) : NoDup kvs.*1 ->
  (forall k l, (k, l) ∈ kvs -> NoDup (content_hash <$> l) /\ forall c, c ∈ l -> cand_addr c = k) ->
  NoDup ((fun c => (cand_addr c, content_hash c)) <$> mjoin kvs.*2).
Proof.
  induction kvs as [|[k l] kvs IH]; intros Hd Hk; [constructor|]. cbn [fmap list_fmap fst snd] in Hd. apply list.NoDup_cons in Hd as [Hn Hd].
  change (mjoin ((k, l) :: kvs).*2) with (l ++ mjoin kvs.*2). rewrite fmap_app. apply list.NoDup_app.
  destruct (Hk k l ltac:(by left)) as [Hl1 Hl2]. split; [|split].
  - clear -Hl1. induction l as [|c l IHl]; [constructor|]. cbn [fmap list_fmap] in *. apply list.NoDup_cons in Hl1 as [H1 H2].
    apply list.NoDup_cons. split; [|by apply IHl]. intros Hin. apply H1. apply list_elem_of_fmap in Hin as (d & [= _ E] & Hd). apply list_elem_of_fmap. by exists d.
  - intros p Hp Hq. apply list_elem_of_fmap in Hp as (c & -> & Hc). apply list_elem_of_fmap in Hq as (d & [= E _] & Hdd).
    apply list_elem_of_join in Hdd as (l' & Hin & Hl'). apply list_elem_of_fmap in Hl' as ([k' l''] & -> & Hm). cbn [snd] in Hin.
    rewrite (Hl2 c Hc), (proj2 (Hk k' l'' ltac:(by right)) d Hin) in E. subst k'. apply Hn, list_elem_of_fmap. by exists (k, l'').
  - apply IH; [done|]. intros k' l' Hin. apply Hk. by right.
Qed.

(** The candidates written to the manifest come back at the next start under their addresses, in their order, with the same content, bounds and hash, without native code and without trust. *)
Theorem manifest_roundtrip cfg (arch_abi : string) (cs : gmap Z (list candidate)) : frag_jit_enabled cfg = true -> frag_cache_enabled cfg = true ->
  well_keyed cs -> forall a,
  default [] (load_fragment_manifest cfg arch_abi (Some (manifest_json arch_abi (mjoin (map_to_list cs).*2))) ∅ !! a) = reloaded <$> default [] (cs !! a).
Proof.
  intros E1 E2 Hw a. unfold load_fragment_manifest. rewrite E1, E2. cbn [negb orb].
  set (l := mjoin (map_to_list cs).*2).
  assert (forall c, c ∈ l -> exists a' l', cs !! a' = Some l' /\ c ∈ l') as Hl.
  { intros c Hc. unfold l in Hc. apply list_elem_of_join in Hc as (l' & Hin & Hl'). apply list_elem_of_fmap in Hl' as ([a' l''] & -> & Hm).
    apply elem_of_map_to_list in Hm. by exists a', l''. }
  change (default [] ((if negb (is_current arch_abi (manifest_json arch_abi l)) then ∅ else foldl load_entry ∅ (manifest_entry <$> l)) !! a)
    = reloaded <$> default [] (cs !! a)).
  assert (is_current arch_abi (manifest_json arch_abi l) = true) as ->.
  { change (bool_decide (arch_abi = arch_abi) = true). by apply bool_decide_true. }
  cbn [negb]. rewrite load_entries.
  - rewrite lookup_empty. cbn [default from_option app]. f_equal. unfold l. rewrite concat_at_address.
    + by rewrite list_to_map_to_list.
    + apply NoDup_fst_map_to_list.
    + intros k l' Hin c Hc. apply elem_of_map_to_list in Hin. by apply (Hw k l' Hin).
  - apply list.Forall_forall. intros c Hc. destruct (Hl c Hc) as (a' & l' & E & Hin). by apply (Hw a' l' E).
  - apply pairs_distinct; [apply NoDup_fst_map_to_list|]. intros k l' Hin. apply elem_of_map_to_list in Hin. destruct (Hw k l' Hin) as [H1 H2].
    split; [done|]. intros c Hc. by apply H2.
  - intros c d _ Hd. rewrite lookup_empty in Hd. by apply elem_of_nil in Hd.
Qed.
End Manifest.
