(* ===== verification/SampleTiers.v ===== *)
(** Missing functions at concrete inputs: a small world whose functions add to a
    register, call back or change the host, and an interpreter that agrees with the
    first of them and gives up after a native call at another address. *)

From Stdlib Require Import ZArith Lia Bool List String.
From stdpp Require Import base list gmap relations strings.
From S2P Require Import Prelude Json GuestMem Rdram Overlays Fragments Tiers TiersSpec.
Open Scope Z_scope.
Open Scope list_scope.

(** Two addresses that miss, near the end of memory, and one that does not. *)
Definition LEAF : Z := 0x807FFFC0.
Definition CALLER : Z := 0x807FFF80.
Definition KNOWN : Z := 0x80000100.

Abbreviation toy_world := (world nat Z unit).
Abbreviation toy_context := (recomp_context unit).
Definition add_v0 (n : Z) (w : toy_world) : toy_world :=
  let c := ctx w in
  set_ctx (Context_ (<[2%nat := nth 2 (gpr c) 0 + n]> (gpr c)) (fpr_u64 c) (hi c) (lo c)
    (dispatch_entry_target c) (dispatch_entry_rejected c) (dispatch_entry_rejected_target c) (rest c)) w.
Definition reject_entry (w : toy_world) : toy_world :=
  let c := ctx w in set_ctx (Context_ (gpr c) (fpr_u64 c) (hi c) (lo c) (dispatch_entry_target c) 1 (dispatch_entry_target c) (rest c)) w.
(** 0 and 4 are leaves, 1 calls the leaf's address, 2 changes the host, 3 has no
    label where it is entered. *)
Definition toy_guest (f : nat) (handler : Z -> toy_world -> option toy_world) (w : toy_world) : option toy_world :=
  match f with
  | 0%nat => Some (add_v0 1 w)
  | 1%nat => handler (s32 LEAF) w
  | 2%nat => Some (outside (ctx w) (rdram w) (overlays w) (host w + 1) w)
  | 3%nat => Some (reject_entry w)
  | _ => Some (add_v0 16 w)
  end.
(** The leaf adds what its third word says; the caller makes a native call and then
    reaches an instruction that the interpreter does not know. *)
Definition toy_interp (native : Z -> toy_world -> option (option toy_world)) (capture : Z -> toy_world -> toy_world) (pc : Z) (w : toy_world) :
  option (bool * toy_world) :=
  if pc =? LEAF then Some (true, add_v0 (if guest_byte (rdram w) (Z.land LEAF 0x1FFFFFFF + 8) =? 0 then 1 else 16) w)
  else if pc =? CALLER then
    match native KNOWN w with Some (Some w') => Some (false, w') | Some None => None | None => Some (false, w) end
  else Some (false, capture pc w).
(** Functions are twelve bytes long; the third word picks the code. *)
Definition toy_bounds (window : list Z) (addr : Z) : option Z := Some 12.
Definition toy_codegen (words : list Z) (addr : Z) : option nat := Some (Z.to_nat (nth 2 words 0)).
Definition toy_settings (discovery : bool) : settings := MkSettings true true true true true discovery 2.
Definition toy_vis (h : Z) : Z := h.
Definition no_relocs (i : nat) : list RelocEntry := [].

Lemma toy_guest_confined : guest_confined toy_guest.
Proof.
  intros R HR Ho f handler w w' Hh E. assert (forall c, R w (set_ctx c w)) as Hc by (intros c; apply (Ho w c (rdram w) (overlays w) (host w))).
  destruct f as [|[|[|[|f]]]]; cbn in E; [| by apply Hh in E| | |]; injection E as <-; first [apply Hc|apply Ho].
Qed.
Lemma toy_interp_confined : interp_confined toy_interp.
Proof.
  intros R HR Ho native cap pc w b w' Hcap Hn E. assert (forall c, R w (set_ctx c w)) as Hc by (intros c; apply (Ho w c (rdram w))).
  unfold toy_interp in E. destruct (pc =? LEAF); [injection E as _ <-; apply Hc|]. destruct (pc =? CALLER); [|injection E as _ <-; apply Hcap].
  destruct (native KNOWN w) as [[w1|]|] eqn:En; [|done|injection E as _ <-; reflexivity]. injection E as _ <-. by apply (Hn KNOWN).
Qed.

Definition toy_start (known : nat) (loaded : list LoadedSection) (cs : gmap Z (list (FragmentCandidate nat))) (missed : Z) : toy_world :=
  MkWorld (Context_ (repeat 0 32) (repeat 0 32) 0 0 0 0 0 tt) ∅ (MkOverlays {[ s32 KNOWN := known ]} loaded [] [] no_fragments) 0
    (MkTier [] ∅ cs None []) (MkTelemetry (fun _ => 0) ∅ [] ∅) (MkThread missed 0 false false).
Abbreviation toy_dispatch discovery sections :=
  (dispatch toy_vis sections no_relocs (toy_settings discovery) toy_bounds toy_codegen toy_guest toy_interp).
Abbreviation toy_call n := (fun f => toy_guest f (toy_dispatch false [] n)).
Definition v0 (w : toy_world) : Z := nth 2 (gpr (ctx w)) 0.

(** * A leaf is compared twice, then trusted *)

Definition leaf_start : toy_world := toy_start 0 [] ∅ LEAF.
Definition leaf_step : option (option served * toy_world) :=
  fragment_tier_step toy_vis [] no_relocs (toy_settings false) toy_bounds toy_codegen toy_interp (toy_call 1) leaf_start.
Definition served_by (r : option (option served * toy_world)) : option served := match r with Some (o, _) => o | None => None end.
Example leaf_agrees : served_by leaf_step = Some (Validated (Outcome true false true true)).
Proof. vm_compute. reflexivity. Qed.
Lemma unvalidated_code_has_no_effect_witness :
  match leaf_step with
  | Some (Some (Validated o), w') =>
      exists w1 wI, same_guest w1 leaf_start /\
        recomp_interpret_function [] no_relocs (toy_settings false) toy_interp (toy_call 1) LEAF w1 = Some (true, wI) /\
        ctx w' = ctx wI /\ (forall p, in_ram p = true -> hbyte (rdram w') p = hbyte (rdram wI) p) /\
        if outcome_device_touch o then same_guest w' wI
        else exists f w0 wN, same_guest w0 leaf_start /\ toy_call 1 f w0 = Some wN /\
          (clean o = true <-> same_registers (ctx wN) (ctx wI) /\ forall p, in_ram p = true -> hbyte (rdram wN) p = hbyte (rdram wI) p) /\
          host w' = host wN /\ overlays w' = overlays wN
  | _ => False
  end.
Proof.
  pose proof leaf_agrees as Ha. destruct leaf_step as [[[s|] w']|] eqn:E; [|discriminate|discriminate]. cbn in Ha. injection Ha as ->.
  apply (unvalidated_code_has_no_effect toy_vis [] no_relocs (toy_settings false) toy_bounds toy_codegen toy_guest toy_interp
    toy_interp_confined toy_guest_confined 1 leaf_start _ w' E).
Defined.

Abbreviation call_leaf := (toy_dispatch false [] 1 (s32 LEAF)).
Definition leaf_session : option toy_world := w1 ← call_leaf leaf_start; w2 ← call_leaf w1; call_leaf w2.
Definition LEAF_HASH : Z := fnv1a_64 (repeat 0 12).
Example trusted_after_two : (fun w => (trail (tier w), v0 w)) <$> leaf_session =
  Some ([Diffed LEAF LEAF_HASH true; Diffed LEAF LEAF_HASH true; Ran_native LEAF LEAF_HASH], 3).
Proof. vm_compute. reflexivity. Qed.
Lemma native_code_is_validated_witness :
  match leaf_session with
  | Some w' =>
      (forall i a h, trail (tier w') !! i = Some (Ran_native a h) ->
         2 <= streak a h (take i (trail (tier w'))) /\ Pinned a h ∉ take i (trail (tier w'))) /\
      (forall a c f, c ∈ chain a w' -> fn c = Some f -> compiled_from toy_bounds toy_codegen a (content_hash c) f) /\
      forall a h c, cand_of a h w' = Some c -> diff_passes c = Z.min 2 (streak a h (trail (tier w')))
  | None => False
  end.
Proof.
  pose proof trusted_after_two as Ha. destruct leaf_session as [w'|] eqn:E; [|discriminate]. clear Ha.
  apply (native_code_is_validated toy_vis [] no_relocs (toy_settings false) toy_bounds toy_codegen toy_guest toy_interp
    toy_interp_confined toy_guest_confined eq_refl leaf_start w').
  - clear E. split; [reflexivity|]. intros a c Hc. unfold chain in Hc. cbn in Hc. rewrite lookup_empty in Hc. by apply elem_of_nil in Hc.
  - apply bind_Some in E as (w1 & E1 & E). apply bind_Some in E as (w2 & E2 & E).
    eapply rtc_l; [left; eexists _, _; exact E1|]. eapply rtc_l; [left; eexists _, _; exact E2|].
    eapply rtc_l; [left; eexists _, _; exact E|]. apply rtc_refl.
Defined.

(** * Aborts, comparisons, the log and the manifest *)

Definition calls_return (f : nat) (w : toy_world) : option toy_world := toy_guest f (fun _ w => Some w) w.
Lemma calls_do_return f w : is_Some (calls_return f w).
Proof. unfold calls_return. destruct f as [|[|[|[|f]]]]; cbn; by eexists. Qed.
Lemma toy_interp_returns pc w : is_Some (recomp_interpret_function [] no_relocs (toy_settings false) toy_interp calls_return pc w).
Proof.
  unfold recomp_interpret_function, toy_interp. destruct (pc =? LEAF); [by eexists|]. destruct (pc =? CALLER); [|by eexists].
  unfold native_call. destruct (func_map (overlays w) !! s32 KNOWN) as [f|]; [|by eexists]. cbn [mbind option_bind].
  match goal with |- context [calls_return f ?w0] => destruct (calls_do_return f w0) as [w1 ->] end. by eexists.
Qed.
Lemma abort_needs_a_stuck_interpreter_witness : interp_discovery_enabled (toy_settings false) = false /\
  (interp_enabled (toy_settings false) = true -> exists w1 w2,
     recomp_interpret_function [] no_relocs (toy_settings false) toy_interp calls_return (g_self_heal_addr (thread w1)) w1 = Some (false, w2)).
Proof.
  apply (abort_needs_a_stuck_interpreter toy_vis [] no_relocs (toy_settings false) toy_bounds toy_codegen toy_interp calls_return
    (toy_start 2 [] ∅ CALLER) calls_do_return toy_interp_returns).
  vm_compute. reflexivity.
Defined.

(** The twin of the function at LEAF, against a recompiled function that agrees and
    one that does not. *)
Definition armed_with (f : nat) : ab_tools nat := snd (tcc_ab_intercept 100 20 LEAF f no_ab).
Definition compared (f : nat) : option (ab_tools nat * toy_world) :=
  tcc_ab_run toy_bounds toy_codegen 20 calls_return LEAF (armed_with f) leaf_start.
Example a_divergence_is_counted : (fun r => (g_ab_total_clean (fst r), g_ab_total_diverge (fst r), v0 (snd r))) <$> compared 4 = Some (0, 1, 16).
Proof. vm_compute. reflexivity. Qed.
Lemma comparison_is_transparent_witness :
  match compared 4 with
  | Some (t', w') => exists w0 wS, same_guest w0 leaf_start /\ calls_return 4 w0 = Some wS /\ ctx w' = ctx wS /\
      (forall p, in_ram p = true -> hbyte (rdram w') p = hbyte (rdram wS) p) /\
      (fst (fst (ab_twin toy_bounds toy_codegen 20 LEAF (MkAb 4%nat None PendingCompile 0 0) (armed_with 4) leaf_start)) = None -> w' = wS)
  | None => False
  end.
Proof.
  pose proof a_divergence_is_counted as Ha. destruct (compared 4) as [[t' w']|] eqn:E; [|discriminate]. clear Ha.
  apply (comparison_is_transparent toy_bounds toy_codegen 20 calls_return LEAF (armed_with 4) leaf_start t' w'
    (MkAb 4%nat None PendingCompile 0 0) eq_refl E).
Defined.

Definition notes : list (Z * InterpReason * Z) :=
  [(LEAF, REASON_FLOOR, 5); (LEAF, REASON_FRAG, 34); (CALLER, REASON_REJECT, 35); (LEAF, REASON_FRAG, 35); (LEAF, REASON_FRAG, 90)].
Lemma at_most_two_lines_witness : let w' := foldl (note_at toy_vis) leaf_start notes in
  lines_of LEAF w' = [New; Chronic] /\
  exists fb, g_interp_fb (stats w') !! LEAF = Some fb /\ first_frame fb = 5 /\ chronic_logged fb = true /\ fallback_hits fb = 4 /\ last_frame fb = 90.
Proof. exact (at_most_two_lines toy_vis leaf_start notes LEAF eq_refl eq_refl). Defined.

Definition leaf_candidate (h : Z) : FragmentCandidate nat := MkCandidate LEAF h LEAF 12 (Some 0%nat) 2 false false.
Definition known_candidates : gmap Z (list (FragmentCandidate nat)) := {[ LEAF := [leaf_candidate LEAF_HASH; leaf_candidate 0xFEDCBA9876543210] ]}.
Lemma manifest_roundtrip_witness :
  default [] (load_fragment_manifest (toy_settings false) "windows-x86_64"
    (Some (manifest_json "windows-x86_64" (mjoin (map_to_list known_candidates).*2))) ∅ !! LEAF) =
  reloaded <$> [leaf_candidate LEAF_HASH; leaf_candidate 0xFEDCBA9876543210].
Proof.
  apply (manifest_roundtrip (toy_settings false) "windows-x86_64" known_candidates eq_refl eq_refl).
  intros a l E. unfold known_candidates in E. apply lookup_singleton_Some in E as [<- <-]. split.
  - vm_compute. constructor; [|constructor; [|constructor]]; [intros [E|E]%elem_of_cons; [discriminate|by apply elem_of_nil in E]|apply not_elem_of_nil].
  - intros c [->|[->|Hc%elem_of_nil]%elem_of_cons]%elem_of_cons; [| |done]; (split; [reflexivity|]); vm_compute; intuition congruence.
Defined.

(** * What the tiers let through *)

(** bgezal $zero, .+12: a call that the leaf test does not know. *)
Definition branch_and_link : hostmem := store_32 (Z.land LEAF 0x1FFFFFFF) 0x04110002 ∅.
Lemma branch_and_link_is_a_leaf : code_word branch_and_link LEAF 0 = 0x04110002 /\ fragment_is_safe_leaf branch_and_link LEAF 12 = true.
Proof. split; vm_compute; reflexivity. Qed.

(** A function that rejects its entry is interpreted; the interpretation calls a
    function that misses at LEAF, and fails: the tiers below then run LEAF again,
    not the address that was called. *)
Definition rejecting : SectionTableEntry nat := MkSection 0x1000 0x81000000 0x20 [MkFunc (Some 3%nat) 0 0x20] 0 0 0xFFFFFFFF.
Definition reject_start : toy_world := toy_start 1 [MkLoaded (s32 CALLER) 0] ∅ 0.
Lemma failed_rejection_runs_another_function :
  (fun w => (trail (tier w), v0 w, counts (stats w) Dispatch_entry_rejects, last (interp_log (stats w)))) <$>
    toy_dispatch false [rejecting] 2 (s32 CALLER) reject_start =
  Some ([Diffed LEAF LEAF_HASH true; Diffed LEAF LEAF_HASH true], 2, 1, Some (MkLine New LEAF (MkFallback REASON_FRAG false 0 0 1 1))).
Proof. vm_compute. reflexivity. Qed.

(** A diff whose interpretation fails undoes registers and memory; what a native
    call did stays, and the floor does it again. *)
Lemma failed_diff_repeats_native_calls :
  (fun w => (host w, trail (tier w))) <$> toy_dispatch true [] 2 (s32 CALLER) (toy_start 2 [] ∅ 0) = Some (2, []).
Proof. vm_compute. reflexivity. Qed.

(** The manifest gives eight bytes to a function of twelve: after it is trusted its
    last word changes, and the old code runs. *)
Definition short_candidate : FragmentCandidate nat := MkCandidate LEAF (fnv1a_64 (repeat 0 8)) LEAF 8 None 0 false false.
Definition third_word_changed (w : toy_world) : toy_world := set_rdram {[ Z.lxor (Z.land LEAF 0x1FFFFFFF + 8) 3 := 4 ]} w.
Definition stale_session (start : toy_world) : option toy_world :=
  w1 ← call_leaf start; w2 ← call_leaf w1; call_leaf (third_word_changed w2).
Lemma short_manifest_length_runs_stale_code :
  v0 <$> stale_session (toy_start 0 [] {[ LEAF := [short_candidate] ]} 0) = Some 3 /\ v0 <$> stale_session leaf_start = Some 18.
Proof. split; vm_compute; reflexivity. Qed.
